(* ===== verification/_CoqProject ===== *)
-Q . S2P
Prelude.v
GoStd.v
Delta.v
DeltaCorrect.v
GoText.v
GoCrypto.v
Escape.v
Deck.v
Pathname.v
Clearsign.v
Timestamp.v
Marshal.v
Legality.v
Parse.v
ParseCorrect.v
DeckWf.v
Canonical.v
RoundTrip.v
Codec.v
CodecParsed.v
Submanifest.v
Zlib.v
Hash.v
XferCard.v
XferDecode.v
XferMessage.v
XferLine.v
XferTotal.v
XferRoundTrip.v
XferMessageCorrect.v
Cone.v
ConeCorrect.v
ConeCanonical.v
ConeSerial.v
ConeSpec.v
Path.v
Bisect.v
Diff.v
DiffCorrect.v
DiffHunks.v
MergeDiff.v
MergeTable.v
MergeLcs.v
MergeTriples.v
MergeSlide.v
Merge3.v
Merge3Walk.v
Merge3Correct.v
MergeProps.v
GoMap.v
Leaf.v
Tag.v
TagWalk.v
TagProps.v
Store.v
Content.v
ContentSpec.v
Cache.v
StoreCorrect.v
ContentCorrect.v
StoreSteps.v
ContentProps.v
Auth.v
Tree.v
TreeWalk.v
TreeLookup.v
FilesProps.v
TreeBuild.v
TreeStored.v
TreeProps.v
Uv.v
UvCorrect.v
UvSync.v
UvExchange.v
UvProps.v
UvEdges.v
Pivot.v
PivotProps.v
HeldSet.v
HeldProps.v
