(* ===== verification/Prelude.v ===== *)
(** * go-libfossil: a verification library

    go-libfossil implements Fossil's version control in Go: artifacts (check-ins
    and other structural records) as canonical text, a store that keeps them
    deltified, and a synchronisation protocol that exchanges them.  This library
    models the codecs on which the rest stands, the artifact store, the file sets
    of check-ins, the tags and leaves of the check-in graph, logins, and the
    algorithms on check-in graphs, sparse-checkout cones and texts, and proves
    them correct.

    ** The parts of the program and what models them

    - Delta encoding (src/internal/delta/delta.go): [Delta] has the reader, the
      base-64 integers, [Checksum], the allocation scan, [Create] with its hash
      table of landmarks, [Apply] and [ApplyInto] with the reuse and growth of
      the output buffer; [DeltaCorrect] its theorems.
    - The artifact codec (src/internal/deck): [Escape] (encode.go), [Deck]
      (deck.go, occurrence.go: the [Deck] record, the order and the
      single-occurrence guard), [Pathname] (pathname.go and the hash predicates
      of parse.go), [Clearsign] (clearsign.go, zcard.go, rcard.go), [Timestamp]
      (timestamp.go), [Marshal] (marshal.go), [Legality] (legality.go) and
      [Parse] (parse.go).  [ParseCorrect], [DeckWf], [Canonical], [RoundTrip],
      [Codec], [CodecParsed] and [Submanifest] hold the proofs.
    - Artifact names and the hash policy (src/internal/hash): [Hash].
    - The sync card codec (src/internal/xfer): [XferCard] (card.go,
      card_tablesync.go, encode.go), [XferDecode] (decode.go) and [XferMessage]
      (message.go, login_cookie.go); [XferLine], [XferTotal], [XferRoundTrip] and [XferMessageCorrect] hold the proofs.
    - Cones, the path sets of sparse checkouts (src/internal/cone): [Cone] has
      cone.go, serial.go and horizon.go; [ConeCorrect] what normalization keeps,
      [ConeCanonical] what build answers, its coverage and canonicity, [ConeSerial] the serialized form, [ConeSpec] the theorems.
    - Paths between check-ins (src/internal/path/path.go): [Path] over the rows
      of the plink table, with its theorem.
    - Bisection (src/internal/bisect): [Bisect] over the vvar table, calling
      [Path], with the session as a step relation.
    - Line diffs (src/internal/diff): [Diff]; [DiffCorrect] is Myers'
      algorithm, [DiffHunks] the hunks and the theorems.
    - The three-way merge (src/internal/merge): [MergeDiff] (utf.go, the lines
      and tokens of fossildiff.go), [MergeLcs] (fossillcs.go), [MergeTriples]
      (the rest of fossildiff.go), [Merge3] (merge3.go, marker.go and the Merge
      strategies).  [MergeTable], [MergeLcs], [MergeTriples] and
      [MergeSlide] show that the diff is an edit; [Merge3Walk] is about the walk
      over two edits, its mirror image and the refinement of the text builder to
      lists of lines, [Merge3Correct] and [MergeProps] have the theorems.
    - Leaves (src/internal/leaf/leaf.go): [Leaf] has the leaf rule, the
      incremental check, the rebuild, the audit and the schedule of rechecks, and
      what each leaves in the table.
    - Tags (src/internal/tag/tag.go, propagate.go): [Tag] applies a tag, runs its
      propagation walk over the plink rows and keeps the events and the leaf
      schedule; [TagWalk] has the walk, [TagProps] the leaf invariant and the theorems.
    - The artifact store (src/internal/blob, src/internal/content): [Store] has
      the tables and the storing calls of blob.go with the stored form of
      compress.go, [Content] the expansion of delta chains, availability,
      deltification and private marks (content.go, available.go, deltify.go,
      private.go), [Cache] the content cache (cache.go, cache_sized.go).
      [ContentSpec] says what an artifact expands to and that expansion finds it
      for any lawful cache ([hook_laws]); [Cache] shows the cache lawful,
      [StoreCorrect] what a storing call writes, [ContentCorrect] that rewriting
      keeps contents and what availability means; [StoreSteps]
      is the store as a transition system and [ContentProps] has the theorems.
    - Logins (src/internal/auth, and the login handling of src/internal/sync):
      [Auth] has the users, their capabilities and invite expiries, the
      verification of a login card (verify.go), the authentication state of a
      request (handler.go) and the card a client builds (sync/auth.go).
    - The file sets of check-ins (src/internal/manifest): [Tree] has the walk of
      a tree manifest with its explicit stack, the lookup of one name and the
      enumeration over flat, delta and tree check-ins (tree.go, files.go);
      [TreeWalk] and [TreeLookup] relate the walk and the lookup to the
      recursive reading of a tree, against the interface [Subtrees] of what
      resolving a sub-manifest promises, which [FilesProps] discharges for the
      store; [TreeBuild] has the canonical partition and construction
      (treebuild.go) and the storing of a check-in's tree
      (submanifest_write.go), [TreeStored] what it writes, [TreeProps] the
      theorems and a small repository.
    - Unversioned files (src/internal/uv, and their cards in src/internal/sync):
      [Uv] has the table, the cached catalog hash and every operation on them;
      [UvSync] the client's and the server's handling of the uv cards
      (client.go, handler_uv.go, handler.go) and the rounds of a session
      (session.go) that has nothing else to exchange.  [UvCorrect] says when a
      row is newer and what receiving one leaves, [UvExchange] how far one round
      brings each name, [UvProps] that the rounds end and where; [UvEdges] is
      the table as a transition system, with the corners and a small session.
    - Merge bases (src/internal/merge/ancestor.go): [Pivot] has the search for a
      pivot over plink and event rows with its queue; [PivotProps] the invariant
      of the search, the theorems and a small graph.
    - Held sets (src/internal/horizon/heldset.go): [HeldSet] has the check-in
      graph as it is read and extended, the bounded walks, the held set under
      both rules, its placement and the test of a cursor; [HeldProps] states the
      draft's rules ([keeps]) and that the walks compute them.
    - Go's standard library, as far as these parts call it: [GoStd] (comparison,
      sort.Slice, decimal numerals), [GoText] (UTF-8, case, prefixes, hex,
      strings.Fields),
      [GoCrypto] (MD5, SHA-1) and [Zlib] (compress/zlib: an executable inflate,
      and the writer behind a class).

    The parts interact by calls: xfer uses the escapes and the pathname test of
    deck and the hash predicates; deck uses MD5; a cone's members pass the
    pathname tests of deck and its digest is a SHA3 name; a bisection's session
    calls the path search for each step; applying a tag schedules leaf rechecks;
    the store names artifacts by the hash policy, compresses with zlib and
    replays deltas; a file set is read by expanding and parsing manifests of the
    store, a sparse one through the predicate of a cone, and a tree is written
    through the marshallers and the storing calls; a login is verified on a
    decoded sync message; an unversioned file is named by the hash policy, and
    its session runs under the capabilities a login has granted.

    ** How the code is represented

    A string or a byte slice is a list of bytes; where nil and empty slices
    differ the model has an [option] or a flag.  Integers are [Z], with
    wrap-around written out ([u32], [u64], [i64]) wherever it can occur.  A call
    that can fail is an [outcome]: a value, an error, a panic, or [Diverge],
    which a loop answers when its fuel is spent.  Loops over the input take the
    input's length as fuel; the walk of a tree may resolve [maxTreeNodes]
    sub-manifests, as the code lets it, and between two of them takes one step
    for each card and frame on its stack.  The totality theorems ([create_apply_roundtrip],
    [parse_total], [decode_total], [cone_parse_closed], [shortest_route],
    [myers_minimal], [text_diff_edits], [walk_accounts], [files_total]) show that
    no fuel runs out and no panic is reached.  A reader or cursor is the bytes still to be read, or the bytes and
    a position; a parser threads it explicitly.  Errors keep their format and
    arguments; the rendered text is not modelled.

    Code outside the repository is a parameter with its documented laws, each
    inhabited by an instance: [GoSort] (sort.Slice gives some ordered
    permutation), [RowOrder] and [TableOrder] (a query without ORDER BY gives its
    rows, and ranging over a map its keys, in some order), [GoUnicode] (lower-casing outside ASCII), [GoGrow] (the
    capacity slices.Grow leaves), [Zlib] (what a zlib writer wrote reads back),
    [Sha3] (32-byte digests).

    ** What the theorems show

    - Delta: [create_apply_roundtrip] (Create's delta rebuilds the target, all
      sizes), [applyinto_buffer_irrelevant] (the destination buffer never
      changes the answer), [apply_length], [scan_output_size_exact],
      [getint_no_wrap], [bestmatch_sound], [checksum_weighted].
    - Artifacts: [codec_roundtrip] (Parse after Marshal is the normal form),
      [reparse_stable] (Marshal after Parse is stable), [parse_wf] (the type
      invariant of a parsed deck), [parse_total], [parse_checksum] with its real
      exception [parse_accepts_unverified], [leaf_roundtrip],
      [interior_roundtrip], [escape_roundtrip], [simple_pathname_components],
      [timestamp_roundtrip], [strip_clearsign_spec], and the edges
      [zero_date_lost] and [timestamp_edges].
    - Names: [sha3_promotion] (a repository that has met SHA3 stays with it).
    - Sync: [message_roundtrip], [container_roundtrip], [login_cookie_equiv]
      (what is sent is received), [decode_total] and [decode_invariant] (hostile
      input is answered, within the inflation budget), [nonce_binds_tail] (what
      a login signature covers), and the edges [login_cookie_edges].

    - Cones: [build_accepts] (when a cone is accepted), [build_coverage] (it
      covers what the given members cover), [build_canonical] (equal coverage is
      equality, so the digest is a cache key), [cone_roundtrip],
      [cone_parse_closed] (stored state fails closed), [pruning_sound].
    - Check-in graphs: [shortest_route] (a shortest route or none exists),
      [bisect_converges] (testing what Next names ends, at an adjacent good and
      bad check-in, within log2 steps).
    - Tags and leaves: [propagate_exact] (a walk changes exactly the rows its tag
      takes over), [apply_tags_audit] (tag applications keep the leaf table
      right), [batch_is_rebuild] (the incremental recheck equals the rebuild),
      [tag_newest_wins], and the edge [tag_order_matters].
    - The store: [expand_exact] (an expansion answers the replay of its chain,
      bound to its name, or an error), [content_survives] (no sequence of calls
      loses or changes an artifact), [deltify_preserves], [store_readback],
      [cache_transparent] and [cache_survives] (the cache changes no answer and
      needs no invalidation), [available_exact], and the edge [memo_poisoned].
    - File sets: [tree_walk_exact] (the stack walk answers exactly when the
      references denote an ordered tree, and then its leaves' files),
      [lookup_agrees] (one name's lookup agrees with the listing),
      [sparse_listing] (a narrowed listing is the listing narrowed),
      [files_total], [partition_bounds], and [tree_roundtrip] (a stored tree is
      its files again).
    - Logins: [login_exact] (which logins are verified), [login_accepted] (the
      client's login is), [login_grants] (what a request may do), and
      [invite_expiry].
    - Merge bases: [pivot_newest] (the newest common ancestor, where parents are
      older than their children), [pivot_common] (on any graph a common ancestor,
      or none), [merge_base], and the corner [skewed_pivot].
    - Held sets: [held_exact] (the held set is what the draft keeps),
      [extend_is_reload] (an extended graph is a freshly read one),
      [joined_after_exact] (what a cursor asks), [keeps_closed].
    - Unversioned files: [uv_converges] (a session between a client and a server
      that lets it read and write ends with equal catalogs, every name at its
      latest row on both sides), [uv_hash_fresh] (no operation leaves an outdated
      catalog hash cached), and the corners [nil_map_write],
      [undated_no_request], [retimed_still_queued] and [deletion_tie].
    - Texts: [myers_minimal] (a least edit script, always), [hunks_patch] (the
      hunks are a patch), and the edges [unified_edges].
    - Merges: [text_diff_edits] (the merge's own diff always answers, with an
      edit), [merge_unchanged] (merging with an unchanged version changes
      nothing), [merge_symmetric] (a clean merge does not depend on the sides),
      [walk_accounts] (every line of the three texts is accounted for),
      [conflicts_marked] (a conflict is found again by its markers), and the
      edges [merge_edges], where a clean merge loses text.

    ** Bounds

    Sizes are those of the code: 2^31 - 1 for a payload, 64 MiB for a
    decompressed body, 1 GiB of cfile inflation per message.  The cfile round
    trip asks for content below 2^27 bytes, since a larger size prefix can look
    like a zlib header and the reader tries that form first.  A session has
    [MaxRounds] (100) rounds: one for the catalogs, at most two that settle what
    was asked for and the rest of the budget's remainder, and the others each
    send a full budget, so content below 98 budgets always gets through.  The
    walks of a held set share a budget of 2^20 visits, which n check-ins cannot
    use up while n (n + 2) is within it; their fuel is what the budget leaves.  A
    pivot search examines at most as many check-ins as its limit, and where
    parents are older at most one for each row and secondary; its fuel is a
    parameter.

    ** What is not modelled

    Database access, the working directory, processes, HTTP and the command
    line.  Database queries that the modelled code makes are taken to answer;
    the rows they read are part of the state or parameters.  A failed
    transaction's writes are undone, so a failed call is its error alone.  In the
    store the rcvid of a row, receipts and fault injection (simio) are left out,
    the mutex makes the cache's calls one at a time, and the sweeps over the
    store (compact, cluster, sparse and memo files of src/internal/content) are
    not modelled; in the tags, AddTag is not, and SQLite's julianday is a
    parameter.  The expansion of a chain stops at [maxDeltaChainDepth] rows, which
    is its fuel.  The suggested
    resolution of a merge conflict is modelled; that it always answers is not
    proved (a token above 32767 bytes is compared and counted wrongly).  Of the
    users, invite tokens are left out; of the file sets, the memo of parsed
    nodes (a nil cache is passed), [MergeParentFiles], and the costs in floating
    point by which the partition parameter is selected and re-tuned.  The
    derived tables of crosslinking, annotate, renames and what the sync sessions
    exchange besides unversioned files are SQL or loops around the parts modelled
    here, and are left out; SQLite's datetime is a parameter. *)

From stdpp Require Export base tactics list numbers decidable strings.
From Stdlib Require Export ZArith Lia.
From Stdlib Require Import Zbitwise.
From Stdlib Require Export Strings.Byte.
#[export] Set Default Goal Selector "!".
#[export] Set Warnings "-clear-no-such-hyp".
#[global] Open Scope Z_scope.

(** ** Bytes, Go strings and Go slices

    A Go [string] and the contents of a [[]byte] are both [list byte]. *)
Abbreviation bytes := (list byte).


(** [bs "abc"] is the Go string literal "abc". *)
Definition bs (s : string) : bytes := String.list_byte_of_string s.
Arguments bs s%_string.

(** The unsigned value of a byte, as Go's [uint64(b)]. *)
Definition bz (b : byte) : Z := Z.of_N (Byte.to_N b).

(** Go's [byte(v)] conversion: the low eight bits of [v]. *)
Definition zb (v : Z) : byte :=
  default x00 (Byte.of_N (Z.to_N (v mod 256))).

(** Go's [len]. *)
Definition len {A} (l : list A) : Z := Z.of_nat (length l).

(** [sub lo hi l] is the slice expression [l[lo:hi]] for in-range bounds. *)
Definition sub {A} (lo hi : Z) (l : list A) : list A :=
  take (Z.to_nat (hi - lo)) (drop (Z.to_nat lo) l).

(** ** Fixed-width integers: the conversions write the wrap-around out *)
Definition u32 (z : Z) : Z := z mod 2 ^ 32.
Definition u64 (z : Z) : Z := z mod 2 ^ 64.
Definition i64 (z : Z) : Z := (z + 2 ^ 63) mod 2 ^ 64 - 2 ^ 63.
Definition MaxUint64 : Z := 2 ^ 64 - 1.
Definition MaxInt64 : Z := 2 ^ 63 - 1.

(** ** Outcomes

    What a call can do: return a value, return a non-nil [error], or panic.
    [Diverge] is what a fuelled loop answers when its fuel runs out; every
    development file proves that it is never the answer. *)
Inductive outcome (E A : Type) : Type :=
| Ok (a : A)
| Err (e : E)
| Panic (msg : string)
| Diverge.
Arguments Ok {E A} a.
Arguments Err {E A} e.
Arguments Panic {E A} msg%_string.
Arguments Diverge {E A}.

Definition obind {E A B} (m : outcome E A) (k : A -> outcome E B) : outcome E B :=
  match m with
  | Ok a => k a
  | Err e => Err e
  | Panic s => Panic s
  | Diverge => Diverge
  end.

Declare Scope go_scope.
Delimit Scope go_scope with go.
Notation "'let?' x := m 'in' k" := (obind m (fun x => k))
  (at level 10, x pattern, m at level 100, k at level 200) : go_scope.
Notation "'ensure' b 'else' e 'in' k" := (if b then k else Err e)
  (at level 10, b at level 100, e at level 100, k at level 200) : go_scope.
#[global] Open Scope go_scope.

(** Relabel the error of a call, as [fmt.Errorf("...: %w", err)] does. *)
Definition wrap_err {E F A} (f : E -> F) (m : outcome E A) : outcome F A :=
  match m with
  | Ok a => Ok a
  | Err e => Err (f e)
  | Panic s => Panic s
  | Diverge => Diverge
  end.

(** The call returned: with a value or with an error. *)
Definition returns {E A} (m : outcome E A) : Prop :=
  match m with Ok _ | Err _ => True | _ => False end.

Lemma returns_bind {E A B} (m : outcome E A) (k : A -> outcome E B) :
  returns m -> (forall a, m = Ok a -> returns (k a)) -> returns (obind m k).
Proof. destruct m; simpl; intros H1 H2; try tauto. by apply H2. Qed.

Lemma obind_ok {E A B} (m : outcome E A) (k : A -> outcome E B) b :
  obind m k = Ok b -> exists a, m = Ok a /\ k a = Ok b.
Proof. destruct m; simpl; naive_solver. Qed.

Lemma returns_wrap_err {E F A} (f : E -> F) (m : outcome E A) :
  returns m -> returns (wrap_err f m).
Proof. by destruct m. Qed.

(** A call that returns no error, made where errors are returned. *)
Definition never {E A} (m : outcome Empty_set A) : outcome E A :=
  wrap_err (fun e : Empty_set => match e with end) m.

Lemma returns_never_ok {A} (m : outcome Empty_set A) : returns m -> exists a, m = Ok a.
Proof. destruct m; try done. eauto. Qed.

(** Go's [a && b] and [a || b]: [b] is evaluated only where [a] leaves it
    open. *)
Definition and_also {E} (a b : outcome E bool) : outcome E bool :=
  obind a (fun x => if x : bool then b else Ok false).
Definition or_else {E} (a b : outcome E bool) : outcome E bool :=
  obind a (fun x => if x : bool then Ok true else b).

(** The call returned a value that satisfies [Q]: a weakest precondition, by
    which a body is run step by step. *)
Definition yields {E A} (m : outcome E A) (Q : A -> Prop) : Prop :=
  match m with Ok a => Q a | _ => False end.

Lemma yields_bind {E A B} (m : outcome E A) (k : A -> outcome E B) Q :
  yields m (fun a => yields (k a) Q) -> yields (obind m k) Q.
Proof. by destruct m. Qed.

Lemma yields_mono {E A} (m : outcome E A) (P Q : A -> Prop) :
  yields m P -> (forall a, P a -> Q a) -> yields m Q.
Proof. destruct m; simpl; auto. Qed.

Lemma yields_ok {E A} (m : outcome E A) Q : yields m Q <-> exists a, m = Ok a /\ Q a.
Proof. destruct m; simpl; naive_solver. Qed.

(** ** Development tactics *)

(** Run one call: by a lemma, leaving its answer. *)
Ltac run lem := apply yields_bind; eapply yields_mono; [lem|simpl].

(** Split a successful computation into its successful steps. *)
Ltac ok_inv :=
  repeat match goal with
  | H : obind _ _ = Ok _ |- _ =>
      let a := fresh "a" in let H1 := fresh "Hok" in let H2 := fresh "Hk" in
      apply obind_ok in H; destruct H as (a & H1 & H2)
  | H : Ok _ = Ok _ |- _ => injection H as H; subst
  | H : Err _ = Ok _ |- _ => discriminate H
  | H : Panic _ = Ok _ |- _ => discriminate H
  | H : Diverge = Ok _ |- _ => discriminate H
  end.

(** Case on the first [if]/[match] scrutinee of the goal, keeping the equation. *)
Ltac case_goal :=
  match goal with
  | |- context [match ?x with _ => _ end] =>
      lazymatch x with
      | context [match _ with _ => _ end] => fail
      | _ => let E := fresh "E" in destruct x eqn:E
      end
  end.

(** The same in a hypothesis. *)
Ltac case_hyp H :=
  match type of H with
  | context [match ?x with _ => _ end] =>
      lazymatch x with
      | context [match _ with _ => _ end] => fail
      | _ => let E := fresh "E" in destruct x eqn:E
      end
  end.

(** Decide a closed fact about one byte by running it on all 256. *)
Ltac by_bytes b :=
  destruct b; vm_compute;
  first [reflexivity | discriminate | tauto | intuition discriminate | intuition congruence].

(** Boolean tests on [Z] become propositions. *)
Ltac zbool :=
  repeat match goal with
  | H : (_ <? _) = true |- _ => apply Z.ltb_lt in H
  | H : (_ <? _) = false |- _ => apply Z.ltb_ge in H
  | H : (_ <=? _) = true |- _ => apply Z.leb_le in H
  | H : (_ <=? _) = false |- _ => apply Z.leb_gt in H
  | H : (_ =? _) = true |- _ => apply Z.eqb_eq in H
  | H : (_ =? _) = false |- _ => apply Z.eqb_neq in H
  | H : (_ && _) = true |- _ => apply andb_true_iff in H; destruct H
  | H : (_ && _) = false |- _ => apply andb_false_iff in H
  | H : (_ || _) = true |- _ => apply orb_true_iff in H
  | H : (_ || _) = false |- _ => apply orb_false_iff in H; destruct H
  | H : negb _ = true |- _ => apply negb_true_iff in H
  | H : negb _ = false |- _ => apply negb_false_iff in H
  end.

(** ** Lemmas on bytes *)
#[export] Instance byte_eq_decision : EqDecision byte := Byte.byte_eq_dec.

Lemma byte_eqb_eq (a b : byte) : Byte.eqb a b = true <-> a = b.
Proof.
  split; [apply Byte.byte_dec_bl | apply Byte.byte_dec_lb].
Qed.

Lemma byte_eqb_refl (a : byte) : Byte.eqb a a = true.
Proof. by apply byte_eqb_eq. Qed.

Lemma byte_eqb_neq (a b : byte) : Byte.eqb a b = false <-> a <> b.
Proof.
  rewrite <- byte_eqb_eq. destruct (Byte.eqb a b); naive_solver.
Qed.

Lemma bz_range (b : byte) : 0 <= bz b < 256.
Proof.
  unfold bz. pose proof (Byte.to_N_bounded b). lia.
Qed.

Lemma bz_inj (a b : byte) : bz a = bz b -> a = b.
Proof.
  unfold bz. intros H. apply N2Z.inj in H.
  apply (f_equal Byte.of_N) in H. rewrite !Byte.of_to_N in H. congruence.
Qed.

Lemma zb_bz (b : byte) : zb (bz b) = b.
Proof. by_bytes b. Qed.

Lemma bz_zb (v : Z) : bz (zb v) = v mod 256.
Proof.
  unfold zb. pose proof (Z.mod_pos_bound v 256 ltac:(lia)) as Hr.
  set (n := Z.to_N (v mod 256)).
  destruct (Byte.of_N n) as [b|] eqn:E; simpl.
  - apply Byte.to_of_N in E. unfold bz. rewrite E. subst n. lia.
  - apply Byte.of_N_None_iff in E. subst n. lia.
Qed.

Lemma bz_zb_small (v : Z) : 0 <= v < 256 -> bz (zb v) = v.
Proof. intros. rewrite bz_zb. by apply Z.mod_small. Qed.

(** ** Lemmas on lengths and slices *)
Lemma len_nonneg {A} (l : list A) : 0 <= len l.
Proof. unfold len. lia. Qed.

Lemma len_nil {A} : len (@nil A) = 0.
Proof. done. Qed.

Lemma len_cons {A} (x : A) l : len (x :: l) = 1 + len l.
Proof. unfold len. simpl length. lia. Qed.

Lemma len_app {A} (l k : list A) : len (l ++ k) = len l + len k.
Proof. unfold len. rewrite length_app. lia. Qed.

Lemma len_zero {A} (l : list A) : len l = 0 -> l = [].
Proof. destruct l; [done|]. rewrite len_cons. pose proof (len_nonneg l). lia. Qed.

Lemma len_take {A} (n : Z) (l : list A) :
  0 <= n <= len l -> len (take (Z.to_nat n) l) = n.
Proof. intros. unfold len in *. rewrite length_take. lia. Qed.

Lemma len_drop {A} (n : Z) (l : list A) :
  0 <= n <= len l -> len (drop (Z.to_nat n) l) = len l - n.
Proof. intros. unfold len in *. rewrite length_drop. lia. Qed.

Lemma len_sub {A} lo hi (l : list A) :
  0 <= lo <= hi -> hi <= len l -> len (sub lo hi l) = hi - lo.
Proof.
  intros. unfold sub. rewrite len_take; [done|].
  rewrite len_drop; lia.
Qed.

Lemma take_len_app {A} (l k : list A) : take (Z.to_nat (len l)) (l ++ k) = l.
Proof. unfold len. rewrite Nat2Z.id. by rewrite take_app_length. Qed.

Lemma drop_len_app {A} (l k : list A) : drop (Z.to_nat (len l)) (l ++ k) = k.
Proof. unfold len. rewrite Nat2Z.id. by rewrite drop_app_length. Qed.

Create Rewrite HintDb len.
#[export] Hint Rewrite @len_nil @len_cons @len_app : len.

(** Normalise lengths everywhere and finish with [lia]. *)
Ltac len_lia :=
  repeat match goal with
  | l : list _ |- _ =>
      lazymatch goal with
      | H : 0 <= len l |- _ => fail
      | _ => pose proof (len_nonneg l)
      end
  end;
  autorewrite with len in *; lia.

Lemma u64_small z : 0 <= z < 2 ^ 64 -> u64 z = z.
Proof. apply Z.mod_small. Qed.
Lemma u32_small z : 0 <= z < 2 ^ 32 -> u32 z = z.
Proof. apply Z.mod_small. Qed.
Lemma i64_small z : - 2 ^ 63 <= z < 2 ^ 63 -> i64 z = z.
Proof. intros. unfold i64. rewrite Z.mod_small; lia. Qed.
Lemma u32_range z : 0 <= u32 z < 2 ^ 32.
Proof. apply Z.mod_pos_bound. lia. Qed.
Lemma u64_range z : 0 <= u64 z < 2 ^ 64.
Proof. apply Z.mod_pos_bound. lia. Qed.

Lemma land_le_r (a b : Z) : 0 <= b -> Z.land a b <= b.
Proof.
  intros Hb. pose proof (Z.sub_land_same_l b a) as H.
  assert (0 <= Z.land b (Z.lnot a)) by (apply Z.land_nonneg; by left).
  rewrite (Z.land_comm a b). lia.
Qed.
