(* ===== verification/GoStd.v ===== *)
(** * The parts of Go's standard library the sources call

    [strings.Compare], [strings.LastIndexByte], [strings.ToLower] on ASCII,
    [sort.Slice], the [%d] verb of [fmt], [strconv.ParseInt]/[Atoi],
    [encoding/hex] and [utf8.DecodeRuneInString].  [sort.Slice] is not stable
    and its order of equal elements is unspecified, so it is an interface with
    the laws its documentation states; the models are proved against the
    interface and insertion sort inhabits it. *)

From S2P Require Import Prelude.
From Stdlib Require Import Sorting.Sorted.

(** ** strings.Compare *)
Fixpoint cmp_bytes (a b : bytes) : comparison :=
  match a, b with
  | [], [] => Eq
  | [], _ :: _ => Lt
  | _ :: _, [] => Gt
  | x :: a', y :: b' =>
      match bz x ?= bz y with Eq => cmp_bytes a' b' | c => c end
  end.

(** Go reports the comparison as -1, 0 or 1. *)
Definition strings_Compare (a b : bytes) : Z :=
  match cmp_bytes a b with Lt => -1 | Eq => 0 | Gt => 1 end.

Definition bytes_eqb (a b : bytes) : bool := bool_decide (a = b).

Lemma bytes_eqb_eq a b : bytes_eqb a b = true <-> a = b.
Proof. apply bool_decide_eq_true. Qed.
Lemma bytes_eqb_refl a : bytes_eqb a a = true.
Proof. by apply bytes_eqb_eq. Qed.
Lemma bytes_eqb_neq a b : bytes_eqb a b = false <-> a <> b.
Proof. apply bool_decide_eq_false. Qed.

Lemma cmp_bytes_eq a b : cmp_bytes a b = Eq <-> a = b.
Proof.
  revert b; induction a as [|x a IH]; intros [|y b]; simpl; [done..|].
  destruct (Z.compare_spec (bz x) (bz y)) as [E|E|E].
  - rewrite IH. apply bz_inj in E. split; congruence.
  - split; [done|]. intros [= -> ->]. lia.
  - split; [done|]. intros [= -> ->]. lia.
Qed.

Lemma cmp_bytes_refl a : cmp_bytes a a = Eq.
Proof. by apply cmp_bytes_eq. Qed.

Lemma cmp_bytes_antisym a b : cmp_bytes b a = CompOpp (cmp_bytes a b).
Proof.
  revert b; induction a as [|x a IH]; intros [|y b]; simpl; [done..|].
  rewrite (Z.compare_antisym (bz x) (bz y)).
  destruct (bz x ?= bz y); simpl; [apply IH|done..].
Qed.

Lemma cmp_bytes_trans a b c :
  cmp_bytes a b = Lt -> cmp_bytes b c = Lt -> cmp_bytes a c = Lt.
Proof.
  revert b c; induction a as [|x a IH]; intros [|y b] [|z c]; simpl; try done.
  destruct (Z.compare_spec (bz x) (bz y)), (Z.compare_spec (bz y) (bz z)),
    (Z.compare_spec (bz x) (bz z)); try done; try lia; eauto.
Qed.

Lemma strings_Compare_lt a b : (strings_Compare a b <? 0) = true <-> cmp_bytes a b = Lt.
Proof. unfold strings_Compare. by destruct (cmp_bytes a b). Qed.
Lemma strings_Compare_gt a b : (strings_Compare a b >? 0) = true <-> cmp_bytes b a = Lt.
Proof.
  unfold strings_Compare. rewrite (cmp_bytes_antisym a b).
  by destruct (cmp_bytes a b).
Qed.

(** The decidable strict order [strings.Compare] induces. *)
Definition blt (a b : bytes) : bool := strings_Compare a b <? 0.

Lemma blt_irrefl a : blt a a = false.
Proof. unfold blt, strings_Compare. by rewrite cmp_bytes_refl. Qed.
Lemma blt_trans a b c : blt a b = true -> blt b c = true -> blt a c = true.
Proof. unfold blt. rewrite !strings_Compare_lt. apply cmp_bytes_trans. Qed.
Lemma blt_total a b : blt a b = true \/ a = b \/ blt b a = true.
Proof.
  unfold blt. rewrite !strings_Compare_lt, (cmp_bytes_antisym a b).
  destruct (cmp_bytes a b) eqn:E; [|tauto..].
  apply cmp_bytes_eq in E. tauto.
Qed.

(** ** sort.Slice *)

(** [string(c)] and the [%c] verb on a byte: the UTF-8 encoding of the rune
    with its value, two bytes from 0x80 on. *)
Definition byte_rune (c : byte) : bytes :=
  if bz c <? 0x80 then [c] else [zb (0xC0 + bz c / 64); zb (0x80 + bz c mod 64)].

Lemma byte_rune_ascii c : bz c < 0x80 -> byte_rune c = [c].
Proof. intros H. unfold byte_rune. by rewrite (proj2 (Z.ltb_lt _ _)). Qed.

(** What [sort.Slice] needs of its [less] argument. *)
Record strict_weak {A} (less : A -> A -> bool) : Prop := {
  sw_irrefl x : less x x = false;
  sw_trans x y z : less x y = true -> less y z = true -> less x z = true;
  sw_incomp x y z : less y x = false -> less z y = false -> less z x = false;
}.

(** [sort.Slice]: some permutation of the input with no inversion. *)
Class GoSort := {
  sort_slice : forall {A : Type}, (A -> A -> bool) -> list A -> list A;
  sort_slice_perm : forall {A} less (l : list A), Permutation (sort_slice less l) l;
  sort_slice_ordered : forall {A} less (l : list A), strict_weak less ->
    StronglySorted (fun x y => less y x = false) (sort_slice less l);
}.


(** Insertion sort satisfies the interface. *)
Section insertion.
Context {A : Type} (less : A -> A -> bool).

Fixpoint insert_one (x : A) (l : list A) : list A :=
  match l with
  | [] => [x]
  | y :: l' => if less y x then y :: insert_one x l' else x :: l
  end.

Definition insertion_sort (l : list A) : list A := foldr insert_one [] l.

Lemma insert_one_perm x l : Permutation (insert_one x l) (x :: l).
Proof.
  induction l as [|y l IH]; simpl; [done|].
  destruct (less y x); [|done]. rewrite IH. apply perm_swap.
Qed.

Lemma insertion_sort_perm l : Permutation (insertion_sort l) l.
Proof.
  induction l as [|x l IH]; simpl; [done|]. by rewrite insert_one_perm, IH.
Qed.

Lemma insert_one_sorted x l : strict_weak less ->
  StronglySorted (fun x y => less y x = false) l ->
  StronglySorted (fun x y => less y x = false) (insert_one x l).
Proof.
  intros Hsw. induction 1 as [|y l Hs IH Hf]; simpl.
  { repeat constructor. }
  destruct (less y x) eqn:E.
  - constructor; [done|]. rewrite insert_one_perm. constructor; [|done].
    destruct (less x y) eqn:E2; [|done].
    pose proof (sw_trans _ Hsw _ _ _ E E2) as H.
    by rewrite (sw_irrefl _ Hsw) in H.
  - constructor; [by constructor|]. constructor; [done|].
    eapply Forall_impl; [exact Hf|]. intros z Hz. by eapply (sw_incomp _ Hsw).
Qed.

Lemma insertion_sort_sorted l : strict_weak less ->
  StronglySorted (fun x y => less y x = false) (insertion_sort l).
Proof.
  intros Hsw. induction l; simpl; [constructor|]. by apply insert_one_sorted.
Qed.
End insertion.

#[export] Instance insertion_GoSort : GoSort := {
  sort_slice A := @insertion_sort A;
  sort_slice_perm A := @insertion_sort_perm A;
  sort_slice_ordered A less l := @insertion_sort_sorted A less l;
}.

(** A strictly ascending list is the only sorted arrangement of its elements,
    so sorting anything with these elements produces it. *)
Definition ascending {A} (less : A -> A -> bool) (l : list A) : Prop :=
  StronglySorted (fun x y => less x y = true) l.

Lemma ascending_unique {A} (less : A -> A -> bool) (l k : list A) :
  strict_weak less -> ascending less l ->
  StronglySorted (fun x y => less y x = false) k -> Permutation k l -> k = l.
Proof.
  intros Hsw Hl. revert k. induction Hl as [|x l Hs IH Hf]; intros k Hk Hp.
  { by apply Permutation_nil_r in Hp. }
  destruct k as [|y k]; [by apply Permutation_nil_l in Hp|].
  inversion Hk as [|? ? Hk' Hy]; subst.
  assert (x = y) as ->.
  { assert (y ∈ x :: l) as [->|Hyl]%elem_of_cons by (rewrite <- Hp; left); [done|].
    assert (x ∈ y :: k) as [->|Hxk]%elem_of_cons by (rewrite Hp; left); [done|].
    rewrite Forall_forall in Hf, Hy. specialize (Hf y Hyl). specialize (Hy x Hxk).
    congruence. }
  f_equal. apply IH; [done|]. by eapply Permutation_cons_inv.
Qed.

Lemma sort_slice_ascending `{GoSort} {A} (less : A -> A -> bool) (l : list A) :
  strict_weak less -> ascending less l -> sort_slice less l = l.
Proof.
  intros Hsw Hl. eapply ascending_unique; eauto.
  - by apply sort_slice_ordered.
  - apply sort_slice_perm.
Qed.

(** Comparing a key of the elements. *)
Lemma strict_weak_key {A} (key : A -> bytes) :
  strict_weak (fun x y => strings_Compare (key x) (key y) <? 0).
Proof.
  split.
  - intros x. apply blt_irrefl.
  - intros x y z. apply blt_trans.
  - intros x y z Hyx Hzy. destruct (strings_Compare (key z) (key x) <? 0) eqn:E; [|done].
    fold (blt (key y) (key x)) in Hyx. fold (blt (key z) (key y)) in Hzy.
    fold (blt (key z) (key x)) in E.
    destruct (blt_total (key y) (key z)) as [Hl|[He|Hl]]; [|congruence..].
    pose proof (blt_trans _ _ _ Hl E). congruence.
Qed.

(** ** Decimal numerals: fmt's %d and strconv *)
Definition is_digit (c : byte) : bool := (48 <=? bz c) && (bz c <=? 57).

Fixpoint dec_aux (fuel : nat) (n : Z) (acc : bytes) : bytes :=
  match fuel with
  | O => acc
  | S f => let acc' := zb (48 + n mod 10) :: acc in
           if n / 10 =? 0 then acc' else dec_aux f (n / 10) acc'
  end.

(** [%d] of a non-negative integer. *)
Definition dec_nat (n : Z) : bytes := dec_aux (S (Z.to_nat (Z.log2 n))) n [].
(** [%d]. *)
Definition dec (z : Z) : bytes := if z <? 0 then x2d :: dec_nat (- z) else dec_nat z.

(** The value of a run of digits, [None] at the first other byte. *)
Fixpoint dec_val (acc : Z) (l : bytes) : option Z :=
  match l with
  | [] => Some acc
  | c :: l' => if is_digit c then dec_val (acc * 10 + (bz c - 48)) l' else None
  end.

(** [strconv.ParseInt(s, 10, 64)], and [strconv.Atoi] on a 64-bit platform. *)
Definition ParseInt (s : bytes) : option Z :=
  match s with
  | [] => None
  | c :: s' =>
      let '(neg, ds) :=
        if Byte.eqb c x2d then (true, s')
        else if Byte.eqb c x2b then (false, s') else (false, s) in
      match ds with
      | [] => None
      | _ =>
          match dec_val 0 ds with
          | None => None
          | Some v =>
              let z := if neg then - v else v in
              if (- 2 ^ 63 <=? z) && (z <? 2 ^ 63) then Some z else None
          end
      end
  end.

Lemma dec_val_dec_aux f n acc :
  0 <= n < 10 ^ Z.of_nat f -> (0 < f)%nat ->
  dec_val 0 (dec_aux f n acc) = dec_val n acc.
Proof.
  revert n acc. induction f as [|f IH]; intros n acc Hn Hf; [lia|].
  pose proof (Z.mod_pos_bound n 10 ltac:(lia)) as Hm.
  pose proof (Z.div_mod n 10 ltac:(lia)) as Hdm.
  assert (Hd : forall a, dec_val a (zb (48 + n mod 10) :: acc) = dec_val (a * 10 + n mod 10) acc).
  { intros a. simpl. unfold is_digit. rewrite bz_zb_small by lia.
    replace ((48 <=? 48 + n mod 10) && (48 + n mod 10 <=? 57)) with true by lia.
    f_equal. lia. }
  simpl dec_aux. destruct (Z.eqb_spec (n / 10) 0) as [E|E].
  - rewrite Hd. f_equal. lia.
  - rewrite IH, Hd.
    + f_equal. lia.
    + rewrite Nat2Z.inj_succ, Z.pow_succ_r in Hn by lia. split.
      * apply Z.div_pos; lia.
      * apply Z.div_lt_upper_bound; lia.
    + destruct f; [|lia]. simpl in Hn. rewrite Z.div_small in E; lia.
Qed.

Lemma dec_fuel n : 0 <= n -> n < 10 ^ Z.of_nat (S (Z.to_nat (Z.log2 n))).
Proof.
  intros. destruct (Z.eq_dec n 0) as [->|]; [done|].
  pose proof (Z.log2_spec n ltac:(lia)) as [_ Hlt].
  pose proof (Z.log2_nonneg n).
  rewrite Nat2Z.inj_succ, Z2Nat.id by lia.
  eapply Z.lt_le_trans; [exact Hlt|]. apply Z.pow_le_mono_l. lia.
Qed.

Lemma dec_val_dec_nat n : 0 <= n -> dec_val 0 (dec_nat n) = Some n.
Proof.
  intros. unfold dec_nat. rewrite dec_val_dec_aux; [done| |lia].
  split; [done|]. by apply dec_fuel.
Qed.

Lemma dec_aux_digits f n acc :
  0 <= n -> Forall (fun c => is_digit c = true) acc ->
  Forall (fun c => is_digit c = true) (dec_aux f n acc).
Proof.
  revert n acc. induction f as [|f IH]; intros n acc Hn Ha; simpl; [done|].
  pose proof (Z.mod_pos_bound n 10 ltac:(lia)) as Hm.
  assert (Forall (fun c => is_digit c = true) (zb (48 + n mod 10) :: acc)).
  { constructor; [|done]. unfold is_digit. rewrite bz_zb_small by lia. lia. }
  destruct (n / 10 =? 0); [done|]. apply IH; [|done]. apply Z.div_pos; lia.
Qed.

Lemma dec_nat_digits n : 0 <= n -> Forall (fun c => is_digit c = true) (dec_nat n).
Proof. intros. apply dec_aux_digits; [done|constructor]. Qed.

Lemma dec_aux_nonempty f n acc : acc <> [] \/ (0 < f)%nat -> dec_aux f n acc <> [].
Proof.
  revert n acc. induction f as [|f IH]; intros n acc H; simpl; [naive_solver lia|].
  destruct (n / 10 =? 0); [done|]. apply IH. by left.
Qed.

Lemma dec_nat_nonempty n : dec_nat n <> [].
Proof. apply dec_aux_nonempty. right. lia. Qed.

Lemma ParseInt_dec z : - 2 ^ 63 <= z < 2 ^ 63 -> ParseInt (dec z) = Some z.
Proof.
  intros Hz. unfold dec. destruct (Z.ltb_spec z 0) as [Hneg|Hpos].
  - simpl. destruct (dec_nat (- z)) as [|d ds] eqn:E.
    { by apply dec_nat_nonempty in E. }
    rewrite <- E, dec_val_dec_nat by lia.
    rewrite Z.opp_involutive. by replace (_ && _) with true by lia.
  - pose proof (dec_nat_digits z Hpos) as Hd. pose proof (dec_val_dec_nat z Hpos) as Hv.
    destruct (dec_nat z) as [|c l] eqn:E; [by apply dec_nat_nonempty in E|].
    unfold ParseInt. inversion Hd as [|? ? Hc _]; subst.
    assert (Byte.eqb c x2d = false /\ Byte.eqb c x2b = false) as [-> ->].
    { revert Hc. clear. by_bytes c. }
    rewrite Hv. by replace (_ && _) with true by lia.
Qed.

(** ** Zero-padded numerals: [%0wd] *)

(** The [w] low decimal digits. *)
Fixpoint low_digits (w : nat) (n : Z) : bytes :=
  match w with
  | O => []
  | S w' => low_digits w' (n / 10) ++ [zb (48 + n mod 10)]
  end.

(** [%0wd] of a non-negative integer. *)
Definition pad_dec (w : nat) (n : Z) : bytes :=
  if n <? 10 ^ Z.of_nat w then low_digits w n else dec_nat n.

Lemma low_digits_length w n : length (low_digits w n) = w.
Proof. revert n. induction w as [|w IH]; intros n; simpl; [done|]. rewrite length_app, IH. simpl. lia. Qed.

Lemma digit_char v : 0 <= v < 10 -> is_digit (zb (48 + v)) = true /\ bz (zb (48 + v)) - 48 = v.
Proof. intros. unfold is_digit. rewrite bz_zb_small by lia. split; lia. Qed.

Lemma low_digits_digits w n : Forall (fun c => is_digit c = true) (low_digits w n).
Proof.
  revert n. induction w as [|w IH]; intros n; simpl; [constructor|].
  apply Forall_app. split; [apply IH|]. apply Forall_singleton, digit_char, Z.mod_pos_bound. lia.
Qed.

Lemma dec_val_app acc l k v : dec_val acc l = Some v -> dec_val acc (l ++ k) = dec_val v k.
Proof.
  revert acc. induction l as [|c l IH]; intros acc; simpl; [by intros [= ->]|].
  destruct (is_digit c); [apply IH|done].
Qed.

Lemma dec_val_low_digits w n acc : 0 <= n < 10 ^ Z.of_nat w ->
  dec_val acc (low_digits w n) = Some (acc * 10 ^ Z.of_nat w + n).
Proof.
  revert n acc. induction w as [|w IH]; intros n acc Hn.
  { simpl in *. f_equal. lia. }
  rewrite Nat2Z.inj_succ, Z.pow_succ_r in * by lia. cbn [low_digits].
  assert (0 <= n / 10 < 10 ^ Z.of_nat w).
  { split; [apply Z.div_pos; lia|apply Z.div_lt_upper_bound; lia]. }
  rewrite (dec_val_app _ _ _ (acc * 10 ^ Z.of_nat w + n / 10)) by by apply IH.
  destruct (digit_char (n mod 10)) as [Hd Hv]; [apply Z.mod_pos_bound; lia|].
  cbn [dec_val]. rewrite Hd, Hv. f_equal. pose proof (Z.div_mod n 10). nia.
Qed.

(** ** Checked slice accesses *)

(** The slice expressions [l[i]], [l[i] = x] and [l[lo:hi]]. *)
Definition elem_at {E A} (l : list A) (i : Z) : outcome E A :=
  if i <? 0 then Panic "index out of range"
  else match l !! Z.to_nat i with Some x => Ok x | None => Panic "index out of range" end.
Definition store_at {E A} (l : list A) (i : Z) (x : A) : outcome E (list A) :=
  if (i <? 0) || (i >=? len l) then Panic "index out of range" else Ok (<[Z.to_nat i := x]> l).
Definition slice_of {E A} (l : list A) (lo hi : Z) : outcome E (list A) :=
  if (lo <? 0) || (hi <? lo) || (len l <? hi) then Panic "slice bounds out of range" else Ok (sub lo hi l).

Lemma elem_at_ok {E A} (l : list A) i x : 0 <= i -> l !! Z.to_nat i = Some x -> @elem_at E A l i = Ok x.
Proof. intros Hi H. unfold elem_at. rewrite (proj2 (Z.ltb_ge i 0)) by lia. by rewrite H. Qed.

Lemma elem_at_some {E A} (l : list A) i : 0 <= i < len l -> exists x, l !! Z.to_nat i = Some x /\ @elem_at E A l i = Ok x.
Proof.
  intros Hi. destruct (lookup_lt_is_Some_2 l (Z.to_nat i)) as [x Hx]; [unfold len in *; lia|].
  exists x. split; [done|]. apply elem_at_ok; [lia|done].
Qed.

Lemma store_at_ok {E A} (l : list A) i x : 0 <= i < len l -> @store_at E A l i x = Ok (<[Z.to_nat i := x]> l).
Proof. intros Hi. unfold store_at. rewrite Z.geb_leb, (proj2 (Z.ltb_ge i 0)), (proj2 (Z.leb_gt (len l) i)) by lia. done. Qed.

Lemma slice_of_ok {E A} (l : list A) lo hi : 0 <= lo <= hi -> hi <= len l -> @slice_of E A l lo hi = Ok (sub lo hi l).
Proof.
  intros H1 H2. unfold slice_of. by rewrite (proj2 (Z.ltb_ge lo 0)), (proj2 (Z.ltb_ge hi lo)), (proj2 (Z.ltb_ge (len l) hi)) by lia.
Qed.

(** [l[:n]] and [l[n:]]. *)
Lemma slice_head {E A} (l : list A) n : 0 <= n <= len l -> @slice_of E A l 0 n = Ok (take (Z.to_nat n) l).
Proof. intros H. rewrite slice_of_ok by lia. unfold sub. by rewrite Z.sub_0_r, skipn_O. Qed.

Lemma slice_tail {E A} (l : list A) n : 0 <= n <= len l -> @slice_of E A l n (len l) = Ok (drop (Z.to_nat n) l).
Proof.
  intros H. rewrite slice_of_ok by lia. unfold sub. rewrite take_ge; [done|].
  unfold len. rewrite length_drop. lia.
Qed.
