(* ===== verification/Delta.v ===== *)
(** * internal/delta/delta.go: Fossil's delta format

    A delta is a target length, a newline, a sequence of copy ([cnt@off,]) and
    insert ([cnt:bytes]) commands and a terminator ([sum;]).  This file holds
    the definitions; DeltaCorrect proves them correct. *)

From S2P Require Import Prelude GoStd.

(** ** Errors: the sentinel and the text's case *)
Inductive invalid_reason :=
| IntegerOverflow (pos : Z) | ExpectedInteger (pos : Z) | UnexpectedEnd (pos : Z)
| ExpectedNewline | TargetExceedsMaximum (n : Z) | EmptyDelta | ExpectedComma
| CopyOffsetCountOverflow | CopyExceedsSource (offset cnt srclen : Z)
| OutputExceedsDeclared (size target : Z)
| InsertCountOverflow | InsertExceedsDelta
| OutputSizeMismatch (got want : Z) | UnknownCommand (cmd : byte) (pos : Z)
| MissingTerminator.

Inductive delta_error :=
| ErrInvalidDelta (why : invalid_reason)
| ErrChecksum (expected got : Z)
| ErrTooLarge (sourceLen targetLen : Z).

Abbreviation result := (outcome delta_error).
Abbreviation invalid why := (Err (ErrInvalidDelta why)).

Definition maxDeltaTargetSize : Z := 2 ^ 32.

Definition digits : list Z := [
  -1; -1; -1; -1; -1; -1; -1; -1; -1; -1; -1; -1; -1; -1; -1; -1;
  -1; -1; -1; -1; -1; -1; -1; -1; -1; -1; -1; -1; -1; -1; -1; -1;
  -1; -1; -1; -1; -1; -1; -1; -1; -1; -1; -1; -1; -1; -1; -1; -1;
  0; 1; 2; 3; 4; 5; 6; 7; 8; 9; -1; -1; -1; -1; -1; -1;
  -1; 10; 11; 12; 13; 14; 15; 16; 17; 18; 19; 20; 21; 22; 23; 24;
  25; 26; 27; 28; 29; 30; 31; 32; 33; 34; 35; -1; -1; -1; -1; 36;
  -1; 37; 38; 39; 40; 41; 42; 43; 44; 45; 46; 47; 48; 49; 50; 51;
  52; 53; 54; 55; 56; 57; 58; 59; 60; 61; 62; -1; -1; -1; 63; -1 ].

(** [digits[c]]. *)
Definition digit_of (c : byte) : Z := nth (Z.to_nat (bz c)) digits (-1).

(** ** The reader: [r_pos] is [r.pos], [r_rest] is [r.data[r.pos:]] *)
Record reader := mk_reader { r_pos : Z; r_rest : bytes }.

(** [len(r.data)]. *)
Definition r_len (r : reader) : Z := r_pos r + len (r_rest r).

Fixpoint getInt_loop (rest : bytes) (pos v : Z) (started : bool) : result (Z * reader) :=
  let finish :=
    if started then Ok (v, mk_reader pos rest) else invalid (ExpectedInteger pos) in
  match rest with
  | [] => finish
  | c :: rest' =>
      if (bz c >=? 128) || (digit_of c <? 0) then finish
      else
        let d := digit_of c in
        if v >? (MaxUint64 - d) / 64 then invalid (IntegerOverflow pos)
        else getInt_loop rest' (pos + 1) (u64 (v * 64 + d)) true
  end.

Definition getInt (r : reader) : result (Z * reader) :=
  getInt_loop (r_rest r) (r_pos r) 0 false.

Definition getChar (r : reader) : result (byte * reader) :=
  match r_rest r with
  | [] => invalid (UnexpectedEnd (r_pos r))
  | c :: rest => Ok (c, mk_reader (r_pos r + 1) rest)
  end.

Definition parseTargetLen (r : reader) : result (Z * reader) :=
  let? (targetLen, r) := getInt r in
  let? (term, r) := getChar r in
  if negb (Byte.eqb term x0a) then invalid ExpectedNewline
  else if targetLen >=? maxDeltaTargetSize then invalid (TargetExceedsMaximum targetLen)
  else Ok (targetLen, r).

Definition OutputSize (deltaBytes : bytes) : result Z :=
  if len deltaBytes =? 0 then invalid EmptyDelta
  else let? (n, _) := parseTargetLen (mk_reader 0 deltaBytes) in Ok n.

(** ** Checksum: big-endian 32-bit words summed modulo 2^32 *)
Fixpoint checksum_loop (sum : Z) (data : bytes) : Z :=
  match data with
  | a :: b :: c :: d :: data' =>
      checksum_loop
        (u32 (sum + Z.lor (Z.lor (Z.lor (Z.shiftl (bz a) 24) (Z.shiftl (bz b) 16))
                                 (Z.shiftl (bz c) 8)) (bz d))) data'
  | [a; b; c] =>
      u32 (u32 (u32 (sum + Z.shiftl (bz c) 8) + Z.shiftl (bz b) 16) + Z.shiftl (bz a) 24)
  | [a; b] => u32 (u32 (sum + Z.shiftl (bz b) 16) + Z.shiftl (bz a) 24)
  | [a] => u32 (sum + Z.shiftl (bz a) 24)
  | [] => sum
  end.

Definition Checksum (data : bytes) : Z := checksum_loop 0 data.

(** ** Output buffers

    A [[]byte] with its capacity: ApplyInto chooses and upgrades capacities,
    so its model carries them.  [growslice old need] is the capacity Go's
    runtime gives a slice that [append] must regrow. *)
Record buffer := mk_buffer { b_nil : bool; b_data : bytes; b_cap : Z }.

Definition nil_buffer : buffer := mk_buffer true [] 0.

Section apply.
Variable growslice : Z -> Z -> Z.

(** [append(output, xs...)]. *)
Definition append (o : buffer) (xs : bytes) : buffer :=
  let d := b_data o ++ xs in
  mk_buffer (b_nil o && (len xs =? 0)) d
    (if len d <=? b_cap o then b_cap o else growslice (b_cap o) (len d)).

Definition deltaGrowthFactor : Z := 64.

(** [make([]byte, len(output), next)] panics when the length exceeds the
    capacity, which the model keeps. *)
Definition growOutputCap (output : buffer) (targetLen deltaLen : Z) : result buffer :=
  let next := u64 (deltaLen * deltaGrowthFactor) in
  let next := if next >? targetLen then targetLen else next in
  if next <=? b_cap output then Ok output
  else if next <? len (b_data output) then Panic "makeslice: cap out of range"
  else Ok (mk_buffer false (b_data output) next).

(** The slice expression [s[lo:hi]], with its run-time check. *)
Definition slice_expr (lo hi : Z) (s : bytes) : result bytes :=
  if (0 <=? lo) && (lo <=? hi) && (hi <=? len s) then Ok (sub lo hi s)
  else Panic "slice bounds out of range".

(** [r.data[r.pos:r.pos+n]] and [r.pos += n]. *)
Definition reader_take (r : reader) (n : Z) : result (bytes * reader) :=
  let? xs := slice_expr 0 n (r_rest r) in
  Ok (xs, mk_reader (r_pos r + n) (drop (Z.to_nat n) (r_rest r))).

Definition deltaInitialCap : Z := 64 * 1024.

(** scanOutputSize's loop; the pair is Go's [(int, bool)]. *)
Fixpoint scan_loop (fuel : nat) (srcLen targetLen total : Z) (r : reader) : result (Z * bool) :=
  match fuel with
  | O => Diverge
  | S fuel =>
      match r_rest r with
      | [] => Ok (0, false)
      | _ =>
          match getInt r with
          | Ok (cnt, r) =>
              match getChar r with
              | Ok (cmd, r) =>
                  let advance r :=
                    if u64 (total + cnt) >? targetLen then Ok (0, false)
                    else scan_loop fuel srcLen targetLen (u64 (total + cnt)) r in
                  if Byte.eqb cmd x40 then (* '@' *)
                    match getInt r with
                    | Ok (offset, r) =>
                        match getChar r with
                        | Ok (term, r) =>
                            if negb (Byte.eqb term x2c) then Ok (0, false)
                            else if (offset >? srcLen) || (cnt >? srcLen)
                                    || (u64 (offset + cnt) >? srcLen) then Ok (0, false)
                            else advance r
                        | _ => Ok (0, false)
                        end
                    | _ => Ok (0, false)
                    end
                  else if Byte.eqb cmd x3a then (* ':' *)
                    if (cnt >? r_len r) || (i64 (r_pos r + i64 cnt) >? r_len r) then Ok (0, false)
                    else
                      let? (_, r) := reader_take r (i64 cnt) in
                      advance r
                  else if Byte.eqb cmd x3b then (* ';' *)
                    if negb (total =? targetLen) then Ok (0, false)
                    else Ok (i64 total, true)
                  else Ok (0, false)
              | _ => Ok (0, false)
              end
          | _ => Ok (0, false)
          end
      end
  end.

Definition scanOutputSize (cmds : bytes) (srcLen targetLen : Z) : result (Z * bool) :=
  if targetLen >? MaxInt64 then Ok (0, false)
  else scan_loop (S (length cmds)) srcLen targetLen 0 (mk_reader 0 cmds).

(** The one-time capacity upgrade both commands end with. *)
Definition upgrade (capped grown : bool) (output : buffer) (targetLen dlen : Z)
    : result (buffer * bool) :=
  if capped && negb grown then
    let? o := growOutputCap output targetLen dlen in Ok (o, true)
  else Ok (output, grown).

(** ApplyInto's command loop. *)
Fixpoint apply_loop (fuel : nat) (source : bytes) (dlen targetLen : Z) (capped : bool)
    (r : reader) (output : buffer) (grown : bool) : result buffer :=
  match fuel with
  | O => Diverge
  | S fuel =>
      match r_rest r with
      | [] => invalid MissingTerminator
      | _ =>
          let? (cnt, r) := getInt r in
          let? (cmd, r) := getChar r in
          let size := u64 (len (b_data output) + cnt) in
          if Byte.eqb cmd x40 then (* '@' *)
            let? (offset, r) := getInt r in
            let? (term, r) := getChar r in
            if negb (Byte.eqb term x2c) then invalid ExpectedComma
            else if (offset >? len source) || (cnt >? len source)
            then invalid CopyOffsetCountOverflow
            else if i64 (u64 (offset + cnt)) >? len source
            then invalid (CopyExceedsSource offset cnt (len source))
            else if size >? targetLen then invalid (OutputExceedsDeclared size targetLen)
            else
              let? xs := slice_expr offset (u64 (offset + cnt)) source in
              let? (output, grown) := upgrade capped grown (append output xs) targetLen dlen in
              apply_loop fuel source dlen targetLen capped r output grown
          else if Byte.eqb cmd x3a then (* ':' *)
            if cnt >? r_len r then invalid InsertCountOverflow
            else if i64 (r_pos r + i64 cnt) >? r_len r then invalid InsertExceedsDelta
            else if size >? targetLen then invalid (OutputExceedsDeclared size targetLen)
            else
              let? (xs, r) := reader_take r (i64 cnt) in
              let? (output, grown) := upgrade capped grown (append output xs) targetLen dlen in
              apply_loop fuel source dlen targetLen capped r output grown
          else if Byte.eqb cmd x3b then (* ';' *)
            if negb (len (b_data output) =? targetLen)
            then invalid (OutputSizeMismatch (len (b_data output)) targetLen)
            else if negb (cnt =? Checksum (b_data output))
            then Err (ErrChecksum (Checksum (b_data output)) cnt)
            else Ok output
          else invalid (UnknownCommand cmd (r_pos r - 1))
      end
  end.

(** The buffer the loop starts with and whether its capacity is a guess. *)
Definition choose_output (dst : buffer) (proven : Z) (exact : bool) (targetLen : Z)
    : buffer * bool :=
  if exact then
    if (b_cap dst >? 0) && (b_cap dst >=? proven)
    then (mk_buffer (b_nil dst) [] (b_cap dst), false)
    else (mk_buffer false [] proven, false)
  else if b_cap dst =? 0 then
    if targetLen >? deltaInitialCap
    then (mk_buffer false [] deltaInitialCap, true)
    else (mk_buffer false [] targetLen, false)
  else (mk_buffer (b_nil dst) [] (b_cap dst), b_cap dst <? targetLen).

(** [source] is [None] for a nil slice. *)
Definition ApplyInto (dst : buffer) (source : option bytes) (delta : bytes) : result buffer :=
  match source with
  | None => Panic "delta.ApplyInto: source must not be nil"
  | Some source =>
      if negb (len (b_data dst) =? 0)
      then Panic "delta.ApplyInto: dst must be empty (pass dst[:0])"
      else if len delta =? 0 then invalid EmptyDelta
      else
        let? (targetLen, r) := parseTargetLen (mk_reader 0 delta) in
        let? (proven, exact) := scanOutputSize (r_rest r) (len source) targetLen in
        let '(output, capped) := choose_output dst proven exact targetLen in
        let? result :=
          apply_loop (S (length delta)) source (len delta) targetLen capped r output false in
        if b_nil result
        then Panic "delta.ApplyInto: postcondition violated: result is nil with no error"
        else Ok result
  end.

Definition Apply (source : option bytes) (delta : bytes) : result buffer :=
  ApplyInto nil_buffer source delta.
End apply.

(** ** Create *)
Definition nHash : Z := 16.
Definition zDigitsEnc : bytes :=
  bs "0123456789ABCDEFGHIJKLMNOPQRSTUVWXYZ_abcdefghijklmnopqrstuvwxyz~".

(** The base-64 digits [appendInt] writes into its 13-byte scratch array. *)
Fixpoint int_digits_loop (fuel : nat) (v : Z) (acc : bytes) : bytes :=
  match fuel with
  | O => acc
  | S f =>
      if v >? 0
      then int_digits_loop f (Z.shiftr v 6)
             (nth (Z.to_nat (Z.land v 0x3f)) zDigitsEnc x00 :: acc)
      else acc
  end.

Definition appendInt (buf : bytes) (v : Z) : bytes :=
  if v =? 0 then buf ++ [x30] else buf ++ int_digits_loop 13 v [].

Definition rollingHash (data : bytes) : Z :=
  fold_left (fun h b => u32 (h * 37 + bz b)) data 0.

Fixpoint matchLen (a b : bytes) : Z :=
  match a, b with
  | x :: a', y :: b' => if Byte.eqb x y then 1 + matchLen a' b' else 0
  | _, _ => 0
  end.

Definition checkSizes (sourceLen targetLen : Z) : result () :=
  if (u64 sourceLen >=? maxDeltaTargetSize) || (u64 targetLen >=? maxDeltaTargetSize)
  then Err (ErrTooLarge sourceLen targetLen) else Ok ().

Record hashEntry := mk_entry { he_offset : Z; he_next : Z }.

(** [for n&(n-1) != 0 { n &= n-1 }]. *)
Fixpoint clear_low_bits (fuel : nat) (n : Z) : Z :=
  match fuel with
  | O => n
  | S f => if Z.land n (n - 1) =? 0 then n else clear_low_bits f (Z.land n (n - 1))
  end.

Definition tableSize (sourceLen : Z) : Z :=
  let n := sourceLen / nHash in
  let n := if n <? 64 then 64 else n in
  Z.shiftl (clear_low_bits 64 n) 1.

(** The table: [heads], [entries] in index order, and [mask].  A [heads] value
    and an entry's [next] plus one are one more than an index of [entries]. *)
Record table := mk_table { t_heads : list Z; t_entries : list hashEntry; t_mask : Z }.

Fixpoint build_loop (fuel : nat) (source : bytes) (i mask : Z)
    (heads : list Z) (entries : list hashEntry) : table :=
  match fuel with
  | O => mk_table heads entries mask
  | S f =>
      if i + nHash <=? len source then
        let h := rollingHash (sub i (i + nHash) source) in
        let idx := Z.to_nat (Z.land h mask) in
        let entries := entries ++ [mk_entry i (nth idx heads 0 - 1)] in
        build_loop f source (i + nHash) mask (<[idx := len entries]> heads) entries
      else mk_table heads entries mask
  end.

Definition buildHashTable (source : bytes) : table :=
  let size := tableSize (len source) in
  build_loop (S (length source)) source 0 (size - 1) (replicate (Z.to_nat size) 0) [].

Definition maxChainCandidates : nat := 250.

(** The chain walk; [budget] counts the candidates still allowed, so the loop
    bound [examined < maxChainCandidates] is the recursion's measure. *)
Fixpoint best_loop (budget : nat) (source trest : bytes) (entries : list hashEntry)
    (ei bestOff bestLen examined : Z) : result (Z * Z * Z) :=
  match budget with
  | O => Ok (bestOff, bestLen, examined)
  | S budget =>
      if ei >? 0 then
        match entries !! Z.to_nat (ei - 1) with
        | None => Panic "index out of range"
        | Some e =>
            let sOff := he_offset e in
            let continue bo bl :=
              best_loop budget source trest entries (he_next e + 1) bo bl (examined + 1) in
            if sOff + nHash >? len source then continue bestOff bestLen
            else
              let ml := matchLen (drop (Z.to_nat sOff) source) trest in
              if (ml >=? nHash) && (ml >? bestLen) then continue sOff ml
              else continue bestOff bestLen
        end
      else Ok (bestOff, bestLen, examined)
  end.

(** [trest] is [target[tPos:]]; the result is [(bestOff, bestLen, examined)]. *)
Definition bestMatch (source trest : bytes) (t : table) : result (Z * Z * Z) :=
  let idx := Z.land (rollingHash (take (Z.to_nat nHash) trest)) (t_mask t) in
  match t_heads t !! Z.to_nat idx with
  | None => Panic "index out of range"
  | Some ei => best_loop maxChainCandidates source trest (t_entries t) ei 0 0 0
  end.

Definition flushInsert (buf pendingInsert : bytes) : bytes :=
  if len pendingInsert >? 0
  then appendInt buf (len pendingInsert) ++ [x3a] ++ pendingInsert else buf.

Fixpoint emit_loop (fuel : nat) (source : bytes) (t : table)
    (buf pendingInsert trest : bytes) : result bytes :=
  match fuel with
  | O => Diverge
  | S fuel =>
      match trest with
      | [] => Ok (flushInsert buf pendingInsert)
      | c :: trest' =>
          let? (bestOff, bestLen, _) :=
            if nHash <=? len trest then bestMatch source trest t else Ok (0, 0, 0) in
          if bestLen >=? nHash then
            let buf := flushInsert buf pendingInsert in
            let buf := appendInt buf bestLen ++ [x40] in
            let buf := appendInt buf bestOff ++ [x2c] in
            emit_loop fuel source t buf [] (drop (Z.to_nat bestLen) trest)
          else emit_loop fuel source t buf (pendingInsert ++ [c]) trest'
      end
  end.

Definition emitMatches (source target : bytes) (t : table) : result bytes :=
  let buf := appendInt [] (len target) ++ [x0a] in
  let? buf := emit_loop (S (length target)) source t buf [] target in
  Ok (appendInt buf (Checksum target) ++ [x3b]).

Definition createInsertAll (target : bytes) : result bytes :=
  if len target =? 0 then Panic "delta.createInsertAll: target length must be > 0"
  else
    let buf := appendInt [] (len target) ++ [x0a] in
    let buf := appendInt buf (len target) ++ [x3a] ++ target in
    Ok (appendInt buf (Checksum target) ++ [x3b]).

Definition create_body (source target : bytes) : result bytes :=
  if len target =? 0 then
    Ok (appendInt (appendInt [] 0 ++ [x0a]) (Checksum target) ++ [x3b])
  else if len source <? nHash then createInsertAll target
  else emitMatches source target (buildHashTable source).

(** [None] is a nil slice. *)
Definition Create (source target : option bytes) : result bytes :=
  match source, target with
  | None, _ => Panic "delta.Create: source must not be nil"
  | _, None => Panic "delta.Create: target must not be nil"
  | Some source, Some target =>
      let? _ := checkSizes (len source) (len target) in
      let? result := create_body source target in
      if len result =? 0
      then Panic "delta.Create: postcondition violated: result is empty"
      else Ok result
  end.
