(* ===== verification/DeltaCorrect.v ===== *)
(** * Correctness of internal/delta/delta.go

    The reference the byte-level code is compared with is a small command
    language: a delta file is the rendering of a list of commands, and its
    meaning is the bytes the commands select from the source. *)

From S2P Require Import Prelude GoStd Delta.

(** ** The base-64 integer codec *)
Definition is_d (c : byte) : bool := (bz c <? 128) && (0 <=? digit_of c).

Definition b64_val (v : Z) (ds : bytes) : Z := fold_left (fun v c => v * 64 + digit_of c) ds v.

Lemma b64_val_cons v c ds : b64_val v (c :: ds) = b64_val (v * 64 + digit_of c) ds.
Proof. done. Qed.

Definition int_bytes (v : Z) : bytes := appendInt [] v.

(** A byte sequence no integer continues into. *)
Definition stops (rest : bytes) : Prop :=
  match rest with [] => True | c :: _ => is_d c = false end.

Lemma digit_of_range c : is_d c = true -> 0 <= digit_of c < 64.
Proof. by_bytes c. Qed.

Lemma digit_of_enc k : 0 <= k < 64 ->
  is_d (nth (Z.to_nat k) zDigitsEnc x00) = true /\ digit_of (nth (Z.to_nat k) zDigitsEnc x00) = k.
Proof.
  intros Hk.
  assert (H : forallb (fun n => is_d (nth n zDigitsEnc x00)
                && (digit_of (nth n zDigitsEnc x00) =? Z.of_nat n)) (seq 0 64) = true)
    by by vm_compute.
  rewrite forallb_forall in H. specialize (H (Z.to_nat k)).
  apply andb_true_iff in H as [H1 H2]; [|apply in_seq; lia].
  apply Z.eqb_eq in H2. split; [done|lia].
Qed.

Lemma is_d_neg c : is_d c = negb ((bz c >=? 128) || (digit_of c <? 0)).
Proof. by_bytes c. Qed.

Lemma getInt_loop_stop rest pos v :
  stops rest -> getInt_loop rest pos v true = Ok (v, mk_reader pos rest).
Proof.
  destruct rest as [|c rest]; simpl; [done|]. rewrite is_d_neg.
  by intros ->%negb_false_iff.
Qed.

Lemma b64_val_mono ds v : Forall (fun c => is_d c = true) ds -> 0 <= v -> v <= b64_val v ds.
Proof.
  intros H. revert v. induction H as [|c ds Hc _ IH]; intros v Hv; simpl; [lia|].
  pose proof (digit_of_range _ Hc). specialize (IH (v * 64 + digit_of c) ltac:(lia)).
  unfold b64_val in *. lia.
Qed.

Lemma getInt_loop_digits ds rest pos v st :
  Forall (fun c => is_d c = true) ds -> 0 <= v -> b64_val v ds <= MaxUint64 ->
  ds <> [] \/ st = true ->
  getInt_loop (ds ++ rest) pos v st = getInt_loop rest (pos + len ds) (b64_val v ds) true.
Proof.
  intros H. revert pos v st. induction H as [|c ds Hc Hds IH]; intros pos v st Hv Hmax Hst.
  { destruct Hst as [| ->]; [done|]. simpl. by rewrite len_nil, Z.add_0_r. }
  simpl. pose proof (digit_of_range _ Hc) as Hd.
  pose proof (b64_val_mono ds (v * 64 + digit_of c) Hds ltac:(lia)) as Hm.
  change (b64_val v (c :: ds)) with (b64_val (v * 64 + digit_of c) ds) in *.
  rewrite is_d_neg in Hc. apply negb_true_iff in Hc as ->.
  assert (v <= (MaxUint64 - digit_of c) / 64) by (apply Z.div_le_lower_bound; lia).
  replace (v >? _) with false by lia.
  rewrite u64_small by (unfold MaxUint64 in *; lia).
  rewrite IH; [|lia|done|by right]. by rewrite len_cons, Z.add_assoc.
Qed.

Lemma int_digits_loop_val f v acc : 0 <= v < 64 ^ Z.of_nat f ->
  b64_val 0 (int_digits_loop f v acc) = b64_val v acc.
Proof.
  revert v acc. induction f as [|f IH]; intros v acc Hv.
  { simpl in *. by replace v with 0 by lia. }
  cbn [int_digits_loop]. destruct (v >? 0) eqn:E; [|by replace v with 0 by lia].
  pose proof (Z.mod_pos_bound v 64 ltac:(lia)).
  rewrite Z.shiftr_div_pow2, IH by first [lia | rewrite Nat2Z.inj_succ, Z.pow_succ_r in Hv by lia;
    split; [apply Z.div_pos; lia | apply Z.div_lt_upper_bound; lia]].
  change 63 with (Z.ones 6). rewrite Z.land_ones by lia.
  rewrite b64_val_cons. change (2 ^ 6) with 64 in *.
  destruct (digit_of_enc (v mod 64)) as [_ ->]; [done|].
  f_equal. pose proof (Z.div_mod v 64). lia.
Qed.

Lemma int_digits_loop_digits f v acc : Forall (fun c => is_d c = true) acc ->
  Forall (fun c => is_d c = true) (int_digits_loop f v acc).
Proof.
  revert v acc. induction f as [|f IH]; intros v acc H; simpl; [done|].
  destruct (v >? 0); [|done]. apply IH. constructor; [|done].
  change 63 with (Z.ones 6). rewrite Z.land_ones by lia.
  apply digit_of_enc, Z.mod_pos_bound. lia.
Qed.

Lemma int_digits_loop_length f v acc :
  (length (int_digits_loop f v acc) <= f + length acc)%nat.
Proof.
  revert v acc. induction f as [|f IH]; intros v acc; simpl; [lia|].
  destruct (v >? 0); [|lia]. etrans; [apply IH|]. simpl. lia.
Qed.

Lemma appendInt_app buf v : appendInt buf v = buf ++ int_bytes v.
Proof. unfold int_bytes, appendInt. by destruct (v =? 0). Qed.

Lemma int_bytes_unfold v :
  int_bytes v = if v =? 0 then [x30] else int_digits_loop 13 v [].
Proof. unfold int_bytes, appendInt. by destruct (v =? 0). Qed.
#[local] Opaque int_digits_loop.

Lemma int_bytes_spec v : 0 <= v < 2 ^ 64 ->
  Forall (fun c => is_d c = true) (int_bytes v) /\ b64_val 0 (int_bytes v) = v.
Proof.
  intros Hv. rewrite int_bytes_unfold. destruct (Z.eqb_spec v 0) as [->|].
  - split; [|done]. constructor; [done|constructor].
  - split; [by apply int_digits_loop_digits|].
    rewrite int_digits_loop_val; [done|].
    split; [lia|]. eapply Z.lt_trans; [apply Hv|]. by vm_compute.
Qed.

Lemma int_bytes_len v : len (int_bytes v) <= 13.
Proof.
  rewrite int_bytes_unfold. unfold len. destruct (v =? 0); [simpl; lia|].
  pose proof (int_digits_loop_length 13 v []). simpl length in *. lia.
Qed.

Lemma int_bytes_nonempty v : 0 <= v < 2 ^ 64 -> int_bytes v <> [].
Proof.
  intros Hv He. destruct (int_bytes_spec v Hv) as [_ H].
  rewrite He in H. simpl in H. subst v. done.
Qed.

Lemma getInt_int_bytes v pos rest : 0 <= v < 2 ^ 64 -> stops rest ->
  getInt (mk_reader pos (int_bytes v ++ rest))
  = Ok (v, mk_reader (pos + len (int_bytes v)) rest).
Proof.
  intros Hv Hs. destruct (int_bytes_spec v Hv) as [Hd Hval].
  unfold getInt. simpl.
  rewrite getInt_loop_digits; [|done|lia|rewrite Hval; unfold MaxUint64; lia|].
  - rewrite Hval. by apply getInt_loop_stop.
  - left. by apply int_bytes_nonempty.
Qed.

(** ** The reference replay: the command loop without capacities *)
Definition omap {E A B} (f : A -> B) (m : outcome E A) : outcome E B :=
  let? a := m in Ok (f a).

Fixpoint replay (fuel : nat) (source : bytes) (targetLen : Z) (r : reader) (out : bytes)
    : result bytes :=
  match fuel with
  | O => Diverge
  | S fuel =>
      match r_rest r with
      | [] => invalid MissingTerminator
      | _ =>
          let? (cnt, r) := getInt r in
          let? (cmd, r) := getChar r in
          let size := u64 (len out + cnt) in
          if Byte.eqb cmd x40 then
            let? (offset, r) := getInt r in
            let? (term, r) := getChar r in
            if negb (Byte.eqb term x2c) then invalid ExpectedComma
            else if (offset >? len source) || (cnt >? len source)
            then invalid CopyOffsetCountOverflow
            else if i64 (u64 (offset + cnt)) >? len source
            then invalid (CopyExceedsSource offset cnt (len source))
            else if size >? targetLen then invalid (OutputExceedsDeclared size targetLen)
            else
              let? xs := slice_expr offset (u64 (offset + cnt)) source in
              replay fuel source targetLen r (out ++ xs)
          else if Byte.eqb cmd x3a then
            if cnt >? r_len r then invalid InsertCountOverflow
            else if i64 (r_pos r + i64 cnt) >? r_len r then invalid InsertExceedsDelta
            else if size >? targetLen then invalid (OutputExceedsDeclared size targetLen)
            else
              let? (xs, r) := reader_take r (i64 cnt) in
              replay fuel source targetLen r (out ++ xs)
          else if Byte.eqb cmd x3b then
            if negb (len out =? targetLen) then invalid (OutputSizeMismatch (len out) targetLen)
            else if negb (cnt =? Checksum out) then Err (ErrChecksum (Checksum out) cnt)
            else Ok out
          else invalid (UnknownCommand cmd (r_pos r - 1))
      end
  end.

(** What Apply computes, as one expression on byte strings. *)
Definition replay_delta (source delta : bytes) : result bytes :=
  if len delta =? 0 then invalid EmptyDelta
  else
    let? (targetLen, r) := parseTargetLen (mk_reader 0 delta) in
    replay (S (length delta)) source targetLen r [].

Section capacities.
Context (growslice : Z -> Z -> Z)
        (growslice_fits : forall old need, need <= growslice old need).

Definition buf_ok (o : buffer) : Prop := b_nil o = false /\ len (b_data o) <= b_cap o.

Lemma append_ok o xs : buf_ok o ->
  buf_ok (append growslice o xs) /\ b_data (append growslice o xs) = b_data o ++ xs.
Proof.
  intros [Hn Hc]. unfold append, buf_ok. simpl. rewrite Hn. split; [|done]. split; [done|].
  destruct (Z.leb_spec (len (b_data o ++ xs)) (b_cap o)); [done|apply growslice_fits].
Qed.

Lemma upgrade_ok capped grown o targetLen dlen : buf_ok o ->
  exists o' g', upgrade capped grown o targetLen dlen = Ok (o', g')
                /\ buf_ok o' /\ b_data o' = b_data o.
Proof.
  intros Ho. pose proof Ho as [Hn Hc]. unfold upgrade.
  destruct (capped && negb grown); [|by eauto].
  unfold growOutputCap.
  match goal with |- context [?n <=? b_cap o] => set (next := n) end.
  destruct (Z.leb_spec next (b_cap o)); simpl; [by eauto|].
  replace (next <? len (b_data o)) with false by lia. simpl.
  eexists _, _. split; [done|]. unfold buf_ok. simpl. split; [|done]. split; [done|lia].
Qed.

(** The two commands' tail: append, upgrade, continue. *)
Lemma append_upgrade o xs capped grown targetLen dlen : buf_ok o ->
  exists o' g', upgrade capped grown (append growslice o xs) targetLen dlen = Ok (o', g')
                /\ buf_ok o' /\ b_data o' = b_data o ++ xs.
Proof.
  intros Ho. destruct (append_ok o xs Ho) as [Ha Hd].
  destruct (upgrade_ok capped grown _ targetLen dlen Ha) as (o' & g' & ? & ? & Hd').
  exists o', g'. by rewrite Hd', Hd.
Qed.

Lemma apply_loop_replay fuel source dlen targetLen capped r o grown : buf_ok o ->
  omap b_data (apply_loop growslice fuel source dlen targetLen capped r o grown)
    = replay fuel source targetLen r (b_data o)
  /\ forall o', apply_loop growslice fuel source dlen targetLen capped r o grown = Ok o' -> buf_ok o'.
Proof.
  revert r o grown. induction fuel as [|fuel IH]; intros r o grown Ho; [by cbn; split|].
  cbn [apply_loop replay].
  destruct (r_rest r) as [|c0 rest0]; [by cbn; split|].
  destruct (getInt r) as [[cnt r1]|e|s|]; [|by cbn; split..]. cbn [obind].
  destruct (getChar r1) as [[cmd r2]|e|s|]; [|by cbn; split..]. cbn [obind].
  destruct (Byte.eqb cmd x40).
  { destruct (getInt r2) as [[offset r3]|e|s|]; [|by cbn; split..]. cbn [obind].
    destruct (getChar r3) as [[term r4]|e|s|]; [|by cbn; split..]. cbn [obind].
    repeat (case_match; [by cbn; split|]).
    destruct (slice_expr _ _ _) as [xs|e|s|]; [|by cbn; split..]. cbn [obind].
    destruct (append_upgrade o xs capped grown targetLen dlen Ho) as (o' & g' & -> & Ho' & Hd).
    cbn [obind]. rewrite <- Hd. by apply IH. }
  destruct (Byte.eqb cmd x3a).
  { repeat (case_match; [by cbn; split|]).
    destruct (reader_take _ _) as [[xs r3]|e|s|]; [|by cbn; split..]. cbn [obind].
    destruct (append_upgrade o xs capped grown targetLen dlen Ho) as (o' & g' & -> & Ho' & Hd).
    cbn [obind]. rewrite <- Hd. by apply IH. }
  destruct (Byte.eqb cmd x3b); [|done].
  repeat (case_match; [by cbn; split|]). split; [done|]. intros o' [= <-]. apply Ho.
Qed.

End capacities.

(** ** Totality: the reader consumes, so the fuel suffices *)

(** No Go slice reaches [maxAlloc] (2^48 bytes). *)
Definition alloc_ok (l : bytes) : Prop := len l < 2 ^ 48.

Definition reader_ok (r : reader) : Prop := 0 <= r_pos r /\ r_len r < 2 ^ 48.

Lemma getInt_loop_ok rest pos v st n r' :
  getInt_loop rest pos v st = Ok (n, r') -> 0 <= v <= MaxUint64 ->
  0 <= n <= MaxUint64 /\ r_len r' = pos + len rest
  /\ pos <= r_pos r' /\ (st = false -> pos < r_pos r').
Proof.
  revert pos v st. induction rest as [|c rest IH]; intros pos v st; cbn [getInt_loop].
  { destruct st; [|done]. intros [= <- <-] Hv. unfold r_len. simpl. naive_solver lia. }
  destruct ((bz c >=? 128) || (digit_of c <? 0)) eqn:E.
  { destruct st; [|done]. intros [= <- <-] Hv. unfold r_len. simpl. naive_solver lia. }
  case_match eqn:Hov; [done|]. intros H Hv.
  assert (is_d c = true) by (rewrite is_d_neg; by rewrite E).
  pose proof (digit_of_range c ltac:(done)).
  assert (v * 64 + digit_of c <= MaxUint64).
  { pose proof (Z.mul_div_le (MaxUint64 - digit_of c) 64). zbool. lia. }
  apply IH in H; [|rewrite u64_small; unfold MaxUint64 in *; lia].
  rewrite len_cons. destruct H as (? & -> & ? & ?). repeat split; [lia..| |]; lia.
Qed.

Lemma getInt_ok r n r' : getInt r = Ok (n, r') -> reader_ok r ->
  0 <= n < 2 ^ 64 /\ r_len r' = r_len r /\ reader_ok r'
  /\ (length (r_rest r') < length (r_rest r))%nat.
Proof.
  intros H [Hp Hl]. apply getInt_loop_ok in H; [|unfold MaxUint64; lia].
  destruct H as (Hn & Hlen & _ & Hpos). specialize (Hpos eq_refl).
  unfold reader_ok, r_len, len, MaxUint64 in *. repeat split; lia.
Qed.

Lemma getChar_ok r c r' : getChar r = Ok (c, r') -> reader_ok r ->
  r_len r' = r_len r /\ reader_ok r' /\ (length (r_rest r') < length (r_rest r))%nat.
Proof.
  unfold getChar, reader_ok, r_len. destruct r as [p [|b rest]]; simpl; [done|].
  intros [= <- <-] [? ?]. simpl. rewrite len_cons in *. repeat split; lia.
Qed.

Lemma getInt_loop_returns rest pos v st : returns (getInt_loop rest pos v st).
Proof.
  revert pos v st. induction rest as [|c rest IH]; intros; simpl; repeat case_match; done.
Qed.
Lemma getInt_returns r : returns (getInt r).
Proof. apply getInt_loop_returns. Qed.
Lemma getChar_returns r : returns (getChar r).
Proof. unfold getChar. by case_match. Qed.
#[local] Hint Resolve getInt_returns getChar_returns : core.

Lemma reader_take_ok r n : reader_ok r -> 0 <= n <= len (r_rest r) ->
  reader_take r n = Ok (take (Z.to_nat n) (r_rest r),
                        mk_reader (r_pos r + n) (drop (Z.to_nat n) (r_rest r)))
  /\ r_len (mk_reader (r_pos r + n) (drop (Z.to_nat n) (r_rest r))) = r_len r
  /\ reader_ok (mk_reader (r_pos r + n) (drop (Z.to_nat n) (r_rest r))).
Proof.
  intros [Hp Hl] Hn. unfold reader_take, slice_expr.
  replace (_ && _) with true by lia. cbn [obind].
  unfold reader_ok, r_len in *. cbn [r_pos r_rest]. rewrite len_drop by lia.
  unfold sub. rewrite Z.sub_0_r. simpl drop. repeat split; lia.
Qed.

(** The bounds checks of the two commands, as facts. *)
Lemma copy_bounds source offset cnt : alloc_ok source ->
  0 <= offset -> 0 <= cnt ->
  (offset >? len source) || (cnt >? len source) = false ->
  (i64 (u64 (offset + cnt)) >? len source) = false ->
  u64 (offset + cnt) = offset + cnt /\ offset + cnt <= len source
  /\ slice_expr offset (u64 (offset + cnt)) source = Ok (sub offset (offset + cnt) source).
Proof.
  unfold alloc_ok. intros Hs Ho Hc H1 H2.
  rewrite u64_small in H2 |- * by lia. rewrite i64_small in H2 by lia.
  unfold slice_expr. replace (_ && _) with true by lia. repeat split; lia.
Qed.

Lemma insert_bounds r cnt : reader_ok r -> 0 <= cnt ->
  (cnt >? r_len r) = false -> (i64 (r_pos r + i64 cnt) >? r_len r) = false ->
  i64 cnt = cnt /\ cnt <= len (r_rest r).
Proof.
  intros [Hp Hl] Hc H1 H2. unfold r_len in *. pose proof (len_nonneg (r_rest r)).
  rewrite (i64_small cnt) in * by lia. rewrite i64_small in H2 by lia. lia.
Qed.

Lemma replay_returns fuel source targetLen r out :
  alloc_ok source -> reader_ok r -> (length (r_rest r) < fuel)%nat ->
  returns (replay fuel source targetLen r out).
Proof.
  intros Hs. revert r out. induction fuel as [|fuel IH]; intros r out Hr Hf; [lia|].
  cbn [replay]. destruct (r_rest r) as [|c0 rest0] eqn:Er; [done|].
  rewrite <- Er in Hf. apply returns_bind; [done|]. intros [cnt r1] H1.
  apply getInt_ok in H1 as (Hcnt & _ & Hr1 & Hl1); [|done].
  apply returns_bind; [done|]. intros [cmd r2] H2.
  apply getChar_ok in H2 as (_ & Hr2 & Hl2); [|done].
  destruct (Byte.eqb cmd x40).
  { apply returns_bind; [done|]. intros [offset r3] H3.
    apply getInt_ok in H3 as (Ho & _ & Hr3 & Hl3); [|done].
    apply returns_bind; [done|]. intros [term r4] H4.
    apply getChar_ok in H4 as (_ & Hr4 & Hl4); [|done].
    repeat (case_match; [done|]).
    destruct (copy_bounds source offset cnt) as (_ & _ & ->); [done|lia|lia|done|done|].
    cbn [obind]. apply IH; [done|lia]. }
  destruct (Byte.eqb cmd x3a); [|repeat case_match; done].
  repeat (case_match; [done|]).
  destruct (insert_bounds r2 cnt) as [-> Hc]; [done|lia|done|done|].
  destruct (reader_take_ok r2 cnt) as (-> & _ & Hr3); [done|lia|].
  cbn [obind]. apply IH; [done|]. cbn [r_rest]. rewrite length_drop. lia.
Qed.

Lemma parseTargetLen_returns r : returns (parseTargetLen r).
Proof.
  unfold parseTargetLen. apply returns_bind; [done|]. intros [n r1] _.
  apply returns_bind; [done|]. intros [c r2] _. repeat case_match; done.
Qed.

Lemma parseTargetLen_ok r n r' : parseTargetLen r = Ok (n, r') -> reader_ok r ->
  0 <= n < 2 ^ 32 /\ r_len r' = r_len r /\ reader_ok r'
  /\ (length (r_rest r') < length (r_rest r))%nat.
Proof.
  unfold parseTargetLen. intros H Hr. ok_inv. destruct a as [m r1].
  apply getInt_ok in Hok as (? & ? & ? & ?); [|done]. ok_inv. destruct a as [c r2].
  apply getChar_ok in Hok as (? & ? & ?); [|done].
  repeat (case_match; [done|]). ok_inv. unfold maxDeltaTargetSize in *.
  zbool. split; [lia|]. split; [congruence|]. split; [done|lia].
Qed.

Lemma reader_ok_start delta : alloc_ok delta -> reader_ok (mk_reader 0 delta).
Proof. unfold alloc_ok, reader_ok, r_len. simpl. lia. Qed.

Lemma replay_delta_returns source delta :
  alloc_ok source -> alloc_ok delta -> returns (replay_delta source delta).
Proof.
  intros Hs Hd. unfold replay_delta. case_match; [done|].
  apply returns_bind; [apply parseTargetLen_returns|]. intros [n r] H1.
  apply parseTargetLen_ok in H1 as (_ & _ & Hr & Hl); [|by apply reader_ok_start].
  apply replay_returns; [done..|]. simpl in Hl. lia.
Qed.

(** ** scanOutputSize measures what the replay produces *)

(** A read either fails as an invalid delta or yields a value. *)
Lemma getInt_cases r :
  (exists why, getInt r = invalid why) \/ (exists n r', getInt r = Ok (n, r')).
Proof.
  unfold getInt. generalize 0, false, (r_pos r).
  induction (r_rest r) as [|c rest IH]; intros v st pos; simpl; repeat case_match; eauto.
Qed.
Lemma getChar_cases r :
  (exists why, getChar r = invalid why) \/ (exists c r', getChar r = Ok (c, r')).
Proof. unfold getChar. case_match; eauto. Qed.

(** Case on a read: the failed branch first, then the value. *)
Ltac read_step cases x r H :=
  let why := fresh "why" in
  destruct cases as [[why H]|(x & r & H)]; rewrite H; cbn [obind].

(** The replay reached its terminator with the declared size. *)
Definition reached_end (targetLen : Z) (m : result bytes) : Prop :=
  match m with
  | Ok out => len out = targetLen
  | Err (ErrChecksum _ _) => True
  | _ => False
  end.

(** One walk: it answers, and it answers "exact" just when the replay over any
    output of the same length reaches the end. *)
Lemma scan_loop_replay fuel source targetLen out r :
  alloc_ok source -> reader_ok r -> (length (r_rest r) < fuel)%nat ->
  0 <= targetLen < 2 ^ 32 -> len out <= targetLen ->
  exists p b, scan_loop fuel (len source) targetLen (len out) r = Ok (p, b)
    /\ (b = true -> p = targetLen)
    /\ (b = true <-> reached_end targetLen (replay fuel source targetLen r out)).
Proof.
  intros Hs. revert r out. induction fuel as [|fuel IH]; intros r out Hr Hf Ht Hout; [lia|].
  assert (Hno : forall m, ~ reached_end targetLen m ->
    exists p b, @Ok delta_error _ (0, false) = Ok (p, b) /\ (b = true -> p = targetLen)
      /\ (b = true <-> reached_end targetLen m)).
  { intros m Hm. exists 0, false. naive_solver. }
  assert (Hbad : forall why, ~ reached_end targetLen (invalid why)) by (by intros ? []).
  cbn [scan_loop replay]. destruct (r_rest r) as [|c0 rest0] eqn:Er; [by apply Hno|].
  rewrite <- Er in Hf.
  read_step (getInt_cases r) cnt r1 H1; [by apply Hno|].
  apply getInt_ok in H1 as (Hcnt & _ & Hr1 & Hl1); [|done].
  read_step (getChar_cases r1) cmd r2 H2; [by apply Hno|].
  apply getChar_ok in H2 as (_ & Hr2 & Hl2); [|done].
  assert (Hadv : forall r3 xs, reader_ok r3 -> (length (r_rest r3) < fuel)%nat -> len xs = cnt ->
    cnt < 2 ^ 48 -> (u64 (len out + cnt) >? targetLen) = false ->
    exists p b, scan_loop fuel (len source) targetLen (u64 (len out + cnt)) r3 = Ok (p, b)
    /\ (b = true -> p = targetLen)
    /\ (b = true <-> reached_end targetLen (replay fuel source targetLen r3 (out ++ xs)))).
  { intros r3 xs Hr3 Hl3 <- Hsm Hle. pose proof (len_nonneg out).
    rewrite u64_small in Hle |- * by lia. rewrite <- len_app in Hle |- *.
    apply IH; [done|done|lia|lia]. }
  destruct (Byte.eqb cmd x40).
  { read_step (getInt_cases r2) offset r3 H3; [by apply Hno|].
    apply getInt_ok in H3 as (Ho & _ & Hr3 & Hl3); [|done].
    read_step (getChar_cases r3) term r4 H4; [by apply Hno|].
    apply getChar_ok in H4 as (_ & Hr4 & Hl4); [|done].
    destruct (Byte.eqb term x2c); cbn [negb]; [|by apply Hno].
    destruct ((offset >? len source) || (cnt >? len source)) eqn:Eb; cbn [orb]; [by apply Hno|].
    rewrite i64_small by (zbool; rewrite u64_small; unfold alloc_ok in *; lia).
    destruct (u64 (offset + cnt) >? len source) eqn:Eo; [by apply Hno|].
    destruct (copy_bounds source offset cnt) as (Hu & Hle & ->); [done|lia|lia|done| |].
    { by rewrite i64_small by (zbool; rewrite u64_small; unfold alloc_ok in *; lia). }
    destruct (u64 (len out + cnt) >? targetLen) eqn:Et; [by apply Hno|].
    cbn [obind]. apply Hadv; [done|lia| | |done]; [rewrite len_sub; lia|unfold alloc_ok in *; lia]. }
  destruct (Byte.eqb cmd x3a).
  { destruct (cnt >? r_len r2) eqn:Ec; cbn [orb]; [by apply Hno|].
    destruct (i64 (r_pos r2 + i64 cnt) >? r_len r2) eqn:Ei; [by apply Hno|].
    destruct (insert_bounds r2 cnt) as [-> Hc]; [done|lia|done|done|].
    destruct (reader_take_ok r2 cnt) as (-> & _ & Hr3); [done|lia|]. cbn [obind].
    destruct (u64 (len out + cnt) >? targetLen) eqn:Et; [by apply Hno|].
    pose proof (proj2 Hr2) as Hlt. unfold r_len in Hlt. pose proof (proj1 Hr2).
    apply Hadv; [done| | |lia|done];
      [cbn [r_rest]; rewrite length_drop; lia|rewrite len_take; lia]. }
  destruct (Byte.eqb cmd x3b); [|by apply Hno].
  destruct (Z.eqb_spec (len out) targetLen) as [E|E]; cbn [negb]; [|by apply Hno].
  exists targetLen, true. rewrite i64_small by lia. rewrite E.
  split; [done|]. split; [done|]. split; [intros _|done].
  by destruct (cnt =? Checksum out).
Qed.

Lemma scanOutputSize_replay source targetLen cmds :
  alloc_ok source -> alloc_ok cmds -> 0 <= targetLen < 2 ^ 32 ->
  exists p b, scanOutputSize cmds (len source) targetLen = Ok (p, b)
    /\ (b = true -> p = targetLen)
    /\ (b = true <->
          reached_end targetLen (replay (S (length cmds)) source targetLen (mk_reader 0 cmds) [])).
Proof.
  intros Hs Hc Ht. unfold scanOutputSize. replace (targetLen >? MaxInt64) with false
    by (unfold MaxInt64; lia).
  apply (scan_loop_replay _ _ _ []); [done| |simpl; lia|done|rewrite len_nil; lia].
  by apply reader_ok_start.
Qed.

(** ** ApplyInto is the replay, whatever buffer it is handed *)
Definition dst_ok (dst : buffer) : Prop :=
  b_data dst = [] /\ 0 <= b_cap dst /\ (b_nil dst = true -> b_cap dst = 0).

Lemma choose_output_ok dst proven exact targetLen :
  dst_ok dst -> 0 <= proven -> 0 <= targetLen ->
  buf_ok (fst (choose_output dst proven exact targetLen))
  /\ b_data (fst (choose_output dst proven exact targetLen)) = [].
Proof.
  intros (_ & Hc & Hn) Hp Ht. unfold choose_output, buf_ok, deltaInitialCap.
  assert (b_cap dst <> 0 -> b_nil dst = false) by (destruct (b_nil dst); [naive_solver lia|done]).
  destruct exact.
  - destruct ((b_cap dst >? 0) && (b_cap dst >=? proven)) eqn:E; simpl; [|by rewrite len_nil].
    zbool. rewrite len_nil. split; [|done]. split; [apply H; lia|lia].
  - destruct (Z.eqb_spec (b_cap dst) 0); simpl.
    + destruct (targetLen >? _); simpl; rewrite len_nil; (split; [|done]); split; done.
    + rewrite len_nil. auto with lia.
Qed.

Lemma ApplyInto_is_replay growslice dst source delta :
  (forall old need, need <= growslice old need) ->
  dst_ok dst -> alloc_ok source -> alloc_ok delta ->
  omap b_data (ApplyInto growslice dst (Some source) delta) = replay_delta source delta.
Proof.
  intros Hg Hdst Hs Hd. pose proof Hdst as [Hd0 _]. unfold ApplyInto, replay_delta.
  rewrite Hd0. rewrite len_nil. cbn [Z.eqb negb]. case_match; [done|].
  destruct (parseTargetLen (mk_reader 0 delta)) as [[targetLen r]|e|s|] eqn:Hp; [|done..].
  apply parseTargetLen_ok in Hp as (Ht & Hlen & Hr & Hl); [|by apply reader_ok_start].
  cbn [obind]. assert (alloc_ok (r_rest r)).
  { destruct Hr as [? Hr]. unfold alloc_ok, r_len in *. lia. }
  destruct (scanOutputSize_replay source targetLen (r_rest r)) as (p & b & -> & Hpb & _); [done..|].
  cbn [obind].
  set (p' := if b then p else 0).
  assert (Hch : choose_output dst p b targetLen = choose_output dst p' b targetLen) by by destruct b.
  rewrite Hch. clear Hch.
  destruct (choose_output_ok dst p' b targetLen) as [Hb Hb0]; [done| |lia|].
  { subst p'. destruct b; [rewrite Hpb by done|]; lia. }
  destruct (choose_output dst p' b targetLen) as [o c]. simpl in Hb, Hb0.
  destruct (apply_loop_replay growslice Hg (S (length delta)) source (len delta) targetLen c r o
    false Hb) as [Heq Hnn].
  rewrite Hb0 in Heq. rewrite <- Heq. unfold omap.
  destruct (apply_loop _ _ _ _ _ _ _ _ _) as [o'|e|s|]; [|done..].
  cbn [obind]. by rewrite (proj1 (Hnn o' eq_refl)).
Qed.

(** The buffer ApplyInto returns can be handed to it again, resliced. *)
Lemma ApplyInto_dst_ok growslice dst source delta o :
  (forall old need, need <= growslice old need) -> dst_ok dst -> alloc_ok source -> alloc_ok delta ->
  ApplyInto growslice dst (Some source) delta = Ok o -> dst_ok (mk_buffer (b_nil o) [] (b_cap o)).
Proof.
  intros Hg Hdst Hs Hd H. unfold ApplyInto in H. destruct (negb _); [done|]. destruct (len delta =? 0); [done|].
  apply obind_ok in H as ([targetLen r] & Hp & H). apply parseTargetLen_ok in Hp as (Ht & _ & Hr & _); [|by apply reader_ok_start].
  assert (alloc_ok (r_rest r)) by (destruct Hr as [? Hr]; unfold alloc_ok, r_len in *; lia).
  apply obind_ok in H as ([p b] & Hsc & H).
  destruct (scanOutputSize_replay source targetLen (r_rest r)) as (p' & b' & Heq & Hpb & _); [done..|].
  rewrite Heq in Hsc. injection Hsc as <- <-.
  assert (choose_output dst p' b' targetLen = choose_output dst (if b' then p' else 0) b' targetLen) as Hch by by destruct b'.
  destruct (choose_output_ok dst (if b' then p' else 0) b' targetLen) as [Hb _]; [done|destruct b'; [rewrite Hpb by done|]; lia|lia|].
  rewrite <- Hch in Hb. destruct (choose_output dst p' b' targetLen) as [o1 c]. simpl in Hb.
  apply obind_ok in H as (o2 & Ho & H). destruct (apply_loop_replay growslice Hg (S (length delta)) source (len delta) targetLen c r o1
    false Hb) as [_ Hbuf]. destruct (Hbuf _ Ho) as [Hn Hc]. rewrite Hn in H. injection H as <-.
  pose proof (len_nonneg (b_data o2)). split; [done|]. cbn. rewrite Hn. split; [lia|done].
Qed.

(** ** Commands: what a delta file says *)
Inductive command :=
| Copy (cnt offset : Z)
| Insert (xs : bytes).

Definition render_cmd (c : command) : bytes :=
  match c with
  | Copy cnt offset => int_bytes cnt ++ x40 :: int_bytes offset ++ [x2c]
  | Insert xs => int_bytes (len xs) ++ x3a :: xs
  end.

Definition eval_cmd (source : bytes) (c : command) : bytes :=
  match c with
  | Copy cnt offset => sub offset (offset + cnt) source
  | Insert xs => xs
  end.

(** The command selects bytes that exist, and at least one. *)
Definition cmd_ok (source : bytes) (c : command) : Prop :=
  match c with
  | Copy cnt offset => 0 < cnt /\ 0 <= offset /\ offset + cnt <= len source
  | Insert xs => 0 < len xs
  end.

Definition render (cmds : list command) : bytes := mjoin (render_cmd <$> cmds).
Definition eval (source : bytes) (cmds : list command) : bytes := mjoin (eval_cmd source <$> cmds).

(** A delta file: header, commands, terminator. *)
Definition delta_file (target : bytes) (cmds : list command) : bytes :=
  int_bytes (len target) ++ x0a :: render cmds ++ int_bytes (Checksum target) ++ [x3b].

Lemma render_app a b : render (a ++ b) = render a ++ render b.
Proof. unfold render. by rewrite fmap_app, join_app. Qed.
Lemma eval_app source a b : eval source (a ++ b) = eval source a ++ eval source b.
Proof. unfold eval. by rewrite fmap_app, join_app. Qed.
Lemma eval_cons source c l : eval source (c :: l) = eval_cmd source c ++ eval source l.
Proof. done. Qed.
Lemma render_cons c l : render (c :: l) = render_cmd c ++ render l.
Proof. done. Qed.

Lemma eval_cmd_len source c : cmd_ok source c -> 0 < len (eval_cmd source c).
Proof. destruct c; simpl; [|done]. intros. rewrite len_sub; lia. Qed.

(** Rendering costs at most 28 bytes a command over the bytes it selects. *)
Lemma render_len source cmds : Forall (cmd_ok source) cmds ->
  len (render cmds) <= 29 * len (eval source cmds).
Proof.
  induction 1 as [|c cmds Hc _ IH]; [done|].
  rewrite render_cons, eval_cons, !len_app. pose proof (eval_cmd_len source c Hc).
  enough (len (render_cmd c) <= 28 + len (eval_cmd source c)) by lia.
  destruct c as [cnt offset|xs]; cbn [render_cmd eval_cmd] in *.
  - pose proof (int_bytes_len cnt). pose proof (int_bytes_len offset). len_lia.
  - pose proof (int_bytes_len (len xs)). len_lia.
Qed.

Lemma stops_cons c rest : is_d c = false -> stops (c :: rest).
Proof. done. Qed.
#[local] Hint Extern 1 (stops (_ :: _)) => by vm_compute : core.

Lemma getInt_then_char v pos c rest : 0 <= v < 2 ^ 64 -> is_d c = false ->
  obind (getInt (mk_reader pos (int_bytes v ++ c :: rest))) (fun '(n, r) =>
    obind (getChar r) (fun '(c, r) => Ok (n, c, r)))
  = @Ok delta_error _ (v, c, mk_reader (pos + len (int_bytes v) + 1) rest).
Proof. intros Hv Hc. by rewrite getInt_int_bytes by done. Qed.

(** One command of the replay. *)
Lemma replay_cmd fuel source targetLen pos out c tail :
  alloc_ok source -> cmd_ok source c -> 0 <= pos ->
  pos + len (render_cmd c ++ tail) < 2 ^ 48 ->
  targetLen < 2 ^ 32 -> len out + len (eval_cmd source c) <= targetLen ->
  replay (S fuel) source targetLen (mk_reader pos (render_cmd c ++ tail)) out
  = replay fuel source targetLen (mk_reader (pos + len (render_cmd c)) tail)
      (out ++ eval_cmd source c).
Proof.
  intros Hs Hc Hp Hlen Ht Hout. unfold alloc_ok in Hs.
  pose proof (len_nonneg out). pose proof (len_nonneg tail).
  destruct c as [cnt offset|xs]; cbn [render_cmd eval_cmd cmd_ok] in *.
  - destruct Hc as (Hcnt & Hoff & Hle). rewrite len_sub in Hout by lia.
    cbn [replay r_rest]. rewrite <- app_assoc in Hlen |- *. cbn [app] in Hlen |- *.
    destruct (int_bytes cnt ++ _) as [|b0 l0] eqn:E.
    { apply app_eq_nil in E as [_ E]. done. }
    rewrite <- E in Hlen |- *. clear E b0 l0.
    rewrite getInt_int_bytes; [|lia|done]. cbn [obind getChar r_rest r_pos].
    rewrite <- app_assoc. cbn [app]. change (Byte.eqb x40 x40) with true. cbv iota.
    rewrite getInt_int_bytes; [|lia|done]. cbn [obind getChar r_rest r_pos].
    change (negb (Byte.eqb x2c x2c)) with false. cbv iota.
    replace ((offset >? len source) || (cnt >? len source)) with false by lia.
    rewrite (u64_small (offset + cnt)), i64_small by lia.
    replace (offset + cnt >? len source) with false by lia.
    rewrite (u64_small (len out + cnt)) by lia.
    replace (len out + cnt >? targetLen) with false by lia.
    unfold slice_expr. replace (_ && _) with true by lia. cbn [obind].
    f_equal. f_equal. rewrite len_app, len_cons, len_app. simpl. rewrite len_cons, len_nil. lia.
  - cbn [replay r_rest]. rewrite <- app_assoc in Hlen |- *. cbn [app] in Hlen |- *.
    destruct (int_bytes (len xs) ++ _) as [|b0 l0] eqn:E.
    { apply app_eq_nil in E as [_ E]. done. }
    rewrite <- E in Hlen |- *. clear E b0 l0. rewrite len_app, len_cons, len_app in Hlen.
    pose proof (len_nonneg (int_bytes (len xs))).
    rewrite getInt_int_bytes; [|lia|done]. cbn [obind getChar r_rest r_pos].
    change (Byte.eqb x3a x40) with false. change (Byte.eqb x3a x3a) with true. cbv iota.
    unfold r_len. cbn [r_pos r_rest]. rewrite !len_app.
    rewrite (i64_small (len xs)), i64_small, u64_small by lia.
    replace (len xs >? _) with false by lia.
    replace (_ + len xs >? _) with false by lia.
    replace (len out + len xs >? targetLen) with false by lia.
    unfold reader_take, slice_expr. cbn [r_rest].
    replace (_ && _) with true by (rewrite len_app; lia). cbn [obind].
    unfold sub. rewrite Z.sub_0_r. change (drop (Z.to_nat 0) (xs ++ tail)) with (xs ++ tail).
    rewrite take_len_app, drop_len_app. f_equal.
    cbn [r_pos]. f_equal. rewrite len_cons. lia.
Qed.

Lemma replay_cmds cmds fuel source targetLen pos out tail :
  alloc_ok source -> Forall (cmd_ok source) cmds -> 0 <= pos ->
  pos + len (render cmds ++ tail) < 2 ^ 48 ->
  targetLen < 2 ^ 32 -> len out + len (eval source cmds) <= targetLen ->
  replay (length cmds + fuel) source targetLen (mk_reader pos (render cmds ++ tail)) out
  = replay fuel source targetLen (mk_reader (pos + len (render cmds)) tail)
      (out ++ eval source cmds).
Proof.
  intros Hs Hc. revert pos out. induction Hc as [|c cmds Hc _ IH]; intros pos out Hp Hlen Ht Hout.
  { change (eval source []) with (@nil byte). change (render []) with (@nil byte).
    by rewrite app_nil_r, len_nil, Z.add_0_r. }
  rewrite eval_cons, len_app in Hout. rewrite eval_cons, render_cons, <- app_assoc in *.
  pose proof (len_nonneg (eval source cmds)). pose proof (len_nonneg (render cmds ++ tail)).
  simpl length. cbn [Nat.add]. rewrite replay_cmd by (done || lia).
  rewrite len_app in Hlen. pose proof (len_nonneg (render_cmd c)).
  rewrite IH; [|lia..|rewrite len_app; lia].
  rewrite len_app, <- app_assoc. f_equal. f_equal. lia.
Qed.

(** ** The landmark table *)
Record table_ok (source : bytes) (t : table) : Prop := {
  tok_mask : 0 <= t_mask t < len (t_heads t);
  tok_heads : Forall (fun v => 0 <= v <= len (t_entries t)) (t_heads t);
  tok_entries k e : t_entries t !! k = Some e ->
    0 <= he_offset e /\ he_offset e + nHash <= len source
    /\ -1 <= he_next e < Z.of_nat k;
}.

Lemma clear_low_bits_pos f n : 0 < n -> 0 < clear_low_bits f n <= n.
Proof.
  revert n. induction f as [|f IH]; intros n Hn; simpl; [lia|].
  destruct (Z.eqb_spec (Z.land n (n - 1)) 0); [lia|].
  pose proof (Z.land_nonneg n (n - 1)). 
  assert (Z.land n (n - 1) <= n - 1) by (apply land_le_r; lia).
  specialize (IH (Z.land n (n - 1)) ltac:(lia)). lia.
Qed.

Lemma tableSize_pos n : 0 <= n -> 0 < tableSize n.
Proof.
  intros. unfold tableSize. rewrite Z.shiftl_mul_pow2 by lia.
  match goal with |- 0 < clear_low_bits 64 ?m * _ =>
    pose proof (clear_low_bits_pos 64 m) as Hp;
    assert (0 < m) by (destruct (n / nHash <? 64) eqn:E; zbool; lia) end.
  lia.
Qed.

Lemma land_index h mask (l : list Z) : 0 <= mask < len l -> 0 <= h ->
  (Z.to_nat (Z.land h mask) < length l)%nat.
Proof.
  intros Hm Hh. assert (Z.land h mask <= mask) by (apply land_le_r; lia).
  pose proof (Z.land_nonneg h mask). unfold len in *. lia.
Qed.

Lemma rollingHash_range data : 0 <= rollingHash data < 2 ^ 32.
Proof.
  unfold rollingHash.
  enough (H : forall h, 0 <= h < 2 ^ 32 ->
    0 <= fold_left (fun h b => u32 (h * 37 + bz b)) data h < 2 ^ 32) by (apply H; lia).
  induction data as [|c data IH]; intros h H; simpl; [done|]. apply IH, u32_range.
Qed.

Lemma build_loop_ok fuel source i mask heads entries :
  0 <= i -> table_ok source (mk_table heads entries mask) ->
  table_ok source (build_loop fuel source i mask heads entries).
Proof.
  revert i heads entries. induction fuel as [|fuel IH]; intros i heads entries Hi Hok; [done|].
  cbn [build_loop]. destruct (Z.leb_spec (i + nHash) (len source)) as [Hle|]; [|done].
  apply IH; [unfold nHash in *; lia|]. destruct Hok as [Hm Hh He]. simpl in *.
  set (idx := Z.to_nat (Z.land (rollingHash (sub i (i + nHash) source)) mask)).
  assert (Hidx : (idx < length heads)%nat).
  { apply land_index; [done|]. apply rollingHash_range. }
  assert (Hold : 0 <= nth idx heads 0 <= len entries).
  { rewrite Forall_lookup in Hh. destruct (lookup_lt_is_Some_2 heads idx Hidx) as [v Hv].
    rewrite (nth_lookup_Some _ _ _ _ Hv). by eapply Hh. }
  split; simpl.
  - unfold len in *. by rewrite length_insert.
  - apply Forall_insert; [|cbv beta; len_lia].
    eapply Forall_impl; [exact Hh|]. intros v Hv. cbv beta in *. len_lia.
  - intros k e Hk. apply lookup_app_Some in Hk as [Hk|[Hge Hk]]; [by eapply He|].
    apply list_lookup_singleton_Some in Hk as [Hk <-]. simpl. unfold len in *. split; [done|].
    split; [done|]. lia.
Qed.

Lemma buildHashTable_ok source : table_ok source (buildHashTable source).
Proof.
  unfold buildHashTable. apply build_loop_ok; [lia|].
  pose proof (tableSize_pos (len source) (len_nonneg _)).
  split; cbn [t_mask t_heads t_entries].
  - unfold len in *. rewrite length_replicate. lia.
  - by apply Forall_replicate.
  - by intros k e.
Qed.

(** Every aligned window of the source is entered, so the fuel suffices. *)
Lemma build_loop_entries fuel source i mask heads entries :
  0 <= i -> len source - i < Z.of_nat fuel * nHash ->
  i <= len source ->
  len (t_entries (build_loop fuel source i mask heads entries))
  = len entries + (len source - i) / nHash.
Proof.
  revert i heads entries. induction fuel as [|fuel IH]; intros i heads entries Hi Hf Hle.
  { unfold nHash in *. lia. }
  cbn [build_loop]. unfold nHash in *.
  destruct (Z.leb_spec (i + 16) (len source)).
  - rewrite IH by lia. rewrite len_app, len_cons, len_nil.
    replace (len source - i) with ((len source - (i + 16)) + 1 * 16) by lia.
    rewrite Z.div_add by lia. lia.
  - simpl. rewrite Z.div_small by lia. lia.
Qed.

(** ** Matches are real *)
Lemma matchLen_spec a b :
  0 <= matchLen a b <= len a /\ matchLen a b <= len b
  /\ take (Z.to_nat (matchLen a b)) a = take (Z.to_nat (matchLen a b)) b.
Proof.
  revert b. induction a as [|x a IH]; intros [|y b]; simpl matchLen;
    rewrite ?len_cons, ?len_nil; try (pose proof (len_nonneg a)); try (pose proof (len_nonneg b));
    try (repeat split; simpl; (lia || done)).
  destruct (Byte.eqb x y) eqn:E; [|repeat split; simpl; (lia || done)].
  apply byte_eqb_eq in E as ->. destruct (IH b) as (? & ? & Heq).
  repeat split; [lia..|]. replace (Z.to_nat (1 + matchLen a b)) with (S (Z.to_nat (matchLen a b))) by lia.
  simpl. by rewrite Heq.
Qed.

Definition match_ok (source trest : bytes) (bo bl : Z) : Prop :=
  bl = 0 \/ (nHash <= bl /\ 0 <= bo /\ bo + bl <= len source /\ bl <= len trest
             /\ sub bo (bo + bl) source = take (Z.to_nat bl) trest).

Lemma match_found source trest sOff ml : 0 <= sOff -> sOff + nHash <= len source ->
  ml = matchLen (drop (Z.to_nat sOff) source) trest -> nHash <= ml ->
  match_ok source trest sOff ml.
Proof.
  intros Ho Hs -> Hm. right. destruct (matchLen_spec (drop (Z.to_nat sOff) source) trest)
    as (H1 & H2 & H3).
  unfold nHash in *. rewrite len_drop in H1 by lia. repeat split; [lia..|].
  unfold sub. by replace (sOff + _ - sOff) with (matchLen (drop (Z.to_nat sOff) source) trest) by lia.
Qed.

Lemma best_loop_ok budget source trest t ei bo bl ex :
  table_ok source t -> 0 <= ei <= len (t_entries t) -> match_ok source trest bo bl ->
  exists bo' bl' ex',
    best_loop budget source trest (t_entries t) ei bo bl ex = Ok (bo', bl', ex')
    /\ match_ok source trest bo' bl' /\ bl <= bl' /\ ex <= ex' <= ex + Z.of_nat budget.
Proof.
  intros Ht. revert ei bo bl ex. induction budget as [|n IH]; intros ei bo bl ex Hei Hm.
  { exists bo, bl, ex. simpl. repeat split; (done || lia). }
  cbn [best_loop]. destruct (ei >? 0) eqn:E.
  2: { exists bo, bl, ex. repeat split; (done || lia). }
  destruct (lookup_lt_is_Some_2 (t_entries t) (Z.to_nat (ei - 1))) as [e He].
  { unfold len in *. lia. }
  rewrite He. destruct (tok_entries _ _ Ht _ _ He) as (Ho & Hw & Hn).
  replace (he_offset e + nHash >? len source) with false by lia.
  match goal with |- context [if ?b then _ else _] => destruct b eqn:Eb end.
  - destruct (IH (he_next e + 1) (he_offset e) (matchLen (drop (Z.to_nat (he_offset e)) source) trest)
      (ex + 1)) as (bo' & bl' & ex' & -> & ? & ? & ?); [lia| |].
    { apply match_found; [done|done|done|]. zbool. lia. }
    exists bo', bl', ex'. zbool. repeat split; (done || lia).
  - destruct (IH (he_next e + 1) bo bl (ex + 1)) as (bo' & bl' & ex' & -> & ? & ? & ?); [lia|done|].
    exists bo', bl', ex'. repeat split; (done || lia).
Qed.

Lemma bestMatch_ok source trest t : table_ok source t ->
  exists bo bl ex, bestMatch source trest t = Ok (bo, bl, ex)
    /\ match_ok source trest bo bl /\ 0 <= ex <= Z.of_nat maxChainCandidates.
Proof.
  intros Ht. unfold bestMatch.
  destruct (lookup_lt_is_Some_2 (t_heads t) (Z.to_nat (Z.land
    (rollingHash (take (Z.to_nat nHash) trest)) (t_mask t)))) as [ei Hei].
  { apply land_index; [apply Ht|]. apply rollingHash_range. }
  rewrite Hei. pose proof (tok_heads _ _ Ht) as Hh. rewrite Forall_lookup in Hh.
  destruct (best_loop_ok maxChainCandidates source trest t ei 0 0 0) as (bo & bl & ex & -> & ? & ? & ?);
    [done|by eapply Hh|by left|].
  exists bo, bl, ex. repeat split; (done || lia).
Qed.

(** ** Create emits a command program for the target *)
Lemma flushInsert_render source buf pending : exists cmds,
  flushInsert buf pending = buf ++ render cmds /\ Forall (cmd_ok source) cmds
  /\ eval source cmds = pending.
Proof.
  unfold flushInsert. destruct (len pending >? 0) eqn:E.
  - exists [Insert pending]. rewrite appendInt_app.
    change (render [Insert pending]) with (render_cmd (Insert pending) ++ []).
    change (eval source [Insert pending]) with (pending ++ []).
    rewrite !app_nil_r. cbn [render_cmd]. rewrite <- app_assoc.
    split; [done|]. split; [|done]. constructor; [cbn [cmd_ok]; lia|constructor].
  - exists []. pose proof (len_nonneg pending). rewrite (len_zero pending) by lia.
    split; [by rewrite app_nil_r|]. split; [constructor|done].
Qed.

Lemma emit_loop_render fuel source t buf pending trest :
  table_ok source t -> (length trest < fuel)%nat ->
  exists cmds, emit_loop fuel source t buf pending trest = Ok (buf ++ render cmds)
    /\ Forall (cmd_ok source) cmds /\ eval source cmds = pending ++ trest.
Proof.
  intros Ht. revert buf pending trest.
  induction fuel as [|fuel IH]; intros buf pending trest Hf; [lia|].
  cbn [emit_loop]. destruct trest as [|c trest'].
  { destruct (flushInsert_render source buf pending) as (cmds & -> & Hok & Hev).
    exists cmds. by rewrite app_nil_r. }
  set (trest := c :: trest') in *.
  assert (exists bo bl ex, (if nHash <=? len trest then bestMatch source trest t else Ok (0, 0, 0))
            = Ok (bo, bl, ex) /\ match_ok source trest bo bl) as (bo & bl & ex & -> & Hm).
  { destruct (nHash <=? len trest).
    - destruct (bestMatch_ok source trest t Ht) as (bo & bl & ex & ? & ? & _). eauto.
    - exists 0, 0, 0. split; [done|by left]. }
  cbn [obind]. destruct (bl >=? nHash) eqn:E.
  - destruct Hm as [->|(Hl & Ho & Hbs & Hbt & Heq)]; [done|].
    destruct (flushInsert_render source buf pending) as (c1 & -> & Hok1 & Hev1).
    unfold nHash in *.
    edestruct (IH (appendInt (appendInt (buf ++ render c1) bl ++ [x40]) bo ++ [x2c]) []
      (drop (Z.to_nat bl) trest)) as (c2 & -> & Hok2 & Hev2).
    { rewrite length_drop. unfold len in *. lia. }
    exists (c1 ++ Copy bl bo :: c2). split_and!.
    + f_equal. rewrite render_app, render_cons, !appendInt_app. cbn [render_cmd].
      by rewrite <- !app_assoc; cbn [app]; rewrite <- !app_assoc.
    + apply Forall_app. split; [done|]. constructor; [simpl; lia|done].
    + rewrite eval_app, eval_cons, Hev1, Hev2. cbn [eval_cmd]. rewrite Heq. simpl app.
      by rewrite take_drop.
  - edestruct (IH buf (pending ++ [c]) trest') as (cmds & -> & Hok & Hev).
    { subst trest. simpl in Hf. lia. }
    exists cmds. split; [done|]. split; [done|]. by rewrite Hev, <- app_assoc.
Qed.

Lemma Create_delta_file source target :
  len source < 2 ^ 32 -> len target < 2 ^ 32 ->
  exists cmds, Create (Some source) (Some target) = Ok (delta_file target cmds)
    /\ Forall (cmd_ok source) cmds /\ eval source cmds = target.
Proof.
  intros Hs Ht. pose proof (len_nonneg source). pose proof (len_nonneg target).
  unfold Create, checkSizes, maxDeltaTargetSize. rewrite !u64_small by lia.
  replace (_ || _) with false by lia. cbn [obind].
  enough (exists cmds, create_body source target = Ok (delta_file target cmds)
    /\ Forall (cmd_ok source) cmds /\ eval source cmds = target) as (cmds & -> & Hok & Hev).
  { exists cmds. cbn [obind]. split; [|done]. unfold delta_file.
    replace (len _ =? 0) with false; [done|].
    symmetry. apply Z.eqb_neq. rewrite len_app, len_cons.
    pose proof (len_nonneg (int_bytes (len target))). 
    match goal with |- context [1 + len ?l] => pose proof (len_nonneg l) end. lia. }
  unfold create_body. destruct (Z.eqb_spec (len target) 0) as [E|E].
  { apply len_zero in E as ->. exists []. split; [|split; [constructor|done]].
    unfold delta_file. by rewrite !appendInt_app, <- !app_assoc. }
  destruct (len source <? nHash).
  { unfold createInsertAll. replace (len target =? 0) with false by lia.
    exists [Insert target]. split; [|split].
    - f_equal. unfold delta_file.
      change (render [Insert target]) with (render_cmd (Insert target) ++ []).
      rewrite app_nil_r. cbn [render_cmd]. rewrite !appendInt_app.
      by rewrite <- !app_assoc; cbn [app]; rewrite <- ?app_assoc.
    - constructor; [cbn [cmd_ok]; lia|constructor].
    - change (eval source [Insert target]) with (target ++ []). by rewrite app_nil_r. }
  unfold emitMatches.
  destruct (emit_loop_render (S (length target)) source (buildHashTable source)
    (appendInt [] (len target) ++ [x0a]) [] target) as (cmds & -> & Hok & Hev).
  { apply buildHashTable_ok. } { lia. }
  exists cmds. split; [|done]. cbn [obind]. f_equal. unfold delta_file.
  rewrite !appendInt_app. by rewrite <- !app_assoc.
Qed.

(** ** Files decode to what their commands evaluate to *)
Lemma Checksum_range data : 0 <= Checksum data < 2 ^ 32.
Proof.
  unfold Checksum. assert (Hz : 0 <= 0 < 2 ^ 32) by lia.
  enough (H : forall n data, (length data <= n)%nat -> forall s, 0 <= s < 2 ^ 32 ->
    0 <= checksum_loop s data < 2 ^ 32) by by eapply H.
  induction n as [|n IH]; intros [|a [|b [|c [|d l]]]] Hl s Hs; simpl in *; try lia;
    try apply u32_range.
  apply IH; [lia|apply u32_range].
Qed.

Lemma parseTargetLen_file (target tail : bytes) pos : 0 <= pos -> len target < 2 ^ 32 ->
  parseTargetLen (mk_reader pos (int_bytes (len target) ++ x0a :: tail))
  = Ok (len target, mk_reader (pos + len (int_bytes (len target)) + 1) tail).
Proof.
  intros Hp Ht. pose proof (len_nonneg target). unfold parseTargetLen.
  rewrite getInt_int_bytes by (done || lia). cbn [obind getChar r_rest r_pos].
  change (negb (Byte.eqb x0a x0a)) with false. cbv iota. unfold maxDeltaTargetSize.
  by replace (len target >=? 2 ^ 32) with false by lia.
Qed.

Lemma delta_file_len source target cmds :
  Forall (cmd_ok source) cmds -> eval source cmds = target -> len target < 2 ^ 32 ->
  len (delta_file target cmds) < 2 ^ 48.
Proof.
  intros Hok Hev Ht. pose proof (render_len source cmds Hok) as Hr. rewrite Hev in Hr.
  pose proof (int_bytes_len (len target)). pose proof (int_bytes_len (Checksum target)).
  unfold delta_file. rewrite len_app, len_cons, !len_app, len_cons, len_nil. lia.
Qed.

Lemma length_render cmds source : Forall (cmd_ok source) cmds ->
  (length cmds <= length (render cmds))%nat.
Proof.
  induction 1 as [|c cmds _ _ IH]; [simpl; lia|].
  rewrite render_cons, length_app. enough (1 <= length (render_cmd c))%nat by (simpl; lia).
  destruct c; simpl; rewrite length_app; simpl; lia.
Qed.

Lemma replay_delta_file source target cmds :
  alloc_ok source -> Forall (cmd_ok source) cmds -> eval source cmds = target ->
  len target < 2 ^ 32 ->
  replay_delta source (delta_file target cmds) = Ok target.
Proof.
  intros Hs Hok Hev Ht.
  pose proof (delta_file_len source target cmds Hok Hev Ht) as Hlen.
  pose proof (length_render cmds source Hok) as Hlr.
  unfold replay_delta. unfold delta_file in *.
  set (tail := render cmds ++ int_bytes (Checksum target) ++ [x3b]) in *.
  rewrite len_app, len_cons in *. pose proof (len_nonneg tail).
  pose proof (len_nonneg (int_bytes (len target))).
  replace (_ =? 0) with false by lia. rewrite parseTargetLen_file by lia. cbn [obind].
  assert (Hfl : (length cmds + 2 <= S (length (int_bytes (len target) ++ x0a :: tail)))%nat).
  { subst tail. rewrite length_app. simpl. rewrite length_app. lia. }
  replace (S (length (int_bytes (len target) ++ x0a :: tail)))
    with (length cmds + S (S (S (length (int_bytes (len target) ++ x0a :: tail)) - length cmds - 2)))%nat
    by lia.
  generalize (S (length (int_bytes (len target) ++ x0a :: tail)) - length cmds - 2)%nat as fuel.
  intros fuel. unfold tail in *.
  rewrite (replay_cmds cmds _ source (len target)); [|done|done|lia|lia|lia|].
  2: { rewrite Hev, len_nil. lia. }
  rewrite Hev. cbn [replay r_rest app].
  pose proof (Checksum_range target).
  destruct (int_bytes (Checksum target) ++ [x3b]) as [|b0 l0] eqn:E.
  { by apply app_eq_nil in E as [_ E]. }
  rewrite <- E. rewrite getInt_int_bytes by (done || lia). cbn [obind getChar r_rest r_pos].
  change (Byte.eqb x3b x40) with false. change (Byte.eqb x3b x3a) with false.
  change (Byte.eqb x3b x3b) with true. cbv iota. by rewrite !Z.eqb_refl.
Qed.

(** ** Supporting facts for the contract *)
Lemma replay_ok_len fuel source targetLen r out res :
  replay fuel source targetLen r out = Ok res -> len res = targetLen.
Proof.
  revert r out. induction fuel as [|fuel IH]; intros r out; [done|].
  cbn [replay]. destruct (r_rest r); [done|]. intros H. ok_inv. destruct a as [cnt r1].
  ok_inv. destruct a as [cmd r2].
  destruct (Byte.eqb cmd x40).
  { ok_inv. destruct a as [offset r3]. ok_inv. destruct a as [term r4].
    repeat (case_match; [done|]). ok_inv. by eapply IH. }
  destruct (Byte.eqb cmd x3a).
  { repeat (case_match; [done|]). ok_inv. destruct a as [xs r3]. by eapply IH. }
  destruct (Byte.eqb cmd x3b); [|done].
  destruct (Z.eqb_spec (len out) targetLen) as [E|]; [|done]. cbn [negb] in *.
  case_match; [done|]. by ok_inv.
Qed.

(** An integer too large for 64 bits is refused at the digit that overflows. *)
Lemma getInt_loop_overflow ds rest pos v st :
  Forall (fun c => is_d c = true) ds -> 0 <= v <= MaxUint64 -> MaxUint64 < b64_val v ds ->
  exists p, getInt_loop (ds ++ rest) pos v st = invalid (IntegerOverflow p).
Proof.
  intros H. revert pos v st. induction H as [|c ds Hc _ IH]; intros pos v st Hv Hmax.
  { simpl in Hmax. lia. }
  simpl. pose proof (digit_of_range _ Hc) as Hd. rewrite b64_val_cons in Hmax.
  rewrite is_d_neg in Hc. apply negb_true_iff in Hc as ->.
  destruct (v >? (MaxUint64 - digit_of c) / 64) eqn:E; [by eauto|].
  assert (v * 64 + digit_of c <= MaxUint64).
  { pose proof (Z.mul_div_le (MaxUint64 - digit_of c) 64). zbool. lia. }
  rewrite u64_small by (unfold MaxUint64 in *; lia). apply IH; lia.
Qed.

(** Byte [i] of the data weighs [256^(3 - i mod 4)]: [k] is [i mod 4]. *)
Fixpoint weighted_sum (k : Z) (data : bytes) : Z :=
  match data with
  | [] => 0
  | b :: data => bz b * 2 ^ (8 * (3 - k)) + weighted_sum ((k + 1) mod 4) data
  end.

Lemma be32_sum a b c d :
  Z.lor (Z.lor (Z.lor (Z.shiftl (bz a) 24) (Z.shiftl (bz b) 16)) (Z.shiftl (bz c) 8)) (bz d)
  = bz a * 2 ^ 24 + bz b * 2 ^ 16 + bz c * 2 ^ 8 + bz d.
Proof.
  pose proof (bz_range a). pose proof (bz_range b). pose proof (bz_range c). pose proof (bz_range d).
  rewrite !Z.shiftl_mul_pow2 by lia.
  assert (Hor : forall x y n, 0 <= n -> 0 <= y < 2 ^ n -> Z.lor (x * 2 ^ n) y = x * 2 ^ n + y).
  { intros x y n Hn Hy. rewrite <- Z.add_lor_land.
    enough (Z.land (x * 2 ^ n) y = 0) by lia.
    apply Z.bits_inj_0. intros i. rewrite Z.land_spec.
    destruct (Z.lt_ge_cases i n).
    - destruct (Z.lt_ge_cases i 0); [by rewrite !Z.testbit_neg_r|].
      by rewrite Z.mul_pow2_bits_low.
    - destruct (Z.eq_dec y 0) as [->|]; [by rewrite Z.bits_0, andb_false_r|].
      rewrite (Z.bits_above_log2 y); [by rewrite andb_false_r|lia|].
      apply Z.log2_lt_pow2; [lia|]. eapply Z.lt_le_trans; [apply Hy|].
      apply Z.pow_le_mono_r; lia. }
  rewrite (Hor (bz a) (bz b * 2 ^ 16) 24) by lia.
  replace (bz a * 2 ^ 24 + bz b * 2 ^ 16) with ((bz a * 2 ^ 8 + bz b) * 2 ^ 16) by lia.
  rewrite Hor by lia.
  replace ((bz a * 2 ^ 8 + bz b) * 2 ^ 16 + bz c * 2 ^ 8)
    with (((bz a * 2 ^ 8 + bz b) * 2 ^ 8 + bz c) * 2 ^ 8) by lia.
  rewrite Hor by lia. lia.
Qed.

Lemma u32_add_l a b : u32 (u32 a + b) = u32 (a + b).
Proof. unfold u32. by rewrite Zplus_mod_idemp_l. Qed.

Lemma checksum_loop_spec n data s : (length data <= n)%nat -> u32 s = s ->
  checksum_loop s data = u32 (s + weighted_sum 0 data).
Proof.
  revert data s. induction n as [|n IH]; intros [|a [|b [|c [|d l]]]] s Hl Hs;
    cbn [checksum_loop weighted_sum]; try (simpl in Hl; lia);
    rewrite ?be32_sum, ?Z.shiftl_mul_pow2, ?Z.add_0_r by lia; try done;
    change ((0 + 1) mod 4) with 1; change ((1 + 1) mod 4) with 2;
    change ((2 + 1) mod 4) with 3; change ((3 + 1) mod 4) with 0;
    change (8 * (3 - 0)) with 24; change (8 * (3 - 1)) with 16;
    change (8 * (3 - 2)) with 8; change (8 * (3 - 3)) with 0;
    try (rewrite ?u32_add_l, <- ?Z.add_assoc, ?u32_add_l; f_equal; lia).
  rewrite IH; [|simpl in Hl; lia|unfold u32; by rewrite Z.mod_mod].
  rewrite u32_add_l. f_equal. lia.
Qed.

(** ** The contract of the package *)

(** [append]'s growth gives at least the capacity asked for. *)
Definition grows (growslice : Z -> Z -> Z) : Prop := forall old need, need <= growslice old need.

(** A growth policy for the witnesses: exactly what is needed. *)
Definition grow_exact (old need : Z) : Z := need.
Lemma grow_exact_grows : grows grow_exact.
Proof. intros old need. apply Z.le_refl. Qed.

Lemma nil_buffer_ok : dst_ok nil_buffer.
Proof. by split. Qed.

Lemma OutputSize_delta_file source target cmds :
  Forall (cmd_ok source) cmds -> len target < 2 ^ 32 ->
  OutputSize (delta_file target cmds) = Ok (len target).
Proof.
  intros Hok Ht. unfold OutputSize. replace (len _ =? 0) with false.
  - unfold delta_file. by rewrite parseTargetLen_file.
  - symmetry. apply Z.eqb_neq. unfold delta_file. rewrite len_app, len_cons.
    pose proof (len_nonneg (int_bytes (len target))).
    match goal with |- context [1 + len ?l] => pose proof (len_nonneg l) end. lia.
Qed.

(** C1: for every source and target below the format's 4 GiB bound, Create
    succeeds, and Apply of the delta it wrote to the same source rebuilds the
    target byte for byte; OutputSize reads the target's length off the delta. *)
Theorem create_apply_roundtrip (growslice : Z -> Z -> Z) (source target : bytes) :
  grows growslice -> len source < 2 ^ 32 -> len target < 2 ^ 32 ->
  exists d o, Create (Some source) (Some target) = Ok d
    /\ Apply growslice (Some source) d = Ok o
    /\ b_data o = target /\ OutputSize d = Ok (len target).
Proof.
  intros Hg Hs Ht.
  destruct (Create_delta_file source target Hs Ht) as (cmds & HC & Hok & Hev).
  assert (Has : alloc_ok source) by (unfold alloc_ok; lia).
  assert (Had : alloc_ok (delta_file target cmds)) by by eapply delta_file_len.
  pose proof (ApplyInto_is_replay growslice nil_buffer source _ Hg nil_buffer_ok Has Had) as Ha.
  rewrite (replay_delta_file source target cmds) in Ha by done.
  fold (Apply growslice (Some source) (delta_file target cmds)) in Ha.
  apply obind_ok in Ha as (o & Ho & [= Hd]).
  exists (delta_file target cmds), o. split_and!; try done. by eapply OutputSize_delta_file.
Qed.

Lemma create_apply_roundtrip_witness :
  exists d o, Create (Some (bs "a line that repeats, and a tail"))
                     (Some (bs "a line that repeats, and a new tail")) = Ok d
    /\ Apply grow_exact (Some (bs "a line that repeats, and a tail")) d = Ok o
    /\ b_data o = bs "a line that repeats, and a new tail" /\ OutputSize d = Ok 35.
Proof.
  apply (create_apply_roundtrip grow_exact (bs "a line that repeats, and a tail")
    (bs "a line that repeats, and a new tail")); [exact grow_exact_grows|by vm_compute..].
Defined.

(** ApplyInto returns (a value or an error, never a panic, never a loop) on
    every delta, and what it returns does not depend on the buffer it was
    handed, on its capacity, or on how append grows slices: the buffer reuse,
    the exact allocation and the one-time capacity upgrade are invisible. *)
Theorem applyinto_buffer_irrelevant (g g' : Z -> Z -> Z) (dst : buffer) (source delta : bytes) :
  grows g -> grows g' -> dst_ok dst -> alloc_ok source -> alloc_ok delta ->
  returns (ApplyInto g dst (Some source) delta)
  /\ omap b_data (ApplyInto g dst (Some source) delta)
     = omap b_data (Apply g' (Some source) delta).
Proof.
  intros Hg Hg' Hd Hs Hdl. unfold Apply.
  rewrite !ApplyInto_is_replay by (done || apply nil_buffer_ok). split; [|done].
  pose proof (replay_delta_returns source delta Hs Hdl) as Hr.
  rewrite <- (ApplyInto_is_replay g dst) in Hr by done.
  by destruct (ApplyInto g dst (Some source) delta).
Qed.

Lemma applyinto_buffer_irrelevant_witness :
  returns (ApplyInto grow_exact (mk_buffer false [] 100) (Some (bs "abc")) (bs "3
3@0,"))
  /\ omap b_data (ApplyInto grow_exact (mk_buffer false [] 100) (Some (bs "abc")) (bs "3
3@0,"))
     = omap b_data (Apply grow_exact (Some (bs "abc")) (bs "3
3@0,")).
Proof.
  apply applyinto_buffer_irrelevant;
    [exact grow_exact_grows|exact grow_exact_grows| |by vm_compute|by vm_compute].
  split; [reflexivity|]. split; [by vm_compute|discriminate].
Defined.

(** the pre-scan is exact. It never panics or loops, and it reports an exact
    size just when replaying the commands reaches the terminator with the
    declared size, in which case the reported size is the declared one: the
    buffer ApplyInto then allocates is neither grown nor left with slack. *)
Theorem scan_output_size_exact (source cmds : bytes) (targetLen : Z) :
  alloc_ok source -> alloc_ok cmds -> 0 <= targetLen < 2 ^ 32 ->
  exists proven exact, scanOutputSize cmds (len source) targetLen = Ok (proven, exact)
    /\ (exact = true -> proven = targetLen)
    /\ (exact = true <-> reached_end targetLen
          (replay (S (length cmds)) source targetLen (mk_reader 0 cmds) [])).
Proof. intros. by apply scanOutputSize_replay. Qed.

Lemma scan_output_size_exact_witness :
  exists proven exact, scanOutputSize (bs "2@1,1:x0;") 3 3 = Ok (proven, exact)
    /\ (exact = true -> proven = 3)
    /\ (exact = true <-> reached_end 3
          (replay 10 (bs "abc") 3 (mk_reader 0 (bs "2@1,1:x0;")) [])).
Proof. apply (scan_output_size_exact (bs "abc") (bs "2@1,1:x0;") 3); by vm_compute. Defined.

(** an accepted delta yields exactly the length its header declares, below
    the 4 GiB bound, and OutputSize reports that length without the source. *)
Theorem apply_length (growslice : Z -> Z -> Z) (source delta : bytes) (o : buffer) :
  grows growslice -> alloc_ok source -> alloc_ok delta ->
  Apply growslice (Some source) delta = Ok o ->
  OutputSize delta = Ok (len (b_data o)) /\ len (b_data o) < maxDeltaTargetSize.
Proof.
  intros Hg Hs Hd Ha.
  pose proof (ApplyInto_is_replay growslice nil_buffer source delta Hg nil_buffer_ok Hs Hd) as Hr.
  fold (Apply growslice (Some source) delta) in Hr. rewrite Ha in Hr. cbn in Hr. symmetry in Hr.
  unfold replay_delta, OutputSize in *. destruct (len delta =? 0); [done|]. ok_inv.
  destruct a as [n r]. rewrite Hok. cbn [obind]. apply replay_ok_len in Hk. rewrite Hk.
  apply parseTargetLen_ok in Hok; [|by apply reader_ok_start].
  unfold maxDeltaTargetSize. split; [done|lia].
Qed.

Lemma apply_length_witness :
  OutputSize (bs "3
3@0,1XObC0;") = Ok (len (bs "abc")) /\ len (bs "abc") < maxDeltaTargetSize.
Proof.
  apply (apply_length grow_exact (bs "abc") (bs "3
3@0,1XObC0;") (mk_buffer false (bs "abc") 3)); [exact grow_exact_grows|by vm_compute..].
Defined.

(** A landmark search looks at no more than 250 candidates and never indexes
    out of the table, and what it reports is a real run of the source of at
    least 16 bytes, or nothing. *)
Theorem bestmatch_sound (source trest : bytes) :
  exists bo bl examined, bestMatch source trest (buildHashTable source) = Ok (bo, bl, examined)
    /\ 0 <= examined <= 250
    /\ (bl = 0 \/ (16 <= bl <= len trest /\ 0 <= bo /\ bo + bl <= len source
                   /\ sub bo (bo + bl) source = take (Z.to_nat bl) trest)).
Proof.
  destruct (bestMatch_ok source trest _ (buildHashTable_ok source)) as (bo & bl & ex & H & Hm & He).
  exists bo, bl, ex. split; [done|]. split; [exact He|].
  destruct Hm as [|(? & ? & ? & ? & ?)]; [by left|right]. unfold nHash in *. split_and!; done.
Qed.

(** reading an integer gives its unbounded base-64 value when that fits 64
    bits and is refused as an overflow otherwise; it never wraps. *)
Theorem getint_no_wrap (ds rest : bytes) (pos : Z) :
  ds <> [] -> Forall (fun c => is_d c = true) ds -> stops rest ->
  if b64_val 0 ds <=? MaxUint64
  then getInt (mk_reader pos (ds ++ rest)) = Ok (b64_val 0 ds, mk_reader (pos + len ds) rest)
  else exists p, getInt (mk_reader pos (ds ++ rest)) = invalid (IntegerOverflow p).
Proof.
  intros Hne Hd Hs. unfold getInt. cbn [r_rest r_pos]. destruct (Z.leb_spec (b64_val 0 ds) MaxUint64).
  - rewrite getInt_loop_digits; [|done|lia|done|by left]. by apply getInt_loop_stop.
  - apply getInt_loop_overflow; [done|unfold MaxUint64; lia|done].
Qed.

Lemma getint_no_wrap_witness :
  if b64_val 0 (bs "zzzzzzzzzzzzz") <=? MaxUint64
  then getInt (mk_reader 0 (bs "zzzzzzzzzzzzz" ++ bs ":"))
       = Ok (b64_val 0 (bs "zzzzzzzzzzzzz"), mk_reader 13 (bs ":"))
  else exists p, getInt (mk_reader 0 (bs "zzzzzzzzzzzzz" ++ bs ":")) = invalid (IntegerOverflow p).
Proof.
  apply (getint_no_wrap (bs "zzzzzzzzzzzzz") (bs ":") 0); [discriminate| |reflexivity].
  repeat (apply Forall_cons; split; [reflexivity|]). apply Forall_nil_2.
Defined.

(** Checksum is the sum modulo 2^32 of the data's bytes weighted by their
    place in a big-endian 32-bit word, the last word padded on the right. *)
Theorem checksum_weighted (data : bytes) : Checksum data = u32 (weighted_sum 0 data).
Proof. unfold Checksum. by rewrite (checksum_loop_spec (length data)). Qed.
