(* ===== verification/GoText.v ===== *)
(** * Text functions of Go's standard library: unicode/utf8 and strings *)

From S2P Require Import Prelude GoStd.

Definition opt_byte_eqb (o : option byte) (c : byte) : bool :=
  match o with Some b => Byte.eqb b c | None => false end.

(** [l[i]] as an option; [None] out of range. *)
Definition idx (l : bytes) (i : Z) : option byte :=
  if i <? 0 then None else l !! Z.to_nat i.

(** [l[i] == c], false out of range. *)
Definition at_is (l : bytes) (i : Z) (c : byte) : bool := opt_byte_eqb (idx l i) c.

Lemma at_is_app_r s k i c : 0 <= i -> at_is (s ++ k) (len s + i) c = at_is k i c.
Proof.
  intros Hi. unfold at_is, idx. pose proof (len_nonneg s).
  replace (len s + i <? 0) with false by lia. replace (i <? 0) with false by lia.
  rewrite lookup_app_r by (unfold len; lia). do 2 f_equal. unfold len. lia.
Qed.

(** [l[i] == c], a panic out of range. *)
Definition byte_is {E} (l : bytes) (i : Z) (c : byte) : outcome E bool :=
  let? b := elem_at l i in Ok (Byte.eqb b c).

Lemma byte_is_ok {E} l i c : 0 <= i < len l -> @byte_is E l i c = Ok (at_is l i c).
Proof.
  intros Hi. unfold byte_is, at_is, idx. destruct (elem_at_some (E:=E) l i Hi) as (x & Hx & ->).
  rewrite (proj2 (Z.ltb_ge i 0)), Hx by lia. done.
Qed.

(** [strings.HasPrefix]/[bytes.HasPrefix]. *)
Fixpoint HasPrefix (s prefix : bytes) {struct prefix} : bool :=
  match prefix, s with
  | [], _ => true
  | p :: prefix', c :: s' => Byte.eqb p c && HasPrefix s' prefix'
  | _ :: _, [] => false
  end.

Lemma HasPrefix_spec s prefix : HasPrefix s prefix = true <-> exists t, s = prefix ++ t.
Proof.
  revert s. induction prefix as [|p prefix IH]; intros s; simpl.
  { split; [intros _; by exists s|done]. }
  destruct s as [|c s]; [by split; [|intros [? ?]]|].
  rewrite andb_true_iff, byte_eqb_eq, IH. split.
  - intros [-> [t ->]]. by exists t.
  - intros [t [= -> ->]]. eauto.
Qed.

(** [strings.IndexByte(s, c)], [None] for -1. *)
Fixpoint IndexByte (s : bytes) (c : byte) : option nat :=
  match s with
  | [] => None
  | b :: s' => if Byte.eqb b c then Some O else S <$> IndexByte s' c
  end.

(** ** unicode/utf8 *)
Definition RuneError : Z := 0xFFFD.

Definition in_range (lo hi : Z) (b : byte) : bool := (lo <=? bz b) && (bz b <=? hi).

(** The size of a sequence and the range its second byte must lie in, from the
    first byte: the package's [first] and [acceptRanges] tables. *)
Definition utf8_first (b : byte) : option (Z * Z * Z) :=
  let v := bz b in
  if (0xC2 <=? v) && (v <=? 0xDF) then Some (2, 0x80, 0xBF)
  else if v =? 0xE0 then Some (3, 0xA0, 0xBF)
  else if v =? 0xED then Some (3, 0x80, 0x9F)
  else if (0xE1 <=? v) && (v <=? 0xEF) then Some (3, 0x80, 0xBF)
  else if v =? 0xF0 then Some (4, 0x90, 0xBF)
  else if (0xF1 <=? v) && (v <=? 0xF3) then Some (4, 0x80, 0xBF)
  else if v =? 0xF4 then Some (4, 0x80, 0x8F)
  else None.

(** [utf8.DecodeRuneInString]: the rune and its width. *)
Definition DecodeRune (s : bytes) : Z * Z :=
  match s with
  | [] => (RuneError, 0)
  | p0 :: s1 =>
      if bz p0 <? 0x80 then (bz p0, 1)
      else
        match utf8_first p0 with
        | None => (RuneError, 1)
        | Some (sz, lo, hi) =>
            match s1 with
            | b1 :: s2 =>
                if negb (in_range lo hi b1) then (RuneError, 1)
                else if sz =? 2 then (Z.lor (Z.shiftl (Z.land (bz p0) 0x1F) 6) (Z.land (bz b1) 0x3F), 2)
                else
                  match s2 with
                  | b2 :: s3 =>
                      if negb (in_range 0x80 0xBF b2) then (RuneError, 1)
                      else if sz =? 3
                      then (Z.lor (Z.lor (Z.shiftl (Z.land (bz p0) 0x0F) 12)
                              (Z.shiftl (Z.land (bz b1) 0x3F) 6)) (Z.land (bz b2) 0x3F), 3)
                      else
                        match s3 with
                        | b3 :: _ =>
                            if negb (in_range 0x80 0xBF b3) then (RuneError, 1)
                            else (Z.lor (Z.lor (Z.lor (Z.shiftl (Z.land (bz p0) 0x07) 18)
                                    (Z.shiftl (Z.land (bz b1) 0x3F) 12))
                                    (Z.shiftl (Z.land (bz b2) 0x3F) 6)) (Z.land (bz b3) 0x3F), 4)
                        | [] => (RuneError, 1)
                        end
                  | [] => (RuneError, 1)
                  end
            | [] => (RuneError, 1)
            end
        end
  end.

Lemma DecodeRune_width s : s <> [] -> 1 <= snd (DecodeRune s) <= 4.
Proof. destruct s; [done|]. intros _. simpl. repeat case_match; simpl; lia. Qed.

(** [utf8.ValidString]. *)
Fixpoint valid_loop (fuel : nat) (s : bytes) : bool :=
  match fuel, s with
  | _, [] => true
  | O, _ => false
  | S f, _ =>
      let '(r, n) := DecodeRune s in
      if (r =? RuneError) && (n =? 1) then false else valid_loop f (drop (Z.to_nat n) s)
  end.
Definition ValidString (s : bytes) : bool := valid_loop (length s) s.

(** The runes a [range] over the string visits. *)
Fixpoint runes_loop (fuel : nat) (s : bytes) : list Z :=
  match fuel, s with
  | _, [] => []
  | O, _ => []
  | S f, _ => let '(r, n) := DecodeRune s in r :: runes_loop f (drop (Z.to_nat n) s)
  end.
Definition runes (s : bytes) : list Z := runes_loop (length s) s.

(** ** Case *)

(** The simple-folding class of a rune among those that contain an ASCII letter:
    U+212A folds to k and U+017F to s. *)
Definition fold_class (r : Z) : Z :=
  if r =? 0x212A then 107
  else if r =? 0x17F then 115
  else if (65 <=? r) && (r <=? 90) then r + 32 else r.

(** [strings.EqualFold(s, t)] for an ASCII [t], as every caller has. *)
Definition EqualFold (s t : bytes) : bool :=
  bool_decide (fold_class <$> runes s = fold_class <$> runes t).

Definition is_ascii (s : bytes) : bool := forallb (fun c => bz c <? 128) s.
Definition lower_byte (c : byte) : byte := if in_range 65 90 c then zb (bz c + 32) else c.

(** [strings.ToLower]: ASCII text is mapped byte by byte; other text goes
    through the Unicode tables, a parameter of the models that call it. *)
Class GoUnicode := { unicode_lower : bytes -> bytes }.
#[export] Instance ascii_only_GoUnicode : GoUnicode := { unicode_lower s := s }.

Definition ToLower `{GoUnicode} (s : bytes) : bytes :=
  if is_ascii s then map lower_byte s else unicode_lower s.

(** ** White space *)

(** [unicode.IsSpace]. *)
Definition IsSpace (r : Z) : bool :=
  ((9 <=? r) && (r <=? 13)) || (r =? 0x20) || (r =? 0x85) || (r =? 0xA0) || (r =? 0x1680)
  || ((0x2000 <=? r) && (r <=? 0x200a)) || (r =? 0x2028) || (r =? 0x2029) || (r =? 0x202f)
  || (r =? 0x205f) || (r =? 0x3000).

(** A string as its runes, each with the bytes it was decoded from. *)
Fixpoint rune_loop (fuel : nat) (s : bytes) : list (Z * bytes) :=
  match fuel, s with
  | _, [] => []
  | O, _ => []
  | S f, _ => let '(r, n) := DecodeRune s in
              (r, take (Z.to_nat n) s) :: rune_loop f (drop (Z.to_nat n) s)
  end.
Definition rune_pieces (s : bytes) : list (Z * bytes) := rune_loop (length s) s.

Fixpoint drop_space (l : list (Z * bytes)) : list (Z * bytes) :=
  match l with
  | (r, p) :: l' => if IsSpace r then drop_space l' else l
  | [] => []
  end.

(** [strings.TrimSpace]. *)
Definition TrimSpace (s : bytes) : bytes :=
  concat (map snd (rev (drop_space (rev (drop_space (rune_pieces s)))))).

(** [strings.Fields]: the maximal runs of runes that are not white space. *)
Fixpoint fields_loop (cur : bytes) (l : list (Z * bytes)) : list bytes :=
  match l with
  | [] => match cur with [] => [] | _ => [cur] end
  | (r, p) :: l' =>
      if IsSpace r
      then match cur with [] => fields_loop [] l' | _ => cur :: fields_loop [] l' end
      else fields_loop (cur ++ p) l'
  end.
Definition Fields (s : bytes) : list bytes := fields_loop [] (rune_pieces s).

(** ASCII text is its bytes, one rune each. *)
Lemma rune_pieces_ascii s : is_ascii s = true -> rune_pieces s = map (fun c => (bz c, [c])) s.
Proof.
  unfold rune_pieces, is_ascii. induction s as [|c s IH]; [done|]. cbn [forallb length rune_loop].
  intros [Hc Hs]%andb_true_iff.
  assert (DecodeRune (c :: s) = (bz c, 1)) as ->.
  { cbn [DecodeRune]. change 0x80 with 128. by rewrite Hc. }
  change (drop (Z.to_nat 1) (c :: s)) with s. change (take (Z.to_nat 1) (c :: s)) with [c]. cbn [map]. by rewrite IH.
Qed.

(** ** Hexadecimal *)
Definition hex_digit (n : Z) : byte := nth (Z.to_nat n) (bs "0123456789abcdef") x00.

(** [hex.EncodeToString]. *)
Definition hex_encode (l : bytes) : bytes :=
  l ≫= (fun b => [hex_digit (bz b / 16); hex_digit (bz b mod 16)]).

Definition is_hex_lower (c : byte) : bool := in_range 48 57 c || in_range 97 102 c.

Lemma hex_encode_len l : len (hex_encode l) = 2 * len l.
Proof.
  induction l as [|b l IH]; [done|].
  change (hex_encode (b :: l)) with ([hex_digit (bz b / 16); hex_digit (bz b mod 16)] ++ hex_encode l).
  rewrite len_app, IH, len_cons. simpl. rewrite !len_cons, len_nil. lia.
Qed.

(** The two digits of a byte give it back, so the encoding is injective. *)
Definition hex_value (c : byte) : Z := if bz c <=? 57 then bz c - 48 else bz c - 87.

Lemma hex_byte b : hex_value (hex_digit (bz b / 16)) * 16 + hex_value (hex_digit (bz b mod 16)) = bz b.
Proof. by_bytes b. Qed.

Lemma hex_encode_inj a b : hex_encode a = hex_encode b -> a = b.
Proof.
  revert b. induction a as [|x a IH]; intros [|y b] H; [done..|].
  injection H as H1 H2 H3. f_equal; [|by apply IH].
  apply bz_inj. by rewrite <- (hex_byte x), <- (hex_byte y), H1, H2.
Qed.

Lemma hex_encode_lower l : Forall (fun c => is_hex_lower c = true) (hex_encode l).
Proof.
  induction l as [|b l IH]; [constructor|].
  change (hex_encode (b :: l)) with ([hex_digit (bz b / 16); hex_digit (bz b mod 16)] ++ hex_encode l).
  apply Forall_app. split; [|done].
  assert (is_hex_lower (hex_digit (bz b / 16)) = true) by by_bytes b.
  assert (is_hex_lower (hex_digit (bz b mod 16)) = true) by by_bytes b.
  by repeat (apply Forall_cons; split).
Qed.
