(* ===== verification/GoCrypto.v ===== *)
(** * crypto/md5 and crypto/sha1 of Go's standard library

    Written from the algorithms (RFC 1321, FIPS 180-4) so that checksums
    evaluate on concrete artifacts; the examples are the published vectors. *)

From S2P Require Import Prelude GoStd GoText.

Definition rotl32 (x n : Z) : Z := u32 (Z.lor (Z.shiftl x n) (Z.shiftr (u32 x) (32 - n))).
Definition not32 (x : Z) : Z := Z.lxor x (2 ^ 32 - 1).

(** Little- and big-endian bytes of a word. *)
Fixpoint le_bytes (n : nat) (v : Z) : bytes :=
  match n with O => [] | S k => zb v :: le_bytes k (v / 256) end.
Definition be_bytes (n : nat) (v : Z) : bytes := rev (le_bytes n v).

Fixpoint le_value (l : bytes) : Z :=
  match l with [] => 0 | b :: l' => bz b + 256 * le_value l' end.

(** Split into chunks of [n] bytes. *)
Fixpoint chunks (fuel : nat) (n : nat) (l : bytes) : list bytes :=
  match fuel, l with
  | _, [] => []
  | O, _ => []
  | S f, _ => take n l :: chunks f n (drop n l)
  end.

(** The padding both hashes share: 0x80, zeros to 56 mod 64, the bit length. *)
Definition md_pad (length_bytes : Z -> bytes) (data : bytes) : bytes :=
  let n := len data in
  data ++ x80 :: replicate (Z.to_nat ((55 - n) mod 64)) x00 ++ length_bytes (8 * n).

Definition md5_K : list Z := [
  0xd76aa478; 0xe8c7b756; 0x242070db; 0xc1bdceee; 0xf57c0faf; 0x4787c62a; 0xa8304613; 0xfd469501;
  0x698098d8; 0x8b44f7af; 0xffff5bb1; 0x895cd7be; 0x6b901122; 0xfd987193; 0xa679438e; 0x49b40821;
  0xf61e2562; 0xc040b340; 0x265e5a51; 0xe9b6c7aa; 0xd62f105d; 0x02441453; 0xd8a1e681; 0xe7d3fbc8;
  0x21e1cde6; 0xc33707d6; 0xf4d50d87; 0x455a14ed; 0xa9e3e905; 0xfcefa3f8; 0x676f02d9; 0x8d2a4c8a;
  0xfffa3942; 0x8771f681; 0x6d9d6122; 0xfde5380c; 0xa4beea44; 0x4bdecfa9; 0xf6bb4b60; 0xbebfbc70;
  0x289b7ec6; 0xeaa127fa; 0xd4ef3085; 0x04881d05; 0xd9d4d039; 0xe6db99e5; 0x1fa27cf8; 0xc4ac5665;
  0xf4292244; 0x432aff97; 0xab9423a7; 0xfc93a039; 0x655b59c3; 0x8f0ccc92; 0xffeff47d; 0x85845dd1;
  0x6fa87e4f; 0xfe2ce6e0; 0xa3014314; 0x4e0811a1; 0xf7537e82; 0xbd3af235; 0x2ad7d2bb; 0xeb86d391 ].

Definition md5_shift (i : Z) : Z :=
  nth (Z.to_nat (4 * (i / 16) + i mod 4))
    [7; 12; 17; 22; 5; 9; 14; 20; 4; 11; 16; 23; 6; 10; 15; 21] 0.

Definition md5_state : Type := Z * Z * Z * Z.

Definition md5_step (M : list Z) (s : md5_state) (ik : Z * Z) : md5_state :=
  let '(a, b, c, d) := s in
  let '(i, k) := ik in
  let '(f, g) :=
    if i <? 16 then (Z.lor (Z.land b c) (Z.land (not32 b) d), i)
    else if i <? 32 then (Z.lor (Z.land d b) (Z.land (not32 d) c), (5 * i + 1) mod 16)
    else if i <? 48 then (Z.lxor (Z.lxor b c) d, (3 * i + 5) mod 16)
    else (Z.lxor c (Z.lor b (not32 d)), (7 * i) mod 16) in
  let f := u32 (f + a + k + nth (Z.to_nat g) M 0) in
  (d, u32 (b + rotl32 f (md5_shift i)), b, c).

Definition md5_block (s : md5_state) (block : bytes) : md5_state :=
  let M := le_value <$> chunks 16 4 block in
  let '(a, b, c, d) := fold_left (md5_step M) (zip (seqZ 0 64) md5_K) s in
  let '(a0, b0, c0, d0) := s in
  (u32 (a0 + a), u32 (b0 + b), u32 (c0 + c), u32 (d0 + d)).

(** [md5.Sum]. *)
Definition md5_Sum (data : bytes) : bytes :=
  let padded := md_pad (le_bytes 8) data in
  let '(a, b, c, d) :=
    fold_left md5_block (chunks (length padded) 64 padded)
      (0x67452301, 0xefcdab89, 0x98badcfe, 0x10325476) in
  le_bytes 4 a ++ le_bytes 4 b ++ le_bytes 4 c ++ le_bytes 4 d.

Definition sha1_state : Type := Z * Z * Z * Z * Z.

(** The message schedule, newest word first. *)
Fixpoint sha1_extend (n : nat) (w : list Z) : list Z :=
  match n with
  | O => w
  | S n' =>
      sha1_extend n'
        (rotl32 (Z.lxor (Z.lxor (nth 2 w 0) (nth 7 w 0)) (Z.lxor (nth 13 w 0) (nth 15 w 0))) 1 :: w)
  end.

Definition sha1_step (s : sha1_state) (tw : Z * Z) : sha1_state :=
  let '(a, b, c, d, e) := s in
  let '(t, w) := tw in
  let '(f, k) :=
    if t <? 20 then (Z.lor (Z.land b c) (Z.land (not32 b) d), 0x5a827999)
    else if t <? 40 then (Z.lxor (Z.lxor b c) d, 0x6ed9eba1)
    else if t <? 60 then (Z.lor (Z.lor (Z.land b c) (Z.land b d)) (Z.land c d), 0x8f1bbcdc)
    else (Z.lxor (Z.lxor b c) d, 0xca62c1d6) in
  (u32 (rotl32 a 5 + f + e + k + w), a, rotl32 b 30, c, d).

Definition sha1_block (s : sha1_state) (block : bytes) : sha1_state :=
  let w16 := (fun c => le_value (rev c)) <$> chunks 16 4 block in
  let w := rev (sha1_extend 64 (rev w16)) in
  let '(a, b, c, d, e) := fold_left sha1_step (zip (seqZ 0 80) w) s in
  let '(a0, b0, c0, d0, e0) := s in
  (u32 (a0 + a), u32 (b0 + b), u32 (c0 + c), u32 (d0 + d), u32 (e0 + e)).

(** [sha1.Sum]. *)
Definition sha1_Sum (data : bytes) : bytes :=
  let padded := md_pad (be_bytes 8) data in
  let '(a, b, c, d, e) :=
    fold_left sha1_block (chunks (length padded) 64 padded)
      (0x67452301, 0xefcdab89, 0x98badcfe, 0x10325476, 0xc3d2e1f0) in
  be_bytes 4 a ++ be_bytes 4 b ++ be_bytes 4 c ++ be_bytes 4 d ++ be_bytes 4 e.

Example md5_empty : hex_encode (md5_Sum []) = bs "d41d8cd98f00b204e9800998ecf8427e".
Proof. by vm_compute. Qed.
Example md5_abc : hex_encode (md5_Sum (bs "abc")) = bs "900150983cd24fb0d6963f7d28e17f72".
Proof. by vm_compute. Qed.
Example md5_long : hex_encode (md5_Sum (bs
  "12345678901234567890123456789012345678901234567890123456789012345678901234567890"))
  = bs "57edf4a22be3c955ac49da2e2107b67a".
Proof. by vm_compute. Qed.
Example sha1_abc : hex_encode (sha1_Sum (bs "abc")) = bs "a9993e364706816aba3e25717850c26c9cd0d89d".
Proof. by vm_compute. Qed.
Example sha1_two : hex_encode (sha1_Sum (bs "abcdbcdecdefdefgefghfghighijhijkijkljklmklmnlmnomnopnopq"))
  = bs "84983e441c3bd26ebaae4aa1f95129e5e54670f1".
Proof. by vm_compute. Qed.

Lemma len_le_bytes n v : len (le_bytes n v) = Z.of_nat n.
Proof. revert v. induction n as [|n IH]; intros v; [done|]. simpl. rewrite len_cons, IH. lia. Qed.
Lemma len_be_bytes n v : len (be_bytes n v) = Z.of_nat n.
Proof. unfold be_bytes. rewrite <- (len_le_bytes n v). unfold len. by rewrite length_rev. Qed.

Lemma md5_Sum_len data : len (md5_Sum data) = 16.
Proof.
  unfold md5_Sum. destruct (fold_left _ _ _) as [[[a b] c] d].
  by rewrite !len_app, !len_le_bytes.
Qed.
Lemma sha1_Sum_len data : len (sha1_Sum data) = 20.
Proof.
  unfold sha1_Sum. destruct (fold_left _ _ _) as [[[[a b] c] d] e].
  by rewrite !len_app, !len_be_bytes.
Qed.
