(* ===== verification/Escape.v ===== *)
(** * Card-value escaping: src/internal/deck/encode.go

    [FossilEncode] and [CanonicalEncode] map each byte to itself or to a
    two-byte backslash escape; [FossilDecode] reads either.  The lemmas give
    the round trips and what an encoded value can contain, which is what makes
    it a single token of a card. *)

From S2P Require Import Prelude.

(** The escape of one byte, the arms of [FossilEncode]'s switch. *)
Definition encode_byte (c : byte) : bytes :=
  match c with
  | x0a => bs "\n"
  | x20 => bs "\s"
  | x09 => bs "\t"
  | x0d => bs "\r"
  | x0b => bs "\v"
  | x0c => bs "\f"
  | x00 => bs "\0"
  | x5c => bs "\\"
  | _ => [c]
  end.

Definition FossilEncode (s : bytes) : bytes := s ≫= encode_byte.

(** What the byte after a backslash stands for, the arms of [FossilDecode]'s
    switch. *)
Definition decode_byte (c : byte) : byte :=
  match c with
  | x6e => x0a
  | x73 => x20
  | x74 => x09
  | x72 => x0d
  | x76 => x0b
  | x66 => x0c
  | x30 => x00
  | x5c => x5c
  | _ => c
  end.

Fixpoint FossilDecode (s : bytes) : bytes :=
  match s with
  | [] => []
  | c :: s1 =>
      match s1 with
      | c' :: s2 =>
          if Byte.eqb c x5c then decode_byte c' :: FossilDecode s2
          else c :: FossilDecode s1
      | [] => [c]
      end
  end.

(** The arms of [CanonicalEncode]'s switch. *)
Definition canonical_encode_byte (c : byte) : bytes :=
  match c with
  | x0a => bs "\n"
  | x20 => bs "\s"
  | x5c => bs "\\"
  | _ => [c]
  end.

Definition CanonicalEncode (s : bytes) : bytes := s ≫= canonical_encode_byte.

(** ** What the encoders promise a card writer *)

(** A byte that can stand inside a token: neither of the two separators. *)
Definition token_byte (c : byte) : bool := negb (Byte.eqb c x20) && negb (Byte.eqb c x0a).
Definition token_ok (s : bytes) : bool := forallb token_byte s.

(** The bytes §4.3 keeps out of an encoded value altogether. *)
Definition is_card_space (c : byte) : bool :=
  match c with x0a | x20 | x09 | x0d | x0b | x0c | x00 => true | _ => false end.

(** A value encoding: per byte, decodable, made of token bytes, never empty. *)
Class ValueEncoding (enc : byte -> bytes) := {
  enc_decode : forall c rest, FossilDecode (enc c ++ rest) = c :: FossilDecode rest;
  enc_token : forall c, token_ok (enc c) = true;
  enc_nonempty : forall c, enc c <> []
}.

#[export] Instance encode_byte_encoding : ValueEncoding encode_byte.
Proof.
  constructor.
  - intros c rest. by destruct c; try reflexivity; destruct rest.
  - intros c. by_bytes c.
  - intros c. by_bytes c.
Qed.

#[export] Instance canonical_encode_byte_encoding : ValueEncoding canonical_encode_byte.
Proof.
  constructor.
  - intros c rest. by destruct c; try reflexivity; destruct rest.
  - intros c. by_bytes c.
  - intros c. by_bytes c.
Qed.

Lemma token_ok_app (a b : bytes) : token_ok (a ++ b) = token_ok a && token_ok b.
Proof. apply forallb_app. Qed.

Lemma token_ok_cons c (s : bytes) : token_ok (c :: s) = token_byte c && token_ok s.
Proof. done. Qed.

Section encoding.
Context (enc : byte -> bytes) `{!ValueEncoding enc}.

Lemma decode_encode (s : bytes) : FossilDecode (s ≫= enc) = s.
Proof.
  induction s as [|c s IH]; [done|].
  change ((c :: s) ≫= enc) with (enc c ++ (s ≫= enc)).
  by rewrite enc_decode, IH.
Qed.

Lemma encode_token_ok (s : bytes) : token_ok (s ≫= enc) = true.
Proof.
  induction s as [|c s IH]; [done|].
  change ((c :: s) ≫= enc) with (enc c ++ (s ≫= enc)).
  by rewrite token_ok_app, enc_token, IH.
Qed.

Lemma encode_nil_inv (s : bytes) : s ≫= enc = [] -> s = [].
Proof.
  destruct s as [|c s]; [done|].
  change ((c :: s) ≫= enc) with (enc c ++ (s ≫= enc)).
  intros H. apply app_eq_nil in H as [H _]. by apply enc_nonempty in H.
Qed.
End encoding.

Lemma FossilDecode_Encode (s : bytes) : FossilDecode (FossilEncode s) = s.
Proof. apply (decode_encode encode_byte). Qed.

Lemma FossilDecode_CanonicalEncode (s : bytes) : FossilDecode (CanonicalEncode s) = s.
Proof. apply (decode_encode canonical_encode_byte). Qed.

Lemma FossilEncode_no_space (s : bytes) :
  Forall (fun c => is_card_space c = false) (FossilEncode s).
Proof.
  unfold FossilEncode. induction s as [|c s IH]; [constructor|].
  change ((c :: s) ≫= encode_byte) with (encode_byte c ++ (s ≫= encode_byte)).
  apply Forall_app. split; [|done].
  apply Forall_forall. intros b Hb.
  assert (forallb (fun c => negb (is_card_space c)) (encode_byte c) = true) as H by by_bytes c.
  rewrite forallb_forall in H. apply list_elem_of_In in Hb. specialize (H b Hb).
  by destruct (is_card_space b).
Qed.

(** Every value survives both escapings: FossilDecode inverts FossilEncode
    and CanonicalEncode on all byte strings, FossilEncode leaves none of the
    seven card-space bytes in its output, and each encoder's output is a token
    (no space, no newline). *)
Theorem escape_roundtrip (s : bytes) :
  FossilDecode (FossilEncode s) = s /\ FossilDecode (CanonicalEncode s) = s
  /\ Forall (fun c => is_card_space c = false) (FossilEncode s)
  /\ token_ok (CanonicalEncode s) = true.
Proof.
  split_and!; [apply FossilDecode_Encode|apply FossilDecode_CanonicalEncode
    |apply FossilEncode_no_space|apply (encode_token_ok canonical_encode_byte)].
Qed.
