(* ===== verification/Deck.v ===== *)
(** * The artifact's data: src/internal/deck/deck.go, occurrence.go

    The [Deck] record and its card types, the canonical comparator of names,
    the single-occurrence guard and the ordering checks. *)

From S2P Require Import Prelude GoStd.

Inductive ArtifactType :=
| Checkin | Wiki | Ticket | Event | Cluster | ForumPost | Attachment | Control | Submanifest.

#[export] Instance ArtifactType_eq_dec : EqDecision ArtifactType.
Proof. solve_decision. Defined.

(** A [time.Time] in UTC: nanoseconds since 0001-01-01 00:00:00, so that
    [IsZero] is equality with 0. *)
Abbreviation time := Z (only parsing).
Definition IsZero (t : time) : bool := t =? 0.

Record FileCard := mk_FileCard
  { f_Name : bytes; f_UUID : bytes; f_Perm : bytes; f_OldName : bytes }.
Record SubmanifestCard := mk_SubmanifestCard { s_Name : bytes; s_UUID : bytes }.

(** [TagType] is a byte: '+', '*' or '-' for the three named values. *)
Definition TagSingleton : byte := x2b.
Definition TagPropagating : byte := x2a.
Definition TagCancel : byte := x2d.

Record TagCard := mk_TagCard
  { t_Type : byte; t_Name : bytes; t_UUID : bytes; t_Value : bytes; t_valuePresent : bool }.
Record CherryPick := mk_CherryPick { q_IsBackout : bool; q_Target : bytes; q_Baseline : bytes }.
Record AttachmentCard := mk_AttachmentCard
  { a_Filename : bytes; a_Target : bytes; a_Source : bytes }.
Record EventCard := mk_EventCard { e_Date : time; e_UUID : bytes }.
Record TicketField := mk_TicketField { j_Name : bytes; j_Value : bytes }.

(** A nil pointer is [None]; a nil [W] is [None] and an empty one [Some []].
    The code tells a nil list from an empty one nowhere else. *)
Record Deck := mk_Deck {
  d_Type : ArtifactType;
  d_A : option AttachmentCard;
  d_B : bytes;
  d_C : bytes;
  d_D : time;
  d_E : option EventCard;
  d_F : list FileCard;
  d_G : bytes;
  d_H : bytes;
  d_I : bytes;
  d_J : list TicketField;
  d_K : bytes;
  d_L : bytes;
  d_M : list bytes;
  d_N : bytes;
  d_P : list bytes;
  d_Q : list CherryPick;
  d_R : bytes;
  d_S : list SubmanifestCard;
  d_T : list TagCard;
  d_U : option bytes;
  d_W : option bytes;
  d_Z : bytes;
  d_cPresent : bool;
  d_nPresent : bool;
  d_pPresent : bool
}.

(** [&Deck{}] *)
Definition zero_Deck : Deck :=
  mk_Deck Checkin None [] [] 0 None [] [] [] [] [] [] [] [] [] [] [] [] [] [] None None []
    false false false.

Definition set_Type x d := let '(mk_Deck _ a b c dd e f g h i j k l m n p q r s t u w z cp np pp) := d in mk_Deck x a b c dd e f g h i j k l m n p q r s t u w z cp np pp.
Definition set_A x d := let '(mk_Deck ty _ b c dd e f g h i j k l m n p q r s t u w z cp np pp) := d in mk_Deck ty x b c dd e f g h i j k l m n p q r s t u w z cp np pp.
Definition set_B x d := let '(mk_Deck ty a _ c dd e f g h i j k l m n p q r s t u w z cp np pp) := d in mk_Deck ty a x c dd e f g h i j k l m n p q r s t u w z cp np pp.
Definition set_C x d := let '(mk_Deck ty a b _ dd e f g h i j k l m n p q r s t u w z cp np pp) := d in mk_Deck ty a b x dd e f g h i j k l m n p q r s t u w z cp np pp.
Definition set_D x d := let '(mk_Deck ty a b c _ e f g h i j k l m n p q r s t u w z cp np pp) := d in mk_Deck ty a b c x e f g h i j k l m n p q r s t u w z cp np pp.
Definition set_E x d := let '(mk_Deck ty a b c dd _ f g h i j k l m n p q r s t u w z cp np pp) := d in mk_Deck ty a b c dd x f g h i j k l m n p q r s t u w z cp np pp.
Definition set_F x d := let '(mk_Deck ty a b c dd e _ g h i j k l m n p q r s t u w z cp np pp) := d in mk_Deck ty a b c dd e x g h i j k l m n p q r s t u w z cp np pp.
Definition set_G x d := let '(mk_Deck ty a b c dd e f _ h i j k l m n p q r s t u w z cp np pp) := d in mk_Deck ty a b c dd e f x h i j k l m n p q r s t u w z cp np pp.
Definition set_H x d := let '(mk_Deck ty a b c dd e f g _ i j k l m n p q r s t u w z cp np pp) := d in mk_Deck ty a b c dd e f g x i j k l m n p q r s t u w z cp np pp.
Definition set_I x d := let '(mk_Deck ty a b c dd e f g h _ j k l m n p q r s t u w z cp np pp) := d in mk_Deck ty a b c dd e f g h x j k l m n p q r s t u w z cp np pp.
Definition set_J x d := let '(mk_Deck ty a b c dd e f g h i _ k l m n p q r s t u w z cp np pp) := d in mk_Deck ty a b c dd e f g h i x k l m n p q r s t u w z cp np pp.
Definition set_K x d := let '(mk_Deck ty a b c dd e f g h i j _ l m n p q r s t u w z cp np pp) := d in mk_Deck ty a b c dd e f g h i j x l m n p q r s t u w z cp np pp.
Definition set_L x d := let '(mk_Deck ty a b c dd e f g h i j k _ m n p q r s t u w z cp np pp) := d in mk_Deck ty a b c dd e f g h i j k x m n p q r s t u w z cp np pp.
Definition set_M x d := let '(mk_Deck ty a b c dd e f g h i j k l _ n p q r s t u w z cp np pp) := d in mk_Deck ty a b c dd e f g h i j k l x n p q r s t u w z cp np pp.
Definition set_N x d := let '(mk_Deck ty a b c dd e f g h i j k l m _ p q r s t u w z cp np pp) := d in mk_Deck ty a b c dd e f g h i j k l m x p q r s t u w z cp np pp.
Definition set_P x d := let '(mk_Deck ty a b c dd e f g h i j k l m n _ q r s t u w z cp np pp) := d in mk_Deck ty a b c dd e f g h i j k l m n x q r s t u w z cp np pp.
Definition set_Q x d := let '(mk_Deck ty a b c dd e f g h i j k l m n p _ r s t u w z cp np pp) := d in mk_Deck ty a b c dd e f g h i j k l m n p x r s t u w z cp np pp.
Definition set_R x d := let '(mk_Deck ty a b c dd e f g h i j k l m n p q _ s t u w z cp np pp) := d in mk_Deck ty a b c dd e f g h i j k l m n p q x s t u w z cp np pp.
Definition set_S x d := let '(mk_Deck ty a b c dd e f g h i j k l m n p q r _ t u w z cp np pp) := d in mk_Deck ty a b c dd e f g h i j k l m n p q r x t u w z cp np pp.
Definition set_T x d := let '(mk_Deck ty a b c dd e f g h i j k l m n p q r s _ u w z cp np pp) := d in mk_Deck ty a b c dd e f g h i j k l m n p q r s x u w z cp np pp.
Definition set_U x d := let '(mk_Deck ty a b c dd e f g h i j k l m n p q r s t _ w z cp np pp) := d in mk_Deck ty a b c dd e f g h i j k l m n p q r s t x w z cp np pp.
Definition set_W x d := let '(mk_Deck ty a b c dd e f g h i j k l m n p q r s t u _ z cp np pp) := d in mk_Deck ty a b c dd e f g h i j k l m n p q r s t u x z cp np pp.
Definition set_cPresent x d := let '(mk_Deck ty a b c dd e f g h i j k l m n p q r s t u w z _ np pp) := d in mk_Deck ty a b c dd e f g h i j k l m n p q r s t u w z x np pp.
Definition set_nPresent x d := let '(mk_Deck ty a b c dd e f g h i j k l m n p q r s t u w z cp _ pp) := d in mk_Deck ty a b c dd e f g h i j k l m n p q r s t u w z cp x pp.
Definition set_pPresent x d := let '(mk_Deck ty a b c dd e f g h i j k l m n p q r s t u w z cp np _) := d in mk_Deck ty a b c dd e f g h i j k l m n p q r s t u w z cp np x.

(** [s == ""] *)
Definition empty (s : bytes) : bool := match s with [] => true | _ => false end.

Definition HasC (d : Deck) : bool := negb (empty (d_C d)) || d_cPresent d.

(** ** Errors: [fmt.Errorf] with its format and its arguments, unformatted *)
Inductive fmt_arg := AStr (s : bytes) | AByte (c : byte) | AInt (v : Z).
Inductive deck_error :=
| Errorf (format : string) (args : list fmt_arg)
| Wrapf (format : string) (e : deck_error).
Arguments Errorf format%_string args.
Arguments Wrapf format%_string e.
Abbreviation result := (outcome deck_error).

(** ** occurrence.go *)
Definition Compare (a b : bytes) : Z := strings_Compare a b.

Definition in_A_Z (card : byte) : bool := (65 <=? bz card) && (bz card <=? 90).

(** The letters of [singleOccurrence] as indices from 'A'. *)
Definition singleOccurrence (card : byte) : bool :=
  bool_decide (card ∈ bs "ABCDEGHIKLNRUW").

(** [seenCards], a [[26]bool], by the letters set in it. *)
Abbreviation seenCards := (list byte) (only parsing).

Definition claim (s : seenCards) (card : byte) : result seenCards :=
  if negb (in_A_Z card) then Ok s
  else if negb (singleOccurrence card) then Ok s
  else if bool_decide (card ∈ s) then Err (Errorf "duplicate '%c' card" [AByte card])
  else Ok (card :: s).

Definition tagOrderKey (t : TagCard) : bytes := byte_rune (t_Type t) ++ t_Name t.

Definition requireAscending (card : byte) (previous current : bytes) : result () :=
  if Compare current previous >? 0 then Ok ()
  else Err (Errorf "%c-card %q out of order after %q" [AByte card; AStr current; AStr previous]).

(** parse.go's two-level rule for T cards. *)
Definition requireTagAscending (previous current : TagCard) : result () :=
  let previousName := tagOrderKey previous in
  let currentName := tagOrderKey current in
  let cmp := Compare currentName previousName in
  if cmp >? 0 then Ok ()
  else if cmp <? 0 then
    Err (Errorf "T-card %q out of order after %q" [AStr currentName; AStr previousName])
  else if Compare (t_UUID current) (t_UUID previous) >? 0 then Ok ()
  else Err (Errorf "T-card %q target %q out of order after %q"
              [AStr currentName; AStr (t_UUID current); AStr (t_UUID previous)]).

(** ** The orders the writers sort by *)
Definition file_less (a b : FileCard) : bool := Compare (f_Name a) (f_Name b) <? 0.
Definition submanifest_less (a b : SubmanifestCard) : bool := Compare (s_Name a) (s_Name b) <? 0.
Definition field_less (a b : TicketField) : bool := Compare (j_Name a) (j_Name b) <? 0.
Definition hash_less (a b : bytes) : bool := Compare a b <? 0.
Definition tag_less (a b : TagCard) : bool :=
  let cmp := Compare (tagOrderKey a) (tagOrderKey b) in
  if negb (cmp =? 0) then cmp <? 0 else Compare (t_UUID a) (t_UUID b) <? 0.

Lemma file_less_weak : strict_weak file_less.
Proof. apply (strict_weak_key f_Name). Qed.
Lemma submanifest_less_weak : strict_weak submanifest_less.
Proof. apply (strict_weak_key s_Name). Qed.
Lemma field_less_weak : strict_weak field_less.
Proof. apply (strict_weak_key j_Name). Qed.
Lemma hash_less_weak : strict_weak hash_less.
Proof. apply (strict_weak_key id). Qed.

(** [tag_less] is the lexicographic order on (signed name, target). *)
Lemma tag_less_spec a b : tag_less a b = true <->
  blt (tagOrderKey a) (tagOrderKey b) = true
  \/ (tagOrderKey a = tagOrderKey b /\ blt (t_UUID a) (t_UUID b) = true).
Proof.
  unfold tag_less, Compare, blt. cbv zeta.
  destruct (strings_Compare (tagOrderKey a) (tagOrderKey b) =? 0) eqn:E; simpl negb; cbv iota.
  - assert (tagOrderKey a = tagOrderKey b) as Heq.
    { unfold strings_Compare in E. apply cmp_bytes_eq.
      by destruct (cmp_bytes (tagOrderKey a) (tagOrderKey b)). }
    zbool. split; [by right|]. intros [H|[_ H]]; [zbool; lia|done].
  - split; [by left|]. intros [H|[H _]]; [done|].
    rewrite H in E. unfold strings_Compare in E. by rewrite cmp_bytes_refl in E.
Qed.

Lemma tag_less_weak : strict_weak tag_less.
Proof.
  constructor.
  - intros x. apply not_true_is_false. rewrite tag_less_spec.
    by intros [H|[_ H]]; rewrite blt_irrefl in H.
  - intros x y z. rewrite !tag_less_spec. intros [H|[Hk H]] [H'|[Hk' H']].
    + left. by eapply blt_trans.
    + left. by rewrite <- Hk'.
    + left. by rewrite Hk.
    + right. split; [congruence|]. by eapply blt_trans.
  - intros x y z H1 H2. apply not_true_is_false. apply not_true_iff_false in H1, H2.
    rewrite tag_less_spec in *. intros [H|[Hk H]].
    + destruct (blt_total (tagOrderKey y) (tagOrderKey x)) as [|[Heq|Hlt]]; [tauto| |].
      * destruct (blt_total (tagOrderKey z) (tagOrderKey y)) as [|[Heq'|Hlt']]; [tauto| |].
        -- rewrite Heq', Heq, blt_irrefl in H. done.
        -- rewrite Heq in Hlt'. pose proof (blt_trans _ _ _ H Hlt') as Hc.
           by rewrite blt_irrefl in Hc.
      * pose proof (blt_trans _ _ _ H Hlt) as Hc. tauto.
    + destruct (blt_total (tagOrderKey y) (tagOrderKey x)) as [|[Heq|Hlt]]; [tauto| |].
      * destruct (blt_total (t_UUID y) (t_UUID x)) as [|[Heq'|Hlt']]; [tauto| |].
        -- rewrite <- Heq' in H. apply H2. right. split; [congruence|done].
        -- apply H2. right. split; [congruence|]. by eapply blt_trans.
      * apply H2. left. by rewrite Hk.
Qed.
