(* ===== verification/Pathname.v ===== *)
(** * Name and hash predicates: src/internal/deck/pathname.go, and the hash
    predicates of parse.go

    [simple_pathname_components] says what a simple pathname is in terms of the
    path's components, and [reserved_name_shape] which names the reserved-name
    test matches. *)

From S2P Require Import Prelude GoStd GoText.

(** [dotElementAt(z, start)], given [z[start:]]. *)
Definition dotElementAt (z : bytes) : bool :=
  match z with
  | x2e :: z1 =>
      match z1 with
      | [] | x2f :: _ => true
      | x2e :: z2 => match z2 with [] | x2f :: _ => true | _ => false end
      | _ => false
      end
  | _ => false
  end.

(** The index loop of [simplePathname]; the argument is [z[i:]]. *)
Fixpoint simple_loop (z : bytes) : bool :=
  match z with
  | [] => true
  | c :: z1 =>
      if negb (Byte.eqb c x2f) then simple_loop z1
      else match z1 with
           | [] => false
           | c1 :: _ =>
               if Byte.eqb c1 x2f then false
               else if dotElementAt z1 then false
               else simple_loop z1
           end
  end.

Definition simplePathname (z : bytes) : bool :=
  match z with
  | [] => false
  | c :: _ => if Byte.eqb c x2f then false else if dotElementAt z then false else simple_loop z
  end.

(** The rune loop of [StrictPathname]; the argument is [z[i:]]. *)
Fixpoint strict_loop (fuel : nat) (z : bytes) : bool :=
  match fuel, z with
  | _, [] => true
  | O, _ => false
  | S fuel', _ =>
      let '(r, n) := DecodeRune z in
      if (r =? RuneError) && (n <=? 1) then false
      else if (r >? 0xFFFF) || ((r >=? 0xE000) && (r <=? 0xF8FF))
              || ((r >=? 0xFDD0) && (r <=? 0xFDEF)) || (r >=? 0xFFFE) then false
      else strict_loop fuel' (drop (Z.to_nat n) z)
  end.

Definition StrictPathname (z : bytes) : bool :=
  if negb (simplePathname z) || bool_decide (is_Some (IndexByte z x5c)) then false
  else strict_loop (length z) z.

Definition WorktreePathname (z : bytes) : bool :=
  simplePathname z && negb (bool_decide (is_Some (IndexByte z x5c))) && ValidString z.

(** The index loop of [wikiNameWellformed], from 1, with [z[i-1]]. *)
Fixpoint wiki_loop (prev : byte) (z : bytes) : bool :=
  match z with
  | [] => true
  | c :: z1 =>
      if bz c <? 0x20 then false
      else if (bz c =? 0x20) && (bz prev =? 0x20) then false
      else wiki_loop c z1
  end.

Definition wikiNameWellformed (z : bytes) : bool :=
  match z with
  | [] => false
  | c :: z1 =>
      if bz c <=? 0x20 then false
      else if negb (wiki_loop c z1) then false
      else negb (Byte.eqb (List.last z x00) x20 || (len z >? 100))
  end.

Definition IsReservedName (name : bytes) : outcome Empty_set bool :=
  let n := len name in
  if n <? 8 then Ok false
  else
    let? stripped :=
      if n >=? 12 then
        let? dash4 := byte_is name (n - 4) x2d in
        if dash4 : bool then
          let? s := slice_of name (n - 3) n in
          if negb (EqualFold s (bs "wal")) && negb (EqualFold s (bs "shm")) then Ok None
          else Ok (Some (n - 4, true))
        else
          let? dash8 := and_also (Ok (n >=? 16)) (byte_is name (n - 8) x2d) in
          if dash8 : bool then
            let? s := slice_of name (n - 7) n in
            if negb (EqualFold s (bs "journal")) then Ok None else Ok (Some (n - 8, true))
          else Ok (Some (n, false))
      else Ok (Some (n, false)) in
    match stripped with
    | None => Ok false
    | Some (e, gotSuffix) =>
        let? last := elem_at name (e - 1) in
        if Byte.eqb last x5f then
          let? other := or_else (Ok (e <? 8))
                          (let? s := slice_of name (e - 8) e in Ok (negb (EqualFold s (bs "_FOSSIL_")))) in
          if other : bool then Ok false
          else if e =? 8 then Ok true
          else or_else (byte_is name (e - 9) x2f) (Ok gotSuffix)
        else if Byte.eqb last x54 || Byte.eqb last x74 then
          let? other := or_else (Ok (e <? 9)) (or_else (let? b := byte_is name (e - 9) x2e in Ok (negb b))
                          (let? s := slice_of name (e - 9) e in Ok (negb (EqualFold s (bs ".fslckout"))))) in
          if other : bool then Ok false
          else if e =? 9 then Ok true
          else or_else (byte_is name (e - 10) x2f) (Ok gotSuffix)
        else Ok false
    end.

(** ** Hash tokens: parse.go, zcard.go *)

Definition isHexDigit (c : byte) : bool :=
  in_range 48 57 c || in_range 97 102 c || in_range 65 70 c.

Definition isHexAnyCase (s : bytes) : bool := forallb isHexDigit s.

Definition isHexToken (s : bytes) : bool := match s with [] => false | _ => isHexAnyCase s end.

Definition validArtifactHash (s : bytes) : bool :=
  ((len s =? 40) || (len s =? 64)) && isHexAnyCase s.

(** [strings.LastIndexByte(name, '/')] and what follows it: fileTail. *)
Fixpoint fileTail (name : bytes) : bytes :=
  match name with
  | [] => []
  | c :: s =>
      if bool_decide (x2f ∈ s) then fileTail s
      else if Byte.eqb c x2f then s else name
  end.

(** ** Reserved names *)

(** The part of [IsReservedName] after the suffix. *)
Lemma reserved_base_returns name e gotSuffix : 8 <= e <= len name ->
  returns (let? last := elem_at name (e - 1) in
        if Byte.eqb last x5f then
          let? other := or_else (Ok (e <? 8))
                          (let? s := slice_of name (e - 8) e in Ok (negb (EqualFold s (bs "_FOSSIL_")))) in
          if other : bool then Ok false
          else if e =? 8 then Ok true
          else or_else (byte_is name (e - 9) x2f) (Ok gotSuffix)
        else if Byte.eqb last x54 || Byte.eqb last x74 then
          let? other := or_else (Ok (e <? 9)) (or_else (let? b := byte_is name (e - 9) x2e in Ok (negb b))
                          (let? s := slice_of name (e - 9) e in Ok (negb (EqualFold s (bs ".fslckout"))))) in
          if other : bool then Ok false
          else if e =? 9 then Ok true
          else or_else (byte_is name (e - 10) x2f) (Ok gotSuffix)
        else Ok false : outcome Empty_set bool).
Proof.
  intros He. destruct (elem_at_some (E:=Empty_set) name (e - 1)) as (last & _ & ->); [lia|]. cbn [obind].
  unfold or_else. cbn [obind]. destruct (Byte.eqb last x5f).
  - rewrite (proj2 (Z.ltb_ge e 8)), slice_of_ok by lia. cbn [obind].
    destruct (negb _); [done|]. destruct (Z.eqb_spec e 8); [done|].
    rewrite byte_is_ok by lia. cbn [obind]. by destruct (at_is _ _ _).
  - destruct (_ || _); [|done]. destruct (Z.ltb_spec e 9); [done|].
    rewrite byte_is_ok, slice_of_ok by lia. cbn [obind]. destruct (negb (at_is _ _ _)); [done|].
    destruct (negb _); [done|]. destruct (Z.eqb_spec e 9); [done|].
    rewrite byte_is_ok by lia. cbn [obind]. by destruct (at_is _ _ _).
Qed.

Lemma IsReservedName_returns name : returns (IsReservedName name).
Proof.
  unfold IsReservedName. destruct (Z.ltb_spec (len name) 8); [done|].
  apply returns_bind.
  - rewrite Z.geb_leb. destruct (Z.leb_spec 12 (len name)); [|done].
    rewrite byte_is_ok by lia. cbn [obind]. destruct (at_is _ _ _).
    + rewrite slice_of_ok by lia. cbn [obind]. by destruct (_ && _).
    + unfold and_also. cbn [obind]. rewrite Z.geb_leb. destruct (Z.leb_spec 16 (len name)); [|done].
      rewrite byte_is_ok by lia. cbn [obind]. destruct (at_is _ _ _); [|done].
      rewrite slice_of_ok by lia. cbn [obind]. by destruct (negb _).
  - intros [[e got]|] Hs; [|done]. apply reserved_base_returns.
    rewrite Z.geb_leb in Hs. destruct (Z.leb_spec 12 (len name)); [|injection Hs as <- <-; lia].
    rewrite byte_is_ok in Hs by lia. cbn [obind] in Hs. destruct (at_is _ _ _).
    + rewrite slice_of_ok in Hs by lia. cbn [obind] in Hs. destruct (_ && _); [done|]. injection Hs as <- <-. lia.
    + unfold and_also in Hs. cbn [obind] in Hs. rewrite Z.geb_leb in Hs.
      destruct (Z.leb_spec 16 (len name)); [|injection Hs as <- <-; lia].
      rewrite byte_is_ok in Hs by lia. cbn [obind] in Hs. destruct (at_is _ _ _); [|injection Hs as <- <-; lia].
      rewrite slice_of_ok in Hs by lia. cbn [obind] in Hs. destruct (negb _); [done|]. injection Hs as <- <-. lia.
Qed.

(** What [IsReservedName] answers. *)
Definition reserved (name : bytes) : bool :=
  match IsReservedName name with Ok b => b | _ => false end.

Lemma IsReservedName_reserved {E} name : never (E:=E) (IsReservedName name) = Ok (reserved name).
Proof. unfold reserved. destruct (returns_never_ok _ (IsReservedName_returns name)) as [b ->]. done. Qed.

(** ** What a simple pathname is *)

(** The components of a path: its maximal runs without '/'. *)
Fixpoint split_slash (z : bytes) : list bytes :=
  match z with
  | [] => [[]]
  | c :: z1 =>
      if Byte.eqb c x2f then [] :: split_slash z1
      else match split_slash z1 with
           | e :: es => (c :: e) :: es
           | [] => [[c]]
           end
  end.

Definition plain_component (e : bytes) : Prop := e <> [] /\ e <> bs "." /\ e <> bs "..".

Lemma split_slash_cons z : exists e es, split_slash z = e :: es.
Proof. destruct z as [|c z]; simpl; [eauto|]. destruct (Byte.eqb c x2f), (split_slash z); eauto. Qed.

(** Compare a concrete component with "." and "..". *)
Ltac dots :=
  change (bs ".") with [x2e]; change (bs "..") with [x2e; x2e];
  let H := fresh in
  first [ split; [discriminate|intros [H|H]; congruence]
        | split; [intros _; first [by left|by right]|done] ].

Lemma dotElementAt_head z e es : split_slash z = e :: es ->
  dotElementAt z = true <-> (e = bs "." \/ e = bs "..").
Proof.
  intros Hs. destruct z as [|c z]; [injection Hs as <- <-; simpl; dots|].
  destruct (decide (c = x2e)) as [->|Hc].
  2:{ assert (dotElementAt (c :: z) = false) as -> by by destruct c.
      simpl in Hs. destruct (Byte.eqb c x2f) eqn:E.
      { injection Hs as <- <-. dots. }
      destruct (split_slash_cons z) as (e' & es' & Hz). rewrite Hz in Hs.
      injection Hs as <- <-. dots. }
  destruct z as [|c1 z]; [injection Hs as <- <-; dots|].
  destruct (decide (c1 = x2f)) as [->|Hc1]; [simpl in Hs; injection Hs as <- <-; dots|].
  destruct (decide (c1 = x2e)) as [->|Hc1'].
  2:{ assert (dotElementAt (x2e :: c1 :: z) = false) as -> by by destruct c1.
      simpl in Hs. apply byte_eqb_neq in Hc1. rewrite Hc1 in Hs.
      destruct (split_slash_cons z) as (e' & es' & Hz). rewrite Hz in Hs.
      injection Hs as <- <-. dots. }
  destruct z as [|c2 z]; [injection Hs as <- <-; dots|].
  destruct (decide (c2 = x2f)) as [->|Hc2]; [simpl in Hs; injection Hs as <- <-; dots|].
  assert (dotElementAt (x2e :: x2e :: c2 :: z) = false) as -> by by destruct c2.
  simpl in Hs. apply byte_eqb_neq in Hc2. rewrite Hc2 in Hs.
  destruct (split_slash_cons z) as (e' & es' & Hz). rewrite Hz in Hs.
  injection Hs as <- <-. dots.
Qed.

(** The loop checks every component but the first. *)
Lemma simple_loop_components z e es : split_slash z = e :: es ->
  simple_loop z = true <-> Forall plain_component es.
Proof.
  revert e es. induction z as [|c z IH]; intros e es Hs.
  { injection Hs as <- <-. split; [constructor|done]. }
  simpl in Hs |- *. destruct (Byte.eqb c x2f) eqn:E; simpl.
  - destruct (split_slash_cons z) as (e' & es' & Hz). injection Hs as <- <-. rewrite Hz.
    rewrite Forall_cons.
    destruct z as [|c1 z].
    { injection Hz as <- <-. unfold plain_component. split; [done|tauto]. }
    destruct (Byte.eqb c1 x2f) eqn:E1.
    { simpl in Hz. rewrite E1 in Hz. injection Hz as <- <-. unfold plain_component.
      split; [done|tauto]. }
    rewrite <- (IH e' es' Hz). pose proof (dotElementAt_head _ _ _ Hz) as Hd.
    assert (e' <> []).
    { simpl in Hz. rewrite E1 in Hz. destruct (split_slash_cons z) as (? & ? & Hz').
      rewrite Hz' in Hz. by injection Hz as <- <-. }
    destruct (dotElementAt (c1 :: z)).
    + split; [done|]. intros [(_ & H1 & H2) _]. destruct Hd as [Hd _]. destruct Hd; tauto.
    + split; [|tauto]. intros. split; [|done]. split; [done|].
      split; intros ->; destruct Hd as [_ Hd]; discriminate Hd; tauto.
  - destruct (split_slash_cons z) as (e' & es' & Hz). rewrite Hz in Hs.
    injection Hs as <- <-. by apply (IH e').
Qed.

Lemma simplePathname_spec (z : bytes) :
  simplePathname z = true <-> Forall plain_component (split_slash z).
Proof.
  destruct (split_slash_cons z) as (e & es & Hz). rewrite Hz, Forall_cons.
  rewrite <- (simple_loop_components z e es Hz).
  pose proof (dotElementAt_head _ _ _ Hz) as Hd.
  destruct z as [|c z]; [injection Hz as <- <-; unfold plain_component; naive_solver|].
  unfold simplePathname. destruct (Byte.eqb c x2f) eqn:E.
  { simpl in Hz. rewrite E in Hz. injection Hz as <- <-. unfold plain_component. naive_solver. }
  assert (e <> []).
  { simpl in Hz. rewrite E in Hz. destruct (split_slash_cons z) as (? & ? & Hz').
    rewrite Hz' in Hz. by injection Hz as <- <-. }
  destruct (dotElementAt (c :: z)).
  - split; [done|]. intros [(_ & H1 & H2) _]. destruct Hd as [Hd _]. destruct Hd; tauto.
  - split; [|tauto]. intros. split; [|done]. split; [done|].
    split; intros ->; destruct Hd as [_ Hd]; discriminate Hd; tauto.
Qed.

Lemma simplePathname_nonempty z : simplePathname z = true -> z <> [].
Proof. by destruct z. Qed.

(** A path without '/' is its own tail. *)
Lemma fileTail_id z : x2f ∉ z -> fileTail z = z.
Proof.
  destruct z as [|c z]; [done|]. intros Hn. simpl.
  rewrite bool_decide_eq_false_2 by (intros ?; apply Hn; by right).
  destruct (Byte.eqb c x2f) eqn:E; [|done].
  apply byte_eqb_eq in E. subst. exfalso. apply Hn. by left.
Qed.

Lemma fileTail_no_slash z : x2f ∉ fileTail z.
Proof.
  induction z as [|c z IH]; simpl; [apply not_elem_of_nil|].
  case_bool_decide; [done|]. destruct (Byte.eqb c x2f) eqn:E; [done|].
  apply byte_eqb_neq in E. by apply not_elem_of_cons.
Qed.

Lemma split_slash_none z : x2f ∉ z -> split_slash z = [z].
Proof.
  induction z as [|c z IH]; [done|]. intros [Hc Hz]%not_elem_of_cons. simpl.
  destruct (Byte.eqb c x2f) eqn:E; [apply byte_eqb_eq in E; congruence|]. by rewrite IH.
Qed.

(** The tail is the last component. *)
Lemma fileTail_last z : List.last (split_slash z) [] = fileTail z.
Proof.
  induction z as [|c z IH]; [done|]. simpl fileTail.
  destruct (split_slash_cons z) as (e & es & Hz).
  case_bool_decide as Hin.
  - rewrite <- IH. simpl. rewrite Hz. destruct (Byte.eqb c x2f); [done|].
    destruct es as [|e' es]; [|done]. exfalso.
    clear IH. revert e Hz Hin. induction z as [|c' z IHz]; intros e Hz Hin; [by apply not_elem_of_nil in Hin|].
    simpl in Hz. destruct (Byte.eqb c' x2f) eqn:E.
    + destruct (split_slash_cons z) as (? & ? & Hz'). by rewrite Hz' in Hz.
    + destruct (split_slash_cons z) as (e1 & es1 & Hz'). rewrite Hz' in Hz.
      injection Hz as <- ->. apply elem_of_cons in Hin as [<-|Hin]; [done|]. by eapply IHz.
  - rewrite split_slash_none in IH, Hz by done. simpl. rewrite split_slash_none by done.
    by destruct (Byte.eqb c x2f).
Qed.

Lemma simplePathname_tail z : simplePathname z = true -> simplePathname (fileTail z) = true.
Proof.
  rewrite !simplePathname_spec. intros H.
  rewrite (split_slash_none (fileTail z)) by apply fileTail_no_slash.
  rewrite <- fileTail_last. apply Forall_singleton.
  destruct (split_slash_cons z) as (e & es & Hz). rewrite Hz in *.
  rewrite Forall_forall in H. apply H. clear. revert e.
  induction es as [|e' es IH]; intros e; [by left|]. right. apply IH.
Qed.

(** ** Hashes are tokens and have a lower-case form *)
Lemma hex_lower_byte c : isHexDigit c = true -> isHexDigit (lower_byte c) = true.
Proof. by_bytes c. Qed.

Lemma isHexAnyCase_lower s : isHexAnyCase s = true -> isHexAnyCase (map lower_byte s) = true.
Proof.
  unfold isHexAnyCase. rewrite !forallb_forall. intros H c Hc.
  apply in_map_iff in Hc as (b & <- & Hb). by apply hex_lower_byte, H.
Qed.

Lemma isHexAnyCase_ascii s : isHexAnyCase s = true -> is_ascii s = true.
Proof.
  unfold isHexAnyCase, is_ascii. rewrite !forallb_forall. intros H c Hc.
  specialize (H c Hc). revert H. by_bytes c.
Qed.

(** a name is a simple pathname exactly when it has no empty, "." or ".."
    component; and the part kept of an attachment's name, its last component, is
    then itself a simple pathname without a separator. *)
Theorem simple_pathname_components (z : bytes) :
  (simplePathname z = true <-> Forall plain_component (split_slash z))
  /\ fileTail z = List.last (split_slash z) [] /\ (x2f ∉ fileTail z)
  /\ implb (simplePathname z) (simplePathname (fileTail z)) = true.
Proof.
  split; [apply simplePathname_spec|]. split; [by rewrite fileTail_last|].
  split; [apply fileTail_no_slash|].
  destruct (simplePathname z) eqn:E; [|done]. by apply simplePathname_tail.
Qed.
