(* ===== verification/Clearsign.v ===== *)
(** * Artifact framing: src/internal/deck/clearsign.go, zcard.go, rcard.go

    The signature wrapper, the Z-card self-checksum and the R-card checksum of
    a check-in's files. *)

From S2P Require Import Prelude GoStd GoText GoCrypto Deck.

Definition clearsignHeaders : list bytes :=
  [bs "-----BEGIN PGP SIGNED MESSAGE-----"; bs "-----BEGIN SSH SIGNED MESSAGE-----"].

Definition lf : byte := x0a.

Definition clearsignSignatures : list bytes :=
  [lf :: bs "-----BEGIN PGP SIGNATURE----"; lf :: bs "-----BEGIN SSH SIGNATURE----"].

Definition clearsignHeaderLen : Z := 34.

Definition matchPrefix (data : bytes) (markers : list bytes) : option bytes :=
  List.find (fun marker => HasPrefix data marker) markers.

Definition afterBlankLine (z : bytes) (i : Z) : outcome Empty_set bool :=
  let? not_lf := or_else (Ok (i <? 1)) (let? b := byte_is z (i - 1) lf in Ok (negb b)) in
  if not_lf : bool then Ok false
  else
    let? lf_lf := and_also (Ok (i >=? 2)) (byte_is z (i - 2) lf) in
    if lf_lf : bool then Ok true
    else and_also (Ok (i >=? 3)) (and_also (byte_is z (i - 2) x0d) (byte_is z (i - 3) lf)).

(** [for i < n && !afterBlankLine(data, i) { i++ }]; [fuel] is [n - i]. *)
Fixpoint skip_headers (fuel : nat) (data : bytes) (i : Z) : outcome Empty_set Z :=
  match fuel with
  | O => Ok i
  | S fuel' =>
      let? go := and_also (Ok (i <? len data)) (let? b := afterBlankLine data i in Ok (negb b)) in
      if go : bool then skip_headers fuel' data (i + 1) else Ok i
  end.

(** The backward scan for a signature block: the last ['\n'] that begins one. *)
Fixpoint last_signature (body : bytes) : option nat :=
  match body with
  | [] => None
  | c :: s =>
      match last_signature s with
      | Some j => Some (S j)
      | None =>
          if Byte.eqb c lf && bool_decide (is_Some (matchPrefix body clearsignSignatures))
          then Some O else None
      end
  end.

Definition StripClearsign (data : bytes) : outcome Empty_set bytes :=
  match matchPrefix data clearsignHeaders with
  | None => Ok data
  | Some header =>
      if negb (len header =? clearsignHeaderLen)
      then Panic "deck.StripClearsign: clearsign header marker length mismatch"
      else
        let? i := skip_headers (length data) data clearsignHeaderLen in
        if i >=? len data then Ok data
        else
          let? body := slice_of data i (len data) in
          match last_signature body with
          | Some j => slice_of body 0 (Z.of_nat j + 1)
          | None => Ok body
          end
  end.

(** [StripClearsign] returns: the length assertion holds for both headers. *)
Definition strip (data : bytes) : bytes :=
  match StripClearsign data with Ok b => b | _ => [] end.

Lemma header_len data h : matchPrefix data clearsignHeaders = Some h -> len h = clearsignHeaderLen.
Proof. intros E. apply find_some in E as [[<-|[<-|[]]] _]; reflexivity. Qed.

Lemma afterBlankLine_returns z i : i <= len z -> returns (afterBlankLine z i).
Proof.
  intros Hi. unfold afterBlankLine, or_else, and_also. cbn [obind]. destruct (Z.ltb_spec i 1); [done|].
  rewrite byte_is_ok by lia. cbn [obind]. destruct (negb _); [done|].
  rewrite !Z.geb_leb. destruct (Z.leb_spec 2 i); cbn [obind].
  2:{ by rewrite (proj2 (Z.leb_gt 3 i)) by lia. }
  rewrite byte_is_ok by lia. cbn [obind]. destruct (at_is _ _ _); [done|]. destruct (Z.leb_spec 3 i); [|done].
  rewrite byte_is_ok by lia. cbn [obind]. destruct (at_is _ _ _); [|done]. by rewrite byte_is_ok by lia.
Qed.

Lemma skip_headers_ok fuel data i : exists k, skip_headers fuel data i = Ok k /\ i <= k.
Proof.
  revert i. induction fuel as [|fuel IH]; intros i; simpl; [eexists; split; [done|lia]|].
  unfold and_also. cbn [obind]. destruct (Z.ltb_spec i (len data)); [|eexists; split; [done|lia]].
  destruct (returns_never_ok _ (afterBlankLine_returns data i ltac:(lia))) as [b ->]. cbn [obind].
  destruct (negb b); [|eexists; split; [done|lia]].
  destruct (IH (i + 1)) as (k & -> & Hk). exists k. split; [done|lia].
Qed.

Lemma last_signature_lf body j : last_signature body = Some j -> body !! j = Some lf.
Proof.
  revert j. induction body as [|c s IH]; intros j; [done|]. simpl.
  destruct (last_signature s) as [k|].
  - intros [= <-]. by apply IH.
  - destruct (Byte.eqb c lf) eqn:E; simpl; [|done].
    case_bool_decide; [|done]. intros [= <-]. apply byte_eqb_eq in E. by subst.
Qed.

(** What is between the blank line and the signature. *)
Definition signed_part (body : bytes) : bytes :=
  match last_signature body with Some j => take (S j) body | None => body end.

Lemma StripClearsign_cases data : StripClearsign data = Ok data
  \/ exists k, (k < length data)%nat /\ StripClearsign data = Ok (signed_part (drop k data)).
Proof.
  unfold StripClearsign. destruct (matchPrefix data clearsignHeaders) as [h|] eqn:E; [|by left].
  rewrite (header_len _ _ E). simpl negb. cbv iota.
  destruct (skip_headers_ok (length data) data clearsignHeaderLen) as (i & -> & Hi). cbn [obind].
  assert (34 <= i) by done. rewrite Z.geb_leb. destruct (Z.leb_spec (len data) i); [by left|]. right.
  rewrite slice_of_ok by lia. cbn [obind]. exists (Z.to_nat i). split; [unfold len in *; lia|].
  assert (Hs : sub i (len data) data = drop (Z.to_nat i) data).
  { unfold sub. apply take_ge. unfold len. rewrite length_drop. lia. }
  rewrite Hs. unfold signed_part. destruct (last_signature _) as [j|] eqn:Ej; [|done].
  apply last_signature_lf, lookup_lt_Some in Ej.
  rewrite slice_of_ok by (unfold len; lia). f_equal. unfold sub. rewrite skipn_O. f_equal. lia.
Qed.

Lemma StripClearsign_ok data : StripClearsign data = Ok (strip data).
Proof. unfold strip. by destruct (StripClearsign_cases data) as [->|(k & _ & ->)]. Qed.

Lemma StripClearsign_strip {E} data : never (E:=E) (StripClearsign data) = Ok (strip data).
Proof. by rewrite StripClearsign_ok. Qed.

(** ** zcard.go *)
Definition computeZ (data : bytes) : bytes := hex_encode (md5_Sum data).

Definition verifyZ (body : bytes) : result () :=
  let n := len body in
  if n <? 35 then Ok ()
  else
    let? absent := or_else (let? b := byte_is body (n - 35) x5a in Ok (negb b))
                     (let? b := byte_is body (n - 34) x20 in Ok (negb b)) in
    if absent : bool then Ok ()
    else
    let? stated := slice_of body (n - 33) (n - 1) in
    let? before := slice_of body 0 (n - 35) in
    let computed := computeZ before in
    if negb (bool_decide (computed = stated)) then
      Err (Errorf "deck.VerifyZ: checksum mismatch: stated=%s computed=%s" [AStr stated; AStr computed])
    else Ok ().

Definition VerifyZ (data : bytes) : result () :=
  let? body := never (StripClearsign data) in verifyZ body.

Definition HasValidZ (data : bytes) : result bool :=
  let? body := never (StripClearsign data) in
  let n := len body in
  let? absent := or_else (Ok (n <? 35)) (or_else (let? b := byte_is body (n - 1) lf in Ok (negb b))
                   (or_else (let? b := byte_is body (n - 35) x5a in Ok (negb b))
                      (let? b := byte_is body (n - 34) x20 in Ok (negb b)))) in
  if absent : bool then Ok false
  else match verifyZ body with Ok _ => Ok true | Err _ => Ok false | Panic s => Panic s | Diverge => Diverge end.

(** ** rcard.go *)

(** [h.Write] over the sorted files, then [h.Sum]: MD5 of the concatenation.
    [getContent] is the caller's content source. *)
Fixpoint r_stream (getContent : bytes -> result bytes) (files : list FileCard) : result bytes :=
  match files with
  | [] => Ok []
  | f :: fs =>
      if empty (f_UUID f) then r_stream getContent fs
      else
        let? content := wrap_err (Wrapf "ComputeR: fetching %q: %w") (getContent (f_UUID f)) in
        let? rest := r_stream getContent fs in
        Ok (f_Name f ++ bs " " ++ dec (len content) ++ [lf] ++ content ++ rest)
  end.

Definition ComputeR `{GoSort} (d : Deck) (getContent : bytes -> result bytes) : result bytes :=
  if len (d_F d) =? 0 then Ok (bs "d41d8cd98f00b204e9800998ecf8427e")
  else
    let? stream := r_stream getContent (sort_slice file_less (d_F d)) in
    Ok (hex_encode (md5_Sum stream)).

(** ** Facts *)
Lemma computeZ_len data : len (computeZ data) = 32.
Proof. unfold computeZ. rewrite hex_encode_len, md5_Sum_len. done. Qed.

(** The Z card's checks on a text long enough. *)
Lemma verifyZ_long body : 35 <= len body -> verifyZ body =
  if negb (at_is body (len body - 35) x5a) || negb (at_is body (len body - 34) x20) then Ok ()
  else if negb (bool_decide (computeZ (sub 0 (len body - 35) body) = sub (len body - 33) (len body - 1) body)) then
    Err (Errorf "deck.VerifyZ: checksum mismatch: stated=%s computed=%s"
      [AStr (sub (len body - 33) (len body - 1) body); AStr (computeZ (sub 0 (len body - 35) body))])
  else Ok ().
Proof.
  intros H. unfold verifyZ, or_else. cbv zeta. rewrite (proj2 (Z.ltb_ge _ 35)), !byte_is_ok by lia. cbn [obind].
  destruct (at_is body (len body - 35) x5a); [|done]. cbn [negb orb]. destruct (at_is body _ x20); [|done]. cbn [negb].
  by rewrite !slice_of_ok by lia.
Qed.

Lemma verifyZ_returns body : returns (verifyZ body).
Proof.
  destruct (Z.lt_ge_cases (len body) 35); [|rewrite verifyZ_long by done; by repeat case_match].
  unfold verifyZ. cbv zeta. by rewrite (proj2 (Z.ltb_lt _ _)).
Qed.

Lemma strip_id data c s : data = c :: s -> Byte.eqb c x2d = false -> strip data = data.
Proof.
  intros -> Hc. unfold strip, StripClearsign, matchPrefix.
  assert (List.find (fun marker => HasPrefix (c :: s) marker) clearsignHeaders = None) as ->; [|done].
  by destruct c.
Qed.

(** The text ends in a newline. *)
Definition ends_lf (s : bytes) : Prop := exists t, s = t ++ [lf].

Lemma ends_lf_drop n s : ends_lf s -> (n < length s)%nat -> ends_lf (drop n s).
Proof.
  intros [t ->] Hn. rewrite length_app in Hn. simpl in Hn.
  exists (drop n t). by rewrite drop_app_le by lia.
Qed.

Lemma strip_ends_lf data : ends_lf data -> ends_lf (strip data).
Proof.
  intros Hd. unfold strip. destruct (StripClearsign_cases data) as [->|(k & Hk & ->)]; [done|].
  pose proof (ends_lf_drop k data Hd Hk) as Hb. unfold signed_part.
  destruct (last_signature _) as [j|] eqn:Ej; [|done].
  apply last_signature_lf in Ej. exists (take j (drop k data)). by apply take_S_r.
Qed.

(** Two signature wrappers, one inside the other. *)
Definition nested_clearsign : bytes := bs "-----BEGIN PGP SIGNED MESSAGE-----
Hash: SHA1

-----BEGIN PGP SIGNED MESSAGE-----
Hash: SHA1

D 2024-01-01
-----BEGIN PGP SIGNATURE-----
inner
-----BEGIN PGP SIGNATURE-----
outer
".

(** StripClearsign returns on every input, leaves text that does not begin
    with a header untouched, and keeps a final newline; but it takes off one
    wrapper only, so on nested wrappers it is not idempotent. *)
Theorem strip_clearsign_spec :
  (forall data, StripClearsign data = Ok (strip data))
  /\ (forall data, matchPrefix data clearsignHeaders = None -> strip data = data)
  /\ (forall data, ends_lf data -> ends_lf (strip data))
  /\ strip (strip nested_clearsign) = bs "D 2024-01-01
" /\ strip (strip nested_clearsign) <> strip nested_clearsign.
Proof.
  split; [apply StripClearsign_ok|]. split.
  { intros data H. unfold strip, StripClearsign. by rewrite H. }
  split; [apply strip_ends_lf|]. split; [vm_compute; reflexivity|]. by vm_compute.
Qed.
