(* ===== verification/Timestamp.v ===== *)
(** * Timestamps of the D and E cards: src/internal/deck/timestamp.go, and
    marshalTimestamp of marshal.go

    A [time.Time] is a number of nanoseconds since 0001-01-01 UTC.  [time.Date],
    [Time.Format] and [strconv.ParseFloat] are Go's; their definitions here
    write out what they compute on the arguments the code gives them. *)

From Stdlib Require Import Floats.SpecFloat.
From S2P Require Import Prelude GoStd GoText Deck.

(** ** The proleptic Gregorian calendar *)
Definition isLeap (y : Z) : bool := (y mod 4 =? 0) && (negb (y mod 100 =? 0) || (y mod 400 =? 0)).

(** Days before a month in a common year. *)
Definition days_before (m : Z) : Z :=
  nth (Z.to_nat (m - 1)) [0; 31; 59; 90; 120; 151; 181; 212; 243; 273; 304; 334; 365] 0.

(** Days from 0001-01-01 to a date; the day of month need not be in range. *)
Definition days_of_date (y m d : Z) : Z :=
  let y' := y - 1 in
  365 * y' + y' / 4 - y' / 100 + y' / 400
  + days_before m + (if isLeap y && (m >? 2) then 1 else 0) + (d - 1).

(** The month and day of a day of the year. *)
Definition month_of (leap : bool) (yday : Z) : Z * Z :=
  let before m := days_before m + (if leap && (m >? 2) then 1 else 0) in
  match List.find (fun m => before m <=? yday) [12; 11; 10; 9; 8; 7; 6; 5; 4; 3; 2; 1] with
  | Some m => (m, yday - before m + 1)
  | None => (1, 1)
  end.

(** A day of a 400-year cycle to its year in the cycle and the day of that year. *)
Definition year_of_cycle (d : Z) : Z * Z :=
  let n := d / 36524 in let n := n - Z.shiftr n 2 in
  let y := 100 * n in let d := d - 36524 * n in
  let n := d / 1461 in
  let y := y + 4 * n in let d := d - 1461 * n in
  let n := d / 365 in let n := n - Z.shiftr n 2 in
  (y + n, d - 365 * n).

Definition date_of_days (days : Z) : Z * Z * Z :=
  let '(y, yday) := year_of_cycle (days mod 146097) in
  let year := 400 * (days / 146097) + y + 1 in
  let '(m, d) := month_of (isLeap year) yday in
  (year, m, d).

Definition ns_per_sec : Z := 1000000000.
Definition secs_per_day : Z := 86400.

(** [time.Date(...).UTC()] with a fixed-offset zone. *)
Definition Date (year month day hour min sec nsec offset : Z) : time :=
  (days_of_date year month day * secs_per_day + hour * 3600 + min * 60 + sec - offset) * ns_per_sec
  + nsec.

(** Seconds from 0001-01-01 to the Unix epoch. *)
Definition unixToInternal : Z := 62135596800.
Definition UnixMilli (ms : Z) : time := unixToInternal * ns_per_sec + ms * 1000000.

(** ** The token cursor: a [tsCursor] by its remaining bytes *)
Definition julianEpochMillis : Z := 210866760000000.
Definition millisPerJulianDay : Z := 86400000.
Definition maxJulianMillis : Z := 464269060800000.

(** [c.peek() == b], for a non-NUL [b]. *)
Definition peek_is (c : bytes) (b : byte) : bool := at_is c 0 b.

(** A number of exactly [n] digits and what follows it. *)
Definition ts_digits (c : bytes) (n : nat) : option (Z * bytes) :=
  if len c <? Z.of_nat n then None
  else match dec_val 0 (take n c) with
       | Some v => Some (v, drop n c)
       | None => None
       end.

(** A call that may decline: Go's boolean beside the value. *)
Abbreviation declines := (outcome ()).

(** The loop of [digits]: [d := c.s[c.i+k]] for [k] below [n]. *)
Fixpoint digits_loop (c : bytes) (k : Z) (left : nat) (v : Z) : declines Z :=
  match left with
  | O => Ok v
  | S left' =>
      let? d := elem_at c k in
      if negb (is_digit d) then Err () else digits_loop c (k + 1) left' (v * 10 + (bz d - 48))
  end.

Definition digits (c : bytes) (n : nat) : declines (Z * bytes) :=
  if Z.of_nat n >? len c then Err ()
  else let? v := digits_loop c 0 n 0 in Ok (v, drop n c).

Definition isTimestampSeparator (b : byte) : bool :=
  match b with x54 | x20 | x09 | x0a | x0d | x0b | x0c => true | _ => false end.

Fixpoint skip_separators (c : bytes) : bytes :=
  match c with
  | b :: c' => if isTimestampSeparator b then skip_separators c' else c
  | [] => []
  end.

(** The separators before a zone: any but 'T'. *)
Fixpoint skip_zone_space (c : bytes) : bytes :=
  match c with
  | b :: c' => if isTimestampSeparator b && negb (Byte.eqb b x54) then skip_zone_space c' else c
  | [] => []
  end.

Fixpoint span_digits (c : bytes) : bytes * bytes :=
  match c with
  | b :: c' => if is_digit b then let '(ds, r) := span_digits c' in (b :: ds, r) else ([], c)
  | [] => ([], [])
  end.

(** [for k := 0; k < 9; k++]: the digits scaled to nine places. *)
Fixpoint nanos (k : nat) (frac : bytes) (acc : Z) : Z :=
  match k with
  | O => acc
  | S k' => match frac with
            | b :: frac' => nanos k' frac' (acc * 10 + (bz b - 48))
            | [] => nanos k' [] (acc * 10)
            end
  end.

Definition fractionNanos (c : bytes) : declines (Z * bytes) :=
  let '(frac, rest) := span_digits c in
  if len frac =? 0 then Err ()
  else
    let? frac := if len frac >? 9 then slice_of frac 0 9 else Ok frac in
    Ok (nanos 9 frac 0, rest).

(** The optional zone at the end of a time: its offset in seconds. *)
Definition parseZone (c : bytes) : declines Z :=
  let c := skip_zone_space c in
  match c with
  | [] => Ok 0
  | z :: c1 =>
      if Byte.eqb z x5a || Byte.eqb z x7a then
        match c1 with [] => Ok 0 | _ => Err () end
      else if Byte.eqb z x2b || Byte.eqb z x2d then
        let? (zh, c2) := digits c1 2 in
        if negb (peek_is c2 x3a) then Err ()
        else
          let? (zm, c3) := digits (drop 1 c2) 2 in
          let offset := (zh * 60 + zm) * 60 in
          let offset := if Byte.eqb z x2d then - offset else offset in
          match c3 with [] => Ok offset | _ => Err () end
      else Err ()
  end.

(** The optional seconds and fraction: second, nanosecond and what follows. *)
Definition parseSeconds (c : bytes) : declines (Z * Z * bytes) :=
  if negb (peek_is c x3a) then Ok (0, 0, c)
  else
    let? (sec, c2) := digits (drop 1 c) 2 in
    if sec >? 59 then Err ()
    else if negb (peek_is c2 x2e) then Ok (sec, 0, c2)
    else let? (nsec, c3) := fractionNanos (drop 1 c2) in Ok (sec, nsec, c3).

(** hour, minute, second, nanosecond, zone offset *)
Definition parseTimeAndZone (c : bytes) : declines (Z * Z * Z * Z * Z) :=
  let? (hour, c1) := digits c 2 in
  if (hour >? 24) || negb (peek_is c1 x3a) then Err ()
  else
    let? (min, c2) := digits (drop 1 c1) 2 in
    if min >? 59 then Err ()
    else
      let? (sec, nsec, c3) := parseSeconds c2 in
      let? offset := parseZone c3 in
      Ok (hour, min, sec, nsec, offset).

Definition afterJulianEpoch (year month day : Z) : bool :=
  if negb (year =? -4713) then year >? -4713
  else if negb (month =? 11) then month >? 11
  else day >? 24.

(** The rest of a function after a call that may decline. *)
Definition unless {A B} (m : declines A) (declined : result B) (k : A -> result B) : result B :=
  match m with
  | Ok a => k a
  | Err _ => declined
  | Panic s => Panic s
  | Diverge => Diverge
  end.

(** [None] when the token is not a calendar timestamp at all. *)
Definition parseCalendarTimestamp (s : bytes) : result (option time) :=
  let neg := peek_is s x2d in
  let bad : result (option time) := Err (Errorf "invalid timestamp %q" [AStr s]) in
  unless (digits (if neg then drop 1 s else s) 4) (Ok None) (fun '(year, c) =>
  if negb (peek_is c x2d) then Ok None
  else
    let year := if neg then - year else year in
    unless (digits (drop 1 c) 2) bad (fun '(month, c) =>
    if (month <? 1) || (month >? 12) || negb (peek_is c x2d) then bad
    else
      unless (digits (drop 1 c) 2) bad (fun '(day, c) =>
      if (day <? 1) || (day >? 31) then bad
      else if negb (afterJulianEpoch year month day) then bad
      else
        match c with
        | [] => Ok (Some (Date year month day 0 0 0 0 0))
        | b :: _ =>
            if negb (isTimestampSeparator b) then bad
            else
              unless (parseTimeAndZone (skip_separators c)) bad (fun '(hour, min, sec, nsec, offset) =>
              Ok (Some (Date year month day hour min sec nsec offset)))
        end))).

(** ** Form 5: a bare Julian day number *)
Definition skip_sign (s : bytes) : bool * bytes :=
  if peek_is s x2d then (true, drop 1 s) else if peek_is s x2b then (false, drop 1 s) else (false, s).

(** The fraction digits after an optional point. *)
Definition span_fraction (s : bytes) : bytes * bytes :=
  if peek_is s x2e then span_digits (drop 1 s) else ([], s).

Definition scanJulianNumber (s : bytes) : bool :=
  let '(_, s) := skip_sign s in
  let '(d1, s) := span_digits s in
  let '(d2, s) := span_fraction s in
  if len d1 + len d2 =? 0 then false
  else if peek_is s x65 || peek_is s x45 then
    let '(_, s) := skip_sign (drop 1 s) in
    let '(d3, s) := span_digits s in
    if len d3 =? 0 then false else empty s
  else empty s.

(** binary64 arithmetic, round to nearest even. *)
Definition f64_prec : Z := 53.
Definition f64_emax : Z := 1024.
Definition f64_of_Z (z : Z) : spec_float := binary_normalize f64_prec f64_emax z 0 false.
Definition f64_mul (x y : spec_float) : spec_float := SFmul f64_prec f64_emax x y.
Definition f64_add (x y : spec_float) : spec_float := SFadd f64_prec f64_emax x y.
Definition f64_half : spec_float := SFdiv f64_prec f64_emax (f64_of_Z 1) (f64_of_Z 2).

(** Go's conversion of a float in range to int64: truncation toward zero. *)
Definition f64_trunc (x : spec_float) : Z :=
  match x with
  | S754_finite s m e =>
      let v := if e >=? 0 then Z.pos m * 2 ^ e else Z.pos m / 2 ^ (- e) in
      if s then - v else v
  | _ => 0
  end.

(** The exponent loop stops growing at 10000, as strconv's does. *)
Definition exp_val (ds : bytes) : Z :=
  foldl (fun e c => if e <? 10000 then e * 10 + (bz c - 48) else e) 0 ds.

(** [strconv.ParseFloat(s, 64)] on the decimal spellings [scanJulianNumber]
    admits: the closest binary64 value; [None] is ErrRange. *)
Definition ParseFloat (s : bytes) : option spec_float :=
  let '(neg, s) := skip_sign s in
  let '(d1, s) := span_digits s in
  let '(d2, s) := span_fraction s in
  let e :=
    if peek_is s x65 || peek_is s x45 then
      let '(eneg, s) := skip_sign (drop 1 s) in
      let v := exp_val (fst (span_digits s)) in if eneg then - v else v
    else 0 in
  let e := e - len d2 in
  let r :=
    match default 0 (dec_val 0 (d1 ++ d2)) with
    | Z.pos m =>
        if e >=? 0
        then binary_normalize f64_prec f64_emax ((if neg then -1 else 1) * (Z.pos m * 10 ^ e)) 0 neg
        else match 10 ^ (- e) with
             | Z.pos p => SFdiv f64_prec f64_emax (S754_finite neg m 0) (S754_finite false p 0)
             | _ => S754_nan
             end
    | _ => S754_zero neg
    end in
  match r with S754_infinity _ => None | _ => Some r end.

(** [None] when the token is not a bare number.  The product and the sum are
    rounded separately, as they are where the compiler does not fuse them. *)
Definition parseJulianTimestamp (s : bytes) : option (result time) :=
  if negb (scanJulianNumber s) then None
  else
    let bad := Some (Err (Errorf "Julian day out of range: %q" [AStr s])) in
    match ParseFloat s with
    | None => bad
    | Some r =>
        if negb (SFltb (S754_zero false) r && SFltb r (f64_of_Z 5373485)) then bad
        else
          let ms := f64_trunc (f64_add (f64_mul r (f64_of_Z millisPerJulianDay)) f64_half) in
          if (ms <=? 0) || (ms >=? maxJulianMillis) then bad
          else Some (Ok (UnixMilli (ms - julianEpochMillis)))
    end.

Definition parseTimestamp (s : bytes) : result time :=
  let? calendar := parseCalendarTimestamp s in
  match calendar with
  | Some t => Ok t
  | None =>
      match parseJulianTimestamp s with
      | Some r => r
      | None => Err (Errorf "cannot parse timestamp %q" [AStr s])
      end
  end.

(** ** Writing: marshalTimestamp and fractionDigits *)

(** Go's zero-padded [%0wd] with a sign, as [Time.Format] writes a year. *)
Definition pad_signed (w : nat) (v : Z) : bytes :=
  if v <? 0 then x2d :: pad_dec w (- v) else pad_dec w v.

(** [t.Format("2006-01-02T15:04:05")] *)
Definition format_seconds (t : time) : bytes :=
  let secs := t / ns_per_sec in
  let '(year, month, day) := date_of_days (secs / secs_per_day) in
  let s := secs mod secs_per_day in
  pad_signed 4 year ++ bs "-" ++ pad_dec 2 month ++ bs "-" ++ pad_dec 2 day ++ bs "T"
  ++ pad_dec 2 (s / 3600) ++ bs ":" ++ pad_dec 2 (s mod 3600 / 60) ++ bs ":" ++ pad_dec 2 (s mod 60).

Definition Nanosecond (t : time) : Z := t mod ns_per_sec.

(** [for end > minDigits && digits[end-1] == '0' { end-- }] *)
Fixpoint trim_zeros (e : nat) (minDigits : nat) (digits : bytes) : nat :=
  match e with
  | O => O
  | S e' => if (minDigits <? e)%nat && opt_byte_eqb (digits !! e') x30
            then trim_zeros e' minDigits digits else e
  end.

Definition fractionDigits (nsec : Z) (minDigits : nat) : bytes :=
  let digits := pad_dec 9 nsec in
  take (trim_zeros (length digits) minDigits digits) digits.

Definition marshalTimestamp (t : time) (minFracDigits : nat) : bytes :=
  let base := format_seconds t in
  match fractionDigits (Nanosecond t) minFracDigits with
  | [] => base
  | frac => base ++ bs "." ++ frac
  end.

(** * Timestamps: the calendar is a bijection, and writing then reading a time
    gives the time back *)

(** ** The calendar *)
Fixpoint all_from (n : nat) (z : Z) (p : Z -> bool) : bool :=
  match n with O => true | S n' => if p z then all_from n' (z + 1) p else false end.

Lemma all_from_spec n z p x : all_from n z p = true -> z <= x < z + Z.of_nat n -> p x = true.
Proof.
  revert z. induction n as [|n IH]; intros z; cbn [all_from]; [lia|].
  destruct (p z) eqn:E; [|done]. intros H Hx.
  destruct (Z.eq_dec x z) as [->|]; [done|]. apply (IH (z + 1)); [done|lia].
Qed.

(** The days of a year, by running all of them, common and leap. *)
Definition before (leap : bool) (m : Z) : Z := days_before m + (if leap && (m >? 2) then 1 else 0).

Definition year_day_ok (leap : bool) (yday : Z) : bool :=
  let '(m, d) := month_of leap yday in
  (before leap m + (d - 1) =? yday) && (1 <=? m) && (m <=? 12) && (1 <=? d) && (d <=? 31).

Lemma year_days_ok : all_from 365 0 (year_day_ok false) && all_from 366 0 (year_day_ok true) = true.
Proof. vm_compute. reflexivity. Qed.

Lemma month_of_spec (leap : bool) yday m d : 0 <= yday <= 364 + (if leap then 1 else 0) ->
  month_of leap yday = (m, d) ->
  before leap m + (d - 1) = yday /\ 1 <= m <= 12 /\ 1 <= d <= 31.
Proof.
  intros Hy Hm. assert (year_day_ok leap yday = true) as Hc.
  { pose proof year_days_ok as [H1 H2]%andb_true_iff.
    destruct leap; [apply (all_from_spec _ _ _ _ H2)|apply (all_from_spec _ _ _ _ H1)]; lia. }
  unfold year_day_ok in Hc. rewrite Hm in Hc. zbool. lia.
Qed.

(** The year within a cycle: the century, the four-year and the one-year steps. *)
Lemma year_of_cycle_spec r y yday : 0 <= r < 146097 -> year_of_cycle r = (y, yday) ->
  0 <= y <= 399 /\ 365 * y + y / 4 - y / 100 + yday = r
  /\ 0 <= yday <= 364 + (if isLeap (y + 1) then 1 else 0).
Proof.
  intros Hr H. unfold year_of_cycle in H. cbv zeta in H.
  assert (Hstep : forall n, 0 <= n <= 4 -> n - Z.shiftr n 2 = Z.min n 3).
  { intros n Hn. assert (n = 0 \/ n = 1 \/ n = 2 \/ n = 3 \/ n = 4) as [-> | [-> | [-> | [-> | ->]]]]
      by lia; reflexivity. }
  assert (0 <= r / 36524 <= 4) as Hn1 by (Z.to_euclidean_division_equations; lia).
  rewrite (Hstep _ Hn1) in H. set (n1 := Z.min (r / 36524) 3) in H.
  assert (0 <= n1 <= 3 /\ 0 <= r - 36524 * n1 <= 36523 + (if n1 =? 3 then 1 else 0)) as [Hn1' Hr1].
  { subst n1. Z.to_euclidean_division_equations. destruct (Z.min _ _ =? 3) eqn:E; lia. }
  set (r1 := r - 36524 * n1) in *.
  assert (0 <= r1 / 1461 <= 24) as Hn2.
  { clearbody r1 n1. destruct (n1 =? 3); Z.to_euclidean_division_equations; lia. }
  set (n2 := r1 / 1461) in *.
  assert (0 <= r1 - 1461 * n2 <= 1460) as Hr2 by (subst n2; Z.to_euclidean_division_equations; lia).
  set (r2 := r1 - 1461 * n2) in *.
  assert (0 <= r2 / 365 <= 4) as Hn3 by (Z.to_euclidean_division_equations; lia).
  rewrite (Hstep _ Hn3) in H. set (n3 := Z.min (r2 / 365) 3) in H.
  assert (0 <= n3 <= 3 /\ 0 <= r2 - 365 * n3 <= 364 + (if n3 =? 3 then 1 else 0)) as [Hn3' Hr3].
  { subst n3. clearbody r2. Z.to_euclidean_division_equations. destruct (Z.min _ _ =? 3) eqn:E; lia. }
  assert (Hl : r2 - 365 * n3 = 365 -> isLeap (100 * n1 + 4 * n2 + n3 + 1) = true).
  { intros Heq. destruct (n3 =? 3) eqn:E3; [|lia]. apply Z.eqb_eq in E3.
    assert (n2 < 24 \/ n1 = 3) as Hc.
    { destruct (n1 =? 3) eqn:E1; [right; lia|]. left. subst r2. lia. }
    assert (n1 = 0 \/ n1 = 1 \/ n1 = 2 \/ n1 = 3) as Hcase by lia.
    rewrite E3. clear - Hn2 Hc Hcase. clearbody n2 n1.
    unfold isLeap. replace ((100 * n1 + 4 * n2 + 3 + 1) mod 4) with 0
      by (Z.to_euclidean_division_equations; lia).
    simpl. destruct (Z.eqb_spec ((100 * n1 + 4 * n2 + 3 + 1) mod 100) 0) as [E|]; [|done].
    simpl. apply Z.eqb_eq. Z.to_euclidean_division_equations; lia. }
  injection H as Hy Hd. clearbody n1 n2 n3.
  assert (y = 100 * n1 + 4 * n2 + n3) as -> by lia.
  assert ((100 * n1 + 4 * n2 + n3) / 4 = 25 * n1 + n2) as ->
    by (Z.to_euclidean_division_equations; lia).
  assert ((100 * n1 + 4 * n2 + n3) / 100 = n1) as -> by (Z.to_euclidean_division_equations; lia).
  split; [lia|]. split; [lia|]. split; [lia|].
  destruct (Z.eq_dec yday 365) as [->|]; [rewrite Hl by lia; lia|].
  destruct (n3 =? 3); destruct (isLeap _); lia.
Qed.

Lemma isLeap_cycle q y : isLeap (400 * q + y) = isLeap y.
Proof.
  unfold isLeap.
  replace ((400 * q + y) mod 4) with (y mod 4)
    by (replace (400 * q + y) with (y + (100 * q) * 4) by lia; by rewrite Z.mod_add by lia).
  replace ((400 * q + y) mod 100) with (y mod 100)
    by (replace (400 * q + y) with (y + (4 * q) * 100) by lia; by rewrite Z.mod_add by lia).
  replace ((400 * q + y) mod 400) with (y mod 400)
    by (replace (400 * q + y) with (y + q * 400) by lia; by rewrite Z.mod_add by lia).
  done.
Qed.

Lemma days_of_date_cycle q y m d : days_of_date (400 * q + y) m d = 146097 * q + days_of_date y m d.
Proof.
  unfold days_of_date. rewrite isLeap_cycle. cbv zeta.
  replace (400 * q + y - 1) with (y - 1 + (100 * q) * 4) by lia.
  rewrite Z.div_add by lia.
  replace (y - 1 + 100 * q * 4) with (y - 1 + (4 * q) * 100) by lia.
  rewrite Z.div_add by lia.
  replace (y - 1 + 4 * q * 100) with (y - 1 + q * 400) by lia.
  rewrite Z.div_add by lia. lia.
Qed.

Lemma date_of_days_spec days y m d : date_of_days days = (y, m, d) ->
  days_of_date y m d = days /\ 1 <= m <= 12 /\ 1 <= d <= 31.
Proof.
  unfold date_of_days. intros H.
  assert (Hr : 0 <= days mod 146097 < 146097) by (apply Z.mod_pos_bound; lia).
  destruct (year_of_cycle (days mod 146097)) as [yc yday] eqn:Hy.
  destruct (year_of_cycle_spec _ _ _ Hr Hy) as (Hyc & Hsum & Hyd).
  cbv zeta in H. rewrite <- Z.add_assoc, isLeap_cycle in H.
  destruct (month_of (isLeap (yc + 1)) yday) as [m' d'] eqn:Hm. injection H as <- <- <-.
  destruct (month_of_spec _ _ _ _ Hyd Hm) as (Hb & Hm' & Hd').
  split; [|done]. rewrite days_of_date_cycle.
  pose proof (Z.div_mod days 146097 ltac:(lia)).
  unfold days_of_date, before in *. cbv zeta. rewrite Z.add_simpl_r, (Z.div_small yc 400) by lia.
  lia.
Qed.

(** ** Reading back fixed-width fields *)
Lemma ts_digits_app (w : nat) n rest : 0 <= n < 10 ^ Z.of_nat w ->
  ts_digits (low_digits w n ++ rest) w = Some (n, rest).
Proof.
  intros Hn. unfold ts_digits.
  pose proof (low_digits_length w n) as Hl.
  destruct (Z.ltb_spec (len (low_digits w n ++ rest)) (Z.of_nat w)) as [H|_].
  { unfold len in H. rewrite length_app, Hl in H. lia. }
  rewrite <- Hl at 1. rewrite take_app_length, dec_val_low_digits by done.
  rewrite <- Hl at 2. by rewrite drop_app_length, Z.mul_0_l.
Qed.

(** [digits] never reads past the end. *)
Lemma digits_loop_ok left : forall c k v, 0 <= k -> k + Z.of_nat left <= len c ->
  digits_loop c k left v = match dec_val v (take left (drop (Z.to_nat k) c)) with Some r => Ok r | None => Err () end.
Proof.
  induction left as [|left IH]; intros c k v Hk Hl; [done|].
  cbn [digits_loop]. destruct (elem_at_some (E:=()) c k) as (x & Hx & ->); [lia|]. cbn [obind].
  rewrite (drop_S c x) by done. cbn [take dec_val]. destruct (is_digit x); [|done]. cbn [negb].
  rewrite IH by lia. replace (Z.to_nat (k + 1)) with (S (Z.to_nat k)) by lia. done.
Qed.

Lemma digits_ts c n : digits c n = match ts_digits c n with Some r => Ok r | None => Err () end.
Proof.
  unfold digits, ts_digits. rewrite Z.gtb_ltb. destruct (Z.ltb_spec (len c) (Z.of_nat n)); [done|].
  rewrite digits_loop_ok by lia. rewrite drop_0. by destruct (dec_val _ _).
Qed.

Lemma digits_app (w : nat) n rest : 0 <= n < 10 ^ Z.of_nat w ->
  digits (low_digits w n ++ rest) w = Ok (n, rest).
Proof. intros. by rewrite digits_ts, ts_digits_app. Qed.

Lemma fractionNanos_ok c : fractionNanos c =
  let '(frac, rest) := span_digits c in
  if len frac =? 0 then Err () else Ok (nanos 9 (take 9 frac) 0, rest).
Proof.
  unfold fractionNanos. destruct (span_digits c) as [frac rest]. destruct (len frac =? 0); [done|].
  rewrite Z.gtb_ltb. destruct (Z.ltb_spec 9 (len frac)).
  - rewrite slice_of_ok by lia. done.
  - cbn [obind]. by rewrite take_ge by (unfold len in *; lia).
Qed.

(** The readers return. *)
Lemma digits_returns c n : returns (digits c n).
Proof. rewrite digits_ts. by destruct (ts_digits c n). Qed.

Lemma parseZone_returns c : returns (parseZone c).
Proof.
  unfold parseZone. cbv zeta. destruct (skip_zone_space c) as [|z c1]; [done|].
  destruct (_ || _); [by destruct c1|]. destruct (_ || _); [|done].
  apply returns_bind; [apply digits_returns|]. intros [zh c2] _. destruct (negb _); [done|].
  apply returns_bind; [apply digits_returns|]. intros [zm [|]] _; done.
Qed.

Lemma parseSeconds_returns c : returns (parseSeconds c).
Proof.
  unfold parseSeconds. destruct (negb _); [done|]. apply returns_bind; [apply digits_returns|].
  intros [sec c2] _. destruct (_ >? _); [done|]. destruct (negb _); [done|].
  apply returns_bind; [|by intros []]. rewrite fractionNanos_ok. destruct (span_digits _). by destruct (_ =? _).
Qed.

Lemma parseTimeAndZone_returns c : returns (parseTimeAndZone c).
Proof.
  unfold parseTimeAndZone. apply returns_bind; [apply digits_returns|]. intros [hour c1] _.
  destruct (_ || _); [done|]. apply returns_bind; [apply digits_returns|]. intros [min c2] _.
  destruct (_ >? _); [done|]. apply returns_bind; [apply parseSeconds_returns|]. intros [[sec nsec] c3] _.
  apply returns_bind; [apply parseZone_returns|done].
Qed.

Lemma unless_returns {A B} (m : declines A) (d : result B) k :
  returns m -> returns d -> (forall a, returns (k a)) -> returns (unless m d k).
Proof. destruct m; simpl; auto. Qed.

Lemma parseCalendarTimestamp_returns s : returns (parseCalendarTimestamp s).
Proof.
  unfold parseCalendarTimestamp. cbv zeta.
  apply unless_returns; [apply digits_returns|done|]. intros [year c]. destruct (negb _); [done|].
  apply unless_returns; [apply digits_returns|done|]. intros [month c']. destruct (_ || _); [done|].
  apply unless_returns; [apply digits_returns|done|]. intros [day c'']. destruct (_ || _); [done|].
  destruct (negb _); [done|]. destruct c''; [done|]. destruct (negb _); [done|].
  apply unless_returns; [apply parseTimeAndZone_returns|done|]. by intros [[[[] ] ] ].
Qed.

Lemma pad_dec_small w n : 0 <= n < 10 ^ Z.of_nat w -> pad_dec w n = low_digits w n.
Proof. intros. unfold pad_dec. by destruct (Z.ltb_spec n (10 ^ Z.of_nat w)); [|lia]. Qed.

Lemma ts_digits_pad (w : nat) n rest : 0 <= n < 10 ^ Z.of_nat w ->
  ts_digits (pad_dec w n ++ rest) w = Some (n, rest).
Proof. intros. rewrite pad_dec_small by done. by apply ts_digits_app. Qed.

(** ** Fractions *)
Lemma span_digits_all ds : Forall (fun c => is_digit c = true) ds -> span_digits ds = (ds, []).
Proof. induction 1 as [|c ds Hc _ IH]; [done|]. simpl. by rewrite Hc, IH. Qed.

(** Nine-place scaling of a run of digits is its value followed by zeros. *)
Lemma nanos_spec k frac acc v : Forall (fun c => is_digit c = true) frac -> (length frac <= k)%nat ->
  dec_val acc frac = Some v -> nanos k frac acc = v * 10 ^ Z.of_nat (k - length frac).
Proof.
  revert frac acc v. induction k as [|k IH]; intros frac acc v Hf Hl Hv.
  - destruct frac; [|simpl in Hl; lia]. simpl in *. injection Hv as ->. lia.
  - destruct frac as [|c frac]; cbn [nanos].
    + injection Hv as ->. rewrite (IH [] (v * 10) (v * 10)); [|constructor|simpl; lia|done].
      simpl length. rewrite !Nat.sub_0_r, Nat2Z.inj_succ, Z.pow_succ_r by lia. lia.
    + inversion Hf as [|? ? Hc Hf']; subst. cbn [dec_val] in Hv. rewrite Hc in Hv.
      simpl length in *. apply IH; [done|lia|done].
Qed.

Lemma nanos_trailing_zero k frac acc : (length frac < k)%nat ->
  nanos k (frac ++ [x30]) acc = nanos k frac acc.
Proof.
  revert frac acc. induction k as [|k IH]; intros frac acc Hl; [lia|].
  destruct frac as [|c frac]; cbn [nanos app].
  - f_equal. change (bz x30) with 48. lia.
  - apply IH. simpl in Hl. lia.
Qed.

Lemma nanos_trim e minDigits digits acc : (e <= length digits)%nat -> (length digits <= 9)%nat ->
  nanos 9 (take (trim_zeros e minDigits digits) digits) acc = nanos 9 (take e digits) acc.
Proof.
  intros He Hl. induction e as [|e IH]; [done|]. cbn [trim_zeros].
  destruct ((minDigits <? S e)%nat && opt_byte_eqb (digits !! e) x30) eqn:E; [|done].
  rewrite IH by lia. apply andb_true_iff in E as [_ E].
  destruct (digits !! e) as [c|] eqn:Hc; [|done]. simpl in E. apply byte_eqb_eq in E. subst c.
  rewrite (take_S_r _ _ _ Hc). rewrite nanos_trailing_zero; [done|].
  rewrite length_take. lia.
Qed.

Lemma trim_zeros_le e minDigits digits : (trim_zeros e minDigits digits <= e)%nat.
Proof. induction e as [|e IH]; [done|]. cbn [trim_zeros]. case_match; lia. Qed.

Lemma fractionDigits_facts nsec minDigits : 0 <= nsec < ns_per_sec ->
  Forall (fun c => is_digit c = true) (fractionDigits nsec minDigits)
  /\ (length (fractionDigits nsec minDigits) <= 9)%nat
  /\ nanos 9 (fractionDigits nsec minDigits) 0 = nsec.
Proof.
  intros Hn. unfold fractionDigits. cbv zeta.
  rewrite pad_dec_small by (change (Z.of_nat 9) with 9; unfold ns_per_sec in Hn; lia).
  pose proof (low_digits_length 9 nsec) as Hl. pose proof (low_digits_digits 9 nsec) as Hd.
  split; [by apply Forall_take|]. split; [rewrite length_take; lia|].
  rewrite nanos_trim by lia. rewrite firstn_all.
  rewrite (nanos_spec 9 _ 0 nsec).
  - rewrite Hl. simpl. lia.
  - done.
  - lia.
  - rewrite dec_val_low_digits; [f_equal; lia|]. change (Z.of_nat 9) with 9.
    unfold ns_per_sec in Hn. lia.
Qed.

(** ** Writing then reading *)
Lemma peek_is_cons c l b : peek_is (c :: l) b = Byte.eqb c b.
Proof. done. Qed.

Lemma drop1_cons (c : byte) l : drop 1 (c :: l) = l.
Proof. done. Qed.

Lemma digit_not_separator c : is_digit c = true -> isTimestampSeparator c = false.
Proof. by_bytes c. Qed.

Lemma low_digits_head w n : exists c l, low_digits (S w) n = c :: l /\ is_digit c = true.
Proof.
  pose proof (low_digits_digits (S w) n) as Hd. pose proof (low_digits_length (S w) n) as Hl.
  destruct (low_digits (S w) n) as [|c l]; [done|]. inversion Hd; subst. eauto.
Qed.

Lemma skip_separators_digits w n rest :
  skip_separators (low_digits (S w) n ++ rest) = low_digits (S w) n ++ rest.
Proof.
  destruct (low_digits_head w n) as (c & l & -> & Hc). simpl. by rewrite digit_not_separator.
Qed.

(** The fraction as [marshalTimestamp] appends it. *)
Definition fraction_suffix (frac : bytes) : bytes :=
  match frac with [] => [] | _ => bs "." ++ frac end.

Lemma parseSeconds_spec sec frac : 0 <= sec <= 59 ->
  Forall (fun c => is_digit c = true) frac -> (length frac <= 9)%nat ->
  parseSeconds (x3a :: low_digits 2 sec ++ fraction_suffix frac) = Ok (sec, nanos 9 frac 0, []).
Proof.
  intros Hs Hd Hl. unfold parseSeconds. rewrite peek_is_cons, drop1_cons, byte_eqb_refl. cbn [negb].
  rewrite digits_app by (simpl; lia). cbn [obind].
  replace (sec >? 59) with false by lia.
  destruct frac as [|c frac]; cbn [fraction_suffix]; [done|].
  change (bs "." ++ c :: frac) with (x2e :: c :: frac).
  rewrite peek_is_cons, drop1_cons, byte_eqb_refl. cbn [negb].
  rewrite fractionNanos_ok, span_digits_all by done. by rewrite firstn_all2 by lia.
Qed.

Lemma parseTimeAndZone_spec hour min sec frac :
  0 <= hour <= 24 -> 0 <= min <= 59 -> 0 <= sec <= 59 ->
  Forall (fun c => is_digit c = true) frac -> (length frac <= 9)%nat ->
  parseTimeAndZone (low_digits 2 hour ++ x3a :: low_digits 2 min ++ x3a :: low_digits 2 sec
                    ++ fraction_suffix frac)
  = Ok (hour, min, sec, nanos 9 frac 0, 0).
Proof.
  intros Hh Hm Hs Hd Hl. unfold parseTimeAndZone.
  rewrite digits_app by (simpl; lia). cbn [obind]. rewrite peek_is_cons, drop1_cons, byte_eqb_refl.
  replace (hour >? 24) with false by lia. cbn [negb orb].
  rewrite digits_app by (simpl; lia). cbn [obind]. replace (min >? 59) with false by lia.
  by rewrite parseSeconds_spec.
Qed.

(** Times whose written form the grammar admits: after -4713-11-24 and before
    the year 10000. *)
Definition time_ok (t : time) : bool :=
  let '(y, m, d) := date_of_days (t / ns_per_sec / secs_per_day) in
  afterJulianEpoch y m d && (y <=? 9999).

Lemma afterJulianEpoch_year y m d : afterJulianEpoch y m d = true -> -4713 <= y.
Proof. unfold afterJulianEpoch. destruct (Z.eqb_spec y (-4713)); simpl; lia. Qed.

Lemma parse_date_part y m d c :
  -4713 <= y <= 9999 -> 1 <= m <= 12 -> 1 <= d <= 31 -> afterJulianEpoch y m d = true ->
  parseCalendarTimestamp (pad_signed 4 y ++ bs "-" ++ pad_dec 2 m ++ bs "-" ++ pad_dec 2 d ++ x54 :: c)
  = unless (parseTimeAndZone (skip_separators c))
      (Err (Errorf "invalid timestamp %q"
                [AStr (pad_signed 4 y ++ bs "-" ++ pad_dec 2 m ++ bs "-" ++ pad_dec 2 d ++ x54 :: c)]))
      (fun '(hour, min, sec, nsec, offset) => Ok (Some (Date y m d hour min sec nsec offset))).
Proof.
  intros Hy Hm Hd Ha. unfold parseCalendarTimestamp. cbv zeta.
  set (s := pad_signed 4 y ++ _).
  assert ((if peek_is s x2d then drop 1 s else s)
          = low_digits 4 (Z.abs y) ++ bs "-" ++ pad_dec 2 m ++ bs "-" ++ pad_dec 2 d ++ x54 :: c
          /\ (if peek_is s x2d then - Z.abs y else Z.abs y) = y) as [-> Hsign].
  { subst s. unfold pad_signed. destruct (Z.ltb_spec y 0) as [Hneg|Hpos].
    - rewrite pad_dec_small by (simpl; lia).
      rewrite <- app_comm_cons, peek_is_cons, drop1_cons, byte_eqb_refl.
      split; [|lia]. by rewrite Z.abs_neq by lia.
    - rewrite pad_dec_small by (simpl; lia). rewrite Z.abs_eq by lia.
      destruct (low_digits_head 3 y) as (b & l & Hl & Hb). rewrite Hl.
      rewrite <- app_comm_cons, peek_is_cons.
      assert (Byte.eqb b x2d = false) as -> by (revert Hb; by_bytes b). done. }
  rewrite digits_app by (simpl; lia). cbn [unless].
  change (bs "-" ++ ?x) with (x2d :: x). rewrite peek_is_cons, drop1_cons, byte_eqb_refl. cbn [negb].
  rewrite Hsign. rewrite !pad_dec_small by (simpl; lia). rewrite digits_app by (simpl; lia). cbn [unless].
  change (bs "-" ++ ?x) with (x2d :: x). rewrite peek_is_cons, drop1_cons, byte_eqb_refl. cbn [negb].
  replace ((m <? 1) || (m >? 12) || false) with false by lia.
  rewrite digits_app by (simpl; lia). cbn [unless].
  replace ((d <? 1) || (d >? 31)) with false by lia. rewrite Ha. cbn [negb isTimestampSeparator skip_separators].
  done.
Qed.

Lemma marshalTimestamp_suffix t k : marshalTimestamp t k
  = format_seconds t ++ fraction_suffix (fractionDigits (Nanosecond t) k).
Proof.
  unfold marshalTimestamp, fraction_suffix. cbv zeta.
  destruct (fractionDigits _ _); [by rewrite app_nil_r|done].
Qed.

Lemma parse_marshal_calendar t k : time_ok t = true ->
  parseCalendarTimestamp (marshalTimestamp t k) = Ok (Some t).
Proof.
  intros Hok. rewrite marshalTimestamp_suffix. unfold format_seconds. cbv zeta.
  unfold time_ok in Hok. destruct (date_of_days _) as [[y m] d] eqn:Hdate.
  apply andb_true_iff in Hok as [Ha Hy%Z.leb_le].
  destruct (date_of_days_spec _ _ _ _ Hdate) as (Hdays & Hm & Hd).
  pose proof (afterJulianEpoch_year _ _ _ Ha).
  rewrite <- !app_assoc. change (bs "T" ++ ?x) with (x54 :: x).
  rewrite parse_date_part by (done || lia).
  assert (Hs : 0 <= (t / ns_per_sec) mod secs_per_day < secs_per_day) by (by apply Z.mod_pos_bound).
  assert (Hn : 0 <= Nanosecond t < ns_per_sec) by (by apply Z.mod_pos_bound).
  destruct (fractionDigits_facts (Nanosecond t) k Hn) as (Hfd & Hfl & Hfn).
  set (secs := (t / ns_per_sec) mod secs_per_day) in *. unfold secs_per_day in Hs.
  assert (0 <= secs / 3600 <= 23 /\ 0 <= secs mod 3600 / 60 <= 59 /\ 0 <= secs mod 60 <= 59
          /\ secs = (secs / 3600) * 3600 + (secs mod 3600 / 60) * 60 + secs mod 60) as (Hh & Hmi & Hse & Hsum).
  { clearbody secs. Z.to_euclidean_division_equations; lia. }
  change (bs ":" ++ ?x) with (x3a :: x). change (bs ":" ++ ?x) with (x3a :: x).
  rewrite !(pad_dec_small 2) by (simpl; lia).
  rewrite skip_separators_digits, parseTimeAndZone_spec by (done || lia).
  cbn [unless]; do 2 f_equal. unfold Date. rewrite Hdays, Hfn.
  pose proof (Z.div_mod (t / ns_per_sec) secs_per_day ltac:(done)) as E1.
  pose proof (Z.div_mod t ns_per_sec ltac:(done)) as E2.
  fold secs in E1. unfold Nanosecond. unfold secs_per_day in *. lia.
Qed.

Lemma parse_marshal_time t k : time_ok t = true -> parseTimestamp (marshalTimestamp t k) = Ok t.
Proof. intros H. unfold parseTimestamp. by rewrite parse_marshal_calendar. Qed.

(** A time the written form can express (after -4713-11-24, before the year
    10000) is read back to the nanosecond from what marshalTimestamp writes,
    at the D card's three fraction digits, the E card's none, or any other
    minimum. *)
Theorem timestamp_roundtrip (t : time) (minFracDigits : nat) :
  time_ok t = true -> parseTimestamp (marshalTimestamp t minFracDigits) = Ok t.
Proof. apply parse_marshal_time. Qed.

Lemma timestamp_roundtrip_witness :
  marshalTimestamp 63849223567123456000 3 = bs "2024-04-20T15:26:07.123456"
  /\ parseTimestamp (marshalTimestamp 63849223567123456000 3) = Ok 63849223567123456000.
Proof.
  split; [vm_compute; reflexivity|].
  apply (timestamp_roundtrip 63849223567123456000 3). vm_compute. reflexivity.
Defined.

(** the grammar's edges: a zone offset, hour 24, an unchecked day and a
    Julian day are accepted and normalised, and some of them then denote a time
    whose own written form is refused. *)
Theorem timestamp_edges :
  parseTimestamp (bs "2024-02-31T24:00:00.1234567899+01:30") = parseTimestamp (bs "2024-03-02T22:30:00.123456789")
  /\ parseTimestamp (bs "2460000.5") = parseTimestamp (bs "2023-02-25")
  /\ (exists t, parseTimestamp (bs "9999-12-31T24:00") = Ok t
        /\ marshalTimestamp t 0 = bs "10000-01-01T00:00:00"
        /\ parseTimestamp (marshalTimestamp t 0)
           = Err (Errorf "cannot parse timestamp %q" [AStr (marshalTimestamp t 0)]))
  /\ (exists t, parseTimestamp (bs "0.2") = Ok t
        /\ marshalTimestamp t 0 = bs "-4713-11-24T16:48:00"
        /\ parseTimestamp (marshalTimestamp t 0)
           = Err (Errorf "invalid timestamp %q" [AStr (marshalTimestamp t 0)])).
Proof.
  split; [vm_compute; reflexivity|]. split; [vm_compute; reflexivity|].
  split; eexists; (split; [vm_compute; reflexivity|]); split; vm_compute; reflexivity.
Qed.
