(* ===== verification/Marshal.v ===== *)
(** * Writing an artifact: src/internal/deck/marshal.go

    Each writer of the source appends to a builder; here it is the text it
    appends.  [sort.Slice] is the [GoSort] interface, the non-ASCII part of
    [strings.ToLower] the [GoUnicode] one. *)

From S2P Require Import Prelude GoStd GoText GoCrypto Deck Escape Pathname Timestamp Clearsign.

(** One card line: its letter, a space, its tokens joined by spaces, LF. *)
Definition nl : bytes := [lf].

(** [strings.Join(l, " ")] *)
Fixpoint join_sp (l : list bytes) : bytes :=
  match l with
  | [] => []
  | [x] => x
  | x :: l' => x ++ bs " " ++ join_sp l'
  end.

Section marshal.
Context `{GoSort} `{GoUnicode}.

Definition marshalCardsABCDE (d : Deck) : bytes :=
  match d_A d with
  | Some a =>
      bs "A " ++ FossilEncode (a_Filename a) ++ bs " " ++ FossilEncode (a_Target a)
      ++ (if negb (empty (a_Source a)) then bs " " ++ a_Source a else []) ++ nl
  | None => []
  end
  ++ (if negb (empty (d_B d)) then bs "B " ++ d_B d ++ nl else [])
  ++ (if negb (empty (d_C d)) || d_cPresent d then bs "C " ++ FossilEncode (d_C d) ++ nl else [])
  ++ (if negb (IsZero (d_D d)) then bs "D " ++ marshalTimestamp (d_D d) 3 ++ nl else [])
  ++ match d_E d with
     | Some e => bs "E " ++ marshalTimestamp (e_Date e) 0 ++ bs " " ++ e_UUID e ++ nl
     | None => []
     end.

Definition writeFileCard (f : FileCard) (encode : bytes -> bytes) : bytes :=
  bs "F " ++ encode (f_Name f)
  ++ (if negb (empty (f_UUID f)) then
        let perm := if empty (f_Perm f) && negb (empty (f_OldName f)) then bs "w" else f_Perm f in
        bs " " ++ f_UUID f
        ++ (if negb (empty perm) then bs " " ++ perm else [])
        ++ (if negb (empty (f_OldName f)) then bs " " ++ encode (f_OldName f) else [])
      else [])
  ++ nl.

Definition marshalCardF (d : Deck) : bytes :=
  let encode := if bool_decide (d_Type d = Submanifest) then CanonicalEncode else FossilEncode in
  sort_slice file_less (d_F d) ≫= (fun f => writeFileCard f encode).

Definition marshalCardsGHIJKL (d : Deck) : bytes :=
  (if negb (empty (d_G d)) then bs "G " ++ d_G d ++ nl else [])
  ++ (if negb (empty (d_H d)) then bs "H " ++ FossilEncode (d_H d) ++ nl else [])
  ++ (if negb (empty (d_I d)) then bs "I " ++ d_I d ++ nl else [])
  ++ (sort_slice field_less (d_J d) ≫= fun j =>
        if negb (empty (j_Value j)) then bs "J " ++ j_Name j ++ bs " " ++ FossilEncode (j_Value j) ++ nl
        else bs "J " ++ j_Name j ++ nl)
  ++ (if negb (empty (d_K d)) then bs "K " ++ ToLower (d_K d) ++ nl else [])
  ++ (if negb (empty (d_L d)) then bs "L " ++ FossilEncode (d_L d) ++ nl else []).

Definition marshalCardsMNPQR (d : Deck) : bytes :=
  (sort_slice hash_less (d_M d) ≫= fun m => bs "M " ++ m ++ nl)
  ++ (if negb (empty (d_N d)) || d_nPresent d then bs "N " ++ FossilEncode (d_N d) ++ nl else [])
  ++ (if negb (len (d_P d) =? 0) then bs "P " ++ join_sp (d_P d) ++ nl
      else if d_pPresent d then bs "P" ++ nl else [])
  ++ (d_Q d ≫= fun q =>
        let prefix := if q_IsBackout q then bs "-" else bs "+" in
        if negb (empty (q_Baseline q))
        then bs "Q " ++ prefix ++ q_Target q ++ bs " " ++ q_Baseline q ++ nl
        else bs "Q " ++ prefix ++ q_Target q ++ nl)
  ++ (if negb (empty (d_R d)) then bs "R " ++ ToLower (d_R d) ++ nl else []).

Definition marshalCardS (d : Deck) : bytes :=
  sort_slice submanifest_less (d_S d) ≫= fun sc =>
    bs "S " ++ CanonicalEncode (s_Name sc) ++ bs " " ++ s_UUID sc ++ nl.

Definition marshalCardsTUW (d : Deck) : bytes :=
  (sort_slice tag_less (d_T d) ≫= fun tag =>
     bs "T " ++ byte_rune (t_Type tag) ++ FossilEncode (t_Name tag) ++ bs " " ++ t_UUID tag
     ++ (if negb (empty (t_Value tag)) || t_valuePresent tag
         then bs " " ++ FossilEncode (t_Value tag) else [])
     ++ nl)
  ++ match d_U d with
     | Some u => if negb (empty u) then bs "U " ++ FossilEncode u ++ nl else []
     | None => []
     end
  ++ match d_W d with
     | Some w => bs "W " ++ dec (len w) ++ nl ++ w ++ nl
     | None => []
     end.

Definition marshalCards (d : Deck) : bytes :=
  marshalCardsABCDE d ++ marshalCardF d ++ marshalCardsGHIJKL d ++ marshalCardsMNPQR d
  ++ marshalCardS d ++ marshalCardsTUW d.

(** The body and its Z card. *)
Definition seal (body : bytes) : bytes := body ++ bs "Z " ++ computeZ body ++ nl.

(** The first tag whose name a hash could be, refused before anything is written. *)
Fixpoint check_tag_names (tags : list TagCard) : result () :=
  match tags with
  | [] => Ok ()
  | tag :: tags' =>
      if isHexToken (t_Name tag)
      then Err (Errorf "T-card name %q must not be entirely hexadecimal" [AStr (t_Name tag)])
      else check_tag_names tags'
  end.

Definition Marshal (d : Deck) : result bytes :=
  let? _ := check_tag_names (d_T d) in
  Ok (seal (marshalCards d)).

Definition marshalSubmanifest (d : Deck) : bytes := seal (marshalCards d).

Definition MarshalLeaf (files : list FileCard) : result bytes :=
  if len files =? 0 then Panic "deck.MarshalLeaf: files must not be empty"
  else if existsb (fun f => empty (f_UUID f)) files
  then Panic "deck.MarshalLeaf: every file must carry a hash"
  else Ok (marshalSubmanifest (set_F files (set_Type Submanifest zero_Deck))).

Definition MarshalInterior (refs : list SubmanifestCard) : result bytes :=
  if len refs =? 0 then Panic "deck.MarshalInterior: refs must not be empty"
  else Ok (marshalSubmanifest (set_S refs (set_Type Submanifest zero_Deck))).

Definition LeafCard (f : FileCard) : bytes := writeFileCard f CanonicalEncode.
End marshal.
