(* ===== verification/Legality.v ===== *)
(** * Card legality: src/internal/deck/legality.go, and inferType of parse.go *)

From S2P Require Import Prelude GoStd Deck.

Record cardTable := mk_cardTable { allowed : Z; required : Z }.

Definition letter_bit (c : byte) : Z := Z.shiftl 1 (bz c - 65).

Definition letterMask (letters : bytes) : Z :=
  foldl (fun m c => Z.lor m (letter_bit c)) 0 letters.

(** The [rows] of [cardTables]: allowed letters, required letters. *)
Definition card_rows (t : ArtifactType) : bytes * bytes :=
  match t with
  | Checkin => (bs "BCDFNPQRSTUZ", bs "DZ")
  | Wiki => (bs "CDLNPUWZ", bs "DLUWZ")
  | Ticket => (bs "DJKUZ", bs "DJKUZ")
  | Event => (bs "CDENPTUWZ", bs "DEWZ")
  | Cluster => (bs "MZ", bs "MZ")
  | ForumPost => (bs "DGHINPUWZ", bs "DUWZ")
  | Attachment => (bs "ACDNUZ", bs "ADZ")
  | Control => (bs "DTUZ", bs "DTUZ")
  | Submanifest => (bs "FSZ", bs "Z")
  end.

Definition cardTables (t : ArtifactType) : cardTable :=
  let '(a, r) := card_rows t in mk_cardTable (letterMask a) (letterMask r).

Definition typeName (t : ArtifactType) : bytes :=
  match t with
  | Checkin => bs "manifest"
  | Wiki => bs "wiki"
  | Ticket => bs "ticket"
  | Event => bs "technote"
  | Cluster => bs "cluster"
  | ForumPost => bs "forum post"
  | Attachment => bs "attachment"
  | Control => bs "control artifact"
  | Submanifest => bs "submanifest"
  end.

Fixpoint lowest_from (n : nat) (i mask : Z) : byte :=
  match n with
  | O => x3f
  | S n' => if negb (Z.land mask (Z.shiftl 1 i) =? 0) then zb (65 + i) else lowest_from n' (i + 1) mask
  end.
Definition lowestLetter (mask : Z) : byte := lowest_from 26 0 mask.

Definition checkTreeManifest (d : Deck) : result () :=
  if len (d_S d) =? 0 then Ok ()
  else if negb (empty (d_B d)) then Err (Errorf "a manifest cannot carry both a B-card and an S-card" [])
  else if len (d_F d) >? 0 then Err (Errorf "a manifest cannot carry both F-cards and S-cards" [])
  else Ok ().

Definition checkSubmanifest (d : Deck) : result () :=
  if (len (d_F d) >? 0) && (len (d_S d) >? 0)
  then Err (Errorf "a sub-manifest cannot carry both F-cards and S-cards" [])
  else if (len (d_F d) =? 0) && (len (d_S d) =? 0)
  then Err (Errorf "a sub-manifest needs an F-card or an S-card" [])
  else Ok ().

Definition selfTags (d : Deck) : Z := len (List.filter (fun t => bool_decide (t_UUID t = bs "*")) (d_T d)).
Definition singletonTags (d : Deck) : Z := len (List.filter (fun t => Byte.eqb (t_Type t) TagSingleton) (d_T d)).

Definition checkSemantics (d : Deck) : result () :=
  match d_Type d with
  | Checkin => checkTreeManifest d
  | Submanifest => checkSubmanifest d
  | Control =>
      if selfTags d >? 0 then Err (Errorf "self-referential T-card in control artifact" []) else Ok ()
  | Event =>
      if negb (len (d_T d) =? selfTags d) then Err (Errorf "non-self-referential T-card in technote" [])
      else if negb (len (d_T d) =? singletonTags d) then Err (Errorf "T-card with '*' or '-' in technote" [])
      else Ok ()
  | ForumPost =>
      if negb (empty (d_H d)) && negb (empty (d_I d))
      then Err (Errorf "a forum post cannot carry both an H-card and an I-card" [])
      else if len (d_P d) >? 1 then Err (Errorf "a forum post has at most one parent" [])
      else Ok ()
  | _ => Ok ()
  end.

(** Every type has a table, so the code's panic on a missing one is not reached. *)
Definition checkType (d : Deck) (seenMask : Z) : result () :=
  let table := cardTables (d_Type d) in
  let extra := Z.ldiff seenMask (allowed table) in
  if negb (extra =? 0)
  then Err (Errorf "%c-card not allowed in %s" [AByte (lowestLetter extra); AStr (typeName (d_Type d))])
  else
    let missing := Z.ldiff (required table) seenMask in
    if negb (missing =? 0)
    then Err (Errorf "%c-card missing in %s" [AByte (lowestLetter missing); AStr (typeName (d_Type d))])
    else checkSemantics d.

Definition inferType (d : Deck) : ArtifactType :=
  if len (d_M d) >? 0 then Cluster
  else if negb (empty (d_G d)) || negb (empty (d_H d)) || negb (empty (d_I d)) then ForumPost
  else if bool_decide (is_Some (d_A d)) then Attachment
  else if (len (d_J d) >? 0) || negb (empty (d_K d)) then Ticket
  else if negb (empty (d_L d)) then Wiki
  else if bool_decide (is_Some (d_E d)) then Event
  else if negb (empty (d_B d)) || (len (d_F d) >? 0) || (len (d_Q d) >? 0) || negb (empty (d_R d))
          || (len (d_S d) >? 0) then Checkin
  else if d_cPresent d || (len (d_P d) >? 0) then Checkin
  else Control.
