(* ===== verification/Parse.v ===== *)
(** * Reading an artifact: src/internal/deck/parse.go

    The scanner, the card parsers and [Parse].  The scanner's buffer and index
    are kept as the bytes still unread; [s_past] is the index one past the end,
    where a further read would be out of range. *)

From S2P Require Import Prelude GoStd GoText Deck Escape Pathname Timestamp Clearsign Legality.

Record manifestScanner := mk_scanner { s_rest : bytes; s_atEol : bool; s_past : bool }.

(** [None] is the card 0: nothing more to read.  The card letter may itself be
    the byte 0, which the callers cannot tell from it. *)
Definition nextCard (s : manifestScanner) : byte * manifestScanner :=
  if negb (s_atEol s) then (x00, s)
  else match s_rest s with
       | c :: x20 :: rest => (c, mk_scanner rest false false)
       | c :: x0a :: rest => (c, mk_scanner rest true false)
       | _ => (x00, s)
       end.

(** The bytes up to the next space or LF. *)
Fixpoint span_token (rest : bytes) : bytes * bytes :=
  match rest with
  | c :: rest' =>
      if token_byte c then let '(t, r) := span_token rest' in (c :: t, r) else ([], rest)
  | [] => ([], [])
  end.

Definition nextToken (s : manifestScanner) : result (option bytes * manifestScanner) :=
  if s_atEol s then Ok (None, s)
  else if s_past s then Panic "slice bounds out of range"
  else
    let '(token, rest) := span_token (s_rest s) in
    match rest with
    | c :: rest' => Ok (Some token, mk_scanner rest' (Byte.eqb c lf) false)
    | [] => Ok (Some token, mk_scanner [] false true)
    end.

Fixpoint tokens_loop (fuel : nat) (s : manifestScanner) : result (list bytes * manifestScanner) :=
  match fuel with
  | O => Diverge
  | S fuel' =>
      let? (tok, s1) := nextToken s in
      match tok with
      | None => Ok ([], s1)
      | Some t => let? (ts, s2) := tokens_loop fuel' s1 in Ok (t :: ts, s2)
      end
  end.

(** Some token but the last is empty. *)
Fixpoint interior_empty (tokens : list bytes) : bool :=
  match tokens with
  | [] | [_] => false
  | t :: ts => empty t || interior_empty ts
  end.

Definition cardTokens (s : manifestScanner) : result (list bytes * manifestScanner) :=
  let? (tokens, s') := tokens_loop (S (S (length (s_rest s)))) s in
  if interior_empty tokens then Err (Errorf "empty token between two others" [])
  else Ok (tokens, s').

(** The W card's size: leading decimal digits, with the 64-bit overflow test. *)
Fixpoint w_size (sizeTok : bytes) (size : Z) : result Z :=
  match sizeTok with
  | [] => Ok size
  | c :: rest =>
      if negb (is_digit c) then Ok size
      else
        let digit := bz c - 48 in
        if size >? (MaxUint64 - digit) / 10 then Err (Errorf "size overflow on W-card" [])
        else w_size rest (u64 (size * 10 + digit))
  end.

(** [uint64(n)] of a length, or of one less: no slice has 2^63 elements, so
    only -1 wraps. *)
Definition uint64_of_len (n : Z) : Z := if n <? 0 then n + 2 ^ 64 else n.

Definition parseW (s : manifestScanner) (d : Deck) : result (Deck * manifestScanner) :=
  if bool_decide (is_Some (d_W d)) then Err (Errorf "more than one W-card" [])
  else
    let? (tok, s) := nextToken s in
    match tok with
    | None => Err (Errorf "missing size on W-card" [])
    | Some sizeTok =>
        if negb (s_atEol s) then Err (Errorf "no content after W-card" [])
        else
          let? size := w_size sizeTok 0 in
          let remaining := len (s_rest s) in
          if (remaining <? 2) || (size >=? uint64_of_len (remaining - 1))
          then Err (Errorf "not enough content after W-card" [])
          else
            let n := size in
            let? ends := byte_is (s_rest s) n lf in
            if negb ends
            then Err (Errorf "W-card content not newline terminated" [])
            else
              let? body := slice_of (s_rest s) 0 n in
              Ok (set_W (Some body) d, mk_scanner (drop (Z.to_nat (n + 1)) (s_rest s)) true false)
    end.

Definition frameArtifact (data : bytes) : result bytes :=
  if len data =? 0 then Err (Errorf "zero-length artifact" [])
  else
    let? ends := byte_is data (len data - 1) lf in
    if negb ends then Err (Errorf "artifact not terminated with a newline" [])
    else
      let? content := never (StripClearsign data) in
      let? other := or_else (Ok (len content <? 10))
                      (or_else (let? c := elem_at content 0 in Ok (negb (in_A_Z c)))
                         (let? b := byte_is content 1 x20 in Ok (negb b))) in
      if other : bool then Err (Errorf "line 1 not recognized" [])
      else let? _ := verifyZ content in Ok content.

(** ** One parser per card *)
Definition setStringCard (tokens : list bytes) (what : bytes) (decode : bool) : result bytes :=
  match tokens with
  | [] => Err (Errorf "missing %s" [AStr what])
  | [value] => Ok (if decode then FossilDecode value else value)
  | _ => Err (Errorf "extra characters after %s" [AStr what])
  end.

Definition setHashCard (tokens : list bytes) (card : bytes) (sha1Only : bool) : result bytes :=
  match tokens with
  | [h] =>
      let ok := if sha1Only then (len h =? 40) && isHexAnyCase h else validArtifactHash h in
      if negb ok then Err (Errorf "invalid hash on %s: %q" [AStr card; AStr h]) else Ok h
  | _ => Err (Errorf "%s takes exactly one hash" [AStr card])
  end.

Definition setChecksumCard (tokens : list bytes) (card : bytes) : result bytes :=
  match tokens with
  | [token] =>
      if negb (len token =? 32) || negb (isHexAnyCase token)
      then Err (Errorf "invalid checksum on %s: %q" [AStr card; AStr token]) else Ok token
  | _ => Err (Errorf "%s takes exactly one checksum" [AStr card])
  end.

Definition parseACard (d : Deck) (tokens : list bytes) : result Deck :=
  match tokens with
  | t0 :: t1 :: ts =>
      if len ts >? 1 then Err (Errorf "A-card takes a filename, a target and an optional source" [])
      else
        let name := FossilDecode t0 in
        if negb (simplePathname name) then Err (Errorf "invalid filename on A-card: %q" [AStr name])
        else
          let target := FossilDecode t1 in
          if negb (validArtifactHash target) && negb (wikiNameWellformed target)
          then Err (Errorf "invalid target on A-card: %q" [AStr target])
          else
            match ts with
            | source :: _ =>
                if negb (validArtifactHash source)
                then Err (Errorf "invalid source hash on A-card: %q" [AStr source])
                else Ok (set_A (Some (mk_AttachmentCard (fileTail name) target source)) d)
            | [] => Ok (set_A (Some (mk_AttachmentCard (fileTail name) target [])) d)
            end
  | _ => Err (Errorf "A-card takes a filename, a target and an optional source" [])
  end.

Definition parseDCard (d : Deck) (tokens : list bytes) : result Deck :=
  match tokens with
  | [tok] =>
      let? t := wrap_err (Wrapf "D-card: %w") (parseTimestamp tok) in
      Ok (set_D t d)
  | _ => Err (Errorf "D-card takes exactly one timestamp" [])
  end.

Definition parseECard (d : Deck) (tokens : list bytes) : result Deck :=
  match tokens with
  | [tok; uuid] =>
      let? t := wrap_err (Wrapf "E-card: %w") (parseTimestamp tok) in
      if negb (validArtifactHash uuid) then Err (Errorf "invalid hash on E-card: %q" [AStr uuid])
      else Ok (set_E (Some (mk_EventCard t uuid)) d)
  | _ => Err (Errorf "E-card takes a timestamp and a uuid" [])
  end.

(** [if n := len(l); n > 0 { requireAscending(card, l[n-1], cur) }] *)
Definition require_after {A} (key : A -> bytes) (card : byte) (l : list A) (cur : bytes) : result () :=
  match last l with
  | Some prev => requireAscending card (key prev) cur
  | None => Ok ()
  end.

Definition parseFCard (d : Deck) (tokens : list bytes) : result Deck :=
  if (len tokens =? 0) || (len tokens >? 4)
  then Err (Errorf "F-card takes a filename and up to three more fields" [])
  else
    let tok k := if len tokens >? k then elem_at tokens k else Ok [] in
    let? t0 := elem_at tokens 0 in
    let name := FossilDecode t0 in
    if negb (simplePathname name) then Err (Errorf "invalid filename on F-card: %q" [AStr name])
    else
      let? uuid := tok 1 in
      let? perm := tok 2 in
      let? t3 := tok 3 in
      let old := if len tokens >=? 4 then FossilDecode t3 else [] in
      if (len tokens >=? 4) && negb (simplePathname old)
      then Err (Errorf "invalid old-name on F-card: %q" [AStr old])
      else
        let? _ :=
          if empty uuid then
            if empty (d_B d) then Err (Errorf "missing hash on F-card %q" [AStr name]) else Ok ()
          else if negb (validArtifactHash uuid)
          then Err (Errorf "invalid hash on F-card %q: %q" [AStr name; AStr uuid]) else Ok () in
        let? _ := require_after f_Name x46 (d_F d) name in
        let? dropped := never (IsReservedName name) in
        if dropped : bool then Ok d
        else Ok (set_F (d_F d ++ [mk_FileCard name uuid perm old]) d).

Definition parseSCard (d : Deck) (tokens : list bytes) : result Deck :=
  match tokens with
  | [t0; t1] =>
      let sc := mk_SubmanifestCard (FossilDecode t0) t1 in
      if negb (simplePathname (s_Name sc)) then Err (Errorf "invalid filename on S-card: %q" [AStr (s_Name sc)])
      else if negb (validArtifactHash (s_UUID sc))
      then Err (Errorf "invalid hash on S-card %q: %q" [AStr (s_Name sc); AStr (s_UUID sc)])
      else
        let? _ := require_after s_Name x53 (d_S d) (s_Name sc) in
        Ok (set_S (d_S d ++ [sc]) d)
  | _ => Err (Errorf "S-card takes exactly a filename and a hash" [])
  end.

Definition parseLCard (d : Deck) (tokens : list bytes) : result Deck :=
  match tokens with
  | [t0] =>
      let title := FossilDecode t0 in
      if negb (wikiNameWellformed title) then Err (Errorf "malformed wiki name on L-card: %q" [AStr title])
      else Ok (set_L title d)
  | _ => Err (Errorf "L-card takes exactly one wiki title" [])
  end.

Definition parseMCard (d : Deck) (tokens : list bytes) : result Deck :=
  match tokens with
  | [m] =>
      if negb (validArtifactHash m) then Err (Errorf "invalid hash on M-card: %q" [AStr m])
      else
        let? _ := require_after (fun x : bytes => x) x4d (d_M d) m in
        Ok (set_M (d_M d ++ [m]) d)
  | _ => Err (Errorf "M-card takes exactly one hash" [])
  end.

Definition parseJCard (d : Deck) (tokens : list bytes) : result Deck :=
  match tokens with
  | t0 :: ts =>
      if len ts >? 1 then Err (Errorf "J-card takes a name and an optional value" [])
      else
        let jf := mk_TicketField t0 (match ts with v :: _ => FossilDecode v | [] => [] end) in
        let? _ := require_after j_Name x4a (d_J d) (j_Name jf) in
        Ok (set_J (d_J d ++ [jf]) d)
  | [] => Err (Errorf "J-card takes a name and an optional value" [])
  end.

Fixpoint check_parents (tokens : list bytes) : result () :=
  match tokens with
  | [] => Ok ()
  | parent :: ts =>
      if negb (validArtifactHash parent) then Err (Errorf "invalid hash on P-card: %q" [AStr parent])
      else check_parents ts
  end.

Definition parsePCard (d : Deck) (tokens : list bytes) : result Deck :=
  let d := set_pPresent true d in
  let? _ := check_parents tokens in
  Ok (set_P (d_P d ++ tokens) d).

Definition parseQCard (d : Deck) (tokens : list bytes) : result Deck :=
  match tokens with
  | (sign :: target) :: ts =>
      if len ts >? 1 then Err (Errorf "Q-card takes a signed target and an optional baseline" [])
      else if negb (Byte.eqb sign x2b) && negb (Byte.eqb sign x2d)
      then Err (Errorf "Q-card must begin with '+' or '-', got %q" [AStr [sign]])
      else if negb (validArtifactHash target)
      then Err (Errorf "invalid target hash on Q-card: %q" [AStr target])
      else
        match ts with
        | baseline :: _ =>
            if negb (validArtifactHash baseline)
            then Err (Errorf "invalid baseline hash on Q-card: %q" [AStr baseline])
            else Ok (set_Q (d_Q d ++ [mk_CherryPick (Byte.eqb sign x2d) target baseline]) d)
        | [] => Ok (set_Q (d_Q d ++ [mk_CherryPick (Byte.eqb sign x2d) target []]) d)
        end
  | _ => Err (Errorf "Q-card takes a signed target and an optional baseline" [])
  end.

Definition is_tag_type (c : byte) : bool :=
  Byte.eqb c TagSingleton || Byte.eqb c TagPropagating || Byte.eqb c TagCancel.

Definition parseTCard (d : Deck) (tokens : list bytes) : result Deck :=
  match tokens with
  | (sign :: nameRest) :: ts =>
      if negb (is_tag_type sign)
      then Err (Errorf "T-card name must begin with '+', '-' or '*', got %q" [AStr [sign]])
      else
        match ts with
        | uuid :: vs =>
            if len vs >? 1 then Err (Errorf "T-card takes a name, a target and an optional value" [])
            else
              let tc := mk_TagCard sign (FossilDecode nameRest) uuid
                          (match vs with v :: _ => FossilDecode v | [] => [] end)
                          (match vs with _ :: _ => true | [] => false end) in
              if isHexToken (t_Name tc)
              then Err (Errorf "T-card name %q must not be entirely hexadecimal" [AStr (t_Name tc)])
              else if negb (bool_decide (t_UUID tc = bs "*")) && negb (validArtifactHash (t_UUID tc))
              then Err (Errorf "T-card target %q is neither a valid artifact hash nor '*'" [AStr (t_UUID tc)])
              else
                let? _ := match last (d_T d) with
                          | Some prev => requireTagAscending prev tc
                          | None => Ok ()
                          end in
                Ok (set_T (d_T d ++ [tc]) d)
        | [] => Err (Errorf "T-card takes a name, a target and an optional value" [])
        end
  | _ => Err (Errorf "T-card too short" [])
  end.

Definition parseUCard (d : Deck) (tokens : list bytes) : result Deck :=
  if len tokens >? 1 then Err (Errorf "U-card takes an optional login" [])
  else
    let user := match tokens with t0 :: _ => FossilDecode t0 | [] => [] end in
    let user := if empty user then bs "anonymous" else user in
    Ok (set_U (Some user) d).

Definition parseZCard (tokens : list bytes) : result () :=
  match tokens with
  | [token] =>
      if negb (len token =? 32)
      then Err (Errorf "Z-card checksum must be 32 characters, got %d" [AInt (len token)])
      else if negb (forallb isHexDigit token)
      then Err (Errorf "Z-card checksum is not hexadecimal: %q" [AStr token])
      else Ok ()
  | _ => Err (Errorf "Z-card takes exactly one token" [])
  end.

Definition parseCard (d : Deck) (card : byte) (tokens : list bytes) : result Deck :=
  match card with
  | x41 => parseACard d tokens
  | x42 => let? h := setHashCard tokens (bs "B-card") false in Ok (set_B h d)
  | x43 => let d := set_cPresent true d in
           let? v := setStringCard tokens (bs "comment on C-card") true in Ok (set_C v d)
  | x44 => parseDCard d tokens
  | x45 => parseECard d tokens
  | x46 => parseFCard d tokens
  | x47 => let? h := setHashCard tokens (bs "G-card") false in Ok (set_G h d)
  | x48 => let? v := setStringCard tokens (bs "title on H-card") true in Ok (set_H v d)
  | x49 => let? h := setHashCard tokens (bs "I-card") false in Ok (set_I h d)
  | x4a => parseJCard d tokens
  | x4b => let? h := setHashCard tokens (bs "K-card") true in Ok (set_K h d)
  | x4c => parseLCard d tokens
  | x4d => parseMCard d tokens
  | x4e => let d := set_nPresent true d in
           let? v := setStringCard tokens (bs "mimetype on N-card") true in Ok (set_N v d)
  | x50 => parsePCard d tokens
  | x51 => parseQCard d tokens
  | x52 => let? c := setChecksumCard tokens (bs "R-card") in Ok (set_R c d)
  | x53 => parseSCard d tokens
  | x54 => parseTCard d tokens
  | x55 => parseUCard d tokens
  | x5a => let? _ := parseZCard tokens in Ok d
  | _ => Err (Errorf "unknown card '%c'" [AByte card])
  end.

(** ** The card loop *)
Definition isLegacyTechnoteNAfterP (d : Deck) (card lastCard : byte) : bool :=
  Byte.eqb card x4e && Byte.eqb lastCard x50 && bool_decide (is_Some (d_E d)).

(** What the loop carries besides the scanner. *)
Record scan_state := mk_scan
  { sc_deck : Deck; sc_last : byte; sc_seen : seenCards; sc_mask : Z }.

(** The mask, the duplicate guard and the order guard of one card. *)
Definition guard_card (st : scan_state) (card : byte) : result scan_state :=
  let seenMask := if in_A_Z card then Z.lor (sc_mask st) (letter_bit card) else sc_mask st in
  let? seen := claim (sc_seen st) card in
  if (bz card <? bz (sc_last st)) && negb (isLegacyTechnoteNAfterP (sc_deck st) card (sc_last st))
  then Err (Errorf "card '%c' out of order (after '%c')" [AByte card; AByte (sc_last st)])
  else Ok (mk_scan (sc_deck st) card seen seenMask).

Definition set_deck (st : scan_state) (d : Deck) : scan_state :=
  mk_scan d (sc_last st) (sc_seen st) (sc_mask st).

Fixpoint scan_loop (fuel : nat) (s : manifestScanner) (st : scan_state)
    : result (manifestScanner * scan_state) :=
  match fuel with
  | O => Diverge
  | S fuel' =>
      let '(card, s) := nextCard s in
      if Byte.eqb card x00 then Ok (s, st)
      else
        let? st := guard_card st card in
        if Byte.eqb card x57 then
          let? (d, s) := parseW s (sc_deck st) in
          scan_loop fuel' s (set_deck st d)
        else
          let? (tokens, s) := cardTokens s in
          let? d := parseCard (sc_deck st) card tokens in
          scan_loop fuel' s (set_deck st d)
  end.

Definition start_scan (d : Deck) : scan_state := mk_scan d x00 [] 0.

Definition scanCards (content : bytes) (d : Deck) : result (Deck * Z) :=
  let? (s, st) := scan_loop (S (length content)) (mk_scanner content true false) (start_scan d) in
  if negb (empty (s_rest s)) then Err (Errorf "extra characters at end of card" [])
  else Ok (sc_deck st, sc_mask st).

(** The type of a scanned deck: §5.3, then the sub-manifest reassignment. *)
Definition final_type (d : Deck) (seenMask : Z) : ArtifactType :=
  let ty := inferType d in
  if bool_decide (ty = Checkin) && (Z.land seenMask (letter_bit x44) =? 0) then Submanifest else ty.

Definition wrap_parse {A} (m : result A) : result A := wrap_err (Wrapf "deck.Parse: %w") m.

Definition Parse (data : option bytes) : result Deck :=
  match data with
  | None => Panic "deck.Parse: data must not be nil"
  | Some data =>
      let? content := wrap_parse (frameArtifact data) in
      let? (d, seenMask) := wrap_parse (scanCards content zero_Deck) in
      let d := set_Type (final_type d seenMask) d in
      let? _ := wrap_parse (checkType d seenMask) in
      Ok d
  end.
