(* ===== verification/ParseCorrect.v ===== *)
(** * The card scanner: what it reads, and that it always returns

    A card's text is its letter, a space and its tokens joined by spaces, or the
    bare letter, and an LF.  On any content that ends in an LF the scanner
    splits off such a text at a time and never reads out of range. *)

From S2P Require Import Prelude GoStd GoText GoCrypto Escape Deck Pathname Clearsign Timestamp Marshal Legality Parse.

Definition card_text (c : byte) (ts : list bytes) : bytes :=
  match ts with
  | [] => [c; lf]
  | _ => c :: x20 :: join_sp ts ++ [lf]
  end.

(** A position at the start of a card, or at the end. *)
Definition at_card (rest : bytes) : manifestScanner := mk_scanner rest true false.
Definition ended (rest : bytes) : Prop := rest = [] \/ ends_lf rest.

Definition tokens_ok (ts : list bytes) : Prop := Forall (fun t => token_ok t = true) ts.

(** ** Tokens *)
Lemma span_token_app t c r : token_ok t = true -> token_byte c = false ->
  span_token (t ++ c :: r) = (t, c :: r).
Proof.
  intros Ht Hc. induction t as [|b t IH]; simpl.
  - by rewrite Hc.
  - simpl in Ht. apply andb_true_iff in Ht as [-> Ht]. by rewrite IH.
Qed.

Lemma span_token_spec rest t r : span_token rest = (t, r) ->
  rest = t ++ r /\ token_ok t = true /\ (r = [] \/ exists c r', r = c :: r' /\ token_byte c = false).
Proof.
  revert t r. induction rest as [|c rest IH]; intros t r; simpl.
  - intros [= <- <-]. naive_solver.
  - destruct (token_byte c) eqn:E.
    + destruct (span_token rest) as [t' r'] eqn:E'. intros [= <- <-].
      destruct (IH t' r' eq_refl) as (-> & Ht & Hr). simpl. rewrite E. naive_solver.
    + intros [= <- <-]. split_and!; [done|done|]. right. by exists c, rest.
Qed.

Lemma tokens_loop_join ts r fuel : ts <> [] -> tokens_ok ts -> (length ts < fuel)%nat ->
  tokens_loop fuel (mk_scanner (join_sp ts ++ lf :: r) false false) = Ok (ts, at_card r).
Proof.
  intros Hne Hts. revert fuel. induction ts as [|t ts IH]; intros fuel Hf; [done|].
  destruct fuel as [|fuel]; [simpl in Hf; lia|].
  inversion Hts as [|? ? Ht Hts']; subst. cbn [tokens_loop]. unfold nextToken at 1. cbn [s_atEol s_past s_rest].
  destruct ts as [|t' ts].
  - cbn [join_sp]. rewrite span_token_app by done. cbn [obind].
    destruct fuel; [simpl in Hf; lia|]. done.
  - change (join_sp (t :: t' :: ts)) with (t ++ x20 :: join_sp (t' :: ts)).
    rewrite <- app_assoc, <- app_comm_cons, span_token_app by done. cbn [obind].
    change (Byte.eqb x20 lf) with false.
    rewrite IH; [done|done|done|]. simpl in *. lia.
Qed.

Lemma ends_lf_cons c s : s <> [] -> ends_lf (c :: s) -> ends_lf s.
Proof.
  intros Hs [t Ht]. destruct t as [|b t]; simpl in Ht.
  - injection Ht as _ ->. done.
  - injection Ht as _ ->. by exists t.
Qed.

Lemma ends_lf_last c : ends_lf [c] -> c = lf.
Proof. intros [t Ht]. destruct t as [|b [|? ?]]; simpl in Ht; congruence. Qed.

Lemma ends_lf_app s k : k <> [] -> ends_lf (s ++ k) -> ends_lf k.
Proof.
  intros Hk. induction s as [|c s IH]; simpl; [done|]. intros H. apply IH.
  apply (ends_lf_cons c); [|done]. by destruct s.
Qed.

Lemma not_token_byte c : token_byte c = false -> c = x20 \/ c = lf.
Proof. by_bytes c. Qed.

(** Any text that ends in an LF starts with a card's tokens. *)
Lemma tokens_decompose rest : ends_lf rest ->
  exists ts r, ts <> [] /\ tokens_ok ts /\ rest = join_sp ts ++ lf :: r /\ ended r.
Proof.
  remember (length rest) as n eqn:Hn. revert rest Hn.
  induction n as [n IH] using lt_wf_ind. intros rest -> Hl.
  destruct (span_token rest) as [t r] eqn:E. apply span_token_spec in E as (-> & Ht & Hr).
  destruct Hr as [->|(c & r' & -> & Hc)].
  { exfalso. rewrite app_nil_r in Hl. destruct Hl as [u ->].
    rewrite token_ok_app in Ht. apply andb_true_iff in Ht as [_ Ht]. discriminate Ht. }
  assert (Hcr : ends_lf (c :: r')) by (by apply (ends_lf_app t)).
  apply not_token_byte in Hc as [-> | ->].
  - destruct r' as [|b r'']; [by apply ends_lf_last in Hcr|].
    destruct (IH (length (b :: r''))) with (rest := b :: r'') as (ts & r & Hne & Hts & Heq & He).
    + rewrite length_app. simpl. lia.
    + done.
    + by apply (ends_lf_cons x20).
    + exists (t :: ts), r. split_and!; [done|by constructor| |done].
      destruct ts as [|t' ts]; [done|].
      change (join_sp (t :: t' :: ts)) with (t ++ x20 :: join_sp (t' :: ts)).
      by rewrite <- app_assoc, <- app_comm_cons, <- Heq.
  - exists [t], r'. split_and!; [done|by constructor|done|].
    destruct r' as [|b r'']; [by left|]. right. by apply (ends_lf_cons lf).
Qed.

Lemma join_sp_length ts : (length ts <= S (length (join_sp ts)))%nat.
Proof.
  induction ts as [|t ts IH]; [simpl; lia|]. destruct ts as [|t' ts]; [simpl; lia|].
  change (join_sp (t :: t' :: ts)) with (t ++ x20 :: join_sp (t' :: ts)).
  rewrite length_app. cbn [length] in *. lia.
Qed.

Lemma cardTokens_join ts r : ts <> [] -> tokens_ok ts ->
  cardTokens (mk_scanner (join_sp ts ++ lf :: r) false false)
  = if interior_empty ts then Err (Errorf "empty token between two others" []) else Ok (ts, at_card r).
Proof.
  intros. unfold cardTokens. rewrite tokens_loop_join; [done|done|done|].
  cbn [s_rest]. rewrite length_app. pose proof (join_sp_length ts). simpl. lia.
Qed.

Lemma cardTokens_bare r : cardTokens (at_card r) = Ok ([], at_card r).
Proof. done. Qed.

(** ** Cards *)

(** The scanner after the letter of a card's text. *)
Definition after_letter (ts : list bytes) (r : bytes) : manifestScanner :=
  match ts with [] => at_card r | _ => mk_scanner (join_sp ts ++ lf :: r) false false end.

Lemma nextCard_text c ts r : nextCard (at_card (card_text c ts ++ r)) = (c, after_letter ts r).
Proof.
  destruct ts as [|t ts]; [done|]. unfold card_text, after_letter, nextCard, at_card.
  cbn [s_atEol s_rest negb app]. by rewrite <- app_assoc.
Qed.

Lemma nextCard_cases rest : ended rest ->
  nextCard (at_card rest) = (x00, at_card rest)
  \/ exists c ts r, rest = card_text c ts ++ r /\ tokens_ok ts /\ ended r.
Proof.
  intros Hr. destruct rest as [|c [|b rest]]; [by left|by left|].
  destruct Hr as [|Hr]; [done|].
  destruct (decide (b = x20)) as [->|Hb].
  { right. assert (ends_lf (x20 :: rest)) as H1 by by apply (ends_lf_cons c).
    destruct rest as [|b' rest]; [by apply ends_lf_last in H1|].
    assert (ends_lf (b' :: rest)) as H2 by by apply (ends_lf_cons x20).
    destruct (tokens_decompose _ H2) as (ts & r & Hne & Hts & -> & He).
    exists c, ts, r. split_and!; [|done|done].
    destruct ts; [done|]. unfold card_text. by rewrite <- app_comm_cons, <- app_comm_cons, <- app_assoc. }
  destruct (decide (b = lf)) as [->|Hb'].
  { right. exists c, [], rest. split_and!; [done|constructor|].
    destruct rest; [by left|right]. apply (ends_lf_cons lf); [done|]. by apply (ends_lf_cons c). }
  left. unfold nextCard. simpl. destruct b; done.
Qed.

(** Reading a card whose text is given. *)
Lemma cardTokens_text ts r : tokens_ok ts ->
  cardTokens (after_letter ts r)
  = if interior_empty ts then Err (Errorf "empty token between two others" []) else Ok (ts, at_card r).
Proof. intros. destruct ts as [|t ts]; [done|]. by apply cardTokens_join. Qed.

(** ** The W card *)
Lemma parseW_content size r d : 0 <= size ->
  (if (len r <? 2) || (size >=? uint64_of_len (len r - 1)) then Err (Errorf "not enough content after W-card" [])
   else
     let? ends := byte_is r size lf in
     if negb ends then Err (Errorf "W-card content not newline terminated" [])
     else
       let? body := slice_of r 0 size in
       Ok (set_W (Some body) d, mk_scanner (drop (Z.to_nat (size + 1)) r) true false) : result (Deck * manifestScanner))
  = if (len r <? 2) || (size >=? len r - 1) then Err (Errorf "not enough content after W-card" [])
    else if negb (at_is r size lf) then Err (Errorf "W-card content not newline terminated" [])
    else Ok (set_W (Some (take (Z.to_nat size) r)) d, at_card (drop (Z.to_nat (size + 1)) r)).
Proof.
  intros Hs. destruct (Z.ltb_spec (len r) 2); [done|]. cbn [orb]. unfold uint64_of_len.
  rewrite (proj2 (Z.ltb_ge (len r - 1) 0)) by lia. rewrite Z.geb_leb. destruct (Z.leb_spec (len r - 1) size); [done|].
  rewrite byte_is_ok by lia. cbn [obind]. destruct (negb _); [done|].
  rewrite slice_of_ok by lia. cbn [obind]. unfold sub. by rewrite Z.sub_0_r, skipn_O.
Qed.

Lemma w_size_nonneg sizeTok size : 0 <= size ->
  match w_size sizeTok size with Ok v => 0 <= v | Err _ => True | _ => False end.
Proof.
  revert size. induction sizeTok as [|c rest IH]; intros size Hs; cbn [w_size]; [done|].
  destruct (is_digit c); simpl; [|done]. case_goal; [done|]. apply IH. apply u64_range.
Qed.

Lemma parseW_text ts r d : tokens_ok ts ->
  parseW (after_letter ts r) d =
  if bool_decide (is_Some (d_W d)) then Err (Errorf "more than one W-card" [])
  else match ts with
       | [] => Err (Errorf "missing size on W-card" [])
       | [sizeTok] =>
           let? size := w_size sizeTok 0 in
           if (len r <? 2) || (size >=? len r - 1) then Err (Errorf "not enough content after W-card" [])
           else if negb (at_is r size lf) then Err (Errorf "W-card content not newline terminated" [])
           else Ok (set_W (Some (take (Z.to_nat size) r)) d, at_card (drop (Z.to_nat (size + 1)) r))
       | _ => Err (Errorf "no content after W-card" [])
       end.
Proof.
  intros Hts. unfold parseW. case_bool_decide; [done|].
  destruct ts as [|t [|t' ts]]; [done| |].
  - inversion Hts; subst. unfold nextToken, after_letter. cbn [join_sp s_atEol s_past s_rest].
    rewrite span_token_app by done. cbn [obind s_atEol s_rest]. change (negb (Byte.eqb lf lf)) with false. cbv iota zeta.
    pose proof (w_size_nonneg t 0 ltac:(done)) as Hw. destruct (w_size t 0) as [size| | |]; try done. cbn [obind].
    by apply parseW_content.
  - inversion Hts; subst. unfold nextToken, after_letter. cbn [s_atEol s_past s_rest].
    change (join_sp (t :: t' :: ts)) with (t ++ x20 :: join_sp (t' :: ts)).
    by rewrite <- app_assoc, <- app_comm_cons, span_token_app by done.
Qed.

Lemma w_size_ok sizeTok size v : 0 <= size -> w_size sizeTok size = Ok v -> 0 <= v.
Proof. intros Hs H. pose proof (w_size_nonneg sizeTok size Hs) as Hn. by rewrite H in Hn. Qed.

Lemma w_size_returns sizeTok : returns (w_size sizeTok 0).
Proof. pose proof (w_size_nonneg sizeTok 0 ltac:(done)) as H. by destruct (w_size sizeTok 0). Qed.

(** What the W card read: a body inside the content, with text left after it. *)
Lemma parseW_ok ts r d d' s' : tokens_ok ts -> ended r -> parseW (after_letter ts r) d = Ok (d', s') ->
  exists sizeTok body r', ts = [sizeTok] /\ w_size sizeTok 0 = Ok (len body)
    /\ r = body ++ lf :: r' /\ ends_lf r' /\ s' = at_card r' /\ d_W d = None /\ d' = set_W (Some body) d.
Proof.
  intros Hts Hr. rewrite parseW_text by done. case_bool_decide as Hw; [done|].
  destruct ts as [|t [|t' ts]]; [done| |done]. intros H. ok_inv. rename a into size.
  case_hyp Hk; [done|]. case_hyp Hk; [done|]. injection Hk as <- <-.
  assert (0 <= size) as Hsz by (by apply (w_size_ok t 0)). zbool.
  unfold at_is, idx in E0.
  replace (size <? 0) with false in E0 by lia.
  destruct (r !! Z.to_nat size) as [b|] eqn:Eb; [|done]. cbn in E0. apply byte_eqb_eq in E0 as ->.
  pose proof (take_drop_middle r _ _ Eb) as Hmid.
  replace (S (Z.to_nat size)) with (Z.to_nat (size + 1)) in Hmid by lia.
  exists t, (take (Z.to_nat size) r), (drop (Z.to_nat (size + 1)) r).
  split_and!; try done.
  - rewrite Hok. f_equal. symmetry. apply len_take. lia.
  - destruct Hr as [->|Hr]; [done|]. apply ends_lf_drop; [done|]. unfold len in *. lia.
  - destruct (d_W d); [|done]. exfalso. apply Hw. eauto.
Qed.

Lemma parseW_returns ts r d : tokens_ok ts -> returns (parseW (after_letter ts r) d).
Proof.
  intros Hts. rewrite parseW_text by done. case_bool_decide; [done|].
  destruct ts as [|t [|t' ts]]; [done| |done].
  apply returns_bind; [apply w_size_returns|]. intros size _. repeat case_goal; done.
Qed.

(** * Parse returns on every input, and accepts only what its checksum covers *)

(** ** Every card parser returns *)
Ltac returns_step :=
  match goal with
  | |- returns (Ok _) => exact I
  | |- returns (Err _) => exact I
  | |- returns (obind _ _) => apply returns_bind; [|intros ? ?]
  | |- returns (wrap_err _ _) => apply returns_wrap_err
  | |- returns (if ?b then _ else _) => destruct b
  | |- returns (match ?x with _ => _ end) => destruct x
  | |- returns _ => progress cbv beta zeta
  end.
Ltac returns_tac := repeat returns_step; try done.

Lemma parseTimestamp_returns s : returns (parseTimestamp s).
Proof.
  unfold parseTimestamp. apply returns_bind; [apply parseCalendarTimestamp_returns|].
  intros [t|] _; [done|]. destruct (parseJulianTimestamp s) as [r|] eqn:H; [|done].
  revert H. unfold parseJulianTimestamp. cbv zeta. intros H.
  repeat (case_hyp H; try discriminate H); by injection H as <-.
Qed.

Lemma requireAscending_returns c p q : returns (requireAscending c p q).
Proof. unfold requireAscending. returns_tac. Qed.

Lemma require_after_returns {A} (key : A -> bytes) c l q : returns (require_after key c l q).
Proof. unfold require_after. returns_tac. apply requireAscending_returns. Qed.

Lemma check_parents_returns ts : returns (check_parents ts).
Proof. induction ts as [|t ts IH]; simpl; [done|]. by destruct (negb _). Qed.

Lemma requireTagAscending_returns p q : returns (requireTagAscending p q).
Proof. unfold requireTagAscending. cbv zeta. returns_tac. Qed.

(** The card's fields, empty where there is no token. *)
Lemma parseFCard_eq d tokens : parseFCard d tokens =
  if (len tokens =? 0) || (len tokens >? 4)
  then Err (Errorf "F-card takes a filename and up to three more fields" [])
  else
    let tok k := default [] (tokens !! k) in
    let name := FossilDecode (tok 0%nat) in
    if negb (simplePathname name) then Err (Errorf "invalid filename on F-card: %q" [AStr name])
    else
      let uuid := tok 1%nat in
      let old := if len tokens >=? 4 then FossilDecode (tok 3%nat) else [] in
      if (len tokens >=? 4) && negb (simplePathname old)
      then Err (Errorf "invalid old-name on F-card: %q" [AStr old])
      else
        let? _ :=
          if empty uuid then
            if empty (d_B d) then Err (Errorf "missing hash on F-card %q" [AStr name]) else Ok ()
          else if negb (validArtifactHash uuid)
          then Err (Errorf "invalid hash on F-card %q: %q" [AStr name; AStr uuid]) else Ok () in
        let? _ := require_after f_Name x46 (d_F d) name in
        if reserved name then Ok d
        else Ok (set_F (d_F d ++ [mk_FileCard name uuid (tok 2%nat) old]) d).
Proof.
  unfold parseFCard. destruct (_ || _) eqn:E; [done|]. zbool.
  assert (forall k, 0 <= k -> (if len tokens >? k then elem_at tokens k else Ok [] : result bytes)
            = Ok (default [] (tokens !! Z.to_nat k))) as Ht.
  { intros k Hk. rewrite Z.gtb_ltb. destruct (Z.ltb_spec k (len tokens)).
    - destruct (elem_at_some (E:=deck_error) tokens k ltac:(lia)) as (x & -> & ->). done.
    - rewrite lookup_ge_None_2; [done|]. unfold len in *. lia. }
  pose proof (len_nonneg tokens). pose proof (Ht 0 ltac:(lia)) as Ht0.
  rewrite Z.gtb_ltb, (proj2 (Z.ltb_lt 0 _)) in Ht0 by lia. rewrite Ht0. cbn [obind].
  rewrite !Ht by lia. cbn [obind]. cbv zeta. destruct (negb (simplePathname _)); [done|].
  destruct (_ && _); [done|]. rewrite IsReservedName_reserved. done.
Qed.

Lemma parseCard_returns d card ts : returns (parseCard d card ts).
Proof.
  unfold parseCard. destruct card; try exact I; rewrite ?parseFCard_eq;
    unfold setHashCard, setStringCard, setChecksumCard, parseACard, parseDCard, parseECard,
      parseJCard, parseLCard, parseMCard, parsePCard, parseQCard, parseSCard,
      parseTCard, parseUCard, parseZCard; cbv zeta; returns_tac;
    auto using parseTimestamp_returns, require_after_returns, check_parents_returns,
      requireTagAscending_returns.
Qed.

(** ** The loop *)
Lemma claim_returns s c : returns (claim s c).
Proof. unfold claim. returns_tac. Qed.

Lemma guard_card_returns st c : returns (guard_card st c).
Proof. unfold guard_card. cbv zeta. returns_tac. apply claim_returns. Qed.

Lemma card_text_length c ts : (2 <= length (card_text c ts))%nat.
Proof. destruct ts; simpl; lia. Qed.

(** One turn of the loop on a card's text. *)
Lemma scan_loop_step fuel c ts r st : tokens_ok ts -> Byte.eqb c x00 = false -> Byte.eqb c x57 = false ->
  scan_loop (S fuel) (at_card (card_text c ts ++ r)) st
  = let? st := guard_card st c in
    if interior_empty ts then Err (Errorf "empty token between two others" [])
    else let? d := parseCard (sc_deck st) c ts in
         scan_loop fuel (at_card r) (set_deck st d).
Proof.
  intros Hts Hc Hw. cbn [scan_loop]. rewrite nextCard_text, Hc.
  destruct (guard_card st c) as [st'| | |]; cbn [obind]; try done.
  rewrite Hw, cardTokens_text by done. by destruct (interior_empty ts).
Qed.

Lemma scan_loop_step_W fuel ts r st :
  scan_loop (S fuel) (at_card (card_text x57 ts ++ r)) st
  = let? st := guard_card st x57 in
    let? (d, s) := parseW (after_letter ts r) (sc_deck st) in
    scan_loop fuel s (set_deck st d).
Proof. cbn [scan_loop]. rewrite nextCard_text. done. Qed.

(** The loop returns, and a property of (text read, state) that every accepted
    card preserves holds where it stops: at the end of the text, or at a card 0. *)
Definition step_ok (I : bytes -> scan_state -> Prop) : Prop :=
  (forall pre c ts st st' d', I pre st -> tokens_ok ts -> c <> x00 -> c <> x57 ->
     guard_card st c = Ok st' -> interior_empty ts = false ->
     parseCard (sc_deck st') c ts = Ok d' -> I (pre ++ card_text c ts) (set_deck st' d'))
  /\ (forall pre tok body st st', I pre st -> token_ok tok = true ->
     guard_card st x57 = Ok st' -> d_W (sc_deck st') = None -> w_size tok 0 = Ok (len body) ->
     I (pre ++ card_text x57 [tok] ++ body ++ [lf]) (set_deck st' (set_W (Some body) (sc_deck st')))).

Lemma scan_loop_invariant (I : bytes -> scan_state -> Prop) : step_ok I ->
  forall fuel pre rest st, (length rest < fuel)%nat -> ended rest -> I pre st ->
  returns (scan_loop fuel (at_card rest) st)
  /\ forall s' st', scan_loop fuel (at_card rest) st = Ok (s', st') ->
     exists read, I (pre ++ read) st'
       /\ (rest = read ++ s_rest s' \/ rest = read ++ x00 :: lf :: s_rest s' \/ s_rest s' <> []).
Proof.
  intros [Hcard HW] fuel. induction fuel as [|fuel IH]; intros pre rest st Hf Hr HI; [lia|].
  destruct (nextCard_cases rest Hr) as [Hn|(c & ts & r & -> & Hts & He)].
  { cbn [scan_loop]. rewrite Hn. split; [done|]. intros s' st' [= <- <-].
    exists []. rewrite app_nil_r. split; [done|]. by left. }
  rewrite length_app in Hf. pose proof (card_text_length c ts).
  destruct (Byte.eqb c x00) eqn:Ec.
  { apply byte_eqb_eq in Ec as ->. cbn [scan_loop]. rewrite nextCard_text. split; [done|].
    intros s' st' [= <- <-]. exists []. rewrite app_nil_r. split; [done|]. right.
    destruct ts as [|t ts]; [by left|right].
    change (join_sp (t :: ts) ++ lf :: r <> []). intros [_ H']%app_eq_nil. done. }
  apply byte_eqb_neq in Ec as Ec'. destruct (Byte.eqb c x57) eqn:Ew.
  - apply byte_eqb_eq in Ew as ->. rewrite scan_loop_step_W. split.
    + apply returns_bind; [apply guard_card_returns|]. intros st1 Hg.
      apply returns_bind; [by apply parseW_returns|]. intros [d s] Hp.
      destruct (parseW_ok _ _ _ _ _ Hts He Hp) as (tok & body & r' & -> & Hsz & -> & Her & -> & Hw & ->).
      rewrite length_app in Hf. cbn [length] in Hf.
      eapply (IH (pre ++ card_text x57 [tok] ++ body ++ [lf])); [lia|by right|].
      inversion Hts; subst. by eapply HW.
    + intros s' st' Hs. ok_inv. destruct a0 as [d s].
      destruct (parseW_ok _ _ _ _ _ Hts He Hok0) as (tok & body & r' & -> & Hsz & -> & Her & -> & Hw & ->).
      rewrite length_app in Hf. cbn [length] in Hf.
      destruct (IH (pre ++ card_text x57 [tok] ++ body ++ [lf]) r' (set_deck a (set_W (Some body) (sc_deck a))))
        as [_ Hp]; [lia|by right|inversion Hts; subst; by eapply HW|].
      destruct (Hp _ _ Hk0) as (read & HI' & Hread).
      exists (card_text x57 [tok] ++ body ++ [lf] ++ read). rewrite <- !app_assoc in HI'.
      split; [done|]. rewrite <- !app_assoc. cbn [app].
      destruct Hread as [-> |[-> |Hne]]; [left; reflexivity|right; left; reflexivity|right; right; exact Hne].
  - apply byte_eqb_neq in Ew as Ew'. rewrite scan_loop_step by done. split.
    + apply returns_bind; [apply guard_card_returns|]. intros st1 Hg.
      destruct (interior_empty ts) eqn:Hi; [done|].
      apply returns_bind; [apply parseCard_returns|]. intros d Hp.
      eapply (IH (pre ++ card_text c ts)); [lia|done|]. by eapply Hcard.
    + intros s' st' Hs. ok_inv. destruct (interior_empty ts) eqn:Hi; [done|]. ok_inv.
      destruct (IH (pre ++ card_text c ts) r (set_deck a a0)) as [_ Hp]; [lia|done|by eapply Hcard|].
      destruct (Hp _ _ Hk0) as (read & HI' & Hread).
      exists (card_text c ts ++ read). rewrite <- app_assoc in HI'. split; [done|].
      rewrite <- !app_assoc.
      destruct Hread as [-> |[-> |Hne]]; [left; reflexivity|right; left; reflexivity|right; right; exact Hne].
Qed.

(** What an accepted scan establishes. *)
Lemma scanCards_invariant (I : bytes -> scan_state -> Prop) content d :
  step_ok I -> ended content -> I [] (start_scan d) ->
  returns (scanCards content d)
  /\ forall d' mask, scanCards content d = Ok (d', mask) ->
     exists read st, I read st /\ sc_deck st = d' /\ sc_mask st = mask
       /\ (content = read \/ content = read ++ [x00; lf]).
Proof.
  intros HI He H0. unfold scanCards.
  destruct (scan_loop_invariant I HI (S (length content)) [] content (start_scan d)) as [Hr Hp];
    [lia|done|done|].
  split.
  - apply returns_bind; [done|]. intros [s st] _. by destruct (negb _).
  - intros d' mask H. ok_inv. destruct a as [s st].
    destruct (empty (s_rest s)) eqn:Ee; [|done]. cbn [negb] in Hk. injection Hk as <- <-.
    destruct (Hp _ _ Hok) as (read & Hread & Hrest). exists read, st. split_and!; [done..|].
    destruct (s_rest s); [|done]. rewrite app_nil_r in Hrest. naive_solver.
Qed.

Lemma step_ok_True : step_ok (fun _ _ => True).
Proof. by split. Qed.

(** The checks of the first line. *)
Definition first_line_ok (content : bytes) : bool :=
  match content with
  | c :: c1 :: _ => (10 <=? len content) && in_A_Z c && Byte.eqb c1 x20
  | _ => false
  end.

Lemma frameArtifact_eq data : frameArtifact data =
  if len data =? 0 then Err (Errorf "zero-length artifact" [])
  else if negb (at_is data (len data - 1) lf) then Err (Errorf "artifact not terminated with a newline" [])
  else if first_line_ok (strip data) then (let? _ := verifyZ (strip data) in Ok (strip data))
  else Err (Errorf "line 1 not recognized" []).
Proof.
  unfold frameArtifact. destruct (Z.eqb_spec (len data) 0); [done|].
  pose proof (len_nonneg data). rewrite byte_is_ok by lia. cbn [obind]. destruct (negb _); [done|].
  rewrite StripClearsign_strip. cbn [obind]. unfold or_else. cbn [obind].
  destruct (strip data) as [|c [|c1 r]]; [done|done|]. unfold first_line_ok.
  destruct (Z.ltb_spec (len (c :: c1 :: r)) 10).
  { by rewrite (proj2 (Z.leb_gt 10 _)) by lia. }
  rewrite (proj2 (Z.leb_le 10 _)) by lia. unfold byte_is.
  rewrite (elem_at_ok _ 0 c), (elem_at_ok _ 1 c1) by done. cbn [obind andb].
  by destruct (in_A_Z c), (Byte.eqb c1 x20).
Qed.

Lemma frameArtifact_returns data : returns (frameArtifact data).
Proof. rewrite frameArtifact_eq. returns_tac. apply verifyZ_returns. Qed.

Lemma at_is_spec s i c : at_is s i c = true -> 0 <= i /\ s !! Z.to_nat i = Some c.
Proof.
  unfold at_is, idx. destruct (Z.ltb_spec i 0); [done|].
  destruct (s !! Z.to_nat i) eqn:E; [|done]. cbn. intros ->%byte_eqb_eq. done.
Qed.

Lemma at_is_last s c : at_is s (len s - 1) c = true -> exists t, s = t ++ [c].
Proof.
  intros [H0 H]%at_is_spec. exists (take (Z.to_nat (len s - 1)) s).
  rewrite <- (take_S_r _ _ _ H). unfold len in *. rewrite firstn_all2; [done|lia].
Qed.

(** What framing establishes. *)
Lemma frameArtifact_ok data content : frameArtifact data = Ok content ->
  content = strip data /\ ends_lf content /\ verifyZ content = Ok () /\ 10 <= len content
  /\ exists c r, content = c :: x20 :: r /\ in_A_Z c = true.
Proof.
  rewrite frameArtifact_eq. case_goal; [done|]. case_goal; [done|]. case_goal; [|done].
  apply negb_false_iff, at_is_last, strip_ends_lf in E0. unfold first_line_ok in E1.
  destruct (strip data) as [|c [|c1 r]] eqn:Es; [done|done|]. intros H. ok_inv.
  rewrite !andb_true_iff in E1. destruct E1 as [[Hl%Z.leb_le Hc] ->%byte_eqb_eq]. destruct a.
  split_and!; [done..|]. by exists c, r.
Qed.

Lemma Parse_returns data : returns (Parse (Some data)).
Proof.
  unfold Parse. apply returns_bind; [apply returns_wrap_err, frameArtifact_returns|].
  intros content Hc. apply returns_bind.
  - apply returns_wrap_err. destruct (frameArtifact data) as [c| | |] eqn:E; try done.
    injection Hc as ->. apply frameArtifact_ok in E as (_ & He & _).
    apply (scanCards_invariant _ _ zero_Deck step_ok_True); [by right|done].
  - intros [d mask] _. cbv zeta. apply returns_bind; [|done].
    apply returns_wrap_err. unfold checkType, checkSemantics, checkTreeManifest, checkSubmanifest.
    cbv zeta. returns_tac.
Qed.

(** What an accepted artifact went through. *)
Lemma Parse_ok data d : Parse (Some data) = Ok d ->
  exists content d0 mask, frameArtifact data = Ok content /\ scanCards content zero_Deck = Ok (d0, mask)
    /\ d = set_Type (final_type d0 mask) d0 /\ checkType d mask = Ok ().
Proof.
  unfold Parse. intros H. ok_inv. destruct a0 as [d0 mask]. ok_inv. cbv zeta in *.
  unfold wrap_parse, wrap_err in *.
  destruct (frameArtifact data) eqn:E1; try done. injection Hok as ->.
  destruct (scanCards a zero_Deck) eqn:E2; try done. injection Hok0 as ->.
  destruct (checkType _ _) as [[]| | |] eqn:E3; try done. eauto 10.
Qed.

(** ** The Z card *)
Definition has_letter (mask : Z) (c : byte) : bool := Z.testbit mask (bz c - 65).

Lemma letter_bit_spec c i : in_A_Z c = true -> 0 <= i ->
  Z.testbit (letter_bit c) i = (i =? bz c - 65).
Proof.
  unfold in_A_Z, letter_bit. intros Hc Hi. zbool.
  rewrite Z.shiftl_1_l, Z.pow2_bits_eqb by lia. by rewrite Z.eqb_sym.
Qed.

Lemma guard_card_ok st c st' : guard_card st c = Ok st' ->
  sc_deck st' = sc_deck st /\ sc_last st' = c
  /\ sc_mask st' = (if in_A_Z c then Z.lor (sc_mask st) (letter_bit c) else sc_mask st)
  /\ claim (sc_seen st) c = Ok (sc_seen st')
  /\ (bz (sc_last st) <= bz c \/ (c = x4e /\ sc_last st = x50)).
Proof.
  unfold guard_card. cbv zeta. intros H. ok_inv.
  destruct ((bz c <? bz (sc_last st)) && negb (isLegacyTechnoteNAfterP (sc_deck st) c (sc_last st))) eqn:E;
    [done|]. injection Hk as <-. cbn. split_and!; [done..|].
  apply andb_false_iff in E as [E|E]; [zbool; by left|].
  apply negb_false_iff in E. unfold isLegacyTechnoteNAfterP in E.
  rewrite !andb_true_iff, !byte_eqb_eq in E. right. tauto.
Qed.

Lemma guard_card_has st c st' x : guard_card st c = Ok st' -> in_A_Z x = true ->
  has_letter (sc_mask st') x = has_letter (sc_mask st) x || Byte.eqb c x.
Proof.
  intros (_ & _ & Hm & _)%guard_card_ok Hx. unfold has_letter. rewrite Hm.
  assert (0 <= bz x - 65) by (unfold in_A_Z in Hx; zbool; lia).
  destruct (in_A_Z c) eqn:Hc.
  - rewrite Z.lor_spec, letter_bit_spec by done. f_equal.
    destruct (Byte.eqb c x) eqn:E.
    + apply byte_eqb_eq in E as ->. lia.
    + apply byte_eqb_neq in E. apply Z.eqb_neq. intros H'. apply E, bz_inj. lia.
  - destruct (Byte.eqb c x) eqn:E; [|by rewrite orb_false_r].
    apply byte_eqb_eq in E as ->. congruence.
Qed.

Definition z_last (read : bytes) (st : scan_state) : Prop :=
  has_letter (sc_mask st) x5a = true ->
  sc_last st = x5a /\ exists body z, read = body ++ card_text x5a [z] /\ len z = 32.

Lemma parseZCard_ok ts : parseZCard ts = Ok () -> exists z, ts = [z] /\ len z = 32.
Proof.
  unfold parseZCard. destruct ts as [|z [|? ?]]; [done| |done].
  case_goal; [done|]. intros _. exists z. split; [done|]. zbool. lia.
Qed.

Lemma parseCard_above_Z d c ts d' : parseCard d c ts = Ok d' -> bz c <= 90.
Proof. unfold parseCard. destruct c; try done. Qed.

Lemma z_last_step : step_ok z_last.
Proof.
  split.
  - intros pre c ts st st' d' HI Hts Hc Hw Hg Hi Hp. unfold z_last. cbn [set_deck sc_mask sc_last].
    rewrite (guard_card_has _ _ _ _ Hg) by done. intros Hz.
    assert (Hcz : c = x5a).
    { apply orb_true_iff in Hz as [Hz|Hz]; [|by apply byte_eqb_eq in Hz].
      destruct (HI Hz) as [Hlast _]. apply guard_card_ok in Hg as (_ & _ & _ & _ & [Hle|[_ Hp']]); [|congruence].
      rewrite Hlast in Hle. apply parseCard_above_Z in Hp. apply bz_inj.
      change (bz x5a) with 90 in *. lia. }
    subst c. split; [by apply guard_card_ok in Hg as (_ & -> & _)|].
    cbn [parseCard] in Hp. ok_inv. destruct a. apply parseZCard_ok in Hok as (z & -> & Hz').
    by exists pre, z.
  - intros pre tok body st st' HI Ht Hg Hw Hsz. unfold z_last. cbn [set_deck sc_mask sc_last].
    rewrite (guard_card_has _ _ _ _ Hg) by done. rewrite orb_false_r. intros Hz.
    destruct (HI Hz) as [Hlast _]. apply guard_card_ok in Hg as (_ & _ & _ & _ & [Hle|[_ Hp']]); [|congruence].
    rewrite Hlast in Hle. change (bz x5a) with 90 in Hle. change (bz x57) with 87 in Hle. lia.
Qed.

Lemma checkType_required d mask c : checkType d mask = Ok () ->
  in_A_Z c = true -> has_letter (required (cardTables (d_Type d))) c = true -> has_letter mask c = true.
Proof.
  unfold checkType. cbv zeta. case_goal; [done|]. case_goal; [done|]. intros _ Hc.
  apply negb_false_iff, Z.eqb_eq in E0. unfold has_letter. intros Hr.
  apply (f_equal (fun z => Z.testbit z (bz c - 65))) in E0.
  rewrite Z.ldiff_spec, Hr, Z.bits_0 in E0. by destruct (Z.testbit mask _).
Qed.

Lemma required_Z t : has_letter (required (cardTables t)) x5a = true.
Proof. by destruct t. Qed.

(** A body with its Z line, when its checksum is right, has a valid Z. *)
Lemma HasValidZ_line data body z : strip data = body ++ card_text x5a [z] -> len z = 32 ->
  verifyZ (strip data) = Ok () -> HasValidZ data = Ok true.
Proof.
  intros Hs Hz Hv. unfold HasValidZ. rewrite StripClearsign_strip. cbn [obind]. rewrite Hv, Hs.
  cbn [card_text join_sp]. change (x5a :: x20 :: z ++ [lf]) with ([x5a; x20] ++ z ++ [lf]).
  assert (len (body ++ [x5a; x20] ++ z ++ [lf]) = len body + 35) as Hl by len_lia.
  cbv zeta. unfold or_else. pose proof (len_nonneg body).
  rewrite !byte_is_ok by (rewrite Hl; lia). rewrite Hl.
  replace (len body + 35 <? 35) with false by lia.
  replace (len body + 35 - 35) with (len body + 0) by lia.
  replace (len body + 35 - 34) with (len body + 1) by lia.
  replace (len body + 35 - 1) with (len body + 34) by lia.
  rewrite !at_is_app_r by lia.
  replace 34 with (len ([x5a; x20] ++ z) + 0) by len_lia.
  rewrite (app_assoc [x5a; x20]), at_is_app_r by lia. done.
Qed.

(** C39: Parse returns, with a deck or an error, on every byte string: no card
    text makes the scanner index out of range, panic or loop. *)
Theorem parse_total (data : bytes) :
  (exists d, Parse (Some data) = Ok d) \/ (exists e, Parse (Some data) = Err e).
Proof.
  pose proof (Parse_returns data) as H.
  destruct (Parse (Some data)); naive_solver.
Qed.

(** An artifact Parse accepts ends, clearsign-stripped, in a Z card whose
    MD5 was compared with the text before it, unless it is followed by the two
    bytes NUL LF: the scanner takes those for the end of the cards. *)
Theorem parse_checksum (data : bytes) (d : Deck) :
  Parse (Some data) = Ok d ->
  HasValidZ data = Ok true
  \/ exists body z, strip data = body ++ bs "Z " ++ z ++ [lf; x00; lf] /\ len z = 32.
Proof.
  intros (content & d0 & mask & Hf & Hs & -> & Hc)%Parse_ok.
  apply frameArtifact_ok in Hf as (-> & He & Hv & _).
  destruct (scanCards_invariant z_last (strip data) zero_Deck z_last_step) as [_ Hp];
    [by right|done|].
  destruct (Hp _ _ Hs) as (read & st & HI & _ & <- & Hread).
  destruct HI as (_ & body & z & -> & Hz).
  { eapply checkType_required; [exact Hc|done|]. apply required_Z. }
  destruct Hread as [Hread|Hread].
  - left. by eapply HasValidZ_line.
  - right. exists body, z. split; [|done]. rewrite Hread. cbn [card_text join_sp].
    rewrite <- app_assoc. cbn. do 3 f_equal. by rewrite <- app_assoc.
Qed.

(** A control artifact with a wrong Z card, and the same with NUL LF after it. *)
Definition bad_control : bytes := bs "D 2024-01-01
T +x da39a3ee5e6b4b0d3255bfef95601890afd80709
U u
Z 00000000000000000000000000000000
".

(** A small well-formed control artifact. *)
Definition good_control : bytes := seal (bs "D 2024-01-01
T +x da39a3ee5e6b4b0d3255bfef95601890afd80709
U u
").

Definition deck_of (r : result Deck) : Deck := match r with Ok d => d | _ => zero_Deck end.

Lemma parse_checksum_witness :
  HasValidZ good_control = Ok true
  \/ exists body z, strip good_control = body ++ bs "Z " ++ z ++ [lf; x00; lf] /\ len z = 32.
Proof.
  apply (parse_checksum good_control (deck_of (Parse (Some good_control)))).
  vm_compute. reflexivity.
Defined.

(** the exception of the checksum property is real: a control artifact
    whose Z card is wrong is refused, and the same bytes followed by NUL LF are
    accepted as the same deck, with no valid Z card. *)
Theorem parse_accepts_unverified :
  (exists e, Parse (Some bad_control) = Err e)
  /\ Parse (Some (bad_control ++ [x00; lf])) = Parse (Some good_control)
  /\ (exists d, Parse (Some good_control) = Ok d)
  /\ HasValidZ (bad_control ++ [x00; lf]) = Ok false
  /\ (VerifyZ (bad_control ++ [x00; lf]) = Ok ()).
Proof.
  split; [eexists; vm_compute; reflexivity|]. split; [vm_compute; reflexivity|].
  split; [eexists; vm_compute; reflexivity|]. split; vm_compute; reflexivity.
Qed.
