(* ===== verification/DeckWf.v ===== *)
(** * Well-formed decks, and that Parse builds only those

    [wf_fields] is the type invariant of a parsed [Deck]; [normalize] is what a
    reader gets back from what a writer emits for a deck; [canonical] decks are
    the fixed points. *)

From S2P Require Import Prelude GoStd GoText GoCrypto Deck Escape Pathname Timestamp Clearsign Legality Marshal Parse ParseCorrect.

(** Strictly ascending, neighbour by neighbour. *)
Fixpoint sortedb {A} (less : A -> A -> bool) (l : list A) : bool :=
  match l with
  | [] => true
  | x :: l' => match l' with y :: _ => less x y | [] => true end && sortedb less l'
  end.

Lemma sortedb_ascending {A} (less : A -> A -> bool) l : strict_weak less ->
  sortedb less l = true -> ascending less l.
Proof.
  intros Hsw. induction l as [|x l IH]; simpl; [constructor|].
  intros [Hx Hl]%andb_true_iff. specialize (IH Hl). constructor; [done|].
  destruct l as [|y l]; [constructor|]. inversion IH as [|? ? _ Hf]; subst.
  constructor; [done|]. eapply Forall_impl; [exact Hf|]. intros z Hz. by eapply sw_trans.
Qed.

Lemma sortedb_snoc {A} (less : A -> A -> bool) l x :
  sortedb less l = true -> (forall y, last l = Some y -> less y x = true) ->
  sortedb less (l ++ [x]) = true.
Proof.
  induction l as [|y l IH]; [done|]. intros Hl Hx. simpl in Hl.
  apply andb_true_iff in Hl as [Hy Hl].
  change ((y :: l) ++ [x]) with (y :: (l ++ [x])). cbn [sortedb].
  destruct l as [|z l].
  - simpl. rewrite Hx by done. done.
  - rewrite IH; [|done|]. { cbn [app]. by rewrite Hy. }
    intros w Hw. apply Hx. done.
Qed.

(** ** The invariant *)
Definition attachment_wf (a : AttachmentCard) : bool :=
  simplePathname (a_Filename a) && negb (bool_decide (x2f ∈ a_Filename a))
  && (validArtifactHash (a_Target a) || wikiNameWellformed (a_Target a))
  && (empty (a_Source a) || validArtifactHash (a_Source a)).

Definition opt_hash (h : bytes) : bool := empty h || validArtifactHash h.

Definition file_wf (has_B : bool) (f : FileCard) : bool :=
  simplePathname (f_Name f) && negb (reserved (f_Name f))
  && (if empty (f_UUID f) then has_B && empty (f_Perm f) && empty (f_OldName f)
      else validArtifactHash (f_UUID f))
  && token_ok (f_Perm f)
  && (empty (f_OldName f) || (simplePathname (f_OldName f) && negb (empty (f_Perm f)))).

Definition field_wf (j : TicketField) : bool :=
  token_ok (j_Name j) && (empty (j_Value j) || negb (empty (j_Name j))).

Definition pick_wf (q : CherryPick) : bool := validArtifactHash (q_Target q) && opt_hash (q_Baseline q).

Definition submanifest_wf (s : SubmanifestCard) : bool :=
  simplePathname (s_Name s) && validArtifactHash (s_UUID s).

Lemma tag_type_rune c : is_tag_type c = true -> byte_rune c = [c].
Proof. intros H. apply byte_rune_ascii. revert H. by destruct c. Qed.

Definition tag_wf (t : TagCard) : bool :=
  is_tag_type (t_Type t) && negb (isHexToken (t_Name t))
  && (bool_decide (t_UUID t = bs "*") || validArtifactHash (t_UUID t))
  && (empty (t_Value t) || t_valuePresent t).

Definition lists_wf (d : Deck) : bool :=
  (forallb (file_wf (negb (empty (d_B d)))) (d_F d) && sortedb file_less (d_F d))
  && (forallb field_wf (d_J d) && sortedb field_less (d_J d))
  && (forallb validArtifactHash (d_M d) && sortedb hash_less (d_M d))
  && forallb validArtifactHash (d_P d)
  && forallb pick_wf (d_Q d)
  && (forallb submanifest_wf (d_S d) && sortedb submanifest_less (d_S d))
  && (forallb tag_wf (d_T d) && sortedb tag_less (d_T d)).

Definition singles_wf (d : Deck) : bool :=
  match d_A d with Some a => attachment_wf a | None => true end
  && opt_hash (d_B d) && opt_hash (d_G d) && opt_hash (d_I d)
  && (empty (d_C d) || d_cPresent d) && (empty (d_N d) || d_nPresent d)
  && ((len (d_P d) =? 0) || d_pPresent d)
  && match d_E d with Some e => validArtifactHash (e_UUID e) | None => true end
  && (empty (d_K d) || ((len (d_K d) =? 40) && isHexAnyCase (d_K d)))
  && (empty (d_L d) || wikiNameWellformed (d_L d))
  && (empty (d_R d) || ((len (d_R d) =? 32) && isHexAnyCase (d_R d)))
  && match d_U d with Some u => negb (empty u) | None => true end
  && match d_W d with Some w => len w <=? MaxUint64 | None => true end
  && empty (d_Z d).

Definition wf_fields (d : Deck) : bool := lists_wf d && singles_wf d.

(** ** Each card parser preserves the invariant *)
Lemma Compare_flip a b : (Compare a b >? 0) = (Compare b a <? 0).
Proof.
  apply eq_true_iff_eq. unfold Compare. rewrite strings_Compare_lt, strings_Compare_gt. done.
Qed.

Lemma require_after_ok {A} (key : A -> bytes) c l cur :
  require_after key c l cur = Ok () ->
  forall y, last l = Some y -> (Compare (key y) cur <? 0) = true.
Proof.
  unfold require_after, requireAscending. intros H y Hy. rewrite Hy, Compare_flip in H.
  by destruct (Compare (key y) cur <? 0).
Qed.

Lemma requireTagAscending_ok p q : requireTagAscending p q = Ok () -> tag_less p q = true.
Proof.
  unfold requireTagAscending, tag_less. cbv zeta. rewrite !Compare_flip.
  intros H. destruct (Compare (tagOrderKey p) (tagOrderKey q) <? 0) eqn:E1.
  { destruct (Compare _ _ =? 0) eqn:E; simpl; [|done]. zbool. lia. }
  destruct (Compare (tagOrderKey q) (tagOrderKey p) <? 0) eqn:E2; [done|].
  destruct (Compare (t_UUID p) (t_UUID q) <? 0) eqn:E3; [|done].
  destruct (Compare (tagOrderKey p) (tagOrderKey q) =? 0) eqn:E4; simpl; [done|].
  rewrite <- (Compare_flip (tagOrderKey p)) in E2. zbool. lia.
Qed.

Lemma file_wf_more b f : file_wf b f = true -> file_wf true f = true.
Proof.
  unfold file_wf. destruct b; [done|]. destruct (empty (f_UUID f)); simpl; [|done].
  by rewrite andb_false_r.
Qed.

Lemma forallb_mono {A} (p q : A -> bool) l :
  (forall x, p x = true -> q x = true) -> forallb p l = true -> forallb q l = true.
Proof. intros Hpq. rewrite !forallb_forall. auto. Qed.

Lemma forallb_snoc {A} (p : A -> bool) l x : forallb p (l ++ [x]) = forallb p l && p x.
Proof. rewrite forallb_app. simpl. by rewrite andb_true_r. Qed.

(** Open a deck, split the invariant into its conjuncts and keep what is new. *)
Ltac split_wf :=
  repeat match goal with
  | H : context [andb _ _ = true] |- _ => rewrite andb_true_iff in H
  | H : _ /\ _ |- _ => destruct H
  | |- context [andb _ _ = true] => rewrite andb_true_iff
  | |- _ /\ _ => split
  end.
Ltac wf_update d Hwf :=
  destruct d; unfold wf_fields, lists_wf, singles_wf in *; cbn in *;
  rewrite ?forallb_snoc in *; split_wf; try assumption; try reflexivity.

(** Pass the next error exit of the call the goal is about. *)
Ltac pass_err E :=
  match goal with |- (if ?b then Err _ else _) = Ok _ -> _ => destruct b eqn:E; [discriminate|] end.

Lemma validArtifactHash_nonempty h : validArtifactHash h = true -> empty h = false.
Proof. by destruct h. Qed.

Lemma hash_opt h : validArtifactHash h = true -> opt_hash h = true.
Proof. intros H. unfold opt_hash. rewrite H. apply orb_true_r. Qed.
#[local] Hint Resolve hash_opt : core.

Lemma setHashCard_ok ts what b h : setHashCard ts what b = Ok h ->
  ts = [h] /\ (if b then (len h =? 40) && isHexAnyCase h else validArtifactHash h) = true.
Proof.
  unfold setHashCard. destruct ts as [|h' [|? ?]]; [done| |done]. cbv zeta.
  destruct (negb (if b then _ else _)) eqn:E; [done|]. intros [= <-]. split; [done|].
  by apply negb_false_iff.
Qed.

Lemma setStringCard_ok ts what v : setStringCard ts what true = Ok v -> exists t, ts = [t] /\ v = FossilDecode t.
Proof. unfold setStringCard. destruct ts as [|t [|? ?]]; [done| |done]. intros [= <-]. eauto. Qed.

Lemma wf_A d d' ts : tokens_ok ts -> interior_empty ts = false -> wf_fields d = true ->
  parseACard d ts = Ok d' -> wf_fields d' = true.
Proof.
  intros Hts Hin Hwf.
  unfold parseACard. destruct ts as [|t0 [|t1 vs]]; [done|done|]. cbv zeta.
  repeat (case_goal; [done|]). destruct vs as [|src vs].
  - intros [= <-]. wf_update d Hwf. unfold attachment_wf. cbn. split_wf; try done.
    + apply simplePathname_tail. by apply negb_false_iff.
    + apply negb_true_iff, bool_decide_eq_false, fileTail_no_slash.
    + apply andb_false_iff in E1. rewrite !negb_false_iff in E1. by apply orb_true_iff.
  - case_goal; [done|]. intros [= <-]. wf_update d Hwf. unfold attachment_wf. cbn. split_wf; try done.
    + apply simplePathname_tail. by apply negb_false_iff.
    + apply negb_true_iff, bool_decide_eq_false, fileTail_no_slash.
    + apply andb_false_iff in E1. rewrite !negb_false_iff in E1. by apply orb_true_iff.
    + apply negb_false_iff in E2. rewrite E2. apply orb_true_r.
Qed.

Lemma wf_hash d d' ts (set : bytes -> Deck -> Deck) what :
  (forall h, opt_hash h = true -> empty h = false -> wf_fields (set h d) = true) ->
  (let? h := setHashCard ts what false in Ok (set h d)) = Ok d' -> wf_fields d' = true.
Proof.
  intros Hs H. ok_inv. apply setHashCard_ok in Hok as [_ Hh]. apply Hs; [auto|].
  by apply validArtifactHash_nonempty.
Qed.

Lemma wf_F d d' ts : tokens_ok ts -> interior_empty ts = false -> wf_fields d = true ->
  parseFCard d ts = Ok d' -> wf_fields d' = true.
Proof.
  intros Hts Hin Hwf.
  rewrite parseFCard_eq. pass_err E. cbv zeta. pass_err E0. pass_err E1.
  intros H. ok_inv. destruct a, a0. destruct (reserved _) eqn:Er; [by injection Hk0 as <-|].
  injection Hk0 as <-. pose proof (require_after_ok _ _ _ _ Hok0) as Hlast.
  apply negb_false_iff in E0. zbool.
  match goal with |- wf_fields (set_F (_ ++ [?f]) _) = true => set (fc := f) end.
  assert (file_wf (negb (empty (d_B d))) fc = true) as Hfc.
  { subst fc. unfold file_wf. cbn [f_Name f_UUID f_Perm f_OldName]. rewrite E0, Er. clear E0 Er Hlast Hwf.
    destruct ts as [|t0 [|t1 [|t2 [|t3 [|t4 l]]]]];
      unfold tokens_ok in Hts; rewrite ?Forall_cons in Hts; unfold token_ok in *; cbn in *; try done.
    - by destruct (empty (d_B d)).
    - destruct (empty t1); [by destruct (empty (d_B d))|].
      by destruct (validArtifactHash t1).
    - destruct Hts as (_ & _ & H3 & _).
      destruct (empty t1); [by rewrite orb_true_r in Hin|].
      rewrite H3. by destruct (validArtifactHash t1).
    - destruct Hts as (_ & _ & H3 & _).
      destruct (empty t1); [by rewrite orb_true_r in Hin|].
      destruct (empty t2); [by rewrite !orb_true_r in Hin|].
      change (len [t0; t1; t2; t3] >=? 4) with true in *.
      rewrite H3. destruct (simplePathname (FossilDecode t3)); [|by destruct E1].
      rewrite orb_true_r. by destruct (validArtifactHash t1).
    - exfalso. zbool. rewrite !len_cons in *. pose proof (len_nonneg l). lia. }
  assert (forall y, last (d_F d) = Some y -> file_less y fc = true) as Hlast' by exact Hlast.
  clearbody fc. clear Hlast. wf_update d Hwf. by apply sortedb_snoc.
Qed.

Lemma wf_J d d' ts : tokens_ok ts -> interior_empty ts = false -> wf_fields d = true ->
  parseJCard d ts = Ok d' -> wf_fields d' = true.
Proof.
  intros Hts Hin Hwf.
  unfold parseJCard. destruct ts as [|t0 vs]; [done|]. case_goal; [done|]. cbv zeta. intros H. ok_inv.
  destruct a. pose proof (require_after_ok _ _ _ _ Hok) as Hlast. cbn in Hlast.
  inversion Hts as [|? ? Ht0 _]; subst. wf_update d Hwf.
  - unfold field_wf, token_ok in *. cbn. rewrite Ht0. destruct vs as [|v vs]; [done|]. cbn in Hin.
    destruct t0; [done|]. by rewrite orb_true_r.
  - by apply sortedb_snoc.
Qed.

Lemma wf_M d d' ts : tokens_ok ts -> interior_empty ts = false -> wf_fields d = true ->
  parseMCard d ts = Ok d' -> wf_fields d' = true.
Proof.
  intros Hts Hin Hwf.
  unfold parseMCard. destruct ts as [|t0 [|? ?]]; [done| |done]. case_goal; [done|]. intros H. ok_inv.
  destruct a. pose proof (require_after_ok _ _ _ _ Hok) as Hlast. apply negb_false_iff in E.
  wf_update d Hwf. by apply sortedb_snoc.
Qed.

Lemma wf_L d d' ts : tokens_ok ts -> interior_empty ts = false -> wf_fields d = true ->
  parseLCard d ts = Ok d' -> wf_fields d' = true.
Proof.
  intros Hts Hin Hwf.
  unfold parseLCard. destruct ts as [|t0 [|? ?]]; [done| |done]. cbv zeta. case_goal; [done|].
  intros [= <-]. apply negb_false_iff in E. wf_update d Hwf. rewrite E. apply orb_true_r.
Qed.

Lemma wf_P d d' ts : tokens_ok ts -> interior_empty ts = false -> wf_fields d = true ->
  parsePCard d ts = Ok d' -> wf_fields d' = true.
Proof.
  intros Hts Hin Hwf.
  unfold parsePCard. cbv zeta. intros H. ok_inv. destruct a.
  assert (forallb validArtifactHash ts = true).
  { clear -Hok. revert Hok. induction ts as [|t l IH]; simpl; [done|].
    destruct (validArtifactHash t); simpl; [done|done]. }
  wf_update d Hwf; [|by rewrite orb_true_r].
  rewrite forallb_app. by split_wf.
Qed.

Lemma wf_Q d d' ts : tokens_ok ts -> interior_empty ts = false -> wf_fields d = true ->
  parseQCard d ts = Ok d' -> wf_fields d' = true.
Proof.
  intros Hts Hin Hwf.
  unfold parseQCard. destruct ts as [|[|sign target] vs]; [done|done|].
  repeat (case_goal; [done|]). apply negb_false_iff in E1. destruct vs as [|b vs].
  - intros [= <-]. wf_update d Hwf. unfold pick_wf. cbn. by rewrite E1.
  - case_goal; [done|]. intros [= <-]. wf_update d Hwf. unfold pick_wf. cbn. rewrite E1.
    apply negb_false_iff in E2. by apply hash_opt.
Qed.

Lemma wf_S d d' ts : tokens_ok ts -> interior_empty ts = false -> wf_fields d = true ->
  parseSCard d ts = Ok d' -> wf_fields d' = true.
Proof.
  intros Hts Hin Hwf.
  unfold parseSCard. destruct ts as [|t0 [|t1 [|? ?]]]; [done|done| |done]. cbv zeta.
  repeat (case_goal; [done|]). intros H. ok_inv. destruct a.
  pose proof (require_after_ok _ _ _ _ Hok) as Hlast. apply negb_false_iff in E, E0. cbn in *.
  wf_update d Hwf.
  - unfold submanifest_wf. cbn. by rewrite E, E0.
  - by apply sortedb_snoc.
Qed.

Lemma wf_T d d' ts : tokens_ok ts -> interior_empty ts = false -> wf_fields d = true ->
  parseTCard d ts = Ok d' -> wf_fields d' = true.
Proof.
  intros Hts Hin Hwf.
  unfold parseTCard. destruct ts as [|[|sign nm] vs]; [done|done|].
  case_goal; [done|]. destruct vs as [|uuid vs]; [done|]. case_goal; [done|]. cbv zeta.
  set (tc := mk_TagCard _ _ _ _ _). case_goal; [done|]. case_goal; [done|].
  intros H. ok_inv. destruct a. apply negb_false_iff in E.
  assert (tag_wf tc = true) as Htc.
  { unfold tag_wf. rewrite E1. cbn [tc t_Type]. rewrite E. cbn [negb andb]. split_wf.
    - apply andb_false_iff in E2. rewrite !negb_false_iff in E2. by apply orb_true_iff.
    - subst tc. cbn. by destruct vs; rewrite ?orb_true_r. }
  clearbody tc. wf_update d Hwf.
  apply sortedb_snoc; [done|]. intros y Hy. rewrite Hy in Hok. by apply requireTagAscending_ok.
Qed.

Lemma parseCard_wf d c ts d' : tokens_ok ts -> interior_empty ts = false ->
  wf_fields d = true -> parseCard d c ts = Ok d' -> wf_fields d' = true.
Proof.
  intros Hts Hin Hwf. unfold parseCard. destruct c; try done.
  - by apply wf_A.
  - apply wf_hash. intros h Hh Hne. wf_update d Hwf.
    rewrite Hne. eapply forallb_mono; [|eassumption]. apply file_wf_more.
  - cbv zeta. intros H. ok_inv. wf_update d Hwf. apply orb_true_r.
  - unfold parseDCard. destruct ts as [|? [|? ?]]; try done. intros H. ok_inv. wf_update d Hwf.
  - unfold parseECard. destruct ts as [|? [|? [|? ?]]]; try done. intros H. ok_inv.
    case_hyp Hk; [done|]. injection Hk as <-. apply negb_false_iff in E. wf_update d Hwf.
  - by apply wf_F.
  - apply wf_hash. intros h Hh Hne. wf_update d Hwf.
  - intros H. ok_inv. wf_update d Hwf.
  - apply wf_hash. intros h Hh Hne. wf_update d Hwf.
  - by apply wf_J.
  - intros H. ok_inv. apply setHashCard_ok in Hok as [_ Hh]. wf_update d Hwf.
    apply orb_true_iff. right. by split_wf.
  - by apply wf_L.
  - by apply wf_M.
  - cbv zeta. intros H. ok_inv. wf_update d Hwf. apply orb_true_r.
  - by apply wf_P.
  - by apply wf_Q.
  - intros H. ok_inv. unfold setChecksumCard in Hok. destruct ts as [|t [|? ?]]; try done.
    case_hyp Hok; [done|]. injection Hok as <-. zbool. wf_update d Hwf.
    apply orb_true_iff. right. split_wf; [lia|done].
  - by apply wf_S.
  - by apply wf_T.
  - unfold parseUCard. case_goal; [done|]. cbv zeta. intros [= <-]. wf_update d Hwf.
    destruct ts as [|t ?]; [done|]. by destruct (empty (FossilDecode t)) eqn:E'; [|rewrite E'].
  - intros H. ok_inv. done.
Qed.
