(* ===== verification/Canonical.v ===== *)
(** * Canonical decks: what a writer's text reads back as

    [normalize d] is the deck that [Marshal d] denotes: lists in wire order,
    hex in lower case, present flags made explicit.  A [canonical] deck is well
    formed, has writable times and is legal for its type. *)

From S2P Require Import Prelude GoStd GoText GoCrypto Deck Escape Pathname Timestamp Clearsign Legality Marshal Parse ParseCorrect DeckWf.

(** ** Which cards a deck has *)
Definition card_letters : bytes := bs "ABCDEFGHIJKLMNPQRSTUWZ".

Definition present (d : Deck) (c : byte) : bool :=
  match c with
  | x41 => bool_decide (is_Some (d_A d))
  | x42 => negb (empty (d_B d))
  | x43 => negb (empty (d_C d)) || d_cPresent d
  | x44 => negb (IsZero (d_D d))
  | x45 => bool_decide (is_Some (d_E d))
  | x46 => len (d_F d) >? 0
  | x47 => negb (empty (d_G d))
  | x48 => negb (empty (d_H d))
  | x49 => negb (empty (d_I d))
  | x4a => len (d_J d) >? 0
  | x4b => negb (empty (d_K d))
  | x4c => negb (empty (d_L d))
  | x4d => len (d_M d) >? 0
  | x4e => negb (empty (d_N d)) || d_nPresent d
  | x50 => (len (d_P d) >? 0) || d_pPresent d
  | x51 => len (d_Q d) >? 0
  | x52 => negb (empty (d_R d))
  | x53 => len (d_S d) >? 0
  | x54 => len (d_T d) >? 0
  | x55 => match d_U d with Some u => negb (empty u) | None => false end
  | x57 => bool_decide (is_Some (d_W d))
  | x5a => true
  | _ => false
  end.

(** The mask a scan of the deck's text computes. *)
Definition mask_of (d : Deck) : Z :=
  foldl (fun m c => if present d c then Z.lor m (letter_bit c) else m) 0 card_letters.

(** ** The normal form *)
Definition lower (s : bytes) : bytes := map lower_byte s.

Definition norm_file (f : FileCard) : FileCard :=
  if empty (f_UUID f) then mk_FileCard (f_Name f) [] [] []
  else mk_FileCard (f_Name f) (f_UUID f)
         (if empty (f_Perm f) && negb (empty (f_OldName f)) then bs "w" else f_Perm f) (f_OldName f).

Definition norm_tag (t : TagCard) : TagCard :=
  mk_TagCard (t_Type t) (t_Name t) (t_UUID t) (t_Value t) (negb (empty (t_Value t)) || t_valuePresent t).

Definition normalize `{GoSort} (d : Deck) : Deck :=
  mk_Deck (d_Type d) (d_A d) (d_B d) (d_C d) (d_D d) (d_E d)
    (map norm_file (sort_slice file_less (d_F d)))
    (d_G d) (d_H d) (d_I d)
    (sort_slice field_less (d_J d))
    (lower (d_K d)) (d_L d)
    (sort_slice hash_less (d_M d))
    (d_N d) (d_P d) (d_Q d) (lower (d_R d))
    (sort_slice submanifest_less (d_S d))
    (map norm_tag (sort_slice tag_less (d_T d)))
    (match d_U d with Some [] => None | u => u end)
    (d_W d) []
    (negb (empty (d_C d)) || d_cPresent d)
    (negb (empty (d_N d)) || d_nPresent d)
    (negb (len (d_P d) =? 0) || d_pPresent d).

Definition times_ok (d : Deck) : bool :=
  (IsZero (d_D d) || time_ok (d_D d))
  && match d_E d with Some e => time_ok (e_Date e) | None => true end.

Definition type_ok (d : Deck) : bool :=
  bool_decide (d_Type d = final_type d (mask_of d))
  && match checkType d (mask_of d) with Ok _ => true | _ => false end.

Definition lower_ok (d : Deck) : bool :=
  bool_decide (lower (d_K d) = d_K d) && bool_decide (lower (d_R d) = d_R d).

Definition canonical (d : Deck) : bool :=
  wf_fields d && times_ok d && type_ok d && lower_ok d.

(** ** The cards of a canonical deck, as the scanner sees them *)
Inductive item := Toks (c : byte) (ts : list bytes) | Body (w : bytes).

Definition item_letter (it : item) : byte := match it with Toks c _ => c | Body _ => x57 end.

Definition item_text (it : item) : bytes :=
  match it with
  | Toks c ts => card_text c ts
  | Body w => card_text x57 [dec (len w)] ++ w ++ [lf]
  end.

Definition opt_tok (b : bool) (t : bytes) : list bytes := if b then [t] else [].
Definition opt_item (b : bool) (it : item) : list item := if b then [it] else [].

Definition file_item (encode : bytes -> bytes) (f : FileCard) : item :=
  Toks x46 (encode (f_Name f) ::
    (if empty (f_UUID f) then []
     else f_UUID f :: opt_tok (negb (empty (f_Perm f))) (f_Perm f)
          ++ opt_tok (negb (empty (f_OldName f))) (encode (f_OldName f)))).

Definition field_item (j : TicketField) : item :=
  Toks x4a (j_Name j :: opt_tok (negb (empty (j_Value j))) (FossilEncode (j_Value j))).

Definition pick_item (q : CherryPick) : item :=
  Toks x51 (((if q_IsBackout q then x2d else x2b) :: q_Target q)
            :: opt_tok (negb (empty (q_Baseline q))) (q_Baseline q)).

Definition submanifest_item (sc : SubmanifestCard) : item :=
  Toks x53 [CanonicalEncode (s_Name sc); s_UUID sc].

Definition tag_item (t : TagCard) : item :=
  Toks x54 ((byte_rune (t_Type t) ++ FossilEncode (t_Name t)) :: t_UUID t
            :: opt_tok (t_valuePresent t) (FossilEncode (t_Value t))).

Definition deck_encode (d : Deck) : bytes -> bytes :=
  if bool_decide (d_Type d = Submanifest) then CanonicalEncode else FossilEncode.

(** The items of one letter. *)
Definition group (d : Deck) (c : byte) : list item :=
  match c with
  | x41 => match d_A d with
           | Some a => [Toks x41 (FossilEncode (a_Filename a) :: FossilEncode (a_Target a)
                                  :: opt_tok (negb (empty (a_Source a))) (a_Source a))]
           | None => []
           end
  | x42 => opt_item (negb (empty (d_B d))) (Toks x42 [d_B d])
  | x43 => opt_item (d_cPresent d) (Toks x43 [FossilEncode (d_C d)])
  | x44 => opt_item (negb (IsZero (d_D d))) (Toks x44 [marshalTimestamp (d_D d) 3])
  | x45 => match d_E d with
           | Some e => [Toks x45 [marshalTimestamp (e_Date e) 0; e_UUID e]]
           | None => []
           end
  | x46 => map (file_item (deck_encode d)) (d_F d)
  | x47 => opt_item (negb (empty (d_G d))) (Toks x47 [d_G d])
  | x48 => opt_item (negb (empty (d_H d))) (Toks x48 [FossilEncode (d_H d)])
  | x49 => opt_item (negb (empty (d_I d))) (Toks x49 [d_I d])
  | x4a => map field_item (d_J d)
  | x4b => opt_item (negb (empty (d_K d))) (Toks x4b [d_K d])
  | x4c => opt_item (negb (empty (d_L d))) (Toks x4c [FossilEncode (d_L d)])
  | x4d => map (fun m => Toks x4d [m]) (d_M d)
  | x4e => opt_item (d_nPresent d) (Toks x4e [FossilEncode (d_N d)])
  | x50 => opt_item (d_pPresent d) (Toks x50 (d_P d))
  | x51 => map pick_item (d_Q d)
  | x52 => opt_item (negb (empty (d_R d))) (Toks x52 [d_R d])
  | x53 => map submanifest_item (d_S d)
  | x54 => map tag_item (d_T d)
  | x55 => match d_U d with Some u => opt_item (negb (empty u)) (Toks x55 [FossilEncode u]) | None => [] end
  | x57 => match d_W d with Some w => [Body w] | None => [] end
  | _ => []
  end.

Definition texts (l : list item) : bytes := l ≫= item_text.

(** ** A writer's text is the text of the normal form's items *)
Lemma texts_app l k : texts (l ++ k) = texts l ++ texts k.
Proof. apply bind_app. Qed.

Lemma texts_app6 a b c d e f :
  texts (a ++ b ++ c ++ d ++ e ++ f) = texts a ++ texts b ++ texts c ++ texts d ++ texts e ++ texts f.
Proof. by rewrite !texts_app. Qed.

Lemma texts_map {A} (f : A -> item) l : texts (map f l) = l ≫= (fun x => item_text (f x)).
Proof. induction l as [|x l IH]; [done|]. cbn. by rewrite <- IH. Qed.

Lemma bind_map {A B} (g : B -> bytes) (f : A -> B) l : map f l ≫= g = l ≫= (fun x => g (f x)).
Proof. induction l as [|x l IH]; [done|]. cbn. by rewrite <- IH. Qed.

Lemma texts_opt b it : texts (opt_item b it) = if b then item_text it else [].
Proof. destruct b; [apply app_nil_r|done]. Qed.

Lemma bind_ext {A} (f g : A -> bytes) l : (forall x, f x = g x) -> l ≫= f = l ≫= g.
Proof. intros Hfg. induction l as [|x l IH]; [done|]. cbn. by rewrite IH, Hfg. Qed.

(** All groups in card order; Z is written by [seal]. *)
Definition items (d : Deck) : list item := card_letters ≫= group d.

Section text.
Context `{!GoSort} `{!GoUnicode}.
Context (d : Deck).

#[local] Abbreviation nd := (normalize d).

Lemma file_item_text encode f : item_text (file_item encode (norm_file f)) = writeFileCard f encode.
Proof using.
  unfold writeFileCard, norm_file, file_item, item_text. cbv zeta.
  destruct (empty (f_UUID f)) eqn:Eu; cbn [f_UUID f_Name f_Perm f_OldName].
  - by cbn.
  - rewrite Eu. cbn [negb]. set (perm := if _ && _ then _ else _).
    destruct (empty perm), (empty (f_OldName f)); cbn [negb opt_tok app]; unfold card_text, nl;
      cbn [join_sp]; rewrite <- ?app_assoc; reflexivity.
Qed.

Lemma field_item_text j : item_text (field_item j)
  = if negb (empty (j_Value j)) then bs "J " ++ j_Name j ++ bs " " ++ FossilEncode (j_Value j) ++ nl
    else bs "J " ++ j_Name j ++ nl.
Proof using.
  unfold field_item, item_text. destruct (empty (j_Value j)); cbn [negb opt_tok card_text join_sp];
    unfold nl; rewrite <- ?app_assoc; reflexivity.
Qed.

Lemma pick_item_text q : item_text (pick_item q)
  = let prefix := if q_IsBackout q then bs "-" else bs "+" in
    if negb (empty (q_Baseline q))
    then bs "Q " ++ prefix ++ q_Target q ++ bs " " ++ q_Baseline q ++ nl
    else bs "Q " ++ prefix ++ q_Target q ++ nl.
Proof using.
  unfold pick_item, item_text. cbv zeta.
  destruct (empty (q_Baseline q)), (q_IsBackout q); cbn [negb opt_tok card_text join_sp];
    unfold nl; rewrite <- ?app_assoc; reflexivity.
Qed.

Lemma tag_item_text t : item_text (tag_item (norm_tag t))
  = bs "T " ++ byte_rune (t_Type t) ++ FossilEncode (t_Name t) ++ bs " " ++ t_UUID t
    ++ (if negb (empty (t_Value t)) || t_valuePresent t then bs " " ++ FossilEncode (t_Value t) else [])
    ++ nl.
Proof using.
  unfold tag_item, norm_tag, item_text. cbn [t_Type t_Name t_UUID t_Value t_valuePresent].
  destruct (negb (empty (t_Value t)) || t_valuePresent t); cbn [opt_tok card_text join_sp];
    unfold nl; rewrite <- ?app_assoc; cbn; rewrite <- ?app_assoc; reflexivity.
Qed.

Lemma submanifest_item_text sc : item_text (submanifest_item sc)
  = bs "S " ++ CanonicalEncode (s_Name sc) ++ bs " " ++ s_UUID sc ++ nl.
Proof using.
  unfold submanifest_item, item_text. cbn [card_text join_sp]. rewrite <- ?app_assoc. reflexivity.
Qed.

Lemma group_ABCDE :
  texts (group nd x41 ++ group nd x42 ++ group nd x43 ++ group nd x44 ++ group nd x45) = marshalCardsABCDE d.
Proof using.
  rewrite !texts_app. unfold marshalCardsABCDE. cbn [group normalize d_A d_B d_C d_D d_E d_cPresent].
  rewrite !texts_opt. f_equal; [|f_equal; f_equal; f_equal].
  - destruct (d_A d) as [a|]; [|done]. unfold texts. cbn [mbind list_bind item_text app].
    destruct (empty (a_Source a)); cbn [negb opt_tok card_text join_sp]; rewrite ?app_nil_r;
      unfold nl; rewrite <- ?app_assoc; reflexivity.
  - destruct (d_E d) as [e|]; [|done]. unfold texts. cbn [mbind list_bind item_text card_text join_sp].
    rewrite ?app_nil_r, <- ?app_assoc. reflexivity.
Qed.

Lemma group_F : texts (group nd x46) = marshalCardF d.
Proof using.
  unfold marshalCardF. cbv zeta. cbn [group normalize d_F].
  change (deck_encode (normalize d)) with (deck_encode d).
  rewrite texts_map, bind_map. apply bind_ext. intros f. apply file_item_text.
Qed.

Lemma empty_lower s : empty (lower s) = empty s.
Proof using. by destruct s. Qed.

Lemma group_GHIJKL : is_ascii (d_K d) = true ->
  texts (group nd x47 ++ group nd x48 ++ group nd x49 ++ group nd x4a ++ group nd x4b ++ group nd x4c)
  = marshalCardsGHIJKL d.
Proof using.
  intros HK. rewrite !texts_app. unfold marshalCardsGHIJKL.
  cbn [group normalize d_G d_H d_I d_J d_K d_L].
  rewrite !texts_opt, texts_map, empty_lower. unfold ToLower. rewrite HK.
  do 3 (refine (f_equal2 app eq_refl _)). refine (f_equal2 app _ eq_refl).
  apply bind_ext, field_item_text.
Qed.

Lemma group_MNPQR : is_ascii (d_R d) = true ->
  texts (group nd x4d ++ group nd x4e ++ group nd x50 ++ group nd x51 ++ group nd x52)
  = marshalCardsMNPQR d.
Proof using.
  intros HR. rewrite !texts_app. unfold marshalCardsMNPQR.
  cbn [group normalize d_M d_N d_nPresent d_P d_pPresent d_Q d_R].
  rewrite !texts_opt, !texts_map, empty_lower. unfold ToLower. rewrite HR.
  do 2 (refine (f_equal2 app eq_refl _)). refine (f_equal2 app _ (f_equal2 app _ eq_refl)).
  - destruct (d_P d) as [|p P]; [by destruct (d_pPresent d)|].
    change (len (p :: P) =? 0) with false. cbn [negb orb item_text card_text]. unfold nl.
    rewrite <- ?app_assoc. reflexivity.
  - apply bind_ext, pick_item_text.
Qed.

Lemma group_S : texts (group nd x53) = marshalCardS d.
Proof using.
  unfold marshalCardS. cbn [group normalize d_S]. rewrite texts_map.
  apply bind_ext, submanifest_item_text.
Qed.

Lemma group_TUW : texts (group nd x54 ++ group nd x55 ++ group nd x57) = marshalCardsTUW d.
Proof using.
  rewrite !texts_app. unfold marshalCardsTUW. cbn [group normalize d_T d_U d_W].
  rewrite texts_map, bind_map. f_equal; [apply bind_ext, tag_item_text|]. f_equal.
  - destruct (d_U d) as [[|c u]|]; [done| |done]. cbn [empty negb]. by rewrite texts_opt.
  - destruct (d_W d) as [w|]; [|done]. unfold texts. cbn [mbind list_bind item_text card_text join_sp].
    rewrite ?app_nil_r. unfold nl. rewrite <- ?app_assoc. cbn. rewrite <- ?app_assoc. reflexivity.
Qed.

Lemma items_groups : items nd =
  (group nd x41 ++ group nd x42 ++ group nd x43 ++ group nd x44 ++ group nd x45)
  ++ group nd x46
  ++ (group nd x47 ++ group nd x48 ++ group nd x49 ++ group nd x4a ++ group nd x4b ++ group nd x4c)
  ++ (group nd x4d ++ group nd x4e ++ group nd x50 ++ group nd x51 ++ group nd x52)
  ++ group nd x53
  ++ (group nd x54 ++ group nd x55 ++ group nd x57).
Proof using.
  unfold items. change card_letters with
    [x41; x42; x43; x44; x45; x46; x47; x48; x49; x4a; x4b; x4c; x4d; x4e; x50; x51; x52; x53; x54; x55; x57; x5a].
  cbn [mbind list_bind]. change (group nd x5a) with (@nil item).
  by rewrite !app_nil_r, <- !app_assoc.
Qed.

Lemma marshalCards_items : is_ascii (d_K d) = true -> is_ascii (d_R d) = true ->
  marshalCards d = texts (items nd).
Proof using.
  intros HK HR. rewrite items_groups. unfold marshalCards.
  by rewrite texts_app6, group_ABCDE, group_F, group_GHIJKL, group_MNPQR, group_S, group_TUW.
Qed.
End text.
