(* ===== verification/RoundTrip.v ===== *)
(** * Reading back what Marshal writes

    The text of a canonical deck is scanned card by card: [run_items] is the
    loop on items, which splits into the guards on letters, [run_groups], and
    the card parsers, [parse_items]. *)

From S2P Require Import Prelude GoStd GoText GoCrypto Escape Deck Pathname Clearsign Timestamp Marshal Legality Parse ParseCorrect DeckWf Canonical.

(** ** The loop on items *)
Definition item_parse (d : Deck) (it : item) : result Deck :=
  match it with
  | Toks c ts =>
      if interior_empty ts then Err (Errorf "empty token between two others" []) else parseCard d c ts
  | Body w =>
      if bool_decide (is_Some (d_W d)) then Err (Errorf "more than one W-card" [])
      else Ok (set_W (Some w) d)
  end.

Definition item_step (st : scan_state) (it : item) : result scan_state :=
  let? st := guard_card st (item_letter it) in
  let? d := item_parse (sc_deck st) it in
  Ok (set_deck st d).

Fixpoint run_items (st : scan_state) (l : list item) : result scan_state :=
  match l with
  | [] => Ok st
  | it :: l' => let? st' := item_step st it in run_items st' l'
  end.

Fixpoint parse_items (d : Deck) (l : list item) : result Deck :=
  match l with
  | [] => Ok d
  | it :: l' => let? d' := item_parse d it in parse_items d' l'
  end.

Definition item_valid (it : item) : Prop :=
  match it with
  | Toks c ts => tokens_ok ts /\ Byte.eqb c x00 = false /\ Byte.eqb c x57 = false
  | Body w => len w <= MaxUint64
  end.

Lemma run_items_app st l k : run_items st (l ++ k) = let? st' := run_items st l in run_items st' k.
Proof.
  revert st. induction l as [|it l IH]; intros st; [done|]. cbn.
  destruct (item_step st it); try done. apply IH.
Qed.

Lemma parse_items_app d l k d' : parse_items d l = Ok d' -> parse_items d (l ++ k) = parse_items d' k.
Proof.
  revert d. induction l as [|it l IH]; intros d; cbn; [by intros [= ->]|].
  destruct (item_parse d it); try done. apply IH.
Qed.

(** The W size reads back its numeral. *)
Lemma dec_val_ge acc l v : 0 <= acc -> dec_val acc l = Some v -> acc <= v.
Proof.
  revert acc. induction l as [|c l IH]; intros acc Ha; cbn [dec_val]; [intros [= ->]; lia|].
  destruct (is_digit c) eqn:Hc; [|done]. unfold is_digit in Hc. zbool. intros Hv.
  apply IH in Hv; lia.
Qed.

Lemma w_size_dec_val l acc v : 0 <= acc -> v <= MaxUint64 -> dec_val acc l = Some v -> w_size l acc = Ok v.
Proof.
  revert acc. induction l as [|c l IH]; intros acc Ha Hm; cbn [dec_val w_size]; [by intros [= ->]|].
  destruct (is_digit c) eqn:Hc; [|done]. intros Hv. cbn [negb].
  unfold is_digit in Hc. zbool. assert (acc * 10 + (bz c - 48) <= v) by (eapply dec_val_ge; [|exact Hv]; lia).
  assert (acc <= (MaxUint64 - (bz c - 48)) / 10) by (apply Z.div_le_lower_bound; lia).
  replace (acc >? _) with false by lia. rewrite u64_small; [|unfold MaxUint64 in *; lia].
  apply IH; [lia|done|done].
Qed.

Lemma digits_token l : Forall (fun c => is_digit c = true) l -> token_ok l = true.
Proof.
  induction 1 as [|c l Hc _ IH]; [done|]. rewrite token_ok_cons, IH, andb_true_r.
  revert Hc. by_bytes c.
Qed.

Lemma dec_len (w : bytes) : dec (len w) = dec_nat (len w).
Proof. unfold dec. pose proof (len_nonneg w). by replace (len w <? 0) with false by lia. Qed.

Lemma scan_item fuel it r st st' : item_valid it -> r <> [] \/ (exists c ts, it = Toks c ts) ->
  item_step st it = Ok st' ->
  scan_loop (S fuel) (at_card (item_text it ++ r)) st = scan_loop fuel (at_card r) st'.
Proof.
  intros Hv Hr Hs. unfold item_step in Hs. ok_inv. destruct it as [c ts|w]; cbn [item_text item_letter item_valid] in *.
  - destruct Hv as (Hts & Hc & Hw). rewrite scan_loop_step, Hok by done. cbn [obind].
    cbn [item_parse] in Hok0. destruct (interior_empty ts); [done|]. by rewrite Hok0.
  - rewrite <- app_assoc, scan_loop_step_W, Hok. cbn [obind].
    assert (Hd : tokens_ok [dec (len w)]).
    { constructor; [|constructor]. rewrite dec_len. apply digits_token, dec_nat_digits, len_nonneg. }
    rewrite parseW_text by done. cbn [item_parse] in Hok0. case_bool_decide; [done|].
    injection Hok0 as <-. rewrite dec_len, (w_size_dec_val _ _ (len w)); [|lia|done|].
    2:{ apply dec_val_dec_nat, len_nonneg. }
    cbn [obind]. rewrite <- app_assoc. cbn [app].
    destruct Hr as [Hr|(? & ? & ?)]; [|done].
    assert (0 < len r) by (destruct r; [done|rewrite len_cons; pose proof (len_nonneg r); lia]).
    pose proof (len_nonneg w). rewrite len_app, len_cons.
    replace ((len w + (1 + len r) <? 2) || (len w >=? len w + (1 + len r) - 1)) with false by lia.
    replace (len w) with (len w + 0) at 1 by lia. rewrite at_is_app_r by lia. cbn [at_is idx].
    change (at_is (lf :: r) 0 lf) with true. cbn [negb obind].
    rewrite take_len_app. replace (len w + 1) with (len (w ++ [lf])) by (rewrite len_app; done).
    change (w ++ lf :: r) with (w ++ [lf] ++ r). by rewrite app_assoc, drop_len_app.
Qed.

Lemma item_text_length it : (2 <= length (item_text it))%nat.
Proof. destruct it; cbn [item_text]; [apply card_text_length|]. rewrite length_app. pose proof (card_text_length x57 [dec (len w)]). lia. Qed.

Lemma scan_items l : forall st st' r fuel, Forall item_valid l -> r <> [] ->
  run_items st l = Ok st' -> (length (texts l ++ r) < fuel)%nat ->
  exists fuel', (length r < fuel')%nat
    /\ scan_loop fuel (at_card (texts l ++ r)) st = scan_loop fuel' (at_card r) st'.
Proof.
  induction l as [|it l IH]; intros st st' r fuel Hv Hr Hrun Hf.
  { injection Hrun as <-. exists fuel. done. }
  inversion Hv as [|? ? Hi Hl]; subst. cbn [run_items] in Hrun. ok_inv.
  change (texts (it :: l)) with (item_text it ++ texts l) in *. rewrite <- app_assoc in *.
  destruct fuel as [|fuel]; [lia|].
  rewrite length_app in Hf. pose proof (item_text_length it).
  rewrite (scan_item _ _ _ _ _ Hi) by (done || left; by destruct (texts l)).
  apply IH; [done|done|done|lia].
Qed.

(** ** The guards, on ascending letters *)
Lemma in_A_Z_lt c : in_A_Z c = true -> 65 <= bz c <= 90.
Proof. unfold in_A_Z. intros. zbool. lia. Qed.

Lemma guard_card_ascending st c : in_A_Z c = true -> bz (sc_last st) <= bz c ->
  (singleOccurrence c = true -> c ∉ sc_seen st) ->
  guard_card st c = Ok (mk_scan (sc_deck st) c
    (if singleOccurrence c then c :: sc_seen st else sc_seen st) (Z.lor (sc_mask st) (letter_bit c))).
Proof.
  intros Hc Hl Hs. unfold guard_card, claim. rewrite Hc. cbn [negb]. cbv zeta.
  replace (bz c <? bz (sc_last st)) with false by lia. cbn [andb].
  destruct (singleOccurrence c) eqn:E; cbn [negb obind]; [|done].
  rewrite bool_decide_eq_false_2 by auto. done.
Qed.

(** What one group does to the scan. *)
Definition group_result (st : scan_state) (c : byte) (l : list item) (d' : Deck) (st' : scan_state) : Prop :=
  sc_deck st' = d'
  /\ sc_mask st' = (match l with [] => sc_mask st | _ => Z.lor (sc_mask st) (letter_bit c) end)
  /\ bz (sc_last st') <= bz c
  /\ (forall x, x ∈ sc_seen st' -> x ∈ sc_seen st \/ x = c).

Lemma run_group st c l d' : in_A_Z c = true -> bz (sc_last st) <= bz c ->
  Forall (fun it => item_letter it = c) l ->
  (singleOccurrence c = true -> l = [] \/ (c ∉ sc_seen st) /\ (length l <= 1)%nat) ->
  parse_items (sc_deck st) l = Ok d' ->
  exists st', run_items st l = Ok st' /\ group_result st c l d' st'.
Proof.
  intros Hc Hlast Hl Hs Hp. revert st d' Hlast Hs Hp.
  induction Hl as [|it l Hit Hl IH]; intros st d' Hlast Hs Hp.
  { injection Hp as <-. exists st. split; [done|]. split_and!; [done|done|done|]. auto. }
  cbn [parse_items run_items] in *. ok_inv. unfold item_step. rewrite Hit.
  rewrite guard_card_ascending by (done || (intros H; by destruct (Hs H) as [|[? _]])).
  cbn [obind sc_deck]. rewrite Hok. cbn [obind]. set (st1 := set_deck _ _).
  destruct (IH st1 d') as (st' & Hrun & Hd & Hm & Hl' & Hseen).
  - cbn. lia.
  - intros H. left. destruct (Hs H) as [|[_ Hlen]]; [done|]. destruct l; [done|simpl in Hlen; lia].
  - done.
  - exists st'. split; [done|]. split_and!; [done| |done|].
    + rewrite Hm. cbn. destruct l; [done|]. by rewrite <- Z.lor_assoc, Z.lor_diag.
    + intros x Hx. destruct (Hseen x Hx) as [Hx'|]; [|by right]. cbn in Hx'.
      destruct (singleOccurrence c); [|by left]. apply elem_of_cons in Hx' as [|]; auto.
Qed.

(** All groups, in the order of their letters. *)
Fixpoint letters_ascend (prev : Z) (cs : bytes) : bool :=
  match cs with
  | [] => true
  | c :: cs' => (prev <? bz c) && in_A_Z c && letters_ascend (bz c) cs'
  end.

Lemma letters_ascend_above prev cs c : letters_ascend prev cs = true -> c ∈ cs -> prev < bz c.
Proof.
  revert prev. induction cs as [|c' cs IH]; intros prev H Hin; [by apply not_elem_of_nil in Hin|].
  cbn in H. zbool. apply elem_of_cons in Hin as [->|Hin]; [done|].
  eapply Z.lt_trans; [eassumption|]. by apply IH.
Qed.

Definition groups_mask (g : byte -> list item) (m : Z) (cs : bytes) : Z :=
  foldl (fun m c => match g c with [] => m | _ => Z.lor m (letter_bit c) end) m cs.

Lemma run_groups (g : byte -> list item) cs : forall st d',
  letters_ascend (bz (sc_last st)) cs = true ->
  (forall c, c ∈ cs -> Forall (fun it => item_letter it = c) (g c)
     /\ (singleOccurrence c = true -> (length (g c) <= 1)%nat)) ->
  (forall c, c ∈ cs -> c ∉ sc_seen st) ->
  parse_items (sc_deck st) (cs ≫= g) = Ok d' ->
  exists st', run_items st (cs ≫= g) = Ok st' /\ sc_deck st' = d'
    /\ sc_mask st' = groups_mask g (sc_mask st) cs.
Proof.
  induction cs as [|c cs IH]; intros st d' Hasc Hg Hseen Hp.
  { injection Hp as <-. by exists st. }
  change ((c :: cs) ≫= g) with (g c ++ (cs ≫= g)) in *.
  cbn [letters_ascend] in Hasc. apply andb_true_iff in Hasc as [[Hlt Hc]%andb_true_iff Hasc].
  assert (exists d1, parse_items (sc_deck st) (g c) = Ok d1 /\ parse_items d1 (cs ≫= g) = Ok d') as (d1 & Hp1 & Hp2).
  { revert Hp. generalize (cs ≫= g) as k. generalize (sc_deck st) as d0. clear.
    induction (g c) as [|it l IHl]; intros d0 k Hp; [by exists d0|]. cbn in *. ok_inv.
    rewrite Hok. cbn. by apply IHl. }
  destruct (Hg c ltac:(by left)) as [Hl Hlen].
  destruct (run_group st c (g c) d1) as (st1 & Hr1 & Hd1 & Hm1 & Hl1 & Hs1); [done|lia|done| |done|].
  { intros H. right. split; [apply Hseen; by left|by apply Hlen]. }
  destruct (IH st1 d') as (st' & Hr & Hd & Hm).
  - clear -Hasc Hl1. destruct cs as [|c' cs]; [done|]. cbn in *.
    apply andb_true_iff in Hasc as [[? ?]%andb_true_iff ?]. rewrite !andb_true_iff. split_and!; [lia|done|done].
  - intros x Hx. apply Hg. by right.
  - intros x Hx Hin. destruct (Hs1 x Hin) as [Hin'| ->].
    + apply (Hseen x); [by right|done].
    + pose proof (letters_ascend_above _ _ _ Hasc Hx). lia.
  - by rewrite Hd1.
  - exists st'. rewrite run_items_app, Hr1. split; [done|]. split; [done|].
    rewrite Hm, Hm1. unfold groups_mask. cbn [foldl]. by destruct (g c).
Qed.

(** * Each card parser reads back what the writer of its card wrote *)

(** ** Repeatable cards: a list read back element by element *)
Lemma sortedb_mid {A} (less : A -> A -> bool) l x k y :
  sortedb less (l ++ x :: k) = true -> last l = Some y -> less y x = true.
Proof.
  induction l as [|z l IH]; [done|]. cbn [app sortedb]. intros [Hz Hs]%andb_true_iff Hy.
  destruct l as [|z' l]; [injection Hy as ->; exact Hz|]. by apply IH.
Qed.

Section list_card.
Context {A : Type} (get : Deck -> list A) (set : list A -> Deck -> Deck) (to_item : A -> item).
Context (less : A -> A -> bool) (ok : A -> bool) (side : Deck -> Prop).
Context (set_get : forall d, set (get d) d = d) (get_set : forall v d, get (set v d) = v).
Context (set_set : forall v w d, set v (set w d) = set v d).
Context (side_set : forall v d, side d -> side (set v d)).
Context (step : forall d x, side d -> ok x = true ->
  (forall y, last (get d) = Some y -> less y x = true) ->
  item_parse d (to_item x) = Ok (set (get d ++ [x]) d)).

Lemma parse_list l : forall d, side d -> forallb ok l = true -> sortedb less (get d ++ l) = true ->
  parse_items d (map to_item l) = Ok (set (get d ++ l) d).
Proof using All.
  induction l as [|x l IH]; intros d Hd Hok Hs.
  { cbn. by rewrite app_nil_r, set_get. }
  cbn in Hok |- *. apply andb_true_iff in Hok as [Hx Hl].
  rewrite step; [|done|done|intros y Hy; by eapply sortedb_mid].
  cbn [obind]. rewrite IH; [|by apply side_set|done|].
  - by rewrite get_set, set_set, <- app_assoc.
  - by rewrite get_set, <- app_assoc.
Qed.
End list_card.

(** The order of the lists that have none. *)
Definition no_order {A} (_ _ : A) : bool := true.
Lemma sortedb_no_order {A} (l : list A) : sortedb no_order l = true.
Proof. induction l as [|x l IH]; [done|]. cbn. rewrite IH. by destruct l. Qed.

(** ** Single cards *)
Lemma parse_opt d b it d' : (b = true -> item_parse d it = Ok d') -> (b = false -> d = d') ->
  parse_items d (opt_item b it) = Ok d'.
Proof. destruct b; cbn; intros H1 H2; [by rewrite H1|by rewrite H2]. Qed.

Lemma encode_nonempty s : s <> [] -> empty (FossilEncode s) = false.
Proof.
  intros Hs. destruct (FossilEncode s) eqn:E; [|done]. by apply (encode_nil_inv encode_byte) in E.
Qed.
Lemma canonical_encode_nonempty s : s <> [] -> empty (CanonicalEncode s) = false.
Proof.
  intros Hs. destruct (CanonicalEncode s) eqn:E; [|done].
  by apply (encode_nil_inv canonical_encode_byte) in E.
Qed.

Lemma empty_false (s : bytes) : empty s = false <-> s <> [].
Proof. destruct s; naive_solver. Qed.

Lemma require_after_less {A} (key : A -> bytes) c l cur :
  (forall y, last l = Some y -> (Compare (key y) cur <? 0) = true) ->
  require_after key c l cur = Ok ().
Proof.
  intros H. unfold require_after, requireAscending. destruct (last l) as [y|]; [|done].
  by rewrite Compare_flip, H.
Qed.

Lemma requireTagAscending_less p q : tag_less p q = true -> requireTagAscending p q = Ok ().
Proof.
  unfold requireTagAscending, tag_less. cbv zeta. rewrite !Compare_flip.
  destruct (Compare (tagOrderKey p) (tagOrderKey q) <? 0) eqn:E1; [done|].
  destruct (Compare (tagOrderKey p) (tagOrderKey q) =? 0) eqn:E4; cbn [negb]; [|done].
  intros ->. rewrite <- (Compare_flip (tagOrderKey p)).
  by replace (Compare (tagOrderKey p) (tagOrderKey q) >? 0) with false by lia.
Qed.

Lemma wiki_nonempty z : wikiNameWellformed z = true -> z <> [].
Proof. by destruct z. Qed.

Lemma validArtifactHash_ne h : validArtifactHash h = true -> h <> [].
Proof. by destruct h. Qed.

(** ** The stages *)
Ltac wf_parts H :=
  unfold wf_fields, lists_wf, singles_wf in H; rewrite !andb_true_iff in H;
  destruct H as [[[[[[[[HF HFs] [HJ HJs]] [HM HMs]] HP] HQ] [HS HSs]] [HT HTs]]
    [[[[[[[[[[[[[HA HB] HG] HI] HC] HN] HPp] HE] HK] HL] HR] HU] HW] HZ]].

Section stages.
Context (d : Deck) (Hwf : wf_fields d = true) (Htimes : times_ok d = true).

Lemma stage_A d0 : d_A d0 = None -> parse_items d0 (group d x41) = Ok (set_A (d_A d) d0).
Proof using Hwf.
  intros H0. wf_parts Hwf. cbn [group].
  destruct (d_A d) as [[fn tg src]|]; [|destruct d0; cbn in *; by subst].
  unfold attachment_wf in HA. cbn [a_Filename a_Target a_Source] in *.
  rewrite !andb_true_iff in HA. destruct HA as [[[Hs Hsl] Ht] Hsrc].
  apply negb_true_iff, bool_decide_eq_false in Hsl.
  assert (Htg : tg <> []).
  { apply orb_true_iff in Ht as [|]; [by apply validArtifactHash_ne|by apply wiki_nonempty]. }
  pose proof (encode_nonempty _ (simplePathname_nonempty _ Hs)) as Hn1.
  pose proof (encode_nonempty _ Htg) as Hn2.
  assert (Htok : negb (validArtifactHash tg) && negb (wikiNameWellformed tg) = false).
  { rewrite andb_false_iff, !negb_false_iff. by apply orb_true_iff. }
  destruct src as [|c src]; cbn [empty negb opt_tok parse_items item_parse interior_empty parseCard];
    rewrite Hn1, ?Hn2; cbn [orb]; unfold parseACard; rewrite !FossilDecode_Encode; cbv zeta;
    rewrite Hs, Htok, fileTail_id by done; cbn [negb].
  - done.
  - cbn [empty orb] in Hsrc. by rewrite Hsrc.
Qed.

Lemma setHashCard_one h what : validArtifactHash h = true -> setHashCard [h] what false = Ok h.
Proof using. intros H. unfold setHashCard. cbv zeta. by rewrite H. Qed.

Lemma hash_stage (h : bytes) c (set : bytes -> Deck -> Deck) d0 :
  opt_hash h = true ->
  (forall h, validArtifactHash h = true -> parseCard d0 c [h] = Ok (set h d0)) ->
  set [] d0 = d0 -> parse_items d0 (opt_item (negb (empty h)) (Toks c [h])) = Ok (set h d0).
Proof using.
  intros Hh Hc H0. apply parse_opt.
  - intros Hne. cbn [item_parse interior_empty].
    assert (Hv : validArtifactHash h = true) by (unfold opt_hash in Hh; by destruct (empty h)).
    by rewrite Hc.
  - destruct h; [done|done].
Qed.

Lemma stage_B d0 : d_B d0 = [] -> parse_items d0 (group d x42) = Ok (set_B (d_B d) d0).
Proof using Hwf.
  intros H0. wf_parts Hwf. apply hash_stage; [done| |destruct d0; cbn in *; by subst].
  intros h Hh. cbn [parseCard]. by rewrite setHashCard_one.
Qed.

Lemma stage_G d0 : d_G d0 = [] -> parse_items d0 (group d x47) = Ok (set_G (d_G d) d0).
Proof using Hwf.
  intros H0. wf_parts Hwf. apply hash_stage; [done| |destruct d0; cbn in *; by subst].
  intros h Hh. cbn [parseCard]. by rewrite setHashCard_one.
Qed.

Lemma stage_I d0 : d_I d0 = [] -> parse_items d0 (group d x49) = Ok (set_I (d_I d) d0).
Proof using Hwf.
  intros H0. wf_parts Hwf. apply hash_stage; [done| |destruct d0; cbn in *; by subst].
  intros h Hh. cbn [parseCard]. by rewrite setHashCard_one.
Qed.

Lemma stage_C d0 : d_C d0 = [] -> d_cPresent d0 = false ->
  parse_items d0 (group d x43) = Ok (set_C (d_C d) (set_cPresent (d_cPresent d) d0)).
Proof using Hwf.
  intros H0 H1. wf_parts Hwf. cbn [group]. apply parse_opt.
  - intros ->. cbn [item_parse interior_empty parseCard setStringCard]. cbv zeta.
    by rewrite FossilDecode_Encode.
  - intros Hp. rewrite Hp in *. destruct (d_C d); [|done]. destruct d0; cbn in *; by subst.
Qed.

Lemma stage_N d0 : d_N d0 = [] -> d_nPresent d0 = false ->
  parse_items d0 (group d x4e) = Ok (set_N (d_N d) (set_nPresent (d_nPresent d) d0)).
Proof using Hwf.
  intros H0 H1. wf_parts Hwf. cbn [group]. apply parse_opt.
  - intros ->. cbn [item_parse interior_empty parseCard setStringCard]. cbv zeta.
    by rewrite FossilDecode_Encode.
  - intros Hp. rewrite Hp in *. destruct (d_N d); [|done]. destruct d0; cbn in *; by subst.
Qed.

Lemma stage_D d0 : d_D d0 = 0 -> parse_items d0 (group d x44) = Ok (set_D (d_D d) d0).
Proof using Htimes.
  intros H0. unfold times_ok in Htimes. apply andb_true_iff in Htimes as [Ht _].
  cbn [group]. apply parse_opt.
  - intros Hz. cbn [item_parse interior_empty parseCard parseDCard].
    rewrite parse_marshal_time; [done|]. by destruct (IsZero (d_D d)).
  - intros Hz. unfold IsZero in Hz. zbool. rewrite Hz. destruct d0; cbn in *; by subst.
Qed.

Lemma marshalTimestamp_nonempty t k : time_ok t = true -> empty (marshalTimestamp t k) = false.
Proof using.
  intros Ht. destruct (marshalTimestamp t k) eqn:E; [|done].
  pose proof (parse_marshal_time t k Ht) as Hp. by rewrite E in Hp.
Qed.

Lemma stage_E d0 : d_E d0 = None -> parse_items d0 (group d x45) = Ok (set_E (d_E d) d0).
Proof using Hwf Htimes.
  intros H0. wf_parts Hwf. unfold times_ok in Htimes. apply andb_true_iff in Htimes as [_ Ht].
  cbn [group]. destruct (d_E d) as [[t u]|]; [|destruct d0; cbn in *; by subst].
  cbn [e_Date e_UUID] in *. cbn [parse_items item_parse interior_empty parseCard parseECard].
  rewrite marshalTimestamp_nonempty by done. cbn [orb]. rewrite parse_marshal_time by done.
  cbn [wrap_err obind]. by rewrite HE.
Qed.

Lemma stage_H d0 : d_H d0 = [] -> parse_items d0 (group d x48) = Ok (set_H (d_H d) d0).
Proof using.
  intros H0. cbn [group]. apply parse_opt.
  - intros _. cbn [item_parse interior_empty parseCard setStringCard obind]. by rewrite FossilDecode_Encode.
  - destruct (d_H d); [|done]. destruct d0; cbn in *; by subst.
Qed.

Lemma stage_K d0 : d_K d0 = [] -> parse_items d0 (group d x4b) = Ok (set_K (d_K d) d0).
Proof using Hwf.
  intros H0. wf_parts Hwf. cbn [group]. apply parse_opt.
  - intros Hne. destruct (empty (d_K d)); [done|]. cbn [orb] in HK.
    cbn [item_parse interior_empty parseCard]. unfold setHashCard. cbv zeta. by rewrite HK.
  - destruct (d_K d); [|done]. destruct d0; cbn in *; by subst.
Qed.

Lemma stage_L d0 : d_L d0 = [] -> parse_items d0 (group d x4c) = Ok (set_L (d_L d) d0).
Proof using Hwf.
  intros H0. wf_parts Hwf. cbn [group]. apply parse_opt.
  - intros Hne. destruct (empty (d_L d)); [done|]. cbn [orb] in HL.
    cbn [item_parse interior_empty parseCard parseLCard]. rewrite FossilDecode_Encode. cbv zeta. by rewrite HL.
  - destruct (d_L d); [|done]. destruct d0; cbn in *; by subst.
Qed.

Lemma stage_R d0 : d_R d0 = [] -> parse_items d0 (group d x52) = Ok (set_R (d_R d) d0).
Proof using Hwf.
  intros H0. wf_parts Hwf. cbn [group]. apply parse_opt.
  - intros Hne. destruct (empty (d_R d)); [done|]. cbn [orb] in HR. apply andb_true_iff in HR as [HR1 HR2].
    cbn [item_parse interior_empty parseCard setChecksumCard]. by rewrite HR1, HR2.
  - destruct (d_R d); [|done]. destruct d0; cbn in *; by subst.
Qed.

Lemma stage_U d0 : d_U d0 = None -> parse_items d0 (group d x55) = Ok (set_U (d_U d) d0).
Proof using Hwf.
  intros H0. wf_parts Hwf. cbn [group]. destruct (d_U d) as [u|]; [|destruct d0; cbn in *; by subst].
  rewrite HU. cbn [opt_item parse_items item_parse interior_empty parseCard]. unfold parseUCard. cbv zeta.
  rewrite FossilDecode_Encode. apply negb_true_iff in HU. rewrite HU. done.
Qed.

Lemma stage_W d0 : d_W d0 = None -> parse_items d0 (group d x57) = Ok (set_W (d_W d) d0).
Proof using.
  intros H0. cbn [group]. destruct (d_W d) as [w|]; [|destruct d0; cbn in *; by subst].
  cbn [parse_items item_parse]. by rewrite H0.
Qed.

Lemma parents_interior P : forallb validArtifactHash P = true -> interior_empty P = false.
Proof using.
  induction P as [|p P IH]; [done|]. cbn [forallb]. intros [Hp HP']%andb_true_iff.
  destruct P as [|p' P]; [done|].
  change (interior_empty (p :: p' :: P)) with (empty p || interior_empty (p' :: P)).
  rewrite IH by done. by rewrite validArtifactHash_nonempty.
Qed.

Lemma check_parents_all P : forallb validArtifactHash P = true -> check_parents P = Ok ().
Proof using.
  induction P as [|p P IH]; [done|]. cbn [forallb check_parents]. intros [-> HP']%andb_true_iff. by apply IH.
Qed.

Lemma stage_P d0 : d_P d0 = [] -> d_pPresent d0 = false ->
  parse_items d0 (group d x50) = Ok (set_P (d_P d) (set_pPresent (d_pPresent d) d0)).
Proof using Hwf.
  intros H0 H1. wf_parts Hwf. cbn [group]. apply parse_opt.
  - intros ->. cbn [item_parse parseCard]. rewrite parents_interior by done. unfold parsePCard. cbv zeta.
    rewrite check_parents_all by done. cbn [obind].
    replace (d_P (set_pPresent true d0)) with (@nil bytes); [done|]. by destruct d0.
  - intros Hp. rewrite Hp in *. rewrite orb_false_r in HPp. zbool. apply len_zero in HPp. rewrite HPp.
    destruct d0; cbn in *; by subst.
Qed.

(** ** The list stages *)
Lemma file_step encode d0 f : encode = FossilEncode \/ encode = CanonicalEncode ->
  d_B d0 = d_B d -> file_wf (negb (empty (d_B d))) f = true ->
  (forall y, last (d_F d0) = Some y -> file_less y f = true) ->
  item_parse d0 (file_item encode f) = Ok (set_F (d_F d0 ++ [f]) d0).
Proof using.
  intros Henc HB Hf Hlast. destruct f as [nm uuid perm old].
  assert (Hdec : forall s, FossilDecode (encode s) = s)
    by (destruct Henc as [-> | ->]; [apply FossilDecode_Encode|apply FossilDecode_CanonicalEncode]).
  assert (Hne : forall s, s <> [] -> empty (encode s) = false)
    by (destruct Henc as [-> | ->]; [apply encode_nonempty|apply canonical_encode_nonempty]).
  unfold file_wf in Hf. cbn [f_Name f_UUID f_Perm f_OldName] in Hf. rewrite !andb_true_iff in Hf.
  destruct Hf as [[[[Hs Hr] Hu] Hp] Ho]. apply negb_true_iff in Hr.
  assert (Hord : require_after f_Name x46 (d_F d0) nm = Ok ()) by by apply require_after_less.
  pose proof (Hne _ (simplePathname_nonempty _ Hs)) as Hn.
  unfold file_item. cbn [f_Name f_UUID f_Perm f_OldName item_parse parseCard].
  rewrite parseFCard_eq. destruct (empty uuid) eqn:Eu.
  { destruct uuid; [|done]. rewrite !andb_true_iff in Hu. destruct Hu as [[Hb Hpe] Hoe].
    destruct perm; [|done]. destruct old; [|done]. cbn. rewrite Hdec, Hs. cbn.
    rewrite HB. apply negb_true_iff in Hb. rewrite Hb. cbn. by rewrite Hord, Hr. }
  destruct perm as [|p perm].
  { destruct old; [|by rewrite andb_false_r in Ho].
    cbn. rewrite Hn, Hdec, Hs, Eu, Hu. cbn. by rewrite Hord, Hr. }
  destruct old as [|o old].
  { cbn. rewrite Hn, Eu, Hdec, Hs, Hu. cbn. by rewrite Hord, Hr. }
  cbn [empty orb andb negb] in Ho. rewrite andb_true_r in Ho.
  cbn [empty negb opt_tok app interior_empty]. rewrite Hn, Eu. cbn [empty orb].
  change (len [encode nm; uuid; p :: perm; encode (o :: old)]) with 4. cbn.
  rewrite !Hdec, Hs, Ho, Eu, Hu. cbn. by rewrite Hord, Hr.
Qed.

Lemma stage_F d0 : d_F d0 = [] -> d_B d0 = d_B d ->
  parse_items d0 (group d x46) = Ok (set_F (d_F d) d0).
Proof using Hwf.
  intros H0 HB0. wf_parts Hwf. cbn [group].
  rewrite (parse_list d_F set_F (file_item (deck_encode d)) file_less
             (file_wf (negb (empty (d_B d)))) (fun d1 => d_B d1 = d_B d)).
  - by rewrite H0.
  - by intros [].
  - by intros ? [].
  - by intros ? ? [].
  - by intros ? [].
  - intros d1 f HB1 Hf Hl. apply file_step; [|done..]. unfold deck_encode. case_bool_decide; auto.
  - done.
  - done.
  - by rewrite H0.
Qed.

Lemma stage_J d0 : d_J d0 = [] -> parse_items d0 (group d x4a) = Ok (set_J (d_J d) d0).
Proof using Hwf.
  intros H0. wf_parts Hwf. cbn [group].
  rewrite (parse_list d_J set_J field_item field_less field_wf (fun _ => True)).
  - by rewrite H0.
  - by intros [].
  - by intros ? [].
  - by intros ? ? [].
  - done.
  - intros d1 [nm v] _ Hf Hl. unfold field_wf in Hf. cbn [j_Name j_Value] in Hf.
    apply andb_true_iff in Hf as [_ Hne].
    assert (Hord : require_after j_Name x4a (d_J d1) nm = Ok ()) by by apply require_after_less.
    unfold field_item. cbn [j_Name j_Value item_parse parseCard].
    destruct v as [|c v]; cbn [empty negb opt_tok interior_empty] in *.
    + unfold parseJCard. cbn. by rewrite Hord.
    + destruct nm as [|b nm]; [done|]. cbn [empty orb]. unfold parseJCard.
      rewrite FossilDecode_Encode. cbn. by rewrite Hord.
  - done.
  - done.
  - by rewrite H0.
Qed.

Lemma stage_M d0 : d_M d0 = [] -> parse_items d0 (group d x4d) = Ok (set_M (d_M d) d0).
Proof using Hwf.
  intros H0. wf_parts Hwf. cbn [group].
  rewrite (parse_list d_M set_M (fun m => Toks x4d [m]) hash_less validArtifactHash (fun _ => True)).
  - by rewrite H0.
  - by intros [].
  - by intros ? [].
  - by intros ? ? [].
  - done.
  - intros d1 m _ Hm Hl. cbn [item_parse interior_empty parseCard]. unfold parseMCard.
    rewrite Hm. cbn [negb]. by rewrite require_after_less.
  - done.
  - done.
  - by rewrite H0.
Qed.

Lemma stage_Q d0 : d_Q d0 = [] -> parse_items d0 (group d x51) = Ok (set_Q (d_Q d) d0).
Proof using Hwf.
  intros H0. wf_parts Hwf. cbn [group].
  rewrite (parse_list d_Q set_Q pick_item no_order pick_wf (fun _ => True)).
  - by rewrite H0.
  - by intros [].
  - by intros ? [].
  - by intros ? ? [].
  - done.
  - intros d1 [back tgt base] _ Hq _. unfold pick_wf in Hq. cbn [q_Target q_Baseline] in Hq.
    apply andb_true_iff in Hq as [Ht Hb]. unfold pick_item. cbn [q_IsBackout q_Target q_Baseline].
    destruct base as [|c base]; cbn [empty negb opt_tok item_parse parseCard interior_empty orb];
      unfold parseQCard; destruct back; cbn -[validArtifactHash]; rewrite Ht; cbn -[validArtifactHash];
      try done; unfold opt_hash in Hb; cbn [empty orb] in Hb; by rewrite Hb.
  - done.
  - done.
  - apply sortedb_no_order.
Qed.

Lemma stage_S d0 : d_S d0 = [] -> parse_items d0 (group d x53) = Ok (set_S (d_S d) d0).
Proof using Hwf.
  intros H0. wf_parts Hwf. cbn [group].
  rewrite (parse_list d_S set_S submanifest_item submanifest_less submanifest_wf (fun _ => True)).
  - by rewrite H0.
  - by intros [].
  - by intros ? [].
  - by intros ? ? [].
  - done.
  - intros d1 [nm uuid] _ Hs Hl. unfold submanifest_wf in Hs. cbn [s_Name s_UUID] in Hs.
    apply andb_true_iff in Hs as [Hs Hu].
    assert (Hord : require_after s_Name x53 (d_S d1) nm = Ok ()) by by apply require_after_less.
    unfold submanifest_item. cbn [s_Name s_UUID item_parse parseCard interior_empty].
    rewrite (canonical_encode_nonempty _ (simplePathname_nonempty _ Hs)). cbn [orb].
    unfold parseSCard. rewrite FossilDecode_CanonicalEncode. cbv zeta. cbn [s_Name s_UUID].
    rewrite Hs, Hu. cbn [negb]. by rewrite Hord.
  - done.
  - done.
  - by rewrite H0.
Qed.

Lemma stage_T d0 : d_T d0 = [] -> parse_items d0 (group d x54) = Ok (set_T (d_T d) d0).
Proof using Hwf.
  intros H0. wf_parts Hwf. cbn [group].
  rewrite (parse_list d_T set_T tag_item tag_less tag_wf (fun _ => True)).
  - by rewrite H0.
  - by intros [].
  - by intros ? [].
  - by intros ? ? [].
  - done.
  - intros d1 [ty nm uuid v vp] _ Ht Hl. unfold tag_wf in Ht. cbn [t_Type t_Name t_UUID t_Value t_valuePresent] in Ht.
    rewrite !andb_true_iff in Ht. destruct Ht as [[[Hty Hnm] Hu] Hv]. apply negb_true_iff in Hnm.
    assert (Hu' : negb (bool_decide (uuid = bs "*")) && negb (validArtifactHash uuid) = false)
      by (rewrite andb_false_iff, !negb_false_iff; by apply orb_true_iff).
    assert (Hune : empty uuid = false).
    { apply orb_true_iff in Hu as [Hu|Hu]; [apply bool_decide_eq_true in Hu as ->; done|].
      by apply validArtifactHash_nonempty. }
    unfold tag_item. cbn [t_Type t_Name t_UUID t_Value t_valuePresent item_parse parseCard].
    rewrite (tag_type_rune _ Hty). cbn [app].
    assert (Hord : match last (d_T d1) with
                   | Some prev => requireTagAscending prev (mk_TagCard ty nm uuid v vp)
                   | None => Ok () end = Ok ()).
    { destruct (last (d_T d1)) as [y|] eqn:Ey; [|done]. by apply requireTagAscending_less, Hl. }
    destruct vp; cbn [opt_tok interior_empty empty orb]; rewrite ?Hune; cbn [orb];
      unfold parseTCard; rewrite Hty; cbn [negb];
      [change (len [FossilEncode v]) with 1|change (len (@nil bytes)) with 0]; cbn [Z.gtb Z.compare Pos.compare Pos.compare_cont];
      cbv zeta; rewrite !FossilDecode_Encode; cbn [t_Name t_UUID]; rewrite Hnm, Hu'.
    + by rewrite Hord.
    + destruct v; [|done]. by rewrite Hord.
  - done.
  - done.
  - by rewrite H0.
Qed.
End stages.
