(* ===== verification/Codec.v ===== *)
(** * The codec theorems: Parse after Marshal, and Marshal after Parse *)

From S2P Require Import Prelude GoStd GoText GoCrypto Deck Escape Pathname Timestamp Clearsign Legality Marshal Parse ParseCorrect DeckWf Canonical RoundTrip.

(** ** Every item of a canonical deck is a line the scanner can read *)
Lemma hex_token s : isHexAnyCase s = true -> token_ok s = true.
Proof.
  unfold isHexAnyCase, token_ok. apply forallb_mono. intros c. by_bytes c.
Qed.

Lemma hash_token h : validArtifactHash h = true -> token_ok h = true.
Proof. unfold validArtifactHash. intros [_ H]%andb_true_iff. by apply hex_token. Qed.

Lemma encode_token s : token_ok (FossilEncode s) = true.
Proof. apply (encode_token_ok encode_byte). Qed.
Lemma canonical_encode_token s : token_ok (CanonicalEncode s) = true.
Proof. apply (encode_token_ok canonical_encode_byte). Qed.

Lemma pad_dec_token w n : 0 <= n -> token_ok (pad_dec w n) = true.
Proof.
  intros. apply digits_token. unfold pad_dec. destruct (n <? _); [apply low_digits_digits|].
  by apply dec_nat_digits.
Qed.

Lemma time_token t k : time_ok t = true -> token_ok (marshalTimestamp t k) = true.
Proof.
  intros Ht. rewrite marshalTimestamp_suffix. unfold format_seconds, time_ok in *. cbv zeta.
  destruct (date_of_days _) as [[y m] d] eqn:Hd. apply date_of_days_spec in Hd as (_ & Hm & Hdd).
  assert (0 <= (t / ns_per_sec) mod secs_per_day) by (by apply Z.mod_pos_bound).
  assert (Hfr : token_ok (fraction_suffix (fractionDigits (Nanosecond t) k)) = true).
  { destruct (fractionDigits_facts (Nanosecond t) k) as (Hf & _); [by apply Z.mod_pos_bound|].
    apply digits_token in Hf. unfold fraction_suffix. destruct (fractionDigits _ _); [done|].
    rewrite token_ok_app, Hf. done. }
  rewrite !token_ok_app, Hfr, !pad_dec_token; [|by apply Z.mod_pos_bound
    |apply Z.div_pos; [by apply Z.mod_pos_bound|lia]|apply Z.div_pos; lia|lia|lia].
  rewrite !andb_true_r. unfold pad_signed. destruct (Z.ltb_spec y 0).
  - rewrite token_ok_cons, pad_dec_token by lia. done.
  - rewrite pad_dec_token by lia. done.
Qed.

Lemma opt_tok_ok b t : (b = true -> token_ok t = true) -> tokens_ok (opt_tok b t).
Proof. intros H. destruct b; cbn; [|constructor]. constructor; [by apply H|constructor]. Qed.

Lemma opt_item_valid b c t : (b = true -> token_ok t = true) -> Byte.eqb c x00 = false ->
  Byte.eqb c x57 = false -> Forall item_valid (opt_item b (Toks c [t])).
Proof.
  intros H H0 H1. destruct b; cbn; [|constructor]. constructor; [|constructor].
  split; [|done]. constructor; [by apply H|constructor].
Qed.

Lemma opt_hash_token h : opt_hash h = true -> token_ok h = true.
Proof. unfold opt_hash. destruct h; [done|]. cbn [empty orb]. apply hash_token. Qed.

Lemma Forall_map_valid {A} (f : A -> item) (ok : A -> bool) l :
  (forall x, ok x = true -> item_valid (f x)) -> forallb ok l = true -> Forall item_valid (map f l).
Proof.
  intros H. induction l as [|x l IH]; cbn; [constructor|]. intros [Hx Hl]%andb_true_iff.
  constructor; [by apply H|by apply IH].
Qed.

Section deck.
Context (d : Deck) (Hwf : wf_fields d = true) (Htimes : times_ok d = true).

Lemma file_valid b encode f : (forall s, token_ok (encode s) = true) -> file_wf b f = true ->
  item_valid (file_item encode f).
Proof using.
  intros He Hf. unfold file_wf in Hf. rewrite !andb_true_iff in Hf. destruct Hf as [[[_ Hu] Hp] Ho].
  split; [|done]. unfold tokens_ok. constructor; [apply He|].
  destruct (empty (f_UUID f)); [constructor|]. constructor; [by apply hash_token|].
  apply Forall_app. split; apply opt_tok_ok; [done|]. intros _. apply He.
Qed.

Lemma items_valid : Forall item_valid (items d).
Proof using All.
  wf_parts Hwf. unfold times_ok in Htimes. apply andb_true_iff in Htimes as [HtD HtE].
  unfold items. change card_letters with
    [x41; x42; x43; x44; x45; x46; x47; x48; x49; x4a; x4b; x4c; x4d; x4e; x50; x51; x52; x53; x54; x55; x57; x5a].
  cbn [mbind list_bind group]. rewrite !Forall_app.
  split_and!; try (apply opt_item_valid; [intros Hb|done|done]); try apply encode_token.
  - destruct (d_A d) as [a|]; [|constructor]. unfold attachment_wf in HA. rewrite !andb_true_iff in HA.
    constructor; [|constructor]. split; [|done]. constructor; [apply encode_token|].
    constructor; [apply encode_token|]. apply opt_tok_ok. intros _. apply opt_hash_token. apply HA.
  - by apply opt_hash_token.
  - apply time_token. by destruct (IsZero (d_D d)).
  - destruct (d_E d) as [e|]; [|constructor]. constructor; [|constructor]. split; [|done].
    constructor; [by apply time_token|]. constructor; [by apply hash_token|constructor].
  - eapply Forall_map_valid; [|exact HF]. intros f. apply file_valid. intros s. unfold deck_encode.
    case_bool_decide; [apply canonical_encode_token|apply encode_token].
  - by apply opt_hash_token.
  - by apply opt_hash_token.
  - eapply Forall_map_valid; [|exact HJ]. intros j [Hj _]%andb_true_iff. split; [|done].
    constructor; [done|]. apply opt_tok_ok. intros _. apply encode_token.
  - destruct (empty (d_K d)); [done|]. apply andb_true_iff in HK as [_ HK]. by apply hex_token.
  - eapply Forall_map_valid; [|exact HM]. intros m Hm. split; [|done].
    constructor; [by apply hash_token|constructor].
  - destruct (d_pPresent d); cbn; [|constructor]. constructor; [|constructor]. split; [|done].
    unfold tokens_ok. rewrite Forall_forall. intros p Hp. apply hash_token.
    rewrite forallb_forall in HP. apply HP. by apply list_elem_of_In.
  - eapply Forall_map_valid; [|exact HQ]. intros q [Hq Hb]%andb_true_iff. split; [|done].
    constructor; [rewrite token_ok_cons; rewrite hash_token by done; by destruct (q_IsBackout q)|].
    apply opt_tok_ok. intros _. by apply opt_hash_token.
  - destruct (empty (d_R d)); [done|]. apply andb_true_iff in HR as [_ HR]. by apply hex_token.
  - eapply Forall_map_valid; [|exact HS]. intros s [_ Hs]%andb_true_iff. split; [|done].
    constructor; [apply canonical_encode_token|]. constructor; [by apply hash_token|constructor].
  - eapply Forall_map_valid; [|exact HT]. intros t Ht. unfold tag_wf in Ht. rewrite !andb_true_iff in Ht.
    destruct Ht as [[[Hty _] Hu] _]. split; [|done]. constructor.
    { rewrite (tag_type_rune _ Hty). cbn [app]. rewrite token_ok_cons, encode_token, andb_true_r. revert Hty. unfold is_tag_type.
      destruct (t_Type t); by vm_compute. }
    constructor; [|apply opt_tok_ok; intros _; apply encode_token].
    apply orb_true_iff in Hu as [Hu|Hu]; [apply bool_decide_eq_true in Hu as ->; done|by apply hash_token].
  - destruct (d_U d); [|constructor]. apply opt_item_valid; [intros _; apply encode_token|done|done].
  - destruct (d_W d) as [w|]; [|constructor]. constructor; [|constructor]. cbn. zbool. lia.
  - constructor.
  - constructor.
Qed.

(** ** The parsers rebuild the deck *)
Lemma parse_stage d0 d1 d' l k : parse_items d0 l = Ok d1 -> parse_items d1 k = Ok d' ->
  parse_items d0 (l ++ k) = Ok d'.
Proof using. intros H1 H2. by rewrite (parse_items_app _ _ _ _ H1). Qed.

Lemma parse_all : parse_items zero_Deck (items d) = Ok (set_Type Checkin d).
Proof using All.
  unfold items. change card_letters with
    [x41; x42; x43; x44; x45; x46; x47; x48; x49; x4a; x4b; x4c; x4d; x4e; x50; x51; x52; x53; x54; x55; x57; x5a].
  cbn [mbind list_bind].
  eapply parse_stage; [by apply stage_A|]. eapply parse_stage; [by apply stage_B|].
  eapply parse_stage; [by apply stage_C|]. eapply parse_stage; [by apply stage_D|].
  eapply parse_stage; [by apply stage_E|]. eapply parse_stage; [by apply stage_F|].
  eapply parse_stage; [by apply stage_G|]. eapply parse_stage; [by apply stage_H|].
  eapply parse_stage; [by apply stage_I|]. eapply parse_stage; [by apply stage_J|].
  eapply parse_stage; [by apply stage_K|]. eapply parse_stage; [by apply stage_L|].
  eapply parse_stage; [by apply stage_M|]. eapply parse_stage; [by apply stage_N|].
  eapply parse_stage; [by apply stage_P|]. eapply parse_stage; [by apply stage_Q|].
  eapply parse_stage; [by apply stage_R|]. eapply parse_stage; [by apply stage_S|].
  eapply parse_stage; [by apply stage_T|]. eapply parse_stage; [by apply stage_U|].
  eapply parse_stage; [by apply stage_W|].
  cbn [group app parse_items]. f_equal. wf_parts Hwf. destruct d as []; cbn in *.
  by destruct d_Z.
Qed.

(** ** Masks *)
Lemma group_present c : c ∈ card_letters -> c <> x5a ->
  (match group d c with [] => false | _ => true end) = present d c.
Proof using Hwf.
  intros Hc Hz. wf_parts Hwf.
  assert (Hopt : forall b it, match opt_item b it with [] => false | _ => true end = b) by by intros [].
  assert (Hmap : forall A (f : A -> item) l, match map f l with [] => false | _ => true end = (len l >? 0)).
  { intros A f l. destruct l; [done|]. cbn [map]. rewrite len_cons. pose proof (len_nonneg l). lia. }
  unfold card_letters, bs in Hc. cbn in Hc. repeat (apply elem_of_cons in Hc as [-> |Hc]); [..|by apply not_elem_of_nil in Hc];
    cbn [group present]; rewrite ?Hopt, ?Hmap; try done.
  - by destruct (d_A d).
  - by destruct (d_C d), (d_cPresent d).
  - by destruct (d_E d).
  - by destruct (d_N d), (d_nPresent d).
  - destruct (d_pPresent d); [by rewrite orb_true_r|]. rewrite orb_false_r in *. zbool. rewrite HPp. done.
  - destruct (d_U d); [|done]. by rewrite Hopt.
  - by destruct (d_W d).
Qed.

Lemma has_letter_fold (p : byte -> bool) m cs x : in_A_Z x = true -> (forall c, c ∈ cs -> in_A_Z c = true) ->
  has_letter (foldl (fun m c => if p c then Z.lor m (letter_bit c) else m) m cs) x
  = has_letter m x || existsb (fun c => p c && Byte.eqb c x) cs.
Proof using.
  intros Hx. revert m. induction cs as [|c cs IH]; intros m Hcs; [by rewrite orb_false_r|].
  cbn [foldl existsb]. rewrite IH by (intros; apply Hcs; by right). rewrite orb_assoc. f_equal.
  destruct (p c); [|by rewrite orb_false_r]. unfold has_letter.
  assert (0 <= bz x - 65) by (apply in_A_Z_lt in Hx; lia).
  rewrite Z.lor_spec, letter_bit_spec; [|apply Hcs; by left|done]. f_equal. cbn [andb].
  destruct (Byte.eqb c x) eqn:E.
  - apply byte_eqb_eq in E as ->. lia.
  - apply byte_eqb_neq in E. apply Z.eqb_neq. intros H'. apply E, bz_inj. lia.
Qed.

Lemma card_letters_A_Z c : c ∈ card_letters -> in_A_Z c = true.
Proof using.
  intros Hc. assert (forallb in_A_Z card_letters = true) as H by reflexivity.
  rewrite forallb_forall in H. apply H. by apply list_elem_of_In.
Qed.

Lemma mask_of_present x : x ∈ card_letters -> has_letter (mask_of d) x = present d x.
Proof using.
  intros Hx. unfold mask_of. rewrite has_letter_fold; [|by apply card_letters_A_Z|apply card_letters_A_Z].
  unfold has_letter at 1. rewrite Z.bits_0. cbn [orb].
  apply eq_true_iff_eq. rewrite existsb_exists. split.
  - intros (c & _ & [Hp ->%byte_eqb_eq]%andb_true_iff). done.
  - intros Hp. exists x. split; [by apply list_elem_of_In|]. by rewrite Hp, byte_eqb_refl.
Qed.
End deck.

(** ** From items to the whole artifact *)
Lemma foldl_ext_in {A B} (f g : A -> B -> A) l a :
  (forall a b, b ∈ l -> f a b = g a b) -> foldl f a l = foldl g a l.
Proof.
  revert a. induction l as [|b l IH]; intros a H; [done|]. cbn [foldl].
  rewrite H by by left. apply IH. intros a' b' Hb. apply H. by right.
Qed.

Definition z_item (body : bytes) : item := Toks x5a [computeZ body].

Lemma groups_mask_of d : wf_fields d = true -> forall m cs, (forall c, c ∈ cs -> c ∈ card_letters /\ c <> x5a) ->
  groups_mask (group d) m cs = foldl (fun m c => if present d c then Z.lor m (letter_bit c) else m) m cs.
Proof.
  intros Hwf m cs. revert m. induction cs as [|c cs IH]; intros m Hcs; [done|].
  unfold groups_mask in *. cbn [foldl]. destruct (Hcs c ltac:(by left)) as [Hc Hz].
  rewrite <- (group_present d Hwf c Hc Hz). rewrite IH by (intros; apply Hcs; by right).
  by destruct (group d c).
Qed.

Lemma group_letters d c : Forall (fun it => item_letter it = c) (group d c).
Proof.
  assert (Hopt : forall b ts, Forall (fun it => item_letter it = c) (opt_item b (Toks c ts))).
  { intros [] ts; cbn; [by constructor|constructor]. }
  assert (Hmap : forall A (f : A -> item) l, (forall x, item_letter (f x) = c) ->
    Forall (fun it => item_letter it = c) (map f l)).
  { intros A f l H. induction l; cbn; [constructor|by constructor]. }
  destruct c; try (apply Hopt); try (constructor); cbn [group]; try (by apply Hmap).
  - destruct (d_A d); [by constructor|constructor].
  - destruct (d_E d); [by constructor|constructor].
  - destruct (d_U d); [apply Hopt|constructor].
  - destruct (d_W d); [by constructor|constructor].
Qed.

Lemma group_single d c : singleOccurrence c = true -> (length (group d c) <= 1)%nat.
Proof.
  assert (Hopt : forall b it, (length (opt_item b it) <= 1)%nat) by (intros [] it; cbn; lia).
  destruct c; try done; intros _; cbn [group]; try apply Hopt; try (cbn; lia).
  - destruct (d_A d); cbn; lia.
  - destruct (d_E d); cbn; lia.
  - destruct (d_U d); [apply Hopt|cbn; lia].
  - destruct (d_W d); cbn; lia.
Qed.

Definition letters_but_Z : bytes := bs "ABCDEFGHIJKLMNPQRSTUW".

Lemma computeZ_hex body : isHexAnyCase (computeZ body) = true.
Proof.
  unfold isHexAnyCase. apply forallb_forall. intros c Hc.
  pose proof (hex_encode_lower (md5_Sum body)) as Hl. rewrite Forall_forall in Hl.
  apply list_elem_of_In in Hc. specialize (Hl c Hc). revert Hl. by_bytes c.
Qed.

Lemma letters_no_Z : x5a ∉ letters_but_Z.
Proof.
  unfold letters_but_Z, bs. cbn. intros Hc.
  repeat (apply elem_of_cons in Hc as [Hc|Hc]; [discriminate Hc|]). by apply not_elem_of_nil in Hc.
Qed.

Lemma items_letters d : items d = letters_but_Z ≫= group d.
Proof.
  unfold items. change card_letters with (letters_but_Z ++ [x5a]).
  rewrite bind_app. cbn [mbind list_bind group]. by rewrite !app_nil_r.
Qed.

Lemma has_Z_line d (body : bytes) : wf_fields d = true -> times_ok d = true ->
  exists st, run_items (start_scan zero_Deck) (items d ++ [z_item body]) = Ok st
    /\ sc_deck st = set_Type Checkin d /\ sc_mask st = mask_of d.
Proof.
  intros Hwf Ht.
  set (g c := if Byte.eqb c x5a then [z_item body] else group d c).
  assert (Hg : items d ++ [z_item body] = card_letters ≫= g).
  { rewrite items_letters. unfold letters_but_Z, card_letters, bs.
    cbn -[group z_item]. by rewrite <- !app_assoc. }
  rewrite Hg.
  destruct (run_groups g card_letters (start_scan zero_Deck) (set_Type Checkin d)) as (st & Hrun & Hd & Hm).
  - reflexivity.
  - intros c Hc. unfold g. destruct (Byte.eqb c x5a) eqn:E.
    + apply byte_eqb_eq in E as ->. split; [by constructor|]. cbn. lia.
    + split; [apply group_letters|apply group_single].
  - intros c _. apply not_elem_of_nil.
  - cbn [start_scan sc_deck]. rewrite <- Hg. rewrite (parse_items_app _ _ _ _ (parse_all d Hwf Ht)).
    cbn [parse_items z_item item_parse interior_empty parseCard parseZCard].
    rewrite computeZ_len. cbn [Z.eqb Pos.eqb negb].
    pose proof (computeZ_hex body) as Hx. unfold isHexAnyCase in Hx. by rewrite Hx.
  - exists st. split; [done|]. split; [done|]. rewrite Hm. unfold groups_mask, mask_of.
    change card_letters with (letters_but_Z ++ [x5a]). rewrite !foldl_app. cbn [foldl].
    unfold g at 1. change (Byte.eqb x5a x5a) with true. cbn iota. cbn [present]. f_equal.
    rewrite <- (groups_mask_of d Hwf 0 letters_but_Z).
    + unfold groups_mask. apply foldl_ext_in. intros m c Hc. unfold g.
      destruct (Byte.eqb c x5a) eqn:E; [|done]. exfalso. apply byte_eqb_eq in E as ->.
      by apply letters_no_Z.
    + intros c Hc. split.
      * change card_letters with (letters_but_Z ++ [x5a]). apply elem_of_app. by left.
      * intros ->. by apply letters_no_Z.
Qed.

Lemma seal_items d body : body = texts (items d) -> seal body = texts (items d) ++ item_text (z_item body).
Proof. intros ->. unfold seal, z_item, nl. cbn [item_text card_text join_sp]. done. Qed.

Lemma scan_seal d : wf_fields d = true -> times_ok d = true ->
  scanCards (seal (texts (items d))) zero_Deck = Ok (set_Type Checkin d, mask_of d).
Proof.
  intros Hwf Ht. destruct (has_Z_line d (texts (items d)) Hwf Ht) as (st & Hrun & Hd & Hm).
  set (zi := z_item (texts (items d))) in *.
  rewrite run_items_app in Hrun. destruct (run_items _ (items d)) as [st1| | |] eqn:H1; try done.
  cbn [obind run_items] in Hrun. ok_inv.
  unfold scanCards. rewrite (seal_items d _ eq_refl). fold zi.
  destruct (scan_items (items d) (start_scan zero_Deck) st1 (item_text zi) (S (length (texts (items d) ++ item_text zi)))
    (items_valid d Hwf Ht)) as (fuel & Hf & Hs); [|exact H1|lia|].
  { pose proof (item_text_length zi) as Hl. intros Hn. rewrite Hn in Hl. simpl in Hl. lia. }
  unfold at_card in Hs. rewrite Hs. destruct fuel as [|[|fuel]]; [lia| |].
  { pose proof (item_text_length zi). lia. }
  pose proof (scan_item (S fuel) zi [] st1 st) as Hz. rewrite app_nil_r in Hz.
  unfold at_card in Hz. rewrite Hz.
  - by rewrite <- Hd, <- Hm.
  - split; [|done]. constructor; [|constructor]. apply hex_token, computeZ_hex.
  - right. by eexists _, _.
  - done.
Qed.

(** ** The first card *)
Definition nonbare (it : item) : Prop := match it with Toks _ [] => False | _ => True end.

Lemma nonbare_head it : nonbare it -> exists r, item_text it = item_letter it :: x20 :: r.
Proof. destruct it as [c [|t ts]|w]; cbn; [done|eauto|eauto]. Qed.

Lemma Forall_bind {A B} (P : B -> Prop) (g : A -> list B) l :
  (forall x, x ∈ l -> Forall P (g x)) -> Forall P (l ≫= g).
Proof.
  induction l as [|x l IH]; intros H; [constructor|].
  change ((x :: l) ≫= g) with (g x ++ (l ≫= g)). apply Forall_app.
  split; [apply H; by left|apply IH; intros; apply H; by right].
Qed.

Lemma group_nonbare d c : c <> x50 -> Forall nonbare (group d c).
Proof.
  intros Hc.
  assert (Hopt : forall b c t, Forall nonbare (opt_item b (Toks c [t]))).
  { intros [] c' t; cbn; [by constructor|constructor]. }
  assert (Hmap : forall A (f : A -> item) l, (forall x, nonbare (f x)) -> Forall nonbare (map f l)).
  { intros A f l H. induction l; cbn; [constructor|by constructor]. }
  destruct c; try (apply Hopt); try (constructor); try done; cbn [group]; try (by apply Hmap).
  - destruct (d_A d); [by constructor|constructor].
  - destruct (d_E d); [by constructor|constructor].
  - destruct (d_U d); [apply Hopt|constructor].
  - destruct (d_W d); [by constructor|constructor].
Qed.

Lemma checkType_allowed d mask c : checkType d mask = Ok () ->
  in_A_Z c = true -> has_letter mask c = true -> has_letter (allowed (cardTables (d_Type d))) c = true.
Proof.
  unfold checkType. cbv zeta. destruct (negb (Z.ldiff mask _ =? 0)) eqn:E; [done|]. intros _ Hc.
  apply negb_false_iff, Z.eqb_eq in E. unfold has_letter. intros Hr.
  apply (f_equal (fun z => Z.testbit z (bz c - 65))) in E.
  rewrite Z.ldiff_spec, Hr, Z.bits_0 in E. by destruct (Z.testbit (allowed _) _).
Qed.

Lemma letter_in c : existsb (fun b => Byte.eqb b c) card_letters = true -> c ∈ card_letters.
Proof.
  rewrite existsb_exists. intros (b & Hb & ->%byte_eqb_eq). by apply list_elem_of_In.
Qed.

(** A type that allows P requires D. *)
Lemma P_needs_D d : checkType d (mask_of d) = Ok () -> present d x50 = true -> present d x44 = true.
Proof.
  intros Hc HP. rewrite <- (mask_of_present d x50) in HP by by apply letter_in.
  apply (checkType_allowed _ _ _ Hc) in HP; [|done].
  rewrite <- (mask_of_present d x44) by by apply letter_in.
  apply (checkType_required _ _ _ Hc); [done|]. revert HP. by destruct (d_Type d).
Qed.

Definition letters_to_N : bytes := bs "ABCDEFGHIJKLMN".
Definition letters_from_P : bytes := bs "PQRSTUW".

Lemma first_item d zi : wf_fields d = true -> checkType d (mask_of d) = Ok () -> nonbare zi ->
  exists it l, items d ++ [zi] = it :: l /\ nonbare it /\ (it = zi \/ exists c, c ∈ card_letters /\ it ∈ group d c).
Proof.
  intros Hwf Hc Hz. rewrite items_letters.
  change letters_but_Z with (letters_to_N ++ letters_from_P). rewrite bind_app, <- app_assoc.
  destruct (letters_to_N ≫= group d) as [|it l] eqn:Hpre.
  - assert (HP : Forall nonbare (group d x50)).
    { cbn [group]. destruct (d_pPresent d) eqn:Ep; cbn; [|constructor]. exfalso.
      assert (HD : present d x44 = true).
      { apply P_needs_D; [done|]. cbn. rewrite Ep. apply orb_true_r. }
      rewrite <- (group_present d Hwf x44) in HD; [|by apply letter_in|done].
      assert (Hin : forall it, it ∈ group d x44 -> it ∈ letters_to_N ≫= group d).
      { intros it Hit. apply list_elem_of_bind. exists x44. split; [done|].
        unfold letters_to_N, bs. cbn. do 3 right. left. }
      destruct (group d x44) as [|it l]; [done|]. specialize (Hin it ltac:(by left)). rewrite Hpre in Hin.
      by apply not_elem_of_nil in Hin. }
    destruct (letters_from_P ≫= group d) as [|it l] eqn:Hpost.
    + exists zi, []. split; [done|]. split; [done|by left].
    + exists it, (l ++ [zi]). split; [done|].
      assert (Hit : it ∈ letters_from_P ≫= group d) by (rewrite Hpost; by left).
      apply list_elem_of_bind in Hit as (c & Hit & Hcl). split.
      * destruct (decide (c = x50)) as [->|Hne].
        -- rewrite Forall_forall in HP. by apply HP.
        -- pose proof (group_nonbare d c Hne) as Hg. rewrite Forall_forall in Hg. by apply Hg.
      * right. exists c. split; [|done]. change card_letters with (letters_to_N ++ letters_from_P ++ [x5a]).
        apply elem_of_app. right. apply elem_of_app. by left.
  - exists it, (l ++ (letters_from_P ≫= group d) ++ [zi]). split; [done|].
    assert (Hit : it ∈ letters_to_N ≫= group d) by (rewrite Hpre; by left).
    apply list_elem_of_bind in Hit as (c & Hit & Hcl). split.
    + assert (c <> x50).
      { intros ->. unfold letters_to_N, bs in Hcl. cbn in Hcl.
        repeat (apply elem_of_cons in Hcl as [Hcl|Hcl]; [discriminate Hcl|]). by apply not_elem_of_nil in Hcl. }
      pose proof (group_nonbare d c ltac:(done)) as Hg. rewrite Forall_forall in Hg. by apply Hg.
    + right. exists c. split; [|done]. change card_letters with (letters_to_N ++ letters_from_P ++ [x5a]).
      apply elem_of_app. by left.
Qed.

Lemma seal_first d : wf_fields d = true -> checkType d (mask_of d) = Ok () ->
  exists c r, seal (texts (items d)) = c :: x20 :: r /\ in_A_Z c = true.
Proof.
  intros Hwf Hc. rewrite (seal_items d _ eq_refl).
  destruct (first_item d (z_item (texts (items d))) Hwf Hc) as (it & l & Heq & Hnb & Hit); [done|].
  assert (texts (items d) ++ item_text (z_item (texts (items d))) = item_text it ++ texts l) as ->.
  { transitivity (texts (items d ++ [z_item (texts (items d))])).
    - rewrite texts_app. f_equal. unfold texts. cbn [mbind list_bind]. by rewrite app_nil_r.
    - by rewrite Heq. }
  destruct (nonbare_head it Hnb) as [r ->]. exists (item_letter it), (r ++ texts l). split; [done|].
  destruct Hit as [-> |(c & Hcl & Hg)]; [done|].
  pose proof (group_letters d c) as Hl. rewrite Forall_forall in Hl. rewrite (Hl _ Hg).
  by apply card_letters_A_Z.
Qed.

Lemma verifyZ_seal body : verifyZ (seal body) = Ok ().
Proof.
  unfold seal, nl. set (z := computeZ body). change (bs "Z ") with [x5a; x20].
  assert (Hz : len z = 32) by apply computeZ_len.
  assert (Hl : len (body ++ [x5a; x20] ++ z ++ [lf]) = len body + 35) by len_lia.
  pose proof (len_nonneg body). rewrite verifyZ_long by (rewrite Hl; lia). rewrite Hl.
  replace (len body + 35 - 35) with (len body + 0) by lia.
  replace (len body + 35 - 34) with (len body + 1) by lia.
  rewrite !at_is_app_r by lia. change (at_is ([x5a; x20] ++ z ++ [lf]) 0 x5a) with true.
  change (at_is ([x5a; x20] ++ z ++ [lf]) 1 x20) with true. cbn [negb orb].
  assert (sub 0 (len body + 0) (body ++ [x5a; x20] ++ z ++ [lf]) = body) as ->.
  { unfold sub. rewrite drop_0. replace (len body + 0 - 0) with (len body) by lia. apply take_len_app. }
  assert (sub (len body + 35 - 33) (len body + 35 - 1) (body ++ [x5a; x20] ++ z ++ [lf]) = z) as ->.
  { unfold sub. replace (len body + 35 - 33) with (len (body ++ [x5a; x20])) by len_lia.
    rewrite (app_assoc body), drop_len_app.
    replace (len body + 35 - 1 - len (body ++ [x5a; x20])) with (len z) by len_lia. apply take_len_app. }
  fold z. by rewrite bool_decide_eq_true_2.
Qed.

Lemma frame_seal d : wf_fields d = true -> checkType d (mask_of d) = Ok () ->
  frameArtifact (seal (texts (items d))) = Ok (seal (texts (items d))).
Proof.
  intros Hwf Hc. pose proof (verifyZ_seal (texts (items d))) as Hv.
  assert (35 <= len (seal (texts (items d)))) as Hlen.
  { unfold seal, nl. change (bs "Z ") with [x5a; x20]. pose proof (computeZ_len (texts (items d))).
    pose proof (len_nonneg (texts (items d))). len_lia. }
  assert (Hlast : at_is (seal (texts (items d))) (len (seal (texts (items d))) - 1) lf = true).
  { set (b := texts (items d)). unfold seal, nl. change (bs "Z ") with [x5a; x20]. rewrite !app_assoc. rewrite len_app.
    replace (len ((b ++ [x5a; x20]) ++ computeZ b) + len [lf] - 1)
      with (len ((b ++ [x5a; x20]) ++ computeZ b) + 0) by len_lia.
    rewrite at_is_app_r by lia. done. }
  destruct (seal_first d Hwf Hc) as (c & r & Hs & Hcl).
  assert (Hid : strip (seal (texts (items d))) = seal (texts (items d))).
  { eapply strip_id; [exact Hs|]. apply in_A_Z_lt in Hcl. apply byte_eqb_neq. intros ->.
    change (bz x2d) with 45 in Hcl. lia. }
  rewrite frameArtifact_eq. replace (len (seal (texts (items d))) =? 0) with false by lia.
  rewrite Hlast. cbn [negb]. rewrite Hid. rewrite Hs in *. unfold first_line_ok. rewrite Hcl.
  rewrite (proj2 (Z.leb_le 10 (len (c :: x20 :: r)))) by lia. cbn [andb]. rewrite byte_eqb_refl, Hv. done.
Qed.

(** ** Parse inverts Marshal on canonical decks *)
Lemma parse_seal d : canonical d = true -> Parse (Some (seal (texts (items d)))) = Ok d.
Proof.
  unfold canonical, type_ok. rewrite !andb_true_iff. intros [[[Hwf Ht] [Hty Hc]] _].
  apply bool_decide_eq_true in Hty. destruct (checkType d (mask_of d)) as [[]| | |] eqn:Hck; try done.
  unfold Parse. rewrite frame_seal by done. cbn [wrap_parse wrap_err obind].
  rewrite scan_seal by done. cbn [wrap_parse wrap_err obind].
  assert (final_type (set_Type Checkin d) (mask_of d) = d_Type d) as ->.
  { rewrite Hty. unfold final_type. by destruct d. }
  assert (set_Type (d_Type d) (set_Type Checkin d) = d) as -> by by destruct d.
  cbv zeta. by rewrite Hck.
Qed.

(** ** The normal form of a well-formed deck *)
Definition lower_hex (d : Deck) : Deck := set_K (lower (d_K d)) (set_R (lower (d_R d)) d).

Lemma norm_file_id b f : file_wf b f = true -> norm_file f = f.
Proof.
  unfold file_wf, norm_file. rewrite !andb_true_iff. intros [[[[_ _] Hu] _] Ho].
  destruct f as [nm uuid perm old]. cbn [f_Name f_UUID f_Perm f_OldName] in *.
  destruct (empty uuid) eqn:Eu.
  - rewrite !andb_true_iff in Hu. destruct uuid, perm, old; naive_solver.
  - destruct (empty perm) eqn:Ep; [|done]. destruct (empty old) eqn:Eo; [done|].
    by rewrite andb_false_r in Ho.
Qed.

Lemma norm_tag_id t : tag_wf t = true -> norm_tag t = t.
Proof.
  unfold tag_wf, norm_tag. rewrite !andb_true_iff. intros [_ Hv].
  destruct t as [ty nm u v vp]. cbn [t_Type t_Name t_UUID t_Value t_valuePresent] in *.
  by destruct (empty v), vp.
Qed.

Lemma map_id_on {A} (f : A -> A) (ok : A -> bool) l :
  (forall x, ok x = true -> f x = x) -> forallb ok l = true -> map f l = l.
Proof.
  intros Hf. induction l as [|x l IH]; cbn; [done|]. intros [Hx Hl]%andb_true_iff.
  by rewrite Hf, IH.
Qed.

Lemma normalize_wf `{GoSort} d : wf_fields d = true -> normalize d = lower_hex d.
Proof.
  intros Hwf. wf_parts Hwf. unfold normalize.
  rewrite (sort_slice_ascending file_less), (sort_slice_ascending field_less),
    (sort_slice_ascending hash_less), (sort_slice_ascending submanifest_less), (sort_slice_ascending tag_less);
    try (apply sortedb_ascending); auto using file_less_weak, field_less_weak, hash_less_weak,
      submanifest_less_weak, tag_less_weak.
  rewrite (map_id_on norm_file _ _ (norm_file_id _) HF), (map_id_on norm_tag _ _ norm_tag_id HT).
  unfold lower_hex. destruct d; cbn in *.
  destruct d_Z; [|done].
  f_equal; [by destruct d_U as [[|? ?]|]|by destruct d_C, d_cPresent|by destruct d_N, d_nPresent|].
  destruct (len d_P =? 0); cbn in *; [|by rewrite HPp]. done.
Qed.

Lemma lower_ok_id d : lower_ok d = true -> lower_hex d = d.
Proof.
  unfold lower_ok, lower_hex. rewrite andb_true_iff, !bool_decide_eq_true. intros [HK HR].
  rewrite HK, HR. by destruct d.
Qed.

Lemma normalize_canonical `{GoSort} d : canonical d = true -> normalize d = d.
Proof.
  unfold canonical. rewrite !andb_true_iff. intros [[[Hwf _] _] Hl].
  by rewrite normalize_wf, lower_ok_id.
Qed.

Lemma lower_hex_ascii s : isHexAnyCase (lower s) = true -> is_ascii s = true.
Proof.
  unfold isHexAnyCase, is_ascii, lower. rewrite !forallb_forall. intros H c Hc.
  specialize (H (lower_byte c) (in_map _ _ _ Hc)). revert H. by_bytes c.
Qed.

Lemma opt_hex_ascii n s : empty (lower s) || ((len (lower s) =? n) && isHexAnyCase (lower s)) = true ->
  is_ascii s = true.
Proof.
  rewrite empty_lower. destruct s as [|c s]; [done|]. cbn [empty orb].
  intros [_ H]%andb_true_iff. by apply lower_hex_ascii.
Qed.

Lemma check_tag_names_ok tags : (forall t, t ∈ tags -> isHexToken (t_Name t) = false) ->
  check_tag_names tags = Ok ().
Proof.
  induction tags as [|t tags IH]; intros H; [done|]. cbn. rewrite (H t) by by left.
  apply IH. intros t' Ht'. apply H. by right.
Qed.

(** The writer's text of any deck whose normal form is well formed. *)
Lemma Marshal_normal `{GoSort} `{GoUnicode} d : wf_fields (normalize d) = true ->
  Marshal d = Ok (seal (texts (items (normalize d)))).
Proof.
  intros Hwf. pose proof Hwf as Hwf'. wf_parts Hwf. cbn [normalize d_K d_R d_T] in *.
  unfold Marshal. rewrite check_tag_names_ok.
  - cbn [obind]. rewrite marshalCards_items; [done| |].
    + by apply (opt_hex_ascii 40).
    + by apply (opt_hex_ascii 32).
  - intros t Ht. rewrite <- (sort_slice_perm tag_less) in Ht.
    rewrite forallb_forall in HT. specialize (HT (norm_tag t)).
    rewrite in_map_iff in HT. specialize (HT (ex_intro _ t (conj eq_refl (proj1 (list_elem_of_In _ _) Ht)))).
    unfold tag_wf in HT. rewrite !andb_true_iff in HT. destruct HT as [[[_ HT] _] _].
    by apply negb_true_iff in HT.
Qed.
