(* ===== verification/CodecParsed.v ===== *)
(** * Marshal after Parse, and the codec's properties *)

From S2P Require Import Prelude GoStd GoText GoCrypto Deck Escape Pathname Timestamp Clearsign Legality Marshal Parse ParseCorrect DeckWf Canonical RoundTrip Codec.

(** ** The letters seen and the fields set *)

(** The letters whose card cannot leave its field empty. *)
Definition full_letters : bytes := bs "LUWJKEMAT".

Definition letters_inv (_ : bytes) (st : scan_state) : Prop :=
  (forall c, c ∈ card_letters -> c <> x5a -> present (sc_deck st) c = true -> has_letter (sc_mask st) c = true)
  /\ (forall c, c ∈ full_letters -> has_letter (sc_mask st) c = true -> present (sc_deck st) c = true).

(** Walk down an accepted parser to the deck it returns. *)
Ltac accepted H :=
  repeat match type of H with
  | Err _ = Ok _ => discriminate H
  | Ok _ = Ok _ => injection H as <-
  | obind _ _ = Ok _ => apply obind_ok in H; destruct H as (? & ? & H)
  | (if ?b then _ else _) = Ok _ => destruct b eqn:?
  | match ?x with _ => _ end = Ok _ => destruct x eqn:?
  | _ => progress cbv beta zeta in H
  end.

Lemma len_snoc_pos {A} (l : list A) x : (len (l ++ [x]) >? 0) = true.
Proof. rewrite len_app, len_cons. pose proof (len_nonneg l). pose proof (len_nonneg (@nil A)). lia. Qed.

Lemma parseCard_other d c ts d' x : parseCard d c ts = Ok d' -> x <> c -> present d' x = present d x.
Proof.
  unfold parseCard. rewrite parseFCard_eq. unfold parseACard, parseDCard, parseECard, parseSCard, parseLCard, parseMCard,
    parseJCard, parsePCard, parseQCard, parseTCard, parseUCard.
  intros H Hx. destruct c; try discriminate H; accepted H;
    first [reflexivity | (destruct d; destruct x; first [reflexivity | by destruct Hx])].
Qed.

Lemma parseCard_full d c ts d' : parseCard d c ts = Ok d' -> c ∈ full_letters -> present d' c = true.
Proof.
  intros H Hc. unfold full_letters, bs in Hc. cbn in Hc.
  repeat (apply elem_of_cons in Hc as [-> |Hc]); [..|by apply not_elem_of_nil in Hc]; cbn [parseCard] in H;
    unfold parseACard, parseECard, parseLCard, parseMCard, parseJCard, parseTCard, parseUCard in H;
    try discriminate H; accepted H; destruct d; cbn; try apply len_snoc_pos; try done.
  - by destruct (FossilDecode l).
  - by match goal with |- context [if empty ?u then _ else _] => destruct (empty u) eqn:E; [|rewrite E] end.
  - match goal with H : setHashCard _ _ _ = Ok ?h |- _ => apply setHashCard_ok in H as [_ H]; by destruct h end.
Qed.

Lemma full_in_letters c : c ∈ full_letters -> c ∈ card_letters.
Proof.
  intros Hc. assert (forallb (fun b => existsb (fun x => Byte.eqb x b) card_letters) full_letters = true) as H
    by reflexivity.
  rewrite forallb_forall in H. apply letter_in. apply H. by apply list_elem_of_In.
Qed.

Lemma letters_inv_step : step_ok letters_inv.
Proof.
  split.
  - intros pre c ts st st' d' [H1 H2] _ _ _ Hg _ Hp. pose proof (guard_card_ok _ _ _ Hg) as (Hd & _).
    rewrite Hd in Hp. split; cbn [set_deck sc_deck sc_mask].
    + intros x Hx Hz Hpr. rewrite (guard_card_has _ _ _ _ Hg) by by apply card_letters_A_Z.
      destruct (decide (x = c)) as [->|Hne]; [by rewrite byte_eqb_refl, orb_true_r|].
      rewrite (parseCard_other _ _ _ _ _ Hp Hne) in Hpr. by rewrite H1.
    + intros x Hx. rewrite (guard_card_has _ _ _ _ Hg) by by apply card_letters_A_Z, full_in_letters.
      destruct (decide (x = c)) as [->|Hne]; [intros _; by eapply parseCard_full|].
      rewrite (proj2 (byte_eqb_neq c x)) by congruence. rewrite orb_false_r. intros Hm.
      rewrite (parseCard_other _ _ _ _ _ Hp Hne). by apply H2.
  - intros pre tok body st st' [H1 H2] _ Hg _ _. pose proof (guard_card_ok _ _ _ Hg) as (Hd & _).
    rewrite Hd.
    assert (Ho : forall x, x <> x57 -> present (set_W (Some body) (sc_deck st)) x = present (sc_deck st) x).
    { intros x Hx. destruct (sc_deck st). by destruct x. }
    assert (Hw : present (set_W (Some body) (sc_deck st)) x57 = true) by by destruct (sc_deck st).
    split; cbn [set_deck sc_deck sc_mask].
    + intros x Hx Hz Hpr. rewrite (guard_card_has _ _ _ _ Hg) by by apply card_letters_A_Z.
      destruct (decide (x = x57)) as [->|Hne]; [by rewrite byte_eqb_refl, orb_true_r|].
      rewrite Ho in Hpr by done. by rewrite H1.
    + intros x Hx. rewrite (guard_card_has _ _ _ _ Hg) by by apply card_letters_A_Z, full_in_letters.
      destruct (decide (x = x57)) as [->|Hne]; [done|].
      rewrite (proj2 (byte_eqb_neq x57 x)) by congruence. rewrite orb_false_r, Ho by done. by apply H2.
Qed.

Definition wf_inv (_ : bytes) (st : scan_state) : Prop := wf_fields (sc_deck st) = true.

Lemma w_size_max tok acc v : 0 <= acc <= MaxUint64 -> w_size tok acc = Ok v -> v <= MaxUint64.
Proof.
  revert acc. induction tok as [|c rest IH]; intros acc Ha; cbn [w_size]; [by intros [= <-]; lia|].
  destruct (is_digit c); cbn [negb]; [|by intros [= <-]; lia]. case_goal; [done|]. apply IH.
  pose proof (u64_range (acc * 10 + (bz c - 48))). unfold MaxUint64. lia.
Qed.

Lemma wf_inv_step : step_ok wf_inv.
Proof.
  split; unfold wf_inv; cbn [set_deck sc_deck].
  - intros pre c ts st st' d' HI Hts _ _ Hg Hi Hp. apply guard_card_ok in Hg as (Hd & _).
    rewrite Hd in Hp. by eapply parseCard_wf.
  - intros pre tok body st st' HI Ht Hg Hw Hsz. apply guard_card_ok in Hg as (-> & _).
    assert (len body <= MaxUint64) by (eapply (w_size_max tok 0); [unfold MaxUint64; lia|done]).
    destruct (sc_deck st). unfold wf_fields, lists_wf, singles_wf in *. cbn in *. split_wf; try done. lia.
Qed.

(** What Parse establishes of the deck it returns. *)
Lemma Parse_facts data d : Parse (Some data) = Ok d ->
  wf_fields d = true /\ exists mask, checkType d mask = Ok () /\ d_Type d = final_type d mask
    /\ (forall c, c ∈ card_letters -> present d c = true -> has_letter mask c = true)
    /\ (forall c, c ∈ full_letters -> has_letter mask c = true -> present d c = true).
Proof.
  intros (content & d0 & mask & Hf & Hs & -> & Hc)%Parse_ok.
  apply frameArtifact_ok in Hf as (-> & He & _).
  assert (He' : ended (strip data)) by by right.
  destruct (scanCards_invariant wf_inv _ zero_Deck wf_inv_step He') as [_ H1]; [done|].
  destruct (scanCards_invariant letters_inv _ zero_Deck letters_inv_step He') as [_ H2].
  { split; intros c.
    - intros _ Hz. destruct c; try discriminate; done.
    - unfold has_letter. cbn. by rewrite Z.bits_0. }
  destruct (H1 _ _ Hs) as (read1 & st1 & HI1 & <- & <- & _).
  destruct (H2 _ _ Hs) as (read2 & st2 & [HI2 HI3] & Hd & Hm & _). rewrite Hd, Hm in *.
  set (ty := final_type _ _) in *.
  assert (Hpres : forall c, present (set_Type ty (sc_deck st1)) c = present (sc_deck st1) c) by by destruct (sc_deck st1).
  split; [unfold wf_inv in HI1; by destruct (sc_deck st1)|].
  exists (sc_mask st1). split; [done|]. split.
  { subst ty. unfold final_type. by destruct (sc_deck st1). }
  split; intros c Hcl; rewrite Hpres; [|by apply HI3].
  intros Hp. destruct (decide (c = x5a)) as [->|Hz]; [|by apply HI2].
  eapply checkType_required; [exact Hc|done|apply required_Z].
Qed.

(** ** Legality of a deck against its own cards *)
Lemma land_letter m c : in_A_Z c = true -> (Z.land m (letter_bit c) =? 0) = negb (has_letter m c).
Proof.
  intros Hc. pose proof (in_A_Z_lt c Hc).
  unfold has_letter, letter_bit. rewrite Z.shiftl_1_l.
  destruct (Z.testbit m (bz c - 65)) eqn:E; cbn [negb].
  - apply Z.eqb_neq. intros Hz. apply (f_equal (fun z => Z.testbit z (bz c - 65))) in Hz.
    rewrite Z.land_spec, E, Z.pow2_bits_true, Z.bits_0 in Hz by lia. done.
  - apply Z.eqb_eq. apply Z.bits_inj'. intros i Hi. rewrite Z.land_spec, Z.bits_0, Z.pow2_bits_eqb by lia.
    destruct (Z.eqb_spec (bz c - 65) i) as [<-|]; [by rewrite E|apply andb_false_r].
Qed.

Lemma fold_lor_bits (f : Z -> byte -> Z) cs m i :
  (forall m c, f m c = m \/ f m c = Z.lor m (letter_bit c)) ->
  Z.testbit (foldl f m cs) i = true ->
  Z.testbit m i = true \/ exists c, c ∈ cs /\ Z.testbit (letter_bit c) i = true.
Proof.
  intros Hf. revert m. induction cs as [|c cs IH]; intros m; cbn [foldl]; [by left|].
  intros H. destruct (IH _ H) as [H'|(x & Hx & H')].
  - destruct (Hf m c) as [E|E]; rewrite E in H'; [by left|].
    rewrite Z.lor_spec in H'. apply orb_true_iff in H' as [|]; [by left|].
    right. exists c. split; [by left|done].
  - right. exists x. split; [by right|done].
Qed.

Lemma letter_bit_index c i : in_A_Z c = true -> 0 <= i -> Z.testbit (letter_bit c) i = true -> i = bz c - 65.
Proof. intros Hc Hi. rewrite letter_bit_spec by done. intros. zbool. done. Qed.

Lemma mask_of_bits d i : 0 <= i -> Z.testbit (mask_of d) i = true ->
  exists c, c ∈ card_letters /\ i = bz c - 65.
Proof.
  intros Hi H. unfold mask_of in H. apply fold_lor_bits in H as [H|(c & Hc & H)].
  - by rewrite Z.bits_0 in H.
  - exists c. split; [done|]. apply letter_bit_index; [by apply card_letters_A_Z|done|done].
  - intros m c. destruct (present d c); auto.
Qed.

Lemma required_bits t i : 0 <= i -> Z.testbit (required (cardTables t)) i = true ->
  exists c, (c = x44 \/ c = x5a \/ c ∈ full_letters) /\ i = bz c - 65 /\ in_A_Z c = true.
Proof.
  intros Hi H.
  assert (Hr : forall c, c ∈ snd (card_rows t) -> (c = x44 \/ c = x5a \/ c ∈ full_letters) /\ in_A_Z c = true).
  { intros c Hc. assert (forallb (fun b => (Byte.eqb b x44 || Byte.eqb b x5a || bool_decide (b ∈ full_letters))
      && in_A_Z b) (snd (card_rows t)) = true) as Hall by by destruct t.
    rewrite forallb_forall in Hall. apply list_elem_of_In in Hc. specialize (Hall c Hc).
    rewrite andb_true_iff, !orb_true_iff, !byte_eqb_eq, bool_decide_eq_true in Hall. tauto. }
  assert (Z.testbit (letterMask (snd (card_rows t))) i = true) as H' by (revert H; unfold cardTables; by destruct (card_rows t)).
  unfold letterMask in H'. apply fold_lor_bits in H' as [H'|(c & Hc & H')]; [by rewrite Z.bits_0 in H'| |auto].
  destruct (Hr c Hc) as [Hc1 Hc2]. exists c. split; [done|]. split; [by apply letter_bit_index|done].
Qed.

(** Legal against the cards read, a deck is legal against the cards it has. *)
Lemma checkType_own d mask : checkType d mask = Ok () ->
  (forall c, c ∈ card_letters -> present d c = true -> has_letter mask c = true) ->
  (forall c, c ∈ full_letters -> has_letter mask c = true -> present d c = true) ->
  (has_letter mask x44 = true -> present d x44 = true) ->
  checkType d (mask_of d) = Ok ().
Proof.
  intros Hc H1 H2 HD.
  assert (Z.ldiff (mask_of d) (allowed (cardTables (d_Type d))) = 0) as Ha.
  { apply Z.bits_inj'. intros i Hi. rewrite Z.ldiff_spec, Z.bits_0.
    destruct (Z.testbit (mask_of d) i) eqn:E; [|done]. cbn [andb].
    destruct (mask_of_bits d i Hi E) as (c & Hcl & ->). fold (has_letter (mask_of d) c) in E.
    rewrite mask_of_present in E by done. apply (H1 c Hcl), (checkType_allowed _ _ _ Hc) in E.
    - unfold has_letter in E. by rewrite E.
    - by apply card_letters_A_Z. }
  assert (Z.ldiff (required (cardTables (d_Type d))) (mask_of d) = 0) as Hr.
  { apply Z.bits_inj'. intros i Hi. rewrite Z.ldiff_spec, Z.bits_0.
    destruct (Z.testbit (required _) i) eqn:E; [|done]. cbn [andb].
    destruct (required_bits _ i Hi E) as (c & Hcl & -> & Hcz).
    pose proof (checkType_required _ _ _ Hc Hcz E) as Hm.
    fold (has_letter (mask_of d) c). rewrite mask_of_present.
    - destruct Hcl as [-> |[-> |Hcl]]; [by rewrite HD|done|by rewrite H2].
    - destruct Hcl as [-> |[-> |Hcl]]; [by apply letter_in..|by apply full_in_letters]. }
  revert Hc. unfold checkType. cbv zeta. rewrite Ha, Hr. cbn [Z.eqb negb].
  destruct (negb (Z.ldiff mask _ =? 0)); [done|]. by destruct (negb (Z.ldiff (required _) mask =? 0)).
Qed.

(** A deck whose D card, if its type has one, is not the zero time, and whose
    times have a written form. *)
Definition writable (d : Deck) : bool :=
  times_ok d && (negb (IsZero (d_D d)) || bool_decide (d_Type d = Cluster) || bool_decide (d_Type d = Submanifest)).

Lemma lower_lower s : lower (lower s) = lower s.
Proof.
  unfold lower. rewrite map_map. apply map_ext. intros c. by_bytes c.
Qed.

Lemma present_lower d c : present (lower_hex d) c = present d c.
Proof. destruct d. destruct c; try done; cbn; by rewrite empty_lower. Qed.

Lemma mask_of_lower d : mask_of (lower_hex d) = mask_of d.
Proof. unfold mask_of. apply foldl_ext_in. intros m c _. by rewrite present_lower. Qed.

Lemma len_lower s : len (lower s) = len s.
Proof. unfold len, lower. by rewrite length_map. Qed.

Lemma wf_lower d : wf_fields d = true -> wf_fields (lower_hex d) = true.
Proof.
  intros Hwf. destruct d. unfold wf_fields, lists_wf, singles_wf, lower_hex in *. cbn -[isHexAnyCase] in *.
  rewrite !empty_lower, !len_lower. split_wf; try done.
  all: match goal with |- empty ?k || _ = true => destruct (empty k); [done|] end; cbn [orb] in *; split_wf;
    by first [assumption|apply isHexAnyCase_lower].
Qed.

Lemma final_type_lower d m : final_type (lower_hex d) m = final_type d m.
Proof. unfold final_type, inferType. destruct d. cbn. by rewrite !empty_lower. Qed.

Lemma checkType_lower d m : checkType (lower_hex d) m = checkType d m.
Proof. by destruct d. Qed.

Lemma times_ok_lower d : times_ok (lower_hex d) = times_ok d.
Proof. by destruct d. Qed.

Lemma d_Type_lower d : d_Type (lower_hex d) = d_Type d.
Proof. by destruct d. Qed.

Lemma lower_ok_lower d : lower_ok (lower_hex d) = true.
Proof.
  unfold lower_ok, lower_hex. destruct d. cbn. by rewrite !lower_lower, !bool_decide_eq_true_2.
Qed.

(** No type allows a D card without requiring it. *)
Lemma D_of_type d mask : checkType d mask = Ok () -> has_letter mask x44 = true ->
  negb (IsZero (d_D d)) || bool_decide (d_Type d = Cluster) || bool_decide (d_Type d = Submanifest) = true ->
  present d x44 = true.
Proof.
  intros Hc Hm HD. cbn [present]. destruct (IsZero (d_D d)); [|done]. cbn [negb orb] in *. exfalso.
  apply (checkType_allowed _ _ _ Hc) in Hm; [|done].
  rewrite orb_true_iff, !bool_decide_eq_true in HD. destruct HD as [HD|HD]; by rewrite HD in Hm.
Qed.

Lemma final_type_mask d mask : (has_letter mask x44 = true <-> present d x44 = true) ->
  final_type d mask = final_type d (mask_of d).
Proof.
  intros H. unfold final_type. rewrite !land_letter by done.
  rewrite mask_of_present by by apply letter_in.
  destruct (has_letter mask x44), (present d x44); try done; naive_solver.
Qed.

Lemma canonical_lower data d : Parse (Some data) = Ok d -> writable d = true -> canonical (lower_hex d) = true.
Proof.
  intros (Hwf & mask & Hc & Hty & H1 & H2)%Parse_facts [Ht HD]%andb_true_iff.
  assert (HDD : has_letter mask x44 = true -> present d x44 = true).
  { intros Hm. by eapply D_of_type. }
  assert (Htype : type_ok (lower_hex d) = true).
  { unfold type_ok. rewrite mask_of_lower, final_type_lower, checkType_lower, d_Type_lower.
    rewrite (checkType_own d mask) by done. rewrite andb_true_r. apply bool_decide_eq_true.
    rewrite Hty. apply final_type_mask. split; [done|]. apply H1. by apply letter_in. }
  unfold canonical. by rewrite wf_lower, times_ok_lower, Ht, Htype, lower_ok_lower.
Qed.

(** ** The codec's properties *)

(** C2: writing then reading.  For a deck as a caller builds it (any list
    order, any hex case, permissions and present flags left out) whose normal form
    is well formed, writable and legal, Marshal succeeds, Parse accepts what it
    wrote, and returns exactly the normal form, which Marshal writes the same. *)
Theorem codec_roundtrip `{!GoSort} `{!GoUnicode} (d : Deck) :
  canonical (normalize d) = true ->
  exists m, Marshal d = Ok m /\ Parse (Some m) = Ok (normalize d) /\ Marshal (normalize d) = Ok m.
Proof.
  intros Hc. assert (Hwf : wf_fields (normalize d) = true).
  { unfold canonical in Hc. rewrite !andb_true_iff in Hc. tauto. }
  exists (seal (texts (items (normalize d)))).
  split; [by apply Marshal_normal|]. split; [by apply parse_seal|].
  rewrite Marshal_normal; rewrite normalize_canonical; done.
Qed.

(** A check-in as a caller would build it. *)
Definition example_hash : bytes := bs "da39a3ee5e6b4b0d3255bfef95601890afd80709".
Definition example_checkin : Deck :=
  set_C (bs "a comment with spaces") (set_D 63849223567123456000
  (set_F [mk_FileCard (bs "dir/b c") example_hash [] (bs "dir/old"); mk_FileCard (bs "a") example_hash (bs "x") []]
  (set_P [example_hash]
  (set_Q [mk_CherryPick true example_hash []]
  (set_R (bs "D41D8CD98F00B204E9800998ECF8427E")
  (set_T [mk_TagCard TagSingleton (bs "sym-trunk") (bs "*") [] false;
          mk_TagCard TagPropagating (bs "branch") (bs "*") (bs "trunk") false]
  (set_U (Some (bs "joe")) zero_Deck))))))).

Lemma codec_roundtrip_witness :
  exists m, Marshal example_checkin = Ok m /\ Parse (Some m) = Ok (normalize example_checkin)
    /\ Marshal (normalize example_checkin) = Ok m.
Proof.
  apply (@codec_roundtrip insertion_GoSort ascii_only_GoUnicode example_checkin). vm_compute. reflexivity.
Defined.

(** C5: reading then writing.  An accepted artifact whose times have a written
    form is written back as text that Parse accepts as the same deck, with its K
    and R hex in lower case; nothing else of the deck is lost. *)
Theorem reparse_stable `{!GoSort} `{!GoUnicode} (data : bytes) (d : Deck) :
  Parse (Some data) = Ok d -> writable d = true ->
  exists m, Marshal d = Ok m /\ Parse (Some m) = Ok (lower_hex d).
Proof.
  intros Hp Hw. destruct (Parse_facts _ _ Hp) as [Hwf _].
  pose proof (canonical_lower _ _ Hp Hw) as Hc.
  assert (Hn : normalize d = lower_hex d) by by apply normalize_wf.
  exists (seal (texts (items (lower_hex d)))). rewrite <- Hn. split.
  - apply Marshal_normal. rewrite Hn. by apply wf_lower.
  - rewrite Hn. by apply parse_seal.
Qed.

Lemma reparse_stable_witness :
  exists m, Marshal (deck_of (Parse (Some good_control))) = Ok m
    /\ Parse (Some m) = Ok (lower_hex (deck_of (Parse (Some good_control)))).
Proof.
  apply (@reparse_stable insertion_GoSort ascii_only_GoUnicode good_control); vm_compute; reflexivity.
Defined.

(** A line of the text starts with a card letter. *)
Definition heads_line (content : bytes) (c : byte) : Prop :=
  exists pre post, content = pre ++ c :: post /\ ended pre.

Definition lines_inv (read : bytes) (st : scan_state) : Prop :=
  ended read /\ forall c, in_A_Z c = true -> has_letter (sc_mask st) c = true -> heads_line read c.

Lemma heads_line_app a b c : heads_line a c -> heads_line (a ++ b) c.
Proof. intros (pre & post & -> & He). exists pre, (post ++ b). by rewrite <- app_assoc. Qed.

Lemma card_text_head c ts : exists t, card_text c ts = c :: t.
Proof. destruct ts; eexists; reflexivity. Qed.

Lemma card_text_ends c ts : ends_lf (card_text c ts).
Proof. destruct ts as [|t ts]; [by exists [c]|]. by exists (c :: x20 :: join_sp (t :: ts)). Qed.

(** One more card, whatever text it is, heads the next line. *)
Lemma lines_inv_card pre c text st st' d : lines_inv pre st -> guard_card st c = Ok st' ->
  (exists t, text = c :: t) -> ends_lf text -> lines_inv (pre ++ text) (set_deck st' d).
Proof.
  intros [He HI] Hg [t ->] [u Hu]. split.
  - right. exists (pre ++ u). by rewrite Hu, app_assoc.
  - cbn [set_deck sc_mask]. intros x Hx. rewrite (guard_card_has _ _ _ _ Hg Hx).
    intros [H| ->%byte_eqb_eq]%orb_true_iff; [by apply heads_line_app, HI|by exists pre, t].
Qed.

Lemma lines_inv_step : step_ok lines_inv.
Proof.
  split.
  - intros pre c ts st st' d' HI _ _ _ Hg _ _. eapply lines_inv_card; [done..|apply card_text_head|apply card_text_ends].
  - intros pre tok body st st' HI _ Hg _ _. eapply lines_inv_card; [done..| |].
    + eexists. reflexivity.
    + exists (card_text x57 [tok] ++ body). by rewrite <- app_assoc.
Qed.

(** The cards of the mask head lines of the text scanned. *)
Lemma scanned_lines content d mask c : scanCards content zero_Deck = Ok (d, mask) -> ended content ->
  in_A_Z c = true -> has_letter mask c = true -> heads_line content c.
Proof.
  intros Hs He Hc Hm. destruct (scanCards_invariant lines_inv content zero_Deck lines_inv_step He) as [_ H].
  { split; [by left|]. intros x _. unfold has_letter. cbn. by rewrite Z.bits_0. }
  destruct (H _ _ Hs) as (read & st & [_ HI] & _ & <- & [-> | ->]); [|apply heads_line_app]; by apply HI.
Qed.

(** A required card heads a line of the artifact. *)
Lemma required_lines data d c : Parse (Some data) = Ok d -> c ∈ snd (card_rows (d_Type d)) -> heads_line (strip data) c.
Proof.
  intros (content & d0 & mask & Hf & Hs & -> & Hc)%Parse_ok. apply frameArtifact_ok in Hf as (-> & He & _).
  intros Hr%list_elem_of_In.
  assert (forallb (fun b => has_letter (required (cardTables (d_Type (set_Type (final_type d0 mask) d0)))) b && in_A_Z b)
    (snd (card_rows (d_Type (set_Type (final_type d0 mask) d0)))) = true)
    as Hall by by destruct (d_Type (set_Type (final_type d0 mask) d0)).
  rewrite forallb_forall in Hall. apply Hall in Hr as [Hr Ha]%andb_true_iff.
  eapply scanned_lines; [exact Hs|by right|done|]. by eapply checkType_required.
Qed.

(** What a parsed deck's own cards and type satisfy. *)
Lemma Parse_legal (data : bytes) (d : Deck) :
  Parse (Some data) = Ok d ->
  wf_fields d = true /\ checkSemantics d = Ok ()
  /\ (forall c, c ∈ card_letters -> present d c = true -> c ∈ fst (card_rows (d_Type d)))
  /\ (forall c, c ∈ snd (card_rows (d_Type d)) ->
        heads_line (strip data) c /\ (c <> x44 -> present d c = true)).
Proof.
  intros Hp. destruct (Parse_facts _ _ Hp) as (Hwf & mask & Hc & _ & H1 & H2).
  split; [done|]. split.
  { revert Hc. unfold checkType. cbv zeta. by repeat (destruct (negb _); [done|]). }
  split.
  - intros c Hcl Hpr. apply (H1 c Hcl), (checkType_allowed _ _ _ Hc) in Hpr; [|by apply card_letters_A_Z].
    assert (forallb (fun b => implb (has_letter (allowed (cardTables (d_Type d))) b)
      (bool_decide (b ∈ fst (card_rows (d_Type d))))) card_letters = true) as Hall by by destruct (d_Type d).
    rewrite forallb_forall in Hall. apply list_elem_of_In in Hcl. specialize (Hall c Hcl).
    rewrite Hpr in Hall. by apply bool_decide_eq_true in Hall.
  - intros c Hr. split; [by eapply required_lines|]. intros Hd.
    destruct (decide (c = x5a)) as [->|Hz]; [done|].
    assert (Hf : c ∈ full_letters).
    { assert (forallb (fun b => Byte.eqb b x44 || Byte.eqb b x5a || existsb (fun x => Byte.eqb x b) full_letters)
        (snd (card_rows (d_Type d))) = true) as Hall by by destruct (d_Type d).
      rewrite forallb_forall in Hall. apply list_elem_of_In in Hr. specialize (Hall c Hr).
      rewrite (proj2 (byte_eqb_neq c x44) Hd), (proj2 (byte_eqb_neq c x5a) Hz) in Hall.
      apply existsb_exists in Hall as (x & Hx & ->%byte_eqb_eq). by apply list_elem_of_In. }
    apply H2; [done|]. apply (checkType_required _ _ _ Hc); [by apply card_letters_A_Z, full_in_letters|].
    assert (forallb (fun b => has_letter (required (cardTables (d_Type d))) b) (snd (card_rows (d_Type d))) = true)
      as Hall by by destruct (d_Type d).
    rewrite forallb_forall in Hall. apply Hall. by apply list_elem_of_In.
Qed.

(** C37: the type invariant.  In every deck Parse returns ([wf_fields]): F, S and
    A card names and old names are simple pathnames, and an F card's current name
    is moreover unreserved (the code checks that name only); artifact hashes are
    40 or 64 hex digits of either case; the F, J, M, S and T lists are strictly
    ascending; a file without a hash occurs only beside a B card, without
    permission or old name; no tag name could be a hash.  The deck obeys the
    semantic rules of its type and has only cards the type allows.  Every card
    the type requires heads a line of the stripped artifact, and its field is
    set in the deck, D alone excepted: a D card may give Go's zero time, as
    [zero_date_lost] shows. *)
Theorem parse_wf (data : bytes) (d : Deck) :
  Parse (Some data) = Ok d ->
  wf_fields d = true /\ checkSemantics d = Ok ()
  /\ (forall c, c ∈ card_letters -> present d c = true -> c ∈ fst (card_rows (d_Type d)))
  /\ (forall c, c ∈ snd (card_rows (d_Type d)) ->
        heads_line (strip data) c /\ (c <> x44 -> present d c = true)).
Proof. apply Parse_legal. Qed.

Lemma parse_wf_witness :
  wf_fields (deck_of (Parse (Some good_control))) = true
  /\ checkSemantics (deck_of (Parse (Some good_control))) = Ok ()
  /\ (forall c, c ∈ card_letters -> present (deck_of (Parse (Some good_control))) c = true ->
        c ∈ fst (card_rows (d_Type (deck_of (Parse (Some good_control))))))
  /\ (forall c, c ∈ snd (card_rows (d_Type (deck_of (Parse (Some good_control))))) ->
        heads_line (strip good_control) c /\ (c <> x44 -> present (deck_of (Parse (Some good_control))) c = true)).
Proof. apply (parse_wf good_control). vm_compute. reflexivity. Defined.

(** A control artifact dated at Go's zero time. *)
Definition zero_dated : bytes := seal (bs "D 0001-01-01
T +x da39a3ee5e6b4b0d3255bfef95601890afd80709
U u
").

(** the writable condition is needed: an artifact dated 0001-01-01 is
    accepted, Marshal of its deck leaves the D card out, and Parse refuses the
    result. *)
Theorem zero_date_lost `{!GoSort} `{!GoUnicode} :
  exists d m, Parse (Some zero_dated) = Ok d /\ Marshal d = Ok m
    /\ Parse (Some m) = Err (Wrapf "deck.Parse: %w"
         (Errorf "%c-card missing in %s" [AByte x44; AStr (bs "control artifact")])).
Proof.
  assert (Hp : Parse (Some zero_dated) = Ok (deck_of (Parse (Some zero_dated)))) by (vm_compute; reflexivity).
  destruct (Parse_facts _ _ Hp) as [Hwf _].
  exists (deck_of (Parse (Some zero_dated))). eexists. split; [done|]. split.
  - apply Marshal_normal. rewrite normalize_wf by done. by apply wf_lower.
  - rewrite normalize_wf by done. vm_compute. reflexivity.
Qed.
