(* ===== verification/Submanifest.v ===== *)
(** * Sub-manifests: MarshalLeaf and MarshalInterior read back *)

From S2P Require Import Prelude GoStd GoText GoCrypto Deck Escape Pathname Timestamp Clearsign Legality Marshal Parse ParseCorrect DeckWf Canonical RoundTrip Codec.

(** Sorting elements with distinct keys gives a strictly ascending list. *)
Lemma sort_slice_nodup `{GoSort} {A} (key : A -> bytes) (l : list A) :
  NoDup (map key l) ->
  sortedb (fun x y => Compare (key x) (key y) <? 0) (sort_slice (fun x y => Compare (key x) (key y) <? 0) l) = true.
Proof.
  intros Hnd. set (less := fun x y => _). pose proof (strict_weak_key key) as Hsw.
  pose proof (sort_slice_ordered less l Hsw) as Hs.
  assert (Hnd' : NoDup (map key (sort_slice less l))).
  { by rewrite (Permutation_map key (sort_slice_perm less l)). }
  revert Hs Hnd'. generalize (sort_slice less l) as k. clear. induction k as [|x k IH]; [done|].
  cbn [map]. intros Hs Hnd. inversion Hs as [|? ? Hs' Hf]; subst. apply NoDup_cons in Hnd as [Hni Hnd].
  cbn [sortedb]. rewrite IH, andb_true_r by done. destruct k as [|y k]; [done|].
  inversion Hf as [|? ? Hyx _]; subst. unfold less in Hyx |- *.
  destruct (blt_total (key x) (key y)) as [Hb|[Hb|Hb]]; [done| |].
  - exfalso. apply Hni. rewrite Hb. by left.
  - unfold Compare in Hyx. unfold blt in Hb. congruence.
Qed.

Lemma forallb_Permutation {A} (p : A -> bool) l k : Permutation l k -> forallb p l = true -> forallb p k = true.
Proof.
  rewrite !forallb_forall. intros Hp H x Hx. apply H. by rewrite Hp.
Qed.

Lemma map_sorted_key {A} (key : A -> bytes) (f : A -> A) l : (forall x, key (f x) = key x) ->
  sortedb (fun x y => Compare (key x) (key y) <? 0) (map f l)
  = sortedb (fun x y => Compare (key x) (key y) <? 0) l.
Proof.
  intros Hf. induction l as [|x l IH]; [done|]. cbn [map sortedb]. rewrite IH.
  destruct l as [|y l]; [done|]. cbn [map]. by rewrite !Hf.
Qed.

Section submanifest.
Context `{!GoSort} `{!GoUnicode}.

(** A file a leaf can hold: a name a manifest may list, a hash, a permission
    that is a token and an old name that is a simple pathname. *)
Definition leaf_file (f : FileCard) : bool :=
  simplePathname (f_Name f) && negb (reserved (f_Name f)) && validArtifactHash (f_UUID f)
  && token_ok (f_Perm f) && (empty (f_OldName f) || simplePathname (f_OldName f)).

Lemma leaf_file_wf f : leaf_file f = true -> file_wf false (norm_file f) = true.
Proof using.
  unfold leaf_file, file_wf, norm_file. rewrite !andb_true_iff. intros [[[[Hs Hr] Hh] Hp] Ho].
  rewrite (validArtifactHash_nonempty _ Hh). cbn [f_Name f_UUID f_Perm f_OldName].
  rewrite (validArtifactHash_nonempty _ Hh), Hs, Hr, Hh.
  destruct (empty (f_OldName f)) eqn:Eo; cbn [orb negb andb] in *.
  - by rewrite andb_false_r, Hp.
  - rewrite Ho. rewrite andb_true_r. destruct (empty (f_Perm f)) eqn:Ep; [done|]. by rewrite Hp, Ep.
Qed.

(** Decks with only F, or only S, cards. *)
Lemma F_mask fs : fs <> [] -> mask_of (set_F fs (set_Type Submanifest zero_Deck)) = letterMask (bs "FZ").
Proof using. destruct fs as [|f fs]; [done|]. intros _. unfold mask_of. reflexivity. Qed.

Lemma S_mask ss : ss <> [] -> mask_of (set_S ss (set_Type Submanifest zero_Deck)) = letterMask (bs "SZ").
Proof using. destruct ss as [|s ss]; [done|]. intros _. unfold mask_of. reflexivity. Qed.

Lemma leaf_canonical fs : fs <> [] -> forallb (file_wf false) fs = true -> sortedb file_less fs = true ->
  canonical (set_F fs (set_Type Submanifest zero_Deck)) = true.
Proof using.
  intros Hne Hf Hs. unfold canonical, type_ok. rewrite F_mask by done.
  assert (wf_fields (set_F fs (set_Type Submanifest zero_Deck)) = true) as ->.
  { unfold wf_fields, lists_wf. cbn [set_F set_Type zero_Deck d_F d_B d_J d_M d_P d_Q d_S d_T empty negb].
    by rewrite Hf, Hs. }
  by destruct fs.
Qed.

Lemma interior_canonical ss : ss <> [] -> forallb submanifest_wf ss = true -> sortedb submanifest_less ss = true ->
  canonical (set_S ss (set_Type Submanifest zero_Deck)) = true.
Proof using.
  intros Hne Hf Hs. unfold canonical, type_ok. rewrite S_mask by done.
  assert (wf_fields (set_S ss (set_Type Submanifest zero_Deck)) = true) as ->.
  { unfold wf_fields, lists_wf. cbn [set_S set_Type zero_Deck d_F d_B d_J d_M d_P d_Q d_S d_T empty negb].
    by rewrite Hf, Hs. }
  by destruct ss.
Qed.

Lemma sort_nil {A} (l : list A) less : l <> [] -> sort_slice less l <> [].
Proof using.
  intros Hl Hn. pose proof (sort_slice_perm less l) as Hp. rewrite Hn in Hp.
  by apply Permutation_nil_l in Hp.
Qed.

Lemma normalize_leaf fs : normalize (set_F fs (set_Type Submanifest zero_Deck))
  = set_F (map norm_file (sort_slice file_less fs)) (set_Type Submanifest zero_Deck).
Proof using.
  unfold normalize. cbn -[sort_slice norm_file].
  assert (Hnil : forall A (less : A -> A -> bool), sort_slice less [] = []).
  { intros A less. apply Permutation_nil_r. apply sort_slice_perm. }
  by rewrite !Hnil.
Qed.

Lemma normalize_interior ss : normalize (set_S ss (set_Type Submanifest zero_Deck))
  = set_S (sort_slice submanifest_less ss) (set_Type Submanifest zero_Deck).
Proof using.
  unfold normalize. cbn -[sort_slice norm_file].
  assert (Hnil : forall A (less : A -> A -> bool), sort_slice less [] = []).
  { intros A less. apply Permutation_nil_r. apply sort_slice_perm. }
  by rewrite !Hnil.
Qed.

Lemma marshalSubmanifest_items d : canonical (normalize d) = true ->
  marshalSubmanifest d = seal (texts (items (normalize d))).
Proof using.
  intros Hc. assert (Hwf : wf_fields (normalize d) = true).
  { unfold canonical in Hc. rewrite !andb_true_iff in Hc. tauto. }
  pose proof (Marshal_normal d Hwf) as Hm. unfold Marshal in Hm. unfold marshalSubmanifest.
  destruct (check_tag_names (d_T d)); try done. cbn [obind] in Hm. by injection Hm.
Qed.

(** A leaf sub-manifest, from files in any order with distinct, listable
    names and each with a hash, is written without a panic and read back as a
    sub-manifest of exactly these files in name order. *)
Theorem leaf_roundtrip (files : list FileCard) :
  files <> [] -> forallb leaf_file files = true -> NoDup (map f_Name files) ->
  exists m, MarshalLeaf files = Ok m
    /\ Parse (Some m) = Ok (set_F (map norm_file (sort_slice file_less files)) (set_Type Submanifest zero_Deck)).
Proof using All.
  intros Hne Hf Hnd.
  assert (Hc : canonical (normalize (set_F files (set_Type Submanifest zero_Deck))) = true).
  { rewrite normalize_leaf. apply leaf_canonical.
    - pose proof (sort_nil files file_less Hne). by destruct (sort_slice file_less files).
    - assert (Hs : forallb leaf_file (sort_slice file_less files) = true).
      { eapply forallb_Permutation; [|exact Hf]. symmetry. apply sort_slice_perm. }
      rewrite forallb_forall in *. intros x (f & <- & Hin)%in_map_iff. by apply leaf_file_wf, Hs.
    - unfold file_less. rewrite (map_sorted_key f_Name); [by apply sort_slice_nodup|].
      intros f. unfold norm_file. by destruct (empty (f_UUID f)). }
  exists (marshalSubmanifest (set_F files (set_Type Submanifest zero_Deck))). split.
  - unfold MarshalLeaf. destruct files as [|f fs]; [done|].
    replace (len (f :: fs) =? 0) with false by (rewrite len_cons; pose proof (len_nonneg fs); lia).
    destruct (existsb _ _) eqn:E; [|done]. exfalso. apply existsb_exists in E as (x & Hx & He).
    rewrite forallb_forall in Hf. specialize (Hf x Hx). unfold leaf_file in Hf. rewrite !andb_true_iff in Hf.
    destruct Hf as [[[_ Hh] _] _]. apply validArtifactHash_nonempty in Hh. congruence.
  - rewrite marshalSubmanifest_items by done. rewrite <- normalize_leaf. by apply parse_seal.
Qed.

(** the same for an interior sub-manifest's references. *)
Theorem interior_roundtrip (refs : list SubmanifestCard) :
  refs <> [] -> forallb submanifest_wf refs = true -> NoDup (map s_Name refs) ->
  exists m, MarshalInterior refs = Ok m
    /\ Parse (Some m) = Ok (set_S (sort_slice submanifest_less refs) (set_Type Submanifest zero_Deck)).
Proof using All.
  intros Hne Hf Hnd.
  assert (Hc : canonical (normalize (set_S refs (set_Type Submanifest zero_Deck))) = true).
  { rewrite normalize_interior. apply interior_canonical.
    - by apply sort_nil.
    - eapply forallb_Permutation; [|exact Hf]. symmetry. apply sort_slice_perm.
    - by apply (sort_slice_nodup s_Name). }
  exists (marshalSubmanifest (set_S refs (set_Type Submanifest zero_Deck))). split.
  - unfold MarshalInterior. destruct refs as [|r rs]; [done|].
    by replace (len (r :: rs) =? 0) with false by (rewrite len_cons; pose proof (len_nonneg rs); lia).
  - rewrite marshalSubmanifest_items by done. rewrite <- normalize_interior. by apply parse_seal.
Qed.
End submanifest.

Definition example_files : list FileCard :=
  [mk_FileCard (bs "z y") (bs "da39a3ee5e6b4b0d3255bfef95601890afd80709") [] (bs "w");
   mk_FileCard (bs "a") (bs "da39a3ee5e6b4b0d3255bfef95601890afd80709") (bs "x") []].

Lemma leaf_roundtrip_witness :
  exists m, MarshalLeaf example_files = Ok m
    /\ Parse (Some m) = Ok (set_F (map norm_file (sort_slice file_less example_files)) (set_Type Submanifest zero_Deck)).
Proof.
  apply (@leaf_roundtrip insertion_GoSort ascii_only_GoUnicode example_files); [done|vm_compute; reflexivity|].
  apply (bool_decide_unpack _). vm_compute. exact I.
Defined.

Definition example_refs : list SubmanifestCard :=
  [mk_SubmanifestCard (bs "m/n") (bs "da39a3ee5e6b4b0d3255bfef95601890afd80709");
   mk_SubmanifestCard (bs "a b") (bs "da39a3ee5e6b4b0d3255bfef95601890afd80709")].

Lemma interior_roundtrip_witness :
  exists m, MarshalInterior example_refs = Ok m
    /\ Parse (Some m) = Ok (set_S (sort_slice submanifest_less example_refs) (set_Type Submanifest zero_Deck)).
Proof.
  apply (@interior_roundtrip insertion_GoSort ascii_only_GoUnicode example_refs); [done|vm_compute; reflexivity|].
  apply (bool_decide_unpack _). vm_compute. exact I.
Defined.
