(* ===== verification/Zlib.v ===== *)
(** * compress/zlib of Go's standard library

    The reader is executable, written from the formats (RFC 1950, RFC 1951) and
    the package's own acceptance rules: [zlib_read] gives the bytes a reader
    delivers and whether the stream then ends cleanly.  The writer's choice of
    blocks is the library's; models use it through the class [Zlib], whose law
    is that a reader returns what was written.  Stored blocks inhabit it. *)

From S2P Require Import Prelude GoStd GoText GoCrypto.

(** ** The bit reader: pending bits of the current byte, then whole bytes *)
Definition bitsrc : Type := list bool * bytes.

Definition byte_bits (c : byte) : list bool := map (Z.testbit (bz c)) [0; 1; 2; 3; 4; 5; 6; 7].

Definition get_bit (s : bitsrc) : option (bool * bitsrc) :=
  match s with
  | (b :: bits, rest) => Some (b, (bits, rest))
  | ([], c :: rest) =>
      match byte_bits c with b :: bits => Some (b, (bits, rest)) | [] => None end
  | ([], []) => None
  end.

(** [n] bits, the first the least significant. *)
Fixpoint get_bits (n : nat) (s : bitsrc) : option (Z * bitsrc) :=
  match n with
  | O => Some (0, s)
  | S k => match get_bit s with
           | None => None
           | Some (b, s1) =>
               match get_bits k s1 with
               | None => None
               | Some (v, s2) => Some (Z.b2z b + 2 * v, s2)
               end
           end
  end.

(** ** Canonical Huffman codes, from the code length of each symbol *)
Record huffman := mk_huffman { h_count : list Z; h_symbol : list Z }.

Definition count_len (lens : list Z) (n : Z) : Z := len (filter (fun l => l = n) lens).
Definition code_lengths : list Z := [1; 2; 3; 4; 5; 6; 7; 8; 9; 10; 11; 12; 13; 14; 15].
Definition indexed (l : list Z) : list (Z * Z) := combine (map Z.of_nat (seq 0 (length l))) l.

(** [huffmanDecoder.init]: an empty code is built (and fails when used), a
    single one-bit code is allowed, any other incomplete or oversubscribed set
    of lengths is refused. *)
Definition huffman_init (lens : list Z) : option huffman :=
  let count := map (count_len lens) code_lengths in
  let left := fold_left (fun code c => 2 * code - c) count 1 in
  let over := snd (fold_left (fun '(code, bad) c =>
                let code' := 2 * code - c in (code', bad || (code' <? 0))) count (1, false)) in
  let total := fold_left Z.add count 0 in
  let h := mk_huffman count
    (code_lengths ≫= (fun n => map fst (filter (fun p : Z * Z => snd p = n) (indexed lens)))) in
  if total =? 0 then Some h
  else if over then None
  else if left =? 0 then Some h
  else if (total =? 1) && (nth 0 count 0 =? 1) then Some h
  else None.

(** [huffSym], one bit at a time. *)
Fixpoint huff_loop (counts : list Z) (symbols : list Z) (code first index : Z) (s : bitsrc)
  : option (Z * bitsrc) :=
  match counts with
  | [] => None
  | count :: counts' =>
      match get_bit s with
      | None => None
      | Some (b, s1) =>
          let code := code + Z.b2z b in
          if code - count <? first
          then match symbols !! Z.to_nat (index + (code - first)) with
               | Some sym => Some (sym, s1)
               | None => None
               end
          else huff_loop counts' symbols (2 * code) (2 * (first + count)) (index + count) s1
      end
  end.

Definition huffSym (h : huffman) (s : bitsrc) : option (Z * bitsrc) :=
  huff_loop (h_count h) (h_symbol h) 0 0 0 s.

(** ** Blocks.  Output is accumulated reversed: its head is the last byte. *)
Definition length_base : list Z :=
  [3; 4; 5; 6; 7; 8; 9; 10; 11; 13; 15; 17; 19; 23; 27; 31; 35; 43; 51; 59; 67; 83; 99; 115; 131; 163; 195; 227; 258].
Definition length_extra : list nat :=
  [0; 0; 0; 0; 0; 0; 0; 0; 1; 1; 1; 1; 2; 2; 2; 2; 3; 3; 3; 3; 4; 4; 4; 4; 5; 5; 5; 5; 0]%nat.

(** The distance a distance symbol and its extra bits name. *)
Definition read_distance (sym : Z) (s : bitsrc) : option (Z * bitsrc) :=
  if sym <? 4 then Some (sym + 1, s)
  else if sym <? 30 then
    let nb := (sym - 2) / 2 in
    match get_bits (Z.to_nat nb) s with
    | None => None
    | Some (v, s1) => Some (2 ^ (nb + 1) + 1 + Z.shiftl (Z.land sym 1) nb + v, s1)
    end
  else None.

(** Copy [n] bytes from [dist] back, which may overlap what is being written. *)
Fixpoint copy_back (n : nat) (dist : Z) (out : bytes) : bytes :=
  match n with
  | O => out
  | S k => copy_back k dist (nth (Z.to_nat (dist - 1)) out x00 :: out)
  end.

Inductive block_end := BlockDone (s : bitsrc) | BlockBad.

(** [huffmanBlock]; each symbol takes at least one bit, so a fuel of the
    number of bits left is enough. *)
Fixpoint huffman_block (fuel : nat) (hl : huffman) (hd : huffman) (out : bytes) (s : bitsrc)
  : bytes * block_end :=
  match fuel with
  | O => (out, BlockBad)
  | S f =>
      match huffSym hl s with
      | None => (out, BlockBad)
      | Some (v, s1) =>
          if v <? 256 then huffman_block f hl hd (zb v :: out) s1
          else if v =? 256 then (out, BlockDone s1)
          else
            match length_base !! Z.to_nat (v - 257), length_extra !! Z.to_nat (v - 257) with
            | Some base, Some nx =>
                match get_bits nx s1 with
                | None => (out, BlockBad)
                | Some (x, s2) =>
                    match huffSym hd s2 with
                    | None => (out, BlockBad)
                    | Some (d, s3) =>
                        match read_distance d s3 with
                        | None => (out, BlockBad)
                        | Some (dist, s4) =>
                            if dist >? len out then (out, BlockBad)
                            else huffman_block f hl hd (copy_back (Z.to_nat (base + x)) dist out) s4
                        end
                    end
                end
            | _, _ => (out, BlockBad)
            end
      end
  end.

Definition fixed_lengths : list Z :=
  replicate 144 8 ++ replicate 112 9 ++ replicate 24 7 ++ replicate 8 8.
Definition fixed_distances : list Z := replicate 32 5.

(** The code lengths of a dynamic block: [readHuffman]'s run-length loop. *)
Fixpoint read_lengths (fuel : nat) (h : huffman) (want : Z) (acc : list Z) (s : bitsrc)
  : option (list Z * bitsrc) :=
  if len acc =? want then Some (rev acc, s)
  else match fuel with
  | O => None
  | S f =>
      match huffSym h s with
      | None => None
      | Some (x, s1) =>
          if x <? 16 then read_lengths f h want (x :: acc) s1
          else
            let '(rep, nb, b) :=
              if x =? 16 then (3, 2%nat, hd_error acc)
              else if x =? 17 then (3, 3%nat, Some 0) else (11, 7%nat, Some 0) in
            match b, get_bits nb s1 with
            | Some b, Some (more, s2) =>
                if len acc + rep + more >? want then None
                else read_lengths f h want (replicate (Z.to_nat (rep + more)) b ++ acc) s2
            | _, _ => None
            end
      end
  end.

Definition code_order : list nat :=
  [16; 17; 18; 0; 8; 7; 9; 6; 10; 5; 11; 4; 12; 3; 13; 2; 14; 1; 15]%nat.

Fixpoint read_code_bits (order : list nat) (n : Z) (lens : list Z) (s : bitsrc) : option (list Z * bitsrc) :=
  match order with
  | [] => Some (lens, s)
  | i :: order' =>
      if n <=? 0 then Some (lens, s)
      else match get_bits 3 s with
           | None => None
           | Some (v, s1) => read_code_bits order' (n - 1) (<[i := v]> lens) s1
           end
  end.

(** [readHuffman]. *)
Definition read_huffman (fuel : nat) (s : bitsrc) : option (huffman * huffman * bitsrc) :=
  match get_bits 5 s with
  | None => None
  | Some (hlit, s1) =>
  match get_bits 5 s1 with
  | None => None
  | Some (hdist, s2) =>
  match get_bits 4 s2 with
  | None => None
  | Some (hclen, s3) =>
    let nlit := hlit + 257 in
    let ndist := hdist + 1 in
    if (nlit >? 286) || (ndist >? 30) then None
    else
      match read_code_bits code_order (hclen + 4) (replicate 19 0) s3 with
      | None => None
      | Some (cl, s4) =>
          match huffman_init cl with
          | None => None
          | Some hc =>
              match read_lengths fuel hc (nlit + ndist) [] s4 with
              | None => None
              | Some (lens, s5) =>
                  match huffman_init (take (Z.to_nat nlit) lens), huffman_init (drop (Z.to_nat nlit) lens) with
                  | Some hl, Some hd => Some (hl, hd, s5)
                  | _, _ => None
                  end
              end
          end
      end
  end end end.

(** [dataBlock]: the rest of the current byte is dropped, then LEN, its
    complement and LEN bytes; what is there of a short block is delivered. *)
Definition stored_block (out : bytes) (rest : bytes) : bytes * block_end :=
  match rest with
  | l0 :: l1 :: n0 :: n1 :: data =>
      let n := bz l0 + 256 * bz l1 in
      if bz n0 + 256 * bz n1 =? 65535 - n
      then if n <=? len data
           then (rev_append (take (Z.to_nat n) data) out, BlockDone ([], drop (Z.to_nat n) data))
           else (rev_append data out, BlockBad)
      else (out, BlockBad)
  | _ => (out, BlockBad)
  end.

(** Blocks until the final one; each takes at least three bits. *)
Fixpoint inflate_loop (fuel : nat) (out : bytes) (s : bitsrc) : bytes * block_end :=
  match fuel with
  | O => (out, BlockBad)
  | S f =>
      match get_bits 1 s with
      | None => (out, BlockBad)
      | Some (final, s1) =>
          match get_bits 2 s1 with
          | None => (out, BlockBad)
          | Some (typ, s2) =>
              let symbols := (8 * length (snd s2) + 8)%nat in
              let '(out', e) :=
                if typ =? 0 then stored_block out (snd s2)
                else if typ =? 1 then
                  match huffman_init fixed_lengths, huffman_init fixed_distances with
                  | Some hl, Some hd => huffman_block symbols hl hd out s2
                  | _, _ => (out, BlockBad)
                  end
                else if typ =? 2 then
                  match read_huffman 320 s2 with
                  | Some (hl, hd, s3) => huffman_block symbols hl hd out s3
                  | None => (out, BlockBad)
                  end
                else (out, BlockBad) in
              match e with
              | BlockDone s3 => if final =? 1 then (out', BlockDone s3) else inflate_loop f out' s3
              | BlockBad => (out', BlockBad)
              end
          end
      end
  end.

Definition inflate (data : bytes) : bytes * block_end :=
  let '(out, e) := inflate_loop (S (3 * length data)) [] ([], data) in (rev_append out [], e).

(** ** zlib *)
Definition adler32 (data : bytes) : Z :=
  let '(a, b) := fold_left (fun '(a, b) c =>
    let a' := (a + bz c) mod 65521 in (a', (b + a') mod 65521)) data (1, 0) in
  Z.lor (Z.shiftl b 16) a.

(** Big-endian value of a short prefix: [binary.BigEndian.Uint32]. *)
Definition be_value (l : bytes) : Z := le_value (rev l).

(** What a zlib reader delivers: the bytes, and whether it then ends cleanly. *)
Record zstream := mk_zstream { z_out : bytes; z_clean : bool }.

(** [zlib.NewReader], [None] for its error.  A preset dictionary is accepted
    when its checksum is the empty dictionary's. *)
Definition zlib_read (data : bytes) : option zstream :=
  match data with
  | cmf :: flg :: rest =>
      if negb (Z.land (bz cmf) 0x0f =? 8) || (Z.shiftr (bz cmf) 4 >? 7)
         || negb ((bz cmf * 256 + bz flg) mod 31 =? 0) then None
      else
        let body :=
          if Z.testbit (bz flg) 5
          then if (4 <=? len rest) && (be_value (take 4 rest) =? 1) then Some (drop 4 rest) else None
          else Some rest in
        match body with
        | None => None
        | Some body =>
            match inflate body with
            | (out, BlockBad) => Some (mk_zstream out false)
            | (out, BlockDone (_, tail)) =>
                Some (mk_zstream out ((4 <=? len tail) && (be_value (take 4 tail) =? adler32 out)))
            end
        end
  | _ => None
  end.

(** [io.ReadAll(io.LimitReader(zr, n))], [None] for an error.  An error that
    comes with the last of exactly [n] bytes is reported. *)
Definition read_limited (z : zstream) (n : Z) : option bytes :=
  if n <? len (z_out z) then Some (take (Z.to_nat n) (z_out z))
  else if z_clean z then Some (z_out z) else None.

(** ** The writer *)
Class Zlib := {
  zlib_Write : bytes -> bytes;
  zlib_Write_read : forall data, zlib_read (zlib_Write data) = Some (mk_zstream data true);
}.


(** ** Stored blocks as a writer *)
Fixpoint stored_blocks (fuel : nat) (data : bytes) : bytes :=
  match fuel with
  | O => []
  | S f =>
      if len data <=? 65535
      then x01 :: le_bytes 2 (len data) ++ le_bytes 2 (65535 - len data) ++ data
      else x00 :: le_bytes 2 65535 ++ le_bytes 2 0 ++ take (Z.to_nat 65535) data
           ++ stored_blocks f (drop (Z.to_nat 65535) data)
  end.

Definition zlib_store (data : bytes) : bytes :=
  [x78; x9c] ++ stored_blocks (S (length data)) data ++ be_bytes 4 (adler32 data).

Lemma le2_value n a b : 0 <= n < 65536 -> le_bytes 2 n = [a; b] -> bz a + 256 * bz b = n.
Proof.
  intros Hn [= <- <-]. rewrite !bz_zb. Z.to_euclidean_division_equations. lia.
Qed.

(** One stored block of at most 65535 bytes. *)
Lemma stored_block_one out data tail : len data <= 65535 ->
  stored_block out (le_bytes 2 (len data) ++ le_bytes 2 (65535 - len data) ++ data ++ tail)
  = (rev_append data out, BlockDone ([], tail)).
Proof.
  intros Hl. pose proof (len_nonneg data) as H0.
  destruct (le_bytes 2 (len data)) as [|a [|b [|]]] eqn:E1; try done.
  destruct (le_bytes 2 (65535 - len data)) as [|c [|d [|]]] eqn:E2; try done.
  apply le2_value in E1; [|lia]. apply le2_value in E2; [|lia].
  cbn [app stored_block]. rewrite E1, E2, Z.eqb_refl.
  rewrite (proj2 (Z.leb_le _ _)) by len_lia. by rewrite take_len_app, drop_len_app.
Qed.

Lemma inflate_loop_stored fuel fuel' out data tail :
  (length data < fuel)%nat -> (length data < fuel')%nat ->
  inflate_loop fuel' out ([], stored_blocks fuel data ++ tail) = (rev_append data out, BlockDone ([], tail)).
Proof.
  revert fuel' out data. induction fuel as [|f IH]; intros fuel' out data Hf Hf'; [lia|].
  destruct fuel' as [|f']; [lia|]. cbn [stored_blocks]. destruct (len data <=? 65535) eqn:E; zbool.
  - cbn [app inflate_loop]. change (get_bits 1 ([], x01 :: ?r)) with
      (Some (1, ([false; false; false; false; false; false; false], r))). cbv beta iota.
    change (get_bits 2 ([false; false; false; false; false; false; false], ?r)) with
      (Some (0, ([false; false; false; false; false], r))). cbv beta iota.
    rewrite Z.eqb_refl. cbn [snd]. rewrite <- !app_assoc. rewrite stored_block_one by done.
    cbv beta iota. by rewrite Z.eqb_refl.
  - cbn [app inflate_loop]. change (get_bits 1 ([], x00 :: ?r)) with
      (Some (0, ([false; false; false; false; false; false; false], r))). cbv beta iota.
    change (get_bits 2 ([false; false; false; false; false; false; false], ?r)) with
      (Some (0, ([false; false; false; false; false], r))). cbv beta iota.
    rewrite Z.eqb_refl. cbn [snd]. rewrite <- !app_assoc.
    set (d := take (Z.to_nat 65535) data).
    assert (Hd : len d = 65535) by (apply len_take; lia).
    rewrite <- Hd at 1. replace 0 with (65535 - len d) at 1 by lia.
    rewrite stored_block_one by lia. cbv beta iota. change (0 =? 1) with false. cbv iota.
    assert (len data = 65535 + len (drop (Z.to_nat 65535) data)) as Hl by (rewrite len_drop; lia).
    unfold len in Hl. rewrite IH by lia. rewrite !rev_append_rev. rewrite app_assoc. f_equal. f_equal.
    rewrite <- rev_app_distr. f_equal. apply take_drop.
Qed.

Lemma adler32_range data : 0 <= adler32 data < 2 ^ 32.
Proof.
  unfold adler32.
  assert (H : forall l a b, 0 <= a < 65521 -> 0 <= b < 65521 ->
    let '(a, b) := fold_left (fun '(a, b) c =>
      let a' := (a + bz c) mod 65521 in (a', (b + a') mod 65521)) l (a, b) in
    0 <= a < 65521 /\ 0 <= b < 65521).
  { clear. induction l as [|c l IH]; intros a b Ha Hb; [done|]. cbn [fold_left].
    apply IH; apply Z.mod_pos_bound; lia. }
  specialize (H data 1 0 ltac:(lia) ltac:(lia)). destruct (fold_left _ _ _) as [a b].
  destruct H as [Ha Hb].
  assert (Z.lor (Z.shiftl b 16) a = b * 2 ^ 16 + a) as ->; [|lia].
  rewrite Z.shiftl_mul_pow2 by lia. rewrite <- (Z.add_lor_land (b * 2 ^ 16) a).
  assert (Z.land (b * 2 ^ 16) a = 0) as ->; [|by rewrite Z.add_0_r].
  apply Z.bits_inj'. intros n Hn. rewrite Z.land_spec, Z.bits_0.
  destruct (Z.lt_ge_cases n 16).
  - by rewrite Z.mul_pow2_bits_low.
  - rewrite (Z.bits_above_log2 a n); [apply andb_false_r|lia|].
    destruct (Z.eq_dec a 0) as [->|]; [simpl; lia|]. apply Z.log2_lt_pow2; [lia|].
    apply Z.lt_le_trans with (2 ^ 16); [lia|]. apply Z.pow_le_mono_r; lia.
Qed.

Lemma be_value_be_bytes4 v tail : 0 <= v < 2 ^ 32 -> be_value (take 4 (be_bytes 4 v ++ tail)) = v.
Proof.
  intros Hv. change 4%nat with (length (be_bytes 4 v)) at 1. rewrite take_app_length.
  unfold be_value, be_bytes. rewrite rev_involutive. cbn [le_bytes le_value]. rewrite !bz_zb.
  Z.to_euclidean_division_equations. lia.
Qed.

Lemma zlib_store_read data : zlib_read (zlib_store data) = Some (mk_zstream data true).
Proof.
  unfold zlib_store. cbn [app zlib_read]. change (negb _ || _ || _) with false. cbv iota.
  change (Z.testbit (bz x9c) 5) with false. cbv iota. unfold inflate.
  rewrite inflate_loop_stored; [|lia|].
  - rewrite !rev_append_rev, !app_nil_r, rev_involutive.
    rewrite <- (app_nil_r (be_bytes 4 _)). rewrite be_value_be_bytes4 by apply adler32_range.
    rewrite Z.eqb_refl. done.
  - rewrite length_app.
    assert (forall fuel d, (length d < fuel)%nat -> (length d <= length (stored_blocks fuel d))%nat) as H.
    { clear. induction fuel as [|f IH]; intros d Hf; [lia|]. cbn [stored_blocks].
      destruct (len d <=? 65535) eqn:E; zbool; cbn [length]; rewrite !length_app; [lia|].
      unfold len in E. assert (length (drop (Z.to_nat 65535) d) < f)%nat as Hd by (rewrite length_drop; lia).
      specialize (IH _ Hd). rewrite length_take. rewrite length_drop in IH. lia. }
    specialize (H (S (length data)) data ltac:(lia)). lia.
Qed.

#[export] Instance stored_Zlib : Zlib := {
  zlib_Write := zlib_store;
  zlib_Write_read := zlib_store_read;
}.

(** Streams zlib 1.3 wrote: a fixed-code block with a match, whose checksum is
    checked, and a dynamic-code block. *)
Example inflate_fixed_block :
  zlib_read [x78; x9c; xcb; x48; xcd; xc9; xc9; x57; xc8; x40; x27; x01; x68; x03; x08; xb1; x00] =
  Some (mk_zstream (bs "hello hello hello hello") true)
  /\ zlib_read [x78; x9c; xcb; x48; xcd; xc9; xc9; x57; xc8; x40; x27; x01; x68; x03; x08; xb2] =
  Some (mk_zstream (bs "hello hello hello hello") false).
Proof. split; vm_compute; reflexivity. Qed.

Example inflate_dynamic_block :
  zlib_read [x78; xda; x15; x8e; xc1; x01; xc0; x30; x08; x02; x17; xe2; xa1; xc6; x9a; xb8; xff; x62; x3d;
    x5e; x24; x0a; x78; xa1; x54; x6b; x95; xa3; xfa; x74; x46; xbd; x9a; xd6; x4b; x65; x84; xb2; xd0; x6e;
    xb6; x38; x16; x0b; x9e; xfa; xd0; xb7; x3a; xd5; xf8; x49; xe3; xeb; x46; x5f; xeb; xab; xd5; x77; x47;
    x83; x6f; xd0; xcb; xff; x32; x7f; xec; x17; xdf; x8e; x7b; x09; x66; xd0; x90; x49; x55; xba; x33; x8b;
    xf2; x3c; xbe; xd2; x3e; xf7; xf9; xee; x18; x60; x4c; x72; x21; xca; xd7; x66; x80; xb0; xc2; x14; x69;
    xe2; x8a; x55; x9d; x68; x55; x47; x42; x46; xa2; xc6; xaf; xeb; xd9; xf3; x76; xf1; x1d; x27; x0e; xfd;
    x86; x86; xfc; xd0; x77; x9a; xe6; x1f; xa1; x01; x31; x82] =
  Some (mk_zstream (concat (map (fun k => dec (k * k) ++ bs ",") (map Z.of_nat (seq 0 60)))) true).
Proof. vm_compute. reflexivity. Qed.
