(* ===== verification/Hash.v ===== *)
(** * Artifact names: src/internal/hash/hash.go, policy.go

    The hash functions and predicates, and the repository's hash policy: which
    algorithm names a new artifact, and the promotion of an "auto" repository
    by its first SHA3 artifact.  SHA3-256 is golang.org/x/crypto's, a parameter
    with its documented output size.  The database is the two things the SQL of
    this package reads: the hash-policy row of the config table and the names
    in the blob table. *)

From S2P Require Import Prelude GoStd GoText GoCrypto.

(** [sha3.Sum256]: 32 bytes. *)
Class Sha3 := {
  sha3_Sum256 : bytes -> bytes;
  sha3_Sum256_len : forall data, len (sha3_Sum256 data) = 32;
}.

(** ** hash.go.  A slice that may be nil is an [option]. *)
Definition SHA1 {E} (data : option bytes) : outcome E bytes :=
  match data with
  | None => Panic "hash.SHA1: data must not be nil"
  | Some data => Ok (hex_encode (sha1_Sum data))
  end.

Definition HashSize {E} (hashType : bytes) : outcome E Z :=
  match hashType with
  | [] => Panic "hash.HashSize: hashType must not be empty"
  | _ => Ok (if bytes_eqb hashType (bs "sha1") then 20 * 2
             else if bytes_eqb hashType (bs "sha3") then 64 else 0)
  end.

Definition is_hash_rune (c : Z) : bool := ((48 <=? c) && (c <=? 57)) || ((97 <=? c) && (c <=? 102)).

Definition IsValidHash {E} (h : bytes) : outcome E bool :=
  match h with
  | [] => Panic "hash.IsValidHash: h must not be empty"
  | _ => Ok (if negb (len h =? 40) && negb (len h =? 64) then false
             else forallb is_hash_rune (runes h))
  end.

Section sha3.
Context `{!Sha3}.

Definition SHA3 {E} (data : option bytes) : outcome E bytes :=
  match data with
  | None => Panic "hash.SHA3: data must not be nil"
  | Some data => Ok (hex_encode (sha3_Sum256 data))
  end.

Definition ContentHash {E} (content : option bytes) (referenceHash : bytes) : outcome E bytes :=
  match content, referenceHash with
  | None, _ => Panic "hash.ContentHash: content must not be nil"
  | _, [] => Panic "hash.ContentHash: referenceHash must not be empty"
  | _, _ => if len referenceHash >? 40 then SHA3 content else SHA1 content
  end.
End sha3.

(** Hex digits are ASCII, so the rune loop is a byte loop on them. *)
Lemma runes_hex h : Forall (fun c => is_hex_lower c = true) h -> runes h = map bz h.
Proof.
  unfold runes. induction 1 as [|c h Hc Hh IH]; [done|]. cbn [length runes_loop].
  assert ((bz c <? 0x80) = true) as E by (revert Hc; by_bytes c).
  assert (DecodeRune (c :: h) = (bz c, 1)) as -> by (cbn [DecodeRune]; by rewrite E).
  change (drop (Z.to_nat 1) (c :: h)) with h. cbn [map]. by rewrite IH.
Qed.

Lemma hex_valid {E} h : len h = 40 \/ len h = 64 -> Forall (fun c => is_hex_lower c = true) h ->
  @IsValidHash E h = Ok true.
Proof.
  intros Hl Hh. destruct h as [|c h]; [rewrite len_nil in Hl; lia|]. unfold IsValidHash.
  assert (negb (len (c :: h) =? 40) && negb (len (c :: h) =? 64) = false) as ->.
  { destruct Hl as [-> | ->]; done. }
  rewrite runes_hex by done. f_equal. rewrite forallb_forall. intros r Hr.
  apply in_map_iff in Hr as (b & <- & Hb). rewrite Forall_forall in Hh.
  apply list_elem_of_In in Hb. specialize (Hh b Hb). revert Hh. by_bytes b.
Qed.

Lemma SHA1_valid {E} data : exists h, @SHA1 E (Some data) = Ok h /\ @IsValidHash E h = Ok true /\ len h = 40.
Proof.
  exists (hex_encode (sha1_Sum data)).
  assert (len (hex_encode (sha1_Sum data)) = 40) by (rewrite hex_encode_len, sha1_Sum_len; done).
  split; [done|]. split; [|done]. apply hex_valid; [by left|apply hex_encode_lower].
Qed.

(** ** policy.go *)
Inductive Alg := AlgSHA1 | AlgSHA3.

Definition Other (a : Alg) : Alg := match a with AlgSHA3 => AlgSHA1 | AlgSHA1 => AlgSHA3 end.
Definition Alg_String (a : Alg) : bytes := match a with AlgSHA3 => bs "sha3" | AlgSHA1 => bs "sha1" end.

(** [Alg.Hash]: nil content is the empty artifact. *)
Definition Alg_Hash `{!Sha3} {E} (a : Alg) (content : option bytes) : outcome E bytes :=
  let content := match content with None => Some [] | _ => content end in
  match a with AlgSHA3 => SHA3 content | AlgSHA1 => SHA1 content end.

Record Naming := mk_Naming { New : Alg; ReuseLegacy : bool }.

Definition sha1Len : Z := 40.

(** db/schema.go *)
Definition HashPolicySHA1 : Z := 0.
Definition HashPolicyAuto : Z := 1.
Definition HashPolicySHA3 : Z := 2.
Definition HashPolicySHA3Only : Z := 3.
Definition HashPolicyShunSHA1 : Z := 4.

(** What the queries of this package see: the value of the hash-policy row, if
    there is one, and the names in the blob table. *)
Record repo := mk_repo { policy_row : option bytes; blob_uuids : list bytes }.

Inductive policy_error := UnrecognizedPolicy (raw : bytes) | UnknownPolicyName (name : bytes).

Definition hasSHA3Artifact (q : repo) : bool := existsb (fun u => len u >? sha1Len) (blob_uuids q).
Definition hasSHA1Artifact (q : repo) : bool := existsb (fun u => len u =? sha1Len) (blob_uuids q).

Definition policyFor (q : repo) : outcome policy_error (Z * bool) :=
  match policy_row q with
  | Some raw =>
      match ParseInt raw with
      | Some n => if (n <? HashPolicySHA1) || (n >? HashPolicyShunSHA1) then Err (UnrecognizedPolicy raw) else Ok (n, true)
      | None => Err (UnrecognizedPolicy raw)
      end
  | None => if hasSHA3Artifact q || negb (hasSHA1Artifact q) then Ok (HashPolicySHA3, false) else Ok (HashPolicyAuto, false)
  end.

Definition effectivePolicy (q : repo) : outcome policy_error Z :=
  let? (policy, _) := policyFor q in Ok policy.

Definition NamingFor (q : repo) : outcome policy_error Naming :=
  let? (policy, fromRow) := policyFor q in
  let reuse := policy <? HashPolicySHA3Only in
  Ok (mk_Naming (if policy >=? HashPolicySHA3 then AlgSHA3
                 else if (policy =? HashPolicyAuto) && (fromRow : bool) && hasSHA3Artifact q then AlgSHA3
                 else AlgSHA1) reuse).

Definition policyNames : list bytes := [bs "sha1"; bs "auto"; bs "sha3"; bs "sha3-only"; bs "shun-sha1"].

Fixpoint policy_index (ordinal : Z) (names : list bytes) (name : bytes) : outcome policy_error Z :=
  match names with
  | [] => Err (UnknownPolicyName name)
  | known :: names' => if bytes_eqb name known then Ok ordinal else policy_index (ordinal + 1) names' name
  end.
Definition PolicyByName (name : bytes) : outcome policy_error Z := policy_index 0 policyNames name.

Definition PromoteFor (q : repo) (uuid : bytes) : outcome policy_error repo :=
  if len uuid <=? sha1Len then Ok q
  else
    let? policy := effectivePolicy q in
    if negb (policy =? HashPolicyAuto) then Ok q
    else Ok (mk_repo (Some (dec HashPolicySHA3)) (blob_uuids q)).

(** An artifact enters: the promotion, then the blob row. *)
Definition store_artifact (q : repo) (uuid : bytes) : outcome policy_error repo :=
  let? q := PromoteFor q uuid in Ok (mk_repo (policy_row q) (uuid :: blob_uuids q)).

Lemma policyFor_range q p f : policyFor q = Ok (p, f) -> 0 <= p <= 4 /\ (f = false -> p = 1 \/ p = 2).
Proof.
  unfold policyFor. destruct (policy_row q) as [raw|].
  - destruct (ParseInt raw) as [n|]; [|done].
    destruct (_ || _) eqn:E; [done|]. intros [= <- <-]. rewrite Z.gtb_ltb in E. zbool.
    unfold HashPolicySHA1, HashPolicyShunSHA1 in *. split; [lia|done].
  - destruct (_ || _); intros [= <- <-]; unfold HashPolicySHA3, HashPolicyAuto; split; lia.
Qed.

(** once a SHA3-named artifact has entered a repository whose policy is
    auto, or which has no policy row, every new artifact is named with SHA3, and
    the promotion of the former is on record; under the other policies the
    entry changes nothing; an unrecognized row fails and is never overwritten. *)
Theorem sha3_promotion (q : repo) (uuid : bytes) (Hlen : 40 < len uuid) :
  match policyFor q with
  | Ok (policy, fromRow) =>
      exists q', store_artifact q uuid = Ok q' /\ blob_uuids q' = uuid :: blob_uuids q
        /\ (if policy =? HashPolicyAuto
            then policy_row q' = Some (dec HashPolicySHA3) else policy_row q' = policy_row q)
        /\ (forall q'', policy_row q'' = policy_row q' -> (forall u, In u (blob_uuids q') -> In u (blob_uuids q'')) ->
            NamingFor q'' = Ok (mk_Naming (if (policy =? HashPolicySHA1) then AlgSHA1 else AlgSHA3)
                                          (policy <? HashPolicySHA3Only)))
  | Err e => store_artifact q uuid = Err e
  | _ => False
  end.
Proof.
  pose proof (policyFor_range q) as Hr. unfold store_artifact, PromoteFor, effectivePolicy.
  rewrite (proj2 (Z.leb_gt _ _)) by (unfold sha1Len; lia).
  destruct (policyFor q) as [[p f]|e| |] eqn:Ep; cbn [obind]; [|done|unfold policyFor in Ep; by repeat case_match..].
  destruct (Hr _ _ eq_refl) as [Hp Hf]. clear Hr. destruct (p =? HashPolicyAuto) eqn:E1; cbn [negb obind].
  - zbool. subst p. eexists. split; [done|]. cbn [policy_row blob_uuids]. split_and!; [done..|].
    intros q'' Hrow Hin. unfold NamingFor, policyFor. by rewrite Hrow.
  - eexists. split; [done|]. cbn [policy_row blob_uuids]. split_and!; [done..|].
    intros q'' Hrow Hin.
    assert (hasSHA3Artifact q'' = true) as H3.
    { apply existsb_exists. exists uuid. split; [by apply Hin; left|]. unfold sha1Len. lia. }
    unfold NamingFor. assert (policyFor q'' = Ok (p, f)) as ->.
    { unfold policyFor in *. rewrite Hrow, H3. cbn [orb]. destruct (policy_row q); [done|].
      destruct (_ || _) in Ep; [done|]. injection Ep as <- <-. zbool. done. }
    cbn [obind]. unfold HashPolicySHA3, HashPolicySHA1, HashPolicyAuto in *. rewrite E1. cbn [andb].
    destruct (Z.eq_dec p 0) as [->|]; [done|]. zbool. rewrite (proj2 (Z.eqb_neq _ _)) by done.
    rewrite Z.geb_leb, (proj2 (Z.leb_le _ _)) by lia. done.
Qed.

Lemma sha3_promotion_witness :
  let q := mk_repo (Some (bs "1")) [replicate 40 x61] in
  exists q', store_artifact q (replicate 64 x62) = Ok q' /\ blob_uuids q' = replicate 64 x62 :: blob_uuids q
    /\ policy_row q' = Some (bs "2")
    /\ (forall q'', policy_row q'' = policy_row q' -> (forall u, In u (blob_uuids q') -> In u (blob_uuids q'')) ->
        NamingFor q'' = Ok (mk_Naming AlgSHA3 true)).
Proof. exact (sha3_promotion (mk_repo (Some (bs "1")) [replicate 40 x61]) (replicate 64 x62) eq_refl). Defined.
