(* ===== verification/XferCard.v ===== *)
(** * The sync cards and their writer: src/internal/xfer/card.go,
    card_tablesync.go, encode.go

    A [Card] constructor per card struct, with the struct's fields in order.
    An encoder returns what it appends to the buffer; a nil card or buffer
    cannot be expressed. *)

From S2P Require Import Prelude GoStd GoText GoCrypto Escape Zlib.

(** ** Errors.  [EOF] and [ErrUnexpectedEOF] are package io's; the others keep
    the format and its arguments. *)
Inductive xarg := XStr (s : bytes) | XInt (v : Z).
Inductive xfer_error :=
| EOF
| ErrUnexpectedEOF
| ErrSyntax (s : bytes)
| ErrZlib
| Errorx (format : string) (args : list xarg)
| Wrapx (format : string) (e : xfer_error).
Arguments Errorx format%_string args.
Arguments Wrapx format%_string e.
Abbreviation xresult := (outcome xfer_error).

(** ** Cards *)
Inductive Card :=
| FileCard (UUID DeltaSrc Content : bytes)
| CFileCard (UUID DeltaSrc : bytes) (USize : Z) (Content : bytes) (StoredBlob : option bytes)
| IGotCard (UUID : bytes) (IsPrivate : bool)
| GimmeCard (UUID : bytes)
| LoginCard (User Nonce Signature tailSHA1 : bytes)
| CommentCard (Text : bytes)
| PushCard (ServerCode ProjectCode : bytes)
| PullCard (ServerCode ProjectCode : bytes)
| CookieCard (Value : bytes)
| CloneCard (Version SeqNo : Z) (SeqNoIsDecimal : bool)
| CloneSeqNoCard (SeqNo : Z) (Raw : bytes)
| ConfigCard (Name Content : bytes)
| ReqConfigCard (Name : bytes)
| PrivateCard
| UVFileCard (Name : bytes) (MTime : Z) (Hash : bytes) (Size Flags : Z) (Content : bytes)
| UVGimmeCard (Name : bytes)
| UVIGotCard (Name : bytes) (MTime : Z) (Hash : bytes) (Size : Z)
| PragmaCard (Name : bytes) (Values : list bytes)
| ErrorCard (Message Raw : bytes)
| MessageCard (Message Raw : bytes)
| UnknownCard (Command : bytes) (Args : list bytes) (Raw : bytes)
| BadCommandCard (Line : bytes)
| BadFileCard (Message : bytes)
| SchemaCard (Table : bytes) (Version : Z) (Hash : bytes) (MTime : Z) (Content : bytes)
| XIGotCard (Table PKHash : bytes) (MTime : Z)
| XGimmeCard (Table PKHash : bytes)
| XRowCard (Table PKHash : bytes) (MTime : Z) (Content : bytes)
| XDeleteCard (Table PKHash : bytes) (MTime : Z) (PKData : bytes).

Inductive CardType :=
| CardFile | CardCFile | CardIGot | CardGimme | CardLogin | CardPush | CardPull | CardCookie
| CardClone | CardCloneSeqNo | CardConfig | CardReqConfig | CardPrivate | CardUVFile | CardUVGimme
| CardUVIGot | CardPragma | CardError | CardMessage | CardUnknown | CardSchema | CardXIGot
| CardXGimme | CardXRow | CardXDelete | CardComment | CardBadCommand | CardBadFile.

(** The [Type] method of each card. *)
Definition Type_of (c : Card) : CardType :=
  match c with
  | FileCard _ _ _ => CardFile
  | CFileCard _ _ _ _ _ => CardCFile
  | IGotCard _ _ => CardIGot
  | GimmeCard _ => CardGimme
  | LoginCard _ _ _ _ => CardLogin
  | CommentCard _ => CardComment
  | PushCard _ _ => CardPush
  | PullCard _ _ => CardPull
  | CookieCard _ => CardCookie
  | CloneCard _ _ _ => CardClone
  | CloneSeqNoCard _ _ => CardCloneSeqNo
  | ConfigCard _ _ => CardConfig
  | ReqConfigCard _ => CardReqConfig
  | PrivateCard => CardPrivate
  | UVFileCard _ _ _ _ _ _ => CardUVFile
  | UVGimmeCard _ => CardUVGimme
  | UVIGotCard _ _ _ _ => CardUVIGot
  | PragmaCard _ _ => CardPragma
  | ErrorCard _ _ => CardError
  | MessageCard _ _ => CardMessage
  | UnknownCard _ _ _ => CardUnknown
  | BadCommandCard _ => CardBadCommand
  | BadFileCard _ => CardBadFile
  | SchemaCard _ _ _ _ _ => CardSchema
  | XIGotCard _ _ _ => CardXIGot
  | XGimmeCard _ _ => CardXGimme
  | XRowCard _ _ _ _ => CardXRow
  | XDeleteCard _ _ _ _ => CardXDelete
  end.

(** [LoginCard.NonceCoversTail], of its nonce and tail hash. *)
Definition NonceCoversTail (Nonce tailSHA1 : bytes) : bool :=
  negb (bytes_eqb tailSHA1 []) && bytes_eqb Nonce tailSHA1.

Definition UVFlagDeletion : Z := 0x0001.
Definition UVFlagContentOmitted : Z := 0x0004.

(** decode.go's test of the flags, which the writer shares. *)
Definition uvFileOmitsContent (flags : Z) : bool :=
  negb (Z.land flags 0x0001 =? 0) || negb (Z.land flags 0x0004 =? 0).

(** ** encode.go *)
Definition NL : bytes := [x0a].
Definition SP : bytes := [x20].

Definition encodeIGot (UUID : bytes) (IsPrivate : bool) : xresult bytes :=
  Ok (bs "igot " ++ UUID ++ (if IsPrivate then bs " 1" else []) ++ NL).

Definition encodeGimme (UUID : bytes) : xresult bytes := Ok (bs "gimme " ++ UUID ++ NL).

Definition encodePush (ServerCode ProjectCode : bytes) : xresult bytes :=
  if bytes_eqb ProjectCode [] then Panic "xfer: encodePush: ProjectCode must not be empty"
  else if bytes_eqb ServerCode [] then Panic "xfer: encodePush: ServerCode must not be empty"
  else Ok (bs "push " ++ ServerCode ++ SP ++ ProjectCode ++ NL).

Definition encodePull (ServerCode ProjectCode : bytes) : xresult bytes :=
  if bytes_eqb ProjectCode [] then Panic "xfer: encodePull: ProjectCode must not be empty"
  else if bytes_eqb ServerCode [] then Panic "xfer: encodePull: ServerCode must not be empty"
  else Ok (bs "pull " ++ ServerCode ++ SP ++ ProjectCode ++ NL).

Definition encodeCookie (Value : bytes) : xresult bytes := Ok (bs "cookie " ++ Value ++ NL).
Definition encodeReqConfig (Name : bytes) : xresult bytes := Ok (bs "reqconfig " ++ Name ++ NL).
Definition encodePrivate : xresult bytes := Ok (bs "private" ++ NL).

Definition encodeClone (Version SeqNo : Z) (SeqNoIsDecimal : bool) : xresult bytes :=
  if negb SeqNoIsDecimal && (Version =? 0) && (SeqNo =? 0) then Ok (bs "clone" ++ NL)
  else Ok (bs "clone " ++ dec Version ++ SP ++ dec SeqNo ++ NL).

Definition encodeCloneSeqNo (SeqNo : Z) : xresult bytes := Ok (bs "clone_seqno " ++ dec SeqNo ++ NL).
Definition encodeUVGimme (Name : bytes) : xresult bytes := Ok (bs "uvgimme " ++ FossilEncode Name ++ NL).

Definition encodePragma (Name : bytes) (Values : list bytes) : xresult bytes :=
  Ok (bs "pragma " ++ Name ++ (Values ≫= (fun v => SP ++ v)) ++ NL).

Definition encodeLogin (User Nonce Signature : bytes) : xresult bytes :=
  Ok (bs "login " ++ FossilEncode User ++ SP ++ Nonce ++ SP ++ Signature ++ NL).

Definition encodeComment (Text : bytes) : xresult bytes :=
  if bool_decide (x0a ∈ Text) || bool_decide (x0d ∈ Text)
  then Panic "xfer: encodeComment: Text must not contain a newline"
  else Ok (bs "# " ++ Text ++ NL).

Definition encodeError (Message : bytes) : xresult bytes := Ok (bs "error " ++ FossilEncode Message ++ NL).
Definition encodeMessage (Message : bytes) : xresult bytes := Ok (bs "message " ++ FossilEncode Message ++ NL).

Definition encodeUVIGot (Name : bytes) (MTime : Z) (Hash : bytes) (Size : Z) : xresult bytes :=
  Ok (bs "uvigot " ++ FossilEncode Name ++ SP ++ dec MTime ++ SP ++ Hash ++ SP ++ dec Size ++ NL).

Definition encodeUnknown (Command : bytes) (Args : list bytes) : xresult bytes :=
  Ok (Command ++ (Args ≫= (fun a => SP ++ a)) ++ NL).

Definition encodeFile (UUID DeltaSrc Content : bytes) : xresult bytes :=
  Ok (bs "file " ++ UUID ++ (if bytes_eqb DeltaSrc [] then [] else SP ++ DeltaSrc)
      ++ SP ++ dec (len Content) ++ NL ++ Content).

Definition encodeConfig (Name Content : bytes) : xresult bytes :=
  Ok (bs "config " ++ Name ++ SP ++ dec (len Content) ++ NL ++ Content ++ NL).

Definition encodeUVFile (Name : bytes) (MTime : Z) (Hash : bytes) (Size Flags : Z) (Content : bytes) : xresult bytes :=
  Ok (bs "uvfile " ++ FossilEncode Name ++ SP ++ dec MTime ++ SP ++ Hash ++ SP ++ dec Size ++ SP ++ dec Flags ++ NL
      ++ (if negb (uvFileOmitsContent Flags) then Content else [])).

Definition encodeSchema (Table : bytes) (Version : Z) (Hash : bytes) (MTime : Z) (Content : bytes) : xresult bytes :=
  Ok (bs "schema " ++ Table ++ SP ++ dec Version ++ SP ++ Hash ++ SP ++ dec MTime ++ SP ++ dec (len Content) ++ NL
      ++ Content ++ NL).

Definition encodeXIGot (Table PKHash : bytes) (MTime : Z) : xresult bytes :=
  if bytes_eqb Table [] then Panic "encodeXIGot: Table must not be empty"
  else if bytes_eqb PKHash [] then Panic "encodeXIGot: PKHash must not be empty"
  else Ok (bs "xigot " ++ Table ++ SP ++ PKHash ++ SP ++ dec MTime ++ NL).

Definition encodeXGimme (Table PKHash : bytes) : xresult bytes :=
  if bytes_eqb Table [] then Panic "encodeXGimme: Table must not be empty"
  else if bytes_eqb PKHash [] then Panic "encodeXGimme: PKHash must not be empty"
  else Ok (bs "xgimme " ++ Table ++ SP ++ PKHash ++ NL).

Definition encodeXRow (Table PKHash : bytes) (MTime : Z) (Content : bytes) : xresult bytes :=
  if bytes_eqb Table [] then Panic "encodeXRow: Table must not be empty"
  else if bytes_eqb PKHash [] then Panic "encodeXRow: PKHash must not be empty"
  else Ok (bs "xrow " ++ Table ++ SP ++ PKHash ++ SP ++ dec MTime ++ SP ++ dec (len Content) ++ NL ++ Content ++ NL).

Definition encodeXDelete (Table PKHash : bytes) (MTime : Z) (PKData : bytes) : xresult bytes :=
  if bytes_eqb Table [] then Panic "encodeXDelete: Table must not be empty"
  else if bytes_eqb PKHash [] then Panic "encodeXDelete: PKHash must not be empty"
  else Ok (bs "xdelete " ++ Table ++ SP ++ PKHash ++ SP ++ dec MTime ++ SP ++ dec (len PKData) ++ NL ++ PKData ++ NL).

Section zlib.
Context `{!Zlib}.

(** Fossil's on-disk blob format: four big-endian bytes of length, then zlib. *)
Definition blob_format (content : bytes) : bytes :=
  be_bytes 4 (u32 (len content)) ++ zlib_Write content.

Definition cfilePayload (Content : bytes) (StoredBlob : option bytes) : bytes :=
  match StoredBlob with
  | Some b => b
  | None => blob_format Content
  end.

Definition encodeCFile (UUID DeltaSrc : bytes) (USize : Z) (Content : bytes) (StoredBlob : option bytes) : xresult bytes :=
  let payload := cfilePayload Content StoredBlob in
  let usize := if USize =? 0 then len Content else USize in
  let? pad := or_else (Ok (len payload =? 0))
                (let? b := byte_is payload (len payload - 1) x0a in Ok (negb b)) in
  Ok (bs "cfile " ++ UUID ++ (if bytes_eqb DeltaSrc [] then [] else SP ++ DeltaSrc)
      ++ SP ++ dec usize ++ SP ++ dec (len payload) ++ NL ++ payload
      ++ (if pad : bool then NL else [])).

Definition EncodeCard (c : Card) : xresult bytes :=
  match c with
  | IGotCard u p => encodeIGot u p
  | GimmeCard u => encodeGimme u
  | PushCard s p => encodePush s p
  | PullCard s p => encodePull s p
  | CookieCard v => encodeCookie v
  | ReqConfigCard n => encodeReqConfig n
  | PrivateCard => encodePrivate
  | CloneCard v s d => encodeClone v s d
  | CloneSeqNoCard s _ => encodeCloneSeqNo s
  | UVGimmeCard n => encodeUVGimme n
  | PragmaCard n vs => encodePragma n vs
  | LoginCard u n s _ => encodeLogin u n s
  | CommentCard t => encodeComment t
  | ErrorCard m _ => encodeError m
  | MessageCard m _ => encodeMessage m
  | UVIGotCard n t h s => encodeUVIGot n t h s
  | FileCard u d c => encodeFile u d c
  | CFileCard u d s c b => encodeCFile u d s c b
  | ConfigCard n c => encodeConfig n c
  | UVFileCard n t h s f c => encodeUVFile n t h s f c
  | SchemaCard t v h m c => encodeSchema t v h m c
  | XIGotCard t k m => encodeXIGot t k m
  | XGimmeCard t k => encodeXGimme t k
  | XRowCard t k m c => encodeXRow t k m c
  | XDeleteCard t k m c => encodeXDelete t k m c
  | UnknownCard c args _ => encodeUnknown c args
  | BadCommandCard _ | BadFileCard _ => Err (Errorx "xfer: cannot encode %T" [])
  end.
End zlib.
