(* ===== verification/XferDecode.v ===== *)
(** * The sync card reader: src/internal/xfer/decode.go

    A [bufio.Reader] over a byte slice is the bytes still to be read, threaded
    through the parsers together with the inflation budget.  Such a reader
    fails only at the end of its input. *)

From S2P Require Import Prelude GoStd GoText GoCrypto Escape Pathname Zlib Hash XferCard.

Definition maxPayloadSize : Z := 2 ^ 31 - 1.
Definition payloadChunk : Z := Z.shiftl 64 10.
(** message.go *)
Definition MaxCFileInflateBytes : Z := Z.shiftl 1 30.

(** What [slices.Grow(s, n)] makes of the capacity: room for [n] more. *)
Class GoGrow := {
  grow_cap : Z -> Z -> Z;
  grow_cap_room : forall len n, len + n <= grow_cap len n;
}.
#[export] Instance exact_GoGrow : GoGrow := {
  grow_cap len n := len + n;
  grow_cap_room len n := Z.le_refl _;
}.

(** Go's [if err != nil] after a call: the handler sees the error. *)
Definition on_err {A B} (m : xresult A) (h : xfer_error -> xresult B) (k : A -> xresult B) : xresult B :=
  match m with
  | Ok a => k a
  | Err e => h e
  | Panic s => Panic s
  | Diverge => Diverge
  end.

(** [strconv.ParseInt(s, 10, 64)], [strconv.Atoi]: the value or the error. *)
Definition parse_int (s : bytes) : xresult Z :=
  match ParseInt s with Some n => Ok n | None => Err (ErrSyntax s) end.

(** ** Lines and tokens *)

(** [r.ReadString('\n')]: the line with its LF, what follows it, and whether
    the input ended first. *)
Fixpoint ReadString (r : bytes) : bytes * bytes * bool :=
  match r with
  | [] => ([], [], true)
  | c :: r1 =>
      if Byte.eqb c x0a then ([c], r1, false)
      else let '(line, rest, eof) := ReadString r1 in (c :: line, rest, eof)
  end.

Definition is_line_end (c : byte) : bool := Byte.eqb c x0a || Byte.eqb c x0d.

(** [strings.TrimRight(s, "\n\r")]. *)
Fixpoint trim_right (s : bytes) : bytes :=
  match s with
  | [] => []
  | c :: s1 => match trim_right s1 with
               | [] => if is_line_end c then [] else [c]
               | t => c :: t
               end
  end.

Definition cardTokenWindow : nat := 6.
Definition isCardSpace (c : byte) : bool := Byte.eqb c x20 || ((9 <=? bz c) && (bz c <=? 13)).

Fixpoint skip_card_space (s : bytes) : bytes :=
  match s with
  | c :: s1 => if isCardSpace c then skip_card_space s1 else s
  | [] => []
  end.

Fixpoint span_card_token (s : bytes) : bytes * bytes :=
  match s with
  | c :: s1 => if isCardSpace c then ([], s)
               else let '(t, rest) := span_card_token s1 in (c :: t, rest)
  | [] => ([], [])
  end.

Fixpoint tokenize_loop (window : nat) (line : bytes) : list bytes :=
  match window with
  | O => []
  | S k => match skip_card_space line with
           | [] => []
           | s => let '(t, rest) := span_card_token s in t :: tokenize_loop k rest
           end
  end.

Definition tokenizeCard (line : bytes) : list bytes := tokenize_loop cardTokenWindow line.

(** ** Sizes and payloads *)
Definition isDecimal (s : bytes) : bool := match s with [] => false | _ => forallb is_digit s end.

Definition parseSize (tok : bytes) : xresult Z :=
  if negb (isDecimal tok) then Err (Errorx "%q is not a decimal" [XStr tok])
  else match ParseInt tok with
       | Some n => if n >? maxPayloadSize then Err (Errorx "%q exceeds %d" [XStr tok; XInt maxPayloadSize]) else Ok n
       | None => Err (Errorx "%q exceeds %d" [XStr tok; XInt maxPayloadSize])
       end.

(** [errors.Is(err, io.ErrUnexpectedEOF)]. *)
Fixpoint cutShort (e : xfer_error) : bool :=
  match e with
  | ErrUnexpectedEOF => true
  | Wrapx _ e => cutShort e
  | _ => false
  end.

Section reader.
Context `{!GoGrow}.

(** The loop of [readPayload], with the buffer and its capacity.  An iteration
    reads at least a byte or fails, so the bytes left are fuel enough. *)
Fixpoint payload_loop (fuel : nat) (r buf : bytes) (cap size : Z) : xresult (bytes * bytes) :=
  if size <=? len buf then Ok (buf, r)
  else match fuel with
  | O => Diverge
  | S f =>
      let? cap :=
        if len buf =? cap then
          let n := Z.min size (2 * cap) - len buf in
          if n <? 0 then Panic "cannot be negative" else Ok (grow_cap (len buf) n)
        else Ok cap in
      let want := Z.min size cap - len buf in
      if want <? 0 then Panic "slice bounds out of range" else
      let got := take (Z.to_nat want) r in
      if len got <? want then Err (Wrapx "read payload: %w" ErrUnexpectedEOF)
      else payload_loop f (drop (Z.to_nat want) r) (buf ++ got) cap size
  end.

Definition readPayload (r : bytes) (size : Z) : xresult (bytes * bytes) :=
  if (size <? 0) || (size >? maxPayloadSize) then Panic "xfer.readPayload: size out of range"
  else payload_loop (S (length r)) r [] (Z.min size payloadChunk) size.

Definition readPayloadWithTrailingNewline (r : bytes) (size : Z) : xresult (bytes * bytes) :=
  let? (buf, r) := readPayload r size in
  match r with
  | b :: r' => Ok (buf, if Byte.eqb b x0a then r' else r)
  | [] => Ok (buf, [])
  end.

(** ** Cards without payload *)
Definition parseClone (args : list bytes) : option Card :=
  match args with
  | [] => Some (CloneCard 0 0 false)
  | [a; b] =>
      match ParseInt a, ParseInt b with
      | Some v, Some s => Some (CloneCard v s (isDecimal b))
      | _, _ => Some (UnknownCard (bs "clone") args [])
      end
  | _ => None
  end.

(** The value [strconv.Atoi] returns beside a range error, for a token of
    digits: the largest int. *)
Definition Atoi_value (digits : bytes) : Z :=
  match ParseInt digits with Some n => n | None => MaxInt64 end.

Definition parseCloneSeqNo (args : list bytes) : option Card :=
  match args with
  | [a] => if negb (isDecimal a) then Some (UnknownCard (bs "clone_seqno") args [])
           else Some (CloneSeqNoCard (Atoi_value a) [])
  | _ => None
  end.

Definition parsePragma (args : list bytes) : option Card :=
  match args with
  | [] => None
  | n :: vs => Some (PragmaCard n vs)
  end.

Definition parseUVIGot (args : list bytes) : option Card :=
  match args with
  | [n; t; h; s] =>
      match ParseInt t, ParseInt s with
      | Some mtime, Some size => Some (UVIGotCard (FossilDecode n) mtime h size)
      | _, _ => None
      end
  | _ => None
  end.

Definition parseXIGot (args : list bytes) : option Card :=
  match args with
  | [t; k; m] => match ParseInt m with Some mtime => Some (XIGotCard t k mtime) | None => None end
  | _ => None
  end.

Definition parseXGimme (args : list bytes) : option Card :=
  match args with [t; k] => Some (XGimmeCard t k) | _ => None end.

Definition is_cmd (cmd : bytes) (name : string) : bool := bytes_eqb cmd (bs name).
Arguments is_cmd cmd name%_string.

Definition parseControlCard (cmd : bytes) (args : list bytes) : option Card :=
  if is_cmd cmd "igot" then
    match args with
    | [] => None
    | u :: rest => Some (IGotCard u (match rest with a :: _ => bytes_eqb a (bs "1") | [] => false end))
    end
  else if is_cmd cmd "gimme" then match args with [u] => Some (GimmeCard u) | _ => None end
  else if is_cmd cmd "push" then match args with [s; p] => Some (PushCard s p) | _ => None end
  else if is_cmd cmd "pull" then match args with [s; p] => Some (PullCard s p) | _ => None end
  else if is_cmd cmd "cookie" then match args with [v] => Some (CookieCard v) | _ => None end
  else if is_cmd cmd "reqconfig" then match args with [n] => Some (ReqConfigCard n) | _ => None end
  else if is_cmd cmd "private" then Some PrivateCard
  else if is_cmd cmd "clone" then parseClone args
  else if is_cmd cmd "clone_seqno" then parseCloneSeqNo args
  else if is_cmd cmd "uvgimme" then match args with [n] => Some (UVGimmeCard (FossilDecode n)) | _ => None end
  else if is_cmd cmd "pragma" then parsePragma args
  else if is_cmd cmd "login" then
    match args with [u; n; s] => Some (LoginCard (FossilDecode u) n s []) | _ => None end
  else if is_cmd cmd "error" then match args with [m] => Some (ErrorCard (FossilDecode m) []) | _ => None end
  else if is_cmd cmd "message" then match args with [m] => Some (MessageCard (FossilDecode m) []) | _ => None end
  else if is_cmd cmd "uvigot" then parseUVIGot args
  else if is_cmd cmd "xigot" then parseXIGot args
  else if is_cmd cmd "xgimme" then parseXGimme args
  else None.

(** A line ends in its first LF, so the suffix test is on the last byte. *)
Definition keepRawLine (c : Card) (rawLine : bytes) : Card :=
  let rawLine := if at_is rawLine (len rawLine - 1) x0a then rawLine else rawLine ++ NL in
  match c with
  | CloneSeqNoCard s _ => CloneSeqNoCard s rawLine
  | ErrorCard m _ => ErrorCard m rawLine
  | MessageCard m _ => MessageCard m rawLine
  | UnknownCard c a _ => UnknownCard c a rawLine
  | _ => c
  end.

(** ** Payload cards *)
Definition malformed_file : Card := BadFileCard (bs "malformed file line").
Definition malformed_cfile : Card := BadFileCard (bs "malformed cfile line").
Definition malformed_uvfile : Card := BadFileCard (bs "malformed uvfile line").

(** A payload the body ends inside has read everything. *)
Definition payload_or (bad : Card) (label : string) (m : xresult (bytes * bytes))
    (k : bytes -> bytes -> xresult (Card * bytes * Z)) (budget : Z) : xresult (Card * bytes * Z) :=
  on_err m (fun e => if cutShort e then Ok (bad, [], budget) else Err (Wrapx label e))
    (fun '(content, r) => k content r).
Arguments payload_or bad label%_string m k budget.

Definition parseFile (r : bytes) (args : list bytes) (budget : Z) : xresult (Card * bytes * Z) :=
  let go uuid deltaSrc sizeStr :=
    on_err (parseSize sizeStr) (fun _ => Ok (malformed_file, r, budget)) (fun size =>
    payload_or malformed_file "xfer: file payload: %w" (readPayload r size)
      (fun content r => Ok (FileCard uuid deltaSrc content, r, budget)) budget) in
  match args with
  | [u; s] => go u [] s
  | [u; d; s] => go u d s
  | _ => Ok (malformed_file, r, budget)
  end.

Definition cfileInflateLimit (usize : Z) (isDelta : bool) : xresult Z :=
  if (usize <? 0) || (usize >? maxPayloadSize) then Panic "xfer.cfileInflateLimit: usize out of range"
  else if negb isDelta then Ok usize
  else Ok (i64 (i64 (usize + Z.quot usize 2) + 64)).

Inductive inflated := Inflated (out : bytes) | NotInflated (overLimit : bool).

Definition inflateBounded (data : bytes) (limit : Z) : inflated :=
  match zlib_read data with
  | None => NotInflated false
  | Some zr =>
      match read_limited zr (limit + 1) with
      | None => NotInflated false
      | Some out => if len out >? limit then NotInflated true else Inflated out
      end
  end.

(** The decompressed bytes and the stored blob. *)
Definition decompressCFile (data : bytes) (limit : Z) : xresult (bytes * bytes) :=
  match inflateBounded data limit with
  | Inflated out => Ok (out, be_bytes 4 (u32 (len out)) ++ data)
  | NotInflated overLimit =>
      let? second :=
        if len data >? 4 then
          let? prefix := slice_of data 0 4 in
          let? stream := slice_of data 4 (len data) in
          Ok (inflateBounded stream (Z.min limit (be_value prefix)))
        else Ok (NotInflated false) in
      match second with
      | Inflated out => Ok (out, data)
      | NotInflated over =>
          if overLimit || over
          then Err (Errorx "xfer: cfile payload inflates past %d bytes, its declared size or the message budget" [XInt limit])
          else Err (Errorx "xfer: cfile zlib init: could not decompress payload (%d bytes)" [XInt (len data)])
      end
  end.

Definition parseCFile (r : bytes) (args : list bytes) (budget : Z) : xresult (Card * bytes * Z) :=
  let go uuid deltaSrc usizeStr csizeStr :=
    on_err (parseSize usizeStr) (fun _ => Ok (malformed_cfile, r, budget)) (fun usize =>
    on_err (parseSize csizeStr) (fun _ => Ok (malformed_cfile, r, budget)) (fun csize =>
    payload_or malformed_cfile "xfer: cfile payload: %w" (readPayload r csize) (fun compressed r =>
      let? l := cfileInflateLimit usize (negb (bytes_eqb deltaSrc [])) in
      let? (decompressed, storedBlob) := decompressCFile compressed (Z.min l budget) in
      Ok (CFileCard uuid deltaSrc usize decompressed (Some storedBlob), r, budget - len decompressed)) budget)) in
  match args with
  | [u; us; cs] => go u [] us cs
  | [u; d; us; cs] => go u d us cs
  | _ => Ok (malformed_cfile, r, budget)
  end.

Definition parseConfig (r rawLine : bytes) (args : list bytes) (budget : Z) : xresult (Card * bytes * Z) :=
  match args with
  | [name; s] =>
      on_err (parseSize s) (fun _ => Ok (BadCommandCard rawLine, r, budget)) (fun size =>
      let? (content, r) := wrap_err (Wrapx "xfer: config payload: %w") (readPayload r size) in
      Ok (ConfigCard name content, drop 1 r, budget))
  | _ => Ok (BadCommandCard rawLine, r, budget)
  end.

Definition parseUVFile (r : bytes) (args : list bytes) (budget : Z) : xresult (Card * bytes * Z) :=
  let bad := Ok (malformed_uvfile, r, budget) in
  match args with
  | [n; t; h; s; f] =>
      let name := FossilDecode n in
      let? malformed :=
        if negb (StrictPathname name) then Ok true
        else if bytes_eqb h (bs "-") then Ok false
        else let? ok := IsValidHash h in Ok (negb ok) in
      if malformed : bool then bad
      else match ParseInt t with
      | None => bad
      | Some mtime =>
          if mtime <? 0 then bad
          else
            on_err (parseSize s) (fun _ => bad) (fun size =>
            on_err (parseSize f) (fun _ => bad) (fun flags =>
            if negb (uvFileOmitsContent flags)
            then payload_or malformed_uvfile "xfer: uvfile payload: %w" (readPayload r size)
                   (fun content r => Ok (UVFileCard name mtime h size flags content, r, budget)) budget
            else Ok (UVFileCard name mtime h size flags [], r, budget)))
      end
  | _ => bad
  end.

Definition maxSchemaSize : Z := Z.shiftl 64 20.
Definition maxXRowSize : Z := Z.shiftl 64 20.
Definition maxXDeleteSize : Z := Z.shiftl 64 20.

Definition parseSchema (r : bytes) (args : list bytes) (budget : Z) : xresult (Card * bytes * Z) :=
  match args with
  | [table; v; h; m; s] =>
      let? version := wrap_err (Wrapx "xfer: schema version: %w") (parse_int v) in
      let? mtime := wrap_err (Wrapx "xfer: schema mtime: %w") (parse_int m) in
      let? size := wrap_err (Wrapx "xfer: schema size: %w") (parseSize s) in
      if size >? maxSchemaSize then Err (Errorx "xfer: schema size out of bounds: %d" [XInt size])
      else
        let? (content, r) := wrap_err (Wrapx "xfer: schema payload: %w") (readPayloadWithTrailingNewline r size) in
        Ok (SchemaCard table version h mtime content, r, budget)
  | _ => Err (Errorx "xfer: schema requires 5 args, got %d" [XInt (len args)])
  end.

Definition parseXDelete (r : bytes) (args : list bytes) (budget : Z) : xresult (Card * bytes * Z) :=
  match args with
  | [table; k; m; s] =>
      let? mtime := wrap_err (Wrapx "xfer: xdelete mtime: %w") (parse_int m) in
      let? size := wrap_err (Wrapx "xfer: xdelete size: %w") (parseSize s) in
      if size >? maxXDeleteSize then Err (Errorx "xfer: xdelete size out of range: %d" [XInt size])
      else
        let? (pkData, r) := wrap_err (Wrapx "xfer: xdelete payload: %w") (readPayloadWithTrailingNewline r size) in
        Ok (XDeleteCard table k mtime pkData, r, budget)
  | _ => Err (Errorx "xfer: xdelete requires 4 args, got %d" [XInt (len args)])
  end.

Definition parseXRow (r : bytes) (args : list bytes) (budget : Z) : xresult (Card * bytes * Z) :=
  match args with
  | [table; k; m; s] =>
      let? mtime := wrap_err (Wrapx "xfer: xrow mtime: %w") (parse_int m) in
      let? size := wrap_err (Wrapx "xfer: xrow size: %w") (parseSize s) in
      if size >? maxXRowSize then Err (Errorx "xfer: xrow size out of bounds: %d" [XInt size])
      else
        let? (content, r) := wrap_err (Wrapx "xfer: xrow payload: %w") (readPayloadWithTrailingNewline r size) in
        Ok (XRowCard table k mtime content, r, budget)
  | _ => Err (Errorx "xfer: xrow requires 4 args, got %d" [XInt (len args)])
  end.

(** ** The dispatch and the line loop *)
Definition parseLine (r rawLine line : bytes) (budget : Z) : xresult (Card * bytes * Z) :=
  match tokenizeCard line with
  | [] => Ok (BadCommandCard rawLine, r, budget)
  | cmd :: args =>
      if is_cmd cmd "file" then parseFile r args budget
      else if is_cmd cmd "cfile" then parseCFile r args budget
      else if is_cmd cmd "uvfile" then parseUVFile r args budget
      else if is_cmd cmd "config" then parseConfig r rawLine args budget
      else if is_cmd cmd "schema" then parseSchema r args budget
      else if is_cmd cmd "xrow" then parseXRow r args budget
      else if is_cmd cmd "xdelete" then parseXDelete r args budget
      else match parseControlCard cmd args with
           | Some c => Ok (keepRawLine c rawLine, r, budget)
           | None => Ok (BadCommandCard rawLine, r, budget)
           end
  end.

(** The loop of [decodeCard] reads a line an iteration, so one more than the
    bytes left is fuel enough. *)
Fixpoint decode_loop (fuel : nat) (r : bytes) (budget : Z) : xresult (Card * bytes * Z) :=
  match fuel with
  | O => Diverge
  | S f =>
      let '(rawLine, r1, eof) := ReadString r in
      let line := trim_right rawLine in
      if eof && bytes_eqb line [] then Err EOF
      else if bytes_eqb line [] || HasPrefix line (bs "#")
      then if eof : bool then Err EOF else decode_loop f r1 budget
      else parseLine r1 rawLine line budget
  end.

Definition decodeCard (r : bytes) (budget : Z) : xresult (Card * bytes * Z) :=
  if budget <? 0 then Panic "xfer.decodeCard: budget must be a non-negative count"
  else decode_loop (S (length r)) r budget.

Definition DecodeCard (r : bytes) : xresult (Card * bytes) :=
  let? (p, _) := decodeCard r MaxCFileInflateBytes in Ok p.
End reader.
