(* ===== verification/XferMessage.v ===== *)
(** * Messages and their framing: src/internal/xfer/message.go, login_cookie.go

    Encoding and decoding of card sequences, the compressed container, the
    choice of framing by content type, and the login cookie with the parts of
    net/url and strings it uses. *)

From S2P Require Import Prelude GoStd GoText GoCrypto Escape Pathname Zlib Hash XferCard XferDecode.

Record Message := mk_Message { m_Cards : list Card; m_Uncompressed : bool; m_LoginCookieOK : bool }.

(** A message the decoders build. *)
Definition cards_message (cards : list Card) : Message := mk_Message cards false false.

Definition ContentTypeCompressed : bytes := bs "application/x-fossil".
Definition ContentTypeUncompressed : bytes := bs "application/x-fossil-uncompressed".
Definition ContentTypeDebug : bytes := bs "application/x-fossil-debug".

Definition MaxDecompressedBytes : Z := Z.shiftl 64 20.
Definition MaxBodyBytes : Z := MaxDecompressedBytes + Z.shiftl 1 20.

(** [ReadBody] of a reader that holds [body] and does not fail: what
    [io.LimitReader] lets through, and the test of its length. *)
Definition ReadBody (body : bytes) : xresult bytes :=
  let read := take (Z.to_nat (MaxBodyBytes + 1)) body in
  if len read >? MaxBodyBytes then Err (Errorx "xfer: reply body exceeds %d bytes" [XInt MaxBodyBytes])
  else Ok read.

Definition card_label : string := "xfer: encode card %d (%T): %w".

Section zlib.
Context `{!Zlib}.

(** The loop of [EncodeUncompressed], with the buffer. *)
Fixpoint encode_loop (buf : bytes) (cards : list Card) : xresult bytes :=
  match cards with
  | [] => Ok buf
  | c :: cards' =>
      let? b := wrap_err (Wrapx card_label) (EncodeCard c) in
      encode_loop (buf ++ b) cards'
  end.

Definition EncodeUncompressed (m : Message) : xresult bytes := encode_loop [] (m_Cards m).

Definition Encode (m : Message) : xresult bytes :=
  let? raw := EncodeUncompressed m in
  Ok (be_bytes 4 (u32 (len raw)) ++ zlib_Write raw).
End zlib.

(** ** Content types *)
Definition is_space_byte (c : byte) : bool := Byte.eqb c x20 || in_range 9 13 c.

Definition mediaType (contentType : bytes) : bytes :=
  TrimSpace (match IndexByte contentType x3b with
             | Some i => take i contentType
             | None => contentType
             end).

Definition contentTypeIsCompressed (contentType : bytes) : bool :=
  EqualFold (mediaType contentType) ContentTypeCompressed.

Definition KnownContentType (contentType : bytes) : bool :=
  let mt := mediaType contentType in
  EqualFold mt ContentTypeCompressed || EqualFold mt ContentTypeUncompressed || EqualFold mt ContentTypeDebug.

Definition hasPrefixFold (s prefix : bytes) : xresult bool :=
  and_also (Ok (len s >=? len prefix))
    (let? head := slice_of s 0 (len prefix) in Ok (EqualFold head prefix)).

(** ** Decoding *)
Definition decompressBounded (data : bytes) : xresult bytes :=
  match zlib_read data with
  | None => Err (Wrapx "xfer: compressed body is not a valid zlib stream: %w" ErrZlib)
  | Some zr =>
      match read_limited zr (MaxDecompressedBytes + 1) with
      | None => Err (Wrapx "xfer: decompress message: %w" ErrZlib)
      | Some raw =>
          if len raw >? MaxDecompressedBytes
          then Err (Errorx "xfer: decompressed message exceeds %d bytes" [XInt MaxDecompressedBytes])
          else Ok raw
      end
  end.

Definition decompressContainer (data : bytes) : xresult bytes :=
  if len data <? 4
  then Err (Errorx "xfer: compressed body is %d bytes, too short for a 4-byte length prefix" [XInt (len data)])
  else
    let? prefix := slice_of data 0 4 in
    let declared := be_value prefix in
    if declared >? MaxDecompressedBytes
    then Err (Errorx "xfer: declared container length %d exceeds %d bytes" [XInt declared; XInt MaxDecompressedBytes])
    else let? stream := slice_of data 4 (len data) in decompressBounded stream.

(** [lc.tailSHA1 = hash.SHA1(data[consumed:])] when the card is a login; the
    bytes not consumed are the reader's. *)
Definition set_tail (c : Card) (tail : bytes) : xresult Card :=
  match c with
  | LoginCard u n s _ => let? h := SHA1 (Some tail) in Ok (LoginCard u n s h)
  | _ => Ok c
  end.

Definition is_bad_file (c : Card) : bool := match c with BadFileCard _ => true | _ => false end.

Section decode.
Context `{!GoGrow}.

(** The loop of [decodeMessage], with the cards decoded so far.  Each card
    takes at least a byte. *)
Fixpoint message_loop (fuel : nat) (cards : list Card) (r : bytes) (budget : Z) : xresult (list Card) :=
  match fuel with
  | O => Diverge
  | S f =>
      match decodeCard r budget with
      | Err EOF => Ok cards
      | Err e => Err (Wrapx "xfer: decode card %d: %w" e)
      | Panic s => Panic s
      | Diverge => Diverge
      | Ok (card, r, budget) =>
          let? card := set_tail card r in
          let cards := cards ++ [card] in
          if is_bad_file card then Ok cards else message_loop f cards r budget
      end
  end.

Definition decodeMessage (data : bytes) (budget : Z) : xresult Message :=
  let? cards := message_loop (S (length data)) [] data budget in Ok (cards_message cards).

Definition DecodeUncompressed (data : bytes) : xresult Message := decodeMessage data MaxCFileInflateBytes.

Definition DecodeCompressed (data : bytes) : xresult Message :=
  let? raw := decompressContainer data in DecodeUncompressed raw.

Definition Decode (data contentType : bytes) : xresult Message :=
  match data with
  | [] => Ok (cards_message [])
  | _ => if contentTypeIsCompressed contentType then DecodeCompressed data else DecodeUncompressed data
  end.

Definition DecodeReply (data contentType : bytes) : xresult Message :=
  let? plain := or_else (hasPrefixFold contentType ContentTypeDebug)
                  (hasPrefixFold contentType ContentTypeUncompressed) in
  if plain : bool then Decode data ContentTypeUncompressed
  else
    let? compressed := or_else (Ok (bytes_eqb contentType [])) (hasPrefixFold contentType ContentTypeCompressed) in
    if compressed : bool then Decode data ContentTypeCompressed
    else Err (Errorx "xfer: reply Content-Type %q is not a sync reply" [XStr contentType]).
End decode.

(** ** net/url's query escaping *)
Definition query_unreserved (c : byte) : bool :=
  is_digit c || in_range 65 90 c || in_range 97 122 c
  || Byte.eqb c x2d || Byte.eqb c x5f || Byte.eqb c x2e || Byte.eqb c x7e.

Definition upper_hex (n : Z) : byte := nth (Z.to_nat n) (bs "0123456789ABCDEF") x00.

Definition query_escape_byte (c : byte) : bytes :=
  if query_unreserved c then [c]
  else if Byte.eqb c x20 then bs "+"
  else [x25; upper_hex (bz c / 16); upper_hex (bz c mod 16)].

(** [url.QueryEscape]. *)
Definition QueryEscape (s : bytes) : bytes := s ≫= query_escape_byte.

Definition unhex (c : byte) : option Z :=
  if is_digit c then Some (bz c - 48)
  else if in_range 97 102 c then Some (bz c - 87)
  else if in_range 65 70 c then Some (bz c - 55) else None.

(** [url.QueryUnescape], [None] for its error. *)
Fixpoint QueryUnescape (s : bytes) : option bytes :=
  match s with
  | [] => Some []
  | c :: s1 =>
      if Byte.eqb c x25 then
        match s1 with
        | h :: l :: s3 =>
            match unhex h, unhex l, QueryUnescape s3 with
            | Some a, Some b, Some t => Some (zb (16 * a + b) :: t)
            | _, _, _ => None
            end
        | _ => None
        end
      else cons (if Byte.eqb c x2b then x20 else c) <$> QueryUnescape s1
  end.

(** ** login_cookie.go *)
Definition LoginCookieName : bytes := bs "x-f-l-c".

(** The login card of a cookie value, its tail not yet set. *)
Definition parseLoginCookie (v : bytes) : option (bytes * bytes * bytes) :=
  match v with
  | [] => None
  | _ =>
      match QueryUnescape v with
      | None => None
      | Some line =>
          match Fields line with
          | [cmd; u; n; s] => if bytes_eqb cmd (bs "login") then Some (FossilDecode u, n, s) else None
          | _ => None
          end
      end
  end.

Section cookie.
Context `{!GoGrow}.

(** [data] is a slice that may be nil. *)
Definition DecodeRequest (data : option bytes) (contentType loginCookie : bytes) : xresult Message :=
  let? raw :=
    match data with
    | Some ((_ :: _) as d) =>
        if contentTypeIsCompressed contentType
        then let? raw := decompressContainer d in Ok (Some raw)
        else Ok data
    | _ => Ok data
    end in
  let? msg := DecodeUncompressed (default [] raw) in
  match parseLoginCookie loginCookie with
  | None => Ok msg
  | Some (u, n, s) =>
      let? h := SHA1 raw in
      Ok (mk_Message (LoginCard u n s h :: m_Cards msg) (m_Uncompressed msg) (m_LoginCookieOK msg))
  end.
End cookie.

(** The message for the body and the cookie value. *)
Definition SplitLoginCookie (m : Message) : Message * bytes :=
  if negb (m_LoginCookieOK m) then (m, [])
  else match m_Cards m with
       | LoginCard u n s _ :: cards =>
           let line := bs "login " ++ FossilEncode u ++ bs " " ++ n ++ bs " " ++ s in
           (cards_message cards, QueryEscape line)
       | _ => (m, [])
       end.
