(* ===== verification/XferLine.v ===== *)
(** * Lines, tokens and payloads of the sync reader

    What [readPayload] reads whatever the growth of its buffer, what a token
    is, and that a line of tokens is read back as those tokens. *)

From S2P Require Import Prelude GoStd GoText GoCrypto Escape Pathname Zlib Hash XferCard XferDecode.

(** ** readPayload reads exactly the declared bytes *)
Section payload.
Context `{HG : !GoGrow}.

Definition cut_error : xfer_error := Wrapx "read payload: %w" ErrUnexpectedEOF.

Lemma payload_loop_spec fuel r buf cap size :
  (length r < fuel)%nat -> len buf <= cap -> 1 <= cap \/ size = 0 -> len buf <= size ->
  payload_loop fuel r buf cap size =
  (if size - len buf <=? len r
   then Ok (buf ++ take (Z.to_nat (size - len buf)) r, drop (Z.to_nat (size - len buf)) r)
   else Err cut_error).
Proof.
  revert r buf cap. induction fuel as [|f IH]; intros r buf cap Hf Hc Hc1 Hs; [lia|].
  pose proof (len_nonneg buf). pose proof (len_nonneg r). cbn [payload_loop].
  destruct (size <=? len buf) eqn:E; zbool.
  { assert (size = len buf) as -> by lia. rewrite Z.sub_diag, (proj2 (Z.leb_le _ _)) by lia.
    cbn. by rewrite app_nil_r. }
  match goal with |- obind ?m _ = _ => assert (exists cap', m = Ok cap' /\ len buf < cap') as (cap' & -> & Hcap) end.
  { destruct (len buf =? cap) eqn:E1; zbool; [|exists cap; split; [done|lia]].
    cbv zeta. rewrite (proj2 (Z.ltb_ge _ 0)) by lia. eexists. split; [done|].
    pose proof (grow_cap_room (len buf) (Z.min size (2 * cap) - len buf)). lia. }
  cbn [obind]. set (want := Z.min size cap' - len buf). assert (1 <= want <= size - len buf) by lia.
  rewrite (proj2 (Z.ltb_ge want 0)) by lia.
  destruct (Z.le_gt_cases want (len r)).
  - rewrite len_take by lia. rewrite Z.ltb_irrefl.
    assert (len (drop (Z.to_nat want) r) = len r - want) as Hd by (rewrite len_drop; lia).
    rewrite IH; rewrite ?len_app, ?len_take by lia; try lia.
    2:{ rewrite length_drop. unfold len in *. lia. }
    replace (size - (len buf + want)) with (size - len buf - want) by lia. rewrite Hd.
    replace (size - len buf - want <=? len r - want) with (size - len buf <=? len r)
      by (apply eq_true_iff_eq; rewrite !Z.leb_le; lia).
    destruct (size - len buf <=? len r); [|done].
    replace (Z.to_nat (size - len buf)) with (Z.to_nat want + Z.to_nat (size - len buf - want))%nat by lia.
    by rewrite <- app_assoc, <- drop_drop, take_take_drop.
  - assert (len (take (Z.to_nat want) r) = len r) as ->.
    { unfold len in *. rewrite length_take. lia. }
    rewrite (proj2 (Z.ltb_lt _ _)) by lia. by rewrite (proj2 (Z.leb_gt _ _)) by lia.
Qed.

Lemma readPayload_ok r size : 0 <= size <= maxPayloadSize ->
  readPayload r size =
  (if size <=? len r then Ok (take (Z.to_nat size) r, drop (Z.to_nat size) r) else Err cut_error).
Proof.
  intros Hs. unfold readPayload.
  rewrite (proj2 (Z.ltb_ge _ _)) by lia. rewrite Z.gtb_ltb, (proj2 (Z.ltb_ge _ _)) by lia. cbn [orb].
  assert (payloadChunk = 65536) by done.
  rewrite payload_loop_spec; cbn [app]; rewrite ?len_nil, ?Z.sub_0_r; try lia. done.
Qed.

Lemma readPayload_app content rest : len content <= maxPayloadSize ->
  readPayload (content ++ rest) (len content) = Ok (content, rest).
Proof.
  intros Hl. pose proof (len_nonneg content). rewrite readPayload_ok by done.
  rewrite (proj2 (Z.leb_le _ _)) by len_lia. by rewrite take_len_app, drop_len_app.
Qed.

Lemma readPayloadNL_app content rest : len content <= maxPayloadSize ->
  readPayloadWithTrailingNewline (content ++ NL ++ rest) (len content) = Ok (content, rest).
Proof. intros Hl. unfold readPayloadWithTrailingNewline. by rewrite readPayload_app. Qed.

(** What a payload reader did to the input. *)
Lemma readPayload_inv r size content r' : readPayload r size = Ok (content, r') ->
  r = content ++ r' /\ len content = size /\ 0 <= size <= maxPayloadSize.
Proof.
  intros H. destruct ((size <? 0) || (size >? maxPayloadSize)) eqn:E.
  { unfold readPayload in H. by rewrite E in H. }
  apply orb_false_iff in E as [E1 E2]. rewrite Z.gtb_ltb in E2. zbool.
  rewrite readPayload_ok in H by lia. destruct (size <=? len r) eqn:E; [|done]. zbool.
  injection H as <- <-. rewrite take_drop, len_take by lia. split_and!; lia || done.
Qed.

Lemma readPayload_err r size e : 0 <= size <= maxPayloadSize -> readPayload r size = Err e -> cutShort e = true.
Proof. intros Hs. rewrite readPayload_ok by done. destruct (size <=? len r); [done|]. by intros [= <-]. Qed.

Lemma readPayloadNL_inv r size content r' : readPayloadWithTrailingNewline r size = Ok (content, r') ->
  exists skipped, r = content ++ skipped ++ r' /\ (skipped = [] \/ skipped = NL)
  /\ len content = size /\ 0 <= size <= maxPayloadSize.
Proof.
  unfold readPayloadWithTrailingNewline. intros H. ok_inv. destruct a as [buf r1].
  apply readPayload_inv in Hok as (-> & Hl & Hs).
  destruct r1 as [|b r1].
  { injection Hk as <- <-. exists []. split_and!; auto; lia. }
  destruct (Byte.eqb b x0a) eqn:E; injection Hk as <- <-.
  - apply byte_eqb_eq in E. subst b. exists NL. split_and!; auto; lia.
  - exists []. split_and!; auto; lia.
Qed.
End payload.

(** ** Sizes *)
Lemma parseSize_range tok n : parseSize tok = Ok n -> 0 <= n <= maxPayloadSize.
Proof.
  unfold parseSize. destruct (negb (isDecimal tok)) eqn:Ed; [done|].
  destruct (ParseInt tok) as [v|] eqn:Ep; [|done]. rewrite Z.gtb_ltb.
  destruct (maxPayloadSize <? v) eqn:E; [done|]. intros [= <-]. zbool. split; [|done].
  unfold ParseInt in Ep. destruct tok as [|c tok]; [done|]. unfold isDecimal in Ed. cbn [forallb] in Ed.
  apply andb_true_iff in Ed as [Hc Ht].
  assert (Byte.eqb c x2d = false) as E1 by (revert Hc; by_bytes c).
  assert (Byte.eqb c x2b = false) as E2 by (revert Hc; by_bytes c).
  rewrite E1, E2 in Ep. destruct (dec_val 0 (c :: tok)) as [w|] eqn:Ew; [|done].
  assert (forall l acc w, 0 <= acc -> dec_val acc l = Some w -> 0 <= w) as Hnn.
  { clear. induction l as [|c l IH]; intros acc w Ha; cbn [dec_val]; [by intros [= <-]|].
    destruct (is_digit c) eqn:Hd; [|done]. apply IH. unfold is_digit in Hd. zbool. lia. }
  apply Hnn in Ew; [|lia]. destruct (_ && _); [|done]. by injection Ep as <-.
Qed.

Lemma isDecimal_dec n : 0 <= n -> isDecimal (dec n) = true.
Proof.
  intros Hn. unfold dec. rewrite (proj2 (Z.ltb_ge _ _)) by lia.
  pose proof (dec_nat_nonempty n). pose proof (dec_nat_digits n Hn) as Hd.
  destruct (dec_nat n) as [|c l]; [done|]. unfold isDecimal. rewrite forallb_forall.
  rewrite Forall_forall in Hd. intros x Hx. apply Hd. by apply list_elem_of_In.
Qed.

Lemma isDecimal_dec_neg n : n < 0 -> isDecimal (dec n) = false.
Proof. intros Hn. unfold dec. by rewrite (proj2 (Z.ltb_lt _ _)) by lia. Qed.

Lemma parseSize_dec n : 0 <= n <= maxPayloadSize -> parseSize (dec n) = Ok n.
Proof.
  intros Hn. unfold parseSize. rewrite isDecimal_dec by lia. cbn [negb].
  unfold maxPayloadSize in *. rewrite ParseInt_dec by lia. by rewrite Z.gtb_ltb, (proj2 (Z.ltb_ge _ _)) by lia.
Qed.

(** ** Tokens *)
Definition card_token (t : bytes) : bool :=
  negb (bytes_eqb t []) && forallb (fun c => negb (isCardSpace c)) t.

Lemma card_token_nonempty t : card_token t = true -> t <> [].
Proof. by destruct t. Qed.

Lemma span_card_token_spec s t rest : span_card_token s = (t, rest) ->
  s = t ++ rest /\ forallb (fun c => negb (isCardSpace c)) t = true.
Proof.
  revert t rest. induction s as [|c s IH]; intros t rest; cbn [span_card_token]; [by intros [= <- <-]|].
  destruct (isCardSpace c) eqn:E; [by intros [= <- <-]|].
  destruct (span_card_token s) as [t' rest'] eqn:Es. intros [= <- <-].
  destruct (IH _ _ eq_refl) as [-> Ht]. split; [done|]. cbn [forallb]. by rewrite E, Ht.
Qed.

Lemma skip_card_space_head s c s' : skip_card_space s = c :: s' -> isCardSpace c = false.
Proof.
  induction s as [|d s IH]; [done|]. cbn [skip_card_space]. destruct (isCardSpace d) eqn:E; [done|].
  by intros [= <- <-].
Qed.

(** Every token of a line is one, and there are at most six. *)
Lemma tokenize_loop_tokens w line : Forall (fun t => card_token t = true) (tokenize_loop w line)
  /\ (length (tokenize_loop w line) <= w)%nat.
Proof.
  revert line. induction w as [|w IH]; intros line; cbn [tokenize_loop]; [split; [constructor|done]|].
  destruct (skip_card_space line) as [|c s] eqn:Es; [split; [constructor|cbn; lia]|].
  apply skip_card_space_head in Es. destruct (span_card_token (c :: s)) as [t rest] eqn:Et.
  cbn [length]. destruct (IH rest). split; [|lia]. constructor; [|done].
  apply span_card_token_spec in Et as E. destruct E as [Hs Ht]. unfold card_token. rewrite Ht.
  cbn [span_card_token] in Et. rewrite Es in Et. destruct (span_card_token s). by injection Et as <- <-.
Qed.

(** A line of tokens separated by single spaces. *)
Fixpoint spaced (ts : list bytes) : bytes :=
  match ts with [] => [] | t :: ts' => SP ++ t ++ spaced ts' end.
Definition join_tokens (ts : list bytes) : bytes :=
  match ts with [] => [] | t :: ts' => t ++ spaced ts' end.

Lemma span_card_token_app t rest : forallb (fun c => negb (isCardSpace c)) t = true ->
  (rest = [] \/ exists r, rest = x20 :: r) -> span_card_token (t ++ rest) = (t, rest).
Proof.
  intros Ht Hr. induction t as [|c t IH]; cbn [app].
  - destruct Hr as [-> | [r ->]]; done.
  - cbn [forallb] in Ht. apply andb_true_iff in Ht as [Hc Ht]. cbn [span_card_token].
    apply negb_true_iff in Hc. by rewrite Hc, IH.
Qed.

Lemma spaced_head ts : spaced ts = [] \/ exists r, spaced ts = x20 :: r.
Proof. destruct ts; [by left|]. right. cbn. eauto. Qed.

Lemma tokenize_spaced w ts : Forall (fun t => card_token t = true) ts -> (length ts <= w)%nat ->
  tokenize_loop w (spaced ts) = ts.
Proof.
  revert w. induction ts as [|t ts IH]; intros w Ht Hl; [by destruct w|].
  destruct w as [|w]; [cbn in Hl; lia|]. apply Forall_cons in Ht as [Ht Hts].
  cbn [tokenize_loop spaced]. change (skip_card_space (SP ++ ?x)) with (skip_card_space x).
  pose proof (card_token_nonempty _ Ht) as Hne. unfold card_token in Ht. apply andb_true_iff in Ht as [_ Ht].
  assert (skip_card_space (t ++ spaced ts) = t ++ spaced ts) as ->.
  { destruct t as [|c t]; [done|]. cbn in Ht |- *. apply andb_true_iff in Ht as [Hc _].
    apply negb_true_iff in Hc. by rewrite Hc. }
  destruct (t ++ spaced ts) eqn:E; [by apply app_eq_nil in E as [? _]|].
  rewrite <- E, span_card_token_app by (done || apply spaced_head).
  rewrite IH; [done..|]. cbn in Hl. lia.
Qed.

Lemma tokenize_join ts : Forall (fun t => card_token t = true) ts -> (length ts <= 6)%nat ->
  tokenizeCard (join_tokens ts) = ts.
Proof.
  intros Ht Hl. rewrite <- (tokenize_spaced 6 ts) at 2 by done. unfold tokenizeCard, cardTokenWindow.
  destruct ts as [|t ts]; [done|]. cbn [join_tokens spaced tokenize_loop]. by change (skip_card_space (SP ++ ?x)) with (skip_card_space x).
Qed.

Lemma card_token_no_line_end t : card_token t = true -> Forall (fun c => is_line_end c = false) t.
Proof.
  unfold card_token. intros [_ Ht]%andb_true_iff. apply Forall_forall. intros c Hc.
  rewrite forallb_forall in Ht. apply list_elem_of_In in Hc. specialize (Ht c Hc). revert Ht. by_bytes c.
Qed.

Lemma join_no_line_end ts : Forall (fun t => card_token t = true) ts ->
  Forall (fun c => is_line_end c = false) (join_tokens ts).
Proof.
  intros Hts. assert (Forall (fun c => is_line_end c = false) (spaced ts)) as Hs.
  { induction Hts as [|t ts Ht _ IH]; [constructor|]. cbn [spaced]. constructor; [done|].
    apply Forall_app. split; [by apply card_token_no_line_end|done]. }
  destruct Hts; [constructor|]. cbn [join_tokens spaced] in *. by apply Forall_cons in Hs as [_ Hs].
Qed.

(** ** Lines *)
Lemma ReadString_line line rest : Forall (fun c => is_line_end c = false) line ->
  ReadString (line ++ NL ++ rest) = (line ++ NL, rest, false).
Proof.
  induction 1 as [|c line Hc _ IH]; [done|]. cbn [app ReadString]. unfold is_line_end in Hc.
  apply orb_false_iff in Hc as [Hc _]. rewrite Hc. change (x0a :: rest) with (NL ++ rest). by rewrite IH.
Qed.

Lemma trim_right_line line : Forall (fun c => is_line_end c = false) line ->
  trim_right line = line /\ trim_right (line ++ NL) = line.
Proof.
  induction 1 as [|c line Hc Hl [IH1 IH2]]; [done|]. cbn [app trim_right]. rewrite IH1, IH2, Hc.
  by destruct line.
Qed.

(** What [ReadString] does to the input. *)
Lemma ReadString_inv r line rest eof : ReadString r = (line, rest, eof) ->
  r = line ++ rest /\ (if eof then rest = [] /\ x0a ∉ line else exists l, line = l ++ NL /\ x0a ∉ l).
Proof.
  revert line rest eof. induction r as [|c r IH]; intros line rest eof; cbn [ReadString].
  { intros [= <- <- <-]. split; [done|]. split; [done|]. apply not_elem_of_nil. }
  destruct (Byte.eqb c x0a) eqn:E.
  { intros [= <- <- <-]. apply byte_eqb_eq in E. subst c. split; [done|]. exists []. split; [done|]. apply not_elem_of_nil. }
  destruct (ReadString r) as [[l r'] e] eqn:Er. intros [= <- <- <-]. destruct (IH _ _ _ eq_refl) as [-> H].
  apply byte_eqb_neq in E. split; [done|]. destruct e.
  - split; [tauto|]. apply not_elem_of_cons. split; [congruence|tauto].
  - destruct H as (l' & -> & Hl'). exists (c :: l'). split; [done|]. apply not_elem_of_cons. split; [congruence|done].
Qed.

Lemma trim_right_nil : trim_right [] = [].
Proof. done. Qed.

Section decode.
Context `{HG : !GoGrow}.

(** More fuel than bytes changes nothing. *)
Lemma decode_loop_fuel f g r budget : (length r < f)%nat -> (length r < g)%nat ->
  decode_loop f r budget = decode_loop g r budget.
Proof.
  revert g r. induction f as [|f IH]; intros g r Hf Hg; [lia|]. destruct g as [|g]; [lia|].
  cbn [decode_loop]. destruct (ReadString r) as [[rawLine r1] eof] eqn:Er.
  apply ReadString_inv in Er as [-> H]. rewrite length_app in *.
  destruct (eof && _); [done|]. destruct (_ || _); [|done]. destruct eof; [done|].
  destruct H as (l & -> & _). rewrite length_app in *. cbn in *. apply IH; lia.
Qed.

(** A line of tokens is parsed as those tokens. *)
Lemma decodeCard_line cmd args rest budget : 0 <= budget ->
  Forall (fun t => card_token t = true) (cmd :: args) -> (length args <= 5)%nat ->
  HasPrefix cmd (bs "#") = false ->
  decodeCard (join_tokens (cmd :: args) ++ NL ++ rest) budget
  = parseLine rest (join_tokens (cmd :: args) ++ NL) (join_tokens (cmd :: args)) budget
  /\ tokenizeCard (join_tokens (cmd :: args)) = cmd :: args.
Proof.
  intros Hb Ht Hl Hp. split; [|apply tokenize_join; [done|cbn; lia]].
  unfold decodeCard. rewrite (proj2 (Z.ltb_ge _ _)) by lia.
  set (line := join_tokens (cmd :: args)). pose proof (join_no_line_end _ Ht) as Hn. fold line in Hn.
  cbn [decode_loop]. rewrite ReadString_line by done. destruct (trim_right_line _ Hn) as [_ ->].
  cbn [andb]. apply Forall_cons in Ht as [Hc _]. apply card_token_nonempty in Hc.
  assert (line <> []) as Hne.
  { subst line. cbn. intros E. by apply app_eq_nil in E as [E _]. }
  apply bytes_eqb_neq in Hne. rewrite Hne. cbn [orb].
  assert (HasPrefix line (bs "#") = false) as ->; [|done].
  subst line. cbn [join_tokens]. by destruct cmd as [|c cmd].
Qed.

(** Empty lines and comments are skipped. *)
Lemma decodeCard_skip line rest budget : 0 <= budget -> Forall (fun c => is_line_end c = false) line ->
  line = [] \/ HasPrefix line (bs "#") = true ->
  decodeCard (line ++ NL ++ rest) budget = decodeCard rest budget.
Proof.
  intros Hb Hn Hl. unfold decodeCard. rewrite (proj2 (Z.ltb_ge _ _)) by lia.
  generalize (S (length rest)), (Nat.lt_succ_diag_r (length rest)). intros g Hg.
  cbn [decode_loop]. rewrite ReadString_line by done. destruct (trim_right_line _ Hn) as [_ ->].
  cbn [andb]. assert (bytes_eqb line [] || HasPrefix line (bs "#") = true) as ->.
  { destruct Hl as [-> | ->]; [done|apply orb_true_r]. }
  apply decode_loop_fuel; [|done]. rewrite !length_app. cbn. lia.
Qed.
End decode.
