(* ===== verification/XferTotal.v ===== *)
(** * The sync reader always returns, and what it returns

    Every parser answers with a card or an error on every input; a card it
    answers satisfies [received_ok] and has been paid for from the inflation
    budget; the reader has moved forward. *)

From S2P Require Import Prelude GoStd GoText GoCrypto Escape Pathname Zlib Hash XferCard XferDecode XferMessage XferLine.

(** What a cfile card charges to the budget. *)
Definition inflated_bytes (c : Card) : Z :=
  match c with CFileCard _ _ _ content _ => len content | _ => 0 end.

(** [blob] is Fossil's on-disk form of [content]: a size prefix that suffices,
    then a zlib stream of exactly [content]. *)
Definition on_disk_form (blob content : bytes) : Prop :=
  zlib_read (drop 4 blob) = Some (mk_zstream content true)
  /\ len content <= be_value (take 4 blob).

Definition opt_token (t : bytes) : Prop := t = [] \/ card_token t = true.

(** The invariant of a received card. *)
Definition received_ok (c : Card) : Prop :=
  match c with
  | FileCard u d content => card_token u = true /\ opt_token d /\ len content <= maxPayloadSize
  | CFileCard u d usize content stored =>
      card_token u = true /\ opt_token d /\ 0 <= usize <= maxPayloadSize
      /\ len content <= (if bytes_eqb d [] then usize else usize + usize / 2 + 64)
      /\ exists blob, stored = Some blob /\ on_disk_form blob content
  | UVFileCard name mtime h size flags content =>
      StrictPathname name = true /\ 0 <= mtime < 2 ^ 63
      /\ (h = bs "-" \/ @IsValidHash xfer_error h = Ok true)
      /\ 0 <= size <= maxPayloadSize /\ 0 <= flags <= maxPayloadSize
      /\ (if uvFileOmitsContent flags then content = [] else len content = size)
  | SchemaCard _ _ _ _ content | XRowCard _ _ _ content | XDeleteCard _ _ _ content => len content <= Z.shiftl 64 20
  | ConfigCard _ content => len content <= maxPayloadSize
  | PragmaCard n vs => Forall (fun t => card_token t = true) (n :: vs) /\ (length vs <= 4)%nat
  | PushCard a b | PullCard a b | XGimmeCard a b | LoginCard _ a b _ => card_token a = true /\ card_token b = true
  | CloneSeqNoCard s _ => 0 <= s <= MaxInt64
  | BadFileCard _ => In c [malformed_file; malformed_cfile; malformed_uvfile]
  | UnknownCard cmd _ _ => cmd = bs "clone" \/ cmd = bs "clone_seqno"
  | CommentCard _ => False
  | _ => True
  end.

(** A parser's answer on the input [r] with the budget [budget]. *)
Definition step_ok (r : bytes) (budget : Z) (m : xresult (Card * bytes * Z)) : Prop :=
  match m with
  | Ok (c, r', budget') =>
      (exists used, r = used ++ r') /\ budget' = budget - inflated_bytes c /\ 0 <= budget' /\ received_ok c
  | Err _ => True
  | Panic _ | Diverge => False
  end.

Section total.
Context `{HG : !GoGrow}.

Lemma step_ok_card r budget c : 0 <= budget -> received_ok c -> inflated_bytes c = 0 ->
  step_ok r budget (Ok (c, r, budget)).
Proof using. intros Hb Hc Hi. split_and!; [by exists []|lia|done|done]. Qed.

Lemma step_ok_after used r budget m : step_ok r budget m -> step_ok (used ++ r) budget m.
Proof using.
  destruct m as [[[c r'] b']| | |]; try done. intros ((u & ->) & H). split; [|done].
  exists (used ++ u). by rewrite app_assoc.
Qed.


Lemma parseSize_returns tok : returns (parseSize tok).
Proof using. unfold parseSize. by repeat case_match. Qed.

(** A size that does not parse, and one that does. *)
Lemma step_ok_size tok r budget bad k :
  step_ok r budget bad ->
  (forall size, parseSize tok = Ok size -> 0 <= size <= maxPayloadSize -> step_ok r budget (k size)) ->
  step_ok r budget (on_err (parseSize tok) (fun _ => bad) k).
Proof using.
  intros Hb Hk. pose proof (parseSize_returns tok). destruct (parseSize tok) eqn:E; try done.
  apply Hk; [done|]. by eapply parseSize_range.
Qed.

(** A payload that is there, and one cut short. *)
Lemma step_ok_payload bad label r size k budget :
  0 <= budget -> 0 <= size <= maxPayloadSize -> received_ok bad -> inflated_bytes bad = 0 ->
  (forall content r', r = content ++ r' -> len content = size -> step_ok r' budget (k content r')) ->
  step_ok r budget (payload_or bad label (readPayload r size) k budget).
Proof using.
  intros Hb Hs Hbad Hi Hk. unfold payload_or. rewrite readPayload_ok by done.
  destruct (size <=? len r) eqn:E; zbool; cbn [on_err].
  - rewrite <- (take_drop (Z.to_nat size) r) at 1. apply step_ok_after, Hk; [by rewrite take_drop|].
    apply len_take. lia.
  - cbn. split_and!; [|lia|done|done]. exists r. by rewrite app_nil_r.
Qed.

Lemma step_ok_trailing label r size k budget :
  0 <= size <= maxPayloadSize ->
  (forall content r', len content = size -> step_ok r' budget (k content r')) ->
  step_ok r budget (let? (content, r) := wrap_err (Wrapx label) (readPayloadWithTrailingNewline r size) in k content r).
Proof using.
  intros Hs Hk. unfold readPayloadWithTrailingNewline. rewrite readPayload_ok by done.
  destruct (size <=? len r) eqn:E; zbool; [|done]. cbn [obind].
  rewrite <- (take_drop (Z.to_nat size) r) at 1.
  assert (len (take (Z.to_nat size) r) = size) as Hl by (apply len_take; lia).
  destruct (drop (Z.to_nat size) r) as [|b r']; cbn [wrap_err obind].
  - apply step_ok_after. by apply Hk.
  - apply step_ok_after. destruct (Byte.eqb b x0a); [change (b :: r') with ([b] ++ r'); apply step_ok_after|]; by apply Hk.
Qed.

Ltac bad_card := apply step_ok_card; [done|cbn; tauto|done].

Lemma parseFile_ok r args budget : 0 <= budget -> Forall (fun t => card_token t = true) args ->
  step_ok r budget (parseFile r args budget).
Proof using.
  intros Hb Ha. unfold parseFile.
  destruct args as [|u [|d [|s [|]]]]; try bad_card; rewrite ?Forall_cons in Ha;
    (apply step_ok_size; [bad_card|]; intros size _ Hs;
     apply step_ok_payload; [done|done|cbn; tauto|done|];
     intros content r' _ Hl; apply step_ok_card; [done| |done]).
  - split_and!; [tauto|by left|lia].
  - split_and!; [tauto|right; tauto|lia].
Qed.

(** ** Inflation *)
Lemma inflateBounded_spec data limit : 0 <= limit ->
  match inflateBounded data limit with
  | Inflated out => zlib_read data = Some (mk_zstream out true) /\ len out <= limit
  | NotInflated _ => True
  end.
Proof using.
  intros Hl. unfold inflateBounded. destruct (zlib_read data) as [[out clean]|]; [|done].
  unfold read_limited. cbn [z_out z_clean]. destruct (limit + 1 <? len out) eqn:E; zbool.
  - rewrite len_take by lia. by rewrite Z.gtb_ltb, (proj2 (Z.ltb_lt _ _)) by lia.
  - destruct clean; [|done]. rewrite Z.gtb_ltb. destruct (limit <? len out) eqn:E1; [done|]. zbool. by split.
Qed.

Lemma be_value_range l : 0 <= be_value l < 256 ^ len l.
Proof using.
  unfold be_value. assert (len l = len (rev l)) as -> by (unfold len; by rewrite length_rev).
  induction (rev l) as [|b k IH]; [vm_compute; split; [discriminate|reflexivity]|]. cbn [le_value]. rewrite len_cons, Z.pow_add_r by (lia || apply len_nonneg).
  pose proof (bz_range b). change (256 ^ 1) with 256. lia.
Qed.

Lemma decompressCFile_spec data limit : 0 <= limit < 2 ^ 32 ->
  match decompressCFile data limit with
  | Ok (content, blob) => len content <= limit /\ on_disk_form blob content
      /\ (blob = data \/ blob = be_bytes 4 (len content) ++ data)
  | Err _ => True
  | _ => False
  end.
Proof using.
  intros Hl. unfold decompressCFile. pose proof (inflateBounded_spec data limit ltac:(lia)) as H1.
  destruct (inflateBounded data limit) as [out|over].
  - destruct H1 as [Hz Ho]. pose proof (len_nonneg out). split; [done|]. rewrite u32_small by lia.
    split; [|by right]. unfold on_disk_form.
    rewrite be_value_be_bytes4 by lia. change 4%nat with (length (be_bytes 4 (len out))) at 1.
    rewrite drop_app_length. split; [done|lia].
  - destruct (len data >? 4) eqn:E; [|cbn [obind]; by repeat case_match].
    rewrite Z.gtb_ltb in E. zbool. rewrite slice_head, slice_tail by lia. cbn [obind].
    change (Z.to_nat 4) with 4%nat. pose proof (be_value_range (take 4 data)).
    pose proof (inflateBounded_spec (drop 4 data) (Z.min limit (be_value (take 4 data))) ltac:(lia)) as H2.
    destruct (inflateBounded (drop 4 data) _) as [out|over']; [|by destruct (over || over')].
    destruct H2 as [Hz Ho]. split; [lia|]. split; [|by left]. split; [done|lia].
Qed.

Lemma cfileInflateLimit_spec usize delta : 0 <= usize <= maxPayloadSize ->
  cfileInflateLimit usize delta = Ok (if delta : bool then usize + usize / 2 + 64 else usize)
  /\ 0 <= usize + usize / 2 + 64 < 2 ^ 32.
Proof using.
  intros Hu. unfold cfileInflateLimit, maxPayloadSize in *.
  rewrite (proj2 (Z.ltb_ge _ _)) by lia. rewrite Z.gtb_ltb, (proj2 (Z.ltb_ge _ _)) by lia. cbn [orb].
  rewrite Z.quot_div_nonneg by lia.
  assert (0 <= usize / 2 <= usize) by (Z.to_euclidean_division_equations; lia).
  assert (usize / 2 <= 2 ^ 30) by (Z.to_euclidean_division_equations; lia).
  split; [|lia]. destruct delta; cbn [negb]; [|done]. by rewrite !i64_small by (rewrite ?i64_small; lia).
Qed.

Lemma parseCFile_ok r args budget : 0 <= budget -> Forall (fun t => card_token t = true) args ->
  step_ok r budget (parseCFile r args budget).
Proof using.
  intros Hb Ha. unfold parseCFile.
  assert (Hgo : forall u d us cs, card_token u = true -> opt_token d -> step_ok r budget
    (on_err (parseSize us) (fun _ => Ok (malformed_cfile, r, budget)) (fun usize =>
     on_err (parseSize cs) (fun _ => Ok (malformed_cfile, r, budget)) (fun csize =>
     payload_or malformed_cfile "xfer: cfile payload: %w" (readPayload r csize) (fun compressed r =>
      let? l := cfileInflateLimit usize (negb (bytes_eqb d [])) in
      let? (decompressed, storedBlob) := decompressCFile compressed (Z.min l budget) in
      Ok (CFileCard u d usize decompressed (Some storedBlob), r, budget - len decompressed)) budget)))).
  { intros u d us cs Hu Hd.
    apply step_ok_size; [bad_card|]. intros usize _ Hus. apply step_ok_size; [bad_card|]. intros csize _ Hcs.
    apply step_ok_payload; [done|done|cbn; tauto|done|]. intros content r' _ _.
    destruct (cfileInflateLimit_spec usize (negb (bytes_eqb d [])) Hus) as [-> Hlim]. cbn [obind].
    set (l := Z.min _ budget).
    assert (0 <= l <= usize + usize / 2 + 64) as Hl.
    { subst l. assert (0 <= usize / 2) by (apply Z.div_pos; lia). destruct (negb _); lia. }
    pose proof (decompressCFile_spec content l ltac:(lia)) as Hdc.
    destruct (decompressCFile content l) as [[out blob]| | |]; try done. destruct Hdc as (Ho & Hdisk & _).
    cbn [obind step_ok inflated_bytes]. split_and!; [by exists []|done|subst l; lia|].
    cbn [received_ok]. split_and!; [done|done|lia|lia| |by exists blob].
    subst l. destruct (bytes_eqb d []); cbn [negb] in Ho; lia. }
  destruct args as [|u [|d [|s [|cs [|]]]]]; try bad_card; rewrite ?Forall_cons in Ha; apply Hgo; try tauto;
    [by left|right; tauto].
Qed.

(** ** The other payload cards *)
Lemma ParseInt_range s n : ParseInt s = Some n -> - 2 ^ 63 <= n < 2 ^ 63.
Proof using.
  unfold ParseInt. destruct s as [|c s]; [done|]. destruct (if Byte.eqb c x2d then _ else _) as [neg ds].
  destruct ds as [|d ds]; [done|]. destruct (dec_val 0 (d :: ds)) as [v|]; [|done].
  destruct (_ && _) eqn:E; [|done]. intros [= <-]. zbool. done.
Qed.

Lemma IsValidHash_returns h : h <> [] -> returns (@IsValidHash xfer_error h).
Proof using. by destruct h. Qed.

Lemma parseUVFile_ok r args budget : 0 <= budget -> Forall (fun t => card_token t = true) args ->
  step_ok r budget (parseUVFile r args budget).
Proof using.
  intros Hb Ha. unfold parseUVFile. destruct args as [|n [|t [|h [|s [|f [|]]]]]]; try bad_card.
  rewrite !Forall_cons in Ha. destruct Ha as (_ & _ & Hh & _).
  apply card_token_nonempty, IsValidHash_returns in Hh.
  destruct (negb (StrictPathname (FossilDecode n))) eqn:Es; cbn [obind]; [bad_card|]. apply negb_false_iff in Es.
  assert (Hgo : (h = bs "-" \/ @IsValidHash xfer_error h = Ok true) -> step_ok r budget
    match ParseInt t with
    | None => Ok (malformed_uvfile, r, budget)
    | Some mtime =>
      if mtime <? 0 then Ok (malformed_uvfile, r, budget)
      else on_err (parseSize s) (fun _ => Ok (malformed_uvfile, r, budget)) (fun size =>
           on_err (parseSize f) (fun _ => Ok (malformed_uvfile, r, budget)) (fun flags =>
           if negb (uvFileOmitsContent flags)
           then payload_or malformed_uvfile "xfer: uvfile payload: %w" (readPayload r size)
             (fun content r => Ok (UVFileCard (FossilDecode n) mtime h size flags content, r, budget)) budget
           else Ok (UVFileCard (FossilDecode n) mtime h size flags [], r, budget)))
    end).
  { intros Hhash. destruct (ParseInt t) as [mtime|] eqn:Et; [|bad_card]. apply ParseInt_range in Et.
    destruct (mtime <? 0) eqn:Em; zbool; [bad_card|].
    apply step_ok_size; [bad_card|]. intros size _ Hs. apply step_ok_size; [bad_card|]. intros flags _ Hf.
    destruct (uvFileOmitsContent flags) eqn:Eo; cbn [negb].
    2: apply step_ok_payload; [done|done|cbn; tauto|done|intros content r' _ Hl].
    all: apply step_ok_card; [done| |done]; cbn [received_ok]; rewrite Eo; split_and!; done || lia. }
  destruct (bytes_eqb h (bs "-")) eqn:Eh; cbn [obind].
  { apply bytes_eqb_eq in Eh. apply Hgo. by left. }
  destruct (IsValidHash h) as [ok| | |] eqn:Ev; cbn [obind]; try done.
  destruct ok; cbn [negb]; [|bad_card]. apply Hgo. by right.
Qed.

Lemma parseConfig_ok r rawLine args budget : 0 <= budget -> step_ok r budget (parseConfig r rawLine args budget).
Proof using.
  intros Hb. unfold parseConfig. destruct args as [|name [|s [|]]]; try bad_card.
  apply step_ok_size; [bad_card|]. intros size _ Hs. rewrite readPayload_ok by done.
  destruct (size <=? len r) eqn:E; zbool; [|done]. cbn [wrap_err obind step_ok inflated_bytes].
  assert (len (take (Z.to_nat size) r) = size) by (apply len_take; lia).
  split_and!; [|lia|done|cbn [received_ok]; lia].
  exists (take (Z.to_nat size) r ++ take 1 (drop (Z.to_nat size) r)). by rewrite <- app_assoc, !take_drop.
Qed.

Lemma step_ok_int label tok r budget k : (forall v, step_ok r budget (k v)) ->
  step_ok r budget (let? v := wrap_err (Wrapx label) (parse_int tok) in k v).
Proof using. intros Hk. unfold parse_int. destruct (ParseInt tok); [apply Hk|done]. Qed.

Lemma step_ok_wrapped_size label tok r budget k :
  (forall size, 0 <= size <= maxPayloadSize -> step_ok r budget (k size)) ->
  step_ok r budget (let? size := wrap_err (Wrapx label) (parseSize tok) in k size).
Proof using.
  intros Hk. pose proof (parseSize_returns tok). destruct (parseSize tok) eqn:E; try done.
  apply Hk. by eapply parseSize_range.
Qed.

(** The table-sync payloads share their shape: a bounded size, a payload, a LF. *)
Ltac table_card bound :=
  apply step_ok_wrapped_size; intros size Hs; rewrite Z.gtb_ltb;
  destruct (bound <? size) eqn:?; [done|]; zbool;
  apply step_ok_trailing; [done|]; intros content r' Hl; apply step_ok_card; [done| |done];
  cbn [received_ok]; unfold bound in *; lia.

Lemma parseSchema_ok r args budget : 0 <= budget -> step_ok r budget (parseSchema r args budget).
Proof using.
  intros Hb. unfold parseSchema. destruct args as [|t [|v [|h [|m [|s [|]]]]]]; try done.
  apply step_ok_int. intros version. apply step_ok_int. intros mtime. table_card maxSchemaSize.
Qed.

Lemma parseXRow_ok r args budget : 0 <= budget -> step_ok r budget (parseXRow r args budget).
Proof using.
  intros Hb. unfold parseXRow. destruct args as [|t [|k [|m [|s [|]]]]]; try done.
  apply step_ok_int. intros mtime. table_card maxXRowSize.
Qed.

Lemma parseXDelete_ok r args budget : 0 <= budget -> step_ok r budget (parseXDelete r args budget).
Proof using.
  intros Hb. unfold parseXDelete. destruct args as [|t [|k [|m [|s [|]]]]]; try done.
  apply step_ok_int. intros mtime. table_card maxXDeleteSize.
Qed.

(** ** Cards without payload *)
Lemma Atoi_value_range s : isDecimal s = true -> 0 <= Atoi_value s <= MaxInt64.
Proof using.
  intros Hd. unfold Atoi_value. destruct (ParseInt s) as [n|] eqn:E; [|unfold MaxInt64; lia].
  pose proof (ParseInt_range _ _ E). unfold MaxInt64.
  destruct (Z.le_gt_cases n maxPayloadSize); [|unfold maxPayloadSize in *; lia].
  assert (parseSize s = Ok n) as Hp.
  { unfold parseSize. rewrite Hd, E. cbn [negb]. by rewrite Z.gtb_ltb, (proj2 (Z.ltb_ge _ _)) by lia. }
  apply parseSize_range in Hp. lia.
Qed.

Lemma parseControlCard_ok cmd args c : Forall (fun t => card_token t = true) args -> (length args <= 5)%nat ->
  parseControlCard cmd args = Some c -> received_ok c /\ inflated_bytes c = 0.
Proof using.
  intros Ha Hl. unfold parseControlCard.
  repeat match goal with
  | |- (if ?b then _ else _) = _ -> _ => destruct b
  | |- match ?l with _ => _ end = _ -> _ => destruct l
  end; rewrite ?Forall_cons in Ha; try (by intros [= <-]; cbn; tauto); try done.
  - unfold parseClone. repeat case_match; intros [= <-]; cbn; tauto.
  - unfold parseCloneSeqNo. destruct args as [|a [|]]; try done.
    destruct (isDecimal a) eqn:E; cbn [negb]; intros [= <-]; [|cbn; tauto].
    split; [|done]. by apply Atoi_value_range.
  - unfold parsePragma. destruct args as [|n vs]; [done|]. intros [= <-]. split; [|done]. cbn in *. split; [done|lia].
  - unfold parseUVIGot. repeat case_match; try done. by intros [= <-].
  - unfold parseXIGot. repeat case_match; try done. by intros [= <-].
  - unfold parseXGimme. destruct args as [|? [|? [|]]]; try done. rewrite !Forall_cons in Ha. intros [= <-]. cbn. tauto.
Qed.

Lemma keepRawLine_ok c rawLine : received_ok c /\ inflated_bytes c = 0 ->
  received_ok (keepRawLine c rawLine) /\ inflated_bytes (keepRawLine c rawLine) = 0.
Proof using. by destruct c. Qed.

Lemma parseLine_ok r rawLine line budget : 0 <= budget -> step_ok r budget (parseLine r rawLine line budget).
Proof using.
  intros Hb. unfold parseLine. destruct (tokenize_loop_tokens cardTokenWindow line) as [Ht Hl].
  fold (tokenizeCard line) in Ht, Hl. destruct (tokenizeCard line) as [|cmd args]; [bad_card|].
  apply Forall_cons in Ht as [_ Ht]. unfold cardTokenWindow in Hl. cbn in Hl.
  destruct (is_cmd cmd "file"); [by apply parseFile_ok|].
  destruct (is_cmd cmd "cfile"); [by apply parseCFile_ok|].
  destruct (is_cmd cmd "uvfile"); [by apply parseUVFile_ok|].
  destruct (is_cmd cmd "config"); [by apply parseConfig_ok|].
  destruct (is_cmd cmd "schema"); [by apply parseSchema_ok|].
  destruct (is_cmd cmd "xrow"); [by apply parseXRow_ok|].
  destruct (is_cmd cmd "xdelete"); [by apply parseXDelete_ok|].
  destruct (parseControlCard cmd args) as [c|] eqn:E; [|bad_card].
  apply parseControlCard_ok in E; [|done|lia]. apply (keepRawLine_ok _ rawLine) in E as [H1 H2].
  by apply step_ok_card.
Qed.

(** The reader moves past at least the line it parses. *)
Lemma decode_loop_ok fuel r budget : 0 <= budget -> (length r < fuel)%nat ->
  step_ok r budget (decode_loop fuel r budget)
  /\ (forall c r' b', decode_loop fuel r budget = Ok (c, r', b') -> (length r' < length r)%nat).
Proof using.
  intros Hb. revert r. induction fuel as [|f IH]; intros r Hf; [lia|]. cbn [decode_loop].
  destruct (ReadString r) as [[rawLine r1] eof] eqn:Er. apply ReadString_inv in Er as [-> He].
  destruct (eof && _) eqn:E1; [done|].
  assert (rawLine <> []) as Hne.
  { intros ->. destruct eof; [by rewrite bytes_eqb_refl in E1|]. destruct He as (l & H & _). by destruct l. }
  assert (length r1 < length (rawLine ++ r1))%nat by (rewrite length_app; destruct rawLine; [done|cbn; lia]).
  destruct (_ || _).
  - destruct eof; [done|]. destruct (IH r1 ltac:(lia)) as [H1 H2]. split; [by apply step_ok_after|].
    intros c r' b' H3. apply H2 in H3. lia.
  - pose proof (parseLine_ok r1 rawLine (trim_right rawLine) budget Hb) as Hp. split; [by apply step_ok_after|].
    intros c r' b' H1. rewrite H1 in Hp. destruct Hp as ((u & ->) & _). rewrite !length_app in *. lia.
Qed.

Lemma decodeCard_ok r budget : 0 <= budget ->
  step_ok r budget (decodeCard r budget)
  /\ (forall c r' b', decodeCard r budget = Ok (c, r', b') -> (length r' < length r)%nat).
Proof using.
  intros Hb. unfold decodeCard. rewrite (proj2 (Z.ltb_ge _ _)) by lia. apply decode_loop_ok; [done|lia].
Qed.

(** ** Messages *)
Definition total_inflated (cards : list Card) : Z := fold_right (fun c n => inflated_bytes c + n) 0 cards.

(** A [BadFileCard] only as the last card. *)
Fixpoint bad_file_last (cards : list Card) : bool :=
  match cards with
  | [] => true
  | c :: cs => match cs with [] => true | _ => negb (is_bad_file c) && bad_file_last cs end
  end.

Lemma set_tail_ok c tail : exists c', set_tail c tail = Ok c' /\ (received_ok c -> received_ok c')
  /\ inflated_bytes c' = inflated_bytes c /\ is_bad_file c' = is_bad_file c.
Proof using. destruct c; cbn; eauto. Qed.

(** The cards a run of the loop adds. *)
Lemma message_loop_ok fuel cards r budget : 0 <= budget -> (length r < fuel)%nat ->
  match message_loop fuel cards r budget with
  | Ok out => exists new, out = cards ++ new /\ Forall received_ok new
      /\ total_inflated new <= budget /\ bad_file_last new = true
  | Err _ => True
  | _ => False
  end.
Proof using.
  revert cards r budget. induction fuel as [|f IH]; intros cards r budget Hb Hf; [lia|]. cbn [message_loop].
  destruct (decodeCard_ok r budget Hb) as [Hs Hl]. destruct (decodeCard r budget) as [[[c r'] b']|e| |]; try done.
  2:{ destruct e; try done. exists []. rewrite app_nil_r. split_and!; [done|constructor|cbn; lia|done]. }
  specialize (Hl _ _ _ eq_refl). destruct Hs as (_ & Hb' & Hb0 & Hc).
  destruct (set_tail_ok c r') as (c' & -> & Hc' & Hi & Hbf). cbn [obind]. specialize (Hc' Hc).
  destruct (is_bad_file c') eqn:Eb.
  - exists [c']. split_and!; [done|by repeat constructor|cbn; lia|done].
  - specialize (IH (cards ++ [c']) r' b' Hb0 ltac:(lia)). destruct (message_loop f _ r' b'); try done.
    destruct IH as (new & -> & Hn & Ht & Hbl). exists (c' :: new). rewrite <- app_assoc. split_and!; [done|by constructor| |].
    + cbn [total_inflated fold_right]. fold (total_inflated new). lia.
    + cbn [bad_file_last]. destruct new; [done|]. by rewrite Eb, Hbl.
Qed.
End total.

(** * Safety of the sync decoder

    Totality on hostile input, the invariant and the resource bound of a decoded
    message, and what a login card's nonce check binds. *)

Section safety.
Context `{HG : !GoGrow}.

Lemma decodeMessage_ok data budget : 0 <= budget ->
  match decodeMessage data budget with
  | Ok m => Forall received_ok (m_Cards m) /\ total_inflated (m_Cards m) <= budget
      /\ bad_file_last (m_Cards m) = true
  | Err _ => True
  | _ => False
  end.
Proof using.
  intros Hb. unfold decodeMessage. pose proof (message_loop_ok (S (length data)) [] data budget Hb ltac:(lia)) as H.
  destruct (message_loop _ _ _ _); try done. destruct H as (new & -> & H). done.
Qed.

Lemma DecodeUncompressed_returns data : returns (DecodeUncompressed data).
Proof using.
  unfold DecodeUncompressed. pose proof (decodeMessage_ok data MaxCFileInflateBytes ltac:(done)) as H.
  by destruct (decodeMessage _ _).
Qed.

Lemma decompressContainer_returns data : returns (decompressContainer data).
Proof using.
  unfold decompressContainer, decompressBounded. destruct (Z.ltb_spec (len data) 4); [done|].
  rewrite slice_head, slice_tail by lia. cbn [obind]. by repeat case_match.
Qed.

Lemma hasPrefixFold_returns s prefix : returns (hasPrefixFold s prefix).
Proof using.
  unfold hasPrefixFold, and_also. cbn [obind]. rewrite Z.geb_leb.
  destruct (Z.leb_spec (len prefix) (len s)); [|done]. by rewrite slice_head by (pose proof (len_nonneg prefix); lia).
Qed.

Lemma or_else_returns {E} (a b : outcome E bool) : returns a -> returns b -> returns (or_else a b).
Proof using. intros Ha Hb. apply returns_bind; [done|]. by intros [] _. Qed.

Lemma Decode_returns data ct : returns (Decode data ct).
Proof using.
  unfold Decode. destruct data; [done|]. destruct (contentTypeIsCompressed ct); [|apply DecodeUncompressed_returns].
  apply returns_bind; [apply decompressContainer_returns|]. intros. apply DecodeUncompressed_returns.
Qed.

(** C6: decoding a request or a reply answers with a message or an error on
    every byte string, content type and cookie: no panic, no out-of-range read,
    no endless loop. *)
Theorem decode_total (data ct cookie : bytes) :
  returns (Decode data ct) /\ returns (DecodeReply data ct) /\ returns (DecodeRequest (Some data) ct cookie).
Proof using.
  split; [apply Decode_returns|]. split.
  { unfold DecodeReply.
    apply returns_bind; [apply or_else_returns; apply hasPrefixFold_returns|]. intros [] _.
    { generalize ContentTypeUncompressed. intros ct'. apply Decode_returns. }
    apply returns_bind; [apply or_else_returns; [done|apply hasPrefixFold_returns]|]. intros [] _; [|exact I].
    generalize ContentTypeCompressed. intros ct'. apply Decode_returns. }
  unfold DecodeRequest. apply returns_bind.
  { destruct data; [done|]. destruct (contentTypeIsCompressed ct); [|done].
    apply returns_bind; [apply decompressContainer_returns|intros; exact I]. }
  intros raw Hraw. assert (exists d, raw = Some d) as [d ->].
  { destruct data; [injection Hraw as <-; eauto|]. destruct (contentTypeIsCompressed ct); ok_inv; eauto. }
  cbn [default]. apply returns_bind; [apply DecodeUncompressed_returns|]. intros msg _.
  by destruct (parseLoginCookie cookie) as [[[u n] s]|].
Qed.

(** C36: a decoded message satisfies the card invariant (payload sizes as
    declared and bounded, simple file names, valid hashes, tokens without
    white space, a stored blob that inflates to the content), its cfile cards
    inflate together to no more than the budget, and a bad file line is its
    last card. *)
Theorem decode_invariant (data : bytes) (budget : Z) (m : Message) (Hb : 0 <= budget)
    (Hd : decodeMessage data budget = Ok m) :
  Forall received_ok (m_Cards m) /\ total_inflated (m_Cards m) <= budget /\ bad_file_last (m_Cards m) = true.
Proof using. pose proof (decodeMessage_ok data budget Hb) as H. by rewrite Hd in H. Qed.

(** ** Login cards *)
Lemma parseControlCard_login cmd args u n s t : parseControlCard cmd args = Some (LoginCard u n s t) ->
  cmd = bs "login" /\ t = [] /\ exists eu, args = [eu; n; s] /\ u = FossilDecode eu.
Proof using.
  unfold parseControlCard.
  repeat match goal with
  | |- (if ?b then _ else _) = _ -> _ => let E := fresh "E" in destruct b eqn:E
  | |- match ?l with _ => _ end = _ -> _ => destruct l
  end; try done.
  - unfold parseClone. by repeat case_match.
  - unfold parseCloneSeqNo. by repeat case_match.
  - unfold parsePragma. by repeat case_match.
  - intros [= <- <- <- <-]. match goal with H : is_cmd _ "login" = true |- _ => apply bytes_eqb_eq in H as -> end.
    split_and!; eauto.
  - unfold parseUVIGot. by repeat case_match.
  - unfold parseXIGot. by repeat case_match.
  - unfold parseXGimme. by repeat case_match.
Qed.

(** No other parser makes a login card. *)
Definition not_login (m : xresult (Card * bytes * Z)) : Prop :=
  forall c r b, m = Ok (c, r, b) -> Type_of c <> CardLogin.

Ltac no_login :=
  intros ? ? ?; unfold payload_or, on_err;
  repeat case_match; intros; ok_inv;
  repeat match goal with a : (_ * _)%type |- _ => destruct a end; ok_inv; simplify_eq; try done.

Lemma parseFile_not_login r args b : not_login (parseFile r args b).
Proof using. unfold parseFile, not_login. no_login. Qed.
Lemma parseCFile_not_login r args b : not_login (parseCFile r args b).
Proof using.
  unfold parseCFile, not_login. no_login.
Qed.
Lemma parseConfig_not_login r raw args b : not_login (parseConfig r raw args b).
Proof using. unfold parseConfig, not_login. no_login. Qed.
Lemma parseUVFile_not_login r args b : not_login (parseUVFile r args b).
Proof using. unfold parseUVFile, not_login. no_login. all: ok_inv; revert Hk; repeat case_match; intros; simplify_eq; done. Qed.

Lemma parseLine_login r raw line b u n s t r' b' : parseLine r raw line b = Ok (LoginCard u n s t, r', b') ->
  r' = r /\ exists eu, tokenizeCard line = [bs "login"; eu; n; s] /\ u = FossilDecode eu.
Proof using.
  unfold parseLine. destruct (tokenizeCard line) as [|cmd args]; [done|].
  repeat match goal with |- (if ?b then _ else _) = _ -> _ => destruct b end; intros H;
    try (exfalso;
      first [ apply parseFile_not_login in H | apply parseCFile_not_login in H
            | apply parseUVFile_not_login in H | apply parseConfig_not_login in H ]; by apply H).
  4:{ destruct (parseControlCard cmd args) as [c|] eqn:E; [|done]. injection H as Hc <- <-.
      assert (c = LoginCard u n s t) as ->.
      { destruct c; cbn in Hc; try discriminate Hc; done. }
      apply parseControlCard_login in E as (-> & _ & eu & -> & ->). eauto. }
  all: exfalso; revert H; unfold parseSchema, parseXRow, parseXDelete; repeat case_match; try done; intros; ok_inv.
  all: repeat match goal with H : (if ?b then _ else _) = Ok _ |- _ => destruct b; ok_inv end; try done.
  all: repeat match goal with a : (_ * _)%type |- _ => destruct a end; simplify_eq.
Qed.

(** A line that makes the login card, and the input around it. *)
Definition login_line (r raw tail u n s : bytes) : Prop :=
  (exists pre, r = pre ++ raw ++ tail)
  /\ (exists eu, tokenizeCard (trim_right raw) = [bs "login"; eu; n; s] /\ u = FossilDecode eu)
  /\ ((exists l, raw = l ++ NL /\ x0a ∉ l) \/ tail = []).

Lemma login_line_after pre r raw tail u n s : login_line r raw tail u n s -> login_line (pre ++ r) raw tail u n s.
Proof using. intros ((p & ->) & H). split; [|done]. exists (pre ++ p). by rewrite app_assoc. Qed.

Lemma decode_loop_login fuel r b u n s t r' b' : decode_loop fuel r b = Ok (LoginCard u n s t, r', b') ->
  exists raw, login_line r raw r' u n s.
Proof using.
  revert r. induction fuel as [|f IH]; intros r; [done|]. cbn [decode_loop].
  destruct (ReadString r) as [[raw r1] eof] eqn:Er. apply ReadString_inv in Er as [-> He].
  destruct (eof && _); [done|]. destruct (_ || _).
  - destruct eof; [done|]. intros (raw' & H)%IH. exists raw'. by apply login_line_after.
  - intros (-> & Ht)%parseLine_login. exists raw. split; [by exists []|]. split; [done|].
    destruct eof; [right; tauto|left; tauto].
Qed.

(** The tail a decoded login card records. *)
Definition tail_recorded (data : bytes) (c : Card) : Prop :=
  match c with
  | LoginCard u n s t => exists raw tail, login_line data raw tail u n s /\ t = hex_encode (sha1_Sum tail)
  | _ => True
  end.

Lemma tail_recorded_after pre r c : tail_recorded r c -> tail_recorded (pre ++ r) c.
Proof using. destruct c; try done. intros (raw & tail & H & ->). exists raw, tail. split; [|done]. by apply login_line_after. Qed.

Lemma message_loop_tails fuel cards r b out : 0 <= b -> message_loop fuel cards r b = Ok out ->
  exists new, out = cards ++ new /\ Forall (tail_recorded r) new.
Proof using.
  revert cards r b. induction fuel as [|f IH]; intros cards r b Hb; [done|]. cbn [message_loop].
  destruct (decodeCard_ok r b Hb) as [Hs _].
  destruct (decodeCard r b) as [[[c r'] b']|e| |] eqn:Ed; try done.
  2:{ destruct e; try done. intros [= <-]. exists []. by rewrite app_nil_r. }
  destruct Hs as ((used & Hr) & _ & Hb' & _).
  assert (exists c', set_tail c r' = Ok c' /\ tail_recorded r c') as (c' & -> & Hc').
  { destruct c; cbn [set_tail]; try (eexists; split; [reflexivity|exact I]). eexists. split; [reflexivity|].
    unfold decodeCard in Ed. destruct (b <? 0); [done|]. apply decode_loop_login in Ed as (raw & H). exists raw, r'. by split. }
  cbn [obind]. destruct (is_bad_file c').
  - intros [= <-]. exists [c']. split; [done|by constructor].
  - intros (new & -> & Hn)%IH; [|done]. exists (c' :: new). rewrite <- app_assoc. split; [done|].
    constructor; [done|]. subst r. eapply Forall_impl; [exact Hn|]. intros. by apply tail_recorded_after.
Qed.

(** The nonce test of a decoded login card, against the input it was read from. *)
Lemma login_tail (data : bytes) (budget : Z) (m : Message) (u n s t : bytes) (Hb : 0 <= budget)
    (Hd : decodeMessage data budget = Ok m) (Hin : In (LoginCard u n s t) (m_Cards m)) :
  exists raw tail, login_line data raw tail u n s
    /\ (NonceCoversTail n t = true <-> n = hex_encode (sha1_Sum tail)).
Proof using.
  unfold decodeMessage in Hd. ok_inv. apply message_loop_tails in Hok as (new & -> & Hn); [|done].
  rewrite Forall_forall in Hn. apply list_elem_of_In in Hin. specialize (Hn _ Hin).
  destruct Hn as (raw & tail & Hl & ->). exists raw, tail. split; [done|].
  unfold NonceCoversTail. rewrite andb_true_iff, bytes_eqb_eq. split; [tauto|]. intros ->. split; [|done].
  apply negb_true_iff, bytes_eqb_neq. intros E. apply (f_equal len) in E.
  by rewrite hex_encode_len, sha1_Sum_len in E.
Qed.

(** For a login card in a decoded message, NonceCoversTail holds exactly
    when the nonce is the hex SHA-1 of every byte after the card's own line, up
    to the end of the message. *)
Theorem nonce_binds_tail (data : bytes) (budget : Z) (m : Message) (u n s t : bytes) (Hb : 0 <= budget)
    (Hd : decodeMessage data budget = Ok m) (Hin : In (LoginCard u n s t) (m_Cards m)) :
  exists raw tail, login_line data raw tail u n s
    /\ (NonceCoversTail n t = true <-> n = hex_encode (sha1_Sum tail)).
Proof using. by eapply login_tail. Qed.
End safety.

(** A request with a login card, a comment, a cfile card and a file line the
    body ends inside. *)
Definition hostile_request : bytes :=
  bs "login a\sb 0123 4567" ++ NL ++ bs "# r" ++ NL ++ bs "cfile 00 5 20" ++ NL ++ blob_format (bs "hello") ++ NL
  ++ bs "file 11 99" ++ NL ++ bs "igot 22" ++ NL.

Lemma decode_invariant_witness : exists m, decodeMessage hostile_request 100 = Ok m
  /\ length (m_Cards m) = 3%nat
  /\ Forall received_ok (m_Cards m) /\ total_inflated (m_Cards m) <= 100 /\ bad_file_last (m_Cards m) = true.
Proof.
  eexists. split; [vm_compute; reflexivity|]. split; [reflexivity|].
  apply (decode_invariant hostile_request 100); [lia|]. vm_compute. reflexivity.
Defined.

Lemma nonce_binds_tail_witness : exists t raw tail, login_line hostile_request raw tail (bs "a b") (bs "0123") (bs "4567")
  /\ (NonceCoversTail (bs "0123") t = true <-> bs "0123" = hex_encode (sha1_Sum tail)).
Proof.
  exists (hex_encode (sha1_Sum (drop 21 hostile_request))).
  eapply (nonce_binds_tail hostile_request 100); [lia|vm_compute; reflexivity|]. vm_compute. left. reflexivity.
Defined.
