(* ===== verification/XferRoundTrip.v ===== *)
(** * Cards read back as written

    A well-formed card is a line of tokens and a payload; the reader gives back
    the card as received ([received]) and leaves what followed it. *)

From S2P Require Import Prelude GoStd GoText GoCrypto Escape Pathname Zlib Hash XferCard XferDecode XferMessage XferLine XferTotal.

Definition int64b (z : Z) : bool := (- 2 ^ 63 <=? z) && (z <? 2 ^ 63).
Definition sizeb (z : Z) : bool := (0 <=? z) && (z <=? maxPayloadSize).
Definition nonempty (s : bytes) : bool := negb (bytes_eqb s []).
Definition opt_tokenb (t : bytes) : bool := bytes_eqb t [] || card_token t.
Definition valid_hashb (h : bytes) : bool :=
  match @IsValidHash xfer_error h with Ok b => b | _ => false end.

Section cards.
Context `{HZ : !Zlib} `{HG : !GoGrow}.

(** What a receiver needs of a cfile card: its payload is a frame-sized blob in
    on-disk form whose prefix is too small to be read as a zlib header, and its
    content is within what the declared size allows. *)
Definition cfile_wfb (d : bytes) (usize : Z) (content : bytes) (stored : option bytes) : bool :=
  let payload := cfilePayload content stored in
  let declared := if usize =? 0 then len content else usize in
  (len payload <=? maxPayloadSize) && (4 <? len payload) && sizeb declared
  && (len content <=? (if bytes_eqb d [] then declared else declared + declared / 2 + 64))
  && (len content <=? be_value (take 4 payload)) && (be_value (take 4 payload) <? 2 ^ 27)
  && match stored with
     | None => true
     | Some blob => match zlib_read (drop 4 blob) with
                    | Some z => z_clean z && bytes_eqb (z_out z) content
                    | None => false
                    end
     end.

(** Cards whose wire form a receiver reads back.  An unknown card is one only
    as a clone or clone_seqno line that degrades. *)
Definition card_wf (c : Card) : bool :=
  match c with
  | FileCard u d content => card_token u && opt_tokenb d && (len content <=? maxPayloadSize)
  | CFileCard u d usize content stored => card_token u && opt_tokenb d && cfile_wfb d usize content stored
  | IGotCard u _ | GimmeCard u => card_token u
  | LoginCard u n s _ => nonempty u && card_token n && card_token s
  | CommentCard t => forallb (fun c => negb (is_line_end c)) t
  | PushCard s p | PullCard s p => card_token s && card_token p
  | CookieCard v => card_token v
  | CloneCard v s d => int64b v && int64b s
      && (if negb d && (v =? 0) && (s =? 0) then true else Bool.eqb d (0 <=? s))
  | CloneSeqNoCard s _ => (0 <=? s) && (s <? 2 ^ 63)
  | ConfigCard n content => card_token n && (len content <=? maxPayloadSize)
  | ReqConfigCard n => card_token n
  | PrivateCard => true
  | UVFileCard n t h s f content =>
      nonempty n && StrictPathname n && (0 <=? t) && (t <? 2 ^ 63)
      && (bytes_eqb h (bs "-") || (card_token h && valid_hashb h)) && sizeb s && sizeb f
      && (if uvFileOmitsContent f then bytes_eqb content [] else len content =? s)
  | UVGimmeCard n => nonempty n
  | UVIGotCard n t h s => nonempty n && int64b t && card_token h && int64b s
  | PragmaCard n vs => card_token n && forallb card_token vs && (len vs <=? 4)
  | ErrorCard m _ | MessageCard m _ => nonempty m
  | UnknownCard c args _ =>
      match args with
      | [a] => bytes_eqb c (bs "clone_seqno") && card_token a && negb (isDecimal a)
      | [a; b] => bytes_eqb c (bs "clone") && card_token a && card_token b
          && match ParseInt a, ParseInt b with Some _, Some _ => false | _, _ => true end
      | _ => false
      end
  | BadCommandCard _ | BadFileCard _ => false
  | SchemaCard t v h m content => card_token t && int64b v && card_token h && int64b m && (len content <=? maxSchemaSize)
  | XIGotCard t k m => card_token t && card_token k && int64b m
  | XGimmeCard t k => card_token t && card_token k
  | XRowCard t k m content => card_token t && card_token k && int64b m && (len content <=? maxXRowSize)
  | XDeleteCard t k m content => card_token t && card_token k && int64b m && (len content <=? maxXDeleteSize)
  end.

(** The tokens of a card's line and the payload after it. *)
Definition wire_tokens (c : Card) : list bytes :=
  match c with
  | FileCard u d content => [bs "file"; u] ++ (if bytes_eqb d [] then [] else [d]) ++ [dec (len content)]
  | CFileCard u d usize content stored =>
      [bs "cfile"; u] ++ (if bytes_eqb d [] then [] else [d])
      ++ [dec (if usize =? 0 then len content else usize); dec (len (cfilePayload content stored))]
  | IGotCard u p => [bs "igot"; u] ++ (if p then [bs "1"] else [])
  | GimmeCard u => [bs "gimme"; u]
  | LoginCard u n s _ => [bs "login"; FossilEncode u; n; s]
  | CommentCard _ => []
  | PushCard s p => [bs "push"; s; p]
  | PullCard s p => [bs "pull"; s; p]
  | CookieCard v => [bs "cookie"; v]
  | CloneCard v s d => if negb d && (v =? 0) && (s =? 0) then [bs "clone"] else [bs "clone"; dec v; dec s]
  | CloneSeqNoCard s _ => [bs "clone_seqno"; dec s]
  | ConfigCard n content => [bs "config"; n; dec (len content)]
  | ReqConfigCard n => [bs "reqconfig"; n]
  | PrivateCard => [bs "private"]
  | UVFileCard n t h s f _ => [bs "uvfile"; FossilEncode n; dec t; h; dec s; dec f]
  | UVGimmeCard n => [bs "uvgimme"; FossilEncode n]
  | UVIGotCard n t h s => [bs "uvigot"; FossilEncode n; dec t; h; dec s]
  | PragmaCard n vs => bs "pragma" :: n :: vs
  | ErrorCard m _ => [bs "error"; FossilEncode m]
  | MessageCard m _ => [bs "message"; FossilEncode m]
  | UnknownCard c args _ => c :: args
  | BadCommandCard _ | BadFileCard _ => []
  | SchemaCard t v h m content => [bs "schema"; t; dec v; h; dec m; dec (len content)]
  | XIGotCard t k m => [bs "xigot"; t; k; dec m]
  | XGimmeCard t k => [bs "xgimme"; t; k]
  | XRowCard t k m content => [bs "xrow"; t; k; dec m; dec (len content)]
  | XDeleteCard t k m content => [bs "xdelete"; t; k; dec m; dec (len content)]
  end.

Definition wire_line (c : Card) : bytes := join_tokens (wire_tokens c) ++ NL.

(** The pad after a cfile payload: an empty line, which the reader skips. *)
Definition wire_pad (c : Card) : bytes :=
  match c with
  | CFileCard _ _ _ content stored =>
      let payload := cfilePayload content stored in
      if (len payload =? 0) || negb (at_is payload (len payload - 1) x0a) then NL else []
  | _ => []
  end.

Lemma pad_ok payload : or_else (Ok (len payload =? 0))
    (let? b := byte_is payload (len payload - 1) x0a in Ok (negb b))
  = (Ok ((len payload =? 0) || negb (at_is payload (len payload - 1) x0a)) : xresult bool).
Proof.
  unfold or_else. cbn [obind]. destruct (Z.eqb_spec (len payload) 0); [done|].
  pose proof (len_nonneg payload). by rewrite byte_is_ok by lia.
Qed.

Definition wire_payload (c : Card) : bytes :=
  match c with
  | FileCard _ _ content => content
  | CFileCard _ _ _ content stored => cfilePayload content stored
  | ConfigCard _ content | SchemaCard _ _ _ _ content | XRowCard _ _ _ content | XDeleteCard _ _ _ content => content ++ NL
  | UVFileCard _ _ _ _ f content => if negb (uvFileOmitsContent f) then content else []
  | _ => []
  end.

(** The card as the reader builds it. *)
Definition received (c : Card) : Card :=
  match c with
  | CFileCard u d usize content stored =>
      CFileCard u d (if usize =? 0 then len content else usize) content (Some (cfilePayload content stored))
  | LoginCard u n s _ => LoginCard u n s []
  | CloneSeqNoCard s _ => CloneSeqNoCard s (wire_line c)
  | ErrorCard m _ => ErrorCard m (wire_line c)
  | MessageCard m _ => MessageCard m (wire_line c)
  | UnknownCard cmd args _ => UnknownCard cmd args (wire_line c)
  | _ => c
  end.

Definition is_comment (c : Card) : bool := match c with CommentCard _ => true | _ => false end.

(** ** The writer writes that line and payload *)
Lemma spaced_bind l : (l ≫= (fun a => SP ++ a)) = spaced l.
Proof using. induction l as [|a l IH]; [done|]. change ((a :: l) ≫= ?f) with (f a ++ (l ≫= f)). rewrite IH. cbn [spaced]. by rewrite <- app_assoc. Qed.

Lemma tokenb_nonempty t : card_token t = true -> bytes_eqb t [] = false.
Proof using. unfold card_token. intros [H _]%andb_true_iff. by apply negb_true_iff in H. Qed.

Ltac wire_shape :=
  unfold wire_line; cbn [wire_tokens app join_tokens spaced wire_payload wire_pad];
  rewrite ?app_nil_r; repeat rewrite <- app_assoc; reflexivity.

Lemma EncodeCard_wire c : card_wf c = true -> is_comment c = false ->
  EncodeCard c = Ok (wire_line c ++ wire_payload c ++ wire_pad c).
Proof using.
  intros Hwf Hc. destruct c; try discriminate Hc; try discriminate Hwf; cbn [EncodeCard card_wf] in *.
  all: repeat match goal with H : (_ && _) = true |- _ => apply andb_true_iff in H; destruct H end.
  all: try (unfold encodePush, encodePull, encodeXIGot, encodeXGimme, encodeXRow, encodeXDelete;
    repeat match goal with H : card_token _ = true |- _ => apply tokenb_nonempty in H end;
    repeat match goal with H : bytes_eqb _ [] = false |- _ => rewrite H; clear H end).
  all: try (f_equal; wire_shape).
  - unfold encodeFile, wire_line. cbn [wire_tokens]. destruct (bytes_eqb DeltaSrc []); f_equal; wire_shape.
  - unfold encodeCFile, wire_line. cbv zeta. rewrite pad_ok. cbn [obind]. cbn [wire_tokens]. destruct (bytes_eqb DeltaSrc []); f_equal; wire_shape.
  - unfold encodeIGot, wire_line. cbn [wire_tokens]. destruct IsPrivate; f_equal; wire_shape.
  - unfold encodeClone, wire_line. cbn [wire_tokens]. destruct (negb _ && _ && _); f_equal; wire_shape.
Qed.

(** ** Every piece of the line is a token *)
Lemma FossilEncode_card_token s : nonempty s = true -> card_token (FossilEncode s) = true.
Proof using.
  intros Hs. unfold card_token. apply andb_true_iff. split.
  - apply negb_true_iff, bytes_eqb_neq. intros E. apply (encode_nil_inv encode_byte) in E. subst s. done.
  - rewrite forallb_forall. intros c Hc. pose proof (FossilEncode_no_space s) as H. rewrite Forall_forall in H.
    apply list_elem_of_In, H in Hc. revert Hc. by_bytes c.
Qed.

Lemma dec_nat_card_token n : 0 <= n -> card_token (dec_nat n) = true.
Proof using.
  intros Hn. unfold card_token. apply andb_true_iff. split.
  - apply negb_true_iff, bytes_eqb_neq, dec_nat_nonempty.
  - rewrite forallb_forall. intros c Hc. pose proof (dec_nat_digits n Hn) as H. rewrite Forall_forall in H.
    apply list_elem_of_In, H in Hc. revert Hc. by_bytes c.
Qed.

Lemma dec_card_token z : card_token (dec z) = true.
Proof using.
  unfold dec. destruct (z <? 0) eqn:E; zbool; [|by apply dec_nat_card_token].
  assert (card_token (dec_nat (- z)) = true) as H by (apply dec_nat_card_token; lia).
  unfold card_token in *. apply andb_true_iff in H as [_ H]. apply andb_true_iff. split; [done|].
  cbn [forallb]. by rewrite H.
Qed.

Ltac split_wf :=
  repeat match goal with H : (_ && _) = true |- _ => apply andb_true_iff in H; destruct H end.

Ltac tokens :=
  repeat (apply Forall_cons; split);
  first [ apply Forall_nil; exact I | apply FossilEncode_card_token; assumption | apply dec_card_token
        | assumption | reflexivity | idtac ].

Lemma wire_tokens_ok c : card_wf c = true -> is_comment c = false ->
  exists cmd args, wire_tokens c = cmd :: args /\ Forall (fun t => card_token t = true) (cmd :: args)
  /\ (length args <= 5)%nat /\ HasPrefix cmd (bs "#") = false.
Proof using.
  intros Hwf Hc. destruct c; try discriminate Hc; try discriminate Hwf; cbn [card_wf] in Hwf; split_wf;
    cbn [wire_tokens].
  all: try (eexists _, _; split; [reflexivity|]; split; [tokens|]; split; [cbn; lia|reflexivity]).
  - unfold opt_tokenb in *. destruct (bytes_eqb DeltaSrc []); cbn [app orb] in *;
      (eexists _, _; split; [reflexivity|]; split; [tokens|]; split; [cbn; lia|reflexivity]).
  - unfold opt_tokenb in *. destruct (bytes_eqb DeltaSrc []); cbn [app orb] in *;
      (eexists _, _; split; [reflexivity|]; split; [tokens|]; split; [cbn; lia|reflexivity]).
  - destruct IsPrivate; cbn [app];
      (eexists _, _; split; [reflexivity|]; split; [tokens|]; split; [cbn; lia|reflexivity]).
  - destruct (negb SeqNoIsDecimal && (Version =? 0) && (SeqNo =? 0));
      (eexists _, _; split; [reflexivity|]; split; [tokens|]; split; [cbn; lia|reflexivity]).
  - eexists _, _. split; [reflexivity|]. split; [tokens|split; [cbn; lia|reflexivity]].
    match goal with H : (bytes_eqb Hash _ || _) = true |- _ => apply orb_true_iff in H as [H|H] end.
    + by match goal with H : bytes_eqb Hash _ = true |- _ => apply bytes_eqb_eq in H as -> end.
    + by split_wf.
  - eexists _, _. split; [reflexivity|]. split; [|split; [|reflexivity]].
    + constructor; [done|]. constructor; [done|]. apply Forall_forall. intros x Hx.
      match goal with H : forallb _ Values = true |- _ => rewrite forallb_forall in H; apply H end.
      by apply list_elem_of_In.
    + zbool. unfold len in *. cbn [length]. lia.
  - destruct Args as [|a [|b [|]]]; try discriminate; split_wf; zbool;
      match goal with H : bytes_eqb Command _ = true |- _ => apply bytes_eqb_eq in H as -> end;
      (eexists _, _; split; [reflexivity|]; split; [tokens|]; split; [cbn; lia|reflexivity]).
Qed.

(** ** The reader *)
Lemma at_is_line l : at_is (l ++ NL) (len (l ++ NL) - 1) x0a = true.
Proof using.
  rewrite len_app. replace (len l + len NL - 1) with (len l + 0) by (change (len NL) with 1; lia).
  by rewrite at_is_app_r.
Qed.

(** The commands [parseLine] reads itself. *)
Definition payload_cmd (cmd : bytes) : bool :=
  is_cmd cmd "file" || is_cmd cmd "cfile" || is_cmd cmd "uvfile" || is_cmd cmd "config" || is_cmd cmd "schema"
  || is_cmd cmd "xrow" || is_cmd cmd "xdelete".

Lemma parseLine_control r raw line b cmd args c : tokenizeCard line = cmd :: args -> payload_cmd cmd = false ->
  parseControlCard cmd args = Some c -> parseLine r raw line b = Ok (keepRawLine c raw, r, b).
Proof using.
  unfold parseLine, payload_cmd. intros -> Hp Hc. rewrite !orb_false_iff in Hp.
  destruct Hp as [[[[[[-> ->] ->] ->] ->] ->] ->]. by rewrite Hc.
Qed.

Lemma ParseInt_dec_b z : int64b z = true -> ParseInt (dec z) = Some z.
Proof using. unfold int64b. intros H. zbool. by apply ParseInt_dec. Qed.

Lemma parse_int_dec z : int64b z = true -> parse_int (dec z) = Ok z.
Proof using. unfold parse_int. intros H. by rewrite ParseInt_dec_b. Qed.

Lemma isDecimal_dec_b s : isDecimal (dec s) = (0 <=? s).
Proof using.
  destruct (0 <=? s) eqn:E; zbool; [by apply isDecimal_dec|by apply isDecimal_dec_neg].
Qed.

Lemma keepRawLine_line c l : keepRawLine c (l ++ NL) =
  match c with
  | CloneSeqNoCard s _ => CloneSeqNoCard s (l ++ NL)
  | ErrorCard m _ => ErrorCard m (l ++ NL)
  | MessageCard m _ => MessageCard m (l ++ NL)
  | UnknownCard cmd a _ => UnknownCard cmd a (l ++ NL)
  | _ => c
  end.
Proof using. unfold keepRawLine. by rewrite at_is_line. Qed.

(** A card without payload is parsed from its tokens. *)
Definition control_ok (c : Card) : Prop :=
  exists c0 cmd args, wire_tokens c = cmd :: args /\ payload_cmd cmd = false
    /\ parseControlCard cmd args = Some c0 /\ keepRawLine c0 (wire_line c) = received c
    /\ wire_payload c = [] /\ inflated_bytes (received c) = 0.

Ltac control :=
  eexists _, _, _; split; [reflexivity|]; split; [reflexivity|]; split; [reflexivity|];
  split; [unfold wire_line; rewrite keepRawLine_line; cbn [received]; rewrite ?FossilDecode_Encode; reflexivity|by split].

Lemma clone_ok v s d : card_wf (CloneCard v s d) = true -> control_ok (CloneCard v s d).
Proof using.
  cbn [card_wf]. intros Hwf. split_wf. unfold control_ok. cbn [wire_tokens].
  destruct (negb d && (v =? 0) && (s =? 0)) eqn:E.
  - apply andb_true_iff in E as [E E2]. apply andb_true_iff in E as [E E1]. zbool. subst. control.
  - eexists (CloneCard v s d), _, _. split; [reflexivity|]. split; [reflexivity|]. split.
    + change (parseClone [dec v; dec s] = Some (CloneCard v s d)). unfold parseClone.
      rewrite !ParseInt_dec_b, isDecimal_dec_b by done.
      match goal with H : Bool.eqb d _ = true |- _ => apply Bool.eqb_prop in H as -> end. done.
    + split; [by unfold wire_line; rewrite keepRawLine_line|done].
Qed.

Lemma unknown_ok cmd args raw : card_wf (UnknownCard cmd args raw) = true -> control_ok (UnknownCard cmd args raw).
Proof using.
  cbn [card_wf]. intros Hwf. destruct args as [|a [|b [|]]]; try discriminate; split_wf;
    match goal with H : bytes_eqb cmd _ = true |- _ => apply bytes_eqb_eq in H as -> end.
  - eexists (UnknownCard (bs "clone_seqno") [a] []), _, _. split; [reflexivity|]. split; [reflexivity|]. split; [|split;
      [unfold wire_line; rewrite keepRawLine_line; reflexivity|by split]].
    change (parseCloneSeqNo [a] = Some (UnknownCard (bs "clone_seqno") [a] [])). unfold parseCloneSeqNo.
    match goal with H : negb (isDecimal a) = true |- _ => by rewrite H end.
  - eexists (UnknownCard (bs "clone") [a; b] []), _, _. split; [reflexivity|]. split; [reflexivity|]. split; [|split;
      [unfold wire_line; rewrite keepRawLine_line; reflexivity|by split]].
    change (parseClone [a; b] = Some (UnknownCard (bs "clone") [a; b] [])). unfold parseClone.
    by destruct (ParseInt a), (ParseInt b).
Qed.

Lemma control_roundtrip c : card_wf c = true -> is_comment c = false ->
  control_ok c \/ match wire_tokens c with cmd :: _ => payload_cmd cmd = true | [] => False end.
Proof using.
  intros Hwf Hc. destruct c; try discriminate Hc; try discriminate Hwf; try (right; reflexivity); left;
    try (by apply clone_ok); try (by apply unknown_ok); cbn [card_wf] in Hwf; split_wf; unfold control_ok; cbn [wire_tokens].
  all: try control.
  - destruct IsPrivate; control.
  - eexists (CloneSeqNoCard SeqNo []), _, _. split; [reflexivity|]. split; [reflexivity|]. split; [|split;
      [unfold wire_line; rewrite keepRawLine_line; reflexivity|by split]].
    change (parseCloneSeqNo [dec SeqNo] = Some (CloneSeqNoCard SeqNo [])). unfold parseCloneSeqNo, Atoi_value.
    zbool. rewrite isDecimal_dec, ParseInt_dec by lia. done.
  - eexists (UVIGotCard Name MTime Hash Size), _, _. split; [reflexivity|]. split; [reflexivity|]. split; [|split;
      [unfold wire_line; rewrite keepRawLine_line; reflexivity|by split]].
    change (parseUVIGot [FossilEncode Name; dec MTime; Hash; dec Size] = Some (UVIGotCard Name MTime Hash Size)).
    unfold parseUVIGot. by rewrite !ParseInt_dec_b, FossilDecode_Encode by done.
  - eexists (XIGotCard Table PKHash MTime), _, _. split; [reflexivity|]. split; [reflexivity|]. split; [|split;
      [unfold wire_line; rewrite keepRawLine_line; reflexivity|by split]].
    change (parseXIGot [Table; PKHash; dec MTime] = Some (XIGotCard Table PKHash MTime)).
    unfold parseXIGot. by rewrite !ParseInt_dec_b by done.
Qed.

(** ** Payload cards *)

Lemma small_prefix_not_zlib data : 4 < len data -> be_value (take 4 data) < 2 ^ 27 -> zlib_read data = None.
Proof using.
  intros Hl Hv. destruct data as [|b0 [|b1 [|b2 [|b3 data]]]]; try (unfold len in Hl; cbn in Hl; lia).
  cbn [take] in Hv. rewrite take_0 in Hv. unfold be_value in Hv. cbn [rev app le_value] in Hv.
  pose proof (bz_range b0). pose proof (bz_range b1). pose proof (bz_range b2). pose proof (bz_range b3).
  cbn [zlib_read]. assert (negb (Z.land (bz b0) 15 =? 8) = true) as ->; [|done].
  assert ((bz b0 <? 8) = true) as Hb by (apply Z.ltb_lt; lia). revert Hb. clear. by_bytes b0.
Qed.

Lemma inflateBounded_clean data content limit : zlib_read data = Some (mk_zstream content true) ->
  len content <= limit -> inflateBounded data limit = Inflated content.
Proof using.
  intros Hz Hl. unfold inflateBounded, read_limited. rewrite Hz. cbn [z_out z_clean].
  rewrite (proj2 (Z.ltb_ge _ _)) by lia. by rewrite Z.gtb_ltb, (proj2 (Z.ltb_ge _ _)) by lia.
Qed.

Lemma decompress_on_disk payload content limit : 4 < len payload -> be_value (take 4 payload) < 2 ^ 27 ->
  on_disk_form payload content -> len content <= limit ->
  decompressCFile payload limit = Ok (content, payload).
Proof using.
  intros Hl Hp [Hz Hc] Hlim. unfold decompressCFile.
  assert (inflateBounded payload limit = NotInflated false) as ->.
  { unfold inflateBounded. by rewrite small_prefix_not_zlib. }
  rewrite Z.gtb_ltb, (proj2 (Z.ltb_lt _ _)), slice_head, slice_tail by lia. cbn [obind]. change (Z.to_nat 4) with 4%nat.
  by rewrite (inflateBounded_clean _ content) by (done || lia).
Qed.

Lemma cfile_wf_payload d usize content stored : cfile_wfb d usize content stored = true ->
  on_disk_form (cfilePayload content stored) content.
Proof using.
  unfold cfile_wfb. intros H. split_wf. zbool. unfold on_disk_form. split; [|done].
  destruct stored as [blob|]; cbn [cfilePayload] in *.
  - match goal with H : match zlib_read _ with _ => _ end = true |- _ =>
      destruct (zlib_read (drop 4 blob)) as [[out clean]|]; [|done]; cbn in H; apply andb_true_iff in H as [-> H];
      apply bytes_eqb_eq in H as -> end. done.
  - unfold blob_format. change 4%nat with (length (be_bytes 4 (u32 (len content)))) at 1.
    rewrite drop_app_length. apply zlib_Write_read.
Qed.

Lemma parseCFile_wire u d usize content stored r b : 0 <= b -> len content <= b ->
  cfile_wfb d usize content stored = true ->
  let declared := if usize =? 0 then len content else usize in
  let payload := cfilePayload content stored in
  forall args, args = [u] ++ (if bytes_eqb d [] then [] else [d]) ++ [dec declared; dec (len payload)] ->
  parseCFile (payload ++ r) args b = Ok (CFileCard u d declared content (Some payload), r, b - len content).
Proof using.
  intros Hb Hcb Hwf declared payload args ->. pose proof (cfile_wf_payload _ _ _ _ Hwf) as Hdisk. fold payload in Hdisk.
  unfold cfile_wfb in Hwf. cbv zeta in Hwf. fold payload declared in Hwf. split_wf. zbool.
  assert (0 <= declared <= maxPayloadSize) as Hd by (unfold sizeb in *; zbool; lia).
  assert (Hgo : on_err (parseSize (dec declared)) (fun _ => Ok (malformed_cfile, payload ++ r, b)) (fun usize =>
     on_err (parseSize (dec (len payload))) (fun _ => Ok (malformed_cfile, payload ++ r, b)) (fun csize =>
     payload_or malformed_cfile "xfer: cfile payload: %w" (readPayload (payload ++ r) csize) (fun compressed r =>
      let? l := cfileInflateLimit usize (negb (bytes_eqb d [])) in
      let? (decompressed, storedBlob) := decompressCFile compressed (Z.min l b) in
      Ok (CFileCard u d usize decompressed (Some storedBlob), r, b - len decompressed)) b))
    = Ok (CFileCard u d declared content (Some payload), r, b - len content)).
  { pose proof (len_nonneg payload). do 2 (rewrite parseSize_dec by lia; cbn [on_err]). unfold payload_or.
    rewrite readPayload_app by lia. cbn [on_err]. destruct (cfileInflateLimit_spec declared (negb (bytes_eqb d [])) Hd) as [-> _].
    cbn [obind]. rewrite (decompress_on_disk payload content); [done|lia|lia|done|].
    destruct (bytes_eqb d []); cbn [negb]; lia. }
  clearbody declared payload. unfold parseCFile. destruct (bytes_eqb d []) eqn:Ed in |- *; cbn [app].
  - apply bytes_eqb_eq in Ed. subst d. exact Hgo.
  - exact Hgo.
Qed.

Lemma parseFile_wire u d content r b : len content <= maxPayloadSize ->
  parseFile (content ++ r) ([u] ++ (if bytes_eqb d [] then [] else [d]) ++ [dec (len content)]) b
  = Ok (FileCard u d content, r, b).
Proof using.
  intros Hl. pose proof (len_nonneg content). unfold parseFile.
  destruct (bytes_eqb d []) eqn:Ed; cbn [app]; rewrite parseSize_dec by lia; cbn [on_err]; unfold payload_or;
    rewrite readPayload_app by lia; cbn [on_err]; [apply bytes_eqb_eq in Ed; by subst d|done].
Qed.

Lemma parseUVFile_wire n t h s f content r b :
  card_wf (UVFileCard n t h s f content) = true ->
  parseUVFile (wire_payload (UVFileCard n t h s f content) ++ r) [FossilEncode n; dec t; h; dec s; dec f] b
  = Ok (UVFileCard n t h s f content, r, b).
Proof using.
  cbn [card_wf wire_payload]. unfold sizeb. intros Hwf. split_wf. zbool. unfold parseUVFile. cbv zeta.
  rewrite FossilDecode_Encode. match goal with H : StrictPathname n = true |- _ => rewrite H end. cbn [negb].
  assert ((if bytes_eqb h (bs "-") then Ok false else let? ok := @IsValidHash xfer_error h in Ok (negb ok)) = Ok false) as ->.
  { match goal with H : _ \/ _ |- _ => destruct H as [->|H]; [done|] end.
    destruct (bytes_eqb h (bs "-")); [done|]. split_wf. unfold valid_hashb in *. by destruct (IsValidHash h) as [[]| | |]. }
  cbn [obind]. rewrite ParseInt_dec by lia. rewrite (proj2 (Z.ltb_ge _ _)) by lia.
  do 2 (rewrite parseSize_dec by lia; cbn [on_err]). destruct (uvFileOmitsContent f); cbn [negb app].
  - match goal with H : bytes_eqb content [] = true |- _ => apply bytes_eqb_eq in H as -> end. done.
  - zbool. subst s. unfold payload_or. rewrite readPayload_app by lia. done.
Qed.

Ltac size_wf := zbool; unfold maxSchemaSize, maxXRowSize, maxXDeleteSize, maxPayloadSize in *; change (Z.shiftl 64 20) with 67108864 in *; lia.

(** Each payload card, from its tokens. *)
Lemma payload_roundtrip c raw line rest b cmd args :
  card_wf c = true -> 0 <= b -> inflated_bytes (received c) <= b ->
  wire_tokens c = cmd :: args -> payload_cmd cmd = true -> tokenizeCard line = cmd :: args ->
  parseLine (wire_payload c ++ rest) raw line b = Ok (received c, rest, b - inflated_bytes (received c)).
Proof using.
  intros Hwf Hb Hi Hw Hp Ht. unfold parseLine. rewrite Ht.
  destruct c; try discriminate Hwf; cbn [wire_tokens] in Hw.
  all: try (injection Hw as <- <-; discriminate Hp).
  all: cbn [inflated_bytes received] in *; rewrite ?Z.sub_0_r.
  - injection Hw as <- <-. change (parseFile (Content ++ rest) ([UUID] ++ (if bytes_eqb DeltaSrc [] then [] else [DeltaSrc]) ++ [dec (len Content)]) b
      = Ok (FileCard UUID DeltaSrc Content, rest, b)).
    apply parseFile_wire. cbn [card_wf] in Hwf. split_wf. size_wf.
  - injection Hw as <- <-. cbn [card_wf] in Hwf. split_wf. cbn [wire_payload].
    by apply parseCFile_wire.
  - discriminate Hw.
  - destruct (negb SeqNoIsDecimal && (Version =? 0) && (SeqNo =? 0)); injection Hw as <- <-; discriminate Hp.
  - injection Hw as <- <-. change (parseConfig ((Content ++ NL) ++ rest) raw [Name; dec (len Content)] b
      = Ok (ConfigCard Name Content, rest, b)). cbn [card_wf] in Hwf. split_wf. zbool.
    pose proof (len_nonneg Content). unfold parseConfig. rewrite parseSize_dec by lia. cbn [on_err].
    rewrite <- app_assoc, readPayload_app by lia. done.
  - injection Hw as <- <-. change (parseUVFile (wire_payload (UVFileCard Name MTime Hash Size Flags Content) ++ rest)
      [FossilEncode Name; dec MTime; Hash; dec Size; dec Flags] b = Ok (UVFileCard Name MTime Hash Size Flags Content, rest, b)).
    by apply parseUVFile_wire.
  - exfalso. injection Hw as -> ->. cbn [card_wf] in Hwf. destruct args as [|x [|y [|]]]; try discriminate Hwf;
      split_wf; match goal with H : bytes_eqb cmd _ = true |- _ => apply bytes_eqb_eq in H as -> end; discriminate Hp.
  - injection Hw as <- <-. change (parseSchema ((Content ++ NL) ++ rest) [Table; dec Version; Hash; dec MTime; dec (len Content)] b
      = Ok (SchemaCard Table Version Hash MTime Content, rest, b)). cbn [card_wf] in Hwf. split_wf.
    pose proof (len_nonneg Content). unfold parseSchema. rewrite !parse_int_dec by done. cbn [wrap_err obind].
    rewrite parseSize_dec by size_wf. cbn [wrap_err obind]. rewrite Z.gtb_ltb, (proj2 (Z.ltb_ge _ _)) by size_wf.
    rewrite <- app_assoc, readPayloadNL_app by size_wf. done.
  - injection Hw as <- <-. change (parseXRow ((Content ++ NL) ++ rest) [Table; PKHash; dec MTime; dec (len Content)] b
      = Ok (XRowCard Table PKHash MTime Content, rest, b)). cbn [card_wf] in Hwf. split_wf.
    pose proof (len_nonneg Content). unfold parseXRow. rewrite !parse_int_dec by done. cbn [wrap_err obind].
    rewrite parseSize_dec by size_wf. cbn [wrap_err obind]. rewrite Z.gtb_ltb, (proj2 (Z.ltb_ge _ _)) by size_wf.
    rewrite <- app_assoc, readPayloadNL_app by size_wf. done.
  - injection Hw as <- <-. change (parseXDelete ((PKData ++ NL) ++ rest) [Table; PKHash; dec MTime; dec (len PKData)] b
      = Ok (XDeleteCard Table PKHash MTime PKData, rest, b)). cbn [card_wf] in Hwf. split_wf.
    pose proof (len_nonneg PKData). unfold parseXDelete. rewrite !parse_int_dec by done. cbn [wrap_err obind].
    rewrite parseSize_dec by size_wf. cbn [wrap_err obind]. rewrite Z.gtb_ltb, (proj2 (Z.ltb_ge _ _)) by size_wf.
    rewrite <- app_assoc, readPayloadNL_app by size_wf. done.
Qed.

Lemma card_roundtrip c rest b : card_wf c = true -> is_comment c = false ->
  0 <= b -> inflated_bytes (received c) <= b ->
  decodeCard (wire_line c ++ wire_payload c ++ rest) b = Ok (received c, rest, b - inflated_bytes (received c)).
Proof using.
  intros Hwf Hc Hb Hi. destruct (wire_tokens_ok c Hwf Hc) as (cmd & args & Hw & Ht & Hl & Hh).
  destruct (decodeCard_line cmd args (wire_payload c ++ rest) b Hb Ht Hl Hh) as [H1 H2]. rewrite <- Hw in H1.
  unfold wire_line at 1. rewrite <- app_assoc. rewrite H1. rewrite <- Hw in H2.
  destruct (control_roundtrip c Hwf Hc) as [(c0 & cmd' & args' & Hw' & Hp & Hpc & Hk & Hpl & Hi0)|Hp].
  - rewrite Hpl, Hi0, Z.sub_0_r. cbn [app]. rewrite <- Hk. rewrite Hw' in H2 at 2.
    exact (parseLine_control _ _ _ _ _ _ _ H2 Hp Hpc).
  - rewrite Hw in Hp. rewrite Hw in H2 at 2. exact (payload_roundtrip c _ _ rest b cmd args Hwf Hb Hi Hw Hp H2).
Qed.
End cards.
