(* ===== verification/XferMessageCorrect.v ===== *)
(** * Messages read back as sent

    The card sequence through the plain framing and through the compressed
    container, and the login card through the cookie. *)

From S2P Require Import Prelude GoStd GoText GoCrypto Escape Pathname Zlib Hash XferCard XferDecode XferMessage XferLine XferTotal XferRoundTrip.

Section message.
Context `{HZ : !Zlib} `{HG : !GoGrow}.

Definition wire_card (c : Card) : bytes :=
  match c with
  | CommentCard t => bs "# " ++ t ++ NL
  | _ => wire_line c ++ wire_payload c ++ wire_pad c
  end.

Definition wire (cards : list Card) : bytes := cards ≫= wire_card.

(** Decoding records what followed a login card. *)
Definition with_tail (c : Card) (tail : bytes) : Card :=
  match c with
  | LoginCard u n s _ => LoginCard u n s (hex_encode (sha1_Sum tail))
  | _ => c
  end.

(** The cards a receiver gets: comments are dropped. *)
Fixpoint received_cards (cards : list Card) : list Card :=
  match cards with
  | [] => []
  | c :: cs => if is_comment c then received_cards cs
               else with_tail (received c) (wire_pad c ++ wire cs) :: received_cards cs
  end.

Lemma EncodeCard_wire_card c : card_wf c = true -> EncodeCard c = Ok (wire_card c).
Proof using.
  intros Hwf. destruct (is_comment c) eqn:Ec.
  2:{ rewrite EncodeCard_wire by done. by destruct c. }
  destruct c; try done. cbn [EncodeCard card_wf wire_card] in *. unfold encodeComment.
  rewrite forallb_forall in Hwf.
  assert (forall b, is_line_end b = true -> bool_decide (b ∈ Text) = false) as Hn.
  { intros b Hb. apply bool_decide_eq_false. intros Hin%list_elem_of_In%Hwf. by rewrite Hb in Hin. }
  by rewrite !Hn.
Qed.

Lemma encode_loop_wire buf cards : forallb card_wf cards = true -> encode_loop buf cards = Ok (buf ++ wire cards).
Proof using.
  revert buf. induction cards as [|c cs IH]; intros buf; [by rewrite app_nil_r|].
  cbn [forallb encode_loop]. intros [Hc Hcs]%andb_true_iff. rewrite EncodeCard_wire_card by done.
  cbn [wrap_err obind]. rewrite IH by done. unfold wire. by rewrite bind_cons, app_assoc.
Qed.

Lemma EncodeUncompressed_wire m : forallb card_wf (m_Cards m) = true -> EncodeUncompressed m = Ok (wire (m_Cards m)).
Proof using. intros H. unfold EncodeUncompressed. by rewrite encode_loop_wire. Qed.

Lemma message_loop_skip fuel acc line r b : 0 <= b -> Forall (fun c => is_line_end c = false) line ->
  line = [] \/ HasPrefix line (bs "#") = true ->
  message_loop fuel acc (line ++ NL ++ r) b = message_loop fuel acc r b.
Proof using. intros Hb Hn Hl. destruct fuel as [|f]; [done|]. cbn [message_loop]. by rewrite decodeCard_skip. Qed.

Lemma comment_line t : forallb (fun c => negb (is_line_end c)) t = true ->
  Forall (fun c => is_line_end c = false) (bs "# " ++ t).
Proof using.
  rewrite forallb_forall. intros H. apply Forall_app. split; [by repeat constructor|].
  apply Forall_forall. intros c Hc%list_elem_of_In%H. by apply negb_true_iff in Hc.
Qed.

Lemma set_tail_with_tail c tail : set_tail c tail = Ok (with_tail c tail).
Proof using. by destruct c. Qed.

Lemma wf_not_bad c tail : card_wf c = true -> is_bad_file (with_tail (received c) tail) = false.
Proof using. by destruct c. Qed.

Lemma wire_pad_cases c : wire_pad c = [] \/ wire_pad c = NL.
Proof using. destruct c; cbn; auto. destruct (_ || _); auto. Qed.

Lemma message_loop_wire cards : forall fuel acc pad b, forallb card_wf cards = true ->
  pad = [] \/ pad = NL -> (length (wire cards) < fuel)%nat -> total_inflated (map received cards) <= b ->
  0 <= b -> message_loop fuel acc (pad ++ wire cards) b = Ok (acc ++ received_cards cards).
Proof using.
  induction cards as [|c cs IH]; intros fuel acc pad b Hwf Hpad Hf Ht Hb.
  all: assert (message_loop fuel acc (pad ++ ?[x]) b = message_loop fuel acc ?x b) as ->
    by (destruct Hpad as [-> | ->]; [done|]; by apply (message_loop_skip _ _ []); [..|constructor|left]).
  { destruct fuel as [|f]; [lia|]. cbn [message_loop]. unfold wire. cbn. unfold decodeCard.
    rewrite (proj2 (Z.ltb_ge _ _)) by lia. cbn. by rewrite app_nil_r. }
  cbn [forallb] in Hwf. apply andb_true_iff in Hwf as [Hc Hcs].
  unfold wire in Hf |- *. rewrite bind_cons in Hf |- *. fold (wire cs) in Hf |- *. rewrite length_app in Hf.
  cbn [map total_inflated fold_right] in Ht. fold (total_inflated (map received cs)) in Ht.
  assert (0 <= total_inflated (map received cs)) as Hnn.
  { clear. induction cs as [|c cs IH]; cbn [map total_inflated fold_right]; [lia|].
    fold (total_inflated (map received cs)). assert (0 <= inflated_bytes (received c)); [|lia].
    destruct c; cbn; try lia; apply len_nonneg. }
  cbn [received_cards]. destruct (is_comment c) eqn:Ec.
  - destruct c; try done. cbn [wire_card card_wf] in *.
    rewrite <- !app_assoc. rewrite (app_assoc (bs "# ")), message_loop_skip; [|done|by apply comment_line|by right].
    rewrite <- (IH fuel acc [] b); [done|done|by left|lia| |done]. cbn in Ht. lia.
  - assert (wire_card c = wire_line c ++ wire_payload c ++ wire_pad c) as Hw by by destruct c.
    rewrite Hw, <- !app_assoc. assert (0 <= inflated_bytes (received c)).
    { destruct c; cbn; try lia; apply len_nonneg. }
    destruct fuel as [|f]; [lia|]. cbn [message_loop]. rewrite card_roundtrip by (done || lia).
    rewrite set_tail_with_tail. cbn [obind]. rewrite wf_not_bad by done.
    rewrite IH; [by rewrite <- app_assoc|done|apply wire_pad_cases| |lia|lia].
    assert (1 <= length (wire_card c))%nat; [|lia]. rewrite Hw. unfold wire_line. rewrite !length_app. cbn [NL length]. lia.
Qed.

Lemma DecodeUncompressed_wire cards : forallb card_wf cards = true ->
  total_inflated (map received cards) <= MaxCFileInflateBytes ->
  DecodeUncompressed (wire cards) = Ok (cards_message (received_cards cards)).
Proof using.
  intros Hwf Ht. unfold DecodeUncompressed, decodeMessage.
  rewrite (message_loop_wire cards _ [] []); [done|done|by left|lia|done|done].
Qed.

(** C3: a message of well-formed cards encodes, and the decoder reads back
    exactly these cards in order, comments dropped, each login card with the
    hash of what followed it; whatever precedes a card, and whatever bytes its
    payload holds, the next card is found where it starts. *)
Theorem message_roundtrip (m : Message) (Hwf : forallb card_wf (m_Cards m) = true)
    (Hb : total_inflated (map received (m_Cards m)) <= MaxCFileInflateBytes) :
  exists raw, EncodeUncompressed m = Ok raw
    /\ DecodeUncompressed raw = Ok (cards_message (received_cards (m_Cards m))).
Proof using.
  exists (wire (m_Cards m)). split; [by apply EncodeUncompressed_wire|by apply DecodeUncompressed_wire].
Qed.

(** ** The container *)
Lemma decompressContainer_encoded raw :
  decompressContainer (be_bytes 4 (u32 (len raw)) ++ zlib_Write raw)
  = (if len raw <=? MaxDecompressedBytes then Ok raw
     else if u32 (len raw) >? MaxDecompressedBytes
     then Err (Errorx "xfer: declared container length %d exceeds %d bytes" [XInt (u32 (len raw)); XInt MaxDecompressedBytes])
     else Err (Errorx "xfer: decompressed message exceeds %d bytes" [XInt MaxDecompressedBytes])).
Proof using.
  unfold decompressContainer. rewrite len_app, len_be_bytes. pose proof (len_nonneg (zlib_Write raw)).
  rewrite (proj2 (Z.ltb_ge _ _)) by lia.
  rewrite slice_head by (rewrite len_app, len_be_bytes; lia). cbn [obind].
  replace (4 + len (zlib_Write raw)) with (len (be_bytes 4 (u32 (len raw)) ++ zlib_Write raw))
    by (rewrite len_app, len_be_bytes; lia).
  rewrite slice_tail by (rewrite len_app, len_be_bytes; lia). cbn [obind].
  change (Z.to_nat 4) with 4%nat. rewrite be_value_be_bytes4 by apply u32_range.
  change 4%nat with (length (be_bytes 4 (u32 (len raw)))) at 1. rewrite drop_app_length.
  unfold decompressBounded. rewrite zlib_Write_read. unfold read_limited. cbn [z_out z_clean].
  change MaxDecompressedBytes with (2 ^ 26). pose proof (len_nonneg raw). rewrite !Z.gtb_ltb.
  destruct (len raw <=? 2 ^ 26) eqn:E; zbool.
  - rewrite u32_small by lia. rewrite (proj2 (Z.ltb_ge _ _)) by lia.
    rewrite (proj2 (Z.ltb_ge _ _)) by lia. by rewrite Z.gtb_ltb, (proj2 (Z.ltb_ge _ _)) by lia.
  - destruct (2 ^ 26 <? u32 (len raw)); [done|].
    destruct (2 ^ 26 + 1 <? len raw) eqn:E1; zbool.
    + rewrite len_take by lia. done.
    + by rewrite Z.gtb_ltb, (proj2 (Z.ltb_lt _ _)) by lia.
Qed.

Lemma Decode_container n data ct : contentTypeIsCompressed ct = true ->
  Decode (be_bytes 4 n ++ data) ct = DecodeCompressed (be_bytes 4 n ++ data).
Proof using. intros H. unfold Decode. rewrite H. by destruct (be_bytes 4 n ++ data) eqn:E. Qed.

(** Encode's container is decoded, as a request or as a reply without a
    content type, to what the plain text decodes to, exactly when the text is
    within the decompression bound; beyond it Encode still succeeds and the
    receiver refuses the body, whether its 32-bit length prefix wraps or not. *)
Theorem container_roundtrip (m : Message) (Hwf : forallb card_wf (m_Cards m) = true)
    (Hb : total_inflated (map received (m_Cards m)) <= MaxCFileInflateBytes) :
  exists raw data, EncodeUncompressed m = Ok raw /\ Encode m = Ok data
    /\ DecodeReply data [] = Decode data ContentTypeCompressed
    /\ (len raw <= MaxDecompressedBytes ->
        Decode data ContentTypeCompressed = Ok (cards_message (received_cards (m_Cards m))))
    /\ (MaxDecompressedBytes < len raw -> exists e, Decode data ContentTypeCompressed = Err e).
Proof using.
  exists (wire (m_Cards m)), (be_bytes 4 (u32 (len (wire (m_Cards m)))) ++ zlib_Write (wire (m_Cards m))).
  split; [by apply EncodeUncompressed_wire|].
  split; [unfold Encode; by rewrite EncodeUncompressed_wire|]. split; [reflexivity|].
  rewrite Decode_container by reflexivity. unfold DecodeCompressed. rewrite decompressContainer_encoded.
  split; intros Hl.
  - rewrite (proj2 (Z.leb_le _ _)) by done. cbn [obind]. by apply DecodeUncompressed_wire.
  - rewrite (proj2 (Z.leb_gt _ _)) by done. destruct (_ >? _); eexists; reflexivity.
Qed.
End message.

(** ** The cookie *)
Lemma QueryUnescape_byte c t : QueryUnescape (query_escape_byte c ++ t) = cons c <$> QueryUnescape t.
Proof. destruct c; cbn; destruct (QueryUnescape t); reflexivity. Qed.

Lemma QueryUnescape_Escape s : QueryUnescape (QueryEscape s) = Some s.
Proof.
  induction s as [|c s IH]; [done|]. unfold QueryEscape. rewrite bind_cons.
  rewrite QueryUnescape_byte. unfold QueryEscape in IH. by rewrite IH.
Qed.

(** ASCII text is split at the same bytes as a card line. *)
Lemma IsSpace_card c : (bz c <? 128) = true -> IsSpace (bz c) = isCardSpace c.
Proof. by_bytes c. Qed.

Lemma fields_token t l cur : card_token t = true -> is_ascii t = true ->
  fields_loop cur (map (fun c => (bz c, [c])) t ++ l) = fields_loop (cur ++ t) l.
Proof.
  unfold card_token, is_ascii. intros [_ Ht]%andb_true_iff. revert cur.
  induction t as [|c t IH]; intros cur Ha; [by rewrite app_nil_r|]. cbn [forallb map app fields_loop] in *.
  apply andb_true_iff in Ht as [Hc Ht], Ha as [Hb Ha]. rewrite IsSpace_card by done.
  apply negb_true_iff in Hc. rewrite Hc, IH by done. by rewrite <- app_assoc.
Qed.

Lemma Fields_join ts : Forall (fun t => card_token t = true /\ is_ascii t = true) ts ->
  Fields (join_tokens ts) = ts.
Proof.
  intros Hts. unfold Fields. rewrite rune_pieces_ascii.
  - assert (H : forall cur, cur <> [] -> fields_loop cur (map (fun c => (bz c, [c])) (spaced ts)) = cur :: ts
      /\ fields_loop [] (map (fun c => (bz c, [c])) (spaced ts)) = ts).
    { induction Hts as [|t ts [Ht Ha] _ IH]; intros cur Hc; [by destruct cur|].
      cbn [spaced]. rewrite !map_app. cbn [SP map app fields_loop]. change (IsSpace (bz x20)) with true. cbv iota.
      rewrite fields_token by done. cbn [app].
      destruct (IH t (card_token_nonempty _ Ht)) as [-> _]. by destruct cur. }
    destruct Hts as [|t ts [Ht Ha] Hts]; [done|]. destruct (H [x00] ltac:(done)) as [_ H2].
    cbn [spaced join_tokens] in *. rewrite !map_app in *. cbn [SP map app fields_loop] in H2. done.
  - unfold is_ascii. rewrite forallb_forall. intros c Hc%list_elem_of_In.
    assert (forall l, Forall (fun t => card_token t = true /\ is_ascii t = true) l -> c ∈ spaced l -> (bz c <? 128) = true) as Hs.
    { clear. induction 1 as [|t l [_ Ht] _ IH]; [by intros ?%not_elem_of_nil|]. cbn [spaced].
      rewrite !elem_of_app. intros [H|[H|H]]; [by apply list_elem_of_singleton in H as ->| |by apply IH].
      unfold is_ascii in Ht. rewrite forallb_forall in Ht. by apply Ht, list_elem_of_In. }
    destruct ts as [|t ts]; [by apply not_elem_of_nil in Hc|]. apply (Hs (t :: ts)); [done|].
    cbn [spaced join_tokens] in *. rewrite elem_of_app. by right.
Qed.

Lemma FossilEncode_ascii s : is_ascii s = true -> is_ascii (FossilEncode s) = true.
Proof.
  unfold is_ascii, FossilEncode. induction s as [|c s IH]; [done|]. rewrite bind_cons, forallb_app.
  cbn [forallb]. intros [Hc Hs]%andb_true_iff. rewrite IH by done. revert Hc. by_bytes c.
Qed.

Lemma parse_login_cookie u n s : nonempty u = true -> is_ascii u = true ->
  card_token n = true -> is_ascii n = true -> card_token s = true -> is_ascii s = true ->
  parseLoginCookie (QueryEscape (join_tokens [bs "login"; FossilEncode u; n; s])) = Some (u, n, s).
Proof.
  intros Hu Hua Hn Hna Hs Hsa. unfold parseLoginCookie. rewrite QueryUnescape_Escape.
  destruct (QueryEscape _) eqn:E.
  { apply (f_equal QueryUnescape) in E. by rewrite QueryUnescape_Escape in E. }
  rewrite Fields_join.
  - by rewrite FossilDecode_Encode.
  - assert (card_token (FossilEncode u) = true) by by apply FossilEncode_card_token.
    assert (is_ascii (FossilEncode u) = true) by by apply FossilEncode_ascii.
    repeat (constructor; [done|]). constructor.
Qed.

Section cookie.
Context `{HZ : !Zlib} `{HG : !GoGrow}.

(** Moving a leading login card from the body to the cookie is invisible to
    the receiver when its fields are ASCII: the split request decodes to exactly
    the message the unsplit text decodes to, tail hash included. *)
Theorem login_cookie_equiv (u n s t : bytes) (cards : list Card)
    (Hu : nonempty u = true) (Hua : is_ascii u = true)
    (Hn : card_token n = true /\ is_ascii n = true) (Hs : card_token s = true /\ is_ascii s = true)
    (Hwf : forallb card_wf cards = true)
    (Hb : total_inflated (map received cards) <= MaxCFileInflateBytes) :
  let m := mk_Message (LoginCard u n s t :: cards) false true in
  let '(body, cookie) := SplitLoginCookie m in
  exists raw rawBody, EncodeUncompressed m = Ok raw /\ EncodeUncompressed body = Ok rawBody
    /\ DecodeRequest (Some rawBody) ContentTypeUncompressed cookie = DecodeUncompressed raw
    /\ DecodeUncompressed raw =
       Ok (cards_message (LoginCard u n s (hex_encode (sha1_Sum rawBody)) :: received_cards cards)).
Proof using.
  destruct Hn as [Hn Hna], Hs as [Hs Hsa]. cbn [SplitLoginCookie m_LoginCookieOK m_Cards negb].
  assert (card_wf (LoginCard u n s t) = true) as Hlw by (cbn [card_wf]; by rewrite Hu, Hn, Hs).
  exists (wire (LoginCard u n s t :: cards)), (wire cards).
  assert (forallb card_wf (LoginCard u n s t :: cards) = true) as Hall by (cbn [forallb]; by rewrite Hlw).
  split; [by apply EncodeUncompressed_wire|]. split; [by apply EncodeUncompressed_wire|].
  assert (DecodeUncompressed (wire (LoginCard u n s t :: cards))
    = Ok (cards_message (LoginCard u n s (hex_encode (sha1_Sum (wire cards))) :: received_cards cards))) as Hd
    by by apply (DecodeUncompressed_wire (LoginCard u n s t :: cards)).
  split; [|done]. rewrite Hd. unfold DecodeRequest.
  assert ((match Some (wire cards) with
    | Some ((_ :: _) as d) => if contentTypeIsCompressed ContentTypeUncompressed
        then let? raw := decompressContainer d in Ok (Some raw) else Ok (Some (wire cards))
    | _ => Ok (Some (wire cards)) end) = Ok (Some (wire cards))) as -> by by destruct (wire cards).
  cbn [obind from_option id]. rewrite DecodeUncompressed_wire by done.
  cbn [obind]. change (bs "login " ++ FossilEncode u ++ bs " " ++ n ++ bs " " ++ s)
    with (bs "login" ++ SP ++ FossilEncode u ++ SP ++ n ++ SP ++ s).
  pose proof (parse_login_cookie u n s Hu Hua Hn Hna Hs Hsa) as Hp. cbn [join_tokens spaced] in Hp.
  rewrite app_nil_r in Hp. by rewrite Hp.
Qed.
End cookie.

(** where the cookie form parts from the body form.  A user name with a
    no-break space is one token of a card line but two of a cookie, so the
    login is read from the body and ignored from the cookie; and a nil body
    beside a valid login cookie panics where an empty one is decoded. *)
Theorem login_cookie_edges :
  let m := mk_Message [LoginCard [x61; xc2; xa0; x62] (bs "6e") (bs "73") []; PrivateCard] false true in
  let '(body, cookie) := SplitLoginCookie m in
  (let? raw := EncodeUncompressed m in DecodeUncompressed raw)
    = Ok (cards_message [LoginCard [x61; xc2; xa0; x62] (bs "6e") (bs "73") (hex_encode (sha1_Sum (bs "private" ++ NL))); PrivateCard])
  /\ (let? raw := EncodeUncompressed body in DecodeRequest (Some raw) ContentTypeUncompressed cookie)
    = Ok (cards_message [PrivateCard])
  /\ DecodeRequest (Some []) ContentTypeCompressed (bs "login+u+6e+73")
    = Ok (cards_message [LoginCard (bs "u") (bs "6e") (bs "73") (hex_encode (sha1_Sum []))])
  /\ DecodeRequest None ContentTypeCompressed (bs "login+u+6e+73") = Panic "hash.SHA1: data must not be nil".
Proof. vm_compute. split_and!; reflexivity. Qed.

(** A decimal clone_seqno past the int range is not refused: Atoi's error is
    dropped and the cursor becomes the largest int. *)
Theorem clone_seqno_clamps (ds : bytes) (v : Z) (Hd : isDecimal ds = true) (Hv : dec_val 0 ds = Some v) :
  parseCloneSeqNo [ds] = Some (CloneSeqNoCard (Z.min v MaxInt64) []).
Proof.
  unfold parseCloneSeqNo, Atoi_value. rewrite Hd. cbn [negb]. do 2 f_equal. unfold ParseInt.
  destruct ds as [|c ds]; [done|]. cbn [isDecimal forallb] in Hd. apply andb_true_iff in Hd as [Hc Hds].
  assert (Byte.eqb c x2d = false) as -> by (revert Hc; by_bytes c).
  assert (Byte.eqb c x2b = false) as -> by (revert Hc; by_bytes c). rewrite Hv.
  assert (0 <= v).
  { assert (forall l acc w, 0 <= acc -> dec_val acc l = Some w -> 0 <= w) as Hnn; [|by eapply Hnn; [|exact Hv]].
    clear. induction l as [|c l IH]; intros acc w Ha; cbn [dec_val]; [by intros [= <-]|].
    destruct (is_digit c) eqn:E; [|done]. apply IH. unfold is_digit in E. zbool. lia. }
  unfold MaxInt64. destruct ((- 2 ^ 63 <=? v) && (v <? 2 ^ 63)) eqn:E; zbool; lia.
Qed.

(** ** Witnesses *)

(** One card of most kinds, a login, a comment, and a payload full of lines
    that look like cards. *)
Definition sample_message : Message := mk_Message
  [ LoginCard (bs "a b") (bs "6e6f") (bs "7369") [];
    CommentCard (bs "random");
    PushCard (bs "x") (bs "p"); PragmaCard (bs "client-version") [bs "22800"; bs "20240101"];
    IGotCard (bs "11") true; GimmeCard (bs "22");
    CFileCard (bs "33") (bs "44") 5 (bs "hello") None;
    CFileCard (bs "33") [] 5 (bs "hello") (Some (blob_format (bs "hello")));
    FileCard (bs "55") [] (bs "igot 66" ++ NL ++ bs "file 77 88");
    UVFileCard (bs "dir/a b") 12 (bs "-") 0 1 [];
    UVIGotCard (bs "n m") (-3) (bs "ab") 7;
    CloneCard 3 0 true; CloneCard 0 0 false; CloneSeqNoCard 9 []; ConfigCard (bs "/c") (bs "# x");
    SchemaCard (bs "t") 1 (bs "ab") 5 (bs "{}"); XRowCard (bs "t") (bs "k") 5 (bs "[1]");
    ErrorCard (bs "bad line" ++ NL) []; UnknownCard (bs "clone") [bs "a"; bs "-1"] []; PrivateCard ]
  false true.

Lemma message_roundtrip_witness : exists raw, EncodeUncompressed sample_message = Ok raw
  /\ DecodeUncompressed raw = Ok (cards_message (received_cards (m_Cards sample_message))).
Proof. apply (message_roundtrip sample_message); [vm_compute; reflexivity|vm_compute; discriminate]. Defined.

Lemma container_roundtrip_witness : exists raw data, EncodeUncompressed sample_message = Ok raw
  /\ Encode sample_message = Ok data
  /\ DecodeReply data [] = Decode data ContentTypeCompressed
  /\ (len raw <= MaxDecompressedBytes ->
      Decode data ContentTypeCompressed = Ok (cards_message (received_cards (m_Cards sample_message))))
  /\ (MaxDecompressedBytes < len raw -> exists e, Decode data ContentTypeCompressed = Err e).
Proof. apply (container_roundtrip sample_message); [vm_compute; reflexivity|vm_compute; discriminate]. Defined.

Lemma login_cookie_equiv_witness :
  let m := mk_Message [LoginCard (bs "a b") (bs "6e") (bs "73") []; PrivateCard] false true in
  let '(body, cookie) := SplitLoginCookie m in
  exists raw rawBody, EncodeUncompressed m = Ok raw /\ EncodeUncompressed body = Ok rawBody
    /\ DecodeRequest (Some rawBody) ContentTypeUncompressed cookie = DecodeUncompressed raw
    /\ DecodeUncompressed raw =
       Ok (cards_message (LoginCard (bs "a b") (bs "6e") (bs "73") (hex_encode (sha1_Sum rawBody)) :: [PrivateCard])).
Proof.
  apply (login_cookie_equiv (bs "a b") (bs "6e") (bs "73") [] [PrivateCard]);
    [reflexivity|reflexivity|split; reflexivity|split; reflexivity|reflexivity|vm_compute; discriminate].
Defined.
