(* ===== verification/Cone.v ===== *)
(** * Cone specifications: src/internal/cone/cone.go, serial.go, horizon.go

    The members of a sparse checkout's cone, their normalization, the coverage
    decisions and the canonical serialized form. *)

From S2P Require Import Prelude GoStd GoText GoCrypto Pathname Hash.

Definition MaxMembers : Z := 255.
Definition MaxMemberLen : Z := 4096.
Definition serialVersionExclusions : byte := x02.
Definition serialVersionHorizon : byte := x03.

(** The sentinel errors, with the text or the member they are wrapped with. *)
Inductive cone_error :=
| ErrInvalidMember (what : string) (m : bytes)
| ErrReservedMember (m : bytes)
| ErrBounds (inclusions exclusions : Z)
| ErrDeadExclusion (m : bytes)
| ErrContradiction (m : bytes)
| ErrInvalidHorizon (what : string) (m : bytes).
Arguments ErrInvalidMember what%_string m.
Arguments ErrInvalidHorizon what%_string m.
Abbreviation cresult := (outcome cone_error).

(** ** horizon.go *)

(** [HorizonRule] and [HorizonDepth] are bytes. *)
Definition RuleDescendants : byte := x00.
Definition RuleLeaves : byte := x01.
Definition DepthContent : byte := x00.
Definition DepthStructural : byte := x01.

Definition rule_valid (r : byte) : bool := Byte.eqb r RuleDescendants || Byte.eqb r RuleLeaves.
Definition depth_valid (d : byte) : bool := Byte.eqb d DepthContent || Byte.eqb d DepthStructural.

Definition rule_String (r : byte) : bytes :=
  if Byte.eqb r RuleDescendants then bs "descendants"
  else if Byte.eqb r RuleLeaves then bs "leaves" else bs "rule(" ++ dec (bz r) ++ bs ")".
Definition depth_String (d : byte) : bytes :=
  if Byte.eqb d DepthContent then bs "content"
  else if Byte.eqb d DepthStructural then bs "structural" else bs "depth(" ++ dec (bz d) ++ bs ")".

Definition ParseHorizonRule (name : bytes) : cresult byte :=
  if bytes_eqb (rule_String RuleDescendants) name then Ok RuleDescendants
  else if bytes_eqb (rule_String RuleLeaves) name then Ok RuleLeaves
  else Err (ErrInvalidHorizon "unknown rule %q" name).
Definition ParseHorizonDepth (name : bytes) : cresult byte :=
  if bytes_eqb (depth_String DepthContent) name then Ok DepthContent
  else if bytes_eqb (depth_String DepthStructural) name then Ok DepthStructural
  else Err (ErrInvalidHorizon "unknown depth %q" name).

Record Horizon := mk_Horizon { h_hash : bytes; h_rule : byte; h_depth : byte }.

#[export] Instance Horizon_eq_dec : EqDecision Horizon.
Proof. solve_decision. Defined.

(** The hash is hex digits when it is lower-cased, so ToLower is its ASCII
    branch. *)
Definition NewHorizon (hash : bytes) (rule depth : byte) : cresult Horizon :=
  if negb (len hash =? 40) && negb (len hash =? 64) then Err (ErrInvalidHorizon "hash length" hash)
  else if negb (isHexAnyCase hash) then Err (ErrInvalidHorizon "hash is not hex" hash)
  else if negb (rule_valid rule) || negb (depth_valid depth)
  then Err (ErrInvalidHorizon "%v, %v" (rule_String rule ++ depth_String depth))
  else Ok (mk_Horizon (map lower_byte hash) rule depth).

Definition Horizon_String (h : Horizon) : bytes :=
  bs "horizon " ++ h_hash h ++ bs " " ++ rule_String (h_rule h) ++ bs " " ++ depth_String (h_depth h).

(** ** cone.go *)
Record Cone := mk_Cone { c_include : list bytes; c_exclude : list bytes; c_horizon : option Horizon }.
Record entry := mk_entry { e_path : bytes; e_exclude : bool }.

Definition memberCovers (member path : bytes) : cresult bool :=
  match member with
  | [] => Panic "cone.memberCovers: empty member"
  | _ => if negb (HasPrefix path member) then Ok false
         else or_else (Ok (len path =? len member)) (byte_is path (len member) x2f)
  end.

(** A loop of [longestCovering] over one list. *)
Fixpoint longest_loop (path : bytes) (excludes : bool) (ms : list bytes) (best : bytes * bool)
  : cresult (bytes * bool) :=
  match ms with
  | [] => Ok best
  | m :: ms' =>
      if len m >? len (fst best)
      then let? b := memberCovers m path in
           longest_loop path excludes ms' (if b : bool then (m, excludes) else best)
      else longest_loop path excludes ms' best
  end.

Definition longestCovering (c : Cone) (path : bytes) (exclusions : bool) : cresult (bytes * bool) :=
  let? best := longest_loop path false (c_include c) ([], false) in
  if negb exclusions then Ok best else longest_loop path true (c_exclude c) best.

Definition validateMember (m : bytes) : cresult () :=
  if (len m >? MaxMemberLen) || negb (WorktreePathname m) then Err (ErrInvalidMember "%q" m)
  else
    let? r := never (IsReservedName m) in
    if r : bool then Err (ErrReservedMember m) else Ok ().

Definition same_path (prev : option entry) (e : entry) : bool :=
  match prev with Some p => bytes_eqb (e_path p) (e_path e) | None => false end.
Definition same_polarity (prev : option entry) (e : entry) : bool :=
  match prev with Some p => Bool.eqb (e_exclude p) (e_exclude e) | None => false end.

(** One iteration of [normalize]'s loop, given the entry before. *)
Definition normalize_step (c : Cone) (prev : option entry) (e : entry) : cresult Cone :=
  if same_path prev e then
    if negb (same_polarity prev e) then Err (ErrContradiction (e_path e)) else Ok c
  else
    let? (nearest, nearestExcludes) := longestCovering c (e_path e) true in
    if bytes_eqb nearest [] && e_exclude e then Err (ErrDeadExclusion (e_path e))
    else if negb (bytes_eqb nearest []) && Bool.eqb nearestExcludes (e_exclude e) then Ok c
    else if e_exclude e
    then Ok (mk_Cone (c_include c) (c_exclude c ++ [e_path e]) (c_horizon c))
    else Ok (mk_Cone (c_include c ++ [e_path e]) (c_exclude c) (c_horizon c)).

Fixpoint normalize_loop (c : Cone) (prev : option entry) (sorted : list entry) : cresult Cone :=
  match sorted with
  | [] => Ok c
  | e :: rest => let? c := normalize_step c prev e in normalize_loop c (Some e) rest
  end.

Definition normalize (sorted : list entry) : cresult Cone := normalize_loop (mk_Cone [] [] None) None sorted.

(** The loops that validate the members and append their entries. *)
Fixpoint add_entries (n_include : Z) (entries : list entry) (ms : list bytes) : cresult (list entry) :=
  match ms with
  | [] => Ok entries
  | m :: ms' =>
      let? _ := validateMember m in
      add_entries n_include (entries ++ [mk_entry m (len entries >=? n_include)]) ms'
  end.

Definition entry_less (x y : entry) : bool := blt (e_path x) (e_path y).

(** [sort.SliceStable] has one possible result; insertion sort computes it. *)
Definition sort_entries (l : list entry) : list entry := insertion_sort entry_less l.

Definition build (include exclude : list bytes) (h : option Horizon) : cresult Cone :=
  if ((len include =? 0) && bool_decide (h = None)) || (len include + len exclude >? MaxMembers)
  then Err (ErrBounds (len include) (len exclude))
  else
    let? entries := add_entries (len include) [] include in
    let? entries := add_entries (len include) entries exclude in
    let? c := normalize (sort_entries entries) in
    if (len (c_include c) =? 0) && bool_decide (h = None)
    then Panic "cone.New: normalization kept no inclusion"
    else Ok (mk_Cone (c_include c) (c_exclude c) h).

Definition New (include exclude : list bytes) : cresult Cone := build include exclude None.

Definition NewWithHorizon (include exclude : list bytes) (h : Horizon) : cresult Cone :=
  if negb (len (h_hash h) =? 40) && negb (len (h_hash h) =? 64)
  then Err (ErrInvalidHorizon "horizon not built by NewHorizon" [])
  else build include exclude (Some h).

Definition pathDense (c : Cone) : bool := len (c_include c) =? 0.

Record Decision := mk_Decision { Covered : bool; Member : bytes }.
Definition Excluded (d : Decision) : bool := negb (bytes_eqb (Member d) []) && negb (Covered d).

Definition Decide (c : Cone) (path : bytes) : cresult Decision :=
  if pathDense c then Ok (mk_Decision true [])
  else
    let? (member, excludes) := longestCovering c path true in
    if bytes_eqb member [] then Ok (mk_Decision false [])
    else Ok (mk_Decision (negb excludes) member).

Definition Covers (c : Cone) (path : bytes) : cresult bool := let? d := Decide c path in Ok (Covered d).

Fixpoint any_inside (dir : bytes) (ms : list bytes) : cresult bool :=
  match ms with
  | [] => Ok false
  | m :: ms' => let? b := memberCovers dir m in if b : bool then Ok true else any_inside dir ms'
  end.

Definition IntersectsSubtree (c : Cone) (dir : bytes) : cresult bool :=
  match dir with
  | [] => Panic "cone.IntersectsSubtree: empty dir"
  | _ =>
      if pathDense c then Ok true
      else let? b := Covers c dir in
           if b : bool then Ok true else any_inside dir (c_include c)
  end.

(** Go's [<=] and [>=] on strings. *)
Definition ble (a b : bytes) : bool := negb (blt b a).

Definition MayCover (c : Cone) (first limit : bytes) : bool :=
  if pathDense c then true
  else existsb (fun m => negb (negb (bytes_eqb limit []) && ble limit m) && negb (ble (m ++ bs "0") first)) (c_include c).

(** ** serial.go *)
Definition Equal (c other : Cone) : bool :=
  bool_decide (c_include c = c_include other) && bool_decide (c_exclude c = c_exclude other)
  && bool_decide (c_horizon c = c_horizon other).

(** [eachMember]: the calls it makes, in order. *)
Fixpoint eachMember (fuel : nat) (include exclude : list bytes) : list entry :=
  match fuel with
  | O => []
  | S f =>
      match include, exclude with
      | [], [] => []
      | m :: ms, [] => mk_entry m false :: eachMember f ms []
      | [], x :: xs => mk_entry x true :: eachMember f [] xs
      | m :: ms, x :: xs => if blt m x then mk_entry m false :: eachMember f ms exclude
                            else mk_entry x true :: eachMember f include xs
      end
  end.

Definition members (c : Cone) : list entry :=
  eachMember (length (c_include c) + length (c_exclude c)) (c_include c) (c_exclude c).

Fixpoint string_loop (b : bytes) (ms : list entry) : bytes :=
  match ms with
  | [] => b
  | e :: ms' =>
      string_loop (b ++ (if len b >? 0 then bs ", " else []) ++ (if e_exclude e then bs "!" else []) ++ e_path e) ms'
  end.
Definition Cone_String (c : Cone) : bytes :=
  string_loop (match c_horizon c with Some h => Horizon_String h | None => [] end) (members c).

Definition write_member (flagged : bool) (e : entry) : bytes :=
  (if flagged then [if e_exclude e then x01 else x00] else [])
  ++ le_bytes 2 (len (e_path e) mod 2 ^ 16) ++ e_path e.

Definition Serialize (c : Cone) : cresult bytes :=
  let total := len (c_include c) + len (c_exclude c) in
  if ((len (c_include c) =? 0) && bool_decide (c_horizon c = None)) || (total >? MaxMembers)
  then Panic "cone.Serialize: cone was not built by New"
  else
    let flagged := (len (c_exclude c) >? 0) || negb (bool_decide (c_horizon c = None)) in
    let header :=
      match c_horizon c with
      | Some h => [x00; serialVersionHorizon; zb total; h_rule h; h_depth h; zb (len (h_hash h))] ++ h_hash h
      | None => if flagged then [x00; serialVersionExclusions; zb total] else [zb total]
      end in
    Ok (header ++ (members c ≫= write_member flagged)).

Definition Digest `{!Sha3} (c : Cone) : cresult bytes :=
  let? data := Serialize c in SHA3 (Some data).

(** The horizon, the bytes from the first member on, and the count. *)
Definition parseHeader (data : bytes) : cresult (option Horizon * bytes * Z) :=
  match data with
  | [] => Panic "index out of range"
  | b0 :: rest =>
      if negb (Byte.eqb b0 x00) then Ok (None, rest, bz b0)
      else
        match data with
        | _ :: version :: count :: rest3 =>
            if Byte.eqb version serialVersionExclusions then Ok (None, rest3, bz count)
            else if Byte.eqb version serialVersionHorizon then
              match rest3 with
              | rule :: depth :: nb :: rest6 =>
                  let n := bz nb in
                  if (negb (n =? 40) && negb (n =? 64)) || (len rest6 <? n)
                  then Err (ErrInvalidMember "bad horizon hash length" [])
                  else
                    let? hz := wrap_err (fun _ => ErrInvalidMember "horizon" [])
                                 (NewHorizon (take (Z.to_nat n) rest6) rule depth) in
                    Ok (Some hz, drop (Z.to_nat n) rest6, bz count)
              | _ => Err (ErrInvalidMember "truncated horizon" [])
              end
            else Err (ErrInvalidMember "unknown serialized cone version" [])
        | _ => Err (ErrInvalidMember "truncated serialized cone" [])
        end
  end.

(** The loop of [parseMembers], on the bytes left. *)
Fixpoint members_loop (count : nat) (flagged : bool) (data : bytes) (include exclude : list bytes)
  : cresult (list bytes * list bytes) :=
  match count with
  | O => match data with
         | [] => Ok (include, exclude)
         | _ => Err (ErrInvalidMember "bytes after the last member" [])
         end
  | S k =>
      let? (exclusion, data) :=
        if flagged then
          match data with
          | f :: data' => if bz f >? 1 then Err (ErrInvalidMember "bad polarity flag" []) else Ok (Byte.eqb f x01, data')
          | [] => Err (ErrInvalidMember "bad polarity flag" [])
          end
        else Ok (false, data) in
      match data with
      | l0 :: l1 :: data =>
          let n := le_value [l0; l1] in
          if (n =? 0) || (len data <? n) then Err (ErrInvalidMember "bad member length" [])
          else
            let member := take (Z.to_nat n) data in
            let data := drop (Z.to_nat n) data in
            if exclusion : bool
            then members_loop k flagged data include (exclude ++ [member])
            else members_loop k flagged data (include ++ [member]) exclude
      | _ => Err (ErrInvalidMember "truncated member length" [])
      end
  end.

Definition parseMembers (data : bytes) (count : Z) (flagged : bool) : cresult (list bytes * list bytes) :=
  if count >? MaxMembers then Panic "cone.parseMembers: count exceeds the count byte"
  else members_loop (Z.to_nat count) flagged data [] [].

Definition Parse (data : bytes) : cresult Cone :=
  match data with
  | [] => Err (ErrInvalidMember "empty serialized cone" [])
  | b0 :: _ =>
      let? (h, rest, count) := parseHeader data in
      if (count =? 0) && bool_decide (h = None) then Err (ErrBounds 0 0)
      else
        let? (include, exclude) := parseMembers rest count (Byte.eqb b0 x00) in
        let? c := build include exclude h in
        let? out := Serialize c in
        if negb (bytes_eqb out data) then Err (ErrInvalidMember "serialized cone is not canonical" [])
        else Ok c
  end.

Definition With (c : Cone) (include exclude : list bytes) : cresult Cone :=
  build (c_include c ++ include) (c_exclude c ++ exclude) (c_horizon c).

Definition Without (c : Cone) (paths : list bytes) : cresult Cone :=
  let keep := filter (fun m => m ∉ paths) in
  build (keep (c_include c)) (keep (c_exclude c)) (c_horizon c).
