(* ===== verification/ConeCorrect.v ===== *)
(** * Cones: normalization keeps coverage and is canonical

    [decides L p x]: the longest entry of [L] that covers the path [p] has the
    polarity [x] (true for an exclusion).  It is the specification of coverage,
    on any list of entries; the lemmas relate it to the cone [normalize]
    builds. *)

From S2P Require Import Prelude GoStd GoText GoCrypto Pathname Hash Cone.
From Stdlib Require Import Sorting.Sorted.

(** ** Covering *)
Definition covers (m p : bytes) : Prop := p = m \/ exists r, p = m ++ x2f :: r.

Definition covers_b (m p : bytes) : bool := HasPrefix p m && ((len p =? len m) || at_is p (len m) x2f).

Lemma covers_b_spec m p : covers_b m p = true <-> covers m p.
Proof.
  unfold covers_b, covers. rewrite andb_true_iff, HasPrefix_spec, orb_true_iff, Z.eqb_eq. split.
  - intros [[t ->] H]. rewrite len_app in H. destruct H as [H|H].
    + left. rewrite (len_zero t) by lia. apply app_nil_r.
    + right. replace (len m) with (len m + 0) in H by lia. rewrite at_is_app_r in H by lia.
      destruct t as [|c t]; [done|]. apply byte_eqb_eq in H. subst c. by exists t.
  - intros [-> | [r ->]]; [split; [exists []; by rewrite app_nil_r|by left]|].
    split; [by exists (x2f :: r)|right]. replace (len m) with (len m + 0) by lia. by rewrite at_is_app_r.
Qed.

Lemma memberCovers_covers m path : m <> [] -> memberCovers m path = Ok (covers_b m path).
Proof.
  intros Hne. unfold memberCovers, covers_b. destruct m as [|b m]; [done|].
  destruct (HasPrefix path (b :: m)) eqn:E; [|done]. apply HasPrefix_spec in E as [t ->].
  unfold or_else. cbn [obind negb andb]. destruct (Z.eqb_spec (len ((b :: m) ++ t)) (len (b :: m))); [done|].
  rewrite byte_is_ok; [done|]. rewrite len_app in *. pose proof (len_nonneg t). pose proof (len_nonneg (b :: m)). lia.
Qed.

Lemma covers_refl m : covers m m.
Proof. by left. Qed.

Lemma covers_trans a b c : covers a b -> covers b c -> covers a c.
Proof.
  intros [-> | [r ->]] [-> | [s ->]]; [by left|right; eauto|right; eauto|]. right. exists (r ++ x2f :: s).
  by rewrite <- app_assoc.
Qed.

Lemma covers_len m p : covers m p -> len m <= len p.
Proof. intros [-> | [r ->]]; [lia|]. rewrite len_app, len_cons. pose proof (len_nonneg r). lia. Qed.

(** Of two members covering one path the shorter covers the longer. *)
Lemma covers_nested a b p : covers a p -> covers b p -> len a <= len b -> covers a b.
Proof.
  intros Ha Hb Hl.
  assert (exists t, p = b ++ t) as [t Ht] by (destruct Hb as [-> | [r ->]]; [exists []; by rewrite app_nil_r|eauto]).
  destruct Ha as [Ha|[r Ha]].
  { rewrite <- Ha, Ht, len_app in Hl. rewrite <- Ha, Ht. rewrite (len_zero t) by (pose proof (len_nonneg t); lia).
    left. by rewrite app_nil_r. }
  rewrite Ht in Ha. apply app_eq_inv in Ha as [(k & Hk & Hk2)|(k & Hk & Hk2)].
  - subst b. destruct k as [|c k]; [left; by rewrite app_nil_r|]. injection Hk2 as <- _. right. eauto.
  - subst a. rewrite len_app in Hl. rewrite (len_zero k) by (pose proof (len_nonneg k); lia). rewrite app_nil_r. by left.
Qed.

Lemma covers_same_len a b p : covers a p -> covers b p -> len a = len b -> a = b.
Proof.
  intros Ha Hb Hl. destruct (covers_nested a b p Ha Hb ltac:(lia)) as [H | [r H]]; [done|].
  subst b. rewrite len_app, len_cons in Hl. pose proof (len_nonneg r). lia.
Qed.

(** A proper cover sorts strictly before. *)
Lemma cmp_bytes_prefix a c r : cmp_bytes a (a ++ c :: r) = Lt.
Proof. induction a as [|x a IH]; [done|]. cbn [cmp_bytes app]. by rewrite Z.compare_refl. Qed.

Lemma covers_blt a b : covers a b -> len a < len b -> blt a b = true.
Proof.
  intros [-> | [r ->]] Hl; [lia|]. unfold blt. rewrite strings_Compare_lt. apply cmp_bytes_prefix.
Qed.

(** ** The specification *)
Definition is_nearest (L : list entry) (p : bytes) (e : entry) : Prop :=
  e ∈ L /\ covers (e_path e) p /\ forall e', e' ∈ L -> covers (e_path e') p -> len (e_path e') <= len (e_path e).

Definition decides (L : list entry) (p : bytes) (x : bool) : Prop := exists e, is_nearest L p e /\ e_exclude e = x.

Definition uncovered (L : list entry) (p : bytes) : Prop := forall e, e ∈ L -> ~ covers (e_path e) p.

Definition consistent (L : list entry) : Prop :=
  forall e e', e ∈ L -> e' ∈ L -> e_path e = e_path e' -> e_exclude e = e_exclude e'.

Definition nonempty_paths (L : list entry) : Prop := forall e, e ∈ L -> e_path e <> [].

(** The entries of a cone. *)
Definition ents (c : Cone) : list entry :=
  map (fun m => mk_entry m false) (c_include c) ++ map (fun m => mk_entry m true) (c_exclude c).

Lemma elem_of_ents c e : e ∈ ents c <-> e_path e ∈ (if e_exclude e then c_exclude c else c_include c).
Proof.
  unfold ents. rewrite elem_of_app, !list_elem_of_fmap. destruct e as [m x]. cbn. split.
  - intros [(m' & [= -> ->] & H)|(m' & [= -> ->] & H)]; done.
  - destruct x; eauto.
Qed.

Lemma nearest_unique_path L p e e' : is_nearest L p e -> is_nearest L p e' -> e_path e = e_path e'.
Proof.
  intros (H1 & H2 & H3) (H1' & H2' & H3'). specialize (H3 _ H1' H2'). specialize (H3' _ H1 H2).
  eapply covers_same_len; [done..|]. lia.
Qed.

Lemma decides_fun L p x y : consistent L -> decides L p x -> decides L p y -> x = y.
Proof.
  intros Hc (e & He & <-) (e' & He' & <-). apply Hc; [apply He|apply He'|by eapply nearest_unique_path].
Qed.

(** Either nothing covers or something is nearest. *)
Lemma nearest_or_uncovered L p : uncovered L p \/ exists e, is_nearest L p e.
Proof.
  induction L as [|a L IH]; [left; by intros e ?%not_elem_of_nil|].
  destruct (decide (covers_b (e_path a) p = true)) as [Ha%covers_b_spec|Ha]; rewrite ?covers_b_spec in Ha.
  - right. destruct IH as [Hu|(e & H1 & H2 & H3)].
    + exists a. split; [by left|]. split; [done|]. intros e' [->|He']%elem_of_cons Hc; [done|by apply Hu in Hc].
    + destruct (Z.le_gt_cases (len (e_path a)) (len (e_path e))).
      * exists e. split; [by right|]. split; [done|]. intros e' [->|He']%elem_of_cons Hc; [done|by apply H3].
      * exists a. split; [by left|]. split; [done|]. intros e' [->|He']%elem_of_cons Hc; [done|].
        specialize (H3 _ He' Hc). lia.
  - destruct IH as [Hu|(e & H1 & H2 & H3)].
    + left. intros e [->|He]%elem_of_cons; [done|by apply Hu].
    + right. exists e. split; [by right|]. split; [done|]. intros e' [->|He']%elem_of_cons Hc; [done|by apply H3].
Qed.

(** ** longestCovering computes it *)
Lemma longest_loop_spec path x ms best :
  exists out, longest_loop path x ms best = Ok out
    /\ len (fst best) <= len (fst out)
    /\ (out = best \/ (snd out = x /\ fst out <> [] /\ fst out ∈ ms /\ covers (fst out) path))
    /\ (forall m, m ∈ ms -> m <> [] -> covers m path -> len m <= len (fst out)).
Proof.
  revert best. induction ms as [|m ms IH]; intros best; cbn [longest_loop].
  { exists best. split_and!; [done|lia|by left|by intros m ?%not_elem_of_nil]. }
  rewrite Z.gtb_ltb. destruct (len (fst best) <? len m) eqn:E; zbool.
  - assert (m <> []) as Hne by (intros ->; rewrite len_nil in E; pose proof (len_nonneg (fst best)); lia).
    rewrite memberCovers_covers by done.
    cbn [obind]. destruct (covers_b m path) eqn:Ec.
    + apply covers_b_spec in Ec. destruct (IH (m, x)) as (out & -> & H1 & H2 & H3). cbn in H1. exists out.
      split_and!; [done|lia| |].
      * right. destruct H2 as [->|(? & ? & ? & ?)]; cbn; split_and!; auto; [by left|by right].
      * intros m' [->|Hm]%elem_of_cons; [lia|by apply H3].
    + destruct (IH best) as (out & -> & H1 & H2 & H3). exists out. split_and!; [done|lia| |].
      * destruct H2 as [->|(? & ? & ? & ?)]; [by left|right; split_and!; auto; by right].
      * intros m' [->|Hm]%elem_of_cons Hn Hc; [|by apply H3]. apply covers_b_spec in Hc. congruence.
  - destruct (IH best) as (out & -> & H1 & H2 & H3). exists out. split_and!; [done|lia| |].
    + destruct H2 as [->|(? & ? & ? & ?)]; [by left|right; split_and!; auto; by right].
    + intros m' [->|Hm]%elem_of_cons Hn Hc; [lia|by apply H3].
Qed.

Lemma longestCovering_spec c p : nonempty_paths (ents c) ->
  (exists e, is_nearest (ents c) p e /\ longestCovering c p true = Ok (e_path e, e_exclude e))
  \/ (uncovered (ents c) p /\ longestCovering c p true = Ok ([], false)).
Proof.
  intros Hne. unfold longestCovering.
  destruct (longest_loop_spec p false (c_include c) ([], false)) as (o1 & -> & L1 & H1 & G1). cbn [obind negb].
  destruct (longest_loop_spec p true (c_exclude c) o1) as (o2 & -> & L2 & H2 & G2). destruct o2 as [m x].
  assert (Hall : forall e, e ∈ ents c -> covers (e_path e) p -> len (e_path e) <= len m).
  { intros e He Hc. pose proof (Hne _ He) as Hn. apply elem_of_ents in He. cbn in L2, G2.
    destruct (e_exclude e); [by apply G2|]. specialize (G1 _ He Hn Hc). lia. }
  destruct H2 as [E|(Hx & Hm & Hin & Hc)]; [subst o1|]; cbn in *.
  - destruct H1 as [[= -> ->]|(Hx & Hm & Hin & Hc)].
    + right. split; [|done]. intros e He Hc. specialize (Hall _ He Hc). pose proof (len_nonneg (e_path e)).
      apply (Hne _ He), len_zero. rewrite len_nil in Hall. lia.
    + cbn in *. left. exists (mk_entry m x). split; [|done]. subst x.
      split; [by apply elem_of_ents|]. split; [done|]. apply Hall.
  - left. exists (mk_entry m x). split; [|done]. subst x. split; [by apply elem_of_ents|]. split; [done|]. apply Hall.
Qed.

(** ** Normalization *)

(** [n] is the nearest entry that covers [e] properly. *)
Definition proper_nearest (L : list entry) (e n : entry) : Prop :=
  n ∈ L /\ covers (e_path n) (e_path e) /\ len (e_path n) < len (e_path e)
  /\ forall n', n' ∈ L -> covers (e_path n') (e_path e) -> len (e_path n') < len (e_path e) ->
     len (e_path n') <= len (e_path n).

(** A member is kept when it reverses what covers it: [normalize]'s rule. *)
Definition needed (L : list entry) (e : entry) : Prop :=
  (exists n, proper_nearest L e n /\ e_exclude n = negb (e_exclude e))
  \/ (e_exclude e = false /\ forall n, n ∈ L -> covers (e_path n) (e_path e) -> ~ len (e_path n) < len (e_path e)).

Definition ascending_paths (l : list bytes) : Prop := StronglySorted (fun a b => blt a b = true) l.

(** What the cone is after the entries [D], in the order of their paths. *)
Record normal (D : list entry) (c : Cone) : Prop := {
  nm_sub e : e ∈ ents c -> e ∈ D;
  nm_same p x : decides D p x <-> decides (ents c) p x;
  nm_consistent : consistent D;
  nm_include : ascending_paths (c_include c);
  nm_exclude : ascending_paths (c_exclude c);
  nm_needed e : e ∈ ents c -> needed (ents c) e;
}.

Lemma blt_asym a b : blt a b = true -> blt b a = false.
Proof.
  intros H. destruct (blt b a) eqn:E; [|done]. pose proof (blt_trans _ _ _ H E) as Hc. by rewrite blt_irrefl in Hc.
Qed.

Lemma ascending_snoc l m : ascending_paths l -> (forall d, d ∈ l -> blt d m = true) -> ascending_paths (l ++ [m]).
Proof.
  intros Hl Hm. induction Hl as [|a l Hs IH Hf]; cbn; [repeat constructor|].
  constructor; [apply IH; intros; apply Hm; by right|]. apply Forall_app. split; [done|].
  constructor; [apply Hm; by left|constructor].
Qed.

(** The last entry is the nearest to everything it covers. *)
Section last_entry.
Context (D : list entry) (e : entry).
Hypothesis Hlast : forall d, d ∈ D -> blt (e_path e) (e_path d) = false.

Lemma last_longest p d : d ∈ D -> covers (e_path e) p -> covers (e_path d) p -> len (e_path d) <= len (e_path e).
Proof using Hlast.
  intros Hd He Hc. destruct (Z.le_gt_cases (len (e_path d)) (len (e_path e))) as [|Hl]; [done|].
  assert (covers (e_path e) (e_path d)) as Hed by (eapply covers_nested; [done..|lia]).
  specialize (Hlast _ Hd). by rewrite covers_blt in Hlast.
Qed.

Lemma last_nearest p : covers (e_path e) p -> is_nearest (D ++ [e]) p e.
Proof using Hlast.
  intros Hc. split; [apply elem_of_app; right; by apply list_elem_of_singleton|]. split; [done|].
  intros e' [He'|He'%list_elem_of_singleton]%elem_of_app Hc'; [by eapply last_longest|by subst].
Qed.

(** On a path it does not cover, the last entry changes nothing. *)
Lemma last_irrelevant p x : ~ covers (e_path e) p -> decides (D ++ [e]) p x <-> decides D p x.
Proof using.
  intros Hn. split; intros (e' & (H1 & H2 & H3) & <-).
  - apply elem_of_app in H1 as [H1|H1%list_elem_of_singleton]; [|by subst].
    exists e'. split; [|done]. split; [done|]. split; [done|]. intros e'' He''. apply H3, elem_of_app. by left.
  - exists e'. split; [|done]. split; [apply elem_of_app; by left|]. split; [done|].
    intros e'' [He''|He''%list_elem_of_singleton]%elem_of_app Hc; [by apply H3|by subst].
Qed.

(** On a path it covers, what was nearest is nearest to the entry itself. *)
Lemma decides_below K p x : (forall k, k ∈ K -> k ∈ D) -> covers (e_path e) p ->
  decides K p x <-> decides K (e_path e) x.
Proof using Hlast.
  intros HK Hc. split; intros (k & (H1 & H2 & H3) & <-); exists k; (split; [|done]).
  - assert (forall k', k' ∈ K -> covers (e_path k') p -> covers (e_path k') (e_path e)) as Hup.
    { intros k' Hk' Hp. eapply covers_nested; [done..|]. by eapply last_longest; [apply HK|..]. }
    split; [done|]. split; [by apply Hup|]. intros k' Hk' Hk'c. apply H3; [done|]. by eapply covers_trans.
  - split; [done|]. split; [by eapply covers_trans|]. intros k' Hk' Hk'p. apply H3; [done|].
    eapply covers_nested; [done..|]. by eapply last_longest; [apply HK|..].
Qed.
End last_entry.

Lemma elem_of_ents_snoc c e k :
  k ∈ ents (if e_exclude e then mk_Cone (c_include c) (c_exclude c ++ [e_path e]) (c_horizon c)
            else mk_Cone (c_include c ++ [e_path e]) (c_exclude c) (c_horizon c)) <-> k ∈ ents c ++ [e].
Proof.
  rewrite elem_of_app, list_elem_of_singleton, !elem_of_ents. destruct k as [m x], e as [m' x']. cbn.
  destruct x', x; cbn; rewrite ?elem_of_app, ?list_elem_of_singleton; naive_solver.
Qed.

Lemma is_nearest_equiv L K p e : (forall k, k ∈ L <-> k ∈ K) -> is_nearest L p e <-> is_nearest K p e.
Proof. intros H. unfold is_nearest. by setoid_rewrite H. Qed.
Lemma decides_equiv L K p x : (forall k, k ∈ L <-> k ∈ K) -> decides L p x <-> decides K p x.
Proof. intros H. unfold decides. by setoid_rewrite (fun e => is_nearest_equiv L K p e H). Qed.
Lemma needed_equiv L K e : (forall k, k ∈ L <-> k ∈ K) -> needed L e <-> needed K e.
Proof. intros H. unfold needed, proper_nearest. by setoid_rewrite H. Qed.

(** What the entry before the current one is: the last, largest, of those done. *)
Definition before (D : list entry) (prev : option entry) : Prop :=
  match prev with
  | Some p => p ∈ D /\ forall d, d ∈ D -> blt (e_path p) (e_path d) = false
  | None => D = []
  end.

Lemma entry_eq e e' : e_path e = e_path e' -> e_exclude e = e_exclude e' -> e = e'.
Proof. destruct e, e'; cbn; congruence. Qed.

Lemma before_new D prev e d : before D prev -> same_path prev e = false ->
  (forall d, d ∈ D -> blt (e_path e) (e_path d) = false) -> d ∈ D -> blt (e_path d) (e_path e) = true.
Proof.
  intros Hp Hs Hlast Hd. destruct (blt_total (e_path d) (e_path e)) as [H|[H|H]]; [done| |by rewrite Hlast in H].
  destruct prev as [p|]; [|cbn in Hp; rewrite Hp in Hd; by apply not_elem_of_nil in Hd]. destruct Hp as [Hp Hmax].
  cbn in Hs. apply bytes_eqb_neq in Hs. exfalso. apply Hs. rewrite <- H.
  destruct (blt_total (e_path p) (e_path d)) as [Hb|[Hb|Hb]]; [by rewrite Hmax in Hb|done|].
  specialize (Hlast _ Hp). rewrite <- H in Hlast. congruence.
Qed.

Lemma consistent_snoc D e : consistent D -> (forall d, d ∈ D -> blt (e_path d) (e_path e) = true) -> consistent (D ++ [e]).
Proof.
  intros Hcons Hlt.
  assert (forall d, d ∈ D -> e_path d <> e_path e) as Hne.
  { intros d Hd Heq. specialize (Hlt d Hd). rewrite Heq in Hlt. by rewrite blt_irrefl in Hlt. }
  intros a b Ha Hb Heq. apply elem_of_app in Ha as [Ha|Ha%list_elem_of_singleton], Hb as [Hb|Hb%list_elem_of_singleton];
    subst; [by apply Hcons|by apply Hne in Heq|by symmetry in Heq; apply Hne in Heq|done].
Qed.

Lemma normal_extend D c e c' :
  normal D c -> (forall d, d ∈ D -> blt (e_path d) (e_path e) = true) ->
  (forall k, k ∈ ents c' <-> k ∈ ents c ++ [e]) ->
  ascending_paths (c_include c') -> ascending_paths (c_exclude c') ->
  needed (ents c ++ [e]) e -> normal (D ++ [e]) c'.
Proof.
  intros [Hsub Hsame Hcons _ _ Hneed] Hlt Hc' Hi Hx He.
  assert (Hlast : forall d, d ∈ D -> blt (e_path e) (e_path d) = false) by (intros d Hd; by apply blt_asym, Hlt).
  assert (Hlast' : forall d, d ∈ ents c -> blt (e_path e) (e_path d) = false) by (intros d Hd; by apply Hlast, Hsub).
  pose proof (consistent_snoc D e Hcons Hlt) as Hcons'.
  constructor; [|..|done|done|done|].
  - intros k Hk. apply Hc' in Hk. rewrite !elem_of_app in *. destruct Hk as [Hk|Hk]; [left; by apply Hsub|by right].
  - intros p x. rewrite (decides_equiv (ents c') (ents c ++ [e]) p x Hc').
    destruct (decide (covers_b (e_path e) p = true)) as [Hcp|Hcp]; rewrite covers_b_spec in Hcp.
    + pose proof (last_nearest D e Hlast p Hcp) as H1. pose proof (last_nearest (ents c) e Hlast' p Hcp) as H2.
      assert (consistent (ents c ++ [e])) as Hce.
      { intros a b Ha Hb. apply Hcons'; [|]; rewrite elem_of_app in *; naive_solver. }
      split; intros Hd.
      * rewrite (decides_fun _ _ x (e_exclude e) Hcons' Hd (ex_intro _ e (conj H1 eq_refl))). by exists e.
      * rewrite (decides_fun _ _ x (e_exclude e) Hce Hd (ex_intro _ e (conj H2 eq_refl))). by exists e.
    + by rewrite !last_irrelevant.
  - intros k Hk. apply Hc' in Hk. apply (needed_equiv _ _ k Hc').
    apply elem_of_app in Hk as [Hk|Hk%list_elem_of_singleton]; [|by subst].
    assert (Hno : forall n, n ∈ ents c ++ [e] -> covers (e_path n) (e_path k) -> len (e_path n) < len (e_path k) -> n ∈ ents c).
    { intros n [Hn|Hn%list_elem_of_singleton]%elem_of_app Hcn Hl; [done|]. subst n.
      specialize (Hlast' _ Hk). by rewrite covers_blt in Hlast'. }
    destruct (Hneed _ Hk) as [(n & (H1 & H2 & H3 & H4) & Hp)|[Hp H]].
    + left. exists n. split; [|done]. split; [apply elem_of_app; by left|]. split; [done|]. split; [done|]. eauto.
    + right. split; [done|]. intros n Hn Hcn Hl. by apply (H n (Hno _ Hn Hcn Hl)).
Qed.

Lemma normal_drop D c e : normal D c -> (forall d, d ∈ D -> blt (e_path d) (e_path e) = true) ->
  decides (ents c) (e_path e) (e_exclude e) -> normal (D ++ [e]) c.
Proof.
  intros [Hsub Hsame Hcons Hi Hx Hneed] Hlt Hd.
  assert (Hlast : forall d, d ∈ D -> blt (e_path e) (e_path d) = false) by (intros d Hd'; by apply blt_asym, Hlt).
  pose proof (consistent_snoc D e Hcons Hlt) as Hcons'.
  constructor; [|..|done|done|done|done].
  - intros k Hk. apply elem_of_app. left. by apply Hsub.
  - intros p x. destruct (decide (covers_b (e_path e) p = true)) as [Hcp|Hcp]; rewrite covers_b_spec in Hcp.
    + pose proof (last_nearest D e Hlast p Hcp) as H1.
      rewrite (decides_below D e Hlast (ents c) p x Hsub Hcp).
      assert (consistent (ents c)) as Hce by (intros a b Ha Hb; apply Hcons; by apply Hsub).
      split; intros Hdx.
      * by rewrite (decides_fun _ _ x (e_exclude e) Hcons' Hdx (ex_intro _ e (conj H1 eq_refl))).
      * rewrite (decides_fun _ _ x (e_exclude e) Hce Hdx Hd). by exists e.
    + by rewrite last_irrelevant, Hsame.
Qed.

(** A step that repeats the last entry. *)
Lemma normal_repeat D c e : normal D c -> e ∈ D -> normal (D ++ [e]) c.
Proof.
  intros [H1 H2 H3 H4 H5 H6] He.
  assert (Heq : forall k, k ∈ D ++ [e] <-> k ∈ D).
  { intros k. rewrite elem_of_app, list_elem_of_singleton. naive_solver. }
  constructor; [|..|done|done|done].
  - intros k Hk. by apply Heq, H1.
  - intros q x. by rewrite (decides_equiv _ _ q x Heq).
  - intros a b. rewrite !Heq. apply H3.
Qed.

Definition add_member (c : Cone) (e : entry) : Cone :=
  if e_exclude e then mk_Cone (c_include c) (c_exclude c ++ [e_path e]) (c_horizon c)
  else mk_Cone (c_include c ++ [e_path e]) (c_exclude c) (c_horizon c).

Lemma normal_add D c e : normal D c -> (forall d, d ∈ D -> blt (e_path d) (e_path e) = true) ->
  needed (ents c ++ [e]) e -> normal (D ++ [e]) (add_member c e).
Proof.
  intros Hn Hlt Hneed.
  assert (forall x m, m ∈ (if x : bool then c_exclude c else c_include c) -> blt m (e_path e) = true) as Hm.
  { intros x m Hm. apply (Hlt (mk_entry m x)), (nm_sub _ _ Hn), elem_of_ents. done. }
  eapply normal_extend; try done; [apply elem_of_ents_snoc|unfold add_member..]; destruct (e_exclude e); cbn;
    try apply Hn; apply ascending_snoc; try apply Hn; [apply (Hm false)|apply (Hm true)].
Qed.

(** Nearest is properly nearest on a path that is not an entry's own. *)
Lemma nearest_proper L e n : (forall k, k ∈ L -> e_path k <> e_path e) -> is_nearest L (e_path e) n ->
  proper_nearest (L ++ [e]) e n.
Proof.
  intros Hne (H1 & H2 & H3).
  assert (forall k, k ∈ L -> covers (e_path k) (e_path e) -> len (e_path k) < len (e_path e)) as Hl.
  { intros k Hk Hc. pose proof (covers_len _ _ Hc). destruct (Z.eq_dec (len (e_path k)) (len (e_path e))) as [E|]; [|lia].
    by apply Hne in Hk; destruct Hk; eapply covers_same_len; [exact Hc|apply covers_refl|]. }
  split; [apply elem_of_app; by left|]. split; [done|]. split; [by apply Hl|].
  intros k [Hk|Hk%list_elem_of_singleton]%elem_of_app Hc Hlt; [by apply H3|subst; lia].
Qed.

Lemma normalize_step_normal D c prev e : normal D c -> before D prev -> nonempty_paths D ->
  (forall d, d ∈ D -> blt (e_path e) (e_path d) = false) ->
  match normalize_step c prev e with
  | Ok c' => normal (D ++ [e]) c' /\ c_horizon c' = c_horizon c
  | Err (ErrContradiction m) => m = e_path e /\ exists d, d ∈ D /\ e_path d = e_path e /\ e_exclude d <> e_exclude e
  | Err (ErrDeadExclusion m) => m = e_path e /\ e_exclude e = true /\ uncovered D (e_path e)
  | _ => False
  end.
Proof.
  intros Hn Hb Hne Hlast. unfold normalize_step. destruct (same_path prev e) eqn:Es.
  { destruct prev as [p|]; [|done]. destruct Hb as [Hp _]. cbn in Es. apply bytes_eqb_eq in Es. cbn [same_polarity].
    destruct (Bool.eqb (e_exclude p) (e_exclude e)) eqn:Ee; cbn [negb].
    - apply Bool.eqb_prop in Ee. pose proof (entry_eq _ _ Es Ee) as ->. split; [by apply normal_repeat|done].
    - split; [done|]. exists p. split_and!; [done..|]. by apply Bool.eqb_false_iff in Ee. }
  assert (Hlt : forall d, d ∈ D -> blt (e_path d) (e_path e) = true) by (intros; by eapply before_new).
  assert (Hnp : forall k, k ∈ ents c -> e_path k <> e_path e).
  { intros k Hk Heq. apply (nm_sub _ _ Hn), Hlt in Hk. by rewrite Heq, blt_irrefl in Hk. }
  assert (nonempty_paths (ents c)) as Hnc by (intros k Hk; by apply Hne, (nm_sub _ _ Hn)).
  assert (Hh : c_horizon (add_member c e) = c_horizon c) by (unfold add_member; by destruct (e_exclude e)).
  destruct (longestCovering_spec c (e_path e) Hnc) as [(n & Hnear & ->)|[Hu ->]]; cbn [obind].
  - rewrite (proj2 (bytes_eqb_neq (e_path n) [])) by apply Hnc, Hnear. cbn [negb andb].
    destruct (Bool.eqb (e_exclude n) (e_exclude e)) eqn:Ee.
    + split; [|done]. apply normal_drop; [done..|]. exists n. split; [done|by apply Bool.eqb_prop].
    + assert (normal (D ++ [e]) (add_member c e)) as Ha; [|by unfold add_member in *; destruct (e_exclude e)].
      apply normal_add; [done..|]. left. exists n. split; [by apply nearest_proper|].
      apply Bool.eqb_false_iff in Ee. by destruct (e_exclude n), (e_exclude e).
  - cbn [bytes_eqb negb andb]. destruct (e_exclude e) eqn:Ex.
    { split_and!; [done..|]. destruct (nearest_or_uncovered D (e_path e)) as [|[n Hd]]; [done|].
      assert (decides D (e_path e) (e_exclude n)) as Hdec by (by exists n).
      apply (nm_same _ _ Hn) in Hdec as (k & (Hk & Hc & _) & _). by apply Hu in Hc. }
    assert (normal (D ++ [e]) (add_member c e)) as Ha; [|by unfold add_member in *; rewrite Ex in *].
    apply normal_add; [done..|]. right. split; [done|].
    intros n [Hk|Hk%list_elem_of_singleton]%elem_of_app Hc Hl; [by eapply Hu|subst; lia].
Qed.
