(* ===== verification/ConeCanonical.v ===== *)
(** * Cones: what [build] accepts and what the cone it builds covers

    [raw include exclude] is the operator's list of members as given.  A cone
    decides every path as the longest raw member covering it does, and two
    cones with one coverage have the same members. *)

From Stdlib Require Import Sorting.Sorted.
From S2P Require Import Prelude GoStd GoText GoCrypto Pathname Hash Cone ConeCorrect.

Definition raw (include exclude : list bytes) : list entry :=
  map (fun m => mk_entry m false) include ++ map (fun m => mk_entry m true) exclude.

Lemma elem_of_raw include exclude e :
  e ∈ raw include exclude <-> e_path e ∈ (if e_exclude e then exclude else include).
Proof. exact (elem_of_ents (mk_Cone include exclude None) e). Qed.

Lemma raw_ents c : raw (c_include c) (c_exclude c) = ents c.
Proof. done. Qed.

(** ** The loop of normalize *)
Definition sorted_entries (l : list entry) : Prop := StronglySorted (fun x y => entry_less y x = false) l.

Lemma sort_entries_sorted l : sorted_entries (sort_entries l).
Proof. apply insertion_sort_sorted, (strict_weak_key e_path). Qed.

Lemma sorted_app_l D K d k : sorted_entries (D ++ K) -> d ∈ D -> k ∈ K -> blt (e_path k) (e_path d) = false.
Proof.
  induction D as [|a D IH]; cbn; intros Hs Hd Hk; [by apply not_elem_of_nil in Hd|].
  inversion Hs as [|? ? Hs' Hf]; subst. apply elem_of_cons in Hd as [->|Hd]; [|by apply IH].
  rewrite Forall_forall in Hf. apply (Hf k). apply elem_of_app. by right.
Qed.

(** [m] is given as an inclusion and as an exclusion. *)
Definition contradicted (L : list entry) (m : bytes) : Prop := mk_entry m false ∈ L /\ mk_entry m true ∈ L.

(** [m] is an exclusion with no member above it. *)
Definition dead (L : list entry) (m : bytes) : Prop :=
  mk_entry m true ∈ L /\ forall d, d ∈ L -> covers (e_path d) m -> e_path d = m.

Lemma opposite_contradicted L d e : d ∈ L -> e ∈ L -> e_path d = e_path e -> e_exclude d <> e_exclude e ->
  contradicted L (e_path e).
Proof.
  destruct d as [p x], e as [q y]. cbn. intros Hd He -> Hx. split; destruct x, y; done.
Qed.

Lemma normalize_loop_spec rest D c prev : normal D c -> before D prev -> nonempty_paths D ->
  (forall e, e ∈ rest -> e_path e <> []) -> sorted_entries (D ++ rest) ->
  match normalize_loop c prev rest with
  | Ok c' => normal (D ++ rest) c' /\ c_horizon c' = c_horizon c
  | Err (ErrContradiction m) => contradicted (D ++ rest) m
  | Err (ErrDeadExclusion m) => dead (D ++ rest) m
  | _ => False
  end.
Proof.
  revert D c prev. induction rest as [|e rest IH]; intros D c prev Hn Hb Hne Hner Hs.
  { cbn. by rewrite app_nil_r. }
  assert (Hlast : forall d, d ∈ D -> blt (e_path e) (e_path d) = false).
  { intros d Hd. eapply sorted_app_l; [exact Hs|done|by left]. }
  pose proof (normalize_step_normal D c prev e Hn Hb Hne Hlast) as Hstep. cbn [normalize_loop].
  assert (He : e ∈ D ++ e :: rest) by (apply elem_of_app; right; by left).
  destruct (normalize_step c prev e) as [c1|err| |]; [|destruct err; try done|done..]; cbn [obind].
  - destruct Hstep as [Hn1 Hh]. replace (D ++ e :: rest) with ((D ++ [e]) ++ rest) in * by (by rewrite <- app_assoc).
    specialize (IH (D ++ [e]) c1 (Some e) Hn1). rewrite Hh in IH. apply IH; [|..|done].
    + split; [apply elem_of_app; right; by apply list_elem_of_singleton|].
      intros d [Hd|Hd%list_elem_of_singleton]%elem_of_app; [by apply Hlast|subst; apply blt_irrefl].
    + intros d [Hd|Hd%list_elem_of_singleton]%elem_of_app; [by apply Hne|subst; apply Hner; by left].
    + intros d Hd. apply Hner. by right.
  - destruct Hstep as [-> Hu]. destruct Hu as [Hx Hu]. split.
    { rewrite <- Hx. by destruct e. }
    intros d Hd Hc. apply elem_of_app in Hd as [Hd|Hd]; [by apply Hu in Hc|].
    destruct (Z.eq_dec (len (e_path d)) (len (e_path e))) as [Hl|Hl].
    { eapply covers_same_len; [exact Hc|apply covers_refl|done]. }
    assert (blt (e_path d) (e_path e) = true) as Hlt by (apply covers_blt; [done|pose proof (covers_len _ _ Hc); lia]).
    apply elem_of_cons in Hd as [->|Hd]; [done|].
    replace (D ++ e :: rest) with ((D ++ [e]) ++ rest) in Hs by (by rewrite <- app_assoc).
    rewrite (sorted_app_l _ _ e d Hs) in Hlt; [done| |done]. apply elem_of_app. right. by apply list_elem_of_singleton.
  - destruct Hstep as (-> & d & Hd & Hp & Hx). apply (opposite_contradicted _ d e); [|done..].
    apply elem_of_app. by left.
Qed.

Lemma normal_nil : normal [] (mk_Cone [] [] None).
Proof.
  constructor; try (intros e ?%not_elem_of_nil; done); try constructor; [done|done|].
  intros a b ?%not_elem_of_nil; done.
Qed.

Lemma normal_equiv D K c : (forall k, k ∈ D <-> k ∈ K) -> normal D c -> normal K c.
Proof.
  intros H [H1 H2 H3 H4 H5 H6]. constructor; [|..|done|done|done].
  - intros e He. by apply H, H1.
  - intros p x. by rewrite <- (decides_equiv D K p x H).
  - intros a b Ha Hb. apply H in Ha, Hb. by apply H3.
Qed.

Lemma normalize_spec L : (forall e, e ∈ L -> e_path e <> []) ->
  match normalize (sort_entries L) with
  | Ok c => normal L c
  | Err (ErrContradiction m) => contradicted L m
  | Err (ErrDeadExclusion m) => dead L m
  | _ => False
  end.
Proof.
  intros Hne. assert (Heq : forall k, k ∈ sort_entries L <-> k ∈ L).
  { intros k. unfold sort_entries. by rewrite insertion_sort_perm. }
  pose proof (normalize_loop_spec (sort_entries L) [] (mk_Cone [] [] None) None normal_nil eq_refl
    ltac:(intros e ?%not_elem_of_nil; done) ltac:(intros e He; by apply Hne, Heq) (sort_entries_sorted L)) as H.
  unfold normalize. destruct (normalize_loop _ _ _) as [c|err| |]; [|destruct err; try done|done..]; cbn [app] in H.
  - by apply (normal_equiv _ _ _ Heq), H.
  - destruct H as [H1 H2]. split; [by apply Heq|]. intros d Hd. by apply H2, Heq.
  - split; by apply Heq, H.
Qed.

(** ** build *)
Lemma validateMember_eq m : validateMember m =
  if (len m >? MaxMemberLen) || negb (WorktreePathname m) then Err (ErrInvalidMember "%q" m)
  else if reserved m then Err (ErrReservedMember m)
  else Ok ().
Proof. unfold validateMember. destruct (_ || _); [done|]. by rewrite IsReservedName_reserved. Qed.

Lemma validateMember_nonempty m : validateMember m = Ok tt -> m <> [].
Proof. intros H ->. discriminate H. Qed.

Lemma add_entries_spec n x es ms :
  (if x : bool then n <= len es else len es + len ms <= n) ->
  match add_entries n es ms with
  | Ok out => out = es ++ map (fun m => mk_entry m x) ms /\ Forall (fun m => validateMember m = Ok tt) ms
  | Err err => exists m, m ∈ ms /\ validateMember m = Err err
  | _ => False
  end.
Proof.
  revert es. induction ms as [|m ms IH]; intros es Hn; cbn [add_entries]; [by rewrite app_nil_r|].
  rewrite len_cons in Hn. pose proof (len_nonneg ms).
  destruct (validateMember m) as [[]|err| |] eqn:Ev; cbn [obind].
  2: { exists m. split; [by left|done]. }
  2-3: by (rewrite validateMember_eq in Ev; repeat case_hyp Ev).
  assert ((len es >=? n) = x) as -> by (rewrite Z.geb_leb; destruct x; [apply Z.leb_le|apply Z.leb_gt]; lia).
  specialize (IH (es ++ [mk_entry m x])). rewrite len_app, len_cons, len_nil in IH.
  specialize (IH ltac:(destruct x; lia)). destruct (add_entries _ _ ms).
  - destruct IH as [-> HF]. split; [by rewrite <- app_assoc|by constructor].
  - destruct IH as (m' & Hm & Hv). exists m'. split; [by right|done].
  - done.
  - done.
Qed.

(** An empty cone covers nothing, so nothing was to be covered. *)
Lemma normal_no_include L c : normal L c -> c_include c = [] -> L = [].
Proof.
  intros Hn Hi. destruct L as [|e L]; [done|exfalso].
  assert (exists x, decides (e :: L) (e_path e) x) as [x Hd].
  { destruct (nearest_or_uncovered (e :: L) (e_path e)) as [Hu|[n Hn']]; [|by exists (e_exclude n), n].
    destruct (Hu e ltac:(by left)). apply covers_refl. }
  apply (nm_same _ _ Hn) in Hd as (k & (Hk & _) & _).
  assert (Hall : forall j, j ∈ ents c -> e_exclude j = true).
  { intros j Hj. apply elem_of_ents in Hj. destruct (e_exclude j); [done|]. rewrite Hi in Hj. by apply not_elem_of_nil in Hj. }
  pose proof (Hall _ Hk) as Hx. destruct (nm_needed _ _ Hn _ Hk) as [(n & (Hn1 & _) & Hp)|[Hp _]]; [|congruence].
  rewrite (Hall _ Hn1), Hx in Hp. done.
Qed.

(** What [build] answers, on every branch. *)
Lemma build_spec include exclude h :
  match build include exclude h with
  | Ok c => normal (raw include exclude) c /\ c_horizon c = h /\ (include = [] -> exclude = [] /\ h <> None)
      /\ len include + len exclude <= MaxMembers
      /\ Forall (fun m => validateMember m = Ok tt) (include ++ exclude)
  | Err (ErrBounds i x) => i = len include /\ x = len exclude /\ (include = [] /\ h = None \/ i + x > MaxMembers)
  | Err (ErrContradiction m) => contradicted (raw include exclude) m
  | Err (ErrDeadExclusion m) => dead (raw include exclude) m
  | Err e => exists m, m ∈ include ++ exclude /\ validateMember m = Err e
  | _ => False
  end.
Proof.
  unfold build. destruct (_ || _) eqn:Eb.
  { split_and!; [done..|]. apply orb_true_iff in Eb as [[H1 H2]%andb_true_iff|H]; zbool; [left|right; lia].
    apply bool_decide_eq_true in H2. split; [by apply len_zero|done]. }
  apply orb_false_iff in Eb as [Eb Ec]. apply Z.gtb_ltb in Ec || rewrite Z.gtb_ltb in Ec. zbool.
  pose proof (add_entries_spec (len include) false [] include ltac:(cbn; rewrite len_nil; lia)) as H1.
  destruct (add_entries (len include) [] include) as [es|err| |]; [| |done..]; cbn [obind app] in *.
  2: { destruct H1 as (m & Hm & Hv). assert (m ∈ include ++ exclude) by (apply elem_of_app; by left).
       destruct err; try (exists m; split; done); rewrite validateMember_eq in Hv; repeat case_hyp Hv; done. }
  destruct H1 as [-> HF1].
  pose proof (add_entries_spec (len include) true (map (fun m => mk_entry m false) include) exclude
    ltac:(cbn; unfold len; rewrite length_map; lia)) as H2.
  destruct (add_entries _ _ exclude) as [es|err| |]; [| |done..]; cbn [obind] in *.
  2: { destruct H2 as (m & Hm & Hv). assert (m ∈ include ++ exclude) by (apply elem_of_app; by right).
       destruct err; try (exists m; split; done); rewrite validateMember_eq in Hv; repeat case_hyp Hv; done. }
  destruct H2 as [-> HF2]. fold (raw include exclude).
  assert (HF : Forall (fun m => validateMember m = Ok tt) (include ++ exclude)) by (by apply Forall_app).
  assert (Hne : forall e, e ∈ raw include exclude -> e_path e <> []).
  { intros e He. apply elem_of_raw in He. rewrite Forall_forall in HF.
    apply validateMember_nonempty, HF, elem_of_app. destruct (e_exclude e); tauto. }
  pose proof (normalize_spec (raw include exclude) Hne) as Hn.
  destruct (normalize _) as [c|err| |]; cbn [obind]; [|destruct err; done|done..].
  assert (Hlen : c_include c = [] -> include = [] /\ exclude = []).
  { intros Hi. apply (normal_no_include _ _ Hn) in Hi. unfold raw in Hi. by destruct include, exclude. }
  destruct (_ && _) eqn:Ep.
  { zbool. apply bool_decide_eq_true in H0. destruct (Hlen ltac:(by apply len_zero)) as [-> _].
    rewrite bool_decide_true in Eb by done. destruct Eb; done. }
  split_and!; [|done|..|lia|done].
  - destruct Hn. by constructor.
  - intros ->. rewrite len_nil in Eb. destruct Eb as [|Eb]; [done|]. apply bool_decide_eq_false in Eb. split; [|done].
    destruct exclude as [|x exclude]; [done|exfalso].
    assert (mk_entry x true ∈ raw [] (x :: exclude)) as Hx by (apply elem_of_raw; by left).
    destruct (c_include c) as [|m ms] eqn:Ei; [by destruct (Hlen eq_refl)|].
    assert (mk_entry m false ∈ ents c) as Hm by (apply elem_of_ents; cbn; rewrite Ei; by left).
    apply (nm_sub _ _ Hn), elem_of_raw in Hm. by apply not_elem_of_nil in Hm.
Qed.

(** * Cones: coverage, canonicity and pruning

    What [Decide] answers on a cone [build] accepted, when [build] accepts,
    why equal coverage means equal cones, and the two predicates that prune an
    enumeration. *)

(** ** Members from coverage *)

(** The longest path that covers [m] and is shorter: its parent directory. *)
Definition parent (m q : bytes) : Prop :=
  covers q m /\ len q < len m /\ forall d, covers d m -> len d < len m -> covers d q.

Lemma last_slash m : x2f ∉ m \/ exists q r, m = q ++ x2f :: r /\ x2f ∉ r.
Proof.
  induction m as [|c m [IH|(q & r & -> & Hr)]]; [left; apply not_elem_of_nil| |].
  - destruct (decide (c = x2f)) as [->|Hc]; [right; by exists [], m|left; by apply not_elem_of_cons].
  - right. by exists (c :: q), r.
Qed.

Lemma proper_cover d m : covers d m -> len d < len m -> exists s, m = d ++ x2f :: s.
Proof. intros [-> | H]; [lia|done]. Qed.

Lemma parent_exists d m : covers d m -> len d < len m -> exists q, parent m q.
Proof.
  intros Hd Hl. destruct (last_slash m) as [Hno|(q & r & -> & Hr)].
  { destruct (proper_cover _ _ Hd Hl) as [s ->]. destruct Hno. apply elem_of_app. right. by left. }
  exists q. split; [right; eauto|]. split; [rewrite len_app, len_cons; pose proof (len_nonneg r); lia|].
  intros d' Hd' Hl'. destruct (proper_cover _ _ Hd' Hl') as [s Hs].
  apply app_eq_inv in Hs as [(k & -> & Hk)|(k & -> & Hk)].
  - destruct k as [|c k]; [left; by rewrite app_nil_r|]. injection Hk as <- _. right. eauto.
  - destruct k as [|c k]; [left; by rewrite app_nil_r|]. injection Hk as <- Hk. destruct Hr. rewrite Hk.
    apply elem_of_app. right. by left.
Qed.

Lemma nearest_parent L m x q n : parent m q -> proper_nearest L (mk_entry m x) n <-> is_nearest L q n.
Proof.
  unfold proper_nearest. cbn. intros (Hq & Hl & Hup). split.
  - intros (H1 & H2 & H3 & H4). split; [done|]. split; [by apply Hup|]. intros k Hk Hc.
    apply H4; [done|by eapply covers_trans|]. pose proof (covers_len _ _ Hc). lia.
  - intros (H1 & H2 & H3). split; [done|]. pose proof (covers_len _ _ H2). split; [by eapply covers_trans|].
    split; [lia|]. intros k Hk Hc Hlk. by apply H3, Hup.
Qed.

Lemma nearest_self L e : e ∈ L -> is_nearest L (e_path e) e.
Proof. intros He. split; [done|]. split; [apply covers_refl|]. intros e' _. apply covers_len. Qed.

(** What is nearest to a path is its own member, or nearest to its parent. *)
Lemma nearest_cases L m k : is_nearest L m k -> e_path k = m \/ exists q, parent m q /\ is_nearest L q k.
Proof.
  intros (H1 & H2 & H3). destruct (Z.eq_dec (len (e_path k)) (len m)) as [Hl|Hl].
  { left. eapply covers_same_len; [exact H2|apply covers_refl|done]. }
  assert (len (e_path k) < len m) as Hlt by (pose proof (covers_len _ _ H2); lia).
  destruct (parent_exists _ _ H2 Hlt) as [q Hq]. right. exists q. split; [done|].
  apply (nearest_parent L m false); [done|]. split; [done|]. split; [done|]. split; [done|].
  intros; by apply H3.
Qed.

Lemma normal_consistent L c : normal L c -> consistent (ents c).
Proof. intros Hn a b Ha Hb. apply (nm_consistent _ _ Hn); by apply (nm_sub _ _ Hn). Qed.

(** An inclusion is a covered path whose parent is not. *)
Lemma include_iff L c m : normal L c ->
  m ∈ c_include c <-> decides (ents c) m false /\ forall q, parent m q -> ~ decides (ents c) q false.
Proof.
  intros Hn. pose proof (normal_consistent _ _ Hn) as Hc. split.
  - intros Hm. assert (mk_entry m false ∈ ents c) as He by (by apply elem_of_ents). split.
    { exists (mk_entry m false). split; [by apply (nearest_self _ (mk_entry m false))|done]. }
    intros q Hq Hd. destruct (nm_needed _ _ Hn _ He) as [(n & Hp & Hx)|[_ H]].
    + apply (nearest_parent _ m _ q n Hq) in Hp.
      by pose proof (decides_fun _ _ _ _ Hc Hd (ex_intro _ n (conj Hp Hx))).
    + destruct Hd as (k & (Hk & Hkq & _) & _). destruct Hq as (Hq & Hl & _). pose proof (covers_len _ _ Hkq).
      apply (H k Hk); [by eapply covers_trans|cbn; lia].
  - intros [(k & Hk & Hx) Hno]. destruct (nearest_cases _ _ _ Hk) as [Hp|(q & Hq & Hkq)].
    + destruct Hk as [Hk _]. apply elem_of_ents in Hk. by rewrite Hx, Hp in Hk.
    + destruct (Hno _ Hq). by exists k.
Qed.

(** An exclusion is an uncovered path whose parent is covered. *)
Lemma exclude_iff L c m : normal L c ->
  m ∈ c_exclude c <-> ~ decides (ents c) m false /\ exists q, parent m q /\ decides (ents c) q false.
Proof.
  intros Hn. pose proof (normal_consistent _ _ Hn) as Hc. split.
  - intros Hm. assert (mk_entry m true ∈ ents c) as He by (by apply elem_of_ents). split.
    { intros Hd. assert (decides (ents c) m true) as Hd'.
      { exists (mk_entry m true). split; [by apply (nearest_self _ (mk_entry m true))|done]. }
      by pose proof (decides_fun _ _ _ _ Hc Hd Hd'). }
    destruct (nm_needed _ _ Hn _ He) as [(n & Hp & Hx)|[H _]]; [|done].
    destruct (parent_exists (e_path n) m) as [q Hq]; [apply Hp..|]. exists q. split; [done|].
    exists n. split; [by apply (nearest_parent _ m true)|done].
  - intros [Hno (q & Hq & (n & Hn' & Hx))].
    destruct (nearest_or_uncovered (ents c) m) as [Hu|[k Hk]].
    { destruct Hn' as (Hi & Hcq & _). destruct (Hu _ Hi). eapply covers_trans; [done|apply Hq]. }
    assert (e_exclude k = true) as Hkx.
    { destruct (e_exclude k) eqn:E; [done|]. destruct Hno. by exists k. }
    destruct (nearest_cases _ _ _ Hk) as [Hp|(q' & Hq' & Hkq)].
    + destruct Hk as [Hk _]. apply elem_of_ents in Hk. by rewrite Hkx, Hp in Hk.
    + assert (is_nearest (ents c) q k) as Hkq2.
      { apply (nearest_parent _ m true _ _ Hq), (nearest_parent _ m true _ _ Hq'), Hkq. }
      pose proof (decides_fun _ _ _ _ Hc (ex_intro _ k (conj Hkq2 Hkx)) (ex_intro _ n (conj Hn' Hx))). done.
Qed.

Lemma ascending_weak l : ascending_paths l -> StronglySorted (fun x y => blt y x = false) l.
Proof.
  induction 1 as [|a x _ IH Hf]; constructor; [done|]. eapply Forall_impl; [exact Hf|]. intros y. apply blt_asym.
Qed.

Lemma ascending_nodup l : ascending_paths l -> NoDup l.
Proof.
  induction 1 as [|a x _ IH Hf]; constructor; [|done]. intros Ha. rewrite Forall_forall in Hf.
  specialize (Hf _ Ha). by rewrite blt_irrefl in Hf.
Qed.

Lemma ascending_ext l k : ascending_paths l -> ascending_paths k -> (forall m, m ∈ l <-> m ∈ k) -> l = k.
Proof.
  intros Hl Hk H. apply (ascending_unique blt); [apply (strict_weak_key (fun x : bytes => x))|done|by apply ascending_weak|].
  apply NoDup_Permutation; [by apply ascending_nodup..|done].
Qed.

(** Two normal cones with one coverage are one cone, up to the horizon. *)
Lemma normal_unique L K c c' : normal L c -> normal K c' ->
  (forall p, decides (ents c) p false <-> decides (ents c') p false) ->
  c_include c = c_include c' /\ c_exclude c = c_exclude c'.
Proof.
  intros Hn Hn' H. split; (apply ascending_ext; [by eapply nm_include || by eapply nm_exclude..|]); intros m.
  - rewrite (include_iff _ _ m Hn), (include_iff _ _ m Hn'). by setoid_rewrite H.
  - rewrite (exclude_iff _ _ m Hn), (exclude_iff _ _ m Hn'). by setoid_rewrite H.
Qed.

(** ** Decide *)
Lemma normal_nonempty include exclude h c : build include exclude h = Ok c ->
  normal (raw include exclude) c /\ nonempty_paths (ents c).
Proof.
  intros Hb. pose proof (build_spec include exclude h) as H. rewrite Hb in H. destruct H as (Hn & _ & _ & _ & HF).
  split; [done|]. intros e He. apply (nm_sub _ _ Hn), elem_of_raw in He. rewrite Forall_forall in HF.
  apply validateMember_nonempty, HF, elem_of_app. destruct (e_exclude e); tauto.
Qed.

Lemma build_dense include exclude h c : build include exclude h = Ok c -> pathDense c = true <-> include = [].
Proof.
  intros Hb. pose proof (build_spec include exclude h) as H. rewrite Hb in H. destruct H as (Hn & _ & He & _).
  unfold pathDense. rewrite Z.eqb_eq. split.
  - intros Hl%len_zero. apply (normal_no_include _ _ Hn) in Hl. unfold raw in Hl. by destruct include.
  - intros ->. destruct (c_include c) as [|m ms] eqn:Ei; [done|].
    assert (mk_entry m false ∈ ents c) as Hm by (apply elem_of_ents; cbn; rewrite Ei; by left).
    apply (nm_sub _ _ Hn), elem_of_raw in Hm. by apply not_elem_of_nil in Hm.
Qed.

(** [Decide] on a cone of known normal form. *)
Lemma Decide_spec L c p : normal L c -> nonempty_paths (ents c) -> pathDense c = false ->
  exists d, Decide c p = Ok d
    /\ (Covered d = true <-> decides (ents c) p false)
    /\ (Excluded d = true <-> decides (ents c) p true)
    /\ (Member d = [] <-> uncovered (ents c) p).
Proof.
  intros Hn Hne Hd. unfold Decide. rewrite Hd. pose proof (normal_consistent _ _ Hn) as Hc.
  destruct (longestCovering_spec c p Hne) as [(e & He & ->)|[Hu ->]]; cbn [obind].
  - pose proof (Hne _ (proj1 He)) as Hpe. rewrite (proj2 (bytes_eqb_neq (e_path e) [])) by done.
    exists (mk_Decision (negb (e_exclude e)) (e_path e)). unfold Excluded. cbn.
    rewrite (proj2 (bytes_eqb_neq (e_path e) [])) by done. cbn. rewrite negb_involutive, negb_true_iff.
    split_and!; [done|split|split|split]; try (intros Hx; by exists e).
    + intros Hx. by apply (decides_fun _ _ _ _ Hc (ex_intro _ e (conj He eq_refl))).
    + intros Hx. by apply (decides_fun _ _ _ _ Hc (ex_intro _ e (conj He eq_refl))).
    + done.
    + intros Hu. destruct (Hu _ (proj1 He)). apply He.
  - exists (mk_Decision false []). cbn. split_and!; [done|split|split|done]; try done;
      intros (k & (Hk & Hkc & _) & _); by apply Hu in Hk.
Qed.

(** Where one member of either polarity covers, [Covers] is the specification. *)
Lemma Covers_spec include exclude h c p : build include exclude h = Ok c ->
  exists b, Covers c p = Ok b /\ (b = true <-> include = [] \/ decides (ents c) p false).
Proof.
  intros Hb. destruct (normal_nonempty _ _ _ _ Hb) as [Hn Hne]. pose proof (build_dense _ _ _ _ Hb) as Hd.
  unfold Covers. destruct (pathDense c) eqn:E.
  - exists true. unfold Decide. rewrite E. cbn. split; [done|]. split; [left; by apply Hd|done].
  - destruct (Decide_spec _ _ p Hn Hne E) as (d & -> & Hcov & _). exists (Covered d). cbn. split; [done|].
    rewrite Hcov. split; [by right|]. intros [->|H]; [|done]. by pose proof (proj2 Hd eq_refl).
Qed.

(** [build]'s own result is accepted and unchanged: normalization is idempotent. *)
Lemma normal_not_dead L c m : normal L c -> ~ dead L m.
Proof.
  intros Hn [Hm Hno]. assert (decides L m true) as Hd.
  { exists (mk_entry m true). split; [by apply (nearest_self L (mk_entry m true))|done]. }
  apply (nm_same _ _ Hn) in Hd as (k & (Hk & Hkc & _) & Hx).
  destruct (nm_needed _ _ Hn _ Hk) as [(n & (Hn1 & Hn2 & Hn3 & _) & _)|[H _]]; [|congruence].
  pose proof (Hno _ (nm_sub _ _ Hn _ Hk) Hkc) as Hkm. rewrite Hkm in Hn2, Hn3.
  rewrite (Hno _ (nm_sub _ _ Hn _ Hn1) Hn2) in Hn3. lia.
Qed.

Lemma normal_not_contradicted L c m : normal L c -> ~ contradicted L m.
Proof. intros Hn [H1 H2]. by pose proof (nm_consistent _ _ Hn _ _ H1 H2 eq_refl). Qed.

Lemma normal_ents_size L c : normal L c -> len (c_include c) + len (c_exclude c) <= len L.
Proof.
  intros Hn. assert (NoDup (ents c)) as Hnd.
  { apply NoDup_app. split_and!.
    - apply NoDup_fmap_2; [intros a b [= ->]; done|by eapply ascending_nodup, nm_include].
    - intros e H1 H2. apply list_elem_of_fmap in H1 as (m & -> & _), H2 as (m' & Hm & _). discriminate Hm.
    - apply NoDup_fmap_2; [intros a b [= ->]; done|by eapply ascending_nodup, nm_exclude]. }
  assert (length (ents c) <= length L)%nat as Hl.
  { apply NoDup_incl_length; [by apply NoDup_ListNoDup|]. intros e He. apply list_elem_of_In.
    by apply (nm_sub _ _ Hn), list_elem_of_In. }
  unfold ents in Hl. rewrite length_app, !length_map in Hl. unfold len. lia.
Qed.

Lemma normal_self L c : normal L c -> normal (ents c) c.
Proof.
  intros Hn. constructor; [done|done|by eapply normal_consistent|apply Hn|apply Hn|apply Hn].
Qed.

Lemma build_idempotent include exclude h c : build include exclude h = Ok c ->
  build (c_include c) (c_exclude c) (c_horizon c) = Ok c.
Proof.
  intros Hb. pose proof (build_spec include exclude h) as H. rewrite Hb in H.
  destruct H as (Hn & Hh & He & Hl & HF). pose proof (normal_ents_size _ _ Hn) as Hsz.
  assert (len (raw include exclude) = len include + len exclude) as Hr.
  { unfold raw, len. rewrite length_app, !length_map. lia. }
  assert (Hval : forall m, m ∈ c_include c ++ c_exclude c -> validateMember m = Ok tt).
  { intros m Hm. rewrite Forall_forall in HF. apply HF. apply elem_of_app in Hm. apply elem_of_app.
    destruct Hm as [Hm|Hm]; [left|right].
    - by apply (elem_of_raw include exclude (mk_entry m false)), (nm_sub _ _ Hn), elem_of_ents.
    - by apply (elem_of_raw include exclude (mk_entry m true)), (nm_sub _ _ Hn), elem_of_ents. }
  pose proof (normal_self _ _ Hn) as Hs. pose proof (build_spec (c_include c) (c_exclude c) (c_horizon c)) as H.
  rewrite raw_ents in H. destruct (build (c_include c) _ _) as [c'|err| |]; [|exfalso|done..].
  - destruct H as (Hn' & Hh' & _). destruct (normal_unique _ _ _ _ Hs Hn') as [H1 H2].
    { intros p. by rewrite <- (nm_same _ _ Hn'). }
    destruct c, c'. cbn in *. by subst.
  - assert (Hdense : c_include c = [] -> h = None -> False).
    { intros Hi ->. assert (include = []) as ->; [|by destruct (He eq_refl)].
      eapply build_dense; [exact Hb|]. unfold pathDense. by rewrite Hi. }
    destruct err; [destruct H as (m0 & Hm & Hv)..|destruct H as (-> & -> & H)|by eapply normal_not_dead
      |by eapply normal_not_contradicted|destruct H as (m0 & Hm & Hv)]; try (by rewrite (Hval _ Hm) in Hv).
    destruct H as [[Hi Hno]|H]; [|lia]. rewrite Hh in Hno. by apply Hdense.
Qed.

(** ** Pruning *)
Lemma covered_include c p : Covers c p = Ok true ->
  pathDense c = true \/ exists m, m ∈ c_include c /\ covers m p /\ longestCovering c p true = Ok (m, false).
Proof.
  unfold Covers, Decide. destruct (pathDense c); [by left|]. intros H. right.
  destruct (longestCovering c p true) as [[m x]| | |] eqn:E; try done. cbn [obind] in H.
  destruct (bytes_eqb m []) eqn:Em; [done|]. apply bytes_eqb_neq in Em. cbn in H.
  destruct x; [done|]. exists m. unfold longestCovering in E. cbn [negb] in E.
  destruct (longest_loop_spec p false (c_include c) ([], false)) as (o1 & E1 & _ & H1 & _).
  rewrite E1 in E. cbn [obind] in E.
  destruct (longest_loop_spec p true (c_exclude c) o1) as (o2 & E2 & _ & H2 & _). rewrite E2 in E. injection E as ->.
  destruct H2 as [<-|(Hx & _)]; [|done]. destruct H1 as [[= ->]|(_ & _ & Hin & Hc)]; [done|].
  by split_and!.
Qed.

Lemma any_inside_spec dir ms : dir <> [] ->
  exists b, any_inside dir ms = Ok b /\ (b = true <-> exists m, m ∈ ms /\ covers dir m).
Proof.
  intros Hd. induction ms as [|m ms (b & IH & Hb)]; cbn [any_inside].
  { exists false. split; [done|]. split; [done|]. by intros (m & ?%not_elem_of_nil & _). }
  rewrite memberCovers_covers by done.
  cbn [obind]. destruct (covers_b dir m) eqn:E.
  - apply covers_b_spec in E. exists true. split; [done|]. split; [|done]. intros _. exists m. split; [by left|done].
  - exists b. split; [done|]. rewrite Hb. split; intros (m' & Hm & Hc); exists m'; (split; [|done]); [by right|].
    apply elem_of_cons in Hm as [->|Hm]; [|done]. apply covers_b_spec in Hc. congruence.
Qed.

(** Everything [m] covers sorts from [m] to before [m ++ "0"]. *)
Lemma covers_range m p : covers m p -> blt p m = false /\ blt p (m ++ bs "0") = true.
Proof.
  intros [-> | [r ->]].
  - split; [apply blt_irrefl|]. unfold blt. rewrite strings_Compare_lt. apply cmp_bytes_prefix.
  - split.
    + apply blt_asym. unfold blt. rewrite strings_Compare_lt. apply cmp_bytes_prefix.
    + unfold blt. rewrite strings_Compare_lt. induction m as [|a m IH]; [done|]. cbn [app cmp_bytes].
      by rewrite Z.compare_refl.
Qed.

Lemma blt_le_trans a b c : blt a b = true -> blt c b = false -> blt a c = true.
Proof.
  intros H1 H2. destruct (blt_total b c) as [H|[H|H]]; [by eapply blt_trans|by rewrite <- H|congruence].
Qed.
