(* ===== verification/ConeSerial.v ===== *)
(** * Cones: the serialized form round-trips

    The members come out of [eachMember] in one order and back into their two
    lists, the header is read back, and [build] accepts what it built. *)

From S2P Require Import Prelude GoStd GoText GoCrypto Pathname Hash Cone ConeCorrect ConeCanonical.

(** ** eachMember *)
Definition paths_of (x : bool) (l : list entry) : list bytes :=
  map e_path (List.filter (fun e => Bool.eqb (e_exclude e) x) l).

Lemma eachMember_paths fuel include exclude x : (length include + length exclude <= fuel)%nat ->
  paths_of x (eachMember fuel include exclude) = (if x : bool then exclude else include).
Proof.
  unfold paths_of. revert include exclude. induction fuel as [|f IH]; intros [|m ms] [|y ys] Hf; cbn [length] in Hf;
    try lia; cbn [eachMember]; try (by destruct x); [| |destruct (blt m y)];
    cbn [List.filter e_exclude]; destruct x; cbn [Bool.eqb map e_path]; rewrite IH by (cbn [length]; lia); done.
Qed.

Lemma members_paths c x : paths_of x (members c) = (if x : bool then c_exclude c else c_include c).
Proof. by apply eachMember_paths. Qed.

Lemma elem_of_members c e : e ∈ members c <-> e ∈ ents c.
Proof.
  rewrite elem_of_ents, <- (members_paths c (e_exclude e)). unfold paths_of. rewrite list_elem_of_fmap. split.
  - intros He. exists e. split; [done|]. apply list_elem_of_In, filter_In. split; [by apply list_elem_of_In|].
    by destruct (e_exclude e).
  - intros (e' & Hp & He). apply list_elem_of_In, filter_In in He as [He Hx%Bool.eqb_prop].
    rewrite (entry_eq e e') by done. by apply list_elem_of_In.
Qed.

Lemma members_length c : len (members c) = len (c_include c) + len (c_exclude c).
Proof.
  assert (forall l, length l = length (paths_of false l) + length (paths_of true l))%nat as H.
  { unfold paths_of. intros l. induction l as [|[p x] l IH]; [done|]. cbn [List.filter e_exclude length].
    destruct x; cbn [Bool.eqb map length]; lia. }
  unfold len. rewrite (H (members c)), !members_paths. lia.
Qed.

(** ** The members *)
Lemma le_value_2 n : 0 <= n < 65536 -> exists a b, le_bytes 2 (n mod 2 ^ 16) = [a; b] /\ le_value [a; b] = n.
Proof.
  intros Hn. rewrite Z.mod_small by lia. do 2 eexists. split; [reflexivity|]. cbn [le_value]. rewrite !bz_zb.
  Z.to_euclidean_division_equations. lia.
Qed.

(** An entry the format can carry. *)
Definition writable (flagged : bool) (e : entry) : Prop :=
  0 < len (e_path e) < 65536 /\ (flagged = false -> e_exclude e = false).

Lemma members_loop_one k flagged e tail include exclude : writable flagged e ->
  members_loop (S k) flagged (write_member flagged e ++ tail) include exclude
  = if e_exclude e then members_loop k flagged tail include (exclude ++ [e_path e])
    else members_loop k flagged tail (include ++ [e_path e]) exclude.
Proof.
  intros [Hl Hx]. destruct e as [p x]. cbn [e_path e_exclude] in *. unfold write_member. cbn [e_path e_exclude].
  destruct (le_value_2 (len p) ltac:(lia)) as (a & b & -> & E2).
  assert (H1 : (le_value [a; b] =? 0) || (len (p ++ tail) <? le_value [a; b]) = false).
  { rewrite E2, len_app. pose proof (len_nonneg tail). destruct (_ || _) eqn:E; [|done]. zbool. lia. }
  assert (H2 : take (Z.to_nat (le_value [a; b])) (p ++ tail) = p) by (by rewrite E2, take_len_app).
  assert (H3 : drop (Z.to_nat (le_value [a; b])) (p ++ tail) = tail) by (by rewrite E2, drop_len_app).
  rewrite <- app_assoc. cbn [members_loop]. destruct flagged.
  - destruct x; cbn [app]; change (bz x01 >? 1) with false; change (bz x00 >? 1) with false; cbn [obind];
      rewrite H1, H2, H3; reflexivity.
  - rewrite (Hx eq_refl). cbn [app obind]. by rewrite H1, H2, H3.
Qed.

Lemma members_loop_write flagged ms include exclude : Forall (writable flagged) ms ->
  members_loop (length ms) flagged (ms ≫= write_member flagged) include exclude
  = Ok (include ++ paths_of false ms, exclude ++ paths_of true ms).
Proof.
  intros HF. revert include exclude. induction HF as [|e ms He _ IH]; intros include exclude.
  { cbn. by rewrite !app_nil_r. }
  change ((e :: ms) ≫= write_member flagged) with (write_member flagged e ++ (ms ≫= write_member flagged)).
  cbn [length]. rewrite members_loop_one by done. unfold paths_of in *. destruct e as [p x].
  destruct x; cbn [e_exclude e_path List.filter Bool.eqb map]; rewrite IH; by rewrite <- app_assoc.
Qed.

(** ** The header *)
Definition horizon_ok (h : option Horizon) : Prop :=
  match h with Some hz => exists hash, NewHorizon hash (h_rule hz) (h_depth hz) = Ok hz | None => True end.

Lemma lower_byte_idem h : map lower_byte (map lower_byte h) = map lower_byte h.
Proof. rewrite map_map. apply map_ext. intros c. by_bytes c. Qed.

Lemma NewHorizon_ok hash rule depth hz : NewHorizon hash rule depth = Ok hz ->
  h_rule hz = rule /\ h_depth hz = depth /\ (len (h_hash hz) = 40 \/ len (h_hash hz) = 64)
  /\ NewHorizon (h_hash hz) rule depth = Ok hz.
Proof.
  unfold NewHorizon. destruct (_ && _) eqn:E1; [done|]. destruct (isHexAnyCase hash) eqn:E2; [|done]. cbn [negb].
  destruct (negb (rule_valid rule) || negb (depth_valid depth)) eqn:E3; [done|]. intros [= <-]. cbn [h_hash h_rule h_depth].
  pose proof (isHexAnyCase_lower _ E2) as H1. pose proof (lower_byte_idem hash) as H2. assert (len (map lower_byte hash) = len hash) as Hl by (unfold len; by rewrite length_map).
  rewrite Hl, E1, H1, H2. split_and!; try done. apply andb_false_iff in E1. rewrite !negb_false_iff, !Z.eqb_eq in E1. done.
Qed.

(** What [Serialize] writes before the members, on [total] of them. *)
Definition header_of (h : option Horizon) (flagged : bool) (total : Z) : bytes :=
  match h with
  | Some h => [x00; serialVersionHorizon; zb total; h_rule h; h_depth h; zb (len (h_hash h))] ++ h_hash h
  | None => if flagged then [x00; serialVersionExclusions; zb total] else [zb total]
  end.

Lemma parseHeader_header h flagged total body : horizon_ok h -> 0 <= total <= MaxMembers -> (h = None -> 0 < total) ->
  parseHeader (header_of h flagged total ++ body) = Ok (h, body, total).
Proof.
  unfold MaxMembers. intros Hh Ht Hpos. assert (bz (zb total) = total) as Hb by (apply bz_zb_small; lia). destruct h as [hz|].
  - destruct Hh as [hash Hh]. destruct (NewHorizon_ok _ _ _ _ Hh) as (_ & _ & Hl & Hn). cbn [header_of app].
    unfold parseHeader. change (negb (Byte.eqb x00 x00)) with false. cbv iota.
    change (Byte.eqb serialVersionHorizon serialVersionExclusions) with false.
    change (Byte.eqb serialVersionHorizon serialVersionHorizon) with true. cbv iota zeta.
    assert (bz (zb (len (h_hash hz))) = len (h_hash hz)) as -> by (apply bz_zb_small; lia).
    rewrite take_len_app, drop_len_app. rewrite Hn. cbn [wrap_err obind].
    assert (negb (len (h_hash hz) =? 40) && negb (len (h_hash hz) =? 64) || (len (h_hash hz ++ body) <? len (h_hash hz)) = false) as ->.
    { rewrite len_app. pose proof (len_nonneg body). destruct Hl as [-> | ->]; cbn -[Z.add]; apply Z.ltb_ge; lia. }
    by rewrite Hb.
  - specialize (Hpos eq_refl). destruct flagged; cbn [header_of app].
    + unfold parseHeader. change (negb (Byte.eqb x00 x00)) with false.
      change (Byte.eqb serialVersionExclusions serialVersionExclusions) with true. cbv iota. by rewrite Hb.
    + unfold parseHeader. destruct (Byte.eqb (zb total) x00) eqn:E; [|cbn [negb]; by rewrite Hb].
      apply byte_eqb_eq in E. rewrite E in Hb. change (bz x00) with 0 in Hb. lia.
Qed.

(** ** Serialize and Parse *)
Definition flagged_of (c : Cone) : bool := (len (c_exclude c) >? 0) || negb (bool_decide (c_horizon c = None)).

Lemma build_total include exclude h c : build include exclude h = Ok c ->
  c_horizon c = h /\ len (c_include c) + len (c_exclude c) <= MaxMembers
  /\ (h = None -> 0 < len (c_include c)) /\ forall e, e ∈ ents c -> 0 < len (e_path e) <= MaxMemberLen.
Proof.
  intros Hb. pose proof (build_spec include exclude h) as H0. rewrite Hb in H0. destruct H0 as (_ & Hh & _).
  pose proof (build_spec (c_include c) (c_exclude c) (c_horizon c)) as H. rewrite (build_idempotent _ _ _ _ Hb) in H.
  destruct H as (_ & _ & He & Hl & HF). split_and!; [done|done| |].
  - intros ->. pose proof (len_nonneg (c_include c)). destruct (Z.eq_dec (len (c_include c)) 0) as [E%len_zero|]; [|lia].
    by destruct (He E).
  - intros e Hin%elem_of_ents. rewrite Forall_forall in HF.
    assert (validateMember (e_path e) = Ok tt) as Hv by (apply HF, elem_of_app; destruct (e_exclude e); tauto).
    pose proof (validateMember_nonempty _ Hv). split.
    + pose proof (len_nonneg (e_path e)). destruct (Z.eq_dec (len (e_path e)) 0) as [E%len_zero|]; [done|lia].
    + rewrite validateMember_eq in Hv. destruct (len (e_path e) >? MaxMemberLen) eqn:E; [done|]. rewrite Z.gtb_ltb in E. by zbool.
Qed.

Lemma Serialize_built include exclude h c : build include exclude h = Ok c ->
  Serialize c = Ok (header_of h (flagged_of c) (len (members c)) ++ (members c ≫= write_member (flagged_of c))).
Proof.
  intros Hb. destruct (build_total _ _ _ _ Hb) as (<- & Hl & Hi & _). unfold Serialize, flagged_of.
  destruct (_ || _) eqn:E.
  { apply orb_true_iff in E as [E|E]; [|rewrite Z.gtb_ltb in E; zbool; lia]. zbool. apply bool_decide_eq_true in H0. by specialize (Hi H0); lia. }
  rewrite members_length. unfold header_of. by destruct (c_horizon c).
Qed.

Lemma members_writable include exclude h c : build include exclude h = Ok c -> Forall (writable (flagged_of c)) (members c).
Proof.
  intros Hb. destruct (build_total _ _ _ _ Hb) as (_ & _ & _ & He). apply Forall_forall. intros e Hm%elem_of_members.
  pose proof (He _ Hm). unfold MaxMemberLen in *. split; [lia|]. unfold flagged_of. intros [Hf _]%orb_false_iff.
  apply elem_of_ents in Hm. destruct (e_exclude e); [|done]. rewrite Z.gtb_ltb in Hf. zbool.
  pose proof (len_nonneg (c_exclude c)). rewrite (len_zero (c_exclude c)) in Hm by lia. by apply not_elem_of_nil in Hm.
Qed.

Lemma header_lead include exclude h c body : build include exclude h = Ok c ->
  match header_of h (flagged_of c) (len (members c)) ++ body with
  | b :: _ => Byte.eqb b x00 = flagged_of c
  | [] => False
  end.
Proof.
  intros Hb. destruct (build_total _ _ _ _ Hb) as (<- & Hl & Hi & _). rewrite members_length. unfold header_of, flagged_of.
  destruct (c_horizon c); cbn [app]; [by rewrite orb_true_r|]. rewrite orb_false_r. specialize (Hi eq_refl).
  destruct (len (c_exclude c) >? 0); [done|]. cbn [app]. apply byte_eqb_neq. intros E. apply (f_equal bz) in E.
  unfold MaxMembers in Hl. pose proof (len_nonneg (c_exclude c)). rewrite bz_zb_small in E by lia. change (bz x00) with 0 in E. lia.
Qed.

Lemma Parse_Serialize include exclude h c : build include exclude h = Ok c -> horizon_ok h ->
  exists data, Serialize c = Ok data /\ Parse data = Ok c.
Proof.
  intros Hb Hh. pose proof (Serialize_built _ _ _ _ Hb) as Hs. eexists. split; [exact Hs|].
  destruct (build_total _ _ _ _ Hb) as (Hhc & Hl & Hi & _).
  set (body := members c ≫= write_member (flagged_of c)) in *.
  pose proof (header_lead _ _ _ _ body Hb) as Hlead. set (data := header_of _ _ _ ++ body) in *.
  pose proof (len_nonneg (members c)) as Hm0.
  assert (parseHeader data = Ok (h, body, len (members c))) as Hp.
  { apply parseHeader_header; [done|rewrite members_length in *; lia|]. intros Hn. specialize (Hi Hn).
    rewrite members_length. pose proof (len_nonneg (c_exclude c)). lia. }
  unfold Parse. destruct data as [|b0 data0] eqn:Ed; [done|]. rewrite Hp, Hlead. cbn [obind].
  assert ((len (members c) =? 0) && bool_decide (h = None) = false) as ->.
  { destruct (_ && _) eqn:E; [|done]. zbool. apply bool_decide_eq_true in H0. specialize (Hi H0).
    rewrite members_length in H. pose proof (len_nonneg (c_exclude c)). lia. }
  unfold parseMembers. assert ((len (members c) >? MaxMembers) = false) as ->.
  { rewrite Z.gtb_ltb, members_length. by apply Z.ltb_ge. }
  replace (Z.to_nat (len (members c))) with (length (members c)) by (unfold len; lia).
  unfold body. rewrite members_loop_write by (by eapply members_writable). cbn [obind app].
  rewrite !members_paths, <- Hhc, (build_idempotent _ _ _ _ Hb). cbn [obind]. rewrite Hs. cbn [obind]. by rewrite bytes_eqb_refl.
Qed.

(** ** Parse returns *)
Lemma members_loop_returns k flagged data include exclude : returns (members_loop k flagged data include exclude).
Proof.
  revert data include exclude. induction k as [|k IH]; intros data include exclude; cbn [members_loop]; [by destruct data|].
  apply returns_bind.
  { destruct flagged; [|done]. destruct data as [|f data]; [done|]. by destruct (bz f >? 1). }
  intros [x d] _. destruct d as [|l0 [|l1 d]]; [done..|]. cbv zeta. destruct (_ || _); [done|]. destruct x; apply IH.
Qed.

Lemma parseHeader_returns b data : returns (parseHeader (b :: data))
  /\ forall h rest count, parseHeader (b :: data) = Ok (h, rest, count) -> 0 <= count <= MaxMembers.
Proof.
  unfold parseHeader, MaxMembers. destruct (negb _).
  { split; [done|]. intros h rest count [= _ _ <-]. pose proof (bz_range b). lia. }
  destruct data as [|v [|cnt rest3]]; [done..|]. pose proof (bz_range cnt).
  destruct (Byte.eqb v serialVersionExclusions); [split; [done|intros ? ? ? [= _ _ <-]; lia]|].
  destruct (Byte.eqb v serialVersionHorizon); [|done]. destruct rest3 as [|r [|d [|nb rest6]]]; [done..|].
  cbv zeta. destruct (_ || _); [done|]. split.
  - apply returns_bind; [|done]. apply returns_wrap_err. unfold NewHorizon. by repeat case_goal.
  - intros h rest count Hk. apply obind_ok in Hk as (hz & _ & [= _ _ <-]). lia.
Qed.

Lemma cone_Parse_returns data : returns (Parse data).
Proof.
  destruct data as [|b data]; [done|]. destruct (parseHeader_returns b data) as [H1 H2]. unfold Parse.
  apply returns_bind; [done|]. intros [[h rest] count] Hp. specialize (H2 _ _ _ Hp).
  destruct (_ && _); [done|]. apply returns_bind.
  { unfold parseMembers. rewrite Z.gtb_ltb. destruct (MaxMembers <? count) eqn:E; [zbool; lia|]. apply members_loop_returns. }
  intros [include exclude] _. pose proof (build_spec include exclude h) as Hs.
  destruct (build include exclude h) as [c|err| |] eqn:Eb; [|done|done..]. cbn [obind].
  rewrite (Serialize_built _ _ _ _ Eb). cbn [obind]. by destruct (negb _).
Qed.

Lemma cone_Parse_ok data c : Parse data = Ok c ->
  Serialize c = Ok data /\ exists include exclude h, build include exclude h = Ok c.
Proof.
  destruct data as [|b data]; [done|]. unfold Parse. intros H.
  apply obind_ok in H as ([[h rest] count] & _ & H). destruct (_ && _); [done|].
  apply obind_ok in H as ([include exclude] & _ & H). apply obind_ok in H as (c' & Hb & H).
  apply obind_ok in H as (out & Hs & H). destruct (bytes_eqb out (b :: data)) eqn:E; [|done].
  cbn [negb] in H. apply bytes_eqb_eq in E. injection H as ->. subst out. split; [done|]. by exists include, exclude, h.
Qed.
