(* ===== verification/ConeSpec.v ===== *)
(** * Cones: the theorems

    When [build] accepts, what the accepted cone covers, that it is canonical,
    that the serialized form round-trips, and that pruning loses nothing. *)

From S2P Require Import Prelude GoStd GoText GoCrypto Pathname Hash Cone ConeCorrect ConeCanonical ConeSerial.

(** C40: [build] never panics, and it accepts exactly the member lists that
    are within bounds, are valid names, carry no path with both polarities and
    hold no exclusion without a member above it. *)
Theorem build_accepts include exclude h :
  returns (build include exclude h)
  /\ ((exists c, build include exclude h = Ok c) <->
      (include = [] -> h <> None) /\ len include + len exclude <= MaxMembers
      /\ Forall (fun m => validateMember m = Ok tt) (include ++ exclude)
      /\ (forall m, ~ (m ∈ include /\ m ∈ exclude))
      /\ (forall m, m ∈ exclude -> exists d, d ∈ include ++ exclude /\ covers d m /\ d <> m)).
Proof.
  pose proof (build_spec include exclude h) as H.
  assert (Hcon : forall m, contradicted (raw include exclude) m <-> m ∈ include /\ m ∈ exclude).
  { intros m. unfold contradicted. by rewrite !elem_of_raw. }
  assert (Hdead : forall m, m ∈ exclude -> (exists d, d ∈ include ++ exclude /\ covers d m /\ d <> m) <-> ~ dead (raw include exclude) m).
  { intros m Hm. split.
    - intros (d & Hd & Hc & Hne) [_ H']. apply Hne. apply elem_of_app in Hd as [Hd|Hd].
      + by apply (H' (mk_entry d false)); [apply elem_of_raw|].
      + by apply (H' (mk_entry d true)); [apply elem_of_raw|].
    - intros Hnd. destruct (decide (Exists (fun d => covers_b d m = true /\ d <> m) (include ++ exclude))) as [He|He].
      + apply Exists_exists in He as (d & Hd & Hc%covers_b_spec & Hne). by exists d.
      + destruct Hnd. split; [by apply elem_of_raw|]. intros [d x] Hd Hc. cbn in *.
        destruct (decide (d = m)) as [|Hne]; [done|]. destruct He. apply Exists_exists. exists d.
        split; [|by rewrite covers_b_spec]. apply elem_of_raw in Hd. cbn in Hd. apply elem_of_app. destruct x; tauto. }
  destruct (build include exclude h) as [c|err| |]; [| |done..].
  - split; [done|]. split; [intros _|by exists c]. destruct H as (Hn & _ & He & Hl & HF).
    split_and!; [intros Hi; by apply He|done..| |].
    + intros m Hm%Hcon. by eapply normal_not_contradicted.
    + intros m Hm. apply Hdead; [done|by eapply normal_not_dead].
  - split; [done|]. split; [by intros [c [=]]|]. intros (H1 & H2 & H3 & H4 & H5). exfalso.
    rewrite Forall_forall in H3.
    destruct err; [destruct H as (m0 & Hm & Hv)..|destruct H as (-> & -> & H)| |by apply Hcon, H4 in H
      |destruct H as (m0 & Hm & Hv)]; try (by rewrite (H3 _ Hm) in Hv).
    + destruct H as [[Hi Hno]|H]; [by apply (H1 Hi)|lia].
    + pose proof (proj1 H) as Hm. apply elem_of_raw in Hm. cbn in Hm. by apply (Hdead _ Hm) in H; [|apply H5].
Qed.

(** C34: a built cone answers coverage as the member list it was given does:
    the longest given member covering a path decides by its polarity, whatever
    normalization dropped, and with no inclusion every path is covered. *)
Theorem build_coverage include exclude h c p (Hb : build include exclude h = Ok c) :
  exists d, Decide c p = Ok d
    /\ (Covered d = true <-> include = [] \/ decides (raw include exclude) p false)
    /\ (Excluded d = true <-> decides (raw include exclude) p true)
    /\ (Member d = [] <-> include = [] \/ uncovered (raw include exclude) p).
Proof.
  destruct (normal_nonempty _ _ _ _ Hb) as [Hn Hne]. pose proof (build_dense _ _ _ _ Hb) as Hd.
  assert (Hunc : uncovered (ents c) p <-> uncovered (raw include exclude) p).
  { assert (forall L, uncovered L p <-> forall x, ~ decides L p x) as Hu.
    { intros L. split; [intros Hu x (k & (Hk & Hc & _) & _); by apply Hu in Hk|].
      intros Hno. destruct (nearest_or_uncovered L p) as [|[n Hl]]; [done|]. destruct (Hno (e_exclude n)). by exists n. }
    rewrite !Hu. by setoid_rewrite (nm_same _ _ Hn p). }
  destruct (pathDense c) eqn:E.
  - exists (mk_Decision true []). unfold Decide. rewrite E. split; [done|].
    pose proof (proj1 Hd eq_refl) as ->. cbn. split_and!; [split; [by left|done]| |split; [by left|done]].
    split; [done|]. intros Hx. apply (nm_same _ _ Hn) in Hx as (k & (Hk & _) & _).
    unfold pathDense in E. apply Z.eqb_eq, len_zero in E. apply (nm_needed _ _ Hn) in Hk as Hnk.
    pose proof (normal_ents_size _ _ Hn). exfalso.
    pose proof (build_spec [] exclude h) as Hs. rewrite Hb in Hs. destruct Hs as (_ & _ & He & _).
    destruct (He eq_refl) as [-> _]. by apply (nm_sub _ _ Hn), not_elem_of_nil in Hk.
  - assert (include <> []) as Hi by (intros ->; by pose proof (proj2 Hd eq_refl)).
    destruct (Decide_spec _ _ p Hn Hne E) as (d & -> & H1 & H2 & H3). exists d. split; [done|].
    rewrite H1, H2, H3, Hunc, !(nm_same _ _ Hn p). tauto.
Qed.

(** Two built cones with one horizon are equal as soon as they cover the same paths. *)
Lemma build_unique include exclude include' exclude' h c c'
  (Hb : build include exclude h = Ok c) (Hb' : build include' exclude' h = Ok c') :
  (forall p, Covers c p = Covers c' p) <-> c = c'.
Proof.
  split; [|by intros ->]. intros Hsame.
  destruct (normal_nonempty _ _ _ _ Hb) as [Hn Hne], (normal_nonempty _ _ _ _ Hb') as [Hn' Hne'].
  pose proof (build_spec include exclude h) as Hs. rewrite Hb in Hs. destruct Hs as (_ & Hh & He & _).
  pose proof (build_spec include' exclude' h) as Hs. rewrite Hb' in Hs. destruct Hs as (_ & Hh' & He' & _).
  assert (Hcov : forall p, (include = [] \/ decides (ents c) p false) <-> (include' = [] \/ decides (ents c') p false)).
  { intros p. destruct (Covers_spec _ _ _ _ p Hb) as (b & H1 & H2), (Covers_spec _ _ _ _ p Hb') as (b' & H1' & H2').
    specialize (Hsame p). rewrite H1, H1' in Hsame. injection Hsame as ->. by rewrite <- H2, <- H2'. }
  assert (Hroot : forall include exclude h c, build include exclude h = Ok c -> ~ decides (ents c) [] false).
  { intros i x h' k Hk (n & (Hin & Hcn & _) & _). destruct (normal_nonempty _ _ _ _ Hk) as [_ Hz].
    apply (Hz _ Hin). destruct Hcn as [Hc|[r Hc]]; [done|]. by apply app_cons_not_nil in Hc. }
  assert (Hi : include = [] <-> include' = []).
  { specialize (Hcov []). pose proof (Hroot _ _ _ _ Hb). pose proof (Hroot _ _ _ _ Hb'). tauto. }
  assert (c_include c = c_include c' /\ c_exclude c = c_exclude c') as [H1 H2].
  { eapply normal_unique; [done..|]. intros p. specialize (Hcov p).
    destruct include as [|m ms]; [|destruct include' as [|m' ms']; [by destruct Hi as [_ Hi]; discriminate Hi|]].
    - destruct (He eq_refl) as [-> _]. rewrite (proj1 Hi eq_refl) in He', Hn'. destruct (He' eq_refl) as [-> _].
      split; intros (k & (Hk & _) & _); apply nm_sub with (1 := Hn) in Hk || apply nm_sub with (1 := Hn') in Hk; by apply not_elem_of_nil in Hk.
    - split; intros Hd; [assert (m' :: ms' = [] \/ decides (ents c') p false) as [|] by (apply Hcov; by right)
        |assert (m :: ms = [] \/ decides (ents c) p false) as [|] by (apply Hcov; by right)]; done. }
  destruct c, c'. cbn in *. congruence.
Qed.

(** The serialized form determines a built cone. *)
Lemma Serialize_unique include exclude include' exclude' h h' c c' :
  build include exclude h = Ok c -> build include' exclude' h' = Ok c' -> horizon_ok h -> horizon_ok h' ->
  Serialize c = Serialize c' -> c = c'.
Proof.
  intros Hb Hb' Hh Hh' E.
  destruct (Parse_Serialize _ _ _ _ Hb Hh) as (data & Hs & Hp), (Parse_Serialize _ _ _ _ Hb' Hh') as (data' & Hs' & Hp').
  congruence.
Qed.

Lemma Digest_built `{!Sha3} c data : Serialize c = Ok data -> Digest c = Ok (hex_encode (sha3_Sum256 data)).
Proof. intros E. unfold Digest. by rewrite E. Qed.

(** C35: the digest is a cache key for what a cone covers.  Two cones built
    from any member lists, their horizons as NewHorizon makes them, both
    serialize; they have one horizon and cover the same paths exactly when they
    are the same cone, exactly when their serialized bytes are the same; and
    their digests are equal exactly when the cones are, a SHA3-256 collision
    between the two serialized forms apart. *)
Theorem build_canonical `{!Sha3} include exclude include' exclude' h h' c c'
  (Hb : build include exclude h = Ok c) (Hb' : build include' exclude' h' = Ok c')
  (Hh : horizon_ok h) (Hh' : horizon_ok h') :
  exists data data', Serialize c = Ok data /\ Serialize c' = Ok data'
    /\ (h = h' /\ (forall p, Covers c p = Covers c' p) <-> c = c')
    /\ (data = data' <-> c = c')
    /\ (Digest c = Digest c' <-> c = c' \/ (data <> data' /\ sha3_Sum256 data = sha3_Sum256 data')).
Proof.
  destruct (Parse_Serialize _ _ _ _ Hb Hh) as (data & Hs & _), (Parse_Serialize _ _ _ _ Hb' Hh') as (data' & Hs' & _).
  assert (Hd : data = data' <-> c = c').
  { split; [|congruence]. intros ->. by apply (Serialize_unique _ _ _ _ _ _ _ _ Hb Hb' Hh Hh'); rewrite Hs. }
  exists data, data'. split_and!; [done..| |done|].
  - split; [intros [-> Hc]; by apply (build_unique _ _ _ _ _ _ _ Hb Hb')|]. intros ->. split; [|done].
    pose proof (build_spec include exclude h) as H1. pose proof (build_spec include' exclude' h') as H2.
    rewrite Hb in H1. rewrite Hb' in H2. destruct H1 as (_ & <- & _), H2 as (_ & <- & _). done.
  - rewrite (Digest_built _ _ Hs), (Digest_built _ _ Hs'). split.
    + intros [= E%hex_encode_inj]. destruct (decide (data = data')) as [E'|]; [left; by apply Hd|by right].
    + intros [->|[_ ->]]; [|done]. by rewrite (proj2 Hd eq_refl).
Qed.

(** A range is entered whenever a covered path lies in it. *)
Lemma MayCover_sound c p first limit : Covers c p = Ok true -> blt p first = false ->
  limit = [] \/ blt p limit = true -> MayCover c first limit = true.
Proof.
  intros Hcp Hf Hl. unfold MayCover.
  destruct (covered_include c p Hcp) as [->|(m & Hm & Hc & _)]; [done|]. destruct (pathDense c); [done|].
  destruct (covers_range m p Hc) as [H1 H2]. apply existsb_exists. exists m.
  split; [by apply list_elem_of_In|]. unfold ble. apply andb_true_iff. split.
  - destruct Hl as [->|Hl]; [done|].
    assert (blt m limit = true) as ->; [|by destruct (bytes_eqb limit [])].
    destruct (blt_total m limit) as [H|[H|H]]; [done|rewrite <- H in Hl; congruence|].
    by rewrite (blt_trans _ _ _ Hl H) in H1.
  - rewrite negb_involutive. destruct (blt_total p first) as [H|[H|H]]; [congruence|by rewrite <- H|by eapply blt_trans].
Qed.

(** Pruning loses nothing: a subtree is entered exactly when it holds a
    covered path, and a range is entered whenever a covered path lies in it. *)
Theorem pruning_sound include exclude h c (Hb : build include exclude h = Ok c) :
  (forall dir, dir <> [] -> exists b, IntersectsSubtree c dir = Ok b
     /\ (b = true <-> exists p, covers dir p /\ Covers c p = Ok true))
  /\ (forall p first limit, Covers c p = Ok true -> blt p first = false ->
        limit = [] \/ blt p limit = true -> MayCover c first limit = true).
Proof.
  destruct (normal_nonempty _ _ _ _ Hb) as [Hn _]. split.
  - intros dir Hdir. unfold IntersectsSubtree. destruct dir as [|a dir]; [done|]. set (d := a :: dir) in *.
    destruct (Covers_spec _ _ _ _ d Hb) as (b & Hcd & Hbd). destruct (pathDense c) eqn:E.
    { exists true. split; [done|]. split; [|done]. intros _. exists d. split; [apply covers_refl|].
      unfold Covers, Decide. by rewrite E. }
    rewrite Hcd. cbn [obind]. destruct b.
    { exists true. split; [done|]. split; [|done]. intros _. exists d. split; [apply covers_refl|done]. }
    destruct (any_inside_spec d (c_include c) Hdir) as (b & -> & Hb'). exists b. split; [done|]. rewrite Hb'. split.
    + intros (m & Hm & Hc). exists m. split; [done|]. destruct (Covers_spec _ _ _ _ m Hb) as (x & -> & Hx). f_equal.
      apply Hx. right. exists (mk_entry m false). split; [|done].
      by apply (nearest_self _ (mk_entry m false)), elem_of_ents.
    + intros (p & Hp & Hcp). destruct (Covers_spec _ _ _ _ p Hb) as (x & Hx & Hxp). rewrite Hcp in Hx. injection Hx as <-.
      assert (include <> []) as Hi by (intros ->; by pose proof (proj2 Hbd (or_introl eq_refl))).
      destruct (proj1 Hxp eq_refl) as [|(n & (Hn1 & Hn2 & Hn3) & Hnx)]; [done|].
      destruct (Z.le_gt_cases (len (e_path n)) (len d)) as [Hl|Hl].
      * assert (decides (ents c) d false) as Hd; [|by pose proof (proj2 Hbd (or_intror Hd))].
        exists n. split; [|done]. split; [done|]. split; [by eapply covers_nested|].
        intros k Hk Hkc. apply Hn3; [done|by eapply covers_trans].
      * exists (e_path n). split; [|eapply covers_nested; [done..|lia]].
        apply elem_of_ents in Hn1. by rewrite Hnx in Hn1.
  - apply MayCover_sound.
Qed.

(** A built cone, with a horizon [NewHorizon] built, serializes, and the
    bytes parse back to the same cone. *)
Theorem cone_roundtrip include exclude h c (Hb : build include exclude h = Ok c) (Hh : horizon_ok h) :
  exists data, Serialize c = Ok data /\ Parse data = Ok c.
Proof. by eapply Parse_Serialize. Qed.

(** [Parse] fails closed on stored state: on any bytes it returns without
    panicking, and what it accepts is the serialization of a cone [build]
    accepted, so no cone has a second stored form. *)
Theorem cone_parse_closed data :
  returns (Parse data)
  /\ (forall c, Parse data = Ok c -> Serialize c = Ok data /\ exists include exclude h, build include exclude h = Ok c)
  /\ (forall data' c, Parse data = Ok c -> Parse data' = Ok c -> data' = data).
Proof.
  split; [apply cone_Parse_returns|]. split; [apply cone_Parse_ok|].
  intros data' c [H _]%cone_Parse_ok [H' _]%cone_Parse_ok. congruence.
Qed.

(** ** Witnesses *)

(** "src" without "src/v" but with "src/v/x", given twice over and unsorted. *)
Definition ex_include : list bytes := [bs "src/v/x"; bs "src"; bs "src/lib"; bs "doc"].
Definition ex_exclude : list bytes := [bs "src/v"].
Definition ex_cone : Cone := mk_Cone [bs "doc"; bs "src"; bs "src/v/x"] [bs "src/v"] None.
Definition ex_horizon : option Horizon :=
  Some (mk_Horizon (bs "0123456789abcdef0123456789abcdef01234567") RuleLeaves DepthStructural).

Lemma ex_build : build ex_include ex_exclude None = Ok ex_cone.
Proof. vm_compute. reflexivity. Qed.

Lemma ex_build_sorted : build [bs "doc"; bs "src"; bs "src/v/x"] ex_exclude None = Ok ex_cone.
Proof. vm_compute. reflexivity. Qed.

Lemma ex_build_horizon : build ex_include ex_exclude ex_horizon
  = Ok (mk_Cone (c_include ex_cone) (c_exclude ex_cone) ex_horizon).
Proof. vm_compute. reflexivity. Qed.

Lemma build_coverage_witness : exists d, Decide ex_cone (bs "src/v/y") = Ok d
  /\ (Excluded d = true <-> decides (raw ex_include ex_exclude) (bs "src/v/y") true).
Proof.
  destruct (build_coverage ex_include ex_exclude None ex_cone (bs "src/v/y") ex_build) as (d & H1 & _ & H2 & _). by exists d.
Defined.

(** A stand-in for SHA-3 that keeps its input's first bytes. *)
#[local] Program Instance prefix_Sha3 : Sha3 := {| sha3_Sum256 data := take 32 (data ++ repeat x00 32) |}.
Next Obligation. intros data. unfold len. rewrite length_take, length_app, repeat_length. lia. Qed.

Lemma ex_horizon_ok : horizon_ok ex_horizon.
Proof. exists (bs "0123456789ABCDEF0123456789abcdef01234567"). vm_compute. reflexivity. Qed.

(** One cone from two lists has one digest; with a horizon the digest differs. *)
Lemma build_canonical_witness :
  Digest ex_cone = Digest ex_cone
  /\ Digest ex_cone <> Digest (mk_Cone (c_include ex_cone) (c_exclude ex_cone) ex_horizon).
Proof.
  split.
  - destruct (build_canonical ex_include ex_exclude [bs "doc"; bs "src"; bs "src/v/x"] ex_exclude None None ex_cone ex_cone
      ex_build ex_build_sorted I I) as (data & data' & _ & _ & _ & _ & H).
    apply H. by left.
  - destruct (build_canonical ex_include ex_exclude ex_include ex_exclude None ex_horizon ex_cone _
      ex_build ex_build_horizon I ex_horizon_ok) as (data & data' & H1 & H2 & _ & _ & H).
    intros [E|[_ E]]%H; [discriminate E|]. injection H1 as <-. injection H2 as <-. vm_compute in E. discriminate E.
Defined.

Lemma pruning_sound_witness : MayCover ex_cone (bs "src/v/") (bs "src/w") = true.
Proof.
  destruct (pruning_sound ex_include ex_exclude None ex_cone ex_build) as [_ H].
  apply (H (bs "src/v/x")); [vm_compute; reflexivity..|right; vm_compute; reflexivity].
Defined.

Lemma cone_roundtrip_witness : exists data,
  Serialize (mk_Cone (c_include ex_cone) (c_exclude ex_cone) ex_horizon) = Ok data
  /\ Parse data = Ok (mk_Cone (c_include ex_cone) (c_exclude ex_cone) ex_horizon).
Proof.
  exact (cone_roundtrip ex_include ex_exclude ex_horizon _ ex_build_horizon ex_horizon_ok).
Defined.
