(* ===== verification/Path.v ===== *)
(** * Paths between check-ins: src/internal/path/path.go

    The check-in graph is the rows of the plink table.  A query without ORDER
    BY may return its rows in any order, which the class [RowOrder] keeps
    open.  A query that finds its table answers; I/O errors are left out. *)

From stdpp Require Import gmap.
From S2P Require Import Prelude.

(** A row of plink. *)
Record plink := mk_plink { pl_pid : Z; pl_cid : Z; pl_isprim : bool }.

(** The two queries of [Shortest]: by parent or by child, and whether only
    primary links count. *)
Record query := mk_query { q_fwd : bool; q_prim : bool }.

Class RowOrder := {
  row_order : query -> list Z -> list Z;
  row_order_perm q l : Permutation (row_order q l) l;
}.
#[export] Instance rowid_order : RowOrder := { row_order _ l := l; row_order_perm _ l := Permutation_refl l }.

Inductive path_error := ErrNoPath.
Abbreviation presult := (outcome path_error).

#[warnings="-register-all"]
Inductive PathNode := mk_PathNode (RID : Z) (From : option PathNode) (Depth : Z).
Definition RID (n : PathNode) : Z := match n with mk_PathNode r _ _ => r end.
Definition Depth (n : PathNode) : Z := match n with mk_PathNode _ _ d => d end.

(** The rows one query selects. *)
Definition select (db : list plink) (q : query) (rid : Z) : list Z :=
  if q_fwd q
  then map pl_cid (List.filter (fun r => (pl_pid r =? rid) && (negb (q_prim q) || pl_isprim r)) db)
  else map pl_pid (List.filter (fun r => (pl_cid r =? rid) && (negb (q_prim q) || pl_isprim r)) db).

Section search.
Context `{RO : !RowOrder} (db : list plink).

Definition neighbors (rid : Z) (fwdQuery revQuery : query) : list Z :=
  row_order fwdQuery (select db fwdQuery rid) ++ row_order revQuery (select db revQuery rid).

(** The From pointers from a node back to the start. *)
Fixpoint chain (n : PathNode) : list Z :=
  match n with
  | mk_PathNode r from _ => r :: match from with Some p => chain p | None => [] end
  end.

Definition reconstruct (end_ : PathNode) : list PathNode :=
  imap (fun i r => mk_PathNode r None (Z.of_nat i)) (rev (chain end_)).

(** The loop over the neighbors of [cur]: the node that is [to], or the
    visited set and the queue after it. *)
Fixpoint expand (to : Z) (cur : PathNode) (ns : list Z) (visited : gset Z) (queue : list PathNode)
  : PathNode + (gset Z * list PathNode) :=
  match ns with
  | [] => inr (visited, queue)
  | nid :: ns' =>
      if bool_decide (nid ∈ visited) then expand to cur ns' visited queue
      else
        let node := mk_PathNode nid (Some cur) (Depth cur + 1) in
        if nid =? to then inl node
        else expand to cur ns' ({[nid]} ∪ visited) (queue ++ [node])
  end.

Fixpoint search_loop (fuel : nat) (to : Z) (fwd rev : query) (visited : gset Z) (queue : list PathNode)
  : presult (list PathNode) :=
  match fuel with
  | O => Diverge
  | S f =>
      match queue with
      | [] => Err ErrNoPath
      | cur :: queue =>
          match expand to cur (neighbors (RID cur) fwd rev) visited queue with
          | inl node => Ok (reconstruct node)
          | inr (visited, queue) => search_loop f to fwd rev visited queue
          end
      end
  end.

(** Each pop of the queue takes a node no other pop takes, and every node but
    the first is an end of a link. *)
Definition search_fuel : nat := S (S (2 * length db)).

(** A nil [skip] and an empty one are alike. *)
Definition Shortest (from to : Z) (directOnly : bool) (skip : gset Z) : presult (list PathNode) :=
  if from <=? 0 then Panic "path.Shortest: from must be positive"
  else if to <=? 0 then Panic "path.Shortest: to must be positive"
  else if from =? to then Ok [mk_PathNode from None 0]
  else
    search_loop search_fuel to (mk_query true directOnly) (mk_query false directOnly)
      ({[from]} ∪ skip) [mk_PathNode from None 0].
End search.

(** * Shortest finds a shortest route, and says so when there is none

    [route from l x]: [l] is a route from [from] to [x] along links in either
    direction that enters no skipped node. *)

(** One more visited node is one fewer to visit. *)
Lemma size_difference_pop (U V : gset Z) x : x ∈ U -> x ∉ V -> size (U ∖ V) = S (size (U ∖ ({[x]} ∪ V))).
Proof.
  intros Hu Hv. assert (U ∖ V = {[x]} ∪ (U ∖ ({[x]} ∪ V))) as Heq.
  { apply leibniz_equiv. intros y. destruct (decide (y = x)); set_solver. }
  rewrite Heq at 1. rewrite size_union by set_solver. by rewrite size_singleton.
Qed.

Lemma size_list_to_set_le (l : list Z) : (size (list_to_set l : gset Z) <= length l)%nat.
Proof.
  induction l as [|x l IH]; [done|]. cbn [list_to_set length].
  pose proof (size_union_alt {[x]} (list_to_set l : gset Z)) as H. rewrite size_singleton in H.
  pose proof (subseteq_size (list_to_set l ∖ {[x]} : gset Z) (list_to_set l) ltac:(set_solver)). unfold list_to_set in *. lia.
Qed.

(** ** Routes *)
Section routes.
Context (db : list plink) (prim : bool) (skip : gset Z).

(** A link between [x] and [y], in either direction. *)
Definition edge (x y : Z) : Prop :=
  exists r, r ∈ db /\ (prim = true -> pl_isprim r = true)
    /\ (pl_pid r = x /\ pl_cid r = y \/ pl_cid r = x /\ pl_pid r = y).

Inductive route (from : Z) : list Z -> Z -> Prop :=
| route_start : route from [from] from
| route_step l x y : route from l x -> edge x y -> y ∉ skip -> route from (l ++ [y]) y.

Lemma edge_sym x y : edge x y -> edge y x.
Proof. intros (r & H1 & H2 & H3). exists r. tauto. Qed.

Lemma route_nonempty from l x : route from l x -> (1 <= length l)%nat.
Proof. destruct 1; rewrite ?length_app; cbn; lia. Qed.

Lemma route_last from l x : route from l x -> exists l', l = l' ++ [x].
Proof. destruct 1; [by exists []|by eexists]. Qed.

Lemma route_head from l x : route from l x -> exists l', l = from :: l'.
Proof. induction 1 as [|l x y _ [l' ->] _ _]; [by exists []|]. by exists (l' ++ [y]). Qed.

Lemma select_fwd rid y : y ∈ select db (mk_query true prim) rid <->
  exists r, r ∈ db /\ (prim = true -> pl_isprim r = true) /\ pl_pid r = rid /\ pl_cid r = y.
Proof.
  unfold select. cbn. rewrite list_elem_of_fmap. setoid_rewrite list_elem_of_In. setoid_rewrite filter_In.
  setoid_rewrite andb_true_iff. setoid_rewrite Z.eqb_eq. setoid_rewrite orb_true_iff. setoid_rewrite negb_true_iff.
  split; intros (r & H); exists r; destruct prim; naive_solver.
Qed.

Lemma select_rev rid y : y ∈ select db (mk_query false prim) rid <->
  exists r, r ∈ db /\ (prim = true -> pl_isprim r = true) /\ pl_cid r = rid /\ pl_pid r = y.
Proof.
  unfold select. cbn. rewrite list_elem_of_fmap. setoid_rewrite list_elem_of_In. setoid_rewrite filter_In.
  setoid_rewrite andb_true_iff. setoid_rewrite Z.eqb_eq. setoid_rewrite orb_true_iff. setoid_rewrite negb_true_iff.
  split; intros (r & H); exists r; destruct prim; naive_solver.
Qed.

Lemma neighbors_edge `{!RowOrder} x y :
  y ∈ neighbors db x (mk_query true prim) (mk_query false prim) <-> edge x y.
Proof.
  unfold neighbors, edge. rewrite elem_of_app, !row_order_perm, select_fwd, select_rev. naive_solver.
Qed.
End routes.

(** ** The invariant of the search *)
Section search.
Context `{RO : !RowOrder} (db : list plink) (prim : bool) (skip : gset Z) (from to : Z).
Abbreviation edge := (edge db prim).
Abbreviation route := (route db prim skip from).
Abbreviation nbrs x := (neighbors db x (mk_query true prim) (mk_query false prim)).

(** A node of the queue: its chain is a route and no route is shorter. *)
Record node_ok (n : PathNode) : Prop := {
  node_route : route (rev (chain n)) (RID n);
  node_depth : Depth n + 1 = len (chain n);
  node_min l : route l (RID n) -> Depth n + 1 <= len l;
}.

(** The queue is ordered by depth, which spans at most two values. *)
Definition queue_sorted (queue : list PathNode) : Prop :=
  forall i j a b, (i <= j)%nat -> queue !! i = Some a -> queue !! j = Some b -> Depth a <= Depth b <= Depth a + 1.

Record search_inv (visited : gset Z) (queue : list PathNode) : Prop := {
  inv_from : from ∈ visited;
  inv_skip : skip ⊆ visited;
  inv_to : to ∈ visited -> to ∈ skip;
  inv_nodes : Forall node_ok queue;
  inv_closed x l y : route l x -> x ∈ visited -> (exists n, n ∈ queue /\ RID n = x) \/ (edge x y -> y ∈ visited);
  inv_sorted : queue_sorted queue;
}.

(** A route to a node not visited leaves the visited nodes from the queue. *)
Lemma frontier visited queue l x : search_inv visited queue -> route l x -> x ∉ visited ->
  exists n, n ∈ queue /\ Depth n + 1 < len l.
Proof using.
  intros Hi Hr. induction Hr as [|l x y Hr IH He Hs]; intros Hx; [by destruct Hx; apply Hi|].
  rewrite len_app, len_cons, len_nil. destruct (decide (x ∈ visited)) as [Hv|Hv].
  - destruct (inv_closed _ _ Hi x l y Hr Hv) as [(n & Hn & <-)|Hc]; [|by destruct Hx; apply Hc].
    exists n. split; [done|]. pose proof (inv_nodes _ _ Hi) as HF. rewrite Forall_forall in HF.
    pose proof (node_min _ (HF _ Hn) _ Hr). lia.
  - destruct (IH Hv) as (n & Hn & Hl). exists n. split; [done|]. lia.
Qed.

Lemma sorted_head_min cur queue n : queue_sorted (cur :: queue) -> n ∈ cur :: queue -> Depth cur <= Depth n <= Depth cur + 1.
Proof using. intros Hs [i Hi]%list_elem_of_lookup. apply (Hs 0%nat i cur n); [lia|done|done]. Qed.

Lemma sorted_snoc cur queue n : queue_sorted (cur :: queue) -> Depth n = Depth cur + 1 -> queue_sorted (cur :: queue ++ [n]).
Proof using.
  intros Hs Hd i j a b Hij Ha Hb. rewrite app_comm_cons in Ha, Hb.
  apply lookup_app_Some in Ha as [Ha|[Hla Ha]], Hb as [Hb|[Hlb Hb]].
  - by apply (Hs i j a b).
  - apply list_lookup_singleton_Some in Hb as [_ <-]. pose proof (list_elem_of_lookup_2 _ _ _ Ha) as Hin.
    pose proof (sorted_head_min _ _ _ Hs Hin). lia.
  - apply lookup_lt_Some in Hb. lia.
  - apply list_lookup_singleton_Some in Ha as [_ <-], Hb as [_ <-]. lia.
Qed.

Section discover.
Context (visited : gset Z) (cur : PathNode) (queue : list PathNode) (nid : Z).
Hypothesis Hi : search_inv visited (cur :: queue).
Hypothesis He : edge (RID cur) nid.
Hypothesis Hv : nid ∉ visited.
Abbreviation node := (mk_PathNode nid (Some cur) (Depth cur + 1)).

Lemma discover_ok : node_ok node.
Proof using Hi He Hv.
  pose proof (inv_nodes _ _ Hi) as HF. inversion HF as [|? ? Hc _]; subst. split.
  - cbn [chain rev RID]. eapply route_step; [by apply node_route|done|]. intros Hs. by apply Hv, (inv_skip _ _ Hi).
  - cbn [chain Depth]. rewrite len_cons, <- (node_depth _ Hc). lia.
  - cbn [RID Depth]. intros l Hl. destruct (frontier _ _ _ _ Hi Hl Hv) as (n & Hn & Hlt).
    pose proof (sorted_head_min _ _ _ (inv_sorted _ _ Hi) Hn). lia.
Qed.

Lemma discover_inv : nid <> to -> search_inv ({[nid]} ∪ visited) (cur :: queue ++ [node]).
Proof using Hi He Hv.
  intros Hto. constructor.
  - pose proof (inv_from _ _ Hi). set_solver.
  - pose proof (inv_skip _ _ Hi). set_solver.
  - intros [->%elem_of_singleton|Hin]%elem_of_union; [done|by apply (inv_to _ _ Hi)].
  - rewrite app_comm_cons. apply Forall_app. split; [apply Hi|]. constructor; [apply discover_ok|constructor].
  - intros x l y Hr Hx. rewrite app_comm_cons. destruct (decide (x = nid)) as [->|Hne'].
    + left. exists node. split; [|done]. apply elem_of_app. right. by left.
    + destruct (inv_closed _ _ Hi x l y Hr ltac:(set_solver)) as [(n & Hn & <-)|Hc]; [left|right; set_solver].
      exists n. split; [|done]. apply elem_of_app. by left.
  - by apply sorted_snoc; [apply Hi|].
Qed.
End discover.

Lemma expand_spec cur ns visited queue : search_inv visited (cur :: queue) -> (forall y, y ∈ ns -> edge (RID cur) y) ->
  match expand to cur ns visited queue with
  | inl node => RID node = to /\ node_ok node
  | inr (visited', queue') => search_inv visited' (cur :: queue') /\ visited ⊆ visited' /\ forall y, y ∈ ns -> y ∈ visited'
  end.
Proof using.
  revert visited queue. induction ns as [|nid ns IH]; intros visited queue Hi He; cbn [expand].
  { split_and!; [done|done|]. by intros y ?%not_elem_of_nil. }
  assert (He' : forall y, y ∈ ns -> edge (RID cur) y) by (intros y Hy; apply He; by right).
  assert (Hen : edge (RID cur) nid) by (apply He; by left).
  case_bool_decide as Hv.
  - specialize (IH visited queue Hi He'). destruct (expand _ _ _ _ _) as [node|[v q]]; [done|].
    destruct IH as (H1 & H2 & H3). split_and!; [done|done|]. intros y [->|Hy]%elem_of_cons; [by apply H2|by apply H3].
  - destruct (nid =? to) eqn:E; zbool.
    + split; [done|]. by apply (discover_ok visited cur queue).
    + specialize (IH _ _ (discover_inv _ _ _ _ Hi Hen Hv E) He'). destruct (expand _ _ _ _ _) as [node|[v q]]; [done|].
      destruct IH as (H1 & H2 & H3). split_and!; [done|set_solver|]. intros y [->|Hy]%elem_of_cons; [set_solver|by apply H3].
Qed.

(** All links of the head followed, the head leaves the queue. *)
Lemma pop_inv cur visited queue : search_inv visited (cur :: queue) ->
  (forall y, edge (RID cur) y -> y ∈ visited) -> search_inv visited queue.
Proof using.
  intros Hi Hc. constructor; try apply Hi.
  - pose proof (inv_nodes _ _ Hi) as HF. by inversion HF.
  - intros x l y Hr Hx. destruct (inv_closed _ _ Hi x l y Hr Hx) as [(n & Hn & <-)|H]; [|by right].
    apply elem_of_cons in Hn as [->|Hn]; [right; apply Hc|left; by exists n].
  - intros i j a b Hij Ha Hb. by apply (inv_sorted _ _ Hi (S i) (S j) a b); [lia|..].
Qed.

(** ** The measure *)
Definition ends : gset Z := list_to_set (map pl_pid db ++ map pl_cid db).

Definition measure (visited : gset Z) (queue : list PathNode) : nat := length queue + size (ends ∖ visited).

Lemma edge_ends x y : edge x y -> y ∈ ends.
Proof using.
  intros (r & Hr & _ & H). unfold ends. rewrite elem_of_list_to_set, elem_of_app, !list_elem_of_fmap.
  destruct H as [[_ <-]|[_ <-]]; [right|left]; by exists r.
Qed.

Lemma expand_measure cur ns visited queue : (forall y, y ∈ ns -> y ∈ ends) ->
  match expand to cur ns visited queue with
  | inl _ => True
  | inr (visited', queue') => (measure visited' queue' <= measure visited queue)%nat
  end.
Proof using.
  revert visited queue. induction ns as [|nid ns IH]; intros visited queue He; cbn [expand]; [done|].
  assert (He' : forall y, y ∈ ns -> y ∈ ends) by (intros y Hy; apply He; by right).
  case_bool_decide as Hv; [by apply IH|]. destruct (nid =? to); [done|].
  specialize (IH ({[nid]} ∪ visited) (queue ++ [mk_PathNode nid (Some cur) (Depth cur + 1)]) He').
  destruct (expand _ _ _ _ _) as [|[v q]]; [done|]. etransitivity; [exact IH|]. unfold measure.
  rewrite length_app. cbn [length].
  assert (nid ∈ ends) as Hn by (apply He; by left).
  pose proof (size_difference_pop ends visited nid Hn Hv). lia.
Qed.

Lemma measure_start : (measure ({[from]} ∪ skip) [mk_PathNode from None 0] < search_fuel db)%nat.
Proof using.
  unfold measure, search_fuel. cbn [length].
  assert (size (ends ∖ ({[from]} ∪ skip)) <= size ends)%nat as H by (apply subseteq_size; set_solver).
  assert (size ends <= 2 * length db)%nat; [|lia]. unfold ends.
  etransitivity; [apply size_list_to_set_le|]. rewrite length_app, !length_map. lia.
Qed.

Lemma search_loop_spec fuel visited queue : from <> to -> search_inv visited queue -> (measure visited queue < fuel)%nat ->
  match search_loop db fuel to (mk_query true prim) (mk_query false prim) visited queue with
  | Ok p => exists n, RID n = to /\ node_ok n /\ p = reconstruct n
  | Err ErrNoPath => forall l, ~ route l to
  | _ => False
  end.
Proof using.
  intros Hne. revert visited queue. induction fuel as [|f IH]; intros visited queue Hi Hm; [lia|]. cbn [search_loop].
  destruct queue as [|cur queue].
  - intros l Hr. assert (to ∉ visited) as Hv.
    { intros Hv. apply (inv_to _ _ Hi) in Hv. inversion Hr; subst; done. }
    destruct (frontier _ _ _ _ Hi Hr Hv) as (n & Hn & _). by apply not_elem_of_nil in Hn.
  - pose proof (expand_spec cur (nbrs (RID cur)) visited queue Hi ltac:(intros y; apply neighbors_edge)) as Hs.
    pose proof (expand_measure cur (nbrs (RID cur)) visited queue
      ltac:(intros y Hy; by apply neighbors_edge, edge_ends in Hy)) as Hx.
    destruct (expand _ _ _ _ _) as [node|[v q]].
    + destruct Hs. by exists node.
    + destruct Hs as (H1 & H2 & H3). apply IH.
      * apply (pop_inv cur); [done|]. intros y Hy. by apply H3, neighbors_edge.
      * unfold measure in *. cbn [length] in *. lia.
Qed.

Lemma search_inv_start : from <> to -> search_inv ({[from]} ∪ skip) [mk_PathNode from None 0].
Proof using.
  intros Hne. constructor.
  - set_solver.
  - set_solver.
  - set_solver.
  - constructor; [|constructor]. split; [constructor|done|]. cbn [RID Depth]. intros l Hl%route_nonempty. unfold len. lia.
  - intros x l y Hr Hx. left.
    exists (mk_PathNode from None 0). split; [by left|]. destruct Hr as [|l x' x Hr He Hs]; [done|set_solver].
  - intros i j a b Hij Ha Hb. apply list_lookup_singleton_Some in Ha as [-> <-], Hb as [-> <-]. lia.
Qed.
End search.

(** ** The result *)
Lemma reconstruct_rids n : map RID (reconstruct n) = rev (chain n).
Proof.
  unfold reconstruct. transitivity (imap (fun _ r => r) (rev (chain n))).
  - etransitivity; [apply (fmap_imap (fun i r => mk_PathNode r None (Z.of_nat i)) RID)|]. by apply imap_ext.
  - etransitivity; [apply (imap_const (fun r : Z => r))|]. apply list_fmap_id.
Qed.

Lemma reconstruct_lookup n i x : reconstruct n !! i = Some x -> exists r, x = mk_PathNode r None (Z.of_nat i).
Proof. unfold reconstruct. rewrite list_lookup_imap. intros (r & _ & ->)%fmap_Some. by exists r. Qed.

(** [p] lists a shortest route: the nodes carry their distance, no pointer. *)
Definition shortest_path (db : list plink) (prim : bool) (skip : gset Z) (from to : Z) (p : list PathNode) : Prop :=
  route db prim skip from (map RID p) to
  /\ (forall l, route db prim skip from l to -> len p <= len l)
  /\ forall i x, p !! i = Some x -> exists r, x = mk_PathNode r None (Z.of_nat i).

Lemma Shortest_spec `{RO : !RowOrder} db from to prim skip : 0 < from -> 0 < to ->
  match Shortest db from to prim skip with
  | Ok p => shortest_path db prim skip from to p
  | Err ErrNoPath => forall l, ~ route db prim skip from l to
  | _ => False
  end.
Proof.
  intros Hf Ht. unfold Shortest. rewrite (proj2 (Z.leb_gt from 0)), (proj2 (Z.leb_gt to 0)) by lia.
  destruct (from =? to) eqn:E; zbool.
  - subst to. split_and!; [constructor| |].
    + intros l Hl%route_nonempty. unfold len. cbn. lia.
    + intros i x [-> <-]%list_lookup_singleton_Some. by exists from.
  - pose proof (search_loop_spec db prim skip from to (search_fuel db) _ _ E
      (search_inv_start db prim skip from to E) (measure_start db skip from)) as H.
    destruct (search_loop _ _ _ _ _ _ _) as [p|[]| |]; [|done..].
    destruct H as (n & Hn & Hok & ->). split_and!.
    + rewrite reconstruct_rids, <- Hn. apply Hok.
    + intros l Hl. rewrite <- Hn in Hl. pose proof (node_min _ _ _ _ _ Hok l Hl) as Hm. rewrite (node_depth _ _ _ _ _ Hok) in Hm.
      unfold reconstruct, len. rewrite length_imap, length_rev. done.
    + apply reconstruct_lookup.
Qed.

(** C15: [Shortest] returns for every check-in graph, whatever order its
    queries answer in: with a route of least length from one check-in to the
    other that enters no skipped node, or with [ErrNoPath] exactly when there
    is no route. *)
Theorem shortest_route `{RO : !RowOrder} db from to prim skip (Hf : 0 < from) (Ht : 0 < to) :
  match Shortest db from to prim skip with
  | Ok p => shortest_path db prim skip from to p
  | Err ErrNoPath => forall l, ~ route db prim skip from l to
  | _ => False
  end.
Proof. by apply Shortest_spec. Qed.

Definition ex_plink : list plink :=
  [mk_plink 1 2 true; mk_plink 2 3 true; mk_plink 3 4 true; mk_plink 2 5 false; mk_plink 4 5 true; mk_plink 5 6 true].

Lemma shortest_route_witness : match Shortest ex_plink 6 1 false {[4]} with
  | Ok p => shortest_path ex_plink false {[4]} 6 1 p | _ => False end.
Proof.
  pose proof (shortest_route ex_plink 6 1 false {[4]} eq_refl eq_refl) as H.
  assert (exists p, Shortest ex_plink 6 1 false {[4]} = Ok p) as [p Hp] by (eexists; vm_compute; reflexivity).
  rewrite Hp in *. exact H.
Defined.
