(* ===== verification/Bisect.v ===== *)
(** * Bisection: src/internal/bisect/bisect.go

    The session's state is the rows of the vvar table.  What content.BelowHorizon
    answers and the rows the blob and event queries find are parameters. *)

From stdpp Require Import gmap.
From S2P Require Import Prelude GoStd GoText Path.

Inductive bisect_error :=
| ErrNotSet
| ErrParse (which : string)
| ErrPath (e : path_error)
| ErrBisectComplete (bad : Z)
| ErrGoodEnd
| ErrBelowHorizon (uuid hash : bytes).
Arguments ErrParse which%_string.
Abbreviation bresult := (outcome bisect_error).

(** The vvar table: name to value. *)
Abbreviation vvar := (gmap string bytes).

(** A missing row reads as the empty string. *)
Definition loadVvar (s : vvar) (name : string) : bytes := default [] (s !! name).

Definition appendLogEntry (s : vvar) (entry : bytes) : vvar :=
  let cur := loadVvar s "bisect-log" in
  let cur := if bytes_eqb cur [] then cur else cur ++ bs " " in
  <["bisect-log"%string := cur ++ entry]> s.

Definition appendLog (s : vvar) (rid : Z) : vvar := appendLogEntry s (dec rid).

Definition MarkGood (s : vvar) (rid : Z) : bresult vvar :=
  if rid <=? 0 then Panic "bisect.MarkGood: rid must be positive"
  else Ok (appendLog (<["bisect-good"%string := dec rid]> s) rid).

Definition MarkBad (s : vvar) (rid : Z) : bresult vvar :=
  if rid <=? 0 then Panic "bisect.MarkBad: rid must be positive"
  else Ok (appendLog (<["bisect-bad"%string := dec rid]> s) (- rid)).

Definition Skip (s : vvar) (rid : Z) : bresult vvar :=
  if rid <=? 0 then Panic "bisect.Skip: rid must be positive"
  else Ok (appendLogEntry s (bs "s" ++ dec rid)).

Definition Reset (s : vvar) : vvar :=
  delete "bisect-good"%string (delete "bisect-bad"%string (delete "bisect-log"%string s)).

Definition loadEndpoints (s : vvar) : bresult (Z * Z) :=
  let gStr := loadVvar s "bisect-good" in
  let bStr := loadVvar s "bisect-bad" in
  if bytes_eqb gStr [] || bytes_eqb bStr [] then Err ErrNotSet
  else match ParseInt gStr with
       | None => Err (ErrParse "good")
       | Some g => match ParseInt bStr with
                   | None => Err (ErrParse "bad")
                   | Some b => Ok (g, b)
                   end
       end.

(** The row ids of the log's tokens that begin with "s". *)
Definition skip_token (tok : bytes) : option Z :=
  match tok with
  | x73 :: tok' => ParseInt tok'
  | _ => None
  end.

(** A nil map and one without entries are alike to every caller. *)
Definition parseSkipSet (s : vvar) : gset Z := list_to_set (omap skip_token (Fields (loadVvar s "bisect-log"))).

(** A candidate index that is inside the path and not skipped. *)
Definition usable (p : list PathNode) (skip : gset Z) (idx : Z) : bool :=
  (0 <? idx) && (idx <? len p - 1)
  && match p !! Z.to_nat idx with Some n => negb (bool_decide (RID n ∈ skip)) | None => false end.

(** The search outward from the midpoint, for the distances left. *)
Fixpoint mid_loop (left : nat) (p : list PathNode) (skip : gset Z) (mid d : Z) : option Z :=
  match left with
  | O => None
  | S k =>
      if usable p skip (mid + d) then Some (mid + d)
      else if usable p skip (mid - d) then Some (mid - d)
      else mid_loop k p skip mid (d + 1)
  end.

Record StatusInfo := mk_StatusInfo { st_Good : Z; st_Bad : Z; st_Log : bytes; st_Steps : Z }.
Record ListEntry := mk_ListEntry { le_RID : Z; le_UUID : bytes; le_Date : bytes; le_Label : bytes }.

Section session.
Context `{RO : !RowOrder} (db : list plink).
(** [content.BelowHorizon]: the horizon's hash when the check-in is below it. *)
Context (BelowHorizon : Z -> bresult (option bytes)).
(** The uuid column of the blob table, and the uuid and date List selects. *)
Context (blob_uuid : Z -> option bytes) (node_row : Z -> option (bytes * bytes)).

Definition belowHorizon (good : Z) : bresult () :=
  let? below := BelowHorizon good in
  match below with
  | None => Ok ()
  | Some hash =>
      match blob_uuid good with
      | None => Err ErrGoodEnd
      | Some uuid => Err (ErrBelowHorizon uuid hash)
      end
  end.

Definition Next (s : vvar) : bresult Z :=
  let? (good, bad) := loadEndpoints s in
  let? _ := belowHorizon good in
  let skip := parseSkipSet s in
  let? p := wrap_err ErrPath (Shortest db good bad true ∅) in
  if len p <=? 2 then Err (ErrBisectComplete bad)
  else
    let mid := len p / 2 in
    let? mid :=
      if bool_decide (skip = ∅) then Ok mid
      else match mid_loop (length p) p skip mid 0 with
           | Some best => Ok best
           | None => Err (ErrBisectComplete bad)
           end in
    match p !! Z.to_nat mid with
    | Some n => Ok (RID n)
    | None => Panic "index out of range"
    end.

(** [math.Log2] of a length below 2^48, truncated, is [Z.log2]. *)
Definition Status (s : vvar) : bresult StatusInfo :=
  let '(good, bad) := match loadEndpoints s with Ok gb => gb | _ => (0, 0) end in
  let log := loadVvar s "bisect-log" in
  let? steps :=
    if negb (good =? 0) && negb (bad =? 0) then
      match Shortest db good bad true (parseSkipSet s) with
      | Ok p => Ok (if len p >? 2 then Z.log2 (len p) else 0)
      | Err _ => Ok 0
      | Panic m => Panic m
      | Diverge => Diverge
      end
    else Ok 0 in
  Ok (mk_StatusInfo good bad log steps).

Definition label_of (good bad currentRID nextRID : Z) (skip : gset Z) (rid : Z) : bytes :=
  if rid =? good then bs "GOOD"
  else if rid =? bad then bs "BAD"
  else if rid =? currentRID then bs "CURRENT"
  else if rid =? nextRID then bs "NEXT"
  else if bool_decide (rid ∈ skip) then bs "SKIP" else [].

(** [List]; the name is the datatype's here. *)
Definition List_ (s : vvar) (currentRID : Z) : bresult (list ListEntry) :=
  let? (good, bad) := loadEndpoints s in
  let skip := parseSkipSet s in
  let? p := wrap_err ErrPath (Shortest db good bad true ∅) in
  let? nextRID :=
    match Shortest db good bad true skip with
    | Ok pNoSkip =>
        if len pNoSkip >? 2
        then match pNoSkip !! Z.to_nat (len pNoSkip / 2) with Some n => Ok (RID n) | None => Panic "index out of range" end
        else Ok 0
    | Err _ => Ok 0
    | Panic m => Panic m
    | Diverge => Diverge
    end in
  Ok (map (fun node =>
             let '(uuid, date) := default (bs "?", []) (node_row (RID node)) in
             mk_ListEntry (RID node) uuid date (label_of good bad currentRID nextRID skip (RID node))) p).
End session.

(** * Bisection converges on an adjacent good and bad check-in

    [session s good bad skip]: what the stored variables say.  [bisects test s n
    s' bad]: testing the check-in [Next] names and marking it, [n] times, ends
    with [Next] reporting [bad]. *)

(** ** The log *)
Definition log_char (c : byte) : bool := is_digit c || Byte.eqb c x2d || Byte.eqb c x73.

Lemma log_char_facts c : log_char c = true -> (bz c <? 128) = true /\ IsSpace (bz c) = false.
Proof. by_bytes c. Qed.

Definition log_token (t : bytes) : Prop := t <> [] /\ Forall (fun c => log_char c = true) t.

Lemma log_token_ascii t : log_token t -> is_ascii t = true.
Proof.
  intros [_ Ht]. unfold is_ascii. apply forallb_forall. intros c Hc%list_elem_of_In. rewrite Forall_forall in Ht.
  by apply log_char_facts, Ht.
Qed.

Abbreviation pieces := (map (fun c => (bz c, [c]))).

Lemma fields_loop_token t cur : Forall (fun c => log_char c = true) t -> cur ++ t <> [] ->
  fields_loop cur (pieces t) = [cur ++ t].
Proof.
  intros Ht. revert cur. induction Ht as [|c t Hc _ IH]; intros cur Hne; cbn [map fields_loop].
  { rewrite app_nil_r in *. by destruct cur. }
  destruct (log_char_facts _ Hc) as [_ ->]. rewrite IH by (by destruct cur). by rewrite <- app_assoc.
Qed.

Lemma fields_loop_snoc l t cur : log_token t ->
  fields_loop cur (l ++ pieces (x20 :: t)) = fields_loop cur l ++ [t].
Proof.
  intros [Hne Ht]. revert cur. induction l as [|[r p] l IH]; intros cur.
  - cbn [app map fields_loop]. change (IsSpace (bz x20)) with true. cbv iota.
    rewrite (fields_loop_token t []) by done. by destruct cur.
  - cbn [app fields_loop]. destruct (IsSpace r); [|apply IH]. by destruct cur; rewrite IH.
Qed.

Lemma Fields_token t : log_token t -> Fields t = [t].
Proof.
  intros Ht. unfold Fields. rewrite rune_pieces_ascii by (by apply log_token_ascii).
  apply (fields_loop_token t []); apply Ht.
Qed.

Lemma is_ascii_app s t : is_ascii (s ++ t) = is_ascii s && is_ascii t.
Proof. apply forallb_app. Qed.

Lemma Fields_snoc s t : is_ascii s = true -> log_token t -> Fields (s ++ bs " " ++ t) = Fields s ++ [t].
Proof.
  intros Hs Ht. unfold Fields. change (bs " " ++ t) with (x20 :: t).
  assert (is_ascii (s ++ x20 :: t) = true) as Hst by (rewrite is_ascii_app, Hs; exact (log_token_ascii t Ht)).
  rewrite (rune_pieces_ascii (s ++ x20 :: t)), (rune_pieces_ascii s) by done.
  rewrite map_app. by apply fields_loop_snoc.
Qed.

Lemma dec_log_token z : log_token (dec z).
Proof.
  assert (forall n, 0 <= n -> Forall (fun c => log_char c = true) (dec_nat n)) as H.
  { intros n Hn. eapply Forall_impl; [by apply dec_nat_digits|]. intros c Hc. unfold log_char. by rewrite Hc. }
  unfold dec. destruct (z <? 0) eqn:E; zbool; (split; [|]).
  - done.
  - constructor; [done|]. apply H. lia.
  - apply dec_nat_nonempty.
  - by apply H.
Qed.

Lemma dec_not_skip z : skip_token (dec z) = None.
Proof.
  unfold dec. destruct (z <? 0) eqn:E; [done|]. zbool. pose proof (dec_nat_digits z E) as Hd.
  destruct (dec_nat z) as [|c l]; [done|]. inversion Hd as [|? ? Hc _]; subst. by destruct c.
Qed.

(** ** Sessions *)
Definition rid_ok (z : Z) : Prop := 0 < z < 2 ^ 63.

Record session (s : vvar) (good bad : Z) (skip : gset Z) : Prop := {
  ses_good : loadVvar s "bisect-good" = dec good;
  ses_bad : loadVvar s "bisect-bad" = dec bad;
  ses_rids : rid_ok good /\ rid_ok bad;
  ses_log : is_ascii (loadVvar s "bisect-log") = true;
  ses_skip : parseSkipSet s = skip;
}.

Lemma loadVvar_insert s k k' v : loadVvar (<[k := v]> s) k' = if decide (k = k') then v else loadVvar s k'.
Proof. unfold loadVvar. rewrite lookup_insert. by destruct (decide (k = k')). Qed.

Lemma skip_append s t : is_ascii (loadVvar s "bisect-log") = true -> log_token t ->
  is_ascii (loadVvar (appendLogEntry s t) "bisect-log") = true
  /\ parseSkipSet (appendLogEntry s t) = list_to_set (omap skip_token [t]) ∪ parseSkipSet s.
Proof.
  intros Hs Ht. unfold parseSkipSet, appendLogEntry. rewrite loadVvar_insert, decide_True by done.
  destruct (bytes_eqb (loadVvar s "bisect-log") []) eqn:E.
  - apply bytes_eqb_eq in E. rewrite E. cbn [app]. split; [by apply log_token_ascii|].
    rewrite Fields_token by done. change (Fields []) with (@nil bytes). cbn [omap list_omap]. set_solver.
  - rewrite <- app_assoc. split.
    + rewrite !is_ascii_app, Hs. exact (log_token_ascii t Ht).
    + rewrite Fields_snoc by done. rewrite omap_app, list_to_set_app_L. set_solver.
Qed.

Lemma appendLogEntry_other s t k : k <> "bisect-log"%string -> loadVvar (appendLogEntry s t) k = loadVvar s k.
Proof. intros Hk. unfold appendLogEntry. by rewrite loadVvar_insert, decide_False. Qed.

Lemma loadEndpoints_session s good bad skip : session s good bad skip -> loadEndpoints s = Ok (good, bad).
Proof.
  intros [Hg Hb [Hrg Hrb] _ _]. unfold loadEndpoints, rid_ok in *. rewrite Hg, Hb.
  rewrite !(proj2 (bytes_eqb_neq (dec _) [])) by apply dec_log_token. cbn [orb].
  rewrite !ParseInt_dec by lia. done.
Qed.

(** Marking moves one end and leaves the skipped set. *)
Lemma MarkGood_session s good bad skip m : session s good bad skip -> rid_ok m ->
  exists s', MarkGood s m = Ok s' /\ session s' m bad skip.
Proof.
  intros [Hg Hb [Hrg Hrb] Hl Hs] Hm. unfold MarkGood. rewrite (proj2 (Z.leb_gt m 0)) by apply Hm.
  eexists. split; [reflexivity|]. unfold appendLog. set (s1 := <[_ := _]> s).
  assert (loadVvar s1 "bisect-log" = loadVvar s "bisect-log") as E by (by unfold s1; rewrite loadVvar_insert, decide_False).
  destruct (skip_append s1 (dec m)) as [H1 H2]; [by rewrite E|apply dec_log_token|]. constructor; [..|done|].
  - rewrite appendLogEntry_other by done. unfold s1. by rewrite loadVvar_insert, decide_True.
  - rewrite appendLogEntry_other by done. unfold s1. by rewrite loadVvar_insert, decide_False.
  - done.
  - rewrite H2. cbn [omap list_omap]. rewrite dec_not_skip. unfold parseSkipSet in *. rewrite E, Hs. set_solver.
Qed.

Lemma MarkBad_session s good bad skip m : session s good bad skip -> rid_ok m ->
  exists s', MarkBad s m = Ok s' /\ session s' good m skip.
Proof.
  intros [Hg Hb [Hrg Hrb] Hl Hs] Hm. unfold MarkBad. rewrite (proj2 (Z.leb_gt m 0)) by apply Hm.
  eexists. split; [reflexivity|]. unfold appendLog. set (s1 := <[_ := _]> s).
  assert (loadVvar s1 "bisect-log" = loadVvar s "bisect-log") as E by (by unfold s1; rewrite loadVvar_insert, decide_False).
  destruct (skip_append s1 (dec (- m))) as [H1 H2]; [by rewrite E|apply dec_log_token|]. constructor; [..|done|].
  - rewrite appendLogEntry_other by done. unfold s1. by rewrite loadVvar_insert, decide_False.
  - rewrite appendLogEntry_other by done. unfold s1. by rewrite loadVvar_insert, decide_True.
  - done.
  - rewrite H2. cbn [omap list_omap]. rewrite dec_not_skip. unfold parseSkipSet in *. rewrite E, Hs. set_solver.
Qed.

Lemma Skip_session s good bad skip m : session s good bad skip -> rid_ok m ->
  exists s', Skip s m = Ok s' /\ session s' good bad ({[m]} ∪ skip).
Proof.
  intros [Hg Hb Hr Hl Hs] Hm. unfold Skip. rewrite (proj2 (Z.leb_gt m 0)) by apply Hm.
  eexists. split; [reflexivity|]. destruct (skip_append s (bs "s" ++ dec m)) as [H1 H2]; [done| |].
  { split; [done|]. cbn. constructor; [done|]. apply dec_log_token. }
  constructor; [..|done|].
  - by rewrite appendLogEntry_other.
  - by rewrite appendLogEntry_other.
  - done.
  - rewrite H2, Hs. cbn [omap list_omap app bs]. assert (skip_token (bs "s" ++ dec m) = Some m) as ->; [|set_solver].
    cbn. apply ParseInt_dec. unfold rid_ok in Hm. lia.
Qed.

(** ** Splitting a route *)
Section split.
Context (db : list plink) (prim : bool) (skip : gset Z).

Lemma route_prefix from l1 m l2 x : route db prim skip from (l1 ++ m :: l2) x -> route db prim skip from (l1 ++ [m]) m.
Proof.
  revert x. induction l2 as [|z l2 IH] using rev_ind; intros x Hr.
  - destruct (route_last _ _ _ _ _ _ Hr) as [l' Hl]. by apply app_inj_tail in Hl as [_ ->].
  - rewrite app_comm_cons, app_assoc in Hr. inversion Hr as [Hz|l y z' Hr' He Hs Hz]; subst.
    + symmetry in Hz. apply app_eq_unit in Hz as [[Hz _]|[_ Hz]]; [by destruct l1|done].
    + apply app_inj_tail in Hz as [-> _]. by eapply IH.
Qed.

Lemma route_suffix from l1 m l2 x : route db prim skip from (l1 ++ m :: l2) x -> route db prim skip m (m :: l2) x.
Proof.
  revert x. induction l2 as [|z l2 IH] using rev_ind; intros x Hr.
  - destruct (route_last _ _ _ _ _ _ Hr) as [l' Hl]. apply app_inj_tail in Hl as [_ ->]. constructor.
  - rewrite app_comm_cons, app_assoc in Hr. inversion Hr as [Hz|l y z' Hr' He Hs Hz]; subst.
    + symmetry in Hz. apply app_eq_unit in Hz as [[Hz _]|[_ Hz]]; [by destruct l1|done].
    + apply app_inj_tail in Hz as [-> ->]. rewrite app_comm_cons. eapply route_step; [by eapply IH|done|done].
Qed.

Lemma route_inner_end from l x y : route db prim skip from l x -> y ∈ l -> y = from \/ exists z, edge db prim z y.
Proof.
  induction 1 as [|l x z Hr IH He Hs]; [intros ->%list_elem_of_singleton; by left|].
  intros [Hy|Hy%list_elem_of_singleton]%elem_of_app; [by apply IH|right; subst; by exists x].
Qed.
End split.

(** ** Next *)
Lemma mid_loop_spec left p skip mid d :
  match mid_loop left p skip mid d with
  | Some i => usable p skip i = true
  | None => forall e, d <= e < d + Z.of_nat left -> usable p skip (mid + e) = false /\ usable p skip (mid - e) = false
  end.
Proof.
  revert d. induction left as [|k IH]; intros d; cbn [mid_loop]; [lia|].
  destruct (usable p skip (mid + d)) eqn:E1; [done|]. destruct (usable p skip (mid - d)) eqn:E2; [done|].
  specialize (IH (d + 1)). destruct (mid_loop _ _ _ _ _); [done|]. intros e He.
  destruct (Z.eq_dec e d) as [->|]; [done|]. apply IH. lia.
Qed.

Lemma usable_index p skip i : usable p skip i = true ->
  0 < i < len p - 1 /\ exists n, p !! Z.to_nat i = Some n /\ RID n ∉ skip.
Proof.
  unfold usable. intros [[H1 H2]%andb_true_iff H3]%andb_true_iff. zbool. split; [lia|].
  destruct (p !! Z.to_nat i) as [n|]; [|done]. exists n. split; [done|].
  by apply negb_true_iff, bool_decide_eq_false in H3.
Qed.

(** Every node strictly inside the path is skipped. *)
Definition inner_skipped (p : list PathNode) (skip : gset Z) : Prop :=
  forall i n, 0 < i < len p - 1 -> p !! Z.to_nat i = Some n -> RID n ∈ skip.

Lemma no_usable p skip : (forall i, 0 < i < len p - 1 -> usable p skip i = false) -> inner_skipped p skip.
Proof.
  intros H i n Hi Hn. specialize (H i Hi). unfold usable in H. rewrite Hn in H.
  rewrite (proj2 (Z.ltb_lt 0 i)), (proj2 (Z.ltb_lt i (len p - 1))) in H by lia. cbn in H.
  by apply negb_false_iff, bool_decide_eq_true in H.
Qed.

Section converge.
Context `{RO : !RowOrder} (db : list plink) (BelowHorizon : Z -> bresult (option bytes)) (blob_uuid : Z -> option bytes).
Hypothesis Hrids : forall r, r ∈ db -> rid_ok (pl_pid r) /\ rid_ok (pl_cid r).
Hypothesis Hheld : forall z, BelowHorizon z = Ok None.

Abbreviation next := (Next db BelowHorizon blob_uuid).
Abbreviation route := (route db true ∅).

Lemma edge_rid_ok x y : edge db true x y -> rid_ok y.
Proof using Hrids. intros (r & Hr & _ & H). destruct (Hrids _ Hr). destruct H as [[_ <-]|[_ <-]]; done. Qed.

(** What [Next] answers on a session whose ends are joined. *)
Lemma Next_spec s good bad skip l : session s good bad skip -> route good l bad ->
  exists p, shortest_path db true ∅ good bad p
    /\ (next s = Err (ErrBisectComplete bad) /\ inner_skipped p skip
        \/ (exists i n, next s = Ok (RID n) /\ p !! Z.to_nat i = Some n /\ (0 < i < len p - 1) /\ (RID n ∉ skip)
             /\ (skip = ∅ -> i = len p / 2))).
Proof using Hrids Hheld.
  intros Hs Hr. destruct (ses_rids _ _ _ _ Hs) as [[Hg _] [Hb _]].
  pose proof (Shortest_spec db good bad true ∅ Hg Hb) as Hsp. unfold Next.
  rewrite (loadEndpoints_session _ _ _ _ Hs). cbn [obind]. unfold belowHorizon. rewrite Hheld. cbn [obind].
  rewrite (ses_skip _ _ _ _ Hs).
  destruct (Shortest db good bad true ∅) as [p|[]| |]; [|by destruct (Hsp l)|done..]. exists p. split; [done|].
  cbn [wrap_err obind]. destruct (len p <=? 2) eqn:El; zbool.
  { left. split; [done|]. intros i n Hi. lia. }
  assert (0 < len p / 2 < len p - 1) as Hmid by (Z.to_euclidean_division_equations; lia).
  assert (Hget : forall i, 0 < i < len p - 1 -> exists n, p !! Z.to_nat i = Some n).
  { intros i Hi. apply lookup_lt_is_Some. unfold len in *. lia. }
  case_bool_decide as Hsk.
  - cbn [obind]. destruct (Hget _ Hmid) as [n Hn]. right. exists (len p / 2), n. rewrite Hn.
    split_and!; try done; try lia. rewrite Hsk. set_solver.
  - pose proof (mid_loop_spec (length p) p skip (len p / 2) 0) as Hbest.
    destruct (mid_loop _ _ _ _ _) as [i|]; cbn [obind].
    + destruct (usable_index _ _ _ Hbest) as (Hi & n & Hn & Hns). right. exists i, n. rewrite Hn.
      split_and!; try done; lia.
    + left. split; [done|]. apply no_usable. intros i Hi. destruct (Z.le_gt_cases (len p / 2) i) as [H|H].
      * destruct (Hbest (i - len p / 2)) as [Hu _]; [unfold len in *; lia|]. by replace (len p / 2 + (i - len p / 2)) with i in Hu by lia.
      * destruct (Hbest (len p / 2 - i)) as [_ Hu]; [unfold len in *; lia|]. by replace (len p / 2 - (len p / 2 - i)) with i in Hu by lia.
Qed.

(** The parts of a path around one of its nodes. *)
Lemma path_parts good bad p i n : shortest_path db true ∅ good bad p -> p !! Z.to_nat i = Some n -> 0 < i < len p - 1 ->
  rid_ok (RID n)
  /\ (exists l, route (RID n) l bad /\ len l = len p - i) /\ (exists l, route good l (RID n) /\ len l = i + 1).
Proof using Hrids.
  intros (Hr & _ & _) Hn Hi. pose proof (take_drop_middle _ _ _ Hn) as Hsplit.
  assert (map RID p = map RID (take (Z.to_nat i) p) ++ RID n :: map RID (drop (S (Z.to_nat i)) p)) as Hmap.
  { rewrite <- Hsplit at 1. by rewrite map_app. }
  pose proof (lookup_lt_Some _ _ _ Hn) as Hlt.
  rewrite Hmap in Hr. pose proof (route_prefix _ _ _ _ _ _ _ _ Hr) as Hp. pose proof (route_suffix _ _ _ _ _ _ _ _ Hr) as Hq.
  split_and!.
  - inversion Hp as [Hz|l y z Hr' He _ Hz]; subst.
    + symmetry in Hz. apply app_eq_unit in Hz as [[Hz _]|[_ Hz]]; [|done]. apply map_eq_nil in Hz.
      apply (f_equal length) in Hz. rewrite length_take in Hz. cbn in Hz. unfold len in *. lia.
    + by eapply edge_rid_ok.
  - eexists. split; [exact Hq|]. rewrite len_cons. unfold len in *. rewrite length_map, length_drop. lia.
  - eexists. split; [exact Hp|]. rewrite len_app, len_cons, len_nil. unfold len in *. rewrite length_map, length_take. lia.
Qed.

(** Testing what [Next] names, and marking it. *)
Inductive bisects (test : Z -> bool) : vvar -> nat -> vvar -> Z -> Prop :=
| bisects_done s bad : next s = Err (ErrBisectComplete bad) -> bisects test s 0 s bad
| bisects_step s m s1 n s2 bad : next s = Ok m -> (if test m then MarkGood s m else MarkBad s m) = Ok s1 ->
    bisects test s1 n s2 bad -> bisects test s (S n) s2 bad.

(** One test and mark: the ends stay good and bad, and the path between them
    is shorter. *)
Lemma bisect_step test s good bad skip p i n : session s good bad skip -> test good = true -> test bad = false ->
  shortest_path db true ∅ good bad p -> p !! Z.to_nat i = Some n -> 0 < i < len p - 1 ->
  exists s' good' bad' l, (if test (RID n) then MarkGood s (RID n) else MarkBad s (RID n)) = Ok s'
    /\ session s' good' bad' skip /\ test good' = true /\ test bad' = false
    /\ route good' l bad' /\ len l <= Z.max (len p - i) (i + 1).
Proof using Hrids.
  intros Hs Hg Hb Hp Hn Hi. destruct (path_parts _ _ _ _ _ Hp Hn Hi) as (Hok & (l1 & Hr1 & Hl1) & (l2 & Hr2 & Hl2)).
  destruct (test (RID n)) eqn:Et.
  - destruct (MarkGood_session _ _ _ _ _ Hs Hok) as (s' & -> & Hs'). exists s', (RID n), bad, l1. split_and!; try done. lia.
  - destruct (MarkBad_session _ _ _ _ _ Hs Hok) as (s' & -> & Hs'). exists s', good, (RID n), l2. split_and!; try done. lia.
Qed.

Lemma bisects_end test k s good bad skip l : session s good bad skip -> test good = true -> test bad = false ->
  route good l bad -> (length l <= k)%nat ->
  exists n s' good' bad' p, bisects test s n s' bad' /\ session s' good' bad' skip
    /\ test good' = true /\ test bad' = false /\ shortest_path db true ∅ good' bad' p /\ inner_skipped p skip
    /\ Z.of_nat n <= Z.max 0 (len l - 2) /\ (skip = ∅ -> forall t, 0 <= t -> len l - 2 < 2 ^ t -> Z.of_nat n <= t).
Proof using Hrids Hheld.
  revert s good bad l. induction k as [|k IH]; intros s good bad l Hs Hg Hb Hr Hk.
  { apply route_nonempty in Hr. lia. }
  destruct (Next_spec s good bad skip l Hs Hr) as (p & Hp & [[Hnext Hin]|(i & n & Hnext & Hn & Hi & Hns & Hhalf)]).
  - exists 0%nat, s, good, bad, p. split_and!; try done; try (by apply bisects_done); lia.
  - destruct (bisect_step test _ _ _ _ _ _ _ Hs Hg Hb Hp Hn Hi) as (s1 & g1 & b1 & l1 & Hm & Hs1 & Hg1 & Hb1 & Hr1 & Hl1).
    pose proof (proj1 (proj2 Hp) _ Hr) as Hmin.
    destruct (IH s1 g1 b1 l1 Hs1 Hg1 Hb1 Hr1) as (n1 & s2 & g2 & b2 & p2 & H1 & H2 & H3 & H4 & H5 & H6 & H7 & H8).
    { unfold len in *. lia. }
    exists (S n1), s2, g2, b2, p2. split_and!; try done.
    + by eapply bisects_step.
    + lia.
    + intros He t Ht Hlt. destruct (Z.eq_dec t 0) as [->|Ht0].
      { change (2 ^ 0) with 1 in Hlt. lia. }
      specialize (H8 He (t - 1) ltac:(lia)). specialize (Hhalf He). subst i.
      replace t with (Z.succ (t - 1)) in Hlt by lia. rewrite Z.pow_succ_r in Hlt by lia.
      enough (Z.of_nat n1 <= t - 1) by lia. apply H8. clear - Hl1 Hmin Hlt. Z.to_euclidean_division_equations. lia.
Qed.
End converge.

Lemma unskipped_edge db good bad p : shortest_path db true ∅ good bad p -> inner_skipped p ∅ -> good <> bad ->
  edge db true good bad.
Proof.
  intros (Hr & _) Hin Hne. assert (len (map RID p) <= 2) as Hl.
  { destruct (Z.le_gt_cases (len p) 2); [unfold len in *; by rewrite length_map|]. exfalso.
    assert (is_Some (p !! 1%nat)) as [n Hn] by (apply lookup_lt_is_Some; unfold len in *; lia).
    by apply (not_elem_of_empty (C := gset Z) (RID n)), (Hin 1 n); [lia|]. }
  revert Hr Hl. generalize (map RID p). intros m Hr. destruct Hr as [|l x y Hr' He _]; [done|].
  rewrite len_app, len_cons, len_nil. intros Hl. destruct Hr' as [|l' x' y' Hr2 He2 _]; [done|].
  apply route_nonempty in Hr2. rewrite len_app, len_cons, len_nil in Hl. unfold len in Hl. lia.
Qed.

(** C10: whatever a check-in's test says, testing and marking the check-ins
    [Next] names ends: [Next] reports a check-in that is marked bad, the other
    end is marked good, and every check-in on a shortest primary path between
    them is skipped.  With nothing skipped the two are parent and child, and
    at most about log2 of the first path's length tests are made; with skips
    at most as many as the path has inner check-ins. *)
Theorem bisect_converges `{RO : !RowOrder} db BelowHorizon blob_uuid test s good bad skip l
  (Hrids : forall r, r ∈ db -> rid_ok (pl_pid r) /\ rid_ok (pl_cid r))
  (Hheld : forall z, BelowHorizon z = Ok None)
  (Hs : session s good bad skip) (Hg : test good = true) (Hb : test bad = false)
  (Hr : route db true ∅ good l bad) :
  exists n s' good' bad' p,
    bisects db BelowHorizon blob_uuid test s n s' bad' /\ session s' good' bad' skip
    /\ test good' = true /\ test bad' = false
    /\ shortest_path db true ∅ good' bad' p /\ inner_skipped p skip
    /\ Z.of_nat n <= Z.max 0 (len l - 2)
    /\ (skip = ∅ -> edge db true good' bad' /\ forall t, 0 <= t -> len l - 2 < 2 ^ t -> Z.of_nat n <= t).
Proof.
  destruct (bisects_end db BelowHorizon blob_uuid Hrids Hheld test (length l) s good bad skip l Hs Hg Hb Hr (le_n _))
    as (n & s' & g' & b' & p & H1 & H2 & H3 & H4 & H5 & H6 & H7 & H8).
  exists n, s', g', b', p. split_and!; try done. intros ->. split; [|by apply H8].
  apply (unskipped_edge db g' b' p); [done|done|congruence].
Qed.

(** Good 1, bad 6, four between; check-ins from 4 on are bad. *)
Definition ex_session : vvar :=
  match MarkGood ∅ 1 with Ok s => match MarkBad s 6 with Ok s => s | _ => ∅ end | _ => ∅ end.
Definition ex_history : list plink :=
  [mk_plink 1 2 true; mk_plink 2 3 true; mk_plink 3 4 true; mk_plink 4 5 true; mk_plink 5 6 true; mk_plink 1 5 false].

Lemma ex_route : route ex_history true ∅ 1 [1; 2; 3; 4; 5; 6] 6.
Proof.
  assert (forall x, 1 <= x < 6 -> edge ex_history true x (x + 1)) as He.
  { intros x Hx. exists (mk_plink x (x + 1) true). split; [|split; [done|by left]].
    assert (x = 1 \/ x = 2 \/ x = 3 \/ x = 4 \/ x = 5) as Hc by lia.
    destruct Hc as [-> |[-> |[-> |[-> | ->]]]]; cbn; set_solver. }
  apply (route_step _ _ _ _ [1; 2; 3; 4; 5] 5 6); [|by apply (He 5)|set_solver].
  apply (route_step _ _ _ _ [1; 2; 3; 4] 4 5); [|by apply (He 4)|set_solver].
  apply (route_step _ _ _ _ [1; 2; 3] 3 4); [|by apply (He 3)|set_solver].
  apply (route_step _ _ _ _ [1; 2] 2 3); [|by apply (He 2)|set_solver].
  apply (route_step _ _ _ _ [1] 1 2); [constructor|by apply (He 1)|set_solver].
Qed.

Lemma ex_session_ok : session ex_session 1 6 ∅.
Proof. constructor; try (vm_compute; reflexivity). unfold rid_ok. lia. Qed.

Lemma ex_rids r : r ∈ ex_history -> rid_ok (pl_pid r) /\ rid_ok (pl_cid r).
Proof. unfold ex_history, rid_ok. rewrite !elem_of_cons, elem_of_nil. intros H. repeat destruct H as [-> | H]; cbn; lia. Qed.

Lemma bisect_converges_witness : exists n s' good' bad',
  bisects ex_history (fun _ => Ok None) (fun _ => None) (fun z => z <? 4) ex_session n s' bad'
  /\ edge ex_history true good' bad' /\ Z.of_nat n <= 3.
Proof.
  destruct (bisect_converges ex_history (fun _ => Ok None) (fun _ => None) (fun z => z <? 4) ex_session 1 6 ∅ _
    ex_rids (fun _ => eq_refl) ex_session_ok eq_refl eq_refl ex_route) as (n & s' & g & b & p & H1 & _ & _ & _ & _ & _ & _ & H).
  destruct (H eq_refl) as [He Ht]. exists n, s', g, b. split; [exact H1|]. split; [exact He|]. apply (Ht 3); [lia|vm_compute; reflexivity].
Defined.
