(* ===== verification/Diff.v ===== *)
(** * Line diffs: src/internal/diff/diff.go

    Splitting into lines, Myers' algorithm with its stored rows, hunks and the
    unified format.  A slice access is checked, as Go checks it; the sums with
    the caller's number of context lines wrap around. *)

From S2P Require Import Prelude GoStd GoText.

(** Nothing here returns an error. *)
Abbreviation dresult := (outcome Empty_set).

Record Options := mk_Options { ContextLines : Z; SrcName : bytes; DstName : bytes }.
Record DiffStat := mk_DiffStat { Insertions : Z; Deletions : Z; Binary : bool }.

(** ** Lines *)

(** The two [strings.ReplaceAll] calls. *)
Fixpoint replace_crlf (s : bytes) : bytes :=
  match s with
  | x0d :: (x0a :: s') => x0a :: replace_crlf s'
  | c :: s' => c :: replace_crlf s'
  | [] => []
  end.
Definition replace_cr (s : bytes) : bytes := map (fun c => if Byte.eqb c x0d then x0a else c) s.

(** [strings.Split(s, "\n")]. *)
Fixpoint split_nl (cur : bytes) (s : bytes) : list bytes :=
  match s with
  | [] => [cur]
  | c :: s' => if Byte.eqb c x0a then cur :: split_nl [] s' else split_nl (cur ++ [c]) s'
  end.

Definition ends_nl (s : bytes) : bool := match rev s with c :: _ => Byte.eqb c x0a | [] => false end.

Definition splitLines (data : bytes) : list bytes * bool :=
  match data with
  | [] => ([], true)
  | _ =>
      let s := replace_cr (replace_crlf data) in
      let lines := split_nl [] s in
      let lines := match rev lines with [] :: r => rev r | _ => lines end in
      match lines with [] => ([], true) | _ => (lines, ends_nl s) end
  end.

Definition isBinary (data : bytes) : bool := bool_decide (is_Some (IndexByte data x00)).

(** ** Myers' algorithm *)
Inductive opKind := opEqual | opInsert | opDelete.
Record editOp := mk_editOp { op_kind : opKind; op_text : bytes }.

Definition is_equal (op : editOp) : bool := match op_kind op with opEqual => true | _ => false end.

(** Following equal lines: the inner [for]. *)
Fixpoint snake (fuel : nat) (src dst : list bytes) (x y : Z) : dresult (Z * Z) :=
  match fuel with
  | O => Diverge
  | S f =>
      if (x <? len src) && (y <? len dst) then
        let? a := elem_at src x in
        let? b := elem_at dst y in
        if bytes_eqb a b then snake f src dst (x + 1) (y + 1) else Ok (x, y)
      else Ok (x, y)
  end.

(** The condition both loops choose the move by. *)
Definition goes_down (v : list Z) (max k d : Z) : dresult bool :=
  if k =? - d then Ok true
  else if k =? d then Ok false
  else let? a := elem_at v (k - 1 + max) in
       let? b := elem_at v (k + 1 + max) in
       Ok (a <? b).

(** The loop over the diagonals of one round, [count] of them from [k]. *)
Fixpoint k_loop (count : nat) (src dst : list bytes) (max d k : Z) (v : list Z) : dresult (list Z * bool) :=
  match count with
  | O => Ok (v, false)
  | S c =>
      let? down := goes_down v max k d in
      let? x := if down : bool then elem_at v (k + 1 + max) else let? a := elem_at v (k - 1 + max) in Ok (a + 1) in
      let? (x, y) := snake (S (length src)) src dst x (x - k) in
      let? v := store_at v (k + max) x in
      if (x >=? len src) && (y >=? len dst) then Ok (v, true) else k_loop c src dst max d (k + 2) v
  end.

(** Walking a diagonal backward. *)
Fixpoint walk_loop (fuel : nat) (src : list bytes) (x y prevX prevY : Z) (ops : list editOp)
  : dresult (Z * Z * list editOp) :=
  match fuel with
  | O => Diverge
  | S f =>
      if (x >? prevX) && (y >? prevY) then
        let? t := elem_at src (x - 1) in
        walk_loop f src (x - 1) (y - 1) prevX prevY (ops ++ [mk_editOp opEqual t])
      else Ok (x, y, ops)
  end.

(** The loop of [backtrack]; the trace is newest first. *)
Fixpoint back_loop (trace : list (list Z)) (src dst : list bytes) (max x y : Z) (ops : list editOp)
  : dresult (list editOp) :=
  match trace with
  | [] => Ok ops
  | v :: rest =>
      let d := len rest in
      let k := x - y in
      let? down := goes_down v max k d in
      let prevK := if down : bool then k + 1 else k - 1 in
      let? prevX := elem_at v (prevK + max) in
      let prevY := prevX - prevK in
      let? (x, y, ops) := walk_loop (S (Z.to_nat x)) src x y prevX prevY ops in
      if d >? 0 then
        if x =? prevX then
          let? t := elem_at dst (y - 1) in
          back_loop rest src dst max x (y - 1) (ops ++ [mk_editOp opInsert t])
        else
          let? t := elem_at src (x - 1) in
          back_loop rest src dst max (x - 1) y (ops ++ [mk_editOp opDelete t])
      else back_loop rest src dst max x y ops
  end.

(** The postcondition's loop, from [ri]. *)
Fixpoint check_loop (ops : list editOp) (dst : list bytes) (ri : Z) : dresult Z :=
  match ops with
  | [] => Ok ri
  | op :: ops' =>
      match op_kind op with
      | opDelete => check_loop ops' dst ri
      | _ =>
          if ri >=? len dst then Panic "diff.backtrack: postcondition violated: edit script does not reconstruct dst"
          else
            let? t := elem_at dst ri in
            if negb (bytes_eqb (op_text op) t)
            then Panic "diff.backtrack: postcondition violated: edit script does not reconstruct dst"
            else check_loop ops' dst (ri + 1)
      end
  end.

Definition backtrack (trace : list (list Z)) (src dst : list bytes) : dresult (list editOp) :=
  let? ops := back_loop trace src dst (len src + len dst) (len src) (len dst) [] in
  let ops := rev ops in
  let? ri := check_loop ops dst 0 in
  if negb (ri =? len dst) then Panic "diff.backtrack: postcondition violated: edit script length mismatch"
  else Ok ops.

Fixpoint d_loop (count : nat) (src dst : list bytes) (max d : Z) (v : list Z) (trace : list (list Z))
  : dresult (list editOp) :=
  match count with
  | O => Panic "diff.myers: failed to find edit path"
  | S c =>
      let trace := v :: trace in
      let? (v, found) := k_loop (S (Z.to_nat d)) src dst max d (- d) v in
      if found : bool then backtrack trace src dst else d_loop c src dst max (d + 1) v trace
  end.

Definition myers (src dst : list bytes) : dresult (list editOp) :=
  let n := len src in
  let m := len dst in
  if n =? 0 then Ok (map (mk_editOp opInsert) dst)
  else if m =? 0 then Ok (map (mk_editOp opDelete) src)
  else
    let max := n + m in
    let? v := store_at (replicate (Z.to_nat (2 * max + 1)) 0) (1 + max) 0 in
    d_loop (S (Z.to_nat max)) src dst max 0 v [].

(** ** Hunks *)
Record hunk := mk_hunk { srcStart : Z; srcCount : Z; dstStart : Z; dstCount : Z; h_ops : list editOp }.
Record changeRange := mk_changeRange { cr_start : Z; cr_end : Z }.

(** The loop of [findChanges], from index [i]; the changes are newest first. *)
Fixpoint find_loop (i : Z) (ops : list editOp) (changes : list changeRange) : list changeRange :=
  match ops with
  | [] => changes
  | op :: ops' =>
      find_loop (i + 1) ops'
        (if is_equal op then changes
         else match changes with
              | [] => [mk_changeRange i (i + 1)]
              | last :: r => if i >? cr_end last then mk_changeRange i (i + 1) :: changes
                             else mk_changeRange (cr_start last) (i + 1) :: r
              end)
  end.
Definition findChanges (ops : list editOp) : list changeRange := rev (find_loop 0 ops []).

(** The loop of [mergeAdjacentChanges]; [merged] is [prev] and those before,
    newest first. *)
Fixpoint merge_loop (contextLines : Z) (prev : changeRange) (before changes : list changeRange) : list changeRange :=
  match changes with
  | [] => rev (prev :: before)
  | c :: changes' =>
      if cr_start c - cr_end prev <=? i64 (2 * contextLines)
      then merge_loop contextLines (mk_changeRange (cr_start prev) (cr_end c)) before changes'
      else merge_loop contextLines c (prev :: before) changes'
  end.
Definition mergeAdjacentChanges (changes : list changeRange) (contextLines : Z) : list changeRange :=
  match changes with
  | [] => []
  | c :: changes' => merge_loop contextLines c [] changes'
  end.

(** [srcPos] and [dstPos]: the positions before each op. *)
Fixpoint positions (si di : Z) (ops : list editOp) : list (Z * Z) :=
  match ops with
  | [] => []
  | op :: ops' =>
      (si, di) :: match op_kind op with
                  | opEqual => positions (si + 1) (di + 1) ops'
                  | opDelete => positions (si + 1) di ops'
                  | opInsert => positions si (di + 1) ops'
                  end
  end.

(** The counting loop over a hunk's ops. *)
Fixpoint count_loop (ops : list editOp) (s d : Z) : Z * Z :=
  match ops with
  | [] => (s, d)
  | op :: ops' =>
      match op_kind op with
      | opEqual => count_loop ops' (s + 1) (d + 1)
      | opDelete => count_loop ops' (s + 1) d
      | opInsert => count_loop ops' s (d + 1)
      end
  end.

Definition build_hunk (ops : list editOp) (pos : list (Z * Z)) (contextLines : Z) (cr : changeRange) : dresult hunk :=
  let start := i64 (cr_start cr - contextLines) in
  let start := if start <? 0 then 0 else start in
  let end_ := i64 (cr_end cr + contextLines) in
  let end_ := if end_ >? len ops then len ops else end_ in
  let? (sp, dp) := elem_at pos start in
  let? hops := slice_of ops start end_ in
  let '(sc, dc) := count_loop hops 0 0 in
  Ok (mk_hunk (sp + 1) sc (dp + 1) dc hops).

Fixpoint hunk_loop (ops : list editOp) (pos : list (Z * Z)) (contextLines : Z) (merged : list changeRange)
  : dresult (list hunk) :=
  match merged with
  | [] => Ok []
  | cr :: merged' =>
      let? h := build_hunk ops pos contextLines cr in
      let? hs := hunk_loop ops pos contextLines merged' in
      Ok (h :: hs)
  end.

Definition buildHunks (ops : list editOp) (contextLines : Z) : dresult (list hunk) :=
  match findChanges ops with
  | [] => Ok []
  | changes => hunk_loop ops (positions 0 0 ops) contextLines (mergeAdjacentChanges changes contextLines)
  end.

(** ** The unified format *)
Definition noNewlineMarker : bytes := bs "\ No newline at end of file" ++ [x0a].

(** The last op of the hunk that [reads] selects, or -1. *)
Fixpoint last_op (reads : editOp -> bool) (rops : list editOp) : Z :=
  match rops with
  | [] => -1
  | op :: r => if reads op then len r else last_op reads r
  end.

Definition reads_src (op : editOp) : bool := match op_kind op with opInsert => false | _ => true end.
Definition reads_dst (op : editOp) : bool := match op_kind op with opDelete => false | _ => true end.

Fixpoint format_ops (j lastSrcOpIdx lastDstOpIdx : Z) (ops : list editOp) (buf : bytes) : bytes :=
  match ops with
  | [] => buf
  | op :: ops' =>
      let srcMark := if j =? lastSrcOpIdx then noNewlineMarker else [] in
      let dstMark := if j =? lastDstOpIdx then noNewlineMarker else [] in
      let line := op_text op ++ [x0a] in
      format_ops (j + 1) lastSrcOpIdx lastDstOpIdx ops'
        (buf ++ match op_kind op with
                | opEqual => x20 :: line ++ srcMark ++ dstMark
                | opDelete => x2d :: line ++ srcMark
                | opInsert => x2b :: line ++ dstMark
                end)
  end.

Fixpoint format_hunks (hunks : list hunk) (srcNoNL dstNoNL : bool) (srcTotal dstTotal : Z) (buf : bytes) : bytes :=
  match hunks with
  | [] => buf
  | h :: hunks' =>
      let isLast := match hunks' with [] => true | _ => false end in
      let lastSrcOpIdx :=
        if isLast && srcNoNL && (srcStart h + srcCount h - 1 =? srcTotal) then last_op reads_src (rev (h_ops h)) else -1 in
      let lastDstOpIdx :=
        if isLast && dstNoNL && (dstStart h + dstCount h - 1 =? dstTotal) then last_op reads_dst (rev (h_ops h)) else -1 in
      format_hunks hunks' srcNoNL dstNoNL srcTotal dstTotal
        (format_ops 0 lastSrcOpIdx lastDstOpIdx (h_ops h)
           (buf ++ bs "@@ -" ++ dec (srcStart h) ++ bs "," ++ dec (srcCount h)
                ++ bs " +" ++ dec (dstStart h) ++ bs "," ++ dec (dstCount h) ++ bs " @@" ++ [x0a]))
  end.

Definition default_name (name fallback : bytes) : bytes := if bytes_eqb name [] then fallback else name.

Definition formatUnified (hunks : list hunk) (srcName dstName : bytes) (srcNoNL dstNoNL : bool) (srcTotal dstTotal : Z) : bytes :=
  match hunks with
  | [] => []
  | _ => format_hunks hunks srcNoNL dstNoNL srcTotal dstTotal
           (bs "--- " ++ default_name srcName (bs "a") ++ [x0a] ++ bs "+++ " ++ default_name dstName (bs "b") ++ [x0a])
  end.

Definition Unified (a b : bytes) (opts : Options) : dresult bytes :=
  if ContextLines opts <? 0 then Panic "diff.Unified: ContextLines must not be negative"
  else if isBinary a || isBinary b
  then Ok (bs "--- " ++ default_name (SrcName opts) (bs "a") ++ [x0a] ++ bs "+++ " ++ default_name (DstName opts) (bs "b")
             ++ [x0a] ++ bs "cannot compute difference between binary files" ++ [x0a])
  else
    let '(srcLines, srcHasNL) := splitLines a in
    let '(dstLines, dstHasNL) := splitLines b in
    let? ops := myers srcLines dstLines in
    if forallb is_equal ops then Ok []
    else
      let? hunks := buildHunks ops (ContextLines opts) in
      Ok (formatUnified hunks (SrcName opts) (DstName opts) (negb srcHasNL) (negb dstHasNL) (len srcLines) (len dstLines)).

Fixpoint stat_loop (ops : list editOp) (ins del : Z) : Z * Z :=
  match ops with
  | [] => (ins, del)
  | op :: ops' =>
      match op_kind op with
      | opInsert => stat_loop ops' (ins + 1) del
      | opDelete => stat_loop ops' ins (del + 1)
      | opEqual => stat_loop ops' ins del
      end
  end.

Definition Stat (a b : bytes) : dresult DiffStat :=
  if isBinary a || isBinary b then Ok (mk_DiffStat 0 0 true)
  else
    let? ops := myers (fst (splitLines a)) (fst (splitLines b)) in
    let '(ins, del) := stat_loop ops 0 0 in
    Ok (mk_DiffStat ins del false).
