(* ===== verification/DiffCorrect.v ===== *)
(** * Myers' algorithm is total, correct and minimal

    [reach d x y]: [d] insertions and deletions, and any number of equal lines,
    lead from the start to the point ([x], [y]).  Round [d] of the algorithm
    computes, on each diagonal, the furthest point [d] edits reach; the stored
    rows let [backtrack] replay the choices. *)

From S2P Require Import Prelude GoStd GoText Diff.

(** ** Edit scripts *)

(** The lines a script reads and the lines it writes, and its edits. *)
Fixpoint src_side (ops : list editOp) : list bytes :=
  match ops with
  | [] => []
  | op :: ops' => match op_kind op with opInsert => src_side ops' | _ => op_text op :: src_side ops' end
  end.
Fixpoint dst_side (ops : list editOp) : list bytes :=
  match ops with
  | [] => []
  | op :: ops' => match op_kind op with opDelete => dst_side ops' | _ => op_text op :: dst_side ops' end
  end.
Definition edits (ops : list editOp) : Z := len (List.filter (fun op => negb (is_equal op)) ops).

Lemma edits_cons op ops : edits (op :: ops) = (if is_equal op then 0 else 1) + edits ops.
Proof. unfold edits. cbn [List.filter]. destruct (is_equal op); cbn [negb]; rewrite ?len_cons; lia. Qed.

Lemma drop_prev {A} (l : list A) i x : 0 < i -> l !! Z.to_nat (i - 1) = Some x ->
  drop (Z.to_nat (i - 1)) l = x :: drop (Z.to_nat i) l.
Proof.
  intros Hi Hx. rewrite (drop_S l x (Z.to_nat (i - 1)) Hx). by replace (S (Z.to_nat (i - 1))) with (Z.to_nat i) by lia.
Qed.

(** ** Reachable points *)
Section myers.
Context (src dst : list bytes).
Abbreviation n := (len src).
Abbreviation m := (len dst).

Definition matches (x y : Z) : Prop :=
  0 <= x /\ 0 <= y /\ exists t, src !! Z.to_nat x = Some t /\ dst !! Z.to_nat y = Some t.

Inductive reach : Z -> Z -> Z -> Prop :=
| reach_start : reach 0 0 0
| reach_equal d x y : reach d x y -> matches x y -> reach d (x + 1) (y + 1)
| reach_delete d x y : reach d x y -> reach (d + 1) (x + 1) y
| reach_insert d x y : reach d x y -> reach (d + 1) x (y + 1).

Lemma matches_bounds x y : matches x y -> 0 <= x < n /\ 0 <= y < m.
Proof.
  intros (Hx & Hy & t & H1 & H2). apply lookup_lt_Some in H1, H2. unfold len. lia.
Qed.

Lemma reach_pos d x y : reach d x y -> 0 <= d /\ 0 <= x /\ 0 <= y.
Proof. induction 1; lia. Qed.

Lemma reach_diagonal d x y : reach d x y -> - d <= x - y <= d /\ exists j, x - y = d - 2 * j.
Proof.
  induction 1 as [|d x y H IH Hm|d x y H IH|d x y H IH]; [split; [lia|by exists 0]|..]; destruct IH as [IH [j Hj]];
    (split; [lia|]); [exists j|exists j|exists (j + 1)]; lia.
Qed.

(** The last edit and the run of equal lines after it. *)
Lemma reach_last d x y : reach d x y -> exists x0, x0 <= x
  /\ (forall i, x0 <= i < x -> matches i (i - (x - y)))
  /\ (d = 0 /\ x0 = 0 /\ x = y \/ reach (d - 1) (x0 - 1) (x0 - (x - y)) \/ reach (d - 1) x0 (x0 - (x - y) - 1)).
Proof.
  induction 1 as [|d x y H IH Hm|d x y H IH|d x y H IH].
  - exists 0. split_and!; [lia|lia|by left].
  - destruct IH as (x0 & Hl & Ha & Hc). exists x0. replace (x + 1 - (y + 1)) with (x - y) by lia. split_and!; [lia| |].
    + intros i Hi. destruct (Z.eq_dec i x) as [->|]; [by replace (x - (x - y)) with y by lia|apply Ha; lia].
    + destruct Hc as [(H1 & H2 & H3)|Hc]; [left; lia|by right].
  - exists (x + 1). split_and!; [lia|lia|]. right. left.
    by replace (d + 1 - 1) with d by lia; replace (x + 1 - 1) with x by lia; replace (x + 1 - (x + 1 - y)) with y by lia.
  - exists x. split_and!; [lia|lia|]. right. right.
    by replace (d + 1 - 1) with d by lia; replace (x - (x - (y + 1)) - 1) with y by lia.
Qed.

(** Leaving the rectangle of the two texts only costs. *)
Lemma reach_clamp d x y : reach d x y ->
  reach (d - (x - Z.min x n) - (y - Z.min y m)) (Z.min x n) (Z.min y m).
Proof.
  pose proof (len_nonneg src). pose proof (len_nonneg dst).
  induction 1 as [|d x y H1 IH Hm|d x y H1 IH|d x y H1 IH].
  - rewrite !Z.min_l by lia. constructor.
  - pose proof (matches_bounds _ _ Hm). rewrite !Z.min_l in * by lia.
    replace (d - (x + 1 - (x + 1)) - (y + 1 - (y + 1))) with (d - (x - x) - (y - y)) by lia. by constructor.
  - destruct (Z.le_gt_cases n x).
    + rewrite (Z.min_r x), (Z.min_r (x + 1)) in * by lia.
      by replace (d + 1 - (x + 1 - n)) with (d - (x - n)) by lia.
    + rewrite (Z.min_l x), (Z.min_l (x + 1)) in * by lia.
      replace (d + 1 - (x + 1 - (x + 1)) - (y - Z.min y m)) with (d - (x - x) - (y - Z.min y m) + 1) by lia. by constructor.
  - destruct (Z.le_gt_cases m y).
    + rewrite (Z.min_r y), (Z.min_r (y + 1)) in * by lia.
      by replace (d + 1 - (x - Z.min x n) - (y + 1 - m)) with (d - (x - Z.min x n) - (y - m)) by lia.
    + rewrite (Z.min_l y), (Z.min_l (y + 1)) in * by lia.
      replace (d + 1 - (x - Z.min x n) - (y + 1 - (y + 1))) with (d - (x - Z.min x n) - (y - y) + 1) by lia. by constructor.
Qed.

Lemma reach_all : reach (n + m) n m.
Proof.
  assert (forall a, 0 <= a -> reach a a 0) as Hd.
  { apply natlike_ind; [constructor|]. intros a Ha. unfold Z.succ. by constructor. }
  assert (forall b, 0 <= b -> reach (n + b) n b) as Hi; [|apply Hi, len_nonneg].
  apply natlike_ind; [rewrite Z.add_0_r; apply Hd, len_nonneg|].
  intros b Hb IH. unfold Z.succ. rewrite Z.add_assoc. by constructor.
Qed.

(** ** Furthest points *)
Definition furthest (d k X : Z) : Prop :=
  reach d X (X - k) /\ forall x y, reach d x y -> x - y = k -> x <= X.

Lemma furthest_unique d k X Y : furthest d k X -> furthest d k Y -> X = Y.
Proof.
  intros [H1 H2] [H3 H4]. specialize (H2 _ _ H3 ltac:(lia)). specialize (H4 _ _ H1 ltac:(lia)). lia.
Qed.

(** [x0] is the furthest point of the diagonal just after an edit. *)
Definition start_point (d k x0 : Z) : Prop :=
  reach d x0 (x0 - k)
  /\ (d = 0 -> x0 = 0)
  /\ (forall x y, reach (d - 1) x y -> x - y = k - 1 -> x + 1 <= x0)
  /\ (forall x y, reach (d - 1) x y -> x - y = k + 1 -> x <= x0).

Lemma furthest_from_start d k x0 x : start_point d k x0 -> reach d x (x - k) -> x0 <= x ->
  forall i, x0 <= i < x -> matches i (i - k).
Proof.
  intros (H1 & H2 & H3 & H4) Hr Hx i Hi. destruct (reach_last _ _ _ Hr) as (x1 & Hl & Ha & Hc).
  replace (x - (x - k)) with k in * by lia. apply Ha. enough (x1 <= x0) by lia.
  destruct Hc as [(-> & -> & _)|[Hc|Hc]]; [rewrite H2; lia| |].
  - specialize (H3 _ _ Hc ltac:(lia)). lia.
  - specialize (H4 _ _ Hc ltac:(lia)). lia.
Qed.

Lemma start_furthest d k x0 X : start_point d k x0 -> x0 <= X ->
  (forall i, x0 <= i < X -> matches i (i - k)) -> ~ matches X (X - k) -> furthest d k X.
Proof.
  intros Hs HX Hm Hno. split.
  - assert (forall a, 0 <= a -> a <= X - x0 -> reach d (x0 + a) (x0 + a - k)) as H.
    { apply (natlike_ind (fun a => a <= X - x0 -> reach d (x0 + a) (x0 + a - k))); [intros _; rewrite Z.add_0_r; apply Hs|].
      intros a Ha IH Hle. specialize (IH ltac:(lia)). replace (x0 + Z.succ a) with (x0 + a + 1) by lia.
      replace (x0 + a + 1 - k) with (x0 + a - k + 1) by lia. constructor; [done|]. apply Hm. lia. }
    replace X with (x0 + (X - x0)) by lia. apply H; lia.
  - intros x y Hr Hk. destruct (Z.le_gt_cases x X) as [|Hgt]; [done|exfalso]. apply Hno.
    replace y with (x - k) in Hr by lia. apply (furthest_from_start d k x0 x); [done|done|lia|lia].
Qed.

(** ** One diagonal of a round *)

(** What the row holds before round [d]. *)
Record row (d : Z) (v : list Z) : Prop := {
  row_len : len v = 2 * (n + m) + 1;
  row_start : d = 0 -> v !! Z.to_nat (1 + (n + m)) = Some 0;
  row_val k : 0 < d -> - (d - 1) <= k <= d - 1 -> (exists j, k = d - 1 - 2 * j) ->
    exists X, v !! Z.to_nat (k + (n + m)) = Some X /\ furthest (d - 1) k X;
}.

Abbreviation max := (n + m).
Abbreviation at_ v i := (elem_at v i : dresult Z).

Lemma row_idx d v k : row d v -> 0 < d -> d <= max -> - (d - 1) <= k <= d - 1 -> (exists j, k = d - 1 - 2 * j) ->
  exists X, at_ v (k + max) = Ok X /\ furthest (d - 1) k X.
Proof.
  intros Hr Hd Hm Hk Hj. destruct (row_val _ _ Hr k Hd Hk Hj) as (X & HX & Hf). exists X. split; [|done].
  apply elem_at_ok; [lia|done].
Qed.

(** The move the loops choose, and the point it leads to. *)
Definition chosen (d : Z) (v : list Z) (k : Z) (down : bool) (x0 : Z) : Prop :=
  if down then at_ v (k + 1 + max) = Ok x0 /\ (0 < d -> furthest (d - 1) (k + 1) x0)
  else 0 < d /\ at_ v (k - 1 + max) = Ok (x0 - 1) /\ furthest (d - 1) (k - 1) (x0 - 1).

Lemma choose d v k : row d v -> 0 <= d <= max -> - d <= k <= d -> (exists j, k = d - 2 * j) ->
  exists down x0, goes_down v max k d = Ok down /\ chosen d v k down x0 /\ start_point d k x0.
Proof.
  intros Hr Hd Hk [j Hj]. pose proof (len_nonneg src). pose proof (len_nonneg dst). unfold goes_down, chosen, start_point.
  assert (Hneg : forall x y, ~ reach (-1) x y) by (intros x y Hx%reach_pos; lia).
  destruct (Z.eq_dec d 0) as [->|Hd0].
  { assert (k = 0) as -> by lia. exists true, 0. change (0 =? - 0) with true. split; [done|]. split.
    - split; [|lia]. apply elem_at_ok; [lia|]. by apply (row_start _ _ Hr).
    - split; [constructor|]. split; [done|]. split; intros x y Hx; by apply Hneg in Hx. }
  assert (Hdown : k <> d -> exists X, at_ v (k + 1 + max) = Ok X /\ furthest (d - 1) (k + 1) X).
  { intros Hkd. apply (row_idx d v); [done|lia|lia|lia|]. exists (j - 1). lia. }
  assert (Hright : k <> - d -> exists X, at_ v (k - 1 + max) = Ok X /\ furthest (d - 1) (k - 1) X).
  { intros Hkd. apply (row_idx d v); [done|lia|lia|lia|]. exists j. lia. }
  assert (Hins : forall X, furthest (d - 1) (k + 1) X -> reach d X (X - k)).
  { intros X [HX _]. replace (X - k) with (X - (k + 1) + 1) by lia. replace d with (d - 1 + 1) by lia. by constructor. }
  assert (Hdel : forall X, furthest (d - 1) (k - 1) X -> reach d (X + 1) (X + 1 - k)).
  { intros X [HX _]. replace (X + 1 - k) with (X - (k - 1)) by lia. replace d with (d - 1 + 1) by lia. by constructor. }
  destruct (k =? - d) eqn:E1; zbool.
  - destruct (Hdown ltac:(lia)) as (X & HX & Hf). exists true, X. split_and!; try done; try lia.
    + by apply Hins.
    + intros x y Hxy Hkk. apply reach_diagonal in Hxy as [? _]. lia.
    + intros x y. apply Hf.
  - destruct (Hright E1) as (A & HA & HfA). destruct (k =? d) eqn:E2; zbool.
    + exists false, (A + 1). replace (A + 1 - 1) with A by lia. split_and!; try done; try lia.
      * by apply Hdel.
      * intros x y Hxy Hkk. apply HfA in Hxy; lia.
      * intros x y Hxy Hkk. apply reach_diagonal in Hxy as [? _]. lia.
    + destruct (Hdown E2) as (B & HB & HfB). rewrite HA, HB. cbn [obind]. destruct (A <? B) eqn:E3; zbool.
      * exists true, B. split_and!; try done; try lia; [by apply Hins| |].
        -- intros x y Hxy Hkk. apply HfA in Hxy; lia.
        -- intros x y. apply HfB.
      * exists false, (A + 1). replace (A + 1 - 1) with A by lia. split_and!; try done; try lia.
        -- by apply Hdel.
        -- intros x y Hxy Hkk. apply HfA in Hxy; lia.
        -- intros x y Hxy Hkk. apply HfB in Hxy; lia.
Qed.

Lemma snake_spec fuel x k : 0 <= x -> 0 <= x - k -> n - x < Z.of_nat fuel -> (0 < fuel)%nat ->
  exists X, snake fuel src dst x (x - k) = Ok (X, X - k) /\ x <= X
    /\ (forall i, x <= i < X -> matches i (i - k)) /\ ~ matches X (X - k).
Proof.
  revert x. induction fuel as [|f IH]; intros x Hx Hy Hf Hpos; [lia|]. cbn [snake].
  destruct ((x <? n) && (x - k <? m)) eqn:E.
  - zbool. destruct (elem_at_some (E:=Empty_set) src x ltac:(lia)) as (a & Ha & ->), (elem_at_some (E:=Empty_set) dst (x - k) ltac:(lia)) as (b & Hb & ->).
    cbn [obind]. destruct (bytes_eqb a b) eqn:Eab.
    + apply bytes_eqb_eq in Eab. subst b. destruct (IH (x + 1)) as (X & HX & Hl & Hm & Hno); [lia..|].
      exists X. replace (x - k + 1) with (x + 1 - k) by lia. split_and!; [done|lia| |done].
      intros i Hi. destruct (Z.eq_dec i x) as [->|]; [split_and!; eauto|apply Hm; lia].
    + apply bytes_eqb_neq in Eab. exists x. split_and!; [done|lia|lia|]. intros (_ & _ & t & H1 & H2). congruence.
  - exists x. split_and!; [done|lia|lia|]. intros Hm%matches_bounds. zbool. destruct E; zbool; lia.
Qed.

(** ** One round *)
Record partial (d k : Z) (v : list Z) : Prop := {
  partial_row : row d v;
  partial_val j : - d <= j < k -> (exists i, j = d - 2 * i) ->
    exists X, v !! Z.to_nat (j + max) = Some X /\ furthest d j X /\ ~ (n <= X /\ m <= X - j);
}.

Lemma store_partial d k v X : partial d k v -> 0 <= d <= max -> - d <= k <= d -> (exists i, k = d - 2 * i) ->
  furthest d k X -> ~ (n <= X /\ m <= X - k) ->
  (store_at v (k + max) X : dresult (list Z)) = Ok (<[Z.to_nat (k + max) := X]> v) /\ partial d (k + 2) (<[Z.to_nat (k + max) := X]> v).
Proof.
  intros [Hr Hv] Hd Hk [i Hi] HX Hno. pose proof (row_len _ _ Hr) as Hl. split; [apply store_at_ok; lia|].
  constructor; [constructor|].
  - unfold len in *. by rewrite length_insert.
  - intros Hd0. rewrite list_lookup_insert_ne by lia. by apply (row_start _ _ Hr).
  - intros j Hd0 Hj [i' Hi']. rewrite list_lookup_insert_ne by lia. apply (row_val _ _ Hr); [done..|by exists i'].
  - intros j Hj [i' Hi']. destruct (Z.eq_dec j k) as [->|Hne].
    + rewrite list_lookup_insert_eq by (unfold len in *; lia). by exists X.
    + rewrite list_lookup_insert_ne by lia. apply Hv; [lia|by exists i'].
Qed.

Lemma chosen_idx d v k down x0 : chosen d v k down x0 ->
  (if down : bool then at_ v (k + 1 + max) else let? a := at_ v (k - 1 + max) in Ok (a + 1)) = Ok x0.
Proof.
  unfold chosen. destruct down; [by intros [-> _]|]. intros (_ & -> & _). cbn [obind]. f_equal. lia.
Qed.

Lemma snake_from_start d k x0 : start_point d k x0 ->
  exists X, snake (S (length src)) src dst x0 (x0 - k) = Ok (X, X - k) /\ furthest d k X.
Proof.
  intros Hs. pose proof (reach_pos _ _ _ (proj1 Hs)) as (_ & Hx & Hy).
  destruct (snake_spec (S (length src)) x0 k Hx Hy) as (X & HX & Hl & Hm & Hno); [unfold len; lia|lia|].
  exists X. split; [done|]. by eapply start_furthest.
Qed.

Lemma k_loop_spec count d k v : partial d k v -> 0 <= d <= max -> - d <= k -> (exists i, k = d - 2 * i) ->
  k + 2 * Z.of_nat count = d + 2 ->
  match k_loop count src dst max d k v with
  | Ok (_, true) => exists k' X, furthest d k' X /\ n <= X /\ m <= X - k'
  | Ok (v', false) => partial d (d + 2) v'
  | _ => False
  end.
Proof.
  revert k v. induction count as [|c IH]; intros k v Hp Hd Hk Hpar Hc; cbn [k_loop].
  { by replace (d + 2) with k by lia. }
  destruct (choose d v k (partial_row _ _ _ Hp) Hd ltac:(lia) Hpar) as (down & x0 & -> & Hch & Hs). cbn [obind].
  rewrite (chosen_idx _ _ _ _ _ Hch). cbn [obind]. destruct (snake_from_start _ _ _ Hs) as (X & -> & HX). cbn [obind].
  pose proof (row_len _ _ (partial_row _ _ _ Hp)) as Hlen.
  rewrite store_at_ok by lia. cbn [obind]. destruct ((X >=? n) && (X - k >=? m)) eqn:E.
  - rewrite !Z.geb_leb in E. zbool. by exists k, X.
  - assert (~ (n <= X /\ m <= X - k)) as Hno by (rewrite !Z.geb_leb in E; intros [? ?]; zbool; destruct E; zbool; lia).
    destruct (store_partial d k v X Hp Hd ltac:(lia) Hpar HX Hno) as [_ Hp']. apply IH; [done|done|lia| |lia].
    destruct Hpar as [i Hi]. exists (i - 1). lia.
Qed.

Lemma partial_start d v : row d v -> partial d (- d) v.
Proof. intros Hr. constructor; [done|]. intros j Hj. lia. Qed.

(** A round that does not reach the end is a row for the next. *)
Lemma partial_end d v : partial d (d + 2) v -> 0 <= d -> row (d + 1) v /\ ~ reach d n m.
Proof.
  intros [Hr Hv] Hd. split.
  - constructor; [apply Hr|lia|]. intros k _ Hk [j Hj]. destruct (Hv k ltac:(lia)) as (X & H1 & H2 & _); [exists j; lia|].
    exists X. split; [done|]. by replace (d + 1 - 1) with d by lia.
  - intros Hnm. destruct (reach_diagonal _ _ _ Hnm) as [Hk Hj].
    destruct (Hv (n - m) ltac:(lia) Hj) as (X & _ & [_ H2] & Hno). specialize (H2 _ _ Hnm eq_refl). apply Hno. lia.
Qed.

(** The first round that reaches past both ends reaches exactly the end. *)
Lemma finish_exact d k X : furthest d k X -> n <= X -> m <= X - k -> (forall d', d' < d -> ~ reach d' n m) ->
  X = n /\ X - k = m.
Proof.
  intros [Hr _] Hn Hm Hmin. apply reach_clamp in Hr. rewrite !Z.min_r in Hr by lia.
  destruct (Z.eq_dec X n); [destruct (Z.eq_dec (X - k) m); [done|]|]; exfalso; apply Hmin in Hr; lia || done.
Qed.

(** ** backtrack *)
Lemma walk_loop_spec fuel x k x0 prevX prevY ops : x0 <= x -> x - x0 < Z.of_nat fuel ->
  prevX <= x0 -> prevY <= x0 - k -> x0 = prevX \/ x0 - k = prevY -> 0 <= x0 -> 0 <= x0 - k ->
  (forall i, x0 <= i < x -> matches i (i - k)) ->
  src_side (rev ops) = drop (Z.to_nat x) src -> dst_side (rev ops) = drop (Z.to_nat (x - k)) dst ->
  exists ops', walk_loop fuel src x (x - k) prevX prevY ops = Ok (x0, x0 - k, ops')
    /\ src_side (rev ops') = drop (Z.to_nat x0) src /\ dst_side (rev ops') = drop (Z.to_nat (x0 - k)) dst
    /\ edits (rev ops') = edits (rev ops).
Proof.
  revert x ops. induction fuel as [|f IH]; intros x ops Hx Hf HpX HpY Hstop H0 H1 Hm Hs Hd; [lia|]. cbn [walk_loop].
  rewrite !Z.gtb_ltb. destruct (Z.eq_dec x x0) as [->|Hne].
  - assert ((prevX <? x0) && (prevY <? x0 - k) = false) as ->.
    { apply andb_false_iff. rewrite !Z.ltb_ge. destruct Hstop; lia. }
    by exists ops.
  - rewrite (proj2 (Z.ltb_lt prevX x)), (proj2 (Z.ltb_lt prevY (x - k))) by lia. cbn [andb].
    destruct (Hm (x - 1) ltac:(lia)) as (_ & _ & t & Ht1 & Ht2). rewrite (elem_at_ok src (x - 1) t) by (lia || done). cbn [obind].
    destruct (IH (x - 1) (ops ++ [mk_editOp opEqual t])) as (ops' & Hw & Hs' & Hd' & He); try lia; try done.
    + intros i Hi. apply Hm. lia.
    + rewrite rev_unit. cbn [src_side op_kind op_text]. rewrite Hs. symmetry. apply drop_prev; [lia|done].
    + rewrite rev_unit. cbn [dst_side op_kind op_text]. rewrite Hd. replace (x - 1 - k) with (x - k - 1) in * by lia.
      symmetry. apply drop_prev; [lia|done].
    + exists ops'. replace (x - k - 1) with (x - 1 - k) by lia. split_and!; try done.
      rewrite He, rev_unit, edits_cons. cbn. lia.
Qed.

Fixpoint trace_ok (trace : list (list Z)) : Prop :=
  match trace with [] => True | v :: rest => row (len rest) v /\ trace_ok rest end.

(** The point before the chosen move. *)
Lemma chosen_prev d v k down x0 : chosen d v k down x0 -> start_point d k x0 ->
  exists prevX, at_ v ((if down : bool then k + 1 else k - 1) + max) = Ok prevX
    /\ prevX <= x0 /\ prevX - (if down : bool then k + 1 else k - 1) <= x0 - k
    /\ (x0 = prevX \/ x0 - k = prevX - (if down : bool then k + 1 else k - 1))
    /\ prevX = (if down : bool then x0 else x0 - 1)
    /\ (0 < d -> furthest (d - 1) (if down : bool then k + 1 else k - 1) prevX).
Proof.
  unfold chosen. destruct down; intros Hc Hs.
  - destruct Hc as [Hi Hf]. exists x0. split_and!; try done; try lia.
  - destruct Hc as (Hd & Hi & Hf). exists (x0 - 1). split_and!; try done; try lia.
Qed.

Lemma back_loop_spec trace x y ops : trace_ok trace -> trace <> [] -> len trace - 1 <= max ->
  furthest (len trace - 1) (x - y) x -> x <= n -> y <= m ->
  src_side (rev ops) = drop (Z.to_nat x) src -> dst_side (rev ops) = drop (Z.to_nat y) dst ->
  exists ops', back_loop trace src dst max x y ops = Ok ops'
    /\ src_side (rev ops') = src /\ dst_side (rev ops') = dst /\ edits (rev ops') = edits (rev ops) + (len trace - 1).
Proof.
  revert x y ops. induction trace as [|v rest IH]; intros x y ops Ht Hne Hmax Hf Hx Hy Hs Hd; [done|].
  destruct Ht as [Hr Ht]. rewrite len_cons in *. replace (1 + len rest - 1) with (len rest) in * by lia.
  cbn [back_loop]. set (d := len rest) in *. set (k := x - y) in *. pose proof (len_nonneg rest) as Hd0. fold d in Hd0.
  destruct (reach_diagonal _ _ _ (proj1 Hf)) as [Hk Hpar]. replace (x - (x - k)) with k in * by lia.
  destruct (choose d v k Hr ltac:(lia) Hk Hpar) as (down & x0 & -> & Hch & Hst). cbn [obind].
  destruct (chosen_prev _ _ _ _ _ Hch Hst) as (prevX & -> & Hp1 & Hp2 & Hp3 & Hp4 & Hp5). cbn [obind].
  assert (x0 <= x) as Hx0 by (apply (proj2 Hf x0 (x0 - k)); [apply Hst|lia]).
  pose proof (reach_pos _ _ _ (proj1 Hst)) as (_ & Hx0p & Hy0p).
  pose proof (furthest_from_start d k x0 x Hst (proj1 Hf) Hx0) as Hm.
  replace y with (x - k) in * by lia.
  destruct (walk_loop_spec (S (Z.to_nat x)) x k x0 prevX (prevX - (if down then k + 1 else k - 1)) ops) as (ops1 & -> & Hs1 & Hd1 & He1);
    try done; try lia.
  cbn [obind]. rewrite Z.gtb_ltb. destruct (0 <? d) eqn:Ed; zbool.
  - specialize (Hp5 Ed). pose proof (reach_pos _ _ _ (proj1 Hp5)) as (_ & HpX & HpY).
    assert (rest <> []) as Hrest by (intros Hnil; apply (Z.lt_irrefl 0); by replace d with 0 in Ed by (unfold d; by rewrite Hnil)).
    destruct down; rewrite Hp4.
    + rewrite Z.eqb_refl. destruct (elem_at_some (E:=Empty_set) dst (x0 - k - 1) ltac:(lia)) as (t & Ht1 & ->). cbn [obind].
      destruct (IH x0 (x0 - k - 1) (ops1 ++ [mk_editOp opInsert t])) as (ops' & -> & H1 & H2 & H3); try done; try lia.
      * rewrite Hp4 in Hp5. by replace (x0 - (x0 - k - 1)) with (k + 1) by lia.
      * rewrite rev_unit. cbn [src_side op_kind]. done.
      * rewrite rev_unit. cbn [dst_side op_kind op_text]. rewrite Hd1. symmetry. apply drop_prev; [lia|done].
      * exists ops'. rewrite rev_unit, edits_cons in H3. cbn [is_equal op_kind] in H3. split_and!; try done. lia.
    + rewrite (proj2 (Z.eqb_neq x0 (x0 - 1))) by lia. destruct (elem_at_some (E:=Empty_set) src (x0 - 1) ltac:(lia)) as (t & Ht1 & ->). cbn [obind].
      destruct (IH (x0 - 1) (x0 - k) (ops1 ++ [mk_editOp opDelete t])) as (ops' & -> & H1 & H2 & H3); try done; try lia.
      * rewrite Hp4 in Hp5. by replace (x0 - 1 - (x0 - k)) with (k - 1) by lia.
      * rewrite rev_unit. cbn [src_side op_kind op_text]. rewrite Hs1. symmetry. apply drop_prev; [lia|done].
      * rewrite rev_unit. cbn [dst_side op_kind]. done.
      * exists ops'. rewrite rev_unit, edits_cons in H3. cbn [is_equal op_kind] in H3. split_and!; try done. lia.
  - assert (d = 0) as Hdz by lia. assert (rest = []) as -> by (by apply len_zero).
    cbn [back_loop]. exists ops1. destruct Hst as (_ & Hz & _). specialize (Hz Hdz). subst x0.
    replace (0 - k) with 0 in * by lia. split_and!; try done. lia.
Qed.

(** The postcondition holds, so it does not panic. *)
Lemma check_step op ops l : op_kind op <> opDelete -> dst = l ++ op_text op :: dst_side ops ->
  check_loop (op :: ops) dst (len l) = check_loop ops dst (len (l ++ [op_text op])).
Proof.
  intros Hk Hd. assert ((elem_at dst (len l) : dresult bytes) = Ok (op_text op)) as Hi.
  { apply elem_at_ok; [apply len_nonneg|]. unfold len. rewrite Nat2Z.id, Hd, lookup_app_r, Nat.sub_diag by lia. done. }
  assert ((len l >=? m) = false) as Hl.
  { rewrite Z.geb_leb. apply Z.leb_gt. rewrite Hd, len_app, len_cons. pose proof (len_nonneg (dst_side ops)). lia. }
  cbn [check_loop]. destruct (op_kind op); [| |done]; rewrite Hl, Hi; cbn [obind]; rewrite bytes_eqb_refl; cbn [negb];
    by rewrite len_app, len_cons, len_nil.
Qed.

Lemma check_loop_spec ops l : dst = l ++ dst_side ops -> check_loop ops dst (len l) = Ok m.
Proof.
  revert l. induction ops as [|[kind t] ops IH]; intros l Hd; [cbn; by rewrite Hd, app_nil_r|].
  destruct kind; [| |by apply IH]; (rewrite check_step by done); cbn [op_text]; apply IH; rewrite Hd at 1; cbn; by rewrite <- app_assoc.
Qed.

Lemma backtrack_spec trace : trace_ok trace -> trace <> [] -> len trace - 1 <= max ->
  furthest (len trace - 1) (n - m) n ->
  exists ops, backtrack trace src dst = Ok ops /\ src_side ops = src /\ dst_side ops = dst /\ edits ops = len trace - 1.
Proof.
  intros Ht Hne Hmax Hf. unfold backtrack.
  destruct (back_loop_spec trace n m [] Ht Hne Hmax Hf) as (ops & -> & H1 & H2 & H3); [lia|lia| | |].
  - symmetry. apply drop_ge. unfold len. lia.
  - symmetry. apply drop_ge. unfold len. lia.
  - cbn [obind]. pose proof (check_loop_spec (rev ops) []) as Hc. rewrite len_nil in Hc. rewrite Hc by (by rewrite H2).
    cbn [obind]. rewrite Z.eqb_refl. cbn [negb]. exists (rev ops). split_and!; try done.
Qed.

(** ** The rounds *)
Lemma d_loop_spec count d v trace : row d v -> trace_ok trace -> len trace = d -> 0 <= d ->
  Z.of_nat count + d = max + 1 -> (forall d', d' < d -> ~ reach d' n m) ->
  exists ops, d_loop count src dst max d v trace = Ok ops /\ src_side ops = src /\ dst_side ops = dst
    /\ forall d', reach d' n m -> edits ops <= d'.
Proof.
  revert d v trace. induction count as [|c IH]; intros d v trace Hr Ht Hl Hd Hc Hmin.
  { exfalso. apply (Hmin max); [lia|]. apply reach_all. }
  cbn [d_loop]. pose proof (k_loop_spec (S (Z.to_nat d)) d (- d) v (partial_start _ _ Hr) ltac:(lia) ltac:(lia)) as Hk.
  specialize (Hk ltac:(exists d; lia) ltac:(lia)). destruct (k_loop _ _ _ _ _ _ _) as [[v' []]|[]| |]; [| |done..]; cbn [obind].
  - destruct Hk as (k & X & Hf & Hn & Hm). destruct (finish_exact _ _ _ Hf Hn Hm Hmin) as [-> Hk].
    destruct (backtrack_spec (v :: trace)) as (ops & -> & H1 & H2 & H3).
    + cbn [trace_ok]. by rewrite Hl.
    + done.
    + rewrite len_cons. lia.
    + rewrite len_cons, Hl. replace (1 + d - 1) with d by lia. by replace (n - m) with k by lia.
    + exists ops. split_and!; try done. intros d' Hd'. rewrite len_cons in H3.
      destruct (Z.le_gt_cases d d'); [lia|]. by apply Hmin in Hd'.
  - destruct (partial_end _ _ Hk Hd) as [Hr' Hno]. apply IH; [done|cbn [trace_ok]; by rewrite Hl|rewrite len_cons; lia|lia|lia|].
    intros d' Hd'. destruct (Z.eq_dec d' d) as [->|]; [done|]. apply Hmin. lia.
Qed.

(** Any script that turns one text into the other is a way to the end. *)
Lemma script_reach ops d x y : reach d x y -> src_side ops = drop (Z.to_nat x) src -> dst_side ops = drop (Z.to_nat y) dst ->
  x <= n -> y <= m -> reach (d + edits ops) n m.
Proof.
  assert (forall (l k : list bytes) z t, 0 <= z -> t :: k = drop (Z.to_nat z) l ->
    l !! Z.to_nat z = Some t /\ k = drop (Z.to_nat (z + 1)) l /\ z < len l) as Hstep.
  { intros l k z t Hz Heq. assert (l !! Z.to_nat z = Some t) as Hl.
    { rewrite <- (Nat.add_0_r (Z.to_nat z)), <- lookup_drop, <- Heq. done. }
    split; [done|]. pose proof (lookup_lt_Some _ _ _ Hl). split; [|unfold len; lia].
    rewrite (drop_S l t _ Hl) in Heq. injection Heq as ->. by replace (Z.to_nat (z + 1)) with (S (Z.to_nat z)) by lia. }
  assert (forall (l : list bytes) z, 0 <= z -> z <= len l -> [] = drop (Z.to_nat z) l -> z = len l) as Hend.
  { intros l z Hz Hle Heq. apply (f_equal length) in Heq. rewrite length_drop in Heq. cbn in Heq. unfold len in *. lia. }
  revert d x y. induction ops as [|[kind t] ops IH]; intros d x y Hr Hs Hd Hx Hy; pose proof (reach_pos _ _ _ Hr) as (_ & Hx0 & Hy0);
    cbn [src_side dst_side op_kind op_text] in *.
  - apply Hend in Hs, Hd; [|done..]. subst x y. by rewrite Z.add_0_r.
  - rewrite edits_cons. destruct kind; cbn [is_equal op_kind].
    + destruct (Hstep _ _ _ _ Hx0 Hs) as (H1 & H2 & H3), (Hstep _ _ _ _ Hy0 Hd) as (H4 & H5 & H6).
      rewrite Z.add_0_l. apply (IH d (x + 1) (y + 1)); [|done|done|lia|lia]. constructor; [done|]. split_and!; eauto.
    + destruct (Hstep _ _ _ _ Hy0 Hd) as (H4 & H5 & H6). rewrite Z.add_assoc.
      apply (IH (d + 1) x (y + 1)); [by constructor|done|done|lia|lia].
    + destruct (Hstep _ _ _ _ Hx0 Hs) as (H1 & H2 & H3). rewrite Z.add_assoc.
      apply (IH (d + 1) (x + 1) y); [by constructor|done|done|lia|lia].
Qed.
End myers.

Lemma len_pos {A} (l : list A) : l <> [] -> 0 < len l.
Proof. destruct l; [done|]. rewrite len_cons. pose proof (len_nonneg l). lia. Qed.

Lemma sides_insert l : src_side (map (mk_editOp opInsert) l) = [] /\ dst_side (map (mk_editOp opInsert) l) = l
  /\ edits (map (mk_editOp opInsert) l) = len l.
Proof.
  induction l as [|t l (IH1 & IH2 & IH3)]; [done|]. cbn [map src_side dst_side op_kind op_text].
  rewrite edits_cons, IH3, len_cons, IH2. cbn [is_equal op_kind]. done.
Qed.
Lemma sides_delete l : src_side (map (mk_editOp opDelete) l) = l /\ dst_side (map (mk_editOp opDelete) l) = []
  /\ edits (map (mk_editOp opDelete) l) = len l.
Proof.
  induction l as [|t l (IH1 & IH2 & IH3)]; [done|]. cbn [map src_side dst_side op_kind op_text].
  rewrite edits_cons, IH3, len_cons, IH1. cbn [is_equal op_kind]. done.
Qed.

(** A script makes at least the edits the lengths ask for. *)
Lemma edits_lower ops : Z.abs (len (src_side ops) - len (dst_side ops)) <= edits ops.
Proof.
  induction ops as [|[kind t] ops IH]; [done|]. cbn [src_side dst_side op_kind op_text]. rewrite edits_cons.
  destruct kind; cbn [is_equal op_kind]; rewrite ?len_cons; lia.
Qed.

(** [myers] answers, with a script that turns [src] into [dst] and has no more
    edits than any other such script. *)
Lemma myers_spec src dst : exists ops, myers src dst = Ok ops /\ src_side ops = src /\ dst_side ops = dst
  /\ forall ops', src_side ops' = src -> dst_side ops' = dst -> edits ops <= edits ops'.
Proof.
  unfold myers. destruct (len src =? 0) eqn:E1; zbool.
  { apply len_zero in E1. subst src. destruct (sides_insert dst) as (H1 & H2 & H3). eexists. split_and!; try done.
    intros ops' Hs Hd. pose proof (edits_lower ops') as Hl. rewrite Hs, Hd, len_nil in Hl. pose proof (len_nonneg dst). lia. }
  destruct (len dst =? 0) eqn:E2; zbool.
  { apply len_zero in E2. subst dst. destruct (sides_delete src) as (H1 & H2 & H3). eexists. split_and!; try done.
    intros ops' Hs Hd. pose proof (edits_lower ops') as Hl. rewrite Hs, Hd, len_nil in Hl. pose proof (len_nonneg src). lia. }
  pose proof (len_nonneg src). pose proof (len_nonneg dst).
  set (v0 := replicate (Z.to_nat (2 * (len src + len dst) + 1)) 0).
  assert (len v0 = 2 * (len src + len dst) + 1) as Hlen by (unfold v0, len in *; rewrite length_replicate; lia).
  rewrite store_at_ok by lia. cbn [obind].
  destruct (d_loop_spec src dst (S (Z.to_nat (len src + len dst))) 0 (<[Z.to_nat (1 + (len src + len dst)) := 0]> v0) [])
    as (ops & -> & H1 & H2 & H3); [|done|done|lia|lia| |].
  - constructor; [unfold len in *; rewrite length_insert; lia| |lia]. intros _.
    rewrite list_lookup_insert_eq; [done|]. unfold len in *. lia.
  - intros d' Hd' Hr%reach_pos. lia.
  - exists ops. split_and!; try done. intros ops' Hs Hd. apply H3. rewrite <- (Z.add_0_l (edits ops')).
    apply (script_reach src dst ops' 0 0 0); [constructor|by rewrite Hs|by rewrite Hd|lia|lia].
Qed.
