(* ===== verification/DiffHunks.v ===== *)
(** * Hunks: applying them to the old text gives the new one

    [patch] replays hunks by their headers.  The change ranges cover every
    edit, merging keeps them apart by more than twice the context, so the
    windows of the hunks are disjoint and what lies between them is common. *)

From stdpp Require Import sorting.
From S2P Require Import Prelude GoStd GoText Diff DiffCorrect.

(** ** Applying hunks *)

(** [src] and the output are at lines [sp] and [dp], counted from 1. *)
Fixpoint patch (sp dp : Z) (src : list bytes) (hs : list hunk) : option (list bytes) :=
  match hs with
  | [] => Some src
  | h :: hs' =>
      let skip := srcStart h - sp in
      let old := take (Z.to_nat (srcCount h)) (drop (Z.to_nat skip) src) in
      if (0 <=? skip) && (skip <=? len src) && (dstStart h =? dp + skip) && (dstCount h =? len (dst_side (h_ops h)))
         && (srcCount h =? len (src_side (h_ops h))) && bool_decide (old = src_side (h_ops h))
      then
        match patch (srcStart h + srcCount h) (dstStart h + dstCount h) (drop (Z.to_nat (skip + srcCount h)) src) hs' with
        | Some rest => Some (take (Z.to_nat skip) src ++ dst_side (h_ops h) ++ rest)
        | None => None
        end
      else None
  end.

(** ** Sides of a part of a script *)
Lemma src_side_app a b : src_side (a ++ b) = src_side a ++ src_side b.
Proof. induction a as [|[[] t] a IH]; [done|..]; cbn [app src_side op_kind op_text]; by rewrite IH. Qed.
Lemma dst_side_app a b : dst_side (a ++ b) = dst_side a ++ dst_side b.
Proof. induction a as [|[[] t] a IH]; [done|..]; cbn [app dst_side op_kind op_text]; by rewrite IH. Qed.

Lemma sides_equal ops : forallb is_equal ops = true -> src_side ops = dst_side ops.
Proof.
  induction ops as [|[[] t] ops IH]; [done|..]; cbn [forallb is_equal op_kind andb src_side dst_side op_text]; intros H; [|done..].
  by rewrite IH.
Qed.

Lemma count_loop_spec ops s d : count_loop ops s d = (s + len (src_side ops), d + len (dst_side ops)).
Proof.
  revert s d. induction ops as [|[[] t] ops IH]; intros s d; cbn [count_loop src_side dst_side op_kind op_text];
    [by rewrite !len_nil, !Z.add_0_r|..]; rewrite IH, ?len_cons; f_equal; lia.
Qed.

Lemma positions_lookup ops s d i : (i < length ops)%nat ->
  positions s d ops !! i = Some (s + len (src_side (take i ops)), d + len (dst_side (take i ops))).
Proof.
  revert s d i. induction ops as [|[kind t] ops IH]; intros s d i Hi; [cbn in Hi; lia|].
  destruct i as [|i]; [cbn; by rewrite !Z.add_0_r|]. cbn [length] in Hi. cbn [positions op_kind lookup list_lookup take].
  destruct kind; (etransitivity; [apply IH; lia|]); cbn [src_side dst_side op_kind op_text]; rewrite ?len_cons; do 2 f_equal; lia.
Qed.

(** ** Windows of a script *)

(** The windows follow one another from [p] on, and all edits lie in them. *)
Fixpoint windows (ops : list editOp) (p : Z) (ws : list (Z * Z)) : Prop :=
  match ws with
  | [] => forallb is_equal (drop (Z.to_nat p) ops) = true
  | (a, b) :: ws' => p <= a <= b /\ b <= len ops /\ forallb is_equal (sub p a ops) = true /\ windows ops b ws'
  end.

(** The hunk of a window. *)
Definition window_hunk (ops : list editOp) (w : Z * Z) : hunk :=
  let '(a, b) := w in
  mk_hunk (len (src_side (take (Z.to_nat a) ops)) + 1) (len (src_side (sub a b ops)))
          (len (dst_side (take (Z.to_nat a) ops)) + 1) (len (dst_side (sub a b ops))) (sub a b ops).

Lemma take_sub {A} (l : list A) a b : 0 <= a <= b -> take (Z.to_nat b) l = take (Z.to_nat a) l ++ sub a b l.
Proof.
  intros H. unfold sub. rewrite <- (take_drop (Z.to_nat a) l) at 1. rewrite take_app.
  rewrite take_take, length_take. replace (Nat.min (Z.to_nat b) (Z.to_nat a)) with (Z.to_nat a) by lia. f_equal.
  destruct (Nat.le_gt_cases (Z.to_nat a) (length l)); [f_equal; lia|]. rewrite drop_ge by lia. by rewrite !take_nil.
Qed.

Lemma drop_sub {A} (l : list A) a b : 0 <= a <= b -> drop (Z.to_nat a) l = sub a b l ++ drop (Z.to_nat b) l.
Proof.
  intros H. unfold sub. replace (drop (Z.to_nat b) l) with (drop (Z.to_nat (b - a)) (drop (Z.to_nat a) l)) by (rewrite drop_drop; f_equal; lia).
  by rewrite take_drop.
Qed.

Lemma patch_windows ops p ws : 0 <= p <= len ops -> windows ops p ws ->
  patch (len (src_side (take (Z.to_nat p) ops)) + 1) (len (dst_side (take (Z.to_nat p) ops)) + 1)
    (src_side (drop (Z.to_nat p) ops)) (map (window_hunk ops) ws) = Some (dst_side (drop (Z.to_nat p) ops)).
Proof.
  revert p. induction ws as [|[a b] ws IH]; intros p Hp Hw; cbn [windows map patch] in *.
  { by rewrite sides_equal. }
  destruct Hw as (Hab & Hb & Heq & Hw). apply sides_equal in Heq.
  specialize (IH b ltac:(lia) Hw). cbn [window_hunk srcStart srcCount dstStart dstCount h_ops].
  rewrite (take_sub ops p a), (drop_sub ops p a), (drop_sub ops a b) by lia.
  rewrite !src_side_app, !dst_side_app, Heq, !len_app.
  set (P := len (src_side (take (Z.to_nat p) ops))). set (Q := len (dst_side (take (Z.to_nat p) ops))).
  set (C := dst_side (sub p a ops)) in *. set (S1 := src_side (sub a b ops)) in *. set (D1 := dst_side (sub a b ops)) in *.
  replace (P + len C + 1 - (P + 1)) with (len C) by lia.
  pose proof (len_nonneg C). pose proof (len_nonneg S1). pose proof (len_nonneg (src_side (drop (Z.to_nat b) ops))).
  rewrite (proj2 (Z.leb_le 0 (len C))), (proj2 (Z.leb_le (len C) _)) by lia.
  rewrite (proj2 (Z.eqb_eq (Q + len C + 1) (Q + 1 + len C))) by lia. rewrite !Z.eqb_refl. cbn [andb].
  rewrite drop_len_app, take_len_app, bool_decide_true by done.
  replace (drop (Z.to_nat (len C + len S1)) (C ++ S1 ++ src_side (drop (Z.to_nat b) ops)))
    with (src_side (drop (Z.to_nat b) ops)).
  2: { rewrite app_assoc. replace (len C + len S1) with (len (C ++ S1)) by apply len_app. by rewrite drop_len_app. }
  assert (take (Z.to_nat b) ops = take (Z.to_nat p) ops ++ sub p a ops ++ sub a b ops) as Hb'.
  { rewrite (take_sub ops a b), (take_sub ops p a) by lia. by rewrite app_assoc. }
  rewrite Hb', !src_side_app, !dst_side_app, !len_app in IH. fold C S1 D1 P Q in IH. rewrite Heq in IH.
  replace (P + len C + 1 + len S1) with (P + (len C + len S1) + 1) by lia.
  replace (Q + len C + 1 + len D1) with (Q + (len C + len D1) + 1) by lia. rewrite IH.
  by rewrite take_len_app.
Qed.

(** ** Change ranges *)

(** Ranges in [0, hi), each [gap] or more after the one before. *)
Definition apart (gap : Z) (a b : changeRange) : Prop := cr_end a + gap <= cr_start b.
Record ranges (gap hi : Z) (l : list changeRange) : Prop := {
  ranges_valid : Forall (fun c => 0 <= cr_start c < cr_end c /\ cr_end c <= hi) l;
  ranges_apart : StronglySorted (apart gap) l;
}.

(** The ranges hold every edit before index [i]. *)
Definition holds (ops : list editOp) (i : Z) (l : list changeRange) : Prop :=
  forall j op, 0 <= j < i -> ops !! Z.to_nat j = Some op -> is_equal op = false ->
    Exists (fun c => cr_start c <= j < cr_end c) l.

Lemma ranges_snoc gap hi l c : ranges gap hi (l ++ [c]) <->
  ranges gap hi l /\ 0 <= cr_start c < cr_end c /\ cr_end c <= hi /\ Forall (fun a => apart gap a c) l.
Proof.
  split.
  - intros [Hv Hs]. apply Forall_app in Hv as [Hv Hc]. inversion Hc as [|? ? Hc' _]; subst.
    apply StronglySorted_app in Hs as (Hx & Hs & _). split_and!; [by constructor|lia|lia|lia|].
    apply Forall_forall. intros a Ha. apply Hx; [done|by apply list_elem_of_singleton].
  - intros ([Hv Hs] & Hc1 & Hc2 & Ha). constructor.
    + apply Forall_app. split; [done|]. by apply Forall_singleton.
    + apply StronglySorted_app. split_and!; [|done|by constructor; constructor].
      intros a b Hin ->%list_elem_of_singleton. rewrite Forall_forall in Ha. by apply Ha.
Qed.

Lemma ranges_weaken gap hi hi' l : hi <= hi' -> ranges gap hi l -> ranges gap hi' l.
Proof. intros Hle [Hv Hs]. constructor; [|done]. eapply Forall_impl; [exact Hv|]. cbn. intros c. lia. Qed.

Lemma holds_snoc ops i l op : ops !! Z.to_nat i = Some op -> 0 <= i -> holds ops i l ->
  (is_equal op = false -> Exists (fun c => cr_start c <= i < cr_end c) l) -> holds ops (i + 1) l.
Proof.
  intros Ho Hi Hh Hn j op' Hj Hop He. destruct (Z.eq_dec j i) as [->|]; [|by apply (Hh j op'); [lia|..]].
  rewrite Ho in Hop. injection Hop as <-. by apply Hn.
Qed.

Lemma holds_grow ops i l l' c c' : holds ops i (l ++ [c] ++ l') -> cr_start c' <= cr_start c -> cr_end c <= cr_end c' ->
  holds ops i (l ++ [c'] ++ l').
Proof.
  intros Hh Hs He j op Hj Ho Hne. specialize (Hh j op Hj Ho Hne). rewrite !Exists_app, !Exists_cons in *.
  destruct Hh as [H|[[H|H]|H]]; [by left|right; left; left; lia|by apply Exists_nil in H|by right; right].
Qed.

Lemma find_loop_spec done_ ops changes : ranges 1 (len done_) (rev changes) -> holds (done_ ++ ops) (len done_) (rev changes) ->
  ranges 1 (len (done_ ++ ops)) (rev (find_loop (len done_) ops changes))
  /\ holds (done_ ++ ops) (len (done_ ++ ops)) (rev (find_loop (len done_) ops changes)).
Proof.
  revert done_ changes. induction ops as [|op ops IH]; intros dn changes Hr Hh; cbn [find_loop]; [by rewrite app_nil_r in *|].
  pose proof (len_nonneg dn) as Hl0. set (i := len dn) in *.
  assert (Hop : (dn ++ op :: ops) !! Z.to_nat i = Some op) by (unfold i, len; rewrite Nat2Z.id; by apply list_lookup_middle).
  specialize (IH (dn ++ [op])). rewrite len_app, len_cons, len_nil, <- app_assoc in IH. cbn [app] in IH. fold i in IH.
  replace (i + (1 + 0)) with (i + 1) in IH by lia.
  destruct (is_equal op) eqn:E.
  { apply IH; [by eapply ranges_weaken; [|exact Hr]; lia|]. eapply holds_snoc; [exact Hop|done|done|]. by rewrite E. }
  destruct changes as [|last r].
  { apply IH; cbn [rev app].
    - apply (ranges_snoc 1 (i + 1) []). split_and!; cbn; try lia; [by constructor; constructor|constructor].
    - eapply holds_snoc; [exact Hop|done| |intros _; constructor; cbn; lia].
      intros j o Hj Ho Hn. apply (Hh j o Hj Ho) in Hn. by apply Exists_nil in Hn. }
  cbn [rev] in Hr, Hh. pose proof Hr as Hr0. apply ranges_snoc in Hr as (Hr1 & Hs & He & Ha).
  rewrite Z.gtb_ltb. destruct (cr_end last <? i) eqn:El; zbool; apply IH; cbn [rev].
  - apply ranges_snoc. split_and!; cbn; try lia; [by eapply ranges_weaken; [|exact Hr0]; lia|].
    apply Forall_app. split; [|apply Forall_singleton; unfold apart; cbn; lia].
    eapply Forall_impl; [exact Ha|]. unfold apart. cbn. intros a. lia.
  - eapply holds_snoc; [exact Hop|done| |intros _; apply Exists_app; right; constructor; cbn; lia].
    intros j o Hj Ho Hn. apply Exists_app. left. by apply (Hh j o).
  - apply ranges_snoc. split_and!; cbn; try lia; [by eapply ranges_weaken; [|exact Hr1]; lia|]. exact Ha.
  - eapply holds_snoc; [exact Hop|done| |intros _; apply Exists_app; right; constructor; cbn; lia].
    apply (holds_grow _ _ (rev r) [] last); [done|cbn; lia|cbn; lia].
Qed.

Lemma findChanges_spec ops : ranges 1 (len ops) (findChanges ops) /\ holds ops (len ops) (findChanges ops).
Proof.
  apply (find_loop_spec [] ops []); [by constructor; constructor|]. 
  intros j op Hj.
  unfold len in Hj. cbn in Hj. lia.
Qed.

Lemma findChanges_nil ops : findChanges ops = [] -> forallb is_equal ops = true.
Proof.
  intros H. destruct (findChanges_spec ops) as [_ Hh]. rewrite H in Hh. apply forallb_forall. intros op Hop.
  apply list_elem_of_In, list_elem_of_lookup in Hop as [i Hi]. destruct (is_equal op) eqn:E; [done|exfalso].
  pose proof (lookup_lt_Some _ _ _ Hi). apply (Exists_nil (fun c => cr_start c <= Z.of_nat i < cr_end c)), (Hh _ op); [unfold len; lia| |done].
  by rewrite Nat2Z.id.
Qed.

Lemma findChanges_equal ops : forallb is_equal ops = true -> findChanges ops = [].
Proof.
  intros H. unfold findChanges. assert (forall i, find_loop i ops [] = []) as ->; [|done].
  induction ops as [|op ops IH]; intros i; [done|]. cbn [forallb find_loop] in *. apply andb_true_iff in H as [-> H]. by apply IH.
Qed.

Lemma merge_loop_spec c hi ops prev before changes : 0 <= c < 2 ^ 62 -> ranges 1 hi (prev :: changes) ->
  ranges (2 * c + 1) hi (rev (prev :: before)) -> holds ops hi (rev (prev :: before) ++ changes) ->
  ranges (2 * c + 1) hi (merge_loop c prev before changes) /\ holds ops hi (merge_loop c prev before changes)
  /\ merge_loop c prev before changes <> [].
Proof.
  intros Hc. revert prev before. induction changes as [|x changes IH]; intros prev before H1 Hr Hh; cbn [merge_loop].
  { rewrite app_nil_r in Hh. split_and!; [done|done|]. cbn [rev]. intros Hn. by apply app_nil in Hn as [_ ?]. }
  rewrite i64_small by lia. destruct H1 as [Hv Hs]. inversion Hv as [|? ? Hvp Hv']; subst. inversion Hv' as [|? ? Hvx Hv'']; subst.
  inversion Hs as [|? ? Hs' Hf]; subst. inversion Hf as [|? ? Hpx Hf']; subst. inversion Hs' as [|? ? Hs'' Hfx]; subst. unfold apart in Hpx.
  cbn [rev] in Hr, Hh. pose proof Hr as Hr0. apply ranges_snoc in Hr as (Hr1 & Hp1 & Hp2 & Ha).
  destruct (cr_start x - cr_end prev <=? 2 * c) eqn:E; zbool; apply IH.
  - constructor; [constructor; [cbn; lia|done]|]. constructor; [done|]. exact Hfx.
  - cbn [rev]. apply ranges_snoc. split_and!; cbn; try lia; done.
  - cbn [rev]. rewrite <- app_assoc in *. intros j op Hj Ho Hn. specialize (Hh j op Hj Ho Hn).
    cbn [app] in *. rewrite !Exists_app, !Exists_cons in *. cbn. destruct Hh as [H|[H|[H|H]]]; [by left|right; left; lia..|by right; right].
  - by constructor.
  - cbn [rev]. apply ranges_snoc. split_and!; try lia; [exact Hr0|]. apply Forall_app.
    split; [|apply Forall_singleton; unfold apart; lia]. eapply Forall_impl; [exact Ha|]. unfold apart. cbn. intros a. lia.
  - cbn [rev] in *. by rewrite <- app_assoc.
Qed.

(** ** The windows of the hunks *)
Definition window (c : Z) (ops : list editOp) (cr : changeRange) : Z * Z :=
  (Z.max 0 (cr_start cr - c), Z.min (cr_end cr + c) (len ops)).

Lemma build_hunk_spec c ops cr : 0 <= c < 2 ^ 62 -> len ops < 2 ^ 62 -> 0 <= cr_start cr < cr_end cr -> cr_end cr <= len ops ->
  build_hunk ops (positions 0 0 ops) c cr = Ok (window_hunk ops (window c ops cr)).
Proof.
  intros Hc Hl Hs He. unfold build_hunk, window, window_hunk. rewrite !i64_small by lia.
  set (a := if cr_start cr - c <? 0 then 0 else cr_start cr - c).
  assert (a = Z.max 0 (cr_start cr - c)) as -> by (unfold a; destruct (Z.ltb_spec (cr_start cr - c) 0); lia).
  set (b := if cr_end cr + c >? len ops then len ops else cr_end cr + c).
  assert (b = Z.min (cr_end cr + c) (len ops)) as -> by (unfold b; rewrite Z.gtb_ltb; destruct (Z.ltb_spec (len ops) (cr_end cr + c)); lia).
  set (a := Z.max 0 (cr_start cr - c)). set (b := Z.min (cr_end cr + c) (len ops)).
  assert (0 <= a < len ops /\ a <= b <= len ops) as [Ha Hb] by lia.
  rewrite (elem_at_ok (E:=Empty_set) (positions 0 0 ops) a _ ltac:(lia) (positions_lookup ops 0 0 (Z.to_nat a) ltac:(unfold len in *; lia))).
  cbn [obind]. unfold slice_of. rewrite (proj2 (Z.ltb_ge a 0)), (proj2 (Z.ltb_ge b a)), (proj2 (Z.ltb_ge (len ops) b)) by lia.
  cbn [orb obind]. rewrite count_loop_spec. by rewrite !Z.add_0_l.
Qed.

Lemma hunk_loop_spec c ops l : 0 <= c < 2 ^ 62 -> len ops < 2 ^ 62 ->
  Forall (fun cr => 0 <= cr_start cr < cr_end cr /\ cr_end cr <= len ops) l ->
  hunk_loop ops (positions 0 0 ops) c l = Ok (map (window_hunk ops) (map (window c ops) l)).
Proof.
  intros Hc Hl. induction 1 as [|cr l [Hs He] _ IH]; [done|]. cbn [hunk_loop map].
  rewrite build_hunk_spec by done. cbn [obind]. by rewrite IH.
Qed.

Lemma forallb_sub ops p a : 0 <= p -> (forall j op, p <= j < a -> ops !! Z.to_nat j = Some op -> is_equal op = true) ->
  forallb is_equal (sub p a ops) = true.
Proof.
  intros Hp H. apply forallb_forall. intros op Hop. apply list_elem_of_In, list_elem_of_lookup in Hop as [i Hi].
  unfold sub in Hi. apply lookup_take_Some in Hi as [Hi Hlt]. rewrite lookup_drop in Hi.
  apply (H (p + Z.of_nat i)); [lia|]. by replace (Z.to_nat (p + Z.of_nat i)) with (Z.to_nat p + i)%nat by lia.
Qed.

Lemma forallb_drop ops p : 0 <= p -> (forall j op, p <= j -> ops !! Z.to_nat j = Some op -> is_equal op = true) ->
  forallb is_equal (drop (Z.to_nat p) ops) = true.
Proof.
  intros Hp H. apply forallb_forall. intros op Hop. apply list_elem_of_In, list_elem_of_lookup in Hop as [i Hi].
  rewrite lookup_drop in Hi. apply (H (p + Z.of_nat i)); [lia|]. by replace (Z.to_nat (p + Z.of_nat i)) with (Z.to_nat p + i)%nat by lia.
Qed.

Lemma windows_of_ranges c ops l p : 0 <= c -> 0 <= p -> ranges (2 * c + 1) (len ops) l ->
  Forall (fun cr => p <= Z.max 0 (cr_start cr - c)) l ->
  (forall j op, p <= j -> ops !! Z.to_nat j = Some op -> is_equal op = false -> Exists (fun cr => cr_start cr <= j < cr_end cr) l) ->
  windows ops p (map (window c ops) l).
Proof.
  intros Hc. revert p. induction l as [|cr l IH]; intros p Hp [Hv Hs] Hpl Hh; cbn [map windows].
  - apply forallb_drop; [done|]. intros j op Hj Ho. destruct (is_equal op) eqn:E; [done|].
    specialize (Hh j op Hj Ho E). by apply Exists_nil in Hh.
  - inversion Hv as [|? ? [Hv1 Hv2] Hv']; subst. apply StronglySorted_cons in Hs as [Hf Hs].
    inversion Hpl as [|? ? Hp1 Hpl']; subst. cbn [window]. rewrite Forall_forall in Hf. split_and!; [lia|lia|lia| |].
    + apply forallb_sub; [done|]. intros j op Hj Ho. destruct (is_equal op) eqn:E; [done|exfalso].
      specialize (Hh j op ltac:(lia) Ho E). apply Exists_exists in Hh as (x & [->|Hx]%elem_of_cons & Hr); [lia|].
      specialize (Hf _ Hx). unfold apart in Hf. lia.
    + apply IH; [lia|by constructor| |].
      * apply Forall_forall. intros x Hx. specialize (Hf _ Hx). unfold apart in Hf. lia.
      * intros j op Hj Ho E. specialize (Hh j op ltac:(lia) Ho E). apply Exists_cons in Hh as [Hr|Hr]; [lia|done].
Qed.

Lemma len_sides ops : len ops <= len (src_side ops) + len (dst_side ops).
Proof.
  induction ops as [|[[] t] ops IH]; [done|..]; cbn [src_side dst_side op_kind op_text]; rewrite ?len_cons in *; lia.
Qed.

(** Hunks of any script patch its old side into its new one. *)
Lemma buildHunks_spec c ops : 0 <= c < 2 ^ 62 -> len ops < 2 ^ 62 ->
  exists hs, buildHunks ops c = Ok hs /\ patch 1 1 (src_side ops) hs = Some (dst_side ops)
    /\ (hs = [] <-> forallb is_equal ops = true).
Proof.
  intros Hc Hl. destruct (findChanges_spec ops) as [Hr Hh]. pose proof (findChanges_nil ops) as Hnil. unfold buildHunks.
  destruct (findChanges ops) as [|cr changes] eqn:E.
  { exists []. specialize (Hnil eq_refl). split_and!; [done| |done]. cbn [patch]. by rewrite (sides_equal _ Hnil). }
  cbn [mergeAdjacentChanges].
  destruct (merge_loop_spec c (len ops) ops cr [] changes) as (Hr' & Hh' & Hne); [done|done| |done|].
  { pose proof (ranges_valid _ _ _ Hr) as Hv. inversion Hv; subst. constructor; [by apply Forall_singleton|by constructor; constructor]. }
  set (l := merge_loop c cr [] changes) in *. rewrite hunk_loop_spec by (try done; apply Hr'). eexists. split; [reflexivity|]. split.
  - pose proof (patch_windows ops 0 (map (window c ops) l)) as Hp.
    change (take (Z.to_nat 0) ops) with (@nil editOp) in Hp. change (drop (Z.to_nat 0) ops) with ops in Hp.
    cbn [src_side dst_side] in Hp. change (len (@nil bytes) + 1) with 1 in Hp. apply Hp; [pose proof (len_nonneg ops); lia|].
    apply windows_of_ranges; [lia|lia|done| |].
    + apply Forall_forall. intros x _. lia.
    + intros j op Hj Ho He. apply (Hh' j op); [|done..]. apply lookup_lt_Some in Ho. unfold len. lia.
  - split.
    + intros H. apply map_eq_nil, map_eq_nil in H. done.
    + intros H. apply findChanges_equal in H. congruence.
Qed.

Lemma equal_script src : src_side (map (mk_editOp opEqual) src) = src /\ dst_side (map (mk_editOp opEqual) src) = src
  /\ edits (map (mk_editOp opEqual) src) = 0.
Proof.
  induction src as [|t src (H1 & H2 & H3)]; [done|]. cbn [map src_side dst_side op_kind op_text].
  rewrite edits_cons, H1, H2, H3. done.
Qed.

Lemma edits_zero ops : edits ops <= 0 -> forallb is_equal ops = true.
Proof.
  induction ops as [|op ops IH]; [done|]. rewrite edits_cons. cbn [forallb]. pose proof (len_nonneg (List.filter (fun op => negb (is_equal op)) ops)).
  fold (edits ops) in *. destruct (is_equal op); intros Hle; [apply IH; lia|lia].
Qed.

(** C7: [myers] always answers: no slice access is out of range, its panics
    are unreachable, and the script it returns turns [src] into [dst] with the
    least number of inserted and deleted lines. *)
Theorem myers_minimal src dst :
  exists ops, myers src dst = Ok ops /\ src_side ops = src /\ dst_side ops = dst
  /\ forall ops', src_side ops' = src -> dst_side ops' = dst -> edits ops <= edits ops'.
Proof. apply myers_spec. Qed.

(** C11: the hunks of a diff are a patch: replaying them by their headers, with
    the old lines compared, turns [src] into [dst] for any number of context
    lines below 2^62, and there are none exactly when the lines are equal. *)
Theorem hunks_patch src dst contextLines (Hc : 0 <= contextLines < 2 ^ 62) (Hl : len src + len dst < 2 ^ 62) :
  exists ops hs, myers src dst = Ok ops /\ buildHunks ops contextLines = Ok hs
    /\ patch 1 1 src hs = Some dst /\ (hs = [] <-> src = dst).
Proof.
  destruct (myers_spec src dst) as (ops & Hm & Hs & Hd & Hmin). exists ops.
  pose proof (len_sides ops) as Hlen. rewrite Hs, Hd in Hlen.
  destruct (buildHunks_spec contextLines ops Hc ltac:(lia)) as (hs & Hb & Hp & Hnil). rewrite Hs, Hd in Hp.
  exists hs. split_and!; [done..|]. rewrite Hnil. split.
  - intros He. apply sides_equal in He. congruence.
  - intros ->. apply edits_zero. destruct (equal_script dst) as (H1 & H2 & H3). rewrite <- H3. by apply Hmin.
Qed.

Lemma hunks_patch_witness : exists ops hs,
  myers [bs "a"; bs "b"; bs "c"] [bs "b"; bs "x"; bs "c"; bs "d"] = Ok ops /\ buildHunks ops 1 = Ok hs
  /\ patch 1 1 [bs "a"; bs "b"; bs "c"] hs = Some [bs "b"; bs "x"; bs "c"; bs "d"].
Proof.
  destruct (hunks_patch [bs "a"; bs "b"; bs "c"] [bs "b"; bs "x"; bs "c"; bs "d"] 1) as (ops & hs & H1 & H2 & H3 & _);
    [lia|vm_compute; reflexivity|]. by exists ops, hs.
Defined.

Definition text (l : list string) : bytes := l ≫= (fun s => bs s ++ [x0a]).

(** edges of the unified format.  A diff of texts that differ only in the
    last line feed is empty; when both texts lack it and the last line is
    common, the marker is written twice; an empty old side is numbered from
    line 1; a context of the largest int overflows and panics. *)
Theorem unified_edges :
  Unified (bs "a") (text ["a"%string]) (mk_Options 3 [] []) = Ok []
  /\ Unified (text ["a"%string] ++ bs "x") (text ["b"%string] ++ bs "x") (mk_Options 3 [] [])
     = Ok (text ["--- a"; "+++ b"; "@@ -1,2 +1,2 @@"; "-a"; "+b"; " x";
                 "\ No newline at end of file"; "\ No newline at end of file"]%string)
  /\ Unified [] (text ["b"%string]) (mk_Options 3 [] []) = Ok (text ["--- a"; "+++ b"; "@@ -1,0 +1,1 @@"; "+b"]%string)
  /\ Unified (text ["a"%string]) (text ["b"%string]) (mk_Options MaxInt64 [] []) = Panic "slice bounds out of range".
Proof. vm_compute. repeat split; reflexivity. Qed.
