(* ===== verification/MergeDiff.v ===== *)
(** * The merge's diff: src/internal/merge/utf.go, fossildiff.go, fossillcs.go

    The conversion of both inputs to UTF-8, their lines or tokens as a hash
    table, the search for common blocks and the edit triples.  The vector of
    ints the code keeps is the list of its triples: index 3i + j of the code is
    component j of triple i. *)

From S2P Require Import Prelude GoStd GoText GoCrypto.

(** Nothing here returns an error. *)
Abbreviation mresult := (outcome Empty_set).

(** ** utf.go *)
Definition utf8BOM : bytes := [xef; xbb; xbf].

(** FF FE or FE FF, not followed by two NULs; whether the bytes are reversed. *)
Definition utf16BOM (data : bytes) : option bool :=
  match data with
  | b0 :: b1 :: rest =>
      if match rest with x00 :: x00 :: _ => true | _ => false end then None
      else if Byte.eqb b0 xff && Byte.eqb b1 xfe then Some false
      else if Byte.eqb b0 xfe && Byte.eqb b1 xff then Some true
      else None
  | _ => None
  end.

Fixpoint swap_pairs (z : bytes) : bytes :=
  match z with
  | a :: b :: z' => b :: a :: swap_pairs z'
  | _ => z
  end.

(** The text up to its first U+0000. *)
Fixpoint utf16_cut (z : bytes) : bytes :=
  match z with
  | a :: b :: z' => if Byte.eqb a x00 && Byte.eqb b x00 then [] else a :: b :: utf16_cut z'
  | _ => []
  end.

Definition utf16_unit (bigEndian : bool) (a b : byte) : Z :=
  if bigEndian then Z.lor (Z.shiftl (bz a) 8) (bz b) else Z.lor (bz a) (Z.shiftl (bz b) 8).

Definition appendUTF8 (c : Z) : bytes :=
  if c <? 0x80 then [zb c]
  else if c <? 0x800 then [zb (0xc0 + Z.land (Z.shiftr c 6) 0x1f); zb (0x80 + Z.land c 0x3f)]
  else if c <? 0x10000 then
    [zb (0xe0 + Z.land (Z.shiftr c 12) 0x0f); zb (0x80 + Z.land (Z.shiftr c 6) 0x3f); zb (0x80 + Z.land c 0x3f)]
  else [zb (0xf0 + Z.land (Z.shiftr c 18) 0x07); zb (0x80 + Z.land (Z.shiftr c 12) 0x3f);
        zb (0x80 + Z.land (Z.shiftr c 6) 0x3f); zb (0x80 + Z.land c 0x3f)].

Definition is_surrogate (c : Z) : bool := (0xd800 <=? c) && (c <? 0xe000).

Definition join_surrogates (c c2 : Z) : Z :=
  Z.land c2 0x03ff + Z.shiftl (Z.land c 0x003f) 10 + Z.shiftl (Z.land c 0x03c0 + 0x0040) 10.

Fixpoint utf16_loop (bigEndian : bool) (z : bytes) : bytes :=
  match z with
  | a :: b :: z' =>
      let c := utf16_unit bigEndian a b in
      match z' with
      | a2 :: b2 :: z2 =>
          if is_surrogate c
          then appendUTF8 (join_surrogates c (utf16_unit bigEndian a2 b2)) ++ utf16_loop bigEndian z2
          else appendUTF8 c ++ utf16_loop bigEndian z'
      | _ => appendUTF8 c
      end
  | _ => []
  end.

Definition utf16LEToUTF8 (z : bytes) : bytes :=
  match utf16_cut z with
  | xfe :: xff :: z' => utf16_loop true z'
  | xff :: xfe :: z' => utf16_loop false z'
  | z' => utf16_loop false z'
  end.

Definition toUTF8NoBOM (data : bytes) : bytes :=
  if HasPrefix data utf8BOM then
    let rest := drop 3 data in
    match IndexByte rest x00 with Some nul => take nul rest | None => rest end
  else
    match utf16BOM data with
    | None => data
    | Some reverse =>
        let buf := if reverse : bool then rev (swap_pairs (rev data)) else data in
        utf16LEToUTF8 (drop 2 (buf ++ [x00; x00; x00]))
    end.

(** ** fossildiff.go: lines and tokens *)
Definition lengthMaskSz : Z := 15.
Definition lengthMask : Z := Z.shiftl 1 lengthMaskSz - 1.

Record dline := mk_dline {
  dl_z : bytes; dl_h : Z; dl_indent : Z; dl_n : Z; dl_nw : Z; dl_iNext : Z; dl_iHash : Z }.
Definition zero_dline : dline := mk_dline [] 0 0 0 0 0 0.

Record triple := mk_triple { t_copy : Z; t_del : Z; t_ins : Z }.
Definition zero_triple : triple := mk_triple 0 0 0.
Definition is_zero (t : triple) : bool := (t_copy t =? 0) && (t_del t =? 0) && (t_ins t =? 0).

Record dcontext := mk_dcontext { dc_edit : list triple; dc_from : list dline; dc_to : list dline; dc_nFrom : Z; dc_nTo : Z }.

Definition isDiffSpace (c : byte) : bool :=
  match c with x08 | x09 | x0a | x0c | x0d | x20 => true | _ => false end.

(** [tokenClass]: control bytes and space, the digits but '9' with the letters
    and everything from 0x80, and the rest. *)
Definition tokenClass (c : byte) : Z :=
  let v := bz c in
  if v <=? 32 then 2
  else if ((48 <=? v) && (v <=? 56)) || ((65 <=? v) && (v <=? 90)) || ((97 <=? v) && (v <=? 122)) || (128 <=? v) then 1
  else 3.

Fixpoint hash_words (count : nat) (h : Z) (z : bytes) : Z :=
  match count with
  | O => h
  | S k => hash_words k (u64 (Z.lxor h (le_value (take 8 z)) * 9000000000000000041)) (drop 8 z)
  end.

Definition lineHash (z : bytes) : Z :=
  let k := len z in
  let words := (length z / 8)%nat in
  let h := hash_words words 0 z in
  let m := le_value (drop (8 * words) z) in
  u64 (Z.lor (Z.shiftl (Z.lxor h m mod 281474976710597) lengthMaskSz) k).

(** Line [i]'s text and hash, and its place at the head of its bucket. *)
Definition enter_line (lines : list dline) (n i : Z) (z : bytes) (h : Z) : mresult (list dline) :=
  let bucket := h mod n in
  let? b := elem_at lines bucket in
  let? l := elem_at lines i in
  let? lines := store_at lines i (mk_dline z h (dl_indent l) (len z mod 2 ^ 16) (dl_nw l) (dl_iHash b) (dl_iHash l)) in
  let? b := elem_at lines bucket in
  store_at lines bucket (mk_dline (dl_z b) (dl_h b) (dl_indent b) (dl_n b) (dl_nw b) (dl_iNext b) ((i + 1) mod 2 ^ 32)).

(** The loop of [breakIntoLines], with the text from [start] on; [None] is
    binary. *)
Fixpoint lines_loop (count : nat) (n i : Z) (rest : bytes) (lines : list dline) : mresult (option (list dline)) :=
  match count with
  | O => Ok (Some lines)
  | S k =>
      let '(z, rest) := match IndexByte rest x0a with
                        | Some nl => (take nl rest, drop (S nl) rest)
                        | None => (rest, [])
                        end in
      if len z >? lengthMask then Ok None
      else let? lines := enter_line lines n i z (lineHash z) in lines_loop k n (i + 1) rest lines
  end.

(** [bytes.Count(z, "\n")], and one more for an unterminated last line. *)
Definition lineCount (z : bytes) : Z :=
  len (List.filter (Byte.eqb x0a) z)
  + match rev z with c :: _ => if Byte.eqb c x0a then 0 else 1 | [] => 0 end.

Definition breakIntoLines (z : bytes) : mresult (option (list dline * Z)) :=
  if bool_decide (is_Some (IndexByte z x00)) then Ok None
  else
    let n := lineCount z in
    let? r := lines_loop (Z.to_nat n) n 0 z (replicate (Z.to_nat (n + 1)) zero_dline) in
    Ok (match r with Some lines => Some (lines, n) | None => None end).

(** The runs of one character class. *)
Fixpoint count_tokens (prev : Z) (z : bytes) : Z :=
  match z with
  | [] => 0
  | c :: z' => if tokenClass c =? prev then count_tokens prev z' else 1 + count_tokens (tokenClass c) z'
  end.

Fixpoint token_run (class : Z) (h : Z) (tok z : bytes) : Z * bytes * bytes :=
  match z with
  | c :: z' => if tokenClass c =? class
               then token_run class (u64 (Z.lxor h (bz c) * 0x100000001b3)) (tok ++ [c]) z'
               else (h, tok, z)
  | [] => (h, tok, [])
  end.

(** The loop of [breakIntoTokens], with the text from [start] on. *)
Fixpoint tokens_loop (fuel : nat) (n i : Z) (z : bytes) (tokens : list dline) : mresult (list dline) :=
  match z with
  | [] => Ok tokens
  | c :: z' =>
      match fuel with
      | O => Diverge
      | S f =>
          let '(h, tok, rest) := token_run (tokenClass c) 0xcbf29ce484222325 [c] z' in
          let? tokens := enter_line tokens n i tok (u64 (Z.lor (Z.shiftl (h mod 281474976710597) lengthMaskSz) (len tok))) in
          tokens_loop f n (i + 1) rest tokens
      end
  end.

Definition breakIntoTokens (z : bytes) : mresult (list dline * Z) :=
  let n := count_tokens 0 z in
  let? tokens := tokens_loop (length z) n 0 z (replicate (Z.to_nat (n + 1)) zero_dline) in
  Ok (tokens, n).

Definition differ (a b : dline) : mresult bool :=
  if negb (dl_h a =? dl_h b) then Ok true
  else
    let m := Z.land (dl_h a) lengthMask in
    let? za := slice_of (dl_z a) 0 m in
    let? zb := slice_of (dl_z b) 0 m in
    Ok (negb (bytes_eqb za zb)).
