(* ===== verification/MergeTable.v ===== *)
(** * The merge's diff: the table of lines

    The invariant of the vector that is both the lines and their hash table,
    what [differ] compares, and that the lines of a text are entered. *)

From S2P Require Import Prelude GoStd GoText GoCrypto MergeDiff.

(** ** Checked accesses *)
Lemma yields_elem {A} (l : list A) i (Q : A -> Prop) :
  0 <= i < len l -> (forall x, l !! Z.to_nat i = Some x -> Q x) -> yields (E := Empty_set) (elem_at l i) Q.
Proof. intros Hi HQ. destruct (elem_at_some (E := Empty_set) l i Hi) as (x & Hx & ->). by apply HQ. Qed.

Lemma yields_store {A} (l : list A) i x (Q : list A -> Prop) :
  0 <= i < len l -> Q (<[Z.to_nat i := x]> l) -> yields (E := Empty_set) (store_at l i x) Q.
Proof. intros Hi HQ. by rewrite store_at_ok. Qed.

(** ** The invariant *)

(** What [differ] compares. *)
Definition dkey (a : dline) : Z * bytes := (dl_h a, take (Z.to_nat (Z.land (dl_h a) lengthMask)) (dl_z a)).

Record line_ok (a : dline) : Prop := {
  lo_mask : 0 <= Z.land (dl_h a) lengthMask <= len (dl_z a);
  lo_indent : 0 <= dl_indent a; lo_nw : 0 <= dl_nw a;
  lo_trim : dl_indent a + dl_nw a <= len (dl_z a);
  lo_n : 0 <= dl_n a <= len (dl_z a) }.

(** Chain entries are one more than an index, and a chain goes down. *)
Record table (lines : list dline) (n : Z) : Prop := {
  tb_len : len lines = n + 1;
  tb_line : forall k a, lines !! k = Some a -> line_ok a;
  tb_hash : forall k a, lines !! k = Some a -> 0 <= dl_iHash a <= n;
  tb_next : forall k a, lines !! k = Some a -> 0 <= dl_iNext a <= Z.of_nat k }.

Lemma differ_ok a b : line_ok a -> line_ok b ->
  exists d, differ a b = Ok d /\ (d = false <-> dkey a = dkey b).
Proof.
  intros Ha Hb. unfold differ, dkey. destruct (Z.eqb_spec (dl_h a) (dl_h b)) as [E|E]; simpl.
  - pose proof (lo_mask _ Ha) as Ma. pose proof (lo_mask _ Hb) as Mb. rewrite E in *.
    rewrite !slice_of_ok by lia. simpl. eexists. split; [done|]. unfold sub. rewrite !drop_0, !Z.sub_0_r.
    rewrite negb_false_iff, bytes_eqb_eq. split; congruence.
  - eexists. split; [done|]. split; [done|congruence].
Qed.

(** ** Lines *)

(** The lines of a text, without their newlines. *)
Fixpoint lines_of (z : bytes) : list bytes :=
  match z with
  | [] => []
  | c :: z' => if Byte.eqb c x0a then [] :: lines_of z'
               else match lines_of z' with [] => [[c]] | l :: ls => (c :: l) :: ls end
  end.

(** The same text from its lines, when it ends with a newline. *)
Definition unlines (ls : list bytes) : bytes := concat (map (fun l => l ++ [x0a]) ls).

Definition terminated (z : bytes) : bool := match rev z with c :: _ => Byte.eqb c x0a | [] => true end.

Lemma terminated_cons c z : z <> [] -> terminated (c :: z) = terminated z.
Proof.
  intros Hz. unfold terminated. simpl. destruct (rev z) as [|d r] eqn:E; [|done].
  apply (f_equal (@rev byte)) in E. rewrite rev_involutive in E. done.
Qed.

Lemma lines_of_nil z : lines_of z = [] -> z = [].
Proof. destruct z as [|c z]; [done|]. simpl. repeat case_match; done. Qed.

Lemma unlines_lines_of z : terminated z = true -> unlines (lines_of z) = z.
Proof.
  induction z as [|c z IH]; [done|]. intros Ht. destruct (decide (z = [])) as [->|Hz].
  { unfold terminated in Ht. simpl in Ht. simpl. rewrite Ht. apply byte_eqb_eq in Ht. by subst. }
  rewrite terminated_cons in Ht by done. specialize (IH Ht). simpl.
  destruct (Byte.eqb c x0a) eqn:E.
  - apply byte_eqb_eq in E. subst. unfold unlines in *. simpl. by rewrite IH.
  - destruct (lines_of z) as [|l ls] eqn:El; [by apply lines_of_nil in El|].
    unfold unlines in *. simpl in *. by rewrite IH.
Qed.

Lemma lines_of_count z : len (lines_of z) = lineCount z.
Proof.
  unfold lineCount. induction z as [|c z IH]; [done|]. destruct (decide (z = [])) as [->|Hz].
  { simpl. by destruct (Byte.eqb c x0a) eqn:E, c. }
  assert (Hr : match rev (c :: z) with d :: _ => if Byte.eqb d x0a then 0 else 1 | [] => 0 end
             = match rev z with d :: _ => if Byte.eqb d x0a then 0 else 1 | [] => 0 end).
  { simpl. destruct (rev z) eqn:E; [|done]. apply (f_equal (@rev byte)) in E. by rewrite rev_involutive in E. }
  rewrite Hr. simpl. destruct (Byte.eqb c x0a) eqn:E.
  - apply byte_eqb_eq in E. subst c. rewrite byte_eqb_refl, !len_cons, IH. lia.
  - assert (Byte.eqb x0a c = false) as -> by (apply byte_eqb_neq; apply byte_eqb_neq in E; congruence).
    destruct (lines_of z) as [|l ls] eqn:El; [by apply lines_of_nil in El|].
    rewrite <- IH. by rewrite !len_cons.
Qed.

(** One line off the front, as the loop takes it. *)
Definition line_split (z : bytes) : bytes * bytes :=
  match IndexByte z x0a with Some nl => (take nl z, drop (S nl) z) | None => (z, []) end.

Lemma lines_of_split z : z <> [] -> lines_of z = fst (line_split z) :: lines_of (snd (line_split z)).
Proof.
  unfold line_split. induction z as [|c z IH]; [done|]. intros _. simpl.
  destruct (Byte.eqb c x0a) eqn:E; [done|]. destruct (decide (z = [])) as [->|Hz]; [done|].
  rewrite IH by done. by destruct (IndexByte z x0a).
Qed.

(** ** Entering the lines *)

(** A table being filled: nothing measured yet. *)
Record filling (n i : Z) (lines : list dline) : Prop := {
  fl_table : table lines n;
  fl_next : forall k a, lines !! k = Some a -> 0 <= dl_iHash a <= i;
  fl_fresh : forall k a, lines !! k = Some a -> dl_indent a = 0 /\ dl_nw a = 0 }.

Lemma line_ok_hash a h : line_ok a -> line_ok (mk_dline (dl_z a) (dl_h a) (dl_indent a) (dl_n a) (dl_nw a) (dl_iNext a) h).
Proof. intros []. by split. Qed.

(** What is recorded of a line. *)
Definition entry_ok (z : bytes) (h : Z) : Prop := 0 <= Z.land h lengthMask <= len z.

Lemma fresh_line_ok z h p q : entry_ok z h -> line_ok (mk_dline z h 0 (len z mod 2 ^ 16) 0 p q).
Proof.
  intros. pose proof (len_nonneg z). split; simpl; try lia; [done|].
  split; [apply Z.mod_pos_bound; lia|apply Z.mod_le; lia].
Qed.

Lemma enter_line_ok lines n i z h : filling n i lines -> 0 <= i < n -> entry_ok z h ->
  yields (enter_line lines n i z h) (fun lines' =>
    filling n (i + 1) lines' /\
    (forall k a', lines' !! k = Some a' -> exists a, lines !! k = Some a /\
       (dl_z a', dl_h a', dl_n a') = (if decide (k = Z.to_nat i) then (z, h, len z mod 2 ^ 16) else (dl_z a, dl_h a, dl_n a)))).
Proof.
  intros [Ht Hn Hf] Hi Hh. pose proof (tb_len _ _ Ht) as Hlen.
  pose proof (Z.mod_pos_bound h n ltac:(lia)) as Hb. unfold enter_line.
  apply yields_bind, yields_elem; [lia|]. intros b Hb0.
  apply yields_bind, yields_elem; [lia|]. intros l Hl.
  apply yields_bind, yields_store; [lia|]. set (lines1 := <[_:=_]> lines).
  assert (Hlen1 : len lines1 = n + 1) by (unfold lines1, len; rewrite length_insert; exact Hlen).
  apply yields_bind, yields_elem; [lia|]. intros b1 Hb1.
  apply yields_store; [lia|].
  assert (H1 : forall k a1, lines1 !! k = Some a1 ->
    line_ok a1 /\ (0 <= dl_iHash a1 <= i) /\ (0 <= dl_iNext a1 <= Z.of_nat k) /\ (dl_indent a1 = 0 /\ dl_nw a1 = 0) /\
    exists a, lines !! k = Some a /\
      (dl_z a1, dl_h a1, dl_n a1) = (if decide (k = Z.to_nat i) then (z, h, len z mod 2 ^ 16) else (dl_z a, dl_h a, dl_n a))).
  { intros k a1 Ha1. destruct (Hf _ _ Hl) as [Fi Fw]. unfold lines1 in Ha1.
    apply list_lookup_insert_Some in Ha1 as [(<- & <- & _)|(Hne & Ha1)].
    - pose proof (Hn _ _ Hb0). pose proof (Hn _ _ Hl). simpl. rewrite Fi, Fw.
      split; [by apply fresh_line_ok|]. split_and!; try lia. exists l. by rewrite decide_True.
    - split; [by eapply tb_line|]. split; [by eapply Hn|].
      split; [by eapply tb_next|]. split; [by eapply Hf|]. exists a1. by rewrite decide_False. }
  assert (H2 : forall k a2,
    <[Z.to_nat (h mod n):=mk_dline (dl_z b1) (dl_h b1) (dl_indent b1) (dl_n b1) (dl_nw b1) (dl_iNext b1) ((i + 1) mod 2 ^ 32)]> lines1 !! k = Some a2 ->
    line_ok a2 /\ (0 <= dl_iHash a2 <= i + 1) /\ (0 <= dl_iNext a2 <= Z.of_nat k) /\ (dl_indent a2 = 0 /\ dl_nw a2 = 0) /\
    exists a, lines !! k = Some a /\
      (dl_z a2, dl_h a2, dl_n a2) = (if decide (k = Z.to_nat i) then (z, h, len z mod 2 ^ 16) else (dl_z a, dl_h a, dl_n a))).
  { intros k a2 [(<- & <- & _)|(Hne & Ha2)]%list_lookup_insert_Some.
    - destruct (H1 _ _ Hb1) as (A & B & C & D & F). simpl. split; [by apply line_ok_hash|]. split; [|done].
      split; [apply Z.mod_pos_bound; lia|apply Z.mod_le; lia].
    - destruct (H1 _ _ Ha2) as (A & B & C & D & F). split_and!; try done; lia. }
  split; [split; [split|..]|].
  - unfold len. rewrite length_insert. exact Hlen1.
  - intros k a Ha. apply (H2 k a Ha).
  - intros k a Ha. destruct (H2 k a Ha) as (_ & ? & _). lia.
  - intros k a Ha. apply (H2 k a Ha).
  - intros k a Ha. apply (H2 k a Ha).
  - intros k a Ha. apply (H2 k a Ha).
  - intros k a Ha. apply (H2 k a Ha).
Qed.

(** The first entries, as they were recorded with the hash [H]. *)
Definition recorded (H : bytes -> Z) (zs : list bytes) (lines : list dline) : Prop :=
  forall k z, zs !! k = Some z -> exists a, lines !! k = Some a /\ dl_z a = z /\ dl_h a = H z /\ dl_n a = len z mod 2 ^ 16.

Lemma recorded_enter H zs lines n i z :
  filling n i lines -> 0 <= i < n -> len zs = i -> recorded H zs lines -> entry_ok z (H z) ->
  yields (enter_line lines n i z (H z)) (fun lines' => filling n (i + 1) lines' /\ recorded H (zs ++ [z]) lines').
Proof.
  intros Hf Hi Hzs Hrec He. eapply yields_mono; [by apply enter_line_ok|]. intros lines' [Hf' Hk]. split; [done|].
  assert (Hlen : length lines' = length lines).
  { pose proof (tb_len _ _ (fl_table _ _ _ Hf)) as L1. pose proof (tb_len _ _ (fl_table _ _ _ Hf')) as L2. unfold len in *. lia. }
  intros k y [Hy|[Hle Hy]]%lookup_app_Some.
  - destruct (Hrec _ _ Hy) as (a & Ha & Hz & Hh & Hn).
    destruct (lookup_lt_is_Some_2 lines' k) as [a' Ha']; [apply lookup_lt_Some in Ha; lia|].
    exists a'. split; [done|]. destruct (Hk _ _ Ha') as (a0 & Ha0 & E). simplify_eq.
    apply lookup_lt_Some in Hy. rewrite decide_False in E by (unfold len in *; lia).
    injection E as -> -> ->. done.
  - apply list_lookup_singleton_Some in Hy as [Hk0 <-].
    assert (k = length zs) as -> by lia. pose proof (tb_len _ _ (fl_table _ _ _ Hf')) as L.
    destruct (lookup_lt_is_Some_2 lines' (length zs)) as [a' Ha']; [unfold len in *; lia|].
    exists a'. split; [done|]. destruct (Hk _ _ Ha') as (a0 & Ha0 & E).
    rewrite decide_True in E by (unfold len in *; lia). injection E as -> -> ->. done.
Qed.

Lemma recorded_filling H zs lines n i : filling n i lines -> recorded H zs lines -> table lines n /\ recorded H zs lines.
Proof. intros [] ?. done. Qed.

Lemma zero_filling n : 0 <= n -> filling n 0 (replicate (Z.to_nat (n + 1)) zero_dline).
Proof.
  intros Hn. split; [split|..].
  - unfold len. rewrite length_replicate. lia.
  - intros k a [-> _]%lookup_replicate. split; done.
  - intros k a [-> _]%lookup_replicate. simpl. lia.
  - intros k a [-> _]%lookup_replicate. simpl. lia.
  - intros k a [-> _]%lookup_replicate. simpl. lia.
  - by intros k a [-> _]%lookup_replicate.
Qed.

(** The low bits of a hash are the length. *)
Lemma low_bits x k : 0 <= k <= lengthMask -> Z.land (u64 (Z.lor (Z.shiftl x lengthMaskSz) k)) lengthMask = k.
Proof.
  intros Hk. change lengthMask with (Z.ones 15) in *. rewrite Z.land_ones by lia. unfold u64.
  rewrite Z.mod_mod_divide by by exists (2 ^ 49).
  rewrite <- Z.land_ones, Z.land_lor_distr_l by lia.
  rewrite (Z.land_ones (Z.shiftl _ _)), Z.shiftl_mul_pow2, Z.mod_mul by (unfold lengthMaskSz; lia).
  rewrite Z.lor_0_l, Z.land_ones by lia. apply Z.mod_small. change (Z.ones 15) with 32767 in Hk. lia.
Qed.

Definition is_text (z : bytes) : bool :=
  negb (bool_decide (is_Some (IndexByte z x00))) && forallb (fun l => len l <=? lengthMask) (lines_of z).

Lemma lines_loop_ok n rest zs lines :
  filling n (len zs) lines -> n = len zs + len (lines_of rest) -> recorded lineHash zs lines ->
  yields (lines_loop (length (lines_of rest)) n (len zs) rest lines) (fun r =>
    match r with
    | None => forallb (fun l => len l <=? lengthMask) (lines_of rest) = false
    | Some lines' => forallb (fun l => len l <=? lengthMask) (lines_of rest) = true /\ table lines' n /\ recorded lineHash (zs ++ lines_of rest) lines'
    end).
Proof.
  remember (lines_of rest) as ls eqn:Els. revert rest Els zs lines.
  induction ls as [|l ls IH]; intros rest Els zs lines Hf Hn Hrec.
  { simpl. rewrite app_nil_r. split; [done|]. by eapply recorded_filling. }
  assert (Hne : rest <> []) by by intros ->.
  rewrite (lines_of_split _ Hne) in Els. injection Els as -> ->. simpl. unfold line_split in *.
  set (p := match IndexByte rest x0a with Some nl => (take nl rest, drop (S nl) rest) | None => (rest, []) end) in *.
  destruct p as [z rest'] eqn:Ep. simpl in *. rewrite len_cons in Hn. pose proof (len_nonneg (lines_of rest')).
  rewrite Z.gtb_ltb, Z.leb_antisym. destruct (Z.ltb_spec lengthMask (len z)) as [Hlong|Hshort]; [done|].
  apply yields_bind. eapply yields_mono.
  { apply (recorded_enter lineHash zs); [done|pose proof (len_nonneg zs); lia|done|done|].
    unfold entry_ok, lineHash. pose proof (len_nonneg z). rewrite low_bits; lia. }
  intros lines' [Hf' Hrec']. replace (len zs + 1) with (len (zs ++ [z])) in * by (rewrite len_app, len_cons, len_nil; lia).
  eapply yields_mono; [apply (IH rest' eq_refl (zs ++ [z])); [done|rewrite len_app, len_cons, len_nil; lia|done]|].
  intros [lines''|]; [|done]. by rewrite <- app_assoc.
Qed.

Lemma breakIntoLines_ok z : yields (breakIntoLines z) (fun r =>
  match r with
  | None => is_text z = false
  | Some (lines, n) => is_text z = true /\ n = len (lines_of z) /\ table lines n /\ recorded lineHash (lines_of z) lines
  end).
Proof.
  unfold breakIntoLines, is_text. case_bool_decide as Hnul; [done|]. rewrite <- lines_of_count. simpl.
  apply yields_bind. eapply yields_mono.
  { replace (Z.to_nat (len (lines_of z))) with (length (lines_of z)) by (unfold len; lia).
    apply (lines_loop_ok (len (lines_of z)) z []); [apply zero_filling, len_nonneg|done|done]. }
  intros [lines|]; simpl; [|done]. intros (? & ? & ?). done.
Qed.
