(* ===== verification/MergeLcs.v ===== *)
(** * The merge's diff: common blocks and edit triples

    fossillcs.go (the search for a common block of two ranges) and the rest of
    fossildiff.go (the stack of ranges, the triples, sliding, [textDiff]). *)

From S2P Require Import Prelude GoStd GoText GoCrypto MergeDiff MergeTable.

(** ** fossillcs.go *)
Record lcsMatch := mk_lcsMatch { iSX : Z; iEX : Z; iSY : Z; iEY : Z }.

Definition set_from (c : dcontext) (from : list dline) : dcontext :=
  mk_dcontext (dc_edit c) from (dc_to c) (dc_nFrom c) (dc_nTo c).
Definition set_edit (c : dcontext) (edit : list triple) : dcontext :=
  mk_dcontext edit (dc_from c) (dc_to c) (dc_nFrom c) (dc_nTo c).

(** [differ(&c.from[i], &c.to[j])]. *)
Definition differ_at (c : dcontext) (i j : Z) : mresult bool :=
  let? a := elem_at (dc_from c) i in
  let? b := elem_at (dc_to c) j in
  differ a b.

(** The walk of [chainMatch], from entry [j] of the chain. *)
Fixpoint chain_loop (fuel : nat) (c : dcontext) (i iS2 iE2 cutoff limit j : Z) : mresult (Z * bool) :=
  match fuel with
  | O => Diverge
  | S f =>
      let? skip :=
        if j >? 0 then
          if (j - 1 <? iS2) || (j >=? iE2) then Ok true else differ_at c i (j - 1)
        else Ok false in
      if skip : bool then
        if limit >? cutoff then Ok (0, true)
        else let? t := elem_at (dc_to c) (j - 1) in chain_loop f c i iS2 iE2 cutoff (limit + 1) (dl_iNext t)
      else Ok (j, false)
  end.

Definition chainMatch (c : dcontext) (i iS2 iE2 cutoff : Z) : mresult (Z * bool) :=
  let? a := elem_at (dc_from c) i in
  if dc_nTo c =? 0 then Panic "integer divide by zero"
  else
    let? t := elem_at (dc_to c) (dl_h a mod dc_nTo c) in
    chain_loop (S (length (dc_to c))) c i iS2 iE2 cutoff 0 (dl_iHash t).

(** The two loops of [growMatch], and those of [diffAll]: how many further
    lines are equal, of at most [n], stepping by [dir]. *)
Fixpoint equal_run (n : nat) (c : dcontext) (i j dir : Z) : mresult Z :=
  match n with
  | O => Ok 0
  | S n' =>
      let? d := differ_at c i j in
      if d : bool then Ok 0 else let? k := equal_run n' c (i + dir) (j + dir) dir in Ok (1 + k)
  end.

Definition growMatch (c : dcontext) (i j iS1 iE1 iS2 iE2 : Z) : mresult lcsMatch :=
  let? k := equal_run (Z.to_nat (Z.min (i - iS1) (j - iS2))) c (i - 1) (j - 1) (-1) in
  let? k' := equal_run (Z.to_nat (Z.min (iE1 - (i + 1)) (iE2 - (j + 1)))) c (i + 1) (j + 1) 1 in
  Ok (mk_lcsMatch (i - k) (i + 1 + k') (j - k) (j + 1 + k')).

(** The loop of [lcsPass] over [count] lines from [i]. *)
Fixpoint pass_loop (count : nat) (c : dcontext) (i iS1 iE1 iS2 iE2 cutoff bestScore nextCutoff : Z) (best prev : lcsMatch)
  : mresult (lcsMatch * Z) :=
  match count with
  | O => Ok (best, nextCutoff)
  | S k =>
      let? (j, exceeded) := chainMatch c i iS2 iE2 cutoff in
      let nextCutoff := if exceeded : bool then cutoff * 4 else nextCutoff in
      let next := pass_loop k c (i + 1) iS1 iE1 iS2 iE2 cutoff in
      if j =? 0 then next bestScore nextCutoff best prev
      else if (i <? iEX best) && (j >=? iSY best) && (j <? iEY best) then next bestScore nextCutoff best prev
      else if (i <? iEX prev) && (j >=? iSY prev) && (j <? iEY prev) then next bestScore nextCutoff best prev
      else
        let? m := growMatch c i (j - 1) iS1 iE1 iS2 iE2 in
        let span := (iE1 - iS1) + (iE2 - iS2) in
        let skew := Z.abs ((iSX m - iS1) - (iSY m - iS2)) in
        let dist := Z.abs ((iSX m + iEX m) / 2 - (iE1 + iS1) / 2) in
        let score := i64 (i64 ((iEX m - iSX m) * span) - (skew + dist)) in
        if score >? bestScore then next score nextCutoff m prev
        else if iEX m >? iEX prev then next bestScore nextCutoff best m
        else next bestScore nextCutoff best prev
  end.

Definition lcsPass (c : dcontext) (iS1 iE1 iS2 iE2 cutoff : Z) : mresult (lcsMatch * Z) :=
  let best := mk_lcsMatch iS1 iS1 iS2 iS2 in
  pass_loop (Z.to_nat (iE1 - iS1)) c iS1 iS1 iE1 iS2 iE2 cutoff (-9223300000 * 1000000000) 0 best best.

(** The inner loop of [optimalLCS] over [j]: the bound shrinks as [mxLength]
    grows. *)
Fixpoint optimal_inner (fuel : nat) (c : dcontext) (i j iE1 iE2 iSXb iSYb mxLength : Z) : mresult (Z * Z * Z) :=
  match fuel with
  | O => Diverge
  | S f =>
      if negb (j <? iE2 - mxLength) then Ok (iSXb, iSYb, mxLength)
      else
        let? d := differ_at c i j in
        if d : bool then optimal_inner f c i (j + 1) iE1 iE2 iSXb iSYb mxLength
        else
          let? d2 := if mxLength >? 0 then differ_at c (i + mxLength) (j + mxLength) else Ok false in
          if d2 : bool then optimal_inner f c i (j + 1) iE1 iE2 iSXb iSYb mxLength
          else
            let? k := equal_run (Z.to_nat (Z.min (iE1 - (i + 1)) (iE2 - (j + 1)))) c (i + 1) (j + 1) 1 in
            let k := 1 + k in
            if k >? mxLength then optimal_inner f c i (j + 1) iE1 iE2 i j k
            else optimal_inner f c i (j + 1) iE1 iE2 iSXb iSYb mxLength
  end.

Fixpoint optimal_outer (fuel : nat) (c : dcontext) (i iE1 iS2 iE2 iSXb iSYb mxLength : Z) : mresult (Z * Z * Z) :=
  match fuel with
  | O => Diverge
  | S f =>
      if negb (i <? iE1 - mxLength) then Ok (iSXb, iSYb, mxLength)
      else
        let? (iSXb, iSYb, mxLength) := optimal_inner (S (Z.to_nat (iE2 - iS2))) c i iS2 iE1 iE2 iSXb iSYb mxLength in
        optimal_outer f c (i + 1) iE1 iS2 iE2 iSXb iSYb mxLength
  end.

Definition optimalLCS (c : dcontext) (iS1 iE1 iS2 iE2 : Z) : mresult lcsMatch :=
  let? (iSXb, iSYb, mxLength) := optimal_outer (S (Z.to_nat (iE1 - iS1))) c iS1 iE1 iS2 iE2 iS1 iS2 0 in
  Ok (mk_lcsMatch iSXb (iSXb + mxLength) iSYb (iSYb + mxLength)).

(** The passes: at most three, with cutoffs 4, 16 and 64. *)
Fixpoint passes (fuel : nat) (c : dcontext) (iS1 iE1 iS2 iE2 cutoff : Z) : mresult lcsMatch :=
  match fuel with
  | O => Diverge
  | S f =>
      let? (best, nextCutoff) := lcsPass c iS1 iE1 iS2 iE2 cutoff in
      if negb (iSX best =? iEX best) || (nextCutoff =? 0) then Ok best
      else if nextCutoff >? 64 then Ok best else passes f c iS1 iE1 iS2 iE2 nextCutoff
  end.

Definition longestCommonSequence (c : dcontext) (iS1 iE1 iS2 iE2 : Z) : mresult lcsMatch :=
  let? best := passes 4 c iS1 iE1 iS2 iE2 4 in
  if (iSX best =? iEX best) && (i64 ((iE1 - iS1) * (iE2 - iS2)) <? 2500)
  then optimalLCS c iS1 iE1 iS2 iE2
  else Ok best.

(** [computeIndent]: a line's indent and trimmed length, the first time. *)
Fixpoint space_run (z : bytes) : Z :=
  match z with
  | c :: z' => if isDiffSpace c then 1 + space_run z' else 0
  | [] => 0
  end.

Definition computeIndent (a : dline) : dline :=
  if negb (dl_nw a =? 0) || (dl_n a =? 0) then a
  else
    let ii := space_run (take (Z.to_nat (dl_n a)) (dl_z a)) in
    let tail := sub (ii + 1) (dl_n a) (dl_z a) in
    let jj := dl_n a - 1 - space_run (rev tail) in
    mk_dline (dl_z a) (dl_h a) (ii mod 2 ^ 16) (dl_n a) ((jj - ii + 1) mod 2 ^ 16) (dl_iNext a) (dl_iHash a).

Definition indent_at (from : list dline) (i : Z) : mresult (list dline) :=
  let? a := elem_at from i in store_at from i (computeIndent a).

(** Counting the lines of the block that hold two bytes beside white space. *)
Fixpoint block_loop (count : nat) (i n : Z) (from : list dline) : mresult (Z * list dline) :=
  match count with
  | O => Ok (n, from)
  | S k =>
      let? from := indent_at from i in
      let? a := elem_at from i in
      block_loop k (i + 1) (if dl_nw a >? 1 then n + 1 else n) from
  end.

(** The second loop, over the lines around the block. *)
Fixpoint around_loop (fuel : nat) (i iSX iEX iE1 : Z) (from : list dline) : mresult (list dline) :=
  match fuel with
  | O => Diverge
  | S f =>
      if negb (i <? iE1) then Ok from
      else
        let i := if i =? iSX then iEX else i in
        if i >=? iE1 then Ok from
        else let? from := indent_at from i in around_loop f (i + 1) iSX iEX iE1 from
  end.

Definition trimmed (a : dline) : mresult bytes := slice_of (dl_z a) (dl_indent a) (dl_indent a + dl_nw a).

Fixpoint twin_loop (count : nat) (from : list dline) (nw : Z) (z : bytes) (j : Z) : mresult bool :=
  match count with
  | O => Ok false
  | S k =>
      let? b := elem_at from j in
      if dl_nw b =? nw then
        let? zb := trimmed b in
        if bytes_eqb zb z then Ok true else twin_loop k from nw z (j + 1)
      else twin_loop k from nw z (j + 1)
  end.

Definition hasTrimmedTwin (from : list dline) (i lo hi : Z) : mresult bool :=
  let? a := elem_at from i in
  let? z := trimmed a in
  twin_loop (Z.to_nat (hi - lo)) from (dl_nw a) z lo.

(** The last loop: where it stops. *)
Fixpoint artifact_loop (count : nat) (from : list dline) (i iS1 iSX iEX iE1 : Z) : mresult bool :=
  match count with
  | O => Ok false
  | S k =>
      let? a := elem_at from i in
      let next := artifact_loop k from (i + 1) iS1 iSX iEX iE1 in
      if dl_nw a <=? 1 then next
      else
        let? before := hasTrimmedTwin from i iS1 iSX in
        if before : bool then next
        else
          let? after := hasTrimmedTwin from i iEX iE1 in
          if after : bool then next else Ok true
  end.

Definition likelyNotIndentChngArtifact (c : dcontext) (iS1 iSX iEX iE1 : Z) : mresult (bool * dcontext) :=
  if (iEX - iSX) * 7 >=? iE1 - iS1 then Ok (true, c)
  else
    let? (n, from) := block_loop (Z.to_nat (iEX - iSX)) iSX 0 (dc_from c) in
    if n =? 0 then Ok (false, set_from c from)
    else
      let? from := around_loop (S (Z.to_nat (iE1 - iS1))) iS1 iSX iEX iE1 from in
      let? b := artifact_loop (Z.to_nat (iEX - iSX)) from iSX iS1 iSX iEX iE1 in
      Ok (b, set_from c from).

(** * The merge's diff: the common block

    The search answers with a block of equal lines inside both ranges, for any
    table that satisfies its invariant, and the test for indentation changes
    only fills in measures of lines. *)

Section Lcs.
Context (KF KT : list (Z * bytes)) (nF nT : Z).

(** The context holds tables of the keys [KF] and [KT]. *)
Record ctx_rep (c : dcontext) : Prop := {
  cr_from : table (dc_from c) nF; cr_to : table (dc_to c) nT;
  cr_kf : map dkey (dc_from c) = KF; cr_kt : map dkey (dc_to c) = KT;
  cr_nf : dc_nFrom c = nF; cr_nt : dc_nTo c = nT }.

Definition same (i j : Z) : Prop := KF !! Z.to_nat i = KT !! Z.to_nat j.

Lemma key_lookup (l : list dline) K i a : map dkey l = K -> l !! i = Some a -> K !! i = Some (dkey a).
Proof. intros <- H. by rewrite list_lookup_fmap, H. Qed.

Lemma differ_at_ok c i j : ctx_rep c -> 0 <= i <= nF -> 0 <= j <= nT ->
  yields (differ_at c i j) (fun d => d = false <-> same i j).
Proof.
  intros [Ff Ft Kf Kt Nf Nt] Hi Hj. unfold differ_at.
  apply yields_bind, yields_elem; [rewrite (tb_len _ _ Ff); lia|]. intros a Ha.
  apply yields_bind, yields_elem; [rewrite (tb_len _ _ Ft); lia|]. intros b Hb.
  destruct (differ_ok a b) as (d & -> & Hd); [exact (tb_line _ _ Ff _ _ Ha)|exact (tb_line _ _ Ft _ _ Hb)|]. simpl.
  unfold same. rewrite (key_lookup _ _ _ _ Kf Ha), (key_lookup _ _ _ _ Kt Hb). rewrite Hd. split; congruence.
Qed.

(** ** Runs of equal lines *)
Lemma equal_run_ok n c i j dir : ctx_rep c ->
  (forall m, 0 <= m < Z.of_nat n -> 0 <= i + dir * m <= nF /\ 0 <= j + dir * m <= nT) ->
  yields (equal_run n c i j dir) (fun k =>
    0 <= k <= Z.of_nat n /\ (forall m, 0 <= m < k -> same (i + dir * m) (j + dir * m)) /\
    (k < Z.of_nat n -> ~ same (i + dir * k) (j + dir * k))).
Proof.
  intros Hc. revert i j. induction n as [|n IH]; intros i j Hr.
  { simpl. split; [lia|]. split; intros; lia. }
  cbn [equal_run]. apply yields_bind. eapply yields_mono.
  { destruct (Hr 0 ltac:(lia)) as [H1 H2]. rewrite Z.mul_0_r, !Z.add_0_r in H1, H2. by apply differ_at_ok. }
  intros [|] Hd; simpl.
  { split; [lia|]. split; [intros; lia|]. rewrite Z.mul_0_r, !Z.add_0_r. intros _ Hs. by apply Hd in Hs. }
  apply yields_bind. eapply yields_mono.
  { apply (IH (i + dir) (j + dir)). intros m Hm. specialize (Hr (m + 1) ltac:(lia)).
    replace (dir * (m + 1)) with (dir + dir * m) in Hr by lia. rewrite !Z.add_assoc in Hr. exact Hr. }
  intros k (Hk & Hs & Hstop). simpl. split; [lia|]. split.
  - intros m Hm. destruct (Z.eq_dec m 0) as [->|Hm0]; [rewrite Z.mul_0_r, !Z.add_0_r; by apply Hd|].
    specialize (Hs (m - 1) ltac:(lia)).
    by replace (i + dir * m) with (i + dir + dir * (m - 1)) by lia; replace (j + dir * m) with (j + dir + dir * (m - 1)) by lia.
  - intros Hlt. replace (i + dir * (1 + k)) with (i + dir + dir * k) by lia.
    replace (j + dir * (1 + k)) with (j + dir + dir * k) by lia. apply Hstop. lia.
Qed.

(** ** The hash chain *)
Lemma chain_loop_ok fuel c i iS2 iE2 cutoff limit j :
  ctx_rep c -> 0 <= i < nF -> 0 <= iS2 -> iE2 <= nT -> 0 <= j <= nT -> (Z.to_nat j < fuel)%nat ->
  yields (chain_loop fuel c i iS2 iE2 cutoff limit j) (fun r =>
    fst r = 0 \/ (iS2 < fst r < iE2 /\ same i (fst r - 1))).
Proof.
  intros Hc Hi HS HE. revert limit j. induction fuel as [|f IH]; intros limit j Hj Hfuel; [lia|].
  cbn [chain_loop].
  assert (Hnext : 0 < j -> yields (if limit >? cutoff then Ok (0, true)
      else let? t := elem_at (dc_to c) (j - 1) in chain_loop f c i iS2 iE2 cutoff (limit + 1) (dl_iNext t))
      (fun r => fst r = 0 \/ (iS2 < fst r < iE2 /\ same i (fst r - 1)))).
  { intros Hj0. case_match; [by left|]. apply yields_bind, yields_elem; [rewrite (tb_len _ _ (cr_to _ Hc)); lia|].
    intros t Ht. pose proof (tb_next _ _ (cr_to _ Hc) _ _ Ht). apply IH; lia. }
  destruct (Z.gtb_spec j 0) as [Hj0|Hj0]; [|simpl; left; lia].
  destruct ((j - 1 <? iS2) || (j >=? iE2)) eqn:Eout; [by apply Hnext|].
  rewrite Z.geb_leb in Eout. zbool.
  apply yields_bind. eapply yields_mono; [apply differ_at_ok; [done|lia..]|].
  intros [|] Hd; [by apply Hnext|]. simpl. right. split; [lia|]. by apply Hd.
Qed.

Lemma chainMatch_ok c i iS2 iE2 cutoff : ctx_rep c -> 0 <= i < nF -> 0 <= iS2 < iE2 -> iE2 <= nT ->
  yields (chainMatch c i iS2 iE2 cutoff) (fun r => fst r = 0 \/ (iS2 < fst r < iE2 /\ same i (fst r - 1))).
Proof.
  intros Hc Hi HS HE. unfold chainMatch. rewrite (cr_nt _ Hc).
  apply yields_bind, yields_elem; [rewrite (tb_len _ _ (cr_from _ Hc)); lia|]. intros a Ha.
  destruct (Z.eqb_spec nT 0); [lia|]. pose proof (Z.mod_pos_bound (dl_h a) nT ltac:(lia)).
  pose proof (tb_len _ _ (cr_to _ Hc)) as Hl.
  apply yields_bind, yields_elem; [lia|]. intros t Ht. pose proof (tb_hash _ _ (cr_to _ Hc) _ _ Ht).
  apply chain_loop_ok; try done; unfold len in Hl; lia.
Qed.

(** ** Common blocks *)
Record common (iS1 iE1 iS2 iE2 : Z) (m : lcsMatch) : Prop := {
  cm_x : iS1 <= iSX m; cm_xx : iSX m <= iEX m <= iE1;
  cm_y : iS2 <= iSY m; cm_yy : iEY m <= iE2;
  cm_len : iEX m - iSX m = iEY m - iSY m;
  cm_same : forall k, 0 <= k < iEX m - iSX m -> same (iSX m + k) (iSY m + k) }.

Definition ranges (iS1 iE1 iS2 iE2 : Z) : Prop := 0 <= iS1 < iE1 /\ iE1 <= nF /\ 0 <= iS2 < iE2 /\ iE2 <= nT.

Lemma growMatch_ok c i j iS1 iE1 iS2 iE2 :
  ctx_rep c -> ranges iS1 iE1 iS2 iE2 -> iS1 <= i < iE1 -> iS2 <= j < iE2 -> same i j ->
  yields (growMatch c i j iS1 iE1 iS2 iE2) (common iS1 iE1 iS2 iE2).
Proof.
  intros Hc (R1 & R2 & R3 & R4) Hi Hj Hij. unfold growMatch.
  apply yields_bind. eapply yields_mono; [apply equal_run_ok; [done|intros; lia]|]. intros k (Hk & Hs & _).
  apply yields_bind. eapply yields_mono; [apply equal_run_ok; [done|intros; lia]|]. intros k' (Hk' & Hs' & _).
  simpl. split; simpl; try lia. intros m Hm.
  destruct (Z.lt_trichotomy m k) as [Hlt|[->|Hgt]].
  - specialize (Hs (k - 1 - m) ltac:(lia)).
    by replace (i - k + m) with (i - 1 + -1 * (k - 1 - m)) by lia; replace (j - k + m) with (j - 1 + -1 * (k - 1 - m)) by lia.
  - by rewrite !Z.sub_add.
  - specialize (Hs' (m - k - 1) ltac:(lia)).
    by replace (i - k + m) with (i + 1 + 1 * (m - k - 1)) by lia; replace (j - k + m) with (j + 1 + 1 * (m - k - 1)) by lia.
Qed.

Lemma common_empty iS1 iE1 iS2 iE2 : ranges iS1 iE1 iS2 iE2 -> common iS1 iE1 iS2 iE2 (mk_lcsMatch iS1 iS1 iS2 iS2).
Proof. intros (? & ? & ? & ?). split; simpl; try lia; intros; lia. Qed.

(** A pass, at whatever score it keeps. *)
Lemma pass_loop_ok count c iS1 iE1 iS2 iE2 cutoff : ctx_rep c -> ranges iS1 iE1 iS2 iE2 ->
  forall i score nextCutoff best prev, iS1 <= i -> i + Z.of_nat count = iE1 ->
  common iS1 iE1 iS2 iE2 best -> (nextCutoff = 0 \/ nextCutoff = cutoff * 4) ->
  yields (pass_loop count c i iS1 iE1 iS2 iE2 cutoff score nextCutoff best prev) (fun r =>
    common iS1 iE1 iS2 iE2 (fst r) /\ (snd r = 0 \/ snd r = cutoff * 4)).
Proof.
  intros Hc HR. induction count as [|n IH]; intros i score nextCutoff best prev Hi He Hb Hn; [done|].
  cbn [pass_loop]. destruct HR as (R1 & R2 & R3 & R4).
  apply yields_bind. eapply yields_mono; [apply chainMatch_ok; [done|lia..]|]. intros [j exceeded] Hj. cbn [fst] in Hj.
  assert (Hn' : (if exceeded then cutoff * 4 else nextCutoff) = 0 \/ (if exceeded then cutoff * 4 else nextCutoff) = cutoff * 4)
    by (destruct exceeded; tauto).
  set (nc := if exceeded then cutoff * 4 else nextCutoff) in *. clearbody nc.
  destruct (Z.eqb_spec j 0); [apply IH; try done; lia|].
  destruct (_ && _ && _); [apply IH; try done; lia|].
  destruct (_ && _ && _); [apply IH; try done; lia|].
  destruct Hj as [|[Hj Hs]]; [lia|].
  apply yields_bind. eapply yields_mono; [apply growMatch_ok; [done|done|lia|lia|done]|]. intros m Hm.
  cbv zeta. case_match; [apply IH; try done; lia|]. case_match; apply IH; try done; lia.
Qed.

Lemma lcsPass_ok c iS1 iE1 iS2 iE2 cutoff : ctx_rep c -> ranges iS1 iE1 iS2 iE2 ->
  yields (lcsPass c iS1 iE1 iS2 iE2 cutoff) (fun r =>
    common iS1 iE1 iS2 iE2 (fst r) /\ (snd r = 0 \/ snd r = cutoff * 4)).
Proof.
  intros Hc HR. unfold lcsPass. pose proof HR as (? & ? & _).
  apply pass_loop_ok; [done..|lia|lia|by apply common_empty|by left].
Qed.

Lemma passes_ok fuel c iS1 iE1 iS2 iE2 cutoff : ctx_rep c -> ranges iS1 iE1 iS2 iE2 ->
  0 < cutoff -> 64 < cutoff * 4 ^ Z.of_nat fuel -> (0 < fuel)%nat ->
  yields (passes fuel c iS1 iE1 iS2 iE2 cutoff) (common iS1 iE1 iS2 iE2).
Proof.
  intros Hc HR. revert cutoff. induction fuel as [|f IH]; intros cutoff Hpos Hbig Hf; [lia|].
  cbn [passes]. apply yields_bind. eapply yields_mono; [by apply lcsPass_ok|]. intros [best next] [Hb Hn]. simpl in *.
  case_match; [done|]. zbool. rewrite Z.gtb_ltb. destruct (Z.ltb_spec 64 next) as [Hgt|Hle]; [done|].
  destruct Hn as [|Hn]; [lia|]. subst next. rewrite Nat2Z.inj_succ, Z.pow_succ_r in Hbig by lia.
  destruct f as [|f]; [simpl in Hbig; lia|]. apply IH; lia.
Qed.

(** ** The exhaustive search *)

(** A block of [mx] equal lines, found so far; [mx] may still be 0. *)
Definition found (iS1 iE1 iS2 iE2 x y mx : Z) : Prop := common iS1 iE1 iS2 iE2 (mk_lcsMatch x (x + mx) y (y + mx)).

Lemma optimal_inner_ok fuel c iS1 iE1 iS2 iE2 i : ctx_rep c -> ranges iS1 iE1 iS2 iE2 -> iS1 <= i < iE1 ->
  forall j x y mx, iS2 <= j -> 0 <= mx -> i + mx <= iE1 -> found iS1 iE1 iS2 iE2 x y mx -> Z.max 0 (iE2 - j) < Z.of_nat fuel ->
  yields (optimal_inner fuel c i j iE1 iE2 x y mx) (fun '(x', y', mx') => found iS1 iE1 iS2 iE2 x' y' mx' /\ mx <= mx').
Proof.
  intros Hc (R1 & R2 & R3 & R4) Hi. induction fuel as [|f IH]; intros j x y mx Hj Hmx Hb Hf Hfuel; [lia|].
  cbn [optimal_inner]. destruct (Z.ltb_spec j (iE2 - mx)) as [Hlt|Hge]; simpl negb; cbv iota; [|done].
  apply yields_bind. eapply yields_mono; [apply differ_at_ok; [done|lia..]|]. intros d Hd.
  destruct d; [apply IH; done || lia|].
  apply yields_bind. apply (yields_mono _ (fun _ => True)).
  { destruct (mx >? 0); [|done]. eapply yields_mono; [apply differ_at_ok; [done|lia..]|done]. }
  intros d2 _. destruct d2; [apply IH; done || lia|].
  apply yields_bind. eapply yields_mono; [apply equal_run_ok; [done|intros; lia]|]. intros k (Hk & Hs & _).
  destruct (Z.gtb_spec (1 + k) mx) as [Hbig|Hsmall]; [|apply IH; done || lia].
  assert (Hf' : found iS1 iE1 iS2 iE2 i j (1 + k)).
  { split; cbn [iSX iEX iSY iEY]; try lia. intros m Hm.
    destruct (Z.eq_dec m 0) as [->|]; [rewrite !Z.add_0_r; by apply Hd|].
    specialize (Hs (m - 1) ltac:(lia)).
    by replace (i + m) with (i + 1 + 1 * (m - 1)) by lia; replace (j + m) with (j + 1 + 1 * (m - 1)) by lia. }
  eapply yields_mono; [apply IH; done || lia|]. intros [[x' y'] mx'] [? ?]. split; [done|lia].
Qed.

Lemma optimal_outer_ok fuel c iS1 iE1 iS2 iE2 : ctx_rep c -> ranges iS1 iE1 iS2 iE2 ->
  forall i x y mx, iS1 <= i -> 0 <= mx -> found iS1 iE1 iS2 iE2 x y mx -> Z.max 0 (iE1 - i) < Z.of_nat fuel ->
  yields (optimal_outer fuel c i iE1 iS2 iE2 x y mx) (fun '(x', y', mx') => found iS1 iE1 iS2 iE2 x' y' mx').
Proof.
  intros Hc HR. induction fuel as [|f IH]; intros i x y mx Hi Hmx Hf Hfuel; [lia|].
  cbn [optimal_outer]. destruct (Z.ltb_spec i (iE1 - mx)) as [Hlt|Hge]; simpl negb; cbv iota; [|done].
  apply yields_bind. eapply yields_mono.
  { apply (optimal_inner_ok _ c iS1 iE1 iS2 iE2); try done; lia. }
  intros [[x' y'] mx'] [Hf' Hle]. apply IH; try done; lia.
Qed.

Lemma longestCommonSequence_ok c iS1 iE1 iS2 iE2 : ctx_rep c -> ranges iS1 iE1 iS2 iE2 ->
  yields (longestCommonSequence c iS1 iE1 iS2 iE2) (common iS1 iE1 iS2 iE2).
Proof.
  intros Hc HR. unfold longestCommonSequence. apply yields_bind.
  eapply yields_mono; [apply passes_ok; done || lia|]. intros best Hb.
  case_match; [|done]. unfold optimalLCS. apply yields_bind. pose proof HR as (? & ? & ? & ?).
  eapply yields_mono; [apply optimal_outer_ok; [done|exact HR|lia|lia| |lia]|by intros [[x y] mx]].
  unfold found. rewrite !Z.add_0_r. by apply common_empty.
Qed.

(** ** Indentation *)
Lemma space_run_le z : 0 <= space_run z <= len z.
Proof.
  induction z as [|c z IH]; [done|]. rewrite len_cons. simpl. pose proof (len_nonneg z). destruct (isDiffSpace c); lia.
Qed.

Lemma computeIndent_ok a : line_ok a ->
  line_ok (computeIndent a) /\ dkey (computeIndent a) = dkey a /\
  dl_iHash (computeIndent a) = dl_iHash a /\ dl_iNext (computeIndent a) = dl_iNext a.
Proof.
  intros Ha. unfold computeIndent. case_match; [done|]. split; [|done].
  destruct Ha as [Hm Hi Hw Ht Hn]. set (n := dl_n a) in *. set (z := dl_z a) in *.
  pose proof (space_run_le (take (Z.to_nat n) z)) as Hii. rewrite len_take in Hii by lia.
  set (ii := space_run _) in *. pose proof (space_run_le (rev (sub (ii + 1) n z))) as Hr.
  assert (Hlen : len (rev (sub (ii + 1) n z)) = Z.max 0 (n - (ii + 1))).
  { unfold sub, len in *. rewrite length_rev, length_take, length_drop. lia. }
  set (r := space_run (rev (sub (ii + 1) n z))) in *. clearbody r ii. split; simpl; fold n z; try done; try (apply Z.mod_pos_bound; lia).
  pose proof (Z.mod_le ii (2 ^ 16)). pose proof (Z.mod_le (n - 1 - r - ii + 1) (2 ^ 16)). lia.
Qed.

Definition from_rep (from : list dline) : Prop := table from nF /\ map dkey from = KF.

Lemma indent_at_ok from i : from_rep from -> 0 <= i < nF -> yields (indent_at from i) from_rep.
Proof.
  intros [Ht Hk] Hi. pose proof (tb_len _ _ Ht) as Hl. unfold indent_at.
  apply yields_bind, yields_elem; [lia|]. intros a Ha. apply yields_store; [lia|].
  destruct (computeIndent_ok a (tb_line _ _ Ht _ _ Ha)) as (Ho & Hd & Hh & Hn). split.
  - split.
    + unfold len. by rewrite length_insert.
    + intros k b [(_ & <- & _)|(_ & Hb)]%list_lookup_insert_Some; [done|by eapply tb_line].
    + intros k b [(<- & <- & _)|(_ & Hb)]%list_lookup_insert_Some; [rewrite Hh|]; by eapply tb_hash.
    + intros k b [(<- & <- & _)|(_ & Hb)]%list_lookup_insert_Some; [rewrite Hn|]; by eapply tb_next.
  - change (map dkey) with (fmap (M := list) dkey) in *. rewrite list_fmap_insert, Hd, Hk. apply list_insert_id.
    rewrite <- Hk, list_lookup_fmap, Ha. done.
Qed.

Lemma block_loop_ok count i n from : from_rep from -> 0 <= i -> i + Z.of_nat count <= nF ->
  yields (block_loop count i n from) (fun r => from_rep (snd r)).
Proof.
  revert i n from. induction count as [|k IH]; intros i n from Hf Hi He; [done|]. cbn [block_loop].
  apply yields_bind. eapply yields_mono; [apply indent_at_ok; done || lia|]. intros from' Hf'.
  apply yields_bind, yields_elem; [rewrite (tb_len _ _ (proj1 Hf')); lia|]. intros a _. apply IH; done || lia.
Qed.

Lemma around_loop_ok fuel i iSX iEX iE1 from : from_rep from -> 0 <= i -> iSX <= iEX -> iE1 <= nF ->
  Z.max 0 (iE1 - i) < Z.of_nat fuel -> yields (around_loop fuel i iSX iEX iE1 from) from_rep.
Proof.
  revert i from. induction fuel as [|f IH]; intros i from Hf Hi Hx He Hfuel; [lia|]. cbn [around_loop].
  destruct (Z.ltb_spec i iE1) as [Hlt|]; simpl negb; cbv iota; [|done].
  set (i' := if i =? iSX then iEX else i). assert (i <= i') by (unfold i'; destruct (Z.eqb_spec i iSX); lia).
  rewrite Z.geb_leb. destruct (Z.leb_spec iE1 i'); [done|].
  apply yields_bind. eapply yields_mono; [apply indent_at_ok; done || lia|]. intros from' Hf'. apply IH; done || lia.
Qed.

Lemma trimmed_ok from i a : from_rep from -> from !! Z.to_nat i = Some a -> yields (trimmed a) (fun _ => True).
Proof.
  intros [Ht _] Ha. destruct (tb_line _ _ Ht _ _ Ha). unfold trimmed. by rewrite slice_of_ok by lia.
Qed.

Lemma hasTrimmedTwin_ok from i lo hi : from_rep from -> 0 <= i < nF -> 0 <= lo -> hi <= nF ->
  yields (hasTrimmedTwin from i lo hi) (fun _ => True).
Proof.
  intros Hf Hi Hlo Hhi. pose proof (tb_len _ _ (proj1 Hf)) as Hl. unfold hasTrimmedTwin.
  apply yields_bind, yields_elem; [lia|]. intros a Ha.
  apply yields_bind. eapply yields_mono; [by eapply trimmed_ok|]. intros z _. clear Ha.
  remember (Z.to_nat (hi - lo)) as count eqn:Ec. assert (Hc : lo + Z.of_nat count <= nF \/ count = 0%nat) by lia. clear Ec Hhi.
  revert lo Hlo Hc. induction count as [|k IH]; intros lo Hlo Hc; [done|]. destruct Hc as [Hc|]; [|done]. cbn [twin_loop].
  apply yields_bind, yields_elem; [lia|]. intros b Hb.
  case_match; [|apply IH; lia]. apply yields_bind. eapply yields_mono; [by eapply trimmed_ok|]. intros zb _.
  case_match; [done|apply IH; lia].
Qed.

Lemma artifact_loop_ok count from i iS1 iSX iEX iE1 : from_rep from -> 0 <= i -> i + Z.of_nat count <= nF ->
  0 <= iS1 -> iSX <= nF -> 0 <= iEX -> iE1 <= nF -> yields (artifact_loop count from i iS1 iSX iEX iE1) (fun _ => True).
Proof.
  intros Hf. revert i. induction count as [|k IH]; intros i Hi He H1 H2 H3 H4; [done|]. cbn [artifact_loop].
  apply yields_bind, yields_elem; [rewrite (tb_len _ _ (proj1 Hf)); lia|]. intros a _. cbv zeta.
  destruct (dl_nw a <=? 1); [apply IH; lia|].
  apply yields_bind. eapply yields_mono; [apply hasTrimmedTwin_ok; done || lia|]. intros [|] _; [apply IH; lia|].
  apply yields_bind. eapply yields_mono; [apply hasTrimmedTwin_ok; done || lia|]. intros [|] _; [apply IH; lia|done].
Qed.

(** Only measures of lines change. *)
Definition measured (c c' : dcontext) : Prop := ctx_rep c' /\ dc_edit c' = dc_edit c.

Lemma measured_from c from : ctx_rep c -> from_rep from -> measured c (set_from c from).
Proof. intros [? ? ? ? ? ?] [? ?]. split; [|done]. by split. Qed.

Lemma likelyNotIndentChngArtifact_ok c iS1 iSX iEX iE1 : ctx_rep c -> 0 <= iS1 <= iSX -> iSX <= iEX <= iE1 -> iE1 <= nF ->
  yields (likelyNotIndentChngArtifact c iS1 iSX iEX iE1) (fun r => measured c (snd r)).
Proof.
  intros Hc H1 H2 H3. unfold likelyNotIndentChngArtifact. case_match; [by split|].
  assert (Hf : from_rep (dc_from c)) by (split; apply Hc).
  apply yields_bind. eapply yields_mono; [apply block_loop_ok; done || lia|]. intros [n from] Hf1. cbn [snd] in Hf1.
  case_match; [by apply measured_from|].
  apply yields_bind. eapply yields_mono; [apply around_loop_ok; done || lia|]. intros from' Hf2.
  apply yields_bind. eapply yields_mono; [apply artifact_loop_ok; done || lia|]. intros b _. by apply measured_from.
Qed.
End Lcs.
