(* ===== verification/MergeTriples.v ===== *)
(** * The merge's diff: edit triples

    The rest of fossildiff.go: the stack of pending ranges, the folding of
    triples, the sliding of insertions and deletions, the conversion to bytes,
    and [textDiff]. *)

From S2P Require Import Prelude GoStd GoText GoCrypto MergeDiff MergeTable MergeLcs.

(** [appendTriple]; the arguments are the components of [t]. *)
Definition appendTriple (edit : list triple) (t : triple) : list triple :=
  match rev edit with
  | l :: before =>
      let with_last x := rev before ++ [x] in
      let add_both := mk_triple (t_copy l) (t_del l + t_del t) (t_ins l + t_ins t) in
      if t_ins l =? 0 then
        if t_del l =? 0 then
          with_last (mk_triple (t_copy l + t_copy t) (t_del l + t_del t) (t_ins l + t_ins t))
        else if t_copy t =? 0 then with_last add_both
        else edit ++ [t]
      else if (t_copy t =? 0) && (t_del t =? 0) then
        with_last (mk_triple (t_copy l) (t_del l) (t_ins l + t_ins t))
      else edit ++ [t]
  | [] => edit ++ [t]
  end.

Record diffTask := mk_diffTask { copyN : Z; tS1 : Z; tE1 : Z; tS2 : Z; tE2 : Z }.

(** The loop of [diffSteps]; the top of the stack is the head of the list. *)
Fixpoint step_loop (fuel : nat) (stack : list diffTask) (c : dcontext) : mresult dcontext :=
  match stack with
  | [] => Ok c
  | t :: stack =>
      match fuel with
      | O => Diverge
      | S f =>
          let emit t' := step_loop f stack (set_edit c (appendTriple (dc_edit c) t')) in
          if copyN t >? 0 then emit (mk_triple (copyN t) 0 0)
          else if tE1 t <=? tS1 t then
            if tE2 t >? tS2 t then emit (mk_triple 0 0 (tE2 t - tS2 t)) else step_loop f stack c
          else if tE2 t <=? tS2 t then emit (mk_triple 0 (tE1 t - tS1 t) 0)
          else
            let? m := longestCommonSequence c (tS1 t) (tE1 t) (tS2 t) (tE2 t) in
            let? (split, c) :=
              if iEX m >? iSX m + 5 then Ok (true, c)
              else if iEX m >? iSX m then likelyNotIndentChngArtifact c (tS1 t) (iSX m) (iEX m) (tE1 t)
              else Ok (false, c) in
            if split : bool then
              let right := mk_diffTask 0 (iEX m) (tE1 t) (iEY m) (tE2 t) in
              let left := mk_diffTask 0 (tS1 t) (iSX m) (tS2 t) (iSY m) in
              let common := if iEX m >? iSX m then [mk_diffTask (iEX m - iSX m) 0 0 0 0] else [] in
              step_loop f (left :: common ++ right :: stack) c
            else
              step_loop f stack (set_edit c (appendTriple (dc_edit c) (mk_triple 0 (tE1 t - tS1 t) (tE2 t - tS2 t))))
      end
  end.

(** A range of [n] lines is worth [2n + 1] steps. *)
Definition diffSteps (c : dcontext) (iS1 iE1 iS2 iE2 : Z) : mresult dcontext :=
  step_loop (Z.to_nat (2 * (iE1 - iS1 + (iE2 - iS2)) + 1)) [mk_diffTask 0 iS1 iE1 iS2 iE2] c.

Definition diffAll (c : dcontext) : mresult dcontext :=
  let? tail := equal_run (Z.to_nat (Z.min (dc_nFrom c) (dc_nTo c))) c (dc_nFrom c - 1) (dc_nTo c - 1) (-1) in
  let iE1 := dc_nFrom c - tail in
  let iE2 := dc_nTo c - tail in
  let? iS := equal_run (Z.to_nat (Z.min iE1 iE2)) c 0 0 1 in
  let c := if iS >? 0 then set_edit c (appendTriple (dc_edit c) (mk_triple iS 0 0)) else c in
  let? c := diffSteps c iS iE1 iS iE2 in
  let c := if iE1 <? dc_nFrom c then set_edit c (appendTriple (dc_edit c) (mk_triple (dc_nFrom c - iE1) 0 0)) else c in
  Ok (set_edit c (dc_edit c ++ [zero_triple])).

(** ** Sliding *)

(** [differ(a, b) || w.n + x.n <= y.n + z.n]: whether a loop breaks.  The
    arguments are read in this order. *)
Definition breaks (a b w x y z : mresult dline) : mresult bool :=
  let? a := a in
  let? b := b in
  let? d := differ a b in
  if d : bool then Ok true
  else let? w := w in let? x := x in let? y := y in let? z := z in Ok (dl_n w + dl_n x <=? dl_n y + dl_n z).

(** The break conditions of the four loops. *)
Definition ins_up (c : dcontext) (ins lnFrom lnTo : Z) : mresult bool :=
  let top := elem_at (dc_from c) (lnFrom - 1) in
  let btm := elem_at (dc_to c) (lnTo + ins - 1) in
  breaks top btm (elem_at (dc_from c) lnFrom) btm top (elem_at (dc_to c) (lnTo + ins - 2)).
Definition ins_down (c : dcontext) (ins lnFrom lnTo : Z) : mresult bool :=
  let top := elem_at (dc_to c) lnTo in
  let btm := elem_at (dc_to c) (lnTo + ins) in
  breaks top btm top (elem_at (dc_to c) (lnTo + ins - 1)) (elem_at (dc_to c) (lnTo + 1)) btm.
Definition del_up (c : dcontext) (del lnFrom lnTo : Z) : mresult bool :=
  let top := elem_at (dc_from c) (lnFrom - 1) in
  let btm := elem_at (dc_from c) (lnFrom + del - 1) in
  breaks top btm (elem_at (dc_from c) lnFrom) btm top (elem_at (dc_from c) (lnFrom + del - 2)).
Definition del_down (c : dcontext) (del lnFrom lnTo : Z) : mresult bool :=
  let top := elem_at (dc_from c) lnFrom in
  let btm := elem_at (dc_from c) (lnFrom + del) in
  breaks top btm top (elem_at (dc_from c) (lnFrom + del - 1)) top btm.

(** Where a triple starts its edit in both files, its copy count and that of
    the triple after it. *)
Record slide := mk_slide { s_from : Z; s_to : Z; s_copy : Z; s_next : Z }.

Fixpoint slide_up (fuel : nat) (brk : Z -> Z -> mresult bool) (s : slide) : mresult slide :=
  match fuel with
  | O => Diverge
  | S f =>
      if s_copy s >? 0 then
        let? b := brk (s_from s) (s_to s) in
        if b : bool then Ok s
        else slide_up f brk (mk_slide (s_from s - 1) (s_to s - 1) (s_copy s - 1) (s_next s + 1))
      else Ok s
  end.

Fixpoint slide_down (fuel : nat) (brk : Z -> Z -> mresult bool) (s : slide) : mresult slide :=
  match fuel with
  | O => Diverge
  | S f =>
      if s_next s >? 0 then
        let? b := brk (s_from s) (s_to s) in
        if b : bool then Ok s
        else slide_down f brk (mk_slide (s_from s + 1) (s_to s + 1) (s_copy s + 1) (s_next s - 1))
      else Ok s
  end.

(** The four loops, in their order. *)
Definition slides (c : dcontext) (del ins : Z) (s : slide) : mresult slide :=
  let up brk s := slide_up (S (Z.to_nat (s_copy s))) brk s in
  let down brk s := slide_down (S (Z.to_nat (s_next s))) brk s in
  if (del =? 0) && (ins >? 0) then let? s := up (ins_up c ins) s in down (ins_down c ins) s
  else if (del >? 0) && (ins =? 0) then let? s := up (del_up c del) s in down (del_down c del) s
  else Ok s.

(** The loop of [optimize], from triple [t]. *)
Fixpoint optimize_loop (c : dcontext) (t : triple) (rest : list triple) (lnFrom lnTo : Z) : mresult (list triple) :=
  match rest with
  | [] => Ok [t]
  | nx :: rest' =>
      let? s := slides c (t_del t) (t_ins t) (mk_slide (lnFrom + t_copy t) (lnTo + t_copy t) (t_copy t) (t_copy nx)) in
      let? tl := optimize_loop c (mk_triple (s_next s) (t_del nx) (t_ins nx)) rest' (s_from s + t_del t) (s_to s + t_ins t) in
      Ok (mk_triple (s_copy s) (t_del t) (t_ins t) :: tl)
  end.

Definition optimize (c : dcontext) : mresult dcontext :=
  match dc_edit c with
  | [] => Ok c
  | t :: rest => let? e := optimize_loop c t rest 0 0 in Ok (set_edit c e)
  end.

(** ** Tokens to bytes *)
Fixpoint sum_n (count : nat) (lines : list dline) (i sum : Z) : mresult Z :=
  match count with
  | O => Ok sum
  | S k => let? l := elem_at lines i in sum_n k lines (i + 1) (sum + dl_n l)
  end.

Fixpoint tokens_bytes (edit : list triple) (from to : list dline) (iA iB : Z) : mresult (list triple) :=
  match edit with
  | [] => Panic "index out of range"
  | t :: rest =>
      if is_zero t then Ok edit
      else
        let? cp := sum_n (Z.to_nat (t_copy t)) from iA 0 in
        let iA := iA + t_copy t in
        let iB := iB + t_copy t in
        let? dl := sum_n (Z.to_nat (t_del t)) from iA 0 in
        let? ins := sum_n (Z.to_nat (t_ins t)) to iB 0 in
        let? tl := tokens_bytes rest from to (iA + t_del t) (iB + t_ins t) in
        Ok (mk_triple cp dl ins :: tl)
  end.

Definition tokensToBytes (c : dcontext) : mresult dcontext :=
  let? e := tokens_bytes (dc_edit c) (dc_from c) (dc_to c) 0 0 in Ok (set_edit c e).

(** [textDiff]: the triples, [None] for binary input, and what both inputs are
    left as. *)
Definition textDiff (a b : bytes) (byToken : bool) : mresult (option (list triple) * bytes * bytes) :=
  let a := toUTF8NoBOM a in
  let b := toUTF8NoBOM b in
  let? tables :=
    if byToken then
      let? (from, nFrom) := breakIntoTokens a in
      let? (to, nTo) := breakIntoTokens b in
      Ok (Some (mk_dcontext [] from to nFrom nTo))
    else
      let? ra := breakIntoLines a in
      let? rb := breakIntoLines b in
      Ok (match ra, rb with
          | Some (from, nFrom), Some (to, nTo) => Some (mk_dcontext [] from to nFrom nTo)
          | _, _ => None
          end) in
  match tables with
  | None => Ok (None, a, b)
  | Some c =>
      let? c := diffAll c in
      let? c := optimize c in
      let? c := if byToken then tokensToBytes c else Ok c in
      Ok (Some (dc_edit c), a, b)
  end.

(** * The merge's diff: the triples describe the edit

    Every list of triples that [textDiff] answers with copies equal lines and
    passes over both texts to their ends, and sliding keeps it so. *)

Definition nonneg (t : triple) : Prop := 0 <= t_copy t /\ 0 <= t_del t /\ 0 <= t_ins t.

Section Valid.
Context (same : Z -> Z -> Prop).

(** From line [i] of the one text and [j] of the other to [i'] and [j'], copying
    lines that are the same. *)
Fixpoint valid (e : list triple) (i j i' j' : Z) : Prop :=
  match e with
  | [] => i = i' /\ j = j'
  | t :: e' =>
      nonneg t /\ (forall k, 0 <= k < t_copy t -> same (i + k) (j + k)) /\
      valid e' (i + t_copy t + t_del t) (j + t_copy t + t_ins t) i' j'
  end.

Lemma valid_app e1 e2 i j i' j' : valid (e1 ++ e2) i j i' j' <-> exists x y, valid e1 i j x y /\ valid e2 x y i' j'.
Proof.
  revert i j. induction e1 as [|t e1 IH]; intros i j; simpl.
  - split; [by exists i, j|]. by intros (x & y & [-> ->] & H).
  - rewrite IH. naive_solver.
Qed.

Lemma valid_singleton t i j i' j' : valid [t] i j i' j' <->
  nonneg t /\ (forall k, 0 <= k < t_copy t -> same (i + k) (j + k)) /\ i + t_copy t + t_del t = i' /\ j + t_copy t + t_ins t = j'.
Proof. done. Qed.

Lemma valid_le e i j i' j' : valid e i j i' j' -> i <= i' /\ j <= j'.
Proof.
  revert i j. induction e as [|t e IH]; intros i j; simpl; [lia|]. intros ((? & ? & ?) & _ & Hv). apply IH in Hv. lia.
Qed.

Lemma copy_only n i j : 0 <= n -> (forall k, 0 <= k < n -> same (i + k) (j + k)) -> valid [mk_triple n 0 0] i j (i + n) (j + n).
Proof. intros. simpl. split; [done|]. split; [done|]. lia. Qed.

Lemma edit_only d n i j : 0 <= d -> 0 <= n -> valid [mk_triple 0 d n] i j (i + d) (j + n).
Proof. intros. simpl. split; [done|]. split; [intros; lia|]. lia. Qed.

(** ** Folding *)
Definition edits (t : triple) : Prop := 0 < t_del t + t_ins t.

(** Only the last triple may be a copy without an edit. *)
Definition shaped (e : list triple) : Prop := forall e1 t e2, e = e1 ++ t :: e2 -> e2 <> [] -> edits t.

Lemma appendTriple_cases e t :
  (e = [] /\ appendTriple e t = [t]) \/
  exists e0 l, e = e0 ++ [l] /\
    ((appendTriple e t = e0 ++ [l; t] /\ (t_del l <> 0 \/ t_ins l <> 0)) \/
     (appendTriple e t = e0 ++ [mk_triple (t_copy l + t_copy t) (t_del l + t_del t) (t_ins l + t_ins t)] /\
      ((t_del l = 0 /\ t_ins l = 0) \/ (t_copy t = 0 /\ (t_ins l = 0 \/ t_del t = 0))))).
Proof.
  unfold appendTriple. destruct e as [|l e0] using rev_ind; [by left|]. right. clear IHe0. exists e0, l. split; [done|].
  rewrite rev_app_distr. simpl. rewrite rev_involutive.
  destruct (Z.eqb_spec (t_ins l) 0); [destruct (Z.eqb_spec (t_del l) 0); [tauto|destruct (Z.eqb_spec (t_copy t) 0)]|
    destruct (Z.eqb_spec (t_copy t) 0), (Z.eqb_spec (t_del t) 0)]; simpl;
    rewrite <- ?app_assoc; try (left; split; [done|tauto]); right.
  - split; [|tauto]. do 3 f_equal; lia.
  - split; [|tauto]. do 3 f_equal; lia.
Qed.

Lemma appendTriple_valid e t i j x y i' j' :
  valid e i j x y -> valid [t] x y i' j' -> valid (appendTriple e t) i j i' j'.
Proof.
  intros He Ht. destruct (appendTriple_cases e t) as [[-> ->]|(e0 & l & -> & [[-> _]|[-> Hc]])].
  - simpl in He. by destruct He as [-> ->].
  - rewrite valid_app in *. destruct He as (u & v & H1 & H2). exists u, v. split; [done|].
    change [l; t] with ([l] ++ [t]). rewrite valid_app. by exists x, y.
  - rewrite valid_app in *. destruct He as (u & v & H1 & H2). exists u, v. split; [done|].
    rewrite valid_singleton in *. destruct H2 as ((? & ? & ?) & Hs & <- & <-), Ht as ((? & ? & ?) & Hs' & <- & <-). simpl.
    split; [unfold nonneg; simpl; lia|]. split; [|lia]. intros k Hk.
    destruct (Z.lt_ge_cases k (t_copy l)); [apply Hs; lia|]. destruct Hc as [Hc|Hc]; [|lia].
    specialize (Hs' (k - t_copy l) ltac:(lia)).
    by replace (u + k) with (u + t_copy l + t_del l + (k - t_copy l)) by lia;
       replace (v + k) with (v + t_copy l + t_ins l + (k - t_copy l)) by lia.
Qed.

Lemma appendTriple_shaped e t i j i' j' : valid e i j i' j' -> nonneg t -> shaped e -> shaped (appendTriple e t).
Proof.
  intros Hv (N1 & N2 & N3) Hs. destruct (appendTriple_cases e t) as [[-> ->]|(e0 & l & -> & [[-> Hl]|[-> _]])]; intros e1 u e2 E Hne.
  - destruct e1 as [|? [|]]; simplify_eq/=.
  - destruct e2 as [|w e2] using rev_ind; [done|]. clear IHe2 Hne.
    change [l; t] with ([l] ++ [t]) in E. rewrite app_assoc, app_comm_cons, app_assoc in E.
    apply app_inj_tail in E as [E _]. destruct (decide (e2 = [])) as [->|]; [|by eapply Hs].
    apply app_inj_tail in E as [_ <-]. apply valid_app in Hv as (? & ? & _ & (? & ? & ?) & _). unfold edits. lia.
  - destruct e2 as [|w e2] using rev_ind; [done|]. clear IHe2 Hne.
    rewrite app_comm_cons, app_assoc in E. apply app_inj_tail in E as [E _]. subst e0.
    eapply (Hs e1 u (e2 ++ [l])); [by rewrite <- app_assoc|by destruct e2].
Qed.

(** A copy at the end is a triple of its own, or folded into another copy. *)
Lemma appendTriple_copy e n : 0 < n -> exists e0 m, appendTriple e (mk_triple n 0 0) = e0 ++ [mk_triple m 0 0].
Proof.
  intros Hn. destruct (appendTriple_cases e (mk_triple n 0 0)) as [[-> ->]|(e0 & l & -> & [[-> _]|[-> Hc]])].
  - by exists [], n.
  - exists (e0 ++ [l]), n. by rewrite <- app_assoc.
  - simpl in *. destruct Hc as [[-> ->]|]; [|lia]. eauto.
Qed.
End Valid.

Lemma valid_mono (R S : Z -> Z -> Prop) e i j i' j' : 0 <= i -> 0 <= j ->
  (forall x y, 0 <= x < i' -> 0 <= y < j' -> R x y -> S x y) -> valid R e i j i' j' -> valid S e i j i' j'.
Proof.
  revert i j. induction e as [|t e IH]; intros i j Hi Hj HRS; [done|]. intros ((? & ? & ?) & Hs & Hv).
  pose proof (valid_le _ _ _ _ _ _ Hv). split; [done|]. split; [|apply IH; done || lia].
  intros k Hk. apply HRS; [lia..|]. by apply Hs.
Qed.

(** What a triple does beside copying. *)
Definition edit_of (t : triple) : Z * Z := (t_del t, t_ins t).

Lemma shaped_map e e' : map edit_of e = map edit_of e' -> shaped e -> shaped e'.
Proof.
  intros Hm Hs e1 t e2 -> Hne. rewrite map_app in Hm. apply map_eq_app in Hm as (l1 & l2 & -> & E1 & E2).
  destruct l2 as [|u l2]; [done|]. injection E2 as Ed Ei El.
  assert (He : edits u) by (eapply Hs; [done|]; by destruct l2, e2).
  unfold edits in *. lia.
Qed.

Section Triples.
Context (KF KT : list (Z * bytes)) (nF nT : Z).
Abbreviation same := (same KF KT).
Abbreviation valid := (valid same).
Abbreviation ctx_rep := (ctx_rep KF KT nF nT).

(** ** The stack of ranges *)

(** The context with the triples so far, which reach line [x] of the one text
    and [y] of the other. *)
Record progress (c : dcontext) (x y : Z) : Prop := {
  pg_rep : ctx_rep c; pg_valid : valid (dc_edit c) 0 0 x y; pg_shaped : shaped (dc_edit c) }.

Lemma ctx_rep_edit c e : ctx_rep c -> ctx_rep (set_edit c e).
Proof. by intros []. Qed.

Lemma progress_append c x y t x' y' : progress c x y -> valid [t] x y x' y' ->
  progress (set_edit c (appendTriple (dc_edit c) t)) x' y'.
Proof.
  intros [Hc Hv Hs] Ht. split; [by apply ctx_rep_edit|by eapply appendTriple_valid|].
  eapply appendTriple_shaped; [done|apply Ht|done].
Qed.

Definition task_ok (t : diffTask) (x y x' y' : Z) : Prop :=
  if copyN t >? 0 then valid [mk_triple (copyN t) 0 0] x y x' y'
  else (x = tS1 t /\ x' = tE1 t /\ y = tS2 t /\ y' = tE2 t) /\ 0 <= x <= x' /\ x' <= nF /\ 0 <= y <= y' /\ y' <= nT.

Fixpoint stack_ok (stack : list diffTask) (x y X Y : Z) : Prop :=
  match stack with
  | [] => x = X /\ y = Y
  | t :: stack => exists x' y', task_ok t x y x' y' /\ stack_ok stack x' y' X Y
  end.

Definition task_cost (t : diffTask) : Z := if copyN t >? 0 then 1 else 2 * (tE1 t - tS1 t + (tE2 t - tS2 t)) + 1.
Definition stack_cost (stack : list diffTask) : Z := foldr (fun t n => task_cost t + n) 0 stack.

Lemma task_cost_pos t x y x' y' : task_ok t x y x' y' -> 0 < task_cost t.
Proof. unfold task_ok, task_cost. destruct (copyN t >? 0); lia. Qed.

Lemma stack_cost_pos stack x y X Y : stack_ok stack x y X Y -> 0 <= stack_cost stack.
Proof.
  revert x y. induction stack as [|t stack IH]; intros x y; simpl; [lia|].
  intros (x' & y' & Ht & Hs). apply task_cost_pos in Ht. apply IH in Hs. lia.
Qed.

(** A range is split around its common block. *)
Lemma split_ok iS1 iE1 iS2 iE2 m : ranges nF nT iS1 iE1 iS2 iE2 -> common KF KT iS1 iE1 iS2 iE2 m -> iSX m < iEX m ->
  forall stack X Y, stack_ok stack iE1 iE2 X Y ->
  let s := mk_diffTask 0 iS1 (iSX m) iS2 (iSY m) :: [mk_diffTask (iEX m - iSX m) 0 0 0 0]
           ++ mk_diffTask 0 (iEX m) iE1 (iEY m) iE2 :: stack in
  stack_ok s iS1 iS2 X Y /\ stack_cost s <= 2 * (iE1 - iS1 + (iE2 - iS2)) + stack_cost stack.
Proof.
  intros (R1 & R2 & R3 & R4) [C1 C2 C3 C4 C5 Hs] Hlt stack X Y Hst. simpl. split.
  - exists (iSX m), (iSY m). split; [unfold task_ok; simpl; lia|].
    exists (iEX m), (iEY m). split.
    + unfold task_ok. simpl. rewrite Z.gtb_ltb, (proj2 (Z.ltb_lt _ _)) by lia. simpl.
      split; [unfold nonneg; simpl; lia|]. split; [done|lia].
    + exists iE1, iE2. split; [unfold task_ok; simpl; lia|done].
  - unfold task_cost. simpl. rewrite Z.gtb_ltb, (proj2 (Z.ltb_lt 0 (iEX m - iSX m))) by lia. lia.
Qed.

Lemma step_loop_ok fuel stack c x y X Y : progress c x y -> stack_ok stack x y X Y ->
  stack_cost stack <= Z.of_nat fuel -> yields (step_loop fuel stack c) (fun c' => progress c' X Y).
Proof.
  revert stack c x y. induction fuel as [|f IH]; intros stack c x y Hp Hst Hfuel; (destruct stack as [|t stack];
    [by destruct Hst as [<- <-]|]); simpl in Hst, Hfuel; destruct Hst as (x' & y' & Ht & Hst);
    pose proof (task_cost_pos _ _ _ _ _ Ht); pose proof (stack_cost_pos _ _ _ _ _ Hst); [lia|].
  cbn [step_loop]. unfold task_ok, task_cost in *.
  destruct (copyN t >? 0) eqn:Ecopy; [eapply IH; [by eapply progress_append|done|lia]|].
  destruct Ht as ((-> & -> & -> & ->) & Hx & HxF & Hy & HyT).
  destruct (Z.leb_spec (tE1 t) (tS1 t)).
  { replace (tE1 t) with (tS1 t) in * by lia. destruct (Z.gtb_spec (tE2 t) (tS2 t)).
    - eapply IH; [eapply progress_append; [done|]|done|lia].
      pose proof (edit_only same 0 (tE2 t - tS2 t) (tS1 t) (tS2 t)) as Hv. rewrite Z.add_0_r, Zplus_minus in Hv. apply Hv; lia.
    - replace (tE2 t) with (tS2 t) in * by lia. eapply IH; [done|done|lia]. }
  destruct (Z.leb_spec (tE2 t) (tS2 t)).
  { replace (tE2 t) with (tS2 t) in * by lia. eapply IH; [eapply progress_append; [done|]|done|lia].
    pose proof (edit_only same (tE1 t - tS1 t) 0 (tS1 t) (tS2 t)) as Hv. rewrite Z.add_0_r, Zplus_minus in Hv. apply Hv; lia. }
  assert (HR : ranges nF nT (tS1 t) (tE1 t) (tS2 t) (tE2 t)) by (unfold ranges; lia).
  apply yields_bind. eapply yields_mono; [apply (longestCommonSequence_ok KF KT nF nT); [apply Hp|done]|]. intros m Hm.
  apply yields_bind. apply (yields_mono _ (fun r => measured KF KT nF nT c (snd r) /\ (fst r = true -> iSX m < iEX m))).
  { destruct (Z.gtb_spec (iEX m) (iSX m + 5)); [split; [split; [apply Hp|done]|simpl; lia]|].
    destruct (Z.gtb_spec (iEX m) (iSX m)); [|split; [split; [apply Hp|done]|done]].
    eapply yields_mono; [apply (likelyNotIndentChngArtifact_ok KF KT nF nT); [apply Hp|destruct Hm, HR; lia..]|]. done. }
  intros [b c'] [[Hc' He] Hlt]. cbn [fst snd] in *.
  assert (Hp' : progress c' (tS1 t) (tS2 t)) by (split; [done|rewrite He; apply Hp..]).
  destruct b.
  - rewrite (proj2 (Z.gtb_lt _ _)) by by apply Hlt.
    destruct (split_ok _ _ _ _ _ HR Hm (Hlt eq_refl) _ _ _ Hst) as [Hs Hcost]. eapply IH; [exact Hp'|exact Hs|lia].
  - eapply IH; [eapply progress_append; [done|]|done|lia].
    pose proof (edit_only same (tE1 t - tS1 t) (tE2 t - tS2 t) (tS1 t) (tS2 t)) as Hv. rewrite !Zplus_minus in Hv. apply Hv; lia.
Qed.

Lemma diffSteps_ok c iS1 iE1 iS2 iE2 : progress c iS1 iS2 -> 0 <= iS1 <= iE1 -> iE1 <= nF -> 0 <= iS2 <= iE2 -> iE2 <= nT ->
  yields (diffSteps c iS1 iE1 iS2 iE2) (fun c' => progress c' iE1 iE2).
Proof.
  intros. unfold diffSteps. eapply step_loop_ok; [done| |].
  - exists iE1, iE2. split; [|done]. unfold task_ok. simpl. lia.
  - simpl. unfold task_cost. simpl. lia.
Qed.

(** ** The whole range *)

(** The last edit cannot slide past the end. *)
Definition anchored (e : list triple) : Prop :=
  last (map edit_of e) = Some (0, 0) \/ nF = 0 \/ nT = 0 \/ ~ same (nF - 1) (nT - 1).

Record diffed (e : list triple) : Prop := {
  df_valid : valid e 0 0 nF nT; df_shaped : shaped e; df_anchored : anchored e }.

Lemma diffAll_ok c : ctx_rep c -> dc_edit c = [] -> 0 <= nF -> 0 <= nT ->
  yields (diffAll c) (fun c' => ctx_rep c' /\ exists e, dc_edit c' = e ++ [zero_triple] /\ diffed e).
Proof.
  intros Hc He HF HT. unfold diffAll. rewrite (cr_nf _ _ _ _ _ Hc), (cr_nt _ _ _ _ _ Hc).
  apply yields_bind. eapply yields_mono; [apply (equal_run_ok KF KT nF nT); [done|intros; lia]|]. intros tail (Htail & Hsame & Hstop).
  apply yields_bind. eapply yields_mono; [apply (equal_run_ok KF KT nF nT); [done|intros; lia]|]. intros iS (HiS & Hhead & _).
  assert (Hp : progress (if iS >? 0 then set_edit c (appendTriple (dc_edit c) (mk_triple iS 0 0)) else c) iS iS).
  { assert (progress c 0 0) by (split; [done|by rewrite He|rewrite He; by intros [] ? ? ?]).
    destruct (Z.gtb_spec iS 0); [|by replace iS with 0 by lia]. eapply progress_append; [done|].
    apply (copy_only same iS 0 0); [lia|]. intros k Hk. specialize (Hhead k Hk). by rewrite Z.mul_1_l in Hhead. }
  apply yields_bind. eapply yields_mono; [apply (diffSteps_ok _ iS (nF - tail) iS (nT - tail)); [exact Hp|lia..]|].
  intros c1 Hp1. simpl.
  assert (Htl : valid [mk_triple tail 0 0] (nF - tail) (nT - tail) nF nT).
  { pose proof (copy_only same tail (nF - tail) (nT - tail)) as Hv. rewrite !Z.sub_add in Hv. apply Hv; [lia|]. intros k Hk.
    specialize (Hsame (tail - 1 - k) ltac:(lia)).
    by replace (nF - tail + k) with (nF - 1 + -1 * (tail - 1 - k)) by lia; replace (nT - tail + k) with (nT - 1 + -1 * (tail - 1 - k)) by lia. }
  rewrite (cr_nf _ _ _ _ _ (pg_rep _ _ _ Hp1)). destruct (Z.ltb_spec (nF - tail) nF).
  - pose proof (progress_append _ _ _ _ _ _ Hp1 Htl) as [Hr Hv Hs]. replace (nF - (nF - tail)) with tail by lia.
    split; [by apply ctx_rep_edit|]. eexists. split; [done|]. split; [done|done|]. left.
    destruct (appendTriple_copy (dc_edit c1) tail ltac:(lia)) as (e0 & m & ->). simpl. rewrite map_app. by apply last_snoc.
  - replace tail with 0 in * by lia. rewrite !Z.sub_0_r in *. destruct Hp1 as [Hr Hv Hs].
    split; [by apply ctx_rep_edit|]. eexists. split; [done|]. split; [done|done|]. right.
    rewrite Z.mul_0_r, !Z.add_0_r in Hstop. destruct (Z.eq_dec nF 0), (Z.eq_dec nT 0); try tauto. right. right. apply Hstop. lia.
Qed.
End Triples.
