(* ===== verification/MergeSlide.v ===== *)
(** * The merge's diff: sliding and the whole of [textDiff]

    Sliding an insertion or a deletion keeps the triples valid, never moves the
    terminator, and reads no line out of range; so [textDiff] answers for any
    two texts, with an edit of the one into the other. *)

From S2P Require Import Prelude GoStd GoText GoCrypto MergeDiff MergeTable MergeLcs MergeTriples.

Section Slide.
Context (KF KT : list (Z * bytes)) (nF nT : Z) (c : dcontext).
Hypothesis Hc : ctx_rep KF KT nF nT c.
Abbreviation same := (same KF KT).
Abbreviation valid := (valid same).

(** ** The break conditions *)

(** Reading line [i] of the text with the keys [K]. *)
Definition reads (m : mresult dline) (K : list (Z * bytes)) (i : Z) : Prop :=
  exists a, m = Ok a /\ line_ok a /\ K !! Z.to_nat i = Some (dkey a).

Lemma reads_from i : 0 <= i <= nF -> reads (elem_at (dc_from c) i) KF i.
Proof using Hc.
  intros Hi. destruct Hc as [Ft _ Fk _ _ _].
  destruct (elem_at_some (E := Empty_set) (dc_from c) i) as (a & Ha & E); [rewrite (tb_len _ _ Ft); lia|].
  exists a. split; [done|]. split; [exact (tb_line _ _ Ft _ _ Ha)|by eapply key_lookup].
Qed.

Lemma reads_to i : 0 <= i <= nT -> reads (elem_at (dc_to c) i) KT i.
Proof using Hc.
  intros Hi. destruct Hc as [_ Ft _ Fk _ _].
  destruct (elem_at_some (E := Empty_set) (dc_to c) i) as (a & Ha & E); [rewrite (tb_len _ _ Ft); lia|].
  exists a. split; [done|]. split; [exact (tb_line _ _ Ft _ _ Ha)|by eapply key_lookup].
Qed.

Lemma breaks_ok a b w x y z Ka i Kb j K1 p1 K2 p2 K3 p3 K4 p4 :
  reads a Ka i -> reads b Kb j -> reads w K1 p1 -> reads x K2 p2 -> reads y K3 p3 -> reads z K4 p4 ->
  yields (breaks a b w x y z) (fun r => (r = false -> Ka !! Z.to_nat i = Kb !! Z.to_nat j) /\
                                        (Ka !! Z.to_nat i <> Kb !! Z.to_nat j -> r = true)).
Proof.
  intros (la & -> & Oa & Ea) (lb & -> & Ob & Eb) (? & -> & _) (? & -> & _) (? & -> & _) (? & -> & _).
  unfold breaks. simpl. destruct (differ_ok la lb Oa Ob) as ([|] & -> & Hd); simpl; [done|].
  assert (dkey la = dkey lb) as E by by apply Hd. split; [intros _|]; rewrite Ea, Eb, E; done.
Qed.

(** ** One step up or down *)
Definition up (s : slide) : slide := mk_slide (s_from s - 1) (s_to s - 1) (s_copy s - 1) (s_next s + 1).
Definition down (s : slide) : slide := mk_slide (s_from s + 1) (s_to s + 1) (s_copy s + 1) (s_next s - 1).

Lemma slide_up_ok (Inv : slide -> Prop) brk fuel s :
  (forall s, Inv s -> 0 < s_copy s -> yields (brk (s_from s) (s_to s)) (fun b => b = false -> Inv (up s))) ->
  Inv s -> Z.max 0 (s_copy s) < Z.of_nat fuel -> yields (slide_up fuel brk s) Inv.
Proof.
  intros Hbrk. revert s. induction fuel as [|f IH]; intros s Hs Hf; [lia|]. cbn [slide_up].
  destruct (Z.gtb_spec (s_copy s) 0); [|done]. apply yields_bind. eapply yields_mono; [by apply Hbrk|].
  intros [|] Hb; [done|]. apply IH; [by apply Hb|simpl; lia].
Qed.

Lemma slide_down_ok (Inv : slide -> Prop) brk fuel s :
  (forall s, Inv s -> 0 < s_next s -> yields (brk (s_from s) (s_to s)) (fun b => b = false -> Inv (down s))) ->
  Inv s -> Z.max 0 (s_next s) < Z.of_nat fuel -> yields (slide_down fuel brk s) Inv.
Proof.
  intros Hbrk. revert s. induction fuel as [|f IH]; intros s Hs Hf; [lia|]. cbn [slide_down].
  destruct (Z.gtb_spec (s_next s) 0); [|done]. apply yields_bind. eapply yields_mono; [by apply Hbrk|].
  intros [|] Hb; [done|]. apply IH; [by apply Hb|simpl; lia].
Qed.

(** A triple that starts at [i], [j] and the one after it, which ends its edit
    at [X], [Y]. *)
Section Pair.
Context (i j X Y del ins d2 i2 : Z) (Hi : 0 <= i) (Hj : 0 <= j) (HX : X <= nF) (HY : Y <= nT).

Definition slid (s : slide) : Prop :=
  s_from s = i + s_copy s /\ s_to s = j + s_copy s /\
  valid [mk_triple (s_copy s) del ins; mk_triple (s_next s) d2 i2] i j X Y.

Lemma slid_facts s : slid s ->
  (0 <= s_copy s /\ 0 <= del /\ 0 <= ins /\ 0 <= s_next s /\ 0 <= d2 /\ 0 <= i2) /\
  s_from s + del + s_next s <= nF /\ s_to s + ins + s_next s <= nT.
Proof using HX HY. intros (F & T & (? & ? & ?) & _ & (? & ? & ?) & _ & E1 & E2). simpl in *. lia. Qed.

Lemma slid_up s : slid s -> 0 < s_copy s -> same (s_from s - 1 + del) (s_to s - 1 + ins) -> slid (up s).
Proof using.
  intros (F & T & (N1 & N2 & N3) & Hs & (M1 & M2 & M3) & Hs' & E1 & E2) Hpos Hsame. unfold slid, up. simpl in *.
  split; [lia|]. split; [lia|]. split; [unfold nonneg; simpl; lia|]. split; [intros k Hk; apply Hs; lia|].
  split; [unfold nonneg; simpl; lia|]. split; [|lia]. intros k Hk. destruct (Z.eq_dec k 0) as [->|].
  - replace (i + (s_copy s - 1) + del + 0) with (s_from s - 1 + del) by lia.
    by replace (j + (s_copy s - 1) + ins + 0) with (s_to s - 1 + ins) by lia.
  - specialize (Hs' (k - 1) ltac:(lia)).
    replace (i + (s_copy s - 1) + del + k) with (i + s_copy s + del + (k - 1)) by lia.
    by replace (j + (s_copy s - 1) + ins + k) with (j + s_copy s + ins + (k - 1)) by lia.
Qed.

Lemma slid_down s : slid s -> 0 < s_next s -> same (s_from s) (s_to s) -> slid (down s).
Proof using.
  intros (F & T & (N1 & N2 & N3) & Hs & (M1 & M2 & M3) & Hs' & E1 & E2) Hpos Hsame. unfold slid, down. simpl in *.
  split; [lia|]. split; [lia|]. split; [unfold nonneg; simpl; lia|]. split.
  { intros k Hk. destruct (Z.eq_dec k (s_copy s)) as [->|]; [|apply Hs; lia]. by rewrite <- F, <- T. }
  split; [unfold nonneg; simpl; lia|]. split; [|lia]. intros k Hk. specialize (Hs' (k + 1) ltac:(lia)).
  replace (i + (s_copy s + 1) + del + k) with (i + s_copy s + del + (k + 1)) by lia.
  by replace (j + (s_copy s + 1) + ins + k) with (j + s_copy s + ins + (k + 1)) by lia.
Qed.

(** The copied lines around the edit. *)
Lemma slid_before s : slid s -> 0 < s_copy s -> same (s_from s - 1) (s_to s - 1).
Proof using.
  intros (F & T & _ & Hs & _) Hpos. specialize (Hs (s_copy s - 1) ltac:(simpl; lia)).
  replace (s_from s - 1) with (i + (s_copy s - 1)) by lia. by replace (s_to s - 1) with (j + (s_copy s - 1)) by lia.
Qed.

Lemma slid_after s : slid s -> 0 < s_next s -> same (s_from s + del) (s_to s + ins).
Proof using.
  intros (F & T & _ & _ & _ & Hs & _) Hpos. specialize (Hs 0 ltac:(simpl; lia)). simpl in Hs.
  rewrite !Z.add_0_r, <- F, <- T in Hs. done.
Qed.

Lemma ins_up_ok s : slid s -> 0 < s_copy s -> del = 0 -> 0 < ins ->
  yields (ins_up c ins (s_from s) (s_to s)) (fun b => (b = false -> slid (up s)) /\ (~ same (s_from s - 1) (s_to s + ins - 1) -> b = true)).
Proof using Hc Hi Hj HX HY.
  intros Hs Hpos Hd Hins. destruct (slid_facts s Hs) as (? & ? & ?). pose proof Hs as (F & T & _). unfold ins_up.
  eapply yields_mono; [eapply breaks_ok; first [apply reads_from; lia|apply reads_to; lia]|].
  intros b [Hb Hb']. split; [|done]. intros E. apply slid_up; [done..|]. unfold same. rewrite Hd, Z.add_0_r.
  replace (s_to s - 1 + ins) with (s_to s + ins - 1) by lia. by apply Hb.
Qed.

Lemma ins_down_ok s : slid s -> 0 < s_next s -> del = 0 -> 0 < ins ->
  yields (ins_down c ins (s_from s) (s_to s)) (fun b => b = false -> slid (down s)).
Proof using Hc Hi Hj HX HY.
  intros Hs Hpos Hd Hins. destruct (slid_facts s Hs) as (? & ? & ?). pose proof Hs as (F & T & _). unfold ins_down.
  eapply yields_mono; [eapply breaks_ok; apply reads_to; lia|].
  intros b [Hb _] E. apply slid_down; [done..|]. pose proof (slid_after s Hs Hpos) as Ha.
  unfold MergeLcs.same in *. rewrite Hd, Z.add_0_r in Ha. rewrite Ha. symmetry. by apply Hb.
Qed.

Lemma del_up_ok s : slid s -> 0 < s_copy s -> 0 < del -> ins = 0 ->
  yields (del_up c del (s_from s) (s_to s)) (fun b => (b = false -> slid (up s)) /\ (~ same (s_from s + del - 1) (s_to s - 1) -> b = true)).
Proof using Hc Hi Hj HX HY.
  intros Hs Hpos Hd Hins. destruct (slid_facts s Hs) as (? & ? & ?). pose proof Hs as (F & T & _). unfold del_up.
  eapply yields_mono; [eapply breaks_ok; apply reads_from; lia|].
  pose proof (slid_before s Hs Hpos) as Hb0. intros b [Hb Hb']. unfold MergeLcs.same in *. split.
  - intros E. apply slid_up; [done..|]. unfold MergeLcs.same. rewrite Hins, Z.add_0_r, <- Hb0, (Hb E).
    by replace (s_from s - 1 + del) with (s_from s + del - 1) by lia.
  - intros Hne. apply Hb'. rewrite Hb0. congruence.
Qed.

Lemma del_down_ok s : slid s -> 0 < s_next s -> 0 < del -> ins = 0 ->
  yields (del_down c del (s_from s) (s_to s)) (fun b => b = false -> slid (down s)).
Proof using Hc Hi Hj HX HY.
  intros Hs Hpos Hd Hins. destruct (slid_facts s Hs) as (? & ? & ?). pose proof Hs as (F & T & _). unfold del_down.
  eapply yields_mono; [eapply breaks_ok; apply reads_from; lia|].
  intros b [Hb _] E. apply slid_down; [done..|]. pose proof (slid_after s Hs Hpos) as Ha.
  unfold MergeLcs.same in *. rewrite Hins, Z.add_0_r in Ha. rewrite <- Ha. by apply Hb.
Qed.

Lemma slides_ok s : slid s -> yields (slides c del ins s) slid.
Proof using Hc Hi Hj HX HY.
  intros Hs. unfold slides. destruct ((del =? 0) && (ins >? 0)) eqn:E1.
  { rewrite Z.gtb_ltb in E1. zbool. apply yields_bind. eapply yields_mono.
    - apply (slide_up_ok slid); [|exact Hs|lia]. intros s' Hs' Hp.
      eapply yields_mono; [by apply ins_up_ok|]. by intros b [Hb _].
    - intros s' Hs'. apply (slide_down_ok slid); [|exact Hs'|lia]. intros s2 Hs2 Hp. by apply ins_down_ok. }
  destruct ((del >? 0) && (ins =? 0)) eqn:E2; [|done].
  rewrite Z.gtb_ltb in E2. zbool. apply yields_bind. eapply yields_mono.
  - apply (slide_up_ok slid); [|exact Hs|lia]. intros s' Hs' Hp.
    eapply yields_mono; [by apply del_up_ok|]. by intros b [Hb _].
  - intros s' Hs'. apply (slide_down_ok slid); [|exact Hs'|lia]. intros s2 Hs2 Hp. by apply del_down_ok.
Qed.

(** Before the terminator nothing moves. *)
Lemma slides_end s : slid s -> s_next s = 0 -> s_from s + del = nF -> s_to s + ins = nT ->
  (del = 0 /\ ins = 0) \/ nF = 0 \/ nT = 0 \/ ~ same (nF - 1) (nT - 1) ->
  slides c del ins s = Ok s.
Proof using Hc Hi Hj HX HY.
  intros Hs Hn HeF HeT Ha. pose proof (slid_facts s Hs) as (? & ? & ?). pose proof Hs as (F & T & _).
  assert (Hdown : forall brk, slide_down (S (Z.to_nat (s_next s))) brk s = Ok s) by (intros; cbn [slide_down]; rewrite Hn; done).
  unfold slides. destruct ((del =? 0) && (ins >? 0)) eqn:E1.
  { rewrite Z.gtb_ltb in E1. zbool. cbn [slide_up]. destruct (Z.gtb_spec (s_copy s) 0) as [Hp|]; [|apply Hdown].
    assert (Hne : ~ same (s_from s - 1) (s_to s + ins - 1)) by (destruct Ha as [|[|[|Ha]]]; [lia..|]; replace (s_from s) with nF by lia; by rewrite HeT).
    pose proof (ins_up_ok s Hs Hp ltac:(lia) ltac:(lia)) as (b & Hb & _ & Hb')%yields_ok. rewrite Hb, (Hb' Hne). apply Hdown. }
  destruct ((del >? 0) && (ins =? 0)) eqn:E2; [|done].
  rewrite Z.gtb_ltb in E2. zbool. cbn [slide_up]. destruct (Z.gtb_spec (s_copy s) 0) as [Hp|]; [|apply Hdown].
  assert (Hne : ~ same (s_from s + del - 1) (s_to s - 1)) by (destruct Ha as [|[|[|Ha]]]; [lia..|]; replace (s_to s) with nT by lia; by rewrite HeF).
  pose proof (del_up_ok s Hs Hp ltac:(lia) ltac:(lia)) as (b & Hb & _ & Hb')%yields_ok. rewrite Hb, (Hb' Hne). apply Hdown.
Qed.
End Pair.

Lemma slides_pair t nx i j X Y : valid [t; nx] i j X Y ->
  slid i j X Y (t_del t) (t_ins t) (t_del nx) (t_ins nx) (mk_slide (i + t_copy t) (j + t_copy t) (t_copy t) (t_copy nx)).
Proof. intros H. split; [done|]. split; [done|]. by destruct t, nx. Qed.

(** ** The loop *)
Lemma optimize_loop_ok mid t i j : 0 <= i -> 0 <= j -> valid (t :: mid) i j nF nT ->
  anchored KF KT nF nT (t :: mid) ->
  yields (optimize_loop c t (mid ++ [zero_triple]) i j) (fun full =>
    exists e, full = e ++ [zero_triple] /\ valid e i j nF nT /\ map edit_of e = map edit_of (t :: mid)).
Proof using Hc.
  revert t i j. induction mid as [|nx mid IH]; intros t i j Hi Hj Hv Ha.
  - cbn [app optimize_loop]. rewrite valid_singleton in Hv. destruct Hv as (Hn & Hs & E1 & E2).
    assert (Hp : valid [t; zero_triple] i j nF nT).
    { simpl. split; [done|]. split; [done|]. split; [done|]. split; [intros; lia|]. lia. }
    apply slides_pair in Hp. rewrite (slides_end i j nF nT (t_del t) (t_ins t) 0 0 Hi Hj (Z.le_refl _) (Z.le_refl _) _ Hp);
      [|done|simpl; lia|simpl; lia|destruct Ha as [Ha|Ha]; [injection Ha; lia|tauto]].
    simpl. exists [t]. destruct t. split; [done|]. split; [|done]. simpl in *. split; [done|]. split; [done|]. lia.
  - cbn [app optimize_loop]. change (t :: nx :: mid) with ([t; nx] ++ mid) in Hv.
    apply valid_app in Hv as (X & Y & Hp & Hrest). pose proof (valid_le _ _ _ _ _ _ Hrest).
    apply slides_pair in Hp. apply yields_bind. eapply yields_mono; [apply (slides_ok i j X Y (t_del t) (t_ins t) (t_del nx) (t_ins nx) Hi Hj); [lia|lia|exact Hp]|].
    intros s (F & T & (N & Hs & M & Hs' & E1 & E2)). cbn [t_copy t_del t_ins] in *.
    apply yields_bind. eapply yields_mono.
    + apply (IH (mk_triple (s_next s) (t_del nx) (t_ins nx)) (s_from s + t_del t) (s_to s + t_ins t)).
      * destruct N as (? & ? & ?). simpl in *. lia.
      * destruct N as (? & ? & ?). simpl in *. lia.
      * rewrite F, T. split; [done|]. split; [done|]. cbn [t_copy t_del t_ins]. by rewrite E1, E2.
      * destruct Ha as [Ha|Ha]; [|by right]. left. exact Ha.
    + intros full (e & -> & Hv & Hm). exists (mk_triple (s_copy s) (t_del t) (t_ins t) :: e). split; [done|].
      rewrite F, T in Hv. split; [by split|]. simpl in *. by rewrite Hm.
Qed.

Lemma optimize_ok e : dc_edit c = e ++ [zero_triple] -> diffed KF KT nF nT e ->
  yields (optimize c) (fun c' => exists e', dc_edit c' = e' ++ [zero_triple] /\ dc_from c' = dc_from c /\ dc_to c' = dc_to c /\
    valid e' 0 0 nF nT /\ shaped e').
Proof using Hc.
  intros He [Hv Hs Ha]. unfold optimize. rewrite He. destruct e as [|t e]; simpl.
  - by exists [].
  - apply yields_bind. eapply yields_mono; [by apply optimize_loop_ok|]. intros full (e' & -> & Hv' & Hm). simpl.
    exists e'. split; [done|]. split; [done|]. split; [done|]. split; [done|]. by eapply shaped_map.
Qed.
End Slide.

(** ** Whole texts *)
Definition line_same (A B : list bytes) (i j : Z) : Prop := A !! Z.to_nat i = B !! Z.to_nat j.

(** An edit of the lines [A] into the lines [B], and its terminator. *)
Definition line_edit (A B : list bytes) (e : list triple) : Prop :=
  valid (line_same A B) e 0 0 (len A) (len B) /\ shaped e.

Lemma recorded_same zs1 zs2 l1 l2 i j : recorded lineHash zs1 l1 -> recorded lineHash zs2 l2 ->
  forallb (fun l => len l <=? lengthMask) zs1 = true -> forallb (fun l => len l <=? lengthMask) zs2 = true ->
  0 <= i < len zs1 -> 0 <= j < len zs2 -> same (map dkey l1) (map dkey l2) i j -> line_same zs1 zs2 i j.
Proof.
  intros R1 R2 S1 S2 Hi Hj. unfold same, line_same.
  assert (K : forall zs l (i : Z), recorded lineHash zs l -> forallb (fun l => len l <=? lengthMask) zs = true -> 0 <= i < len zs ->
    exists z, zs !! Z.to_nat i = Some z /\ map dkey l !! Z.to_nat i = Some (lineHash z, z)).
  { clear. intros zs l i R S Hi. destruct (elem_at_some (E := Empty_set) zs i Hi) as (z & Hz & _). exists z. split; [done|].
    destruct (R _ _ Hz) as (a & Ha & E1 & E2 & _). change (map dkey) with (fmap (M := list) dkey). rewrite list_lookup_fmap, Ha. simpl.
    unfold dkey. rewrite E2, E1. assert (len z <= lengthMask).
    { apply forallb_forall with (x := z) in S; [lia|]. apply list_elem_of_In. by eapply list_elem_of_lookup_2. }
    unfold lineHash at 2. rewrite low_bits by (pose proof (len_nonneg z); lia). unfold len.
    rewrite Nat2Z.id, firstn_all. done. }
  destruct (K _ _ _ R1 S1 Hi) as (z1 & -> & ->), (K _ _ _ R2 S2 Hj) as (z2 & -> & ->). congruence.
Qed.

Lemma textDiff_ok a b : yields (textDiff a b false) (fun '(r, a', b') =>
  a' = toUTF8NoBOM a /\ b' = toUTF8NoBOM b /\
  match r with
  | None => is_text a' && is_text b' = false
  | Some full => is_text a' = true /\ is_text b' = true /\
                 exists e, full = e ++ [zero_triple] /\ line_edit (lines_of a') (lines_of b') e
  end).
Proof.
  unfold textDiff. set (a' := toUTF8NoBOM a). set (b' := toUTF8NoBOM b).
  pose proof (breakIntoLines_ok a') as (ra & -> & Ha)%yields_ok. pose proof (breakIntoLines_ok b') as (rb & -> & Hb)%yields_ok.
  simpl. destruct ra as [[from n1]|], rb as [[to n2]|]; try (simpl; split; [done|]; split; [done|]; apply andb_false_iff; tauto).
  destruct Ha as (Ta & -> & Fa & Ra), Hb as (Tb & -> & Fb & Rb).
  assert (Sa : forallb (fun l => len l <=? lengthMask) (lines_of a') = true) by (unfold is_text in Ta; by apply andb_true_iff in Ta as [_ ?]).
  assert (Sb : forallb (fun l => len l <=? lengthMask) (lines_of b') = true) by (unfold is_text in Tb; by apply andb_true_iff in Tb as [_ ?]).
  set (A := lines_of a') in *. set (B := lines_of b') in *. set (KF := map dkey from). set (KT := map dkey to).
  apply yields_bind. eapply yields_mono.
  { apply (diffAll_ok KF KT (len A) (len B)); [by split|done|apply len_nonneg..]. }
  intros c (Hc & e & He & Hd). apply yields_bind. eapply yields_mono; [by eapply optimize_ok|].
  intros c' (e' & -> & _ & _ & Hv & Hs). simpl. split; [done|]. split; [done|]. split; [done|]. split; [done|].
  exists e'. split; [done|]. split; [|done]. eapply valid_mono; [lia|lia| |exact Hv].
  intros x y Hx Hy Hxy. by eapply recorded_same.
Qed.
