(* ===== verification/Merge3.v ===== *)
(** * The three-way merge: src/internal/merge/merge3.go and its callers

    The walk over the two edit vectors, the text and token builders, conflict
    markers, and the strategies.  An edit vector is the list of its triples: the
    slice [aC[i:]] of the code is the rest of the list. *)

From S2P Require Import Prelude GoStd GoText GoCrypto MergeDiff MergeLcs MergeTriples.

Inductive opKind := opSame | opChngV1 | opChngV2 | opChngBoth | opConflict.
Record mergeOp := mk_mergeOp { mo_kind : opKind; nPivot : Z; nV1 : Z; nV2 : Z }.

(** ** Texts read through a cursor *)

(** The bytes of the first [n > 0] lines: the loop of [copyLines]. *)
Fixpoint lines_len (z : bytes) (n : Z) : nat :=
  match z with
  | [] => O
  | c :: z' => if Byte.eqb c x0a then if n =? 1 then 1%nat else S (lines_len z' (n - 1)) else S (lines_len z' n)
  end.

Record cursorBlob := mk_cursorBlob { data : bytes; cur : nat }.

(** [copyLines]: the copied bytes, and the blob after them. *)
Definition copyLines (b : cursorBlob) (n : Z) : bytes * cursorBlob :=
  if n =? 0 then ([], b)
  else
    let rest := drop (cur b) (data b) in
    let k := lines_len rest n in
    (take k rest, mk_cursorBlob (data b) (cur b + k)).

(** [extractLines]: the inner loop stops before the newline. *)
Fixpoint line_end (z : bytes) : nat :=
  match z with
  | c :: z' => if Byte.eqb c x0a then O else S (line_end z')
  | [] => O
  end.

Fixpoint extract_len (count : nat) (z : bytes) : nat :=
  match count with
  | O => O
  | S k =>
      let i := line_end z in
      if Nat.leb (length z) i then i else (S i + extract_len k (drop (S i) z))%nat
  end.

Definition extractLines (b : cursorBlob) (n : Z) : bytes :=
  let rest := drop (cur b) (data b) in take (extract_len (Z.to_nat n) rest) rest.

(** The offsets after each newline. *)
Fixpoint starts_from (i : Z) (z : bytes) : list Z :=
  match z with
  | [] => []
  | c :: z' => if Byte.eqb c x0a then (i + 1) :: starts_from (i + 1) z' else starts_from (i + 1) z'
  end.

Definition lineStarts (z : bytes) (line : Z) : mresult Z :=
  let starts := 0 :: starts_from 0 z in
  if line <? len starts then elem_at starts line else Ok (len z).

(** [z[at(u):]]. *)
Definition rest_at (z : bytes) (at_ : Z -> mresult Z) (u : Z) : mresult bytes :=
  let? o := at_ u in slice_of z o (len z).

(** ** Edit vectors *)
Definition head_of (aC : list triple) : mresult triple :=
  match aC with t :: _ => Ok t | [] => Panic "index out of range" end.

Definition set_copy (t : triple) (n : Z) : triple := mk_triple n (t_del t) (t_ins t).
Definition set_head_copy (aC : list triple) (n : Z) : list triple :=
  match aC with t :: rest => set_copy t n :: rest | [] => [] end.

(** [editsEnd], in triples. *)
Fixpoint editsEnd (aC : list triple) : mresult Z :=
  match aC with
  | [] => Panic "index out of range"
  | t :: rest => if is_zero t then Ok 0 else let? n := editsEnd rest in Ok (1 + n)
  end.

(** [sameLines]: both texts are read as if NULs followed them. *)
Definition byte_at (z : bytes) : byte := match z with c :: _ => c | [] => x00 end.

Fixpoint lines_agree (fuel : nat) (z1 z2 : bytes) (n : Z) : mresult bool :=
  match fuel with
  | O => Diverge
  | S f =>
      let c := byte_at z1 in
      if negb (Byte.eqb c (byte_at z2)) then Ok false
      else if Byte.eqb c x0a || Byte.eqb c x00 then
        if (n - 1 =? 0) || Byte.eqb c x00 then Ok true else lines_agree f (tl z1) (tl z2) (n - 1)
      else lines_agree f (tl z1) (tl z2) n
  end.

Definition sameLines (z1 z2 : bytes) (n : Z) : mresult bool :=
  if n =? 0 then Ok true else lines_agree (S (length z1)) z1 z2 n.

Definition sameEdit (t1 t2 : triple) (z1 z2 : bytes) : mresult bool :=
  if negb (t_copy t1 =? t_copy t2) || negb (t_del t1 =? t_del t2) || negb (t_ins t1 =? t_ins t2) then Ok false
  else sameLines z1 z2 (t_ins t1).

Fixpoint endsWithCopy (aC : list triple) (sz : Z) : mresult bool :=
  if negb (sz >? 0) then Ok true
  else
    match aC with
    | [] => Panic "index out of range"
    | t :: rest =>
        if negb ((t_copy t >? 0) || (t_del t >? 0) || (t_ins t >? 0)) then Ok true
        else if t_copy t >=? sz then Ok true
        else if t_del t >? sz - t_copy t then Ok false
        else endsWithCopy rest (sz - t_copy t - t_del t)
    end.

(** [skipConflict]: the rest of the vector, how many triples it passed, and the
    lines of the version. *)
Fixpoint skipConflict (aC : list triple) (sz : Z) : mresult (list triple * Z * Z) :=
  if negb (sz >? 0) then Ok (aC, 0, 0)
  else
    match aC with
    | [] => Panic "index out of range"
    | t :: rest =>
        if is_zero t then Ok (aC, 0, 0)
        else if t_copy t >=? sz then Ok (set_copy t (t_copy t - sz) :: rest, 0, sz)
        else
          let? (aC', k, ln) := skipConflict rest (sz - (t_copy t + t_del t)) in
          Ok (aC', 1 + k, t_copy t + t_ins t + ln)
    end.

(** The pivot lines a vector passes over. *)
Definition span (aC : list triple) : Z := foldr (fun t n => t_copy t + t_del t + n) 0 aC.

Fixpoint conflict_size (fuel : nat) (aC1 aC2 : list triple) (sz : Z) : mresult Z :=
  match fuel with
  | O => Diverge
  | S f =>
      let? b1 := endsWithCopy aC1 sz in
      let? b2 := if b1 : bool then endsWithCopy aC2 sz else Ok false in
      if b2 : bool then Ok sz else conflict_size f aC1 aC2 (sz + 1)
  end.

(** ** The walk *)

(** One vector as the walk has left it: the triples from the current one on, and
    how many of them come before the terminator. *)
Record side := mk_side { sd_rest : list triple; sd_left : Z }.

Definition next_triple (s : side) : side := mk_side (tl (sd_rest s)) (sd_left s - 1).

(** Passing over a triple that has become empty. *)
Definition skip_empty (s : side) : mresult side :=
  if sd_left s >? 0 then let? t := head_of (sd_rest s) in Ok (if is_zero t then next_triple s else s) else Ok s.

Section Walk.
Context (v1 v2 : bytes) (at1 at2 : Z -> mresult Z).

(** One pass of the [switch], with the units of V1 and V2 passed so far. *)
Definition walk_step (s1 s2 : side) (u1 u2 : Z) : mresult (mergeOp * side * side) :=
  let? a := head_of (sd_rest s1) in
  let? b := head_of (sd_rest s2) in
  if (t_copy a >? 0) && (t_copy b >? 0) then
    let n := Z.min (t_copy a) (t_copy b) in
    Ok (mk_mergeOp opSame n n n,
        mk_side (set_head_copy (sd_rest s1) (t_copy a - n)) (sd_left s1),
        mk_side (set_head_copy (sd_rest s2) (t_copy b - n)) (sd_left s2))
  else if (t_copy a >=? t_del b) && (t_copy a >? 0) && (t_del b + t_ins b >? 0) then
    Ok (mk_mergeOp opChngV2 (t_del b) (t_del b) (t_ins b),
        mk_side (set_head_copy (sd_rest s1) (t_copy a - t_del b)) (sd_left s1), next_triple s2)
  else if (t_copy b >=? t_del a) && (t_copy b >? 0) && (t_del a + t_ins a >? 0) then
    Ok (mk_mergeOp opChngV1 (t_del a) (t_ins a) (t_del a),
        next_triple s1, mk_side (set_head_copy (sd_rest s2) (t_copy b - t_del a)) (sd_left s2))
  else
    let? z1 := rest_at v1 at1 u1 in
    let? z2 := rest_at v2 at2 u2 in
    let? same := sameEdit a b z1 z2 in
    if same : bool then
      if negb (t_copy a =? 0) then Panic "merge.walkEdits: identical edits after a copy"
      else Ok (mk_mergeOp opChngBoth (t_del a) (t_ins a) (t_ins a), next_triple s1, next_triple s2)
    else
      let? sz := conflict_size (S (Z.to_nat (span (sd_rest s1) + span (sd_rest s2)))) (sd_rest s1) (sd_rest s2) 1 in
      let? (r1, k1, n1) := skipConflict (sd_rest s1) sz in
      let? (r2, k2, n2) := skipConflict (sd_rest s2) sz in
      Ok (mk_mergeOp opConflict sz n1 n2, mk_side r1 (sd_left s1 - k1), mk_side r2 (sd_left s2 - k2)).

(** The main loop and what follows it. *)
Fixpoint walk_loop (fuel : nat) (s1 s2 : side) (u1 u2 : Z) : mresult (list mergeOp) :=
  match fuel with
  | O => Diverge
  | S f =>
      if (sd_left s1 >? 0) && (sd_left s2 >? 0) then
        let? (op, s1, s2) := walk_step s1 s2 u1 u2 in
        let? s1 := skip_empty s1 in
        let? s2 := skip_empty s2 in
        let? ops := walk_loop f s1 s2 (u1 + nV1 op) (u2 + nV2 op) in
        Ok (op :: ops)
      else
        let? n1 := if sd_left s1 >? 0 then let? t := head_of (sd_rest s1) in Ok (t_ins t) else Ok 0 in
        if n1 >? 0 then Ok [mk_mergeOp opChngV1 0 n1 0]
        else
          let? n2 := if sd_left s2 >? 0 then let? t := head_of (sd_rest s2) in Ok (t_ins t) else Ok 0 in
          Ok (if n2 >? 0 then [mk_mergeOp opChngV2 0 0 n2] else [])
  end.

Definition is_conflict (op : mergeOp) : bool := match mo_kind op with opConflict => true | _ => false end.

(** The steps, and how many of them are conflicts.  Each pass of the loop
    passes a pivot line or a triple. *)
Definition walkEdits (aC1 aC2 : list triple) : mresult (list mergeOp * Z) :=
  let? limit1 := editsEnd aC1 in
  let? limit2 := editsEnd aC2 in
  let fuel := Z.to_nat (span aC1 + span aC2 + len aC1 + len aC2) in
  let? ops := walk_loop (S fuel) (mk_side aC1 limit1) (mk_side aC2 limit2) 0 0 in
  Ok (ops, len (List.filter is_conflict ops)).

End Walk.

(** ** The token builder *)
Fixpoint token_ops (pivot v1 v2 : bytes) (ops : list mergeOp) (iPivot iV1 iV2 : Z) (out : bytes) : mresult bytes :=
  match ops with
  | [] => Ok out
  | op :: ops =>
      let? part := match mo_kind op with
                   | opSame => slice_of pivot iPivot (iPivot + nPivot op)
                   | opChngV1 => slice_of v1 iV1 (iV1 + nV1 op)
                   | _ => slice_of v2 iV2 (iV2 + nV2 op)
                   end in
      token_ops pivot v1 v2 ops (iPivot + nPivot op) (iV1 + nV1 op) (iV2 + nV2 op) (out ++ part)
  end.

Definition end_line (out : bytes) : bytes :=
  match rev out with
  | c :: _ => if Byte.eqb c x0a then out else out ++ [x0a]
  | [] => out
  end.

Definition mergeTokens (pivot v1 v2 : bytes) : mresult bytes :=
  let? (aC1, pivot, v1) := textDiff pivot v1 true in
  let? (aC2, pivot, v2) := textDiff pivot v2 true in
  match aC1, aC2 with
  | Some aC1, Some aC2 =>
      let? (ops, _) := walkEdits v1 v2 Ok Ok aC1 aC2 in
      let? out := token_ops pivot v1 v2 ops 0 0 0 [] in
      Ok (end_line out)
  | _, _ => Ok []
  end.

(** ** The text builder *)
Definition markerBegin := bs "<<<<<<< BEGIN MERGE CONFLICT: local copy shown first <<<<<<<<<<<<".
Definition markerAncestor := bs "||||||| COMMON ANCESTOR content follows |||||||||||||||||||||||||".
Definition markerMergedIn := bs "======= MERGED IN content follows ===============================".
Definition markerEnd := bs ">>>>>>> END MERGE CONFLICT >>>>>>>>>>>>>>>>>>>>>>>>>>>>>>>>>>>>>>".
Definition markerSuggested := bs "####### SUGGESTED CONFLICT RESOLUTION follows ###################".
Definition markerLen : Z := len markerBegin.

Record Conflict := mk_Conflict { StartLine : Z; EndLine : Z; Local : bytes; Remote : bytes; Base : bytes }.
Record Result := mk_Result { Content : bytes; Conflicts : list Conflict; Clean : bool }.

Record textMerger := mk_textMerger {
  m_pivot : cursorBlob; m_v1 : cursorBlob; m_v2 : cursorBlob; m_out : bytes; m_useCRLF : bool;
  m_lnPivot : Z; m_lnV1 : Z; m_lnV2 : Z; m_conflicts : list Conflict }.

Definition containsCRLF (z : bytes) : bool :=
  match z with
  | c :: (_ :: _) as rest =>
      match IndexByte rest x0a with Some nl => opt_byte_eqb (idx z (Z.of_nat nl)) x0d | None => false end
  | _ => false
  end.

(** [start], on a new merger. *)
Definition start (pivot v1 v2 : bytes) : textMerger :=
  mk_textMerger (mk_cursorBlob pivot 0) (mk_cursorBlob v1 0) (mk_cursorBlob v2 0)
    (if HasPrefix v1 utf8BOM && HasPrefix v2 utf8BOM then utf8BOM else [])
    (containsCRLF v1 && containsCRLF v2) 0 0 0 [].

Definition ensureLineEnd (useCRLF : bool) (out : bytes) : bytes :=
  match rev out with
  | [] => out
  | c :: _ => if Byte.eqb c x0a then out else out ++ (if useCRLF then [x0d; x0a] else [x0a])
  end.

Definition appendMark (useCRLF : bool) (out marker : bytes) (ln : Z) : bytes :=
  ensureLineEnd useCRLF (ensureLineEnd useCRLF out ++ marker ++ (if ln >? 0 then bs " (line " ++ dec ln ++ bs ")" else [])).

(** [conflict], before the line counters advance. *)
Definition conflict (m : textMerger) (nP n1 n2 : Z) : mresult textMerger :=
  let local := extractLines (m_v1 m) n1 in
  let base := extractLines (m_pivot m) nP in
  let remote := extractLines (m_v2 m) n2 in
  let? res := mergeTokens base local remote in
  let crlf := m_useCRLF m in
  let out := appendMark crlf (m_out m) markerBegin (m_lnV1 m + 1) in
  let (part1, v1) := copyLines (m_v1 m) n1 in
  let out := out ++ part1 in
  let nRes := lineCount res in
  let out := if nRes >? 0
             then appendMark crlf out markerSuggested 0 ++ fst (copyLines (mk_cursorBlob res 0) nRes)
             else out in
  let out := appendMark crlf out markerAncestor (m_lnPivot m + 1) in
  let (partP, pivot) := copyLines (m_pivot m) nP in
  let out := appendMark crlf (out ++ partP) markerMergedIn (m_lnV2 m + 1) in
  let (part2, v2) := copyLines (m_v2 m) n2 in
  let out := appendMark crlf (out ++ part2) markerEnd 0 in
  Ok (mk_textMerger pivot v1 v2 out crlf (m_lnPivot m) (m_lnV1 m) (m_lnV2 m)
        (m_conflicts m ++ [mk_Conflict (m_lnPivot m + 1) (m_lnPivot m + nP) local remote base])).

(** Which of the three copies is written. *)
Inductive source := from_pivot | from_v1 | from_v2.

Definition copy_op (m : textMerger) (src : source) (op : mergeOp) : textMerger :=
  let (partP, pivot) := copyLines (m_pivot m) (nPivot op) in
  let (part1, v1) := copyLines (m_v1 m) (nV1 op) in
  let (part2, v2) := copyLines (m_v2 m) (nV2 op) in
  let part := match src with from_pivot => partP | from_v1 => part1 | from_v2 => part2 end in
  mk_textMerger pivot v1 v2 (m_out m ++ part) (m_useCRLF m) (m_lnPivot m) (m_lnV1 m) (m_lnV2 m) (m_conflicts m).

Definition apply_op (m : textMerger) (op : mergeOp) : mresult textMerger :=
  let? m := match mo_kind op with
            | opSame => Ok (copy_op m from_pivot op)
            | opChngV1 => Ok (copy_op m from_v1 op)
            | opChngV2 | opChngBoth => Ok (copy_op m from_v2 op)
            | opConflict => conflict m (nPivot op) (nV1 op) (nV2 op)
            end in
  Ok (mk_textMerger (m_pivot m) (m_v1 m) (m_v2 m) (m_out m) (m_useCRLF m)
        (m_lnPivot m + nPivot op) (m_lnV1 m + nV1 op) (m_lnV2 m + nV2 op) (m_conflicts m)).

Fixpoint apply_all (m : textMerger) (ops : list mergeOp) : mresult textMerger :=
  match ops with
  | [] => Ok m
  | op :: ops => let? m := apply_op m op in apply_all m ops
  end.

(** [mergeText]: [None] for inputs that cannot be diffed. *)
Definition mergeText (pivot v1 v2 : bytes) : mresult (option (bytes * list Conflict * Z)) :=
  let? (aC1, pivot, v1) := textDiff pivot v1 false in
  let? (aC2, pivot, v2) := textDiff pivot v2 false in
  match aC1, aC2 with
  | Some aC1, Some aC2 =>
      let? (ops, n) := walkEdits v1 v2 (lineStarts v1) (lineStarts v2) aC1 aC2 in
      let? m := apply_all (start pivot v1 v2) ops in
      Ok (Some (m_out m, m_conflicts m, n))
  | _, _ => Ok None
  end.

(** ** The strategies *)
Definition unmerged (base local remote : bytes) : Result :=
  mk_Result local [mk_Conflict 0 0 local remote base] false.

(** [ThreeWayText.Merge]. *)
Definition ThreeWayText_Merge (base local remote : bytes) : mresult Result :=
  let? r := mergeText base local remote in
  Ok (match r with
      | None => unmerged base local remote
      | Some (out, conflicts, n) => mk_Result out conflicts (n =? 0)
      end).

(** [Binary.Merge], [ConflictFork.Merge] and [LastWriterWins.Merge]. *)
Definition ConflictFork_Merge (base local remote : bytes) : mresult Result := Ok (unmerged base local remote).
Definition Binary_Merge (base local remote : bytes) : mresult Result := Ok (unmerged base local remote).
Definition LastWriterWins_Merge (base local remote : bytes) : mresult Result := Ok (mk_Result remote [] true).

Definition IsText (z : bytes) : mresult bool :=
  let? r := breakIntoLines (toUTF8NoBOM z) in Ok (bool_decide (is_Some r)).

(** [HasConflictMarkers], from the start of a line: a marker that does not fit
    into the rest is none. *)
Fixpoint line_tail (z : bytes) : bytes :=
  match z with
  | c :: z' => if Byte.eqb c x0a then z else line_tail z'
  | [] => []
  end.

Fixpoint skip_ends (z : bytes) : bytes :=
  match z with
  | c :: z' => if Byte.eqb c x0a || Byte.eqb c x0d then skip_ends z' else z
  | [] => []
  end.

Definition starts_marker (z : bytes) : bool :=
  List.existsb (HasPrefix z) [markerBegin; markerSuggested; markerAncestor; markerMergedIn].

Fixpoint marker_loop (fuel : nat) (z : bytes) : bool :=
  match fuel with
  | O => false
  | S f => if len z <? markerLen then false else if starts_marker z then true else marker_loop f (skip_ends (line_tail z))
  end.

Definition HasConflictMarkers (z : bytes) : bool := marker_loop (S (length z)) z.
