(* ===== verification/Merge3Walk.v ===== *)
(** * The three-way merge: the walk over two edit vectors

    The walk never reads past a terminator, and when both vectors pass over the
    same pivot its steps account for every line of both versions. *)

From S2P Require Import Prelude GoStd GoText GoCrypto MergeDiff MergeTable MergeTriples MergeSlide Merge3.

(** ** Vectors *)

(** Triples before a terminator. *)
Definition vector (p : list triple) : Prop := Forall (fun t => nonneg t /\ is_zero t = false) p.

(** The lines of the version a vector passes over. *)
Definition reach (p : list triple) : Z := foldr (fun t n => t_copy t + t_ins t + n) 0 p.

(** Every triple but the first moves over the pivot. *)
Definition apart (p : list triple) : Prop := Forall (fun t => 0 < t_copy t + t_del t) (tl p).

Lemma is_zero_pos t : nonneg t -> is_zero t = false <-> 0 < t_copy t + t_del t + t_ins t.
Proof. intros (? & ? & ?). unfold is_zero. lia. Qed.

Lemma vector_nonneg p : vector p -> Forall nonneg p.
Proof. intros Hv. eapply Forall_impl; [exact Hv|]. by intros t []. Qed.

Lemma span_nonneg p : Forall nonneg p -> 0 <= span p.
Proof. induction 1 as [|t p (? & ? & ?) _ IH]; simpl; lia. Qed.

Lemma reach_nonneg p : Forall nonneg p -> 0 <= reach p.
Proof. induction 1 as [|t p (? & ? & ?) _ IH]; simpl; lia. Qed.

Lemma editsEnd_ok p q : vector p -> editsEnd (p ++ zero_triple :: q) = Ok (len p).
Proof.
  induction 1 as [|t p [_ Ht] _ IH]; [done|]. simpl. rewrite Ht, IH. simpl. f_equal. rewrite len_cons. done.
Qed.

Lemma apart_end p : vector p -> apart p -> span p = 0 -> p = [] \/ exists n, p = [mk_triple 0 0 n] /\ 0 < n.
Proof.
  intros Hv Ha Hs. destruct p as [|t p]; [by left|]. right. inversion Hv as [|? ? [Hn Hz] Hv']; subst.
  pose proof (span_nonneg p (vector_nonneg _ Hv')). destruct Hn as (? & ? & ?). simpl in Hs.
  destruct p as [|u p].
  - exists (t_ins t). rewrite is_zero_pos in Hz by done. destruct t; simpl in *. split; [|lia]. do 2 f_equal; lia.
  - inversion Ha as [|? ? Hu _]; subst. inversion Hv' as [|? ? [(? & ? & ?) _] Hv2]; subst.
    pose proof (span_nonneg p (vector_nonneg _ Hv2)). simpl in *. lia.
Qed.

(** ** The size of a conflict *)
Lemma endsWithCopy_ok p q sz : Forall nonneg p ->
  yields (endsWithCopy (p ++ zero_triple :: q) sz) (fun b => span p <= sz -> b = true).
Proof.
  intros Hp. revert sz. induction Hp as [|t p (N1 & N2 & N3) Hp IH]; intros sz; simpl.
  { by destruct (negb (sz >? 0)). }
  destruct (negb (sz >? 0)); [done|]. case_match; [done|]. rewrite Z.geb_leb. destruct (Z.leb_spec sz (t_copy t)); [done|].
  pose proof (span_nonneg p Hp). rewrite Z.gtb_ltb. destruct (Z.ltb_spec (sz - t_copy t) (t_del t)); [simpl; lia|].
  eapply yields_mono; [apply IH|]. intros b Hb Hs. apply Hb. lia.
Qed.

Lemma endsWithCopy_all p q sz : Forall nonneg p -> span p <= sz -> endsWithCopy (p ++ zero_triple :: q) sz = Ok true.
Proof. intros Hp Hs. destruct (proj1 (yields_ok _ _) (endsWithCopy_ok p q sz Hp)) as (b & -> & Hb). by rewrite Hb. Qed.

Lemma conflict_size_ok fuel p1 q1 p2 q2 sz n : Forall nonneg p1 -> Forall nonneg p2 ->
  span p1 <= n -> span p2 <= n -> sz <= n -> n - sz < Z.of_nat fuel ->
  yields (conflict_size fuel (p1 ++ zero_triple :: q1) (p2 ++ zero_triple :: q2) sz) (fun r =>
    sz <= r <= n /\ endsWithCopy (p1 ++ zero_triple :: q1) r = Ok true /\ endsWithCopy (p2 ++ zero_triple :: q2) r = Ok true).
Proof.
  intros H1 H2 S1 S2. revert sz. induction fuel as [|f IH]; intros sz Hsz Hf; [lia|]. cbn [conflict_size].
  destruct (proj1 (yields_ok _ _) (endsWithCopy_ok p1 q1 sz H1)) as (b1 & E1 & Hb1).
  destruct (proj1 (yields_ok _ _) (endsWithCopy_ok p2 q2 sz H2)) as (b2 & E2 & Hb2). rewrite E1. simpl.
  assert (Hnext : b1 && b2 = false -> yields (conflict_size f (p1 ++ zero_triple :: q1) (p2 ++ zero_triple :: q2) (sz + 1)) (fun r =>
    sz <= r <= n /\ endsWithCopy (p1 ++ zero_triple :: q1) r = Ok true /\ endsWithCopy (p2 ++ zero_triple :: q2) r = Ok true)).
  { intros Hb. destruct (Z.eq_dec sz n) as [->|]; [rewrite Hb1, Hb2 in Hb by lia; done|].
    eapply yields_mono; [apply IH; lia|]. intros r (? & ? & ?). split; [lia|done]. }
  destruct b1; simpl; [|by apply Hnext]. rewrite E2. simpl. destruct b2; [|by apply Hnext]. simpl. split; [lia|done].
Qed.

(** ** What is left of a vector *)

(** [p'] is left of [p] after [m] pivot lines and [n] lines of the version; its
    first triple may have become empty. *)
Record left_of (p p' : list triple) (m n : Z) : Prop := {
  lf_nonneg : Forall nonneg p'; lf_vector : vector (tl p'); lf_apart : apart p -> apart p';
  lf_span : span p' + m = span p; lf_reach : reach p' + n = reach p; lf_len : len p' <= len p }.

Lemma vector_tl p : vector p -> vector (tl p).
Proof. unfold vector. intros Hp. destruct Hp; [constructor|done]. Qed.

Lemma apart_tl p : apart p -> apart (tl p).
Proof. unfold apart. destruct p as [|t [|u p]]; try done. simpl. by inversion 1. Qed.

Lemma left_of_refl p : vector p -> left_of p p 0 0.
Proof. intros Hp. split; try done; try lia; [by apply vector_nonneg|by apply vector_tl]. Qed.

Lemma left_of_copy t p n : vector (t :: p) -> 0 <= n <= t_copy t ->
  left_of (t :: p) (set_copy t (t_copy t - n) :: p) n n.
Proof.
  inversion 1 as [|? ? [(? & ? & ?) _] Hp]; subst. intros Hn. split; simpl; try done; try lia.
  constructor; [unfold nonneg; simpl; lia|by apply vector_nonneg].
Qed.

Lemma left_of_next t p : vector (t :: p) -> left_of (t :: p) p (t_copy t + t_del t) (t_copy t + t_ins t).
Proof.
  inversion 1 as [|? ? _ Hp]; subst. split; try (simpl; lia); [by apply vector_nonneg|by apply vector_tl|apply apart_tl|].
  rewrite len_cons. lia.
Qed.

Lemma skipConflict_ok p q sz : vector p -> 0 <= sz -> endsWithCopy (p ++ zero_triple :: q) sz = Ok true ->
  yields (skipConflict (p ++ zero_triple :: q) sz) (fun '(r, k, ln) => exists p',
    r = p' ++ zero_triple :: q /\ len p' + k = len p /\ left_of p p' (Z.min sz (span p)) ln /\ 0 <= ln /\
    (0 < sz -> p <> [] -> span p' + len p' < span p + len p)).
Proof.
  intros Hp. revert sz. induction p as [|t p IH]; intros sz Hsz He.
  - simpl. destruct (negb (sz >? 0)); (exists []; split; [done|]; split; [done|]; split; [|by split]);
      (split; simpl; try done; lia).
  - pose proof (span_nonneg _ (vector_nonneg _ Hp)) as Hsn.
    inversion Hp as [|? ? [(N1 & N2 & N3) Hz] Hp']; subst. pose proof (span_nonneg _ (vector_nonneg _ Hp')).
    cbn [app skipConflict endsWithCopy] in *. rewrite Z.gtb_ltb in *. destruct (Z.ltb_spec 0 sz) as [Hpos|]; simpl negb in *; cbv iota in *.
    2: { replace sz with 0 by lia. exists (t :: p). split; [done|]. split; [lia|]. split; [|lia].
         rewrite Z.min_l by done. by apply left_of_refl. }
    assert (Hne : (t_copy t >? 0) || (t_del t >? 0) || (t_ins t >? 0) = true).
    { apply is_zero_pos in Hz; [|done]. lia. }
    rewrite Hz. rewrite Hne in He. cbn [negb] in He. rewrite Z.geb_leb in *. destruct (Z.leb_spec sz (t_copy t)) as [Hc|Hc].
    + exists (set_copy t (t_copy t - sz) :: p). split; [done|]. split; [rewrite !len_cons; lia|].
      simpl span in *. rewrite Z.min_l by lia. split; [apply left_of_copy; [done|lia]|]. rewrite !len_cons. simpl. split; [lia|]. intros; lia.
    + rewrite Z.gtb_ltb in He. destruct (Z.ltb_spec (sz - t_copy t) (t_del t)); [done|].
      apply yields_bind. eapply yields_mono.
      { apply (IH Hp' (sz - (t_copy t + t_del t))); [lia|]. by replace (sz - (t_copy t + t_del t)) with (sz - t_copy t - t_del t) by lia. }
      intros [[r k] ln] (p' & -> & Hk & [L1 L2 L3 L4 L5 L6] & Hln & Hdec). simpl. exists p'. split; [done|].
      rewrite !len_cons in *. split; [lia|]. split; [|split; [lia|intros; simpl in *; lia]].
      split; [done|done|intros Ha; by apply L3, (apart_tl (t :: p))|simpl; lia|simpl; lia|rewrite len_cons; lia].
Qed.

(** ** One pass of the loop *)
Definition holds (s : side) (p : list triple) : Prop := (exists q, sd_rest s = p ++ zero_triple :: q /\ Forall nonneg q) /\ sd_left s = len p.

Lemma left_of_trans p p' p'' m n m' n' : left_of p p' m n -> left_of p' p'' m' n' -> left_of p p'' (m + m') (n + n').
Proof. intros [A1 A2 A3 A4 A5 A6] [B1 B2 B3 B4 B5 B6]. split; try done; try lia. tauto. Qed.

(** What is left once an empty first triple is gone is a vector again. *)
Lemma skip_empty_ok s p p0 m n : holds s p -> left_of p0 p m n ->
  yields (skip_empty s) (fun s' => exists p', holds s' p' /\ vector p' /\ left_of p0 p' m n /\ len p' <= len p).
Proof.
  intros [(q & Hr & Hq) Hl] [L1 L2 L3 L4 L5 L6]. unfold skip_empty. rewrite Hl, Hr. destruct p as [|t p].
  { simpl. exists []. repeat split; try done. by exists q. }
  rewrite Z.gtb_ltb, (proj2 (Z.ltb_lt _ _)) by (rewrite len_cons; pose proof (len_nonneg p); lia). simpl.
  inversion L1 as [|? ? Hn Hp]; subst. simpl in L2. destruct (is_zero t) eqn:Ez.
  - exists p. assert (t_copy t = 0 /\ t_del t = 0 /\ t_ins t = 0) as (E1 & E2 & E3) by (unfold is_zero in Ez; lia).
    split; [split; [exists q; unfold next_triple; simpl; by rewrite Hr|unfold next_triple; simpl; rewrite Hl, len_cons; lia]|].
    split; [done|]. split; [|rewrite len_cons; lia]. simpl in *. rewrite len_cons in *.
    split; [done|by apply vector_tl|intros Ha; by apply (apart_tl (t :: p)), L3|lia|lia|lia].
  - exists (t :: p). split; [split; [by exists q|done]|]. split; [by constructor|]. split; [by split|lia].
Qed.

Section Step.
Context (v1 v2 : bytes) (at1 at2 : Z -> mresult Z) (U1 U2 : Z).

(** The offsets exist as far as the versions go. *)
Definition offsets (v : bytes) (at_ : Z -> mresult Z) (U : Z) : Prop :=
  forall u, 0 <= u <= U -> yields (at_ u) (fun o => 0 <= o <= len v).
Context (Hat1 : offsets v1 at1 U1) (Hat2 : offsets v2 at2 U2).

Lemma span_app p k : span (p ++ k) = span p + span k.
Proof. induction p as [|t p IH]; simpl; lia. Qed.

Lemma rest_at_ok v at_ U u : offsets v at_ U -> 0 <= u <= U -> yields (rest_at v at_ u) (fun _ => True).
Proof.
  intros Hat Hu. unfold rest_at. apply yields_bind. eapply yields_mono; [by apply Hat|]. intros o [Ho1 Ho2].
  by rewrite slice_of_ok by lia.
Qed.

Lemma lines_agree_ok fuel z1 z2 n : (length z1 < fuel)%nat -> yields (lines_agree fuel z1 z2 n) (fun _ => True).
Proof.
  revert z1 z2 n. induction fuel as [|f IH]; intros z1 z2 n Hf; [lia|]. cbn [lines_agree].
  destruct (negb _); [done|]. destruct z1 as [|c z1].
  { simpl. by rewrite orb_true_r. }
  simpl in Hf. destruct (_ || _); [destruct (_ || _); [done|]|]; apply IH; simpl; lia.
Qed.

Lemma sameEdit_ok t1 t2 z1 z2 : yields (sameEdit t1 t2 z1 z2) (fun b =>
  b = true -> t_copy t1 = t_copy t2 /\ t_del t1 = t_del t2 /\ t_ins t1 = t_ins t2 /\ sameLines z1 z2 (t_ins t1) = Ok true).
Proof.
  unfold sameEdit. case_match eqn:E; [done|]. zbool.
  assert (Hy : yields (sameLines z1 z2 (t_ins t1)) (fun _ => True)).
  { unfold sameLines. case_match; [done|]. apply lines_agree_ok. lia. }
  apply yields_ok in Hy as (b & -> & _). by intros ->.
Qed.

(** The text of an edit made by both versions, from the units [u1] and [u2]. *)
Definition both_ok (op : mergeOp) (u1 u2 : Z) : Prop := mo_kind op = opChngBoth -> nV1 op = nV2 op /\
  exists z1 z2, rest_at v1 at1 u1 = Ok z1 /\ rest_at v2 at2 u2 = Ok z2 /\ sameLines z1 z2 (nV1 op) = Ok true.

Fixpoint both_agree (ops : list mergeOp) (u1 u2 : Z) : Prop :=
  match ops with
  | [] => True
  | op :: ops => both_ok op u1 u2 /\ both_agree ops (u1 + nV1 op) (u2 + nV2 op)
  end.

(** What a pass does to both vectors. *)
Record step_ok (p1 p2 : list triple) (op : mergeOp) (p1' p2' : list triple) (m1 m2 : Z) : Prop := {
  st_left1 : left_of p1 p1' m1 (nV1 op); st_left2 : left_of p2 p2' m2 (nV2 op);
  st_nonneg : 0 <= nPivot op /\ 0 <= nV1 op /\ 0 <= nV2 op;
  st_pivot : (m1 = nPivot op /\ m2 = nPivot op /\ mo_kind op <> opConflict) \/
             (mo_kind op = opConflict /\ m1 = Z.min (nPivot op) (span p1) /\ m2 = Z.min (nPivot op) (span p2) /\
              1 <= nPivot op <= Z.max 1 (Z.max (span p1) (span p2)) /\
              span p1' + len p1' < span p1 + len p1 /\ span p2' + len p2' < span p2 + len p2);
  st_less : span p1' + span p2' + len p1' + len p2' < span p1 + span p2 + len p1 + len p2 }.

Lemma holds_copy s t p q n : sd_rest s = t :: p ++ zero_triple :: q -> Forall nonneg q -> sd_left s = len (t :: p) ->
  holds (mk_side (set_head_copy (sd_rest s) n) (sd_left s)) (set_copy t n :: p).
Proof. intros Hr Hq Hl. split; [exists q; simpl; by rewrite Hr|simpl; rewrite Hl; by rewrite !len_cons]. Qed.

Lemma holds_next s t p q : sd_rest s = t :: p ++ zero_triple :: q -> Forall nonneg q -> sd_left s = len (t :: p) -> holds (next_triple s) p.
Proof. intros Hr Hq Hl. split; [exists q; simpl; by rewrite Hr|simpl; rewrite Hl, len_cons; lia]. Qed.

Lemma walk_step_ok s1 s2 p1 p2 u1 u2 :
  holds s1 p1 -> holds s2 p2 -> vector p1 -> vector p2 -> p1 <> [] -> p2 <> [] -> 0 <= u1 <= U1 -> 0 <= u2 <= U2 ->
  yields (walk_step v1 v2 at1 at2 s1 s2 u1 u2) (fun '(op, s1', s2') => exists p1' p2' m1 m2,
    holds s1' p1' /\ holds s2' p2' /\ step_ok p1 p2 op p1' p2' m1 m2 /\ both_ok op u1 u2).
Proof using Hat1 Hat2.
  intros [(q1 & Hr1 & Hq1) Hl1] [(q2 & Hr2 & Hq2) Hl2] Hv1 Hv2 Hn1 Hn2 Hu1 Hu2.
  destruct p1 as [|a p1]; [done|]. destruct p2 as [|b p2]; [done|]. clear Hn1 Hn2.
  cbn [app] in *.
  pose proof Hv1 as Hv1'. pose proof Hv2 as Hv2'.
  inversion Hv1' as [|? ? [(A1 & A2 & A3) Az] Hp1]; subst. inversion Hv2' as [|? ? [(B1 & B2 & B3) Bz] Hp2]; subst.
  assert (Sa : 0 < t_copy a + t_del a + t_ins a) by by apply is_zero_pos.
  assert (Sb : 0 < t_copy b + t_del b + t_ins b) by by apply is_zero_pos.
  unfold walk_step. rewrite Hr1, Hr2. cbn [head_of obind].
  rewrite <- Hr1, <- Hr2.
  destruct ((t_copy a >? 0) && (t_copy b >? 0)) eqn:E1; rewrite ?Z.gtb_ltb, ?Z.geb_leb in *.
  { zbool. assert (Hn : 0 < Z.min (t_copy a) (t_copy b) <= t_copy a /\ Z.min (t_copy a) (t_copy b) <= t_copy b) by lia.
    set (n := Z.min (t_copy a) (t_copy b)) in *. clearbody n.
    exists (set_copy a (t_copy a - n) :: p1), (set_copy b (t_copy b - n) :: p2), n, n.
    split; [by eapply holds_copy|]. split; [by eapply holds_copy|]. split; [|done].
    split; [apply left_of_copy; [done|simpl; lia]|apply left_of_copy; [done|simpl; lia]|simpl; lia|by left|].
    rewrite !len_cons. simpl. lia. }
  destruct ((t_del b <=? t_copy a) && (0 <? t_copy a) && (0 <? t_del b + t_ins b)) eqn:E2.
  { zbool. assert (t_copy b = 0) by lia.
    exists (set_copy a (t_copy a - t_del b) :: p1), p2, (t_del b), (t_del b).
    split; [by eapply holds_copy|]. split; [by eapply holds_next|]. split; [|done].
    split; [apply left_of_copy; [done|simpl; lia]| |simpl; lia|by left|rewrite !len_cons; simpl; lia].
    pose proof (left_of_next b p2 Hv2) as Hn. replace (t_copy b) with 0 in Hn by lia. by rewrite !Z.add_0_l in Hn. }
  destruct ((t_del a <=? t_copy b) && (0 <? t_copy b) && (0 <? t_del a + t_ins a)) eqn:E3.
  { zbool. assert (t_copy a = 0) by lia.
    exists p1, (set_copy b (t_copy b - t_del a) :: p2), (t_del a), (t_del a).
    split; [by eapply holds_next|]. split; [by eapply holds_copy|]. split; [|done].
    split; [|apply left_of_copy; [done|simpl; lia]|simpl; lia|by left|rewrite !len_cons; simpl; lia].
    pose proof (left_of_next a p1 Hv1) as Hn. replace (t_copy a) with 0 in Hn by lia. by rewrite !Z.add_0_l in Hn. }
  destruct (proj1 (yields_ok _ _) (rest_at_ok v1 at1 U1 u1 Hat1 Hu1)) as (z1 & Ez1 & _). rewrite Ez1. cbn [obind].
  destruct (proj1 (yields_ok _ _) (rest_at_ok v2 at2 U2 u2 Hat2 Hu2)) as (z2 & Ez2 & _). rewrite Ez2. cbn [obind].
  apply yields_bind. eapply yields_mono; [apply sameEdit_ok|]. intros same Hsame. destruct same.
  - destruct (Hsame eq_refl) as (Q1 & Q2 & Q3 & Q4). assert (t_copy a = 0) as Ec by lia. rewrite Ec. simpl negb. cbv iota.
    exists p1, p2, (t_del a), (t_del a). split; [by eapply holds_next|]. split; [by eapply holds_next|].
    split; [|intros _; split; [done|]; by exists z1, z2].
    pose proof (left_of_next a p1 Hv1) as Hna. pose proof (left_of_next b p2 Hv2) as Hnb.
    rewrite <- Q1, <- Q2, <- Q3 in Hnb. rewrite Ec, !Z.add_0_l in *.
    pose proof (span_nonneg p1 (vector_nonneg _ Hp1)). pose proof (span_nonneg p2 (vector_nonneg _ Hp2)).
    split; [exact Hna|exact Hnb|simpl; lia|by left|rewrite !len_cons; simpl; lia].
  - clear Hsame Ez1 Ez2 z1 z2. rewrite Hr1, Hr2, !app_comm_cons.
    set (P1 := a :: p1) in *. set (P2 := b :: p2) in *.
    assert (M1 : P1 <> []) by done. assert (M2 : P2 <> []) by done. clearbody P1 P2. pose proof (vector_nonneg _ Hv1) as N1. pose proof (vector_nonneg _ Hv2) as N2.
    pose proof (span_nonneg _ N1) as S1. pose proof (span_nonneg _ N2) as S2.
    assert (S1' : span (P1 ++ zero_triple :: q1) >= span P1) by (rewrite span_app; simpl; pose proof (span_nonneg _ Hq1); lia).
    assert (S2' : span (P2 ++ zero_triple :: q2) >= span P2) by (rewrite span_app; simpl; pose proof (span_nonneg _ Hq2); lia).
    apply yields_bind. eapply yields_mono.
    { apply (conflict_size_ok _ _ _ _ _ 1 (Z.max 1 (Z.max (span P1) (span P2)))); try done; lia. }
    intros sz (Hsz & He1 & He2). clear E1 E2 E3 S1' S2'.
    apply yields_bind. eapply yields_mono; [apply skipConflict_ok; done || lia|].
    intros [[r1 k1] n1] (p1' & -> & Hk1 & Hlf1 & Hn1 & Hd1).
    apply yields_bind. eapply yields_mono; [apply skipConflict_ok; done || lia|].
    intros [[r2 k2] n2] (p2' & -> & Hk2 & Hlf2 & Hn2 & Hd2). simpl.
    exists p1', p2', (Z.min sz (span P1)), (Z.min sz (span P2)).
    split; [split; [by exists q1|simpl; lia]|]. split; [split; [by exists q2|simpl; lia]|]. split; [|done].
    specialize (Hd1 ltac:(lia) M1). specialize (Hd2 ltac:(lia) M2).
    split; [done|done|simpl; lia|right; simpl; split; [done|lia]|lia].
Qed.

(** ** The loop *)
Definition total (f : mergeOp -> Z) (ops : list mergeOp) : Z := foldr (fun op n => f op + n) 0 ops.

(** The steps pass over [P] pivot lines; a conflict at the very end, where both
    sides insert, counts one line more than there is. *)
Definition pivot_total (ops : list mergeOp) (P : Z) : Prop :=
  total nPivot ops = P \/
  (exists before op, ops = before ++ [op] /\ mo_kind op = opConflict /\ nPivot op = 1 /\ total nPivot before = P).

Definition accounts (ops : list mergeOp) (P R1 R2 : Z) : Prop :=
  pivot_total ops P /\ total nV1 ops = R1 /\ total nV2 ops = R2.

Definition op_nonneg (op : mergeOp) : Prop := 0 <= nPivot op /\ 0 <= nV1 op /\ 0 <= nV2 op.

Lemma accounts_end : accounts [] 0 0 0.
Proof using. split; [by left|done]. Qed.

Lemma holds_left s p : holds s p -> (sd_left s >? 0) = true <-> p <> [].
Proof using.
  intros [_ ->]. rewrite Z.gtb_lt. destruct p as [|t p]; [done|]. rewrite len_cons. pose proof (len_nonneg p). split; [done|lia].
Qed.

(** After the loop one vector is at its end. *)
Lemma walk_end_ok s1 s2 p1 p2 : holds s1 p1 -> holds s2 p2 -> vector p1 -> vector p2 -> p1 = [] \/ p2 = [] ->
  yields (let? n1 := if sd_left s1 >? 0 then let? t := head_of (sd_rest s1) in Ok (t_ins t) else Ok 0 in
          if n1 >? 0 then Ok [mk_mergeOp opChngV1 0 n1 0]
          else
            let? n2 := if sd_left s2 >? 0 then let? t := head_of (sd_rest s2) in Ok (t_ins t) else Ok 0 in
            Ok (if n2 >? 0 then [mk_mergeOp opChngV2 0 0 n2] else []) : mresult (list mergeOp)) (fun ops =>
    Forall op_nonneg ops /\ total nV1 ops <= reach p1 /\ total nV2 ops <= reach p2 /\ (p1 = [] -> p2 = [] -> ops = []) /\
    (span p1 = span p2 -> apart p1 -> apart p2 -> accounts ops (span p1) (reach p1) (reach p2)) /\
    (ops = [] \/ (exists n, ops = [mk_mergeOp opChngV1 0 n 0]) \/ (exists n, ops = [mk_mergeOp opChngV2 0 0 n]))).
Proof using.
  intros H1 H2 Hv1 Hv2 Hend.
  assert (R : forall s p, holds s p -> vector p -> yields (if sd_left s >? 0 then let? t := head_of (sd_rest s) in Ok (t_ins t) else Ok 0 : mresult Z)
      (fun n => 0 <= n <= reach p /\ (p = [] -> n = 0) /\ (span p = 0 -> apart p -> n = reach p))).
  { intros s p [(q & Hr & _) Hl] Hv. rewrite Hl, Hr. destruct p as [|t p]; [done|].
    rewrite (proj2 (Z.gtb_lt _ _)) by (rewrite len_cons; pose proof (len_nonneg p); lia). simpl.
    pose proof Hv as Hv'. inversion Hv' as [|? ? [(? & ? & ?) _] Hp]; subst. pose proof (reach_nonneg p (vector_nonneg _ Hp)).
    split; [lia|]. split; [done|]. intros Hs Ha. destruct (apart_end _ Hv Ha Hs) as [|(n & [= -> ->] & _)]; [done|]. simpl. lia. }
  pose proof (reach_nonneg p1 (vector_nonneg _ Hv1)). pose proof (reach_nonneg p2 (vector_nonneg _ Hv2)).
  apply yields_bind. eapply yields_mono; [by apply (R s1 p1)|]. intros n1 (N1 & E1 & F1).
  destruct (Z.gtb_spec n1 0).
  { assert (p2 = []) as -> by (destruct Hend as [ -> | ]; [specialize (E1 eq_refl); lia|done]). simpl.
    split; [by (apply Forall_singleton; unfold op_nonneg); simpl; lia|]. split; [simpl; lia|]. split; [done|].
    split; [intros ->; specialize (E1 eq_refl); lia|]. split; [|eauto]. intros Hs Ha _. simpl in Hs.
    rewrite (F1 Hs Ha), Hs. split; [by left|]. simpl. lia. }
  apply yields_bind. eapply yields_mono; [by apply (R s2 p2)|]. intros n2 (N2 & E2 & F2). simpl.
  destruct (Z.gtb_spec n2 0).
  - assert (p1 = []) as -> by (destruct Hend as [ | -> ]; [done|specialize (E2 eq_refl); lia]).
    split; [by (apply Forall_singleton; unfold op_nonneg); simpl; lia|]. split; [done|]. split; [simpl; lia|].
    split; [intros _ ->; specialize (E2 eq_refl); lia|]. split; [|eauto]. intros Hs _ Ha. simpl in Hs.
    rewrite <- (F2 (eq_sym Hs) Ha). simpl. split; [by left|]. simpl. lia.
  - split; [done|]. split; [done|]. split; [done|]. split; [done|]. split; [|by left]. intros Hs Ha1 Ha2.
    assert (span p1 = 0) as Hz by (destruct Hend as [-> | ->]; [done|by rewrite Hs]).
    assert (n1 = reach p1) by by apply F1. assert (n2 = reach p2) by (apply F2; [by rewrite <- Hs|done]).
    replace (reach p1) with 0 by lia. replace (reach p2) with 0 by lia. rewrite Hz. apply accounts_end.
Qed.

Lemma accounts_cons op ops P P' R1 R2 R1' R2' :
  accounts ops P' R1' R2' -> nPivot op + P' = P -> nV1 op + R1' = R1 -> nV2 op + R2' = R2 -> accounts (op :: ops) P R1 R2.
Proof using.
  intros (Hp & <- & <-) <- <- <-. split; [|done]. destruct Hp as [Hp|(before & c & -> & Hk & Hn & Hp)].
  - left. simpl. by rewrite Hp.
  - right. exists (op :: before), c. split; [done|]. split; [done|]. split; [done|]. simpl. by rewrite Hp.
Qed.

Lemma walk_loop_ok fuel s1 s2 p1 p2 u1 u2 :
  holds s1 p1 -> holds s2 p2 -> vector p1 -> vector p2 ->
  0 <= u1 -> u1 + reach p1 <= U1 -> 0 <= u2 -> u2 + reach p2 <= U2 ->
  span p1 + span p2 + len p1 + len p2 < Z.of_nat fuel ->
  yields (walk_loop v1 v2 at1 at2 fuel s1 s2 u1 u2) (fun ops =>
    Forall op_nonneg ops /\ total nV1 ops <= reach p1 /\ total nV2 ops <= reach p2 /\ (p1 = [] -> p2 = [] -> ops = []) /\
    (span p1 = span p2 -> apart p1 -> apart p2 -> accounts ops (span p1) (reach p1) (reach p2)) /\ both_agree ops u1 u2).
Proof using Hat1 Hat2.
  revert s1 s2 p1 p2 u1 u2. induction fuel as [|f IH]; intros s1 s2 p1 p2 u1 u2 H1 H2 Hv1 Hv2 Hu1 Hr1 Hu2 Hr2 Hf.
  { pose proof (span_nonneg p1 (vector_nonneg _ Hv1)). pose proof (span_nonneg p2 (vector_nonneg _ Hv2)). len_lia. }
  cbn [walk_loop]. pose proof (reach_nonneg p1 (vector_nonneg _ Hv1)). pose proof (reach_nonneg p2 (vector_nonneg _ Hv2)).
  destruct ((sd_left s1 >? 0) && (sd_left s2 >? 0)) eqn:E.
  2: { eapply yields_mono; [apply (walk_end_ok s1 s2 p1 p2); try done|].
       2: { intros ops (? & ? & ? & ? & ? & Hends). split_and!; try done. by destruct Hends as [-> | [(n & ->) | (n & ->)]]. }
       rewrite andb_false_iff in E.
       destruct p1 as [|t1 p1]; [by left|]. destruct p2 as [|t2 p2]; [by right|].
       rewrite (proj2 (holds_left _ _ H1)), (proj2 (holds_left _ _ H2)) in E by done. by destruct E. }
  apply andb_true_iff in E as [N1 N2]. rewrite (holds_left _ _ H1) in N1. rewrite (holds_left _ _ H2) in N2.
  apply yields_bind. eapply yields_mono; [by apply (walk_step_ok s1 s2 p1 p2); try done; lia|].
  intros [[op s1'] s2'] (p1' & p2' & m1 & m2 & Hh1 & Hh2 & [L1 L2 Hnn Hp Hless] & Hboth).
  apply yields_bind. eapply yields_mono; [by eapply skip_empty_ok|]. intros t1 (k1 & Hk1 & Hw1 & M1 & Le1).
  apply yields_bind. eapply yields_mono; [by eapply skip_empty_ok|]. intros t2 (k2 & Hk2 & Hw2 & M2 & Le2).
  pose proof (lf_span _ _ _ _ L1). pose proof (lf_span _ _ _ _ L2). pose proof (lf_span _ _ _ _ M1). pose proof (lf_span _ _ _ _ M2).
  pose proof (lf_reach _ _ _ _ M1). pose proof (lf_reach _ _ _ _ M2).
  apply yields_bind. eapply yields_mono; [apply (IH t1 t2 k1 k2); try done; lia|].
  intros ops (Hops & T1 & T2 & Hnil & Hacc & Hag). simpl. split; [by constructor|]. split; [lia|]. split; [lia|]. split; [done|].
  split; [|by split].
  intros Hs Ha1 Ha2. assert (Hm : m1 = m2) by (destruct Hp as [(-> & -> & _)|(_ & -> & -> & _)]; [done|lia]).
  specialize (Hacc ltac:(lia) (lf_apart _ _ _ _ M1 Ha1) (lf_apart _ _ _ _ M2 Ha2)).
  destruct (Z.eq_dec m1 (nPivot op)) as [Em|Em]; [eapply accounts_cons; [exact Hacc|lia..]|].
  destruct Hp as [(-> & _ & _)|(Hk & Hm1 & Hm2 & Hsz & Hl1 & Hl2)]; [done|].
  (* a conflict at the end: nothing is left of either vector *)
  pose proof (span_nonneg p1 (vector_nonneg _ Hv1)).
  assert (span p1 = 0 /\ nPivot op = 1) as [Hz Hone] by lia.
  assert (Hk0 : forall p k, p <> [] -> vector p -> vector k -> apart p -> span p = 0 -> len k < len p -> k = []).
  { intros p k Hne Hv _ Ha Hp0 Hlt. destruct (apart_end _ Hv Ha Hp0) as [->|(n & -> & _)]; [done|].
    apply len_zero. rewrite len_cons, len_nil in Hlt. pose proof (len_nonneg k). lia. }
  pose proof (span_nonneg _ (lf_nonneg _ _ _ _ L1)). pose proof (span_nonneg _ (lf_nonneg _ _ _ _ L2)).
  assert (k1 = []) as -> by (apply (Hk0 p1); try done; lia). assert (k2 = []) as -> by (apply (Hk0 p2); try done; lia).
  specialize (Hnil eq_refl eq_refl). subst ops. destruct Hacc as (_ & E1 & E2). simpl in E1, E2.
  split; [|simpl in *; lia]. right. exists [], op. rewrite Hz. done.
Qed.
End Step.

(** * The three-way merge: exchanging the two versions

    The walk treats the versions alike: with the vectors exchanged it makes the
    same steps with V1 and V2 exchanged. *)

Definition mirror_kind (k : opKind) : opKind := match k with opChngV1 => opChngV2 | opChngV2 => opChngV1 | _ => k end.
Definition mirror (op : mergeOp) : mergeOp := mk_mergeOp (mirror_kind (mo_kind op)) (nPivot op) (nV2 op) (nV1 op).

Lemma mirror_conflict op : is_conflict (mirror op) = is_conflict op.
Proof. by destruct op as [[] ? ? ?]. Qed.

Lemma filter_mirror ops : len (List.filter is_conflict (map mirror ops)) = len (List.filter is_conflict ops).
Proof.
  induction ops as [|op ops IH]; [done|]. simpl. rewrite mirror_conflict. destruct (is_conflict op); [by rewrite !len_cons, IH|done].
Qed.

Lemma lines_agree_sym f1 f2 z1 z2 n : (length z1 < f1)%nat -> (length z2 < f2)%nat ->
  lines_agree f1 z1 z2 n = lines_agree f2 z2 z1 n.
Proof.
  revert f2 z1 z2 n. induction f1 as [|f1 IH]; intros f2 z1 z2 n H1 H2; [lia|]. destruct f2 as [|f2]; [lia|].
  cbn [lines_agree]. destruct (Byte.eqb (byte_at z1) (byte_at z2)) eqn:E.
  - apply byte_eqb_eq in E. rewrite E, byte_eqb_refl. simpl.
    assert (Hnext : byte_at z2 <> x00 -> (length (tl z1) < f1)%nat /\ (length (tl z2) < f2)%nat).
    { destruct z1 as [|c1 z1]; [by rewrite <- E|]. destruct z2 as [|c2 z2]; [done|]. simpl in *. lia. }
    destruct (Byte.eqb (byte_at z2) x00) eqn:E0; [by rewrite !orb_true_r|]. apply byte_eqb_neq in E0. destruct (Hnext E0).
    rewrite !orb_false_r. repeat case_match; try done; by apply IH.
  - assert (Byte.eqb (byte_at z2) (byte_at z1) = false) as ->; [|done].
    apply byte_eqb_neq. apply byte_eqb_neq in E. congruence.
Qed.

Lemma sameEdit_sym t1 t2 z1 z2 : sameEdit t1 t2 z1 z2 = sameEdit t2 t1 z2 z1.
Proof.
  unfold sameEdit. rewrite (Z.eqb_sym (t_copy t2)), (Z.eqb_sym (t_del t2)), (Z.eqb_sym (t_ins t2)).
  destruct (_ || _ || _) eqn:E; [done|]. zbool. unfold sameLines. rewrite <- H0. case_match; [done|]. apply lines_agree_sym; lia.
Qed.

Lemma conflict_size_sym fuel p1 q1 p2 q2 sz : Forall nonneg p1 -> Forall nonneg p2 ->
  conflict_size fuel (p1 ++ zero_triple :: q1) (p2 ++ zero_triple :: q2) sz =
  conflict_size fuel (p2 ++ zero_triple :: q2) (p1 ++ zero_triple :: q1) sz.
Proof.
  intros H1 H2. revert sz. induction fuel as [|f IH]; intros sz; [done|]. cbn [conflict_size].
  destruct (proj1 (yields_ok _ _) (endsWithCopy_ok p1 q1 sz H1)) as (b1 & -> & _).
  destruct (proj1 (yields_ok _ _) (endsWithCopy_ok p2 q2 sz H2)) as (b2 & -> & _). simpl. destruct b1, b2; simpl; done || apply IH.
Qed.

Lemma skipConflict_total p q sz : yields (skipConflict (p ++ zero_triple :: q) sz) (fun _ => True).
Proof.
  revert sz. induction p as [|t p IH]; intros sz; simpl; [by destruct (negb _)|].
  repeat (case_match; [done|]). apply yields_bind. eapply yields_mono; [apply IH|]. by intros [[r k] ln].
Qed.

Section Mirror.
Context (v1 v2 : bytes) (at1 at2 : Z -> mresult Z) (U1 U2 : Z).
Context (Hat1 : offsets v1 at1 U1) (Hat2 : offsets v2 at2 U2).

Definition swap_step (r : mergeOp * side * side) : mergeOp * side * side := let '(op, s1, s2) := r in (mirror op, s2, s1).

(** A call's answer, rearranged. *)
Definition omap {A B} (f : A -> B) (m : mresult A) : mresult B := let? a := m in Ok (f a).

Lemma walk_step_mirror s1 s2 p1 p2 u1 u2 :
  holds s1 p1 -> holds s2 p2 -> vector p1 -> vector p2 -> p1 <> [] -> p2 <> [] -> 0 <= u1 <= U1 -> 0 <= u2 <= U2 ->
  walk_step v2 v1 at2 at1 s2 s1 u2 u1 = omap swap_step (walk_step v1 v2 at1 at2 s1 s2 u1 u2).
Proof using Hat1 Hat2.
  intros [(q1 & Hr1 & _) _] [(q2 & Hr2 & _) _] Hv1 Hv2 Hn1 Hn2 Hu1 Hu2.
  destruct p1 as [|a p1]; [done|]. destruct p2 as [|b p2]; [done|]. clear Hn1 Hn2.
  pose proof (vector_nonneg _ Hv1) as N1. pose proof (vector_nonneg _ Hv2) as N2.
  unfold walk_step. rewrite Hr1, Hr2. cbn [app head_of obind]. rewrite <- !app_comm_cons in Hr1, Hr2. rewrite <- Hr1, <- Hr2.
  rewrite (andb_comm (t_copy b >? 0)), (Z.min_comm (t_copy b)). rewrite !Z.gtb_ltb, !Z.geb_leb.
  destruct ((0 <? t_copy a) && (0 <? t_copy b)) eqn:E1; [done|].
  destruct ((t_del b <=? t_copy a) && (0 <? t_copy a) && (0 <? t_del b + t_ins b)) eqn:E2.
  { assert ((t_del a <=? t_copy b) && (0 <? t_copy b) && (0 <? t_del a + t_ins a) = false) as -> by lia. done. }
  destruct ((t_del a <=? t_copy b) && (0 <? t_copy b) && (0 <? t_del a + t_ins a)) eqn:E3; [done|].
  destruct (proj1 (yields_ok _ _) (rest_at_ok v1 at1 U1 u1 Hat1 Hu1)) as (z1 & -> & _).
  destruct (proj1 (yields_ok _ _) (rest_at_ok v2 at2 U2 u2 Hat2 Hu2)) as (z2 & -> & _). cbn [obind].
  rewrite (sameEdit_sym b a).
  destruct (proj1 (yields_ok _ _) (sameEdit_ok a b z1 z2)) as (same & -> & Hsame). cbn [obind]. destruct same.
  - destruct (Hsame eq_refl) as (-> & -> & -> & _). by destruct (t_copy b =? 0).
  - rewrite Hr1, Hr2, !app_comm_cons. rewrite (conflict_size_sym _ _ _ _ _ _ N2 N1), (Z.add_comm (span _)).
    unfold omap. destruct (conflict_size _ _ _ _) as [sz| | |]; cbn [obind]; try done.
    destruct (proj1 (yields_ok _ _) (skipConflict_total (a :: p1) q1 sz)) as ([[r1 k1] n1] & -> & _).
    destruct (proj1 (yields_ok _ _) (skipConflict_total (b :: p2) q2 sz)) as ([[r2 k2] n2] & -> & _). done.
Qed.

Lemma skip_empty_holds s p : holds s p -> vector (tl p) -> Forall nonneg p ->
  yields (skip_empty s) (fun s' => exists p', holds s' p' /\ vector p' /\ len p' <= len p /\ span p' = span p /\ reach p' = reach p).
Proof using.
  intros Hh Hv Hn. eapply yields_mono; [eapply (skip_empty_ok s p p 0 0); [done|]|].
  - split; try done; lia.
  - intros s' (p' & ? & ? & [? ? ? ? ?] & ?). exists p'. split_and!; try done; lia.
Qed.

Lemma walk_loop_mirror fuel s1 s2 p1 p2 u1 u2 :
  holds s1 p1 -> holds s2 p2 -> vector p1 -> vector p2 ->
  0 <= u1 -> u1 + reach p1 <= U1 -> 0 <= u2 -> u2 + reach p2 <= U2 ->
  walk_loop v2 v1 at2 at1 fuel s2 s1 u2 u1 = omap (map mirror) (walk_loop v1 v2 at1 at2 fuel s1 s2 u1 u2).
Proof using Hat1 Hat2.
  revert s1 s2 p1 p2 u1 u2. induction fuel as [|f IH]; intros s1 s2 p1 p2 u1 u2 H1 H2 Hv1 Hv2 Hu1 Hr1 Hu2 Hr2; [done|].
  cbn [walk_loop]. rewrite (andb_comm (sd_left s2 >? 0)).
  pose proof (reach_nonneg p1 (vector_nonneg _ Hv1)). pose proof (reach_nonneg p2 (vector_nonneg _ Hv2)).
  destruct ((sd_left s1 >? 0) && (sd_left s2 >? 0)) eqn:E.
  - apply andb_true_iff in E as [N1 N2]. rewrite (holds_left _ _ H1) in N1. rewrite (holds_left _ _ H2) in N2.
    rewrite (walk_step_mirror s1 s2 p1 p2) by (done || lia).
    destruct (proj1 (yields_ok _ _) (walk_step_ok v1 v2 at1 at2 U1 U2 Hat1 Hat2 s1 s2 p1 p2 u1 u2 H1 H2 Hv1 Hv2 N1 N2 ltac:(lia) ltac:(lia)))
      as ([[op t1] t2] & -> & p1' & p2' & m1 & m2 & Hh1 & Hh2 & [L1 L2 Hnn _ _] & _). simpl.
    destruct (proj1 (yields_ok _ _) (skip_empty_holds t1 p1' Hh1 (lf_vector _ _ _ _ L1) (lf_nonneg _ _ _ _ L1))) as (w1 & -> & k1 & Hk1 & Kv1 & _ & _ & Kr1).
    destruct (proj1 (yields_ok _ _) (skip_empty_holds t2 p2' Hh2 (lf_vector _ _ _ _ L2) (lf_nonneg _ _ _ _ L2))) as (w2 & -> & k2 & Hk2 & Kv2 & _ & _ & Kr2).
    simpl. pose proof (lf_reach _ _ _ _ L1). pose proof (lf_reach _ _ _ _ L2).
    rewrite (IH w1 w2 k1 k2) by (done || lia). by destruct (walk_loop v1 v2 at1 at2 f w1 w2 _ _).
  - pose proof H1 as [(q1 & Hq1 & _) _]. pose proof H2 as [(q2 & Hq2 & _) _].
    destruct p1 as [|a p1]; [|destruct p2 as [|b p2]].
    + destruct H1 as [_ Hl1]. rewrite Hl1. simpl. destruct (sd_left s2 >? 0); [|done].
      destruct (head_of (sd_rest s2)); simpl; try done. by destruct (t_ins a >? 0).
    + destruct H2 as [_ Hl2]. rewrite Hl2. simpl. destruct (sd_left s1 >? 0); [|done].
      destruct (head_of (sd_rest s1)); simpl; try done. by destruct (t_ins a0 >? 0).
    + rewrite (proj2 (holds_left _ _ H1)), (proj2 (holds_left _ _ H2)) in E by done. done.
Qed.

Lemma walkEdits_mirror p1 q1 p2 q2 : vector p1 -> vector p2 -> Forall nonneg q1 -> Forall nonneg q2 ->
  reach p1 <= U1 -> reach p2 <= U2 ->
  walkEdits v2 v1 at2 at1 (p2 ++ zero_triple :: q2) (p1 ++ zero_triple :: q1) =
  omap (fun r => (map mirror (fst r), snd r)) (walkEdits v1 v2 at1 at2 (p1 ++ zero_triple :: q1) (p2 ++ zero_triple :: q2)).
Proof using Hat1 Hat2.
  intros Hv1 Hv2 Hq1 Hq2 Hr1 Hr2. unfold walkEdits. rewrite !editsEnd_ok by done. cbn [obind].
  rewrite (walk_loop_mirror _ (mk_side (p1 ++ zero_triple :: q1) (len p1)) (mk_side (p2 ++ zero_triple :: q2) (len p2)) p1 p2);
    try done; try lia; try (split; [by eexists|done]).
  replace (span (p2 ++ zero_triple :: q2) + span (p1 ++ zero_triple :: q1) + len (p2 ++ zero_triple :: q2) + len (p1 ++ zero_triple :: q1))
    with (span (p1 ++ zero_triple :: q1) + span (p2 ++ zero_triple :: q2) + len (p1 ++ zero_triple :: q1) + len (p2 ++ zero_triple :: q2)) by lia.
  destruct (walk_loop v1 v2 at1 at2 _ _ _ 0 0) as [ops| | |]; simpl; try done.
  by rewrite filter_mirror.
Qed.
End Mirror.

(** * The three-way merge: texts as lists of lines

    Reading a terminated text through a cursor is taking lines off its list of
    lines, and the text builder refines a builder on lists of lines. *)

Definition line_like (l : bytes) : Prop := x0a ∉ l.

Lemma line_like_cons c l : line_like (c :: l) <-> Byte.eqb c x0a = false /\ line_like l.
Proof. unfold line_like. rewrite not_elem_of_cons, byte_eqb_neq. naive_solver. Qed.

Lemma lines_of_line_like z : Forall line_like (lines_of z).
Proof.
  induction z as [|c z IH]; [constructor|]. simpl. destruct (Byte.eqb c x0a) eqn:E.
  - constructor; [apply not_elem_of_nil|done].
  - destruct (lines_of z) as [|l ls].
    + apply Forall_singleton, line_like_cons. split; [done|apply not_elem_of_nil].
    + inversion IH; subst. constructor; [|done]. by apply line_like_cons.
Qed.

Lemma unlines_cons l ls : unlines (l :: ls) = l ++ x0a :: unlines ls.
Proof. unfold unlines. simpl. by rewrite <- app_assoc. Qed.

Lemma unlines_app k ls : unlines (k ++ ls) = unlines k ++ unlines ls.
Proof. unfold unlines. by rewrite map_app, concat_app. Qed.

Lemma lines_of_unlines ls : Forall line_like ls -> lines_of (unlines ls) = ls.
Proof.
  induction 1 as [|l ls Hl _ IH]; [done|]. rewrite unlines_cons.
  induction l as [|c l IHl]; simpl; [by rewrite IH|]. apply line_like_cons in Hl as [-> Hl]. by rewrite IHl.
Qed.

(** ** Cursors *)

(** The lines [ls] are left of a text. *)
Definition at_line (b : cursorBlob) (ls : list bytes) : Prop := drop (cur b) (data b) = unlines ls /\ Forall line_like ls.

Lemma lines_len_line l z n : line_like l -> lines_len (l ++ x0a :: z) n = Nat.add (length l) (if n =? 1 then 1%nat else S (lines_len z (n - 1))).
Proof.
  induction l as [|c l IH]; intros Hl; simpl; [by destruct (n =? 1)|]. apply line_like_cons in Hl as [-> Hl]. by rewrite IH.
Qed.

Lemma lines_len_unlines ls n : Forall line_like ls -> 1 <= n -> lines_len (unlines ls) n = length (unlines (take (Z.to_nat n) ls)).
Proof.
  intros Hls. revert n. induction Hls as [|l ls Hl Hls IH]; intros n Hn.
  { by rewrite take_nil. }
  rewrite unlines_cons, lines_len_line by done. destruct (Z.eqb_spec n 1) as [->|].
  - change (Z.to_nat 1) with 1%nat. rewrite firstn_cons, unlines_cons, length_app. done.
  - rewrite IH by lia. replace (Z.to_nat n) with (S (Z.to_nat (n - 1))) by lia.
    rewrite firstn_cons, unlines_cons, length_app. simpl. lia.
Qed.

Lemma copyLines_ok b ls n : at_line b ls -> 0 <= n ->
  exists b', copyLines b n = (unlines (take (Z.to_nat n) ls), b') /\ at_line b' (drop (Z.to_nat n) ls).
Proof.
  intros [Hd Hls] Hn. unfold copyLines. destruct (Z.eqb_spec n 0) as [->|].
  { exists b. rewrite drop_0. done. }
  rewrite Hd, lines_len_unlines by (done || lia).
  assert (Hsplit : unlines ls = unlines (take (Z.to_nat n) ls) ++ unlines (drop (Z.to_nat n) ls)) by by rewrite <- unlines_app, take_drop.
  eexists. split.
  - rewrite Hsplit at 1. by rewrite take_app_length.
  - split; [|by apply Forall_drop]. simpl. rewrite <- drop_drop, Hd, Hsplit. by rewrite drop_app_length.
Qed.

(** ** The builder on lines *)
Fixpoint line_ops (ops : list mergeOp) (P L1 L2 : list bytes) : list bytes :=
  match ops with
  | [] => []
  | op :: ops =>
      match mo_kind op with
      | opSame => take (Z.to_nat (nPivot op)) P
      | opChngV1 => take (Z.to_nat (nV1 op)) L1
      | _ => take (Z.to_nat (nV2 op)) L2
      end ++ line_ops ops (drop (Z.to_nat (nPivot op)) P) (drop (Z.to_nat (nV1 op)) L1) (drop (Z.to_nat (nV2 op)) L2)
  end.

Lemma copy_op_ok m src op P L1 L2 : at_line (m_pivot m) P -> at_line (m_v1 m) L1 -> at_line (m_v2 m) L2 -> op_nonneg op ->
  let m' := copy_op m src op in
  at_line (m_pivot m') (drop (Z.to_nat (nPivot op)) P) /\ at_line (m_v1 m') (drop (Z.to_nat (nV1 op)) L1) /\
  at_line (m_v2 m') (drop (Z.to_nat (nV2 op)) L2) /\ m_conflicts m' = m_conflicts m /\
  m_out m' = m_out m ++ unlines (match src with
    | from_pivot => take (Z.to_nat (nPivot op)) P | from_v1 => take (Z.to_nat (nV1 op)) L1 | from_v2 => take (Z.to_nat (nV2 op)) L2 end).
Proof.
  intros HP H1 H2 (NP & N1 & N2). unfold copy_op.
  destruct (copyLines_ok _ _ _ HP NP) as (bP & -> & AP), (copyLines_ok _ _ _ H1 N1) as (b1 & -> & A1), (copyLines_ok _ _ _ H2 N2) as (b2 & -> & A2).
  simpl. split_and!; try done. by destruct src.
Qed.

Lemma apply_all_ok ops m P L1 L2 : at_line (m_pivot m) P -> at_line (m_v1 m) L1 -> at_line (m_v2 m) L2 ->
  Forall op_nonneg ops -> List.filter is_conflict ops = [] ->
  yields (apply_all m ops) (fun m' => m_out m' = m_out m ++ unlines (line_ops ops P L1 L2) /\ m_conflicts m' = m_conflicts m).
Proof.
  intros HP H1 H2 Hn. revert m P L1 L2 HP H1 H2. induction Hn as [|op ops Hop _ IH]; intros m P L1 L2 HP H1 H2 Hc.
  { simpl. by rewrite app_nil_r. }
  simpl in Hc. destruct (is_conflict op) eqn:Ec; [done|]. cbn [apply_all]. unfold apply_op.
  assert (Hsrc : exists src, (match mo_kind op with
       | opSame => Ok (copy_op m from_pivot op) | opChngV1 => Ok (copy_op m from_v1 op)
       | opChngV2 | opChngBoth => Ok (copy_op m from_v2 op) | opConflict => conflict m (nPivot op) (nV1 op) (nV2 op) end) = Ok (copy_op m src op) /\
     match mo_kind op with opSame => take (Z.to_nat (nPivot op)) P | opChngV1 => take (Z.to_nat (nV1 op)) L1 | _ => take (Z.to_nat (nV2 op)) L2 end
     = match src with from_pivot => take (Z.to_nat (nPivot op)) P | from_v1 => take (Z.to_nat (nV1 op)) L1 | from_v2 => take (Z.to_nat (nV2 op)) L2 end).
  { unfold is_conflict in Ec. destruct (mo_kind op); [exists from_pivot|exists from_v1|exists from_v2|exists from_v2|]; done. }
  destruct Hsrc as (src & -> & Hpart). cbn [obind line_ops]. rewrite Hpart.
  destruct (copy_op_ok m src op P L1 L2 HP H1 H2 Hop) as (AP & A1 & A2 & Hcf & Hout).
  set (m1 := copy_op m src op) in *. clearbody m1.
  eapply yields_mono; [by apply (IH (mk_textMerger (m_pivot m1) (m_v1 m1) (m_v2 m1) (m_out m1) (m_useCRLF m1)
     (m_lnPivot m1 + nPivot op) (m_lnV1 m1 + nV1 op) (m_lnV2 m1 + nV2 op) (m_conflicts m1)) _ _ _ AP A1 A2)|].
  simpl. intros m' [-> ->]. rewrite Hout, Hcf, unlines_app, app_assoc. done.
Qed.
