(* ===== verification/Merge3Correct.v ===== *)
(** * The three-way merge: correctness

    Over texts of complete lines: a version merged with an unchanged one is
    itself, a clean merge does not depend on which version is local, and the
    cases in which text is lost. *)

From S2P Require Import Prelude GoStd GoText GoCrypto MergeDiff MergeTable MergeLcs MergeTriples MergeSlide Merge3 Merge3Walk.

(** ** Texts *)

(** UTF-8 text without a byte order mark, of complete lines, none too long. *)
Record mergeable (z : bytes) : Prop := {
  mg_plain : toUTF8NoBOM z = z; mg_text : is_text z = true; mg_end : terminated z = true }.

Lemma mergeable_no_bom z : mergeable z -> HasPrefix z utf8BOM = false.
Proof.
  intros [Hp _ _]. destruct (HasPrefix z utf8BOM) eqn:E; [|done]. unfold toUTF8NoBOM in Hp. rewrite E in Hp.
  apply HasPrefix_spec in E as [t ->]. rewrite (drop_app_length utf8BOM t : drop 3 _ = t) in Hp.
  apply (f_equal length) in Hp. rewrite length_app in Hp. change (length utf8BOM) with 3%nat in Hp.
  destruct (IndexByte t x00) as [k|]; [rewrite length_take in Hp|]; lia.
Qed.

Lemma valid_span R e i j i' j' : valid R e i j i' j' -> i + span e = i' /\ j + reach e = j'.
Proof.
  revert i j. induction e as [|t e IH]; intros i j; simpl; [lia|]. intros (_ & _ & Hv). apply IH in Hv. lia.
Qed.

Lemma valid_forall R e i j i' j' : valid R e i j i' j' -> Forall nonneg e.
Proof. revert i j. induction e as [|t e IH]; intros i j; simpl; [done|]. intros (? & _ & Hv). constructor; [done|by eapply IH]. Qed.

(** A list of triples as the walk sees it: up to its first empty triple. *)
Record diff_of (A B : list bytes) (full p q : list triple) : Prop := {
  do_full : full = p ++ zero_triple :: q; do_rest : Forall nonneg q; do_vector : vector p;
  do_valid : valid (line_same A B) p 0 0 (len A) (len B) }.

Lemma diff_of_span A B full p q : diff_of A B full p q -> span p = len A /\ reach p = len B.
Proof. intros [_ _ _ Hv]. apply valid_span in Hv. lia. Qed.

Lemma edit_vector A B e : line_edit A B e -> exists p q, diff_of A B (e ++ [zero_triple]) p q.
Proof.
  intros [Hv Hs]. destruct e as [|l e] using rev_ind; [exists [], []; split; [done|constructor|constructor|done]|]. clear IHe.
  pose proof (valid_forall _ _ _ _ _ _ Hv) as Hnn. apply Forall_app in Hnn as [Hn [Hl _]%Forall_cons].
  assert (He : vector e).
  { apply Forall_forall. intros t Ht. split; [rewrite Forall_forall in Hn; by apply Hn|]. apply list_elem_of_split in Ht as (e1 & e2 & ->).
    assert (edits t) as Hed.
    { eapply Hs; [by rewrite <- app_assoc, <- app_comm_cons|by destruct e2]. }
    apply Forall_app in Hn as [_ [(? & ? & ?) _]%Forall_cons]. unfold edits, is_zero in *. lia. }
  destruct (is_zero l) eqn:Ez.
  - assert (l = zero_triple) as ->.
    { destruct l as [x y z]. unfold is_zero in Ez. simpl in Ez. unfold zero_triple. f_equal; lia. }
    exists e, [zero_triple]. split; [by rewrite <- app_assoc|by apply Forall_singleton|done|].
    apply valid_app in Hv as (x & y & Hv & Hz). apply valid_singleton in Hz as (_ & _ & E1 & E2). simpl in E1, E2.
    rewrite !Z.add_0_r in *. by subst.
  - exists (e ++ [l]), []. split; [done|done| |done]. apply Forall_app. split; [done|]. by apply Forall_singleton.
Qed.

Lemma textDiff_mergeable a b : mergeable a -> mergeable b -> exists full p q,
  textDiff a b false = Ok (Some full, a, b) /\ diff_of (lines_of a) (lines_of b) full p q.
Proof.
  intros [Pa Ta _] [Pb Tb _]. pose proof (textDiff_ok a b) as ([[r a'] b'] & E & -> & -> & Hr)%yields_ok.
  rewrite Pa, Pb in *. destruct r as [full|]; [|by rewrite Ta, Tb in Hr].
  destruct Hr as (_ & _ & e & -> & He). apply edit_vector in He as (p & q & Hd). by exists (e ++ [zero_triple]), p, q.
Qed.

(** ** Offsets of lines *)
Lemma starts_from_line i l z : line_like l -> starts_from i (l ++ x0a :: z) = (i + len l + 1) :: starts_from (i + len l + 1) z.
Proof.
  revert i. induction l as [|c l IH]; intros i Hl; simpl.
  - unfold len. simpl. by rewrite Z.add_0_r.
  - apply line_like_cons in Hl as [-> Hl]. rewrite IH by done. rewrite len_cons.
    by replace (i + 1 + len l + 1) with (i + (1 + len l) + 1) by lia.
Qed.

Lemma starts_from_unlines ls : Forall line_like ls -> forall i k, (k <= length ls)%nat ->
  (i :: starts_from i (unlines ls)) !! k = Some (i + len (unlines (take k ls))) /\ length (starts_from i (unlines ls)) = length ls.
Proof.
  induction 1 as [|l ls Hl Hls IH]; intros i k Hk.
  - simpl in Hk. assert (k = 0%nat) as -> by lia. split; [|done]. cbn. f_equal. unfold len. simpl. lia.
  - rewrite unlines_cons, starts_from_line by done. simpl in Hk. split.
    + destruct k as [|k]; [cbn; f_equal; unfold len; simpl; lia|].
      destruct (IH (i + len l + 1) k ltac:(lia)) as [Hlk _].
      change ((i :: i + len l + 1 :: starts_from (i + len l + 1) (unlines ls)) !! S k)
        with ((i + len l + 1 :: starts_from (i + len l + 1) (unlines ls)) !! k).
      rewrite Hlk, firstn_cons, unlines_cons, len_app, len_cons. f_equal. lia.
    + destruct (IH (i + len l + 1) 0%nat ltac:(lia)) as [_ Hlen]. simpl. by rewrite Hlen.
Qed.

Lemma rest_at_lines z u : terminated z = true -> 0 <= u <= len (lines_of z) ->
  rest_at z (lineStarts z) u = Ok (unlines (drop (Z.to_nat u) (lines_of z))).
Proof.
  intros Ht Hu. set (ls := lines_of z) in *. assert (Ez : z = unlines ls) by (symmetry; by apply unlines_lines_of).
  assert (Hls : Forall line_like ls) by apply lines_of_line_like. clearbody ls. subst z.
  destruct (starts_from_unlines ls Hls 0 (Z.to_nat u) ltac:(unfold len in *; lia)) as [Hk Hlen].
  unfold rest_at, lineStarts. assert (Hlt : (u <? len (0 :: starts_from 0 (unlines ls))) = true).
  { apply Z.ltb_lt. rewrite len_cons. unfold len in *. rewrite Hlen. lia. }
  rewrite Hlt. rewrite (elem_at_ok _ _ _ (proj1 Hu) Hk). cbn [obind]. rewrite Z.add_0_l.
  assert (Hsp : unlines ls = unlines (take (Z.to_nat u) ls) ++ unlines (drop (Z.to_nat u) ls)) by by rewrite <- unlines_app, take_drop.
  assert (Hle : len (unlines (take (Z.to_nat u) ls)) <= len (unlines ls)).
  { rewrite Hsp, len_app. pose proof (len_nonneg (unlines (drop (Z.to_nat u) ls))). lia. }
  rewrite slice_of_ok by (try done; pose proof (len_nonneg (unlines (take (Z.to_nat u) ls))); lia).
  f_equal. unfold sub. rewrite Hsp at 2. rewrite drop_len_app. apply take_ge.
  apply (f_equal len) in Hsp. rewrite len_app in Hsp. unfold len in *. lia.
Qed.

Lemma offsets_lines z : terminated z = true -> offsets z (lineStarts z) (len (lines_of z)).
Proof.
  intros Ht u Hu. pose proof (rest_at_lines z u Ht Hu) as E. unfold rest_at in E.
  destruct (lineStarts z u) as [o| | |]; try done. simpl in *. unfold slice_of in E.
  destruct ((o <? 0) || (len z <? o) || (len z <? len z)) eqn:Eb; [done|]. zbool. lia.
Qed.

(** ** The walk against an unchanged version *)

(** The vector of a version that is the pivot itself. *)
Definition copies (n : Z) : list triple := if n =? 0 then [] else [mk_triple n 0 0].

Definition plain_op (t : triple) : list mergeOp :=
  (if t_copy t >? 0 then [mk_mergeOp opSame (t_copy t) (t_copy t) (t_copy t)] else []) ++
  (if t_del t + t_ins t >? 0 then [mk_mergeOp opChngV1 (t_del t) (t_ins t) (t_del t)] else []).
Definition plain_ops (p : list triple) : list mergeOp := concat (map plain_op p).

Lemma skip_empty_head s t p : holds s (t :: p) -> yields (skip_empty s) (fun s' => holds s' (if is_zero t then p else t :: p)).
Proof.
  intros [(q & Hr & Hq) Hl]. unfold skip_empty. rewrite Hl, Hr, len_cons, (proj2 (Z.gtb_lt _ _)) by (pose proof (len_nonneg p); lia).
  simpl. destruct (is_zero t).
  - split; [exists q; unfold next_triple; simpl; by rewrite Hr|unfold next_triple; simpl; rewrite Hl, len_cons; lia].
  - split; [by exists q|done].
Qed.

Lemma skip_empty_vector s p : holds s p -> vector p -> yields (skip_empty s) (fun s' => holds s' p).
Proof.
  intros Hh Hv. destruct p as [|t p].
  - destruct Hh as [Hr Hl]. unfold skip_empty. rewrite Hl. done.
  - eapply yields_mono; [by apply skip_empty_head|]. intros s' Hs'. inversion Hv as [|? ? [_ Hz] _]; subst. by rewrite Hz in Hs'.
Qed.

Lemma skip_empty_copies s m : holds s [mk_triple m 0 0] -> yields (skip_empty s) (fun s' => holds s' (copies m)).
Proof.
  intros Hh. eapply yields_mono; [by apply skip_empty_head|]. intros s' Hs'. unfold copies, is_zero in *. simpl in *.
  destruct (m =? 0); done.
Qed.

Lemma holds_step s t p : holds s (t :: p) -> (sd_left s >? 0) = true /\ head_of (sd_rest s) = Ok t /\ holds (next_triple s) p /\
  forall n, holds (mk_side (set_head_copy (sd_rest s) n) (sd_left s)) (set_copy t n :: p).
Proof.
  intros [(q & Hr & Hq) Hl]. split; [rewrite Hl, len_cons; pose proof (len_nonneg p); lia|].
  split; [by rewrite Hr|]. split; [by eapply holds_next|]. intros n. by eapply holds_copy.
Qed.

Lemma walk_loop_plain v1 v2 at1 at2 fuel : forall s1 s2 p u1 u2,
  holds s1 p -> holds s2 (copies (span p)) -> vector p -> apart p -> 2 * span p + len p < Z.of_nat fuel ->
  walk_loop v1 v2 at1 at2 fuel s1 s2 u1 u2 = Ok (plain_ops p).
Proof.
  induction fuel as [|f IH]; intros s1 s2 p u1 u2 H1 H2 Hv Ha Hf.
  { pose proof (span_nonneg p (vector_nonneg _ Hv)). len_lia. }
  cbn [walk_loop]. pose proof (span_nonneg p (vector_nonneg _ Hv)) as Hsp.
  destruct (Z.eq_dec (span p) 0) as [Hz|Hz].
  { rewrite Hz in H2. destruct H2 as [_ Hl2]. rewrite Hl2. simpl. rewrite andb_false_r.
    destruct (apart_end p Hv Ha Hz) as [-> |(n & -> & Hn)].
    - destruct H1 as [_ Hl1]. by rewrite Hl1.
    - destruct (holds_step _ _ _ H1) as (-> & -> & _). simpl. unfold plain_ops, plain_op. simpl.
      rewrite Z.add_0_l, (proj2 (Z.gtb_lt n 0)) by done. done. }
  destruct p as [|t p]; [done|]. set (m := span (t :: p)) in *.
  unfold copies in H2. rewrite (proj2 (Z.eqb_neq m 0)) in H2 by done.
  destruct (holds_step _ _ _ H1) as (-> & E1 & Hn1 & Hc1), (holds_step _ _ _ H2) as (-> & E2 & _ & Hc2).
  cbn [andb]. unfold walk_step. rewrite E1, E2. cbn [obind t_copy t_del t_ins].
  pose proof Hv as Hv'. inversion Hv' as [|? ? [(N1 & N2 & N3) Hnz] Hp]; subst. apply is_zero_pos in Hnz; [|done].
  pose proof (span_nonneg p (vector_nonneg _ Hp)) as Hsp'. assert (Em : m = t_copy t + t_del t + span p) by reflexivity. clearbody m.
  rewrite (proj2 (Z.gtb_lt m 0)), andb_true_r by lia.
  destruct (Z.gtb_spec (t_copy t) 0) as [Hc|Hc].
  - rewrite Z.min_l by lia. cbn [obind]. rewrite Z.sub_diag.
    pose proof (skip_empty_head _ _ _ (Hc1 0)) as (w1 & -> & Hw1)%yields_ok. cbn [obind].
    pose proof (skip_empty_copies _ _ (Hc2 (m - t_copy t))) as (w2 & -> & Hw2)%yields_ok. cbn [obind].
    assert (Hplain : plain_ops (t :: p) = mk_mergeOp opSame (t_copy t) (t_copy t) (t_copy t) :: plain_ops (if is_zero (set_copy t 0) then p else set_copy t 0 :: p)).
    { unfold plain_ops, plain_op, is_zero. simpl. rewrite (proj2 (Z.gtb_lt (t_copy t) 0)) by done. simpl. f_equal.
      destruct (Z.eqb_spec (t_del t) 0) as [Ed|], (Z.eqb_spec (t_ins t) 0) as [Ei|]; try done. by rewrite Ed, Ei. }
    assert (Hspan : span (if is_zero (set_copy t 0) then p else set_copy t 0 :: p) = m - t_copy t).
    { unfold is_zero. simpl. destruct (Z.eqb_spec (t_del t) 0), (Z.eqb_spec (t_ins t) 0); simpl; lia. }
    rewrite Hplain. erewrite IH; [done|exact Hw1|by rewrite Hspan| | |].
    + destruct (is_zero (set_copy t 0)) eqn:Ez; [done|]. constructor; [|done]. split; [|done]. unfold nonneg. simpl. lia.
    + destruct (is_zero (set_copy t 0)); [by apply (apart_tl (t :: p))|exact Ha].
    + rewrite Hspan. destruct (is_zero (set_copy t 0)); rewrite ?len_cons in *; lia.
  - assert (t_copy t = 0) as E0 by lia. cbn [andb]. rewrite andb_false_r. cbn [andb].
    rewrite Z.geb_leb, (proj2 (Z.leb_le _ _)), (proj2 (Z.gtb_lt (t_del t + t_ins t) 0)) by lia. cbn [andb obind].
    pose proof (skip_empty_vector _ _ Hn1 Hp) as (w1 & -> & Hw1)%yields_ok. cbn [obind].
    pose proof (skip_empty_copies _ _ (Hc2 (m - t_del t))) as (w2 & -> & Hw2)%yields_ok. cbn [obind].
    erewrite IH; [|exact Hw1|by replace (span p) with (m - t_del t) by lia|done|by apply (apart_tl (t :: p))|rewrite len_cons in Hf; lia].
    unfold plain_ops, plain_op. simpl. rewrite E0. simpl. rewrite (proj2 (Z.gtb_lt (t_del t + t_ins t) 0)) by lia. done.
Qed.

Lemma take_same (A B : list bytes) (i j n : Z) : 0 <= i -> 0 <= j -> 0 <= n ->
  (forall k, 0 <= k < n -> line_same A B (i + k) (j + k)) ->
  take (Z.to_nat n) (drop (Z.to_nat i) A) = take (Z.to_nat n) (drop (Z.to_nat j) B).
Proof.
  intros Hi Hj Hn Hs. apply list_eq. intros k. destruct (decide (k < Z.to_nat n)%nat) as [Hk|Hk].
  - rewrite !lookup_take_lt, !lookup_drop by done. specialize (Hs (Z.of_nat k) ltac:(lia)). unfold line_same in Hs.
    by replace (Z.to_nat i + k)%nat with (Z.to_nat (i + Z.of_nat k)) by lia; replace (Z.to_nat j + k)%nat with (Z.to_nat (j + Z.of_nat k)) by lia.
  - by rewrite !lookup_take_ge by lia.
Qed.

Lemma drop_add {A} (l : list A) i n : 0 <= i -> 0 <= n -> drop (Z.to_nat n) (drop (Z.to_nat i) l) = drop (Z.to_nat (i + n)) l.
Proof. intros. rewrite drop_drop. f_equal. lia. Qed.

Lemma line_ops_plain A B p i j : valid (line_same A B) p i j (len A) (len B) -> 0 <= i -> 0 <= j ->
  line_ops (plain_ops p) (drop (Z.to_nat i) A) (drop (Z.to_nat j) B) (drop (Z.to_nat i) A) = drop (Z.to_nat j) B.
Proof.
  revert i j. induction p as [|t p IH]; intros i j Hv Hi Hj.
  { destruct Hv as [-> ->]. simpl. symmetry. apply drop_ge. unfold len. lia. }
  destruct Hv as ((N1 & N2 & N3) & Hs & Hv). specialize (IH _ _ Hv ltac:(lia) ltac:(lia)).
  assert (Htail : line_ops (plain_op t ++ plain_ops p) (drop (Z.to_nat i) A) (drop (Z.to_nat j) B) (drop (Z.to_nat i) A) =
     take (Z.to_nat (t_copy t)) (drop (Z.to_nat i) A) ++ take (Z.to_nat (t_ins t)) (drop (Z.to_nat (j + t_copy t)) B)
     ++ drop (Z.to_nat (j + t_copy t + t_ins t)) B).
  { assert (H2 : forall x y, x = i + t_copy t -> y = j + t_copy t ->
      line_ops ((if t_del t + t_ins t >? 0 then [mk_mergeOp opChngV1 (t_del t) (t_ins t) (t_del t)] else []) ++ plain_ops p)
        (drop (Z.to_nat x) A) (drop (Z.to_nat y) B) (drop (Z.to_nat x) A) =
      take (Z.to_nat (t_ins t)) (drop (Z.to_nat y) B) ++ drop (Z.to_nat (y + t_ins t)) B).
    { intros x y -> ->. destruct (Z.gtb_spec (t_del t + t_ins t) 0).
      - cbn [app line_ops mo_kind nPivot nV1 nV2]. rewrite !drop_add by lia. by rewrite IH.
      - replace (t_del t) with 0 in * by lia. replace (t_ins t) with 0 in * by lia. simpl. rewrite !Z.add_0_r in *. done. }
    unfold plain_op. destruct (Z.gtb_spec (t_copy t) 0).
    - rewrite <- app_assoc. cbn [app line_ops mo_kind nPivot nV1 nV2]. rewrite !drop_add by lia. by rewrite H2.
    - replace (t_copy t) with 0 by lia. simpl. rewrite Z.add_0_r. apply H2; lia. }
  unfold plain_ops in *. cbn [map concat]. rewrite Htail, (take_same A B i j) by done.
  rewrite <- (drop_add B (j + t_copy t)), take_drop, <- (drop_add B j), take_drop by lia. done.
Qed.

(** ** Texts that are the same *)
Lemma equal_run_same KF nF n c i j dir : ctx_rep KF KF nF nF c ->
  (forall m, 0 <= m < Z.of_nat n -> 0 <= i + dir * m <= nF) -> i = j -> equal_run n c i j dir = Ok (Z.of_nat n).
Proof.
  intros Hc Hr <-. pose proof (equal_run_ok KF KF nF nF n c i i dir Hc) as H.
  destruct (proj1 (yields_ok _ _) (H (fun m Hm => conj (Hr m Hm) (Hr m Hm)))) as (k & -> & Hk & _ & Hstop).
  f_equal. destruct (Z.eq_dec k (Z.of_nat n)); [done|]. exfalso. apply Hstop; [lia|done].
Qed.

Lemma textDiff_refl a : mergeable a -> exists q, diff_of (lines_of a) (lines_of a) (copies (len (lines_of a)) ++ zero_triple :: q) (copies (len (lines_of a))) q /\
  textDiff a a false = Ok (Some (copies (len (lines_of a)) ++ zero_triple :: q), a, a).
Proof.
  intros [Hp Ht He]. exists []. set (A := lines_of a). split.
  { unfold copies. destruct (Z.eqb_spec (len A) 0) as [E|E]; split; try done; [constructor| |].
    - pose proof (len_nonneg A). apply Forall_singleton. split; [unfold nonneg; simpl; lia|]. unfold is_zero. simpl. lia.
    - pose proof (len_nonneg A). simpl. split; [unfold nonneg; simpl; lia|]. split; [done|lia]. }
  unfold textDiff. rewrite Hp. pose proof (breakIntoLines_ok a) as (r & -> & Hr)%yields_ok. simpl.
  destruct r as [[lines n]|]; [|by rewrite Ht in Hr]. destruct Hr as (_ & -> & Htab & Hrec). fold A.
  set (c := mk_dcontext [] lines lines (len A) (len A)).
  assert (Hc : ctx_rep (map dkey lines) (map dkey lines) (len A) (len A) c) by done.
  pose proof (len_nonneg A) as Hlen. unfold diffAll. change (dc_nFrom c) with (len A). change (dc_nTo c) with (len A).
  rewrite (equal_run_same _ _ _ _ _ _ _ Hc) by (done || lia). cbn [obind].
  replace (Z.of_nat (Z.to_nat (len A `min` len A))) with (len A) by lia. rewrite Z.sub_diag.
  simpl. unfold copies. destruct (Z.ltb_spec 0 (len A)) as [Hpos|Hz].
  - rewrite (proj2 (Z.eqb_neq _ 0)) by lia. unfold set_edit, c. simpl. by rewrite Z.sub_0_r.
  - replace (len A) with 0 by lia. done.
Qed.

(** ** Clean merges of complete lines *)
Lemma at_line_start z : terminated z = true -> at_line (mk_cursorBlob z 0) (lines_of z).
Proof. intros Ht. split; [simpl; by rewrite drop_0, unlines_lines_of|apply lines_of_line_like]. Qed.

Lemma mergeText_clean base l r full1 full2 ops :
  mergeable base -> mergeable l -> mergeable r ->
  textDiff base l false = Ok (Some full1, base, l) -> textDiff base r false = Ok (Some full2, base, r) ->
  walkEdits l r (lineStarts l) (lineStarts r) full1 full2 = Ok (ops, 0) -> Forall op_nonneg ops ->
  mergeText base l r = Ok (Some (unlines (line_ops ops (lines_of base) (lines_of l) (lines_of r)), [], 0)).
Proof.
  intros Hb Hl Hr E1 E2 Ew Hn. unfold mergeText. rewrite E1. cbn [obind]. rewrite E2. cbn [obind]. rewrite Ew. cbn [obind].
  assert (Hc : List.filter is_conflict ops = []).
  { unfold walkEdits in Ew. do 3 apply obind_ok in Ew as (? & _ & Ew). injection Ew as -> Hc. by apply len_zero. }
  pose proof (apply_all_ok ops (start base l r) (lines_of base) (lines_of l) (lines_of r)
    (at_line_start _ (mg_end _ Hb)) (at_line_start _ (mg_end _ Hl)) (at_line_start _ (mg_end _ Hr)) Hn Hc) as (m & -> & Ho & Hcf)%yields_ok.
  cbn [obind]. rewrite Ho, Hcf. unfold start. cbn [m_out m_conflicts]. by rewrite (mergeable_no_bom l).
Qed.

Lemma plain_ops_clean p : vector p -> Forall op_nonneg (plain_ops p) /\ List.filter is_conflict (plain_ops p) = [].
Proof.
  induction 1 as [|t p [(N1 & N2 & N3) _] _ [IH1 IH2]]; [done|]. unfold plain_ops in *. cbn [map concat]. rewrite List.filter_app, IH2. split.
  - apply Forall_app. split; [|done]. unfold plain_op. apply Forall_app. split; case_match; constructor; try done; unfold op_nonneg; simpl; lia.
  - unfold plain_op. by destruct (t_copy t >? 0), (t_del t + t_ins t >? 0).
Qed.

(** ** Both versions made the same change *)
Lemma lines_no_nul z : IndexByte z x00 = None -> Forall (fun l => x00 ∉ l) (lines_of z).
Proof.
  induction z as [|c z IH]; [constructor|]. simpl. destruct (Byte.eqb c x00) eqn:E; [done|].
  intros Hn. destruct (IndexByte z x00); [done|]. specialize (IH eq_refl). apply byte_eqb_neq in E.
  destruct (Byte.eqb c x0a); [constructor; [apply not_elem_of_nil|done]|].
  destruct (lines_of z) as [|l ls]; [apply Forall_singleton; apply not_elem_of_cons; split; [done|apply not_elem_of_nil]|].
  inversion IH; subst. constructor; [|done]. apply not_elem_of_cons. done.
Qed.

Lemma lines_agree_true f x y X Y n : Forall line_like (x :: X) -> Forall line_like (y :: Y) -> Forall (fun l => x00 ∉ l) (x :: X) ->
  1 <= n <= 1 + len X -> n <= 1 + len Y ->
  lines_agree f (x ++ x0a :: unlines X) (y ++ x0a :: unlines Y) n = Ok true ->
  x = y /\ take (Z.to_nat (n - 1)) X = take (Z.to_nat (n - 1)) Y.
Proof.
  revert x y X Y n. induction f as [|f IH]; intros x y X Y n LX LY NX Hn HnY; [done|]. cbn [lines_agree].
  inversion LX as [|? ? Lx LX']; subst. inversion LY as [|? ? Ly LY']; subst. inversion NX as [|? ? Nx NX']; subst.
  destruct x as [|c x], y as [|d y]; cbn [app byte_at tl].
  - simpl. rewrite orb_false_r. destruct (Z.eqb_spec (n - 1) 0) as [->|Hne]; [done|].
    destruct X as [|x X]; [unfold len in Hn; simpl in Hn; lia|]. destruct Y as [|y Y]; [unfold len in HnY; simpl in HnY; lia|].
    rewrite !unlines_cons, !len_cons in *. intros H. apply IH in H as [-> H]; try done; try lia. split; [done|].
    replace (Z.to_nat (n - 1)) with (S (Z.to_nat (n - 1 - 1))) by lia. by rewrite !firstn_cons, H.
  - apply line_like_cons in Ly as [Hd _]. assert (Byte.eqb x0a d = false) as -> by (apply byte_eqb_neq; apply byte_eqb_neq in Hd; congruence). done.
  - apply line_like_cons in Lx as [-> _]. done.
  - destruct (Byte.eqb c d) eqn:E; [|done]. apply byte_eqb_eq in E. subst d. apply line_like_cons in Lx as [-> Lx], Ly as [_ Ly].
    apply not_elem_of_cons in Nx as [Hc Nx]. assert (Byte.eqb c x00 = false) as -> by (apply byte_eqb_neq; congruence). simpl.
    intros H. apply IH in H as [-> H]; try done; by constructor.
Qed.

Fixpoint agree (ops : list mergeOp) (L1 L2 : list bytes) : Prop :=
  match ops with
  | [] => True
  | op :: ops => (mo_kind op = opChngBoth -> take (Z.to_nat (nV1 op)) L1 = take (Z.to_nat (nV2 op)) L2) /\
                 agree ops (drop (Z.to_nat (nV1 op)) L1) (drop (Z.to_nat (nV2 op)) L2)
  end.

Lemma both_agree_lines l r ops u1 u2 : mergeable l -> mergeable r -> Forall op_nonneg ops -> 0 <= u1 -> 0 <= u2 ->
  u1 + total nV1 ops <= len (lines_of l) -> u2 + total nV2 ops <= len (lines_of r) ->
  both_agree l r (lineStarts l) (lineStarts r) ops u1 u2 ->
  agree ops (drop (Z.to_nat u1) (lines_of l)) (drop (Z.to_nat u2) (lines_of r)).
Proof.
  intros Hl Hr Hn. revert u1 u2. induction Hn as [|op ops (NP & N1 & N2) Hops IH]; intros u1 u2 H1 H2 T1 T2; [done|].
  intros [Hb Hrest]. simpl in T1, T2.
  assert (Hpos : forall f, (f = nV1 \/ f = nV2) -> 0 <= total f ops).
  { intros f Hf. clear -Hops Hf. induction Hops as [|o os (? & ? & ?) _ IHo]; [done|]. simpl. destruct Hf; subst; lia. }
  pose proof (Hpos nV1 ltac:(by left)). pose proof (Hpos nV2 ltac:(by right)). split.
  - intros Hk. destruct (Hb Hk) as (En & z1 & z2 & E1 & E2 & Es).
    rewrite rest_at_lines in E1 by (apply Hl || lia). injection E1 as <-. rewrite rest_at_lines in E2 by (apply Hr || lia). injection E2 as <-.
    rewrite <- En in *. unfold sameLines in Es. destruct (Z.eqb_spec (nV1 op) 0) as [->|Hne]; [done|].
    pose proof (Forall_drop _ (Z.to_nat u1) _ (lines_of_line_like l)) as LX. pose proof (Forall_drop _ (Z.to_nat u2) _ (lines_of_line_like r)) as LY.
    assert (NX : Forall (fun x => x00 ∉ x) (drop (Z.to_nat u1) (lines_of l))).
    { apply Forall_drop, lines_no_nul. pose proof (mg_text _ Hl) as Ht. unfold is_text in Ht.
      apply andb_true_iff in Ht as [Ht _]. destruct (IndexByte l x00); [|done]. by rewrite bool_decide_eq_true_2 in Ht by eauto. }
    pose proof (len_drop u1 (lines_of l) ltac:(lia)) as Lx. pose proof (len_drop u2 (lines_of r) ltac:(lia)) as Ly.
    destruct (drop (Z.to_nat u1) (lines_of l)) as [|x X]; [rewrite len_nil in Lx; lia|].
    destruct (drop (Z.to_nat u2) (lines_of r)) as [|y Y]; [rewrite len_nil in Ly; lia|].
    rewrite !unlines_cons in Es. rewrite len_cons in Lx, Ly. apply lines_agree_true in Es as [-> Es]; try done; try lia.
    replace (Z.to_nat (nV1 op)) with (S (Z.to_nat (nV1 op - 1))) by lia. by rewrite !firstn_cons, Es.
  - rewrite !drop_add by lia. apply IH; try done; lia.
Qed.

Lemma line_ops_mirror ops P L1 L2 : List.filter is_conflict ops = [] -> agree ops L1 L2 ->
  line_ops (map mirror ops) P L2 L1 = line_ops ops P L1 L2.
Proof.
  revert P L1 L2. induction ops as [|op ops IH]; intros P L1 L2; [done|]. simpl. destruct (is_conflict op) eqn:Ec; [done|].
  intros Hc [Hb Ha]. rewrite IH by done. f_equal. unfold is_conflict in Ec. destruct (mo_kind op); try done. by apply Hb.
Qed.

Lemma mirror_nonneg ops : Forall op_nonneg ops -> Forall op_nonneg (map mirror ops).
Proof. induction 1 as [|op ops (? & ? & ?) _ IH]; constructor; [|done]. split_and!; done. Qed.

(** ** Properties of the merge *)

(** The walk of two versions of one pivot: its steps, and the same exchanged. *)
Lemma walk_texts base l r full1 p1 q1 full2 p2 q2 : mergeable base -> mergeable l -> mergeable r ->
  diff_of (lines_of base) (lines_of l) full1 p1 q1 -> diff_of (lines_of base) (lines_of r) full2 p2 q2 ->
  exists ops,
    let n := len (List.filter is_conflict ops) in
    walkEdits l r (lineStarts l) (lineStarts r) full1 full2 = Ok (ops, n) /\
    walkEdits r l (lineStarts r) (lineStarts l) full2 full1 = Ok (map mirror ops, n) /\
    Forall op_nonneg ops /\ agree ops (lines_of l) (lines_of r) /\
    (apart p1 -> apart p2 -> accounts ops (len (lines_of base)) (len (lines_of l)) (len (lines_of r))).
Proof.
  intros Hb Hl Hr D1 D2. pose proof (diff_of_span _ _ _ _ _ D1) as [S1 R1]. pose proof (diff_of_span _ _ _ _ _ D2) as [S2 R2].
  pose proof (offsets_lines l (mg_end _ Hl)) as O1. pose proof (offsets_lines r (mg_end _ Hr)) as O2.
  destruct D1 as [-> Q1 V1 _], D2 as [-> Q2 V2 _].
  assert (E : exists ops, walkEdits l r (lineStarts l) (lineStarts r) (p1 ++ zero_triple :: q1) (p2 ++ zero_triple :: q2)
      = Ok (ops, len (List.filter is_conflict ops)) /\ Forall op_nonneg ops /\
      (total nV1 ops <= reach p1 /\ total nV2 ops <= reach p2) /\ both_agree l r (lineStarts l) (lineStarts r) ops 0 0 /\
      (apart p1 -> apart p2 -> accounts ops (span p1) (reach p1) (reach p2))).
  { unfold walkEdits. rewrite !editsEnd_ok by done. cbn [obind].
    pose proof (span_nonneg _ Q1). pose proof (span_nonneg _ Q2).
    eassert (Hw : yields (walk_loop l r (lineStarts l) (lineStarts r) _ (mk_side (p1 ++ zero_triple :: q1) (len p1)) (mk_side (p2 ++ zero_triple :: q2) (len p2)) 0 0) _).
    { apply (walk_loop_ok l r (lineStarts l) (lineStarts r) _ _ O1 O2 (S (Z.to_nat (span (p1 ++ zero_triple :: q1) + span (p2 ++ zero_triple :: q2) + len (p1 ++ zero_triple :: q1) + len (p2 ++ zero_triple :: q2)))) _ _ p1 p2); try done; try lia.
      - split; [by exists q1|done].
      - split; [by exists q2|done].
      - rewrite !span_app, !len_app. simpl. pose proof (len_nonneg (zero_triple :: q1)). pose proof (len_nonneg (zero_triple :: q2)). lia. }
    apply yields_ok in Hw as (ops & -> & Hops & T1 & T2 & _ & Hacc & Hag). exists ops. split; [done|]. split; [done|]. split; [done|]. split; [done|].
    apply Hacc. lia. }
  destruct E as (ops & E & Hops & [T1 T2] & Hag & Hacc). exists ops. cbv zeta. split; [exact E|].
  rewrite (walkEdits_mirror l r (lineStarts l) (lineStarts r) _ _ O1 O2) by (try done; lia). rewrite E. split; [done|]. split; [done|].
  split; [|by rewrite <- S1, <- R1, <- R2]. by apply (both_agree_lines l r ops 0 0 Hl Hr Hops); try lia.
Qed.

Lemma clean_merge base l r full1 full2 ops n : mergeable base -> mergeable l -> mergeable r ->
  textDiff base l false = Ok (Some full1, base, l) -> textDiff base r false = Ok (Some full2, base, r) ->
  walkEdits l r (lineStarts l) (lineStarts r) full1 full2 = Ok (ops, n) -> Forall op_nonneg ops ->
  (n = 0 -> ThreeWayText_Merge base l r = Ok (mk_Result (unlines (line_ops ops (lines_of base) (lines_of l) (lines_of r))) [] true)) /\
  (forall res, ThreeWayText_Merge base l r = Ok res -> Clean res = (n =? 0)).
Proof.
  intros Hb Hl Hr E1 E2 Ew Hn. unfold ThreeWayText_Merge. split.
  - intros ->. rewrite (mergeText_clean base l r full1 full2 ops) by done. done.
  - intros res. unfold mergeText. rewrite E1. cbn [obind]. rewrite E2. cbn [obind]. rewrite Ew. cbn [obind].
    destruct (apply_all _ _) as [m| | |]; simpl; try done. by intros [= <-].
Qed.

(** C13: A clean merge does not depend on which version is the local one: for texts
    of complete lines, [Merge(base, r, l)] gives what a clean [Merge(base, l, r)]
    gives. *)
Theorem merge_symmetric base l r res : mergeable base -> mergeable l -> mergeable r ->
  ThreeWayText_Merge base l r = Ok res -> Clean res = true -> ThreeWayText_Merge base r l = Ok res.
Proof.
  intros Hb Hl Hr Hm Hclean.
  destruct (textDiff_mergeable base l Hb Hl) as (full1 & p1 & q1 & E1 & D1), (textDiff_mergeable base r Hb Hr) as (full2 & p2 & q2 & E2 & D2).
  destruct (walk_texts base l r _ _ _ _ _ _ Hb Hl Hr D1 D2) as (ops & W1 & W2 & Hn & Ha & _).
  destruct (clean_merge base l r _ _ _ _ Hb Hl Hr E1 E2 W1 Hn) as [C1 C1'].
  destruct (clean_merge base r l _ _ _ _ Hb Hr Hl E2 E1 W2 (mirror_nonneg _ Hn)) as [C2 _].
  rewrite (C1' _ Hm) in Hclean. apply Z.eqb_eq in Hclean. rewrite (C1 Hclean) in Hm. injection Hm as <-.
  rewrite (C2 Hclean), line_ops_mirror; [done|by apply len_zero|done].
Qed.

(** The line diff from [a] to [b] has no insertion right after another triple:
    nothing [optimize] slid down met the next insertion. *)
Definition apart_diff (a b : bytes) : bool :=
  match textDiff a b false with
  | Ok (Some full, _, _) => forallb (fun t => is_zero t || (0 <? t_copy t + t_del t)) (tl full)
  | _ => false
  end.

Lemma apart_diff_ok a b full p q A B : textDiff a b false = Ok (Some full, a, b) -> diff_of A B full p q ->
  apart_diff a b = true -> apart p.
Proof.
  unfold apart_diff. intros -> [-> _ Hv _] Hf. destruct p as [|t p]; [constructor|]. simpl in Hf. rewrite forallb_app in Hf.
  apply andb_true_iff in Hf as [Hf _]. unfold apart. simpl. inversion Hv as [|? ? _ Hp]; subst. clear Hv.
  induction Hp as [|u p [_ Hz] _ IH]; [constructor|]. simpl in Hf. rewrite Hz in Hf. apply andb_true_iff in Hf as [Hu Hf].
  constructor; [simpl in Hu; lia|by apply IH].
Qed.

(** C12: A version merged with one that did not change is itself, and the merge is
    clean, whichever of the two is the local one: for texts of complete lines
    whose diff from the base has no two insertions next to each other. *)
Theorem merge_unchanged base x : mergeable base -> mergeable x -> apart_diff base x = true ->
  ThreeWayText_Merge base x base = Ok (mk_Result x [] true) /\ ThreeWayText_Merge base base x = Ok (mk_Result x [] true).
Proof.
  intros Hb Hx Ha. destruct (textDiff_mergeable base x Hb Hx) as (full & p & q & E & D).
  pose proof (apart_diff_ok _ _ _ _ _ _ _ E D Ha) as Hap. destruct (textDiff_refl base Hb) as (q0 & D0 & E0).
  destruct (walk_texts base x base _ _ _ _ _ _ Hb Hx Hb D D0) as (ops & W1 & W2 & Hn & Hag & _).
  pose proof (diff_of_span _ _ _ _ _ D) as [Hs _].
  assert (Hops : ops = plain_ops p).
  { destruct D as [-> Hq Hv _]. unfold walkEdits in W1. rewrite !editsEnd_ok in W1 by (done || apply D0). cbn [obind] in W1.
    erewrite walk_loop_plain in W1; [by injection W1 as <-|split; [by exists q|done]| |done|done|].
    - rewrite Hs. split; [exists q0; split; [done|apply D0]|done].
    - rewrite !span_app, !len_app. simpl. pose proof (span_nonneg _ Hq). pose proof (span_nonneg _ (do_rest _ _ _ _ _ D0)).
      pose proof (len_nonneg (zero_triple :: q)). pose proof (len_nonneg (zero_triple :: q0)). pose proof (len_nonneg (copies (len (lines_of base)))).
      destruct (diff_of_span _ _ _ _ _ D0). lia. }
  subst ops. destruct (plain_ops_clean p (do_vector _ _ _ _ _ D)) as [_ Hcl]. rewrite Hcl in W1, W2.
  destruct (clean_merge base x base _ _ _ _ Hb Hx Hb E E0 W1 Hn) as [C1 _].
  destruct (clean_merge base base x _ _ _ _ Hb Hb Hx E0 E W2 (mirror_nonneg _ Hn)) as [C2 _].
  rewrite C1, C2, line_ops_mirror by done.
  pose proof (line_ops_plain _ _ p 0 0 (do_valid _ _ _ _ _ D) ltac:(lia) ltac:(lia)) as Hl. rewrite !drop_0 in Hl.
  by rewrite Hl, unlines_lines_of by apply Hx.
Qed.
