(* ===== verification/MergeProps.v ===== *)
(** * The three-way merge: conflicts and lost text

    A merge that is not clean leaves its markers where they are found again;
    the walk accounts for every line; and the inputs on which lines are lost. *)

From S2P Require Import Prelude GoStd GoText GoCrypto MergeDiff MergeTable MergeLcs MergeTriples MergeSlide Merge3 Merge3Walk Merge3Correct.

(** ** Markers *)

(** A marker at the start of a line. *)
Definition marked (out : bytes) : Prop := exists pre post, out = pre ++ markerBegin ++ post /\ (pre = [] \/ exists p, pre = p ++ [x0a]).

Lemma marked_app out k : marked out -> marked (out ++ k).
Proof. intros (pre & post & -> & Hp). exists pre, (post ++ k). by rewrite <- !app_assoc. Qed.

Lemma ensureLineEnd_app crlf out : exists k, ensureLineEnd crlf out = out ++ k.
Proof.
  unfold ensureLineEnd. destruct (rev out); [by exists []; rewrite app_nil_r|].
  case_match; [by exists []; rewrite app_nil_r|by eexists].
Qed.

Lemma ensureLineEnd_end crlf out : ensureLineEnd crlf out = [] \/ exists p, ensureLineEnd crlf out = p ++ [x0a].
Proof.
  unfold ensureLineEnd. destruct out as [|c out] using rev_ind; [by left|]. clear IHout. right. rewrite rev_app_distr. simpl.
  destruct (Byte.eqb c x0a) eqn:E; [apply byte_eqb_eq in E; subst; by exists out|].
  destruct crlf; [exists ((out ++ [c]) ++ [x0d])|exists (out ++ [c])]; by rewrite <- ?app_assoc.
Qed.

Lemma appendMark_app crlf out mk ln : exists k, appendMark crlf out mk ln = out ++ k.
Proof.
  unfold appendMark. destruct (ensureLineEnd_app crlf out) as [k ->]. edestruct ensureLineEnd_app as [k' ->].
  eexists. by rewrite <- !app_assoc.
Qed.

Lemma appendMark_begin crlf out ln : marked (appendMark crlf out markerBegin ln).
Proof.
  unfold appendMark. edestruct (ensureLineEnd_app crlf (ensureLineEnd crlf out ++ markerBegin ++ if ln >? 0 then bs " (line " ++ dec ln ++ bs ")" else [])) as [k ->].
  apply marked_app. eexists _, _. split; [done|]. apply ensureLineEnd_end.
Qed.

Lemma line_tail_app pre z : x0a ∈ pre -> exists p, line_tail (pre ++ z) = x0a :: p ++ z /\ (length p < length pre)%nat /\ exists k, pre = k ++ x0a :: p.
Proof.
  induction pre as [|c pre IH]; intros Hin; [by apply elem_of_nil in Hin|]. simpl. destruct (Byte.eqb c x0a) eqn:E.
  - apply byte_eqb_eq in E. subst. exists pre. split; [done|]. split; [lia|]. by exists [].
  - apply elem_of_cons in Hin as [<-|Hin]; [by rewrite byte_eqb_refl in E|].
    destruct (IH Hin) as (p & -> & Hlt & k & ->). exists p. split; [done|]. split; [lia|]. by exists (c :: k).
Qed.

Lemma skip_ends_app p z : skip_ends z = z -> exists p', skip_ends (p ++ z) = p' ++ z /\ exists k, p = k ++ p'.
Proof.
  intros Hz. induction p as [|c p IH]; simpl; [exists []; split; [done|by exists []]|].
  destruct (Byte.eqb c x0a || Byte.eqb c x0d) eqn:E.
  - destruct IH as (p' & -> & k & ->). exists p'. split; [done|]. by exists (c :: k).
  - exists (c :: p). split; [done|]. by exists [].
Qed.

Lemma line_end_suffix (pre k p : bytes) : (pre = [] \/ exists q, pre = q ++ [x0a]) -> pre = k ++ p -> p = [] \/ exists q, p = q ++ [x0a].
Proof.
  intros Hpre ->. destruct p as [|c p] using rev_ind; [by left|]. right. destruct Hpre as [Hpre|[q Hpre]].
  - by apply app_eq_nil in Hpre as [_ [_ ?]%app_eq_nil].
  - rewrite app_assoc in Hpre. apply app_inj_tail in Hpre as [_ ->]. by exists p.
Qed.

Lemma marker_loop_found fuel pre post : (pre = [] \/ exists p, pre = p ++ [x0a]) -> (length pre < fuel)%nat ->
  marker_loop fuel (pre ++ markerBegin ++ post) = true.
Proof.
  revert pre. induction fuel as [|f IH]; intros pre Hpre Hf; [lia|]. cbn [marker_loop].
  assert ((len (pre ++ markerBegin ++ post) <? markerLen) = false) as ->.
  { apply Z.ltb_ge. rewrite !len_app. unfold markerLen. pose proof (len_nonneg pre). pose proof (len_nonneg post). lia. }
  destruct (starts_marker _) eqn:Es; [done|]. destruct Hpre as [->|[p0 Hp0]].
  { exfalso. revert Es. unfold starts_marker. cbn [app List.existsb].
    rewrite (proj2 (HasPrefix_spec _ _)) by by eexists. done. }
  destruct (line_tail_app pre (markerBegin ++ post)) as (p & -> & Hlt & k & Hk).
  { rewrite Hp0. apply elem_of_app. right. by left. }
  change (skip_ends (x0a :: p ++ markerBegin ++ post)) with (skip_ends (p ++ markerBegin ++ post)).
  destruct (skip_ends_app p (markerBegin ++ post) eq_refl) as (p' & -> & k' & Hk').
  apply IH; [|subst p; rewrite length_app in Hlt; lia].
  eapply (line_end_suffix pre (k ++ x0a :: k')); [right; by exists p0|]. by rewrite Hk, Hk', <- app_assoc.
Qed.

Lemma marked_found out : marked out -> HasConflictMarkers out = true.
Proof. intros (pre & post & -> & Hp). apply marker_loop_found; [done|]. rewrite length_app. lia. Qed.

(** ** The builder *)
Lemma conflict_marked m nP n1 n2 m' : conflict m nP n1 n2 = Ok m' -> marked (m_out m') /\ len (m_conflicts m') = len (m_conflicts m) + 1.
Proof.
  unfold conflict. intros H. apply obind_ok in H as (res & _ & H).
  destruct (copyLines (m_v1 m) n1) as [part1 b1], (copyLines (m_pivot m) nP) as [partP bP], (copyLines (m_v2 m) n2) as [part2 b2].
  injection H as <-. cbn [m_out m_conflicts]. split; [|by rewrite len_app].
  set (out0 := appendMark (m_useCRLF m) (m_out m) markerBegin _ ++ part1).
  assert (Hout0 : marked out0) by apply marked_app, appendMark_begin.
  assert (Hout1 : marked (if lineCount res >? 0 then appendMark (m_useCRLF m) out0 markerSuggested 0 ++ (copyLines (mk_cursorBlob res 0) (lineCount res)).1 else out0)).
  { case_match; [|done]. edestruct appendMark_app as [k ->]. by do 2 apply marked_app. }
  edestruct (appendMark_app (m_useCRLF m)) as [k1 ->]. edestruct (appendMark_app (m_useCRLF m)) as [k2 ->].
  edestruct (appendMark_app (m_useCRLF m)) as [k3 ->]. by do 6 (try apply marked_app).
Qed.

Lemma apply_op_marked m op m' : apply_op m op = Ok m' ->
  (marked (m_out m) \/ is_conflict op = true -> marked (m_out m')) /\
  len (m_conflicts m') = len (m_conflicts m) + (if is_conflict op then 1 else 0).
Proof.
  unfold apply_op, is_conflict. intros H. apply obind_ok in H as (m1 & H & [= <-]). cbn [m_out m_conflicts].
  assert (Hcopy : forall src, m1 = copy_op m src op -> (marked (m_out m) \/ false = true -> marked (m_out m1)) /\ len (m_conflicts m1) = len (m_conflicts m) + 0).
  { intros src ->. unfold copy_op. destruct (copyLines _ _), (copyLines _ _), (copyLines _ _). cbn [m_out m_conflicts]. split; [|lia].
    intros [Hm|?]; [by apply marked_app|done]. }
  destruct (mo_kind op); try (injection H as <-; by eapply Hcopy).
  apply conflict_marked in H as [? ?]. done.
Qed.

Lemma apply_all_marked ops m m' : apply_all m ops = Ok m' ->
  (marked (m_out m) \/ List.filter is_conflict ops <> [] -> marked (m_out m')) /\
  len (m_conflicts m') = len (m_conflicts m) + len (List.filter is_conflict ops).
Proof.
  revert m. induction ops as [|op ops IH]; intros m H; cbn [apply_all] in H.
  { injection H as <-. split; [by intros [|]|]. simpl. rewrite len_nil. lia. }
  apply obind_ok in H as (m1 & H1 & H2). apply apply_op_marked in H1 as [M1 C1]. destruct (IH _ H2) as [M2 C2]. simpl.
  rewrite C2, C1. destruct (is_conflict op); simpl; rewrite ?len_cons; (split; [|lia]); intros [Hm|Hm]; apply M2; auto.
Qed.

(** Whatever [Merge] answers is of one of three kinds: inputs that cannot be
    diffed, with the local text and one conflict for all of it; a clean merge
    without conflicts; or a merge with conflicts, whose content is found to be
    in conflict by [HasConflictMarkers]. *)
Theorem conflicts_marked base local remote res : ThreeWayText_Merge base local remote = Ok res ->
  res = unmerged base local remote \/ (Clean res = true /\ Conflicts res = []) \/
  (Clean res = false /\ Conflicts res <> [] /\ HasConflictMarkers (Content res) = true).
Proof.
  unfold ThreeWayText_Merge, mergeText. intros H. apply obind_ok in H as (r & H & [= <-]).
  apply obind_ok in H as ([[aC1 pivot] v1] & _ & H). apply obind_ok in H as ([[aC2 pivot2] v2] & _ & H).
  destruct aC1 as [aC1|], aC2 as [aC2|]; try (injection H as <-; by left).
  apply obind_ok in H as ([ops n] & Hw & H). apply obind_ok in H as (m & Hm & [= <-]). right.
  assert (Hn : n = len (List.filter is_conflict ops)).
  { unfold walkEdits in Hw. do 3 apply obind_ok in Hw as (? & _ & Hw). by injection Hw as -> <-. }
  apply apply_all_marked in Hm as [Hmark Hcf]. simpl in Hcf. rewrite <- Hn in Hcf. cbn [Clean Conflicts Content].
  destruct (Z.eqb_spec n 0) as [->|Hne].
  - left. split; [done|]. apply len_zero. rewrite Hcf. done.
  - right. split; [done|]. split; [intros E; rewrite E, len_nil in Hcf; lia|].
    apply marked_found, Hmark. right. intros E. rewrite E in Hn. done.
Qed.

(** * The three-way merge: properties of its parts

    The line diff as a patch, the walk for arbitrary vectors, and the inputs on
    which a clean merge loses text; the instances of the properties. *)

(** ** The line diff *)

(** The new lines from the old ones: copied lines come from [A], inserted ones
    from [B]. *)
Fixpoint patch (e : list triple) (A B : list bytes) : list bytes :=
  match e with
  | [] => []
  | t :: e =>
      take (Z.to_nat (t_copy t)) A ++ take (Z.to_nat (t_ins t)) (drop (Z.to_nat (t_copy t)) B)
      ++ patch e (drop (Z.to_nat (t_copy t + t_del t)) A) (drop (Z.to_nat (t_copy t + t_ins t)) B)
  end.

Lemma patch_valid A B e i j : valid (line_same A B) e i j (len A) (len B) -> 0 <= i -> 0 <= j ->
  patch e (drop (Z.to_nat i) A) (drop (Z.to_nat j) B) = drop (Z.to_nat j) B.
Proof.
  revert i j. induction e as [|t e IH]; intros i j Hv Hi Hj.
  { destruct Hv as [_ ->]. simpl. symmetry. apply drop_ge. unfold len. lia. }
  destruct Hv as ((N1 & N2 & N3) & Hs & Hv). cbn [patch]. rewrite !drop_add, (take_same A B i j), !Z.add_assoc, IH by (done || lia).
  rewrite <- (drop_add B (j + t_copy t)), take_drop, <- (drop_add B j), take_drop by lia. done.
Qed.

(** C14: [textDiff] by lines answers for any two inputs.  It declines exactly
    where one of them is not text (a NUL byte, or a line longer than
    [lengthMask]); for two texts its triples, ended by 0,0,0, replay the old
    lines into the new ones and pass over all lines of both. *)
Theorem text_diff_edits a b : exists r,
  textDiff a b false = Ok (r, toUTF8NoBOM a, toUTF8NoBOM b) /\
  match r with
  | None => is_text (toUTF8NoBOM a) && is_text (toUTF8NoBOM b) = false
  | Some full => is_text (toUTF8NoBOM a) && is_text (toUTF8NoBOM b) = true /\
      exists e, full = e ++ [zero_triple] /\ Forall nonneg e /\
      patch e (lines_of (toUTF8NoBOM a)) (lines_of (toUTF8NoBOM b)) = lines_of (toUTF8NoBOM b) /\
      span e = len (lines_of (toUTF8NoBOM a)) /\ reach e = len (lines_of (toUTF8NoBOM b))
  end.
Proof.
  pose proof (textDiff_ok a b) as ([[r a'] b'] & -> & -> & -> & Hr)%yields_ok. exists r. split; [done|].
  destruct r as [full|]; [|done]. destruct Hr as (-> & -> & e & -> & [Hv _]). split; [done|]. exists e. split; [done|].
  split; [by eapply valid_forall|]. split; [|apply valid_span in Hv; lia].
  pose proof (patch_valid _ _ e 0 0 Hv ltac:(lia) ltac:(lia)) as Hp. by rewrite !drop_0 in Hp.
Qed.

(** ** The walk *)
Lemma starts_from_bounds z i : Forall (fun o => i <= o <= i + len z) (starts_from i z).
Proof.
  revert i. induction z as [|c z IH]; intros i; [constructor|]. simpl. rewrite len_cons. pose proof (len_nonneg z).
  assert (Forall (fun o => i <= o <= i + (1 + len z)) (starts_from (i + 1) z)).
  { eapply Forall_impl; [apply (IH (i + 1))|]. simpl. intros o ?. lia. }
  destruct (Byte.eqb c x0a); [constructor; [lia|done]|done].
Qed.

Lemma offsets_any v U : offsets v (lineStarts v) U.
Proof.
  intros u Hu. unfold lineStarts. pose proof (len_nonneg v). destruct (Z.ltb_spec u (len (0 :: starts_from 0 v))); [|simpl; lia].
  apply yields_elem; [lia|]. intros o [->|Ho]%list_elem_of_lookup_2%elem_of_cons; [lia|].
  pose proof (starts_from_bounds v 0) as Hf. rewrite Forall_forall in Hf. specialize (Hf o Ho). lia.
Qed.

(** The walk answers for any two vectors of triples that end with 0,0,0: no read
    is out of range and its panic is never reached.  When both pass over the
    same pivot and neither has two insertions next to each other, its steps
    account for every line of the pivot and of both versions; only a conflict
    of two insertions at the very end counts one pivot line too many. *)
Theorem walk_accounts v1 v2 p1 q1 p2 q2 : vector p1 -> Forall nonneg q1 -> vector p2 -> Forall nonneg q2 ->
  exists ops, walkEdits v1 v2 (lineStarts v1) (lineStarts v2) (p1 ++ zero_triple :: q1) (p2 ++ zero_triple :: q2)
                = Ok (ops, len (List.filter is_conflict ops)) /\
    Forall op_nonneg ops /\ total nV1 ops <= reach p1 /\ total nV2 ops <= reach p2 /\
    (span p1 = span p2 -> apart p1 -> apart p2 -> accounts ops (span p1) (reach p1) (reach p2)).
Proof.
  intros V1 Q1 V2 Q2. unfold walkEdits. rewrite !editsEnd_ok by done. cbn [obind].
  pose proof (span_nonneg _ Q1). pose proof (span_nonneg _ Q2).
  pose proof (walk_loop_ok v1 v2 (lineStarts v1) (lineStarts v2) _ _ (offsets_any v1 (reach p1)) (offsets_any v2 (reach p2))
    (S (Z.to_nat (span (p1 ++ zero_triple :: q1) + span (p2 ++ zero_triple :: q2) + len (p1 ++ zero_triple :: q1) + len (p2 ++ zero_triple :: q2))))
    (mk_side (p1 ++ zero_triple :: q1) (len p1)) (mk_side (p2 ++ zero_triple :: q2) (len p2)) p1 p2 0 0) as Hw.
  apply yields_ok in Hw as (ops & -> & Hops & T1 & T2 & _ & Hacc & _); try done; try lia.
  - by exists ops.
  - split; [by exists q1|done].
  - split; [by exists q2|done].
  - rewrite !span_app, !len_app. simpl. pose proof (len_nonneg (zero_triple :: q1)). pose proof (len_nonneg (zero_triple :: q2)). lia.
Qed.

Lemma walk_accounts_witness : exists ops,
  walkEdits (bs "xb") (bs "ay") (lineStarts (bs "xb")) (lineStarts (bs "ay"))
    ([mk_triple 0 1 1; mk_triple 1 0 0] ++ zero_triple :: []) ([mk_triple 1 1 1] ++ zero_triple :: [])
    = Ok (ops, len (List.filter is_conflict ops)) /\ accounts ops 2 2 2.
Proof.
  destruct (walk_accounts (bs "xb") (bs "ay") [mk_triple 0 1 1; mk_triple 1 0 0] [] [mk_triple 1 1 1] []) as (ops & E & _ & _ & _ & Ha).
  - repeat constructor; simpl; lia.
  - constructor.
  - repeat constructor; simpl; lia.
  - constructor.
  - exists ops. split; [exact E|]. apply Ha; [reflexivity|repeat constructor|repeat constructor].
Defined.

(** ** Instances *)
Definition text (ls : list bytes) : bytes := unlines ls.
Definition sample := text [bs "a"; bs "b"; bs "c"].
Definition sample_l := text [bs "a"; bs "x"; bs "b"; bs "c"].
Definition sample_r := text [bs "a"; bs "b"; bs "d"].
Definition sample_merged := text [bs "a"; bs "x"; bs "b"; bs "d"].

Ltac mergeable_sample := split; vm_compute; reflexivity.

Lemma merge_symmetric_witness : ThreeWayText_Merge sample sample_r sample_l = Ok (mk_Result sample_merged [] true).
Proof.
  apply (merge_symmetric sample sample_l sample_r); try mergeable_sample; vm_compute; reflexivity.
Defined.

Lemma merge_unchanged_witness : ThreeWayText_Merge sample sample_l sample = Ok (mk_Result sample_l [] true) /\
  ThreeWayText_Merge sample sample sample_l = Ok (mk_Result sample_l [] true).
Proof. apply (merge_unchanged sample sample_l); try mergeable_sample; vm_compute; reflexivity. Defined.

Definition sample_c1 := text [bs "a"; bs "left side"].
Definition sample_c2 := text [bs "a"; bs "right side"].

Definition merged (m : mresult Result) : Result := match m with Ok r => r | _ => mk_Result [] [] true end.

Lemma conflicts_marked_witness : Clean (merged (ThreeWayText_Merge (text [bs "a"]) sample_c1 sample_c2)) = false /\
  HasConflictMarkers (Content (merged (ThreeWayText_Merge (text [bs "a"]) sample_c1 sample_c2))) = true.
Proof.
  destruct (conflicts_marked (text [bs "a"]) sample_c1 sample_c2 (merged (ThreeWayText_Merge (text [bs "a"]) sample_c1 sample_c2)))
    as [H|[[H _]|(H1 & _ & H2)]]; [vm_compute; reflexivity|exfalso; revert H; vm_compute; discriminate|exfalso; revert H; vm_compute; discriminate|].
  split; [exact H1|exact H2].
Defined.

(** ** Lost text *)
Definition block : list bytes := [bs "alpha 1"; bs "beta 1"; bs "gam 1"; bs "del 1"; bs "ep 1"; bs "z 1"].
Definition moved_base := text (bs "q" :: bs "mark" :: block).
Definition moved_local := text (bs "r" :: bs "mark" :: block ++ [bs "b"; bs "a longer line"] ++ block ++ [bs "mark"; bs "end"]).
Definition moved_merged := text (bs "r" :: bs "mark" :: block ++ [bs "b"; bs "a longer line"] ++ block).

(** Three ways in which [Merge] loses or misplaces text without a conflict.  An
    insertion that slides down to the next one makes the last two lines of the
    local version disappear, although the other version did not change.  When
    the base lacks its final newline, a copied last line is written without the
    newline the versions have, and the next line is joined to it.  A conflict at
    the end of the file reports a base line that does not exist. *)
Theorem merge_edges :
  (ThreeWayText_Merge moved_base moved_local moved_base = Ok (mk_Result moved_merged [] true) /\ moved_merged <> moved_local) /\
  ThreeWayText_Merge (bs "a") (text [bs "a"; bs "b"]) (bs "a") = Ok (mk_Result (text [bs "ab"]) [] true) /\
  (exists res c, ThreeWayText_Merge (text [bs "a"]) sample_c1 sample_c2 = Ok res /\ Conflicts res = [c] /\
     Base c = [] /\ StartLine c = 2 /\ EndLine c = 2).
Proof.
  split; [split; [vm_compute; reflexivity|vm_compute; discriminate]|]. split; [vm_compute; reflexivity|].
  exists (merged (ThreeWayText_Merge (text [bs "a"]) sample_c1 sample_c2)).
  eexists. split; [vm_compute; reflexivity|]. split; [vm_compute; reflexivity|]. repeat split; reflexivity.
Qed.
