(* ===== verification/GoMap.v ===== *)
(** * Go maps keyed by strings, and the identifiers and row order of SQLite *)

From stdpp Require Import gmap.
From S2P Require Import Prelude.

#[export] Program Instance byte_countable : Countable byte := inj_countable Byte.to_N Byte.of_N _.
Next Obligation. intros b. apply Byte.of_to_N. Qed.

(** The order in which a query without ORDER BY answers, or ranging over a map
    goes. *)
Class TableOrder := {
  table_order {A} : list A -> list A;
  table_order_perm {A} (l : list A) : Permutation (table_order l) l;
}.
#[export] Instance insertion_order : TableOrder := { table_order A l := l; table_order_perm A l := Permutation_refl l }.

(** A new INTEGER PRIMARY KEY: one past the greatest in use. *)
Definition next_id (ids : list Z) : Z := 1 + foldr Z.max 0 ids.

Lemma next_id_fresh ids k : k ∈ ids -> k < next_id ids.
Proof.
  unfold next_id. induction ids as [|i ids IH]; [by intros ?%elem_of_nil|].
  intros [-> |Hin]%elem_of_cons; cbn [foldr]; [lia|]. specialize (IH Hin). lia.
Qed.

Lemma next_id_pos ids : 0 < next_id ids.
Proof. unfold next_id. induction ids; cbn [foldr]; lia. Qed.
