(* ===== verification/Leaf.v ===== *)
(** * The leaf table: src/internal/leaf/leaf.go

    The database tables the tag and leaf packages share, the incremental check,
    the full rebuild, the audit and the schedule of rechecks.  A query that finds
    its table answers; I/O errors are left out.  A REAL is the integer whose
    order is that of the floats (for a non-negative one its bit pattern): Julian
    days are only compared and copied. *)

From stdpp Require Import gmap.
From S2P Require Import Prelude GoStd GoMap.

(** ** The tables *)
Record tagrow := mk_tagrow { tr_type : Z; tr_srcid : Z; tr_origid : Z; tr_value : option bytes; tr_mtime : Z }.

(** A row of plink; [None] is a time the scan cannot read. *)
Record link := mk_link { lk_pid : Z; lk_cid : Z; lk_isprim : bool; lk_mtime : option Z }.

Record event := mk_event { ev_bgcolor : option bytes; ev_euser : option bytes; ev_ecomment : option bytes; ev_mtime : Z; ev_omtime : option Z }.

(** tagxref is unique in (rid, tagid); its key here is (tagid, rid). *)
Record tables := mk_tables {
  tagxref : gmap (Z * Z) tagrow; plink : list link; leaf : gset Z; tag : gmap bytes Z;
  events : gmap Z event; main_branch : option bytes }.

Definition set_tagxref (t : tables) (x : gmap (Z * Z) tagrow) : tables :=
  mk_tables x (plink t) (leaf t) (tag t) (events t) (main_branch t).
Definition set_leaf (t : tables) (l : gset Z) : tables :=
  mk_tables (tagxref t) (plink t) l (tag t) (events t) (main_branch t).
Definition set_tag (t : tables) (x : gmap bytes Z) : tables :=
  mk_tables (tagxref t) (plink t) (leaf t) x (events t) (main_branch t).
Definition set_events (t : tables) (e : gmap Z event) : tables :=
  mk_tables (tagxref t) (plink t) (leaf t) (tag t) e (main_branch t).

Definition BranchTagID : Z := 8.

(** ** Branches *)

(** [mainBranchSQL]. *)
Definition mainBranch (t : tables) : bytes :=
  match main_branch t with Some [] | None => bs "trunk" | Some v => v end.

(** One side of [sameBranchSQL]: the active branch row's value. *)
Definition branch_of (t : tables) (rid : Z) : bytes :=
  match tagxref t !! (BranchTagID, rid) with
  | Some r => if tr_type r >? 0 then default (mainBranch t) (tr_value r) else mainBranch t
  | None => mainBranch t
  end.

(** One side of [fossilSameBranchSQL]: a row of any type, and the literal trunk. *)
Definition fossil_branch_of (t : tables) (rid : Z) : bytes :=
  match tagxref t !! (BranchTagID, rid) with
  | Some r => default (bs "trunk") (tr_value r)
  | None => bs "trunk"
  end.

Definition sameBranch (t : tables) (l : link) : bool := bytes_eqb (branch_of t (lk_pid l)) (branch_of t (lk_cid l)).
Definition fossilSameBranch (t : tables) (l : link) : bool :=
  bytes_eqb (fossil_branch_of t (lk_pid l)) (fossil_branch_of t (lk_cid l)).

(** Some plink row of the parent [rid] satisfies [p]. *)
Definition child_with (t : tables) (rid : Z) (p : link -> bool) : bool :=
  existsb (fun l => (lk_pid l =? rid) && p l) (plink t).

(** ** Check and Rebuild *)
Inductive leaf_error := ErrRollback.
Abbreviation lresult := (outcome leaf_error).

Definition Check (t : tables) (rid : Z) : lresult tables :=
  if rid <=? 0 then Panic "leaf.Check: rid must be positive"
  else if child_with t rid (sameBranch t) then Ok (set_leaf t (leaf t ∖ {[rid]}))
  else Ok (set_leaf t ({[rid]} ∪ leaf t)).

(** The rids of a branch row of any type, and the parents. *)
Definition branch_rids (t : tables) : list Z :=
  omap (fun k : Z * Z => if fst k =? BranchTagID then Some (snd k) else None) (map fst (map_to_list (tagxref t))).
Definition parent_rids (t : tables) : list Z := List.filter (fun p => p >? 0) (map lk_pid (plink t)).
Definition candidates (t : tables) : gset Z := list_to_set (branch_rids t ++ parent_rids t).

Definition Rebuild (t : tables) : tables :=
  set_leaf t (list_to_set (List.filter (fun rid => negb (child_with t rid (sameBranch t))) (elements (candidates t)))).

(** ** Audit *)
Record Findings := mk_Findings { Stale : list Z; Missing : list Z; Stray : list Z }.

(** ORDER BY rid, over a set of rids. *)
Definition by_rid (s : gset Z) : list Z := insertion_sort Z.ltb (elements s).

Definition has_parent_tag (t : tables) (rid : Z) : bool :=
  match tag t !! bs "parent" with
  | Some tagid => bool_decide (is_Some (tagxref t !! (tagid, rid)))
  | None => false
  end.

(** A child whose branch row was written once it was linked. *)
Definition written_after_link (t : tables) (l : link) : bool :=
  match tagxref t !! (BranchTagID, lk_cid l) with
  | Some r => ((tr_srcid r =? 0) || (tr_srcid r =? lk_cid l)) && negb (has_parent_tag t (lk_cid l))
  | None => false
  end.

Definition is_stale (t : tables) (rid : Z) : bool :=
  child_with t rid (fun l => sameBranch t l && written_after_link t l)
  && child_with t rid (fun l => fossilSameBranch t l && written_after_link t l).

Definition is_missing (t : tables) (rid : Z) : bool :=
  negb (bool_decide (rid ∈ leaf t)) && negb (child_with t rid (fun l => sameBranch t l || fossilSameBranch t l)).

Definition is_stray (t : tables) (rid : Z) : bool :=
  negb (bool_decide (is_Some (tagxref t !! (BranchTagID, rid))))
  && negb (existsb (fun l => (lk_pid l =? rid) || (lk_cid l =? rid)) (plink t)).

(** [undetached]. *)
Definition undetached (rids : list Z) (detached : gset Z) : list Z :=
  List.filter (fun rid => negb (bool_decide (rid ∈ detached))) rids.

Definition Audit (t : tables) (detached : gset Z) : Findings :=
  mk_Findings
    (List.filter (is_stale t) (by_rid (leaf t)))
    (undetached (List.filter (is_missing t) (by_rid (list_to_set (branch_rids t)))) detached)
    (undetached (List.filter (is_stray t) (by_rid (leaf t))) detached).

(** ** The schedule *)
Record Pending := mk_Pending { direct : list Z; checks : gset Z; order : list Z }.
Record Mark := mk_Mark { mark_direct : Z; mark_order : Z }.

Definition NewPending : Pending := mk_Pending [] ∅ [].

Definition add (p : Pending) (rid : Z) : Pending :=
  if bool_decide (rid ∈ checks p) then p
  else mk_Pending (direct p) ({[rid]} ∪ checks p) (order p ++ [rid]).

Definition parentsOf (t : tables) (rid : Z) : list Z :=
  List.filter (fun p => p >? 0) (map lk_pid (List.filter (fun l => lk_cid l =? rid) (plink t))).

Section Schedule.
Context `{TO : !TableOrder}.

Definition Schedule (p : Pending) (t : tables) (rid : Z) : lresult Pending :=
  if rid <=? 0 then Panic "leaf.Pending.Schedule: rid must be positive"
  else
    let p := add (mk_Pending (direct p ++ [rid]) (checks p) (order p)) rid in
    Ok (fold_left add (table_order (parentsOf t rid)) p).

Definition Len (p : Pending) : Z := Z.of_nat (size (checks p)).

(** [Pending.Mark], and [Rollback] to it. *)
Definition MarkOf (p : Pending) : Mark := mk_Mark (len (direct p)) (len (order p)).

Definition Rollback (p : Pending) (m : Mark) : lresult Pending :=
  if (mark_direct m >? len (direct p)) || (mark_order m >? len (order p)) then
    Panic "leaf.Pending.Rollback: mark is past the schedule's end"
  else
    let? dropped := slice_of (order p) (mark_order m) (len (order p)) in
    let? d := slice_of (direct p) 0 (mark_direct m) in
    let? o := slice_of (order p) 0 (mark_order m) in
    Ok (mk_Pending d (fold_left (fun s rid => s ∖ {[rid]}) dropped (checks p)) o).

Fixpoint check_all (t : tables) (rids : list Z) : lresult tables :=
  match rids with
  | [] => Ok t
  | rid :: rids => let? t := Check t rid in check_all t rids
  end.

(** The rids to check: the scheduled ones, and the parents the direct ones have
    now. *)
Definition todo (p : Pending) (t : tables) : gset Z :=
  checks p ∪ list_to_set (mbind (parentsOf t) (direct p)).

Definition Apply (p : Pending) (t : tables) : lresult tables := check_all t (by_rid (todo p t)).

Definition Reset (p : Pending) : Pending := NewPending.

End Schedule.

(** * What the leaf table holds after a check, a batch and a rebuild *)

Lemma existsb_elem {A} (f : A -> bool) l : existsb f l = true <-> exists x, x ∈ l /\ f x = true.
Proof. rewrite existsb_exists. by setoid_rewrite list_elem_of_In. Qed.

Lemma child_with_true t rid p : child_with t rid p = true <-> exists l, l ∈ plink t /\ lk_pid l = rid /\ p l = true.
Proof.
  unfold child_with. rewrite existsb_elem. setoid_rewrite andb_true_iff. setoid_rewrite Z.eqb_eq. naive_solver.
Qed.

Lemma child_with_false t rid p : child_with t rid p = false <-> forall l, l ∈ plink t -> lk_pid l = rid -> p l = false.
Proof.
  rewrite <- not_true_iff_false, child_with_true. split.
  - intros H l Hl Hr. apply not_true_iff_false. intros Hp. apply H. by exists l.
  - intros H (l & Hl & Hr & Hp). by rewrite H in Hp.
Qed.

(** Section 7.3's rule: no child is on the check-in's branch. *)
Definition is_leaf (t : tables) (rid : Z) : bool := negb (child_with t rid (sameBranch t)).

(** The row of each of [rids] follows the rule, and no other has changed. *)
Definition checked (t : tables) (rids : Z -> Prop) (L : gset Z) : Prop :=
  forall x, (rids x -> (x ∈ L <-> is_leaf t x = true)) /\ (~ rids x -> (x ∈ L <-> x ∈ leaf t)).

Lemma checked_in t rids L x : checked t rids L -> rids x -> (x ∈ L <-> is_leaf t x = true).
Proof. intros H. apply H. Qed.
Lemma checked_out t rids L x : checked t rids L -> ~ rids x -> (x ∈ L <-> x ∈ leaf t).
Proof. intros H. apply H. Qed.

Lemma Check_ok t rid : 0 < rid -> exists L, Check t rid = Ok (set_leaf t L) /\ checked t (eq rid) L.
Proof.
  intros Hr. unfold Check, checked, is_leaf. rewrite (proj2 (Z.leb_gt _ _)) by lia.
  destruct (child_with t rid (sameBranch t)) eqn:Ec; eexists; (split; [done|]); intros x;
    (split; [intros <-; rewrite Ec; set_solver|set_solver]).
Qed.

Lemma check_all_ok rids : forall t, Forall (fun x => 0 < x) rids ->
  exists L, check_all t rids = Ok (set_leaf t L) /\ checked t (fun x => x ∈ rids) L.
Proof.
  induction rids as [|r rids IH]; intros t Hp.
  { exists (leaf t). split; [by destruct t|]. intros x. split; [|done]. by intros ?%elem_of_nil. }
  inversion Hp as [|? ? Hr Hrs]; subst. destruct (Check_ok t r Hr) as (L & HL & HcL).
  destruct (IH (set_leaf t L) Hrs) as (L' & HL' & Hc'). exists L'. cbn [check_all]. rewrite HL. cbn [obind]. rewrite HL'.
  split; [done|]. intros x. specialize (HcL x) as [H1 H2]. specialize (Hc' x) as [H1' H2']. cbn [leaf set_leaf] in H2'.
  change (is_leaf (set_leaf t L) x) with (is_leaf t x) in H1'. split.
  - intros Hx. destruct (decide (x ∈ rids)) as [Hin|Hin]; [by apply H1'|].
    apply elem_of_cons in Hx as [->|]; [|done]. rewrite H2' by done. by apply H1.
  - intros [Hne Hin]%not_elem_of_cons. rewrite H2' by done. apply H2. congruence.
Qed.

Lemma elem_of_by_rid s x : x ∈ by_rid s <-> x ∈ s.
Proof. unfold by_rid. by rewrite insertion_sort_perm, elem_of_elements. Qed.

Lemma parentsOf_positive t rid p : p ∈ parentsOf t rid -> 0 < p.
Proof. unfold parentsOf. rewrite list_elem_of_In, filter_In. rewrite Z.gtb_lt. tauto. Qed.

Lemma elem_of_todo p t x : x ∈ todo p t <-> x ∈ checks p \/ exists r, r ∈ direct p /\ x ∈ parentsOf t r.
Proof. unfold todo. rewrite elem_of_union, elem_of_list_to_set, list_elem_of_bind. naive_solver. Qed.

Lemma Apply_ok p t : set_Forall (fun x => 0 < x) (checks p) ->
  exists L, Apply p t = Ok (set_leaf t L) /\ checked t (fun x => x ∈ todo p t) L.
Proof.
  intros Hp. destruct (check_all_ok (by_rid (todo p t)) t) as (L & HL & Hc).
  { apply Forall_forall. intros x. rewrite elem_of_by_rid, elem_of_todo.
    intros [Hx|(r & _ & Hx)]; [by apply Hp|by eapply parentsOf_positive]. }
  exists L. split; [done|]. intros x. specialize (Hc x). by rewrite elem_of_by_rid in Hc.
Qed.

(** A recheck writes the leaf table only. *)
Lemma check_all_leaf rids : forall t u, check_all t rids = Ok u -> exists L, u = set_leaf t L.
Proof.
  induction rids as [|r rids IH]; intros t u; cbn [check_all].
  { intros [= <-]. exists (leaf t). by destruct t. }
  unfold Check. destruct (_ <=? _); [done|]. destruct (child_with _ _ _); cbn [obind]; intros (L & ->)%IH; by exists L.
Qed.

(** ** The rebuild *)
Lemma elem_of_branch_rids t x : x ∈ branch_rids t <-> is_Some (tagxref t !! (BranchTagID, x)).
Proof.
  unfold branch_rids. rewrite list_elem_of_omap. setoid_rewrite list_elem_of_fmap. split.
  - intros (k & ([[ti r] row] & -> & Hk) & Hx). cbn in Hx. case_hyp Hx; [|done]. zbool. injection Hx as ->. subst ti.
    apply elem_of_map_to_list in Hk. by exists row.
  - intros [row Hrow]. exists (BranchTagID, x). split; [|by cbn].
    exists ((BranchTagID, x), row). split; [done|]. by apply elem_of_map_to_list.
Qed.

Lemma elem_of_candidates t x : x ∈ candidates t <->
  is_Some (tagxref t !! (BranchTagID, x)) \/ 0 < x /\ exists l, l ∈ plink t /\ lk_pid l = x.
Proof.
  unfold candidates, parent_rids. rewrite elem_of_list_to_set, elem_of_app, elem_of_branch_rids, (list_elem_of_In (List.filter _ _)), filter_In, in_map_iff, Z.gtb_lt.
  setoid_rewrite <- list_elem_of_In. naive_solver.
Qed.

Lemma elem_of_rebuild t x : x ∈ leaf (Rebuild t) <-> x ∈ candidates t /\ is_leaf t x = true.
Proof.
  unfold Rebuild. cbn [leaf set_leaf]. rewrite elem_of_list_to_set, list_elem_of_In, filter_In, <- list_elem_of_In, elem_of_elements. done.
Qed.

(** An untagged check-in is on the default branch. *)
Lemma branch_of_untagged t rid : tagxref t !! (BranchTagID, rid) = None -> branch_of t rid = mainBranch t.
Proof. unfold branch_of. by intros ->. Qed.
