(* ===== verification/Tag.v ===== *)
(** * Tags and their propagation: src/internal/tag/tag.go, propagate.go

    The rows a tag application writes and the walk that hands a propagating tag
    down the primary children, over the tables of [Leaf].  container/heap answers
    some least element ([GoHeap]); SQLite's julianday is a parameter.  [AddTag]
    stores a blob before it applies its tag, and is not here. *)

From stdpp Require Import gmap.
From S2P Require Import Prelude GoMap GoStd Leaf.

Definition TagCancel : Z := 0.
Definition TagSingleton : Z := 1.
Definition TagPropagating : Z := 2.

Inductive tag_error := ErrUnreadableMtime (cid : Z) | ErrTooManyIterations | ErrTagName (tagid : Z) | ErrLeaf (e : leaf_error).
Abbreviation tresult := (outcome tag_error).

(** What a call works on: the tables, and the batch's schedule when it has one. *)
Record state := mk_state { tbl : tables; sched : option Pending }.

(** [nullableValue]. *)
Definition nullableValue (v : bytes) : option bytes := match v with [] => None | _ => Some v end.

(** UPDATE event ... WHERE objid=rid. *)
Definition update_event (t : tables) (rid : Z) (f : event -> event) : tables := set_events t (alter f rid (events t)).
Definition set_bgcolor (v : option bytes) (e : event) : event := mk_event v (ev_euser e) (ev_ecomment e) (ev_mtime e) (ev_omtime e).
Definition set_euser (v : option bytes) (e : event) : event := mk_event (ev_bgcolor e) v (ev_ecomment e) (ev_mtime e) (ev_omtime e).
Definition set_ecomment (v : option bytes) (e : event) : event := mk_event (ev_bgcolor e) (ev_euser e) v (ev_mtime e) (ev_omtime e).

(** ** The walk *)
Record queueItem := mk_queueItem { qi_rid : Z; qi_mtime : Z }.

(** container/heap over [mtimeQueue]: [heap.Push] adds an element, [heap.Pop]
    takes a least one out. *)
Class GoHeap := {
  heap_push : queueItem -> list queueItem -> list queueItem;
  heap_pop : list queueItem -> option (queueItem * list queueItem);
  heap_push_perm q h : Permutation (heap_push q h) (q :: h);
  heap_pop_nil : heap_pop [] = None;
  heap_pop_cons h : h <> [] -> exists q h', heap_pop h = Some (q, h') /\ Permutation h (q :: h')
    /\ Forall (fun q' => qi_mtime q <= qi_mtime q') h';
}.

Record propagation := mk_propagation {
  pr_tagid : Z; pr_tagType : Z; pr_origID : Z; pr_mtime : Z; pr_value : bytes; pr_tagName : bytes;
  pr_reachAbsent : bool }.

Record walkChild := mk_walkChild { cid : Z; childMtime : Z; doit : bool }.

Definition maxIterations : nat := Z.to_nat 1000000.

Section Walk.
Context `{TO : !TableOrder} `{GH : !GoHeap}.

(** The query's [doit] column: COALESCE(srcid=0 AND tagxref.mtime < ?, ?). *)
Definition doit_column (pr : propagation) (t : tables) (cid : Z) : bool :=
  match tagxref t !! (pr_tagid pr, cid) with
  | Some r => (tr_srcid r =? 0) && (tr_mtime r <? pr_mtime pr)
  | None => (pr_tagType pr =? TagPropagating) || pr_reachAbsent pr
  end.

Definition primary_links (t : tables) (rid : Z) : list link :=
  List.filter (fun l => (lk_pid l =? rid) && lk_isprim l) (plink t).

Fixpoint scan_children (pr : propagation) (t : tables) (rows : list link) : tresult (list walkChild) :=
  match rows with
  | [] => Ok []
  | l :: rows =>
      match lk_mtime l with
      | None => Err (ErrUnreadableMtime (lk_cid l))
      | Some m =>
          let? rest := scan_children pr t rows in
          Ok (mk_walkChild (lk_cid l) m (doit_column pr t (lk_cid l)) :: rest)
      end
  end.

Definition children (pr : propagation) (t : tables) (rid : Z) : tresult (list walkChild) :=
  scan_children pr t (table_order (primary_links t rid)).

(** [Schedule] of a branch row just written. *)
Definition schedule (st : state) (p : Pending) (rid : Z) : tresult state :=
  let? p := wrap_err ErrLeaf (Schedule p (tbl st) rid) in Ok (mk_state (tbl st) (Some p)).

Definition inherited_row (pr : propagation) : tagrow :=
  mk_tagrow 2 0 (pr_origID pr) (nullableValue (pr_value pr)) (pr_mtime pr).

Definition apply_tables (pr : propagation) (t : tables) (cid : Z) : tables :=
  if pr_tagType pr =? TagPropagating then
    let t := set_tagxref t (<[(pr_tagid pr, cid) := inherited_row pr]> (tagxref t)) in
    if bytes_eqb (pr_tagName pr) (bs "bgcolor") then update_event t cid (set_bgcolor (Some (pr_value pr))) else t
  else
    let t := set_tagxref t (delete (pr_tagid pr, cid) (tagxref t)) in
    if bytes_eqb (pr_tagName pr) (bs "bgcolor") then update_event t cid (set_bgcolor None) else t.

Definition apply (pr : propagation) (st : state) (cid : Z) : tresult state :=
  let st := mk_state (apply_tables pr (tbl st) cid) (sched st) in
  match sched st with
  | Some p => if pr_tagid pr =? BranchTagID then schedule st p cid else Ok st
  | None => Ok st
  end.

(** The loop over one check-in's children: what it applied, and the queue. *)
Fixpoint apply_children (pr : propagation) (cs : list walkChild) (pq : list queueItem) (st : state)
    : tresult (list queueItem * state) :=
  match cs with
  | [] => Ok (pq, st)
  | c :: cs =>
      if doit c then
        let? st := apply pr st (cid c) in
        apply_children pr cs (heap_push (mk_queueItem (cid c) (childMtime c)) pq) st
      else apply_children pr cs pq st
  end.

(** The walk's loop; [remaining] are the iterations it has left. *)
Fixpoint walk (remaining : nat) (pr : propagation) (pq : list queueItem) (visited : gset Z) (st : state) : tresult state :=
  match heap_pop pq with
  | None => Ok st
  | Some (item, pq) =>
      match remaining with
      | O => Err ErrTooManyIterations
      | S remaining =>
          if bool_decide (qi_rid item ∈ visited) then walk remaining pr pq visited st
          else
            let? cs := children pr (tbl st) (qi_rid item) in
            let? (pq, st) := apply_children pr cs pq st in
            walk remaining pr pq ({[qi_rid item]} ∪ visited) st
      end
  end.

Definition propagate (pr : propagation) (st : state) (pid : Z) : tresult state :=
  walk maxIterations pr (heap_push (mk_queueItem pid 0) []) ∅ st.

(** ** Re-propagating all the tags of a check-in *)
Definition rows_of (t : tables) (rid : Z) : list (Z * tagrow) :=
  omap (fun kr : (Z * Z) * tagrow => if snd (fst kr) =? rid then Some (fst (fst kr), snd kr) else None)
       (map_to_list (tagxref t)).

(** SELECT tagname FROM tag WHERE tagid=?. *)
Definition tagname_of (t : tables) (tagid : Z) : option bytes :=
  fst <$> head (List.filter (fun kv : bytes * Z => snd kv =? tagid) (map_to_list (tag t))).

Fixpoint propagate_entries (es : list (Z * tagrow)) (rid : Z) (st : state) : tresult state :=
  match es with
  | [] => Ok st
  | (tagid, r) :: es =>
      let tagtype := if tr_type r =? TagSingleton then TagCancel else tr_type r in
      match tagname_of (tbl st) tagid with
      | None => Err (ErrTagName tagid)
      | Some tagname =>
          let? st := propagate (mk_propagation tagid tagtype (tr_origid r) (tr_mtime r)
                                  (default [] (tr_value r)) tagname false) st rid in
          propagate_entries es rid st
      end
  end.

Definition propagateAll (rid : Z) (st : state) : tresult state :=
  if rid <=? 0 then Ok st else propagate_entries (table_order (rows_of (tbl st) rid)) rid st.

Definition PropagateAllLeaves (rid : Z) (st : state) : tresult state :=
  match sched st with
  | None => Panic "tag.PropagateAllLeaves: leaves must not be nil"
  | Some _ => propagateAll rid st
  end.

(** ** Applying a tag *)
Record ApplyOpts := mk_ApplyOpts {
  TargetRID : Z; SrcRID : Z; TagName : bytes; TagType : Z; Value : bytes; MTime : Z; Leaves : option Pending }.

(** The new row's id is one past the greatest, as for any INTEGER PRIMARY KEY. *)
Definition next_tagid (t : tables) : Z := next_id (map snd (map_to_list (tag t))).

Definition ensureTag (t : tables) (name : bytes) : tresult (Z * tables) :=
  match name with
  | [] => Panic "tag.ensureTag: name must not be empty"
  | _ =>
      match tag t !! name with
      | Some tagid => Ok (tagid, t)
      | None => Ok (next_tagid t, set_tag t (<[name := next_tagid t]> (tag t)))
      end
  end.

Definition superseded (t : tables) (tagid rid mtime : Z) : bool :=
  match tagxref t !! (tagid, rid) with Some r => tr_mtime r >=? mtime | None => false end.

Definition replacesPropagatingBranch (t : tables) (tagid : Z) (opts : ApplyOpts) : bool :=
  if negb (tagid =? BranchTagID) || (TagType opts =? TagPropagating) then false
  else match tagxref t !! (tagid, TargetRID opts) with Some r => tr_type r =? TagPropagating | None => false end.

(** [eventTagColumns]. *)
Definition eventTagColumns (name : bytes) : option (option bytes -> event -> event) :=
  if bytes_eqb name (bs "bgcolor") then Some set_bgcolor
  else if bytes_eqb name (bs "user") then Some set_euser
  else if bytes_eqb name (bs "comment") then Some set_ecomment
  else None.

Definition applyEventOverride (t : tables) (opts : ApplyOpts) : tables :=
  match eventTagColumns (TagName opts) with
  | None => t
  | Some col =>
      let value := if TagType opts =? TagCancel then None else nullableValue (Value opts) in
      update_event t (TargetRID opts) (col value)
  end.

(** SQLite's julianday: the day a time string names. *)
Context (julianday : bytes -> option Z).

(** 5373484.5, the end of year 9999, as the float order's integer. *)
Definition julian_end : Z := 4707527746023063552.

(** The time of a date tag applied to [rid] itself. *)
Definition date_override (t : tables) (rid : Z) : option Z :=
  match tag t !! bs "date" with
  | None => None
  | Some tagid =>
      match tagxref t !! (tagid, rid) with
      | None => None
      | Some r =>
          if (tr_srcid r >? 0) && (tr_type r >? 0) then
            match tr_value r with
            | Some v => match julianday v with
                        | Some jd => if (jd >? 0) && (jd <? julian_end) then Some jd else None
                        | None => None
                        end
            | None => None
            end
          else None
      end
  end.

Definition refreshed (jd : option Z) (e : event) : event :=
  mk_event (ev_bgcolor e) (ev_euser e) (ev_ecomment e)
    (default (default (ev_mtime e) (ev_omtime e)) jd) (Some (default (ev_mtime e) (ev_omtime e))).

Definition RefreshEventTime (t : tables) (rid : Z) : tresult tables :=
  if rid <=? 0 then Panic "tag.RefreshEventTime: rid must be positive"
  else Ok (update_event t rid (refreshed (date_override t rid))).

Definition applyDateOverride (t : tables) (opts : ApplyOpts) : tresult tables :=
  if bytes_eqb (TagName opts) (bs "date") then RefreshEventTime t (TargetRID opts) else Ok t.

Definition propagateAfterInsert (st : state) (tagid : Z) (opts : ApplyOpts) (reachAbsent : bool) : tresult state :=
  let tagType := if TagType opts =? TagSingleton then TagCancel else TagType opts in
  propagate (mk_propagation tagid tagType (TargetRID opts) (MTime opts) (Value opts) (TagName opts)
               (reachAbsent && (tagType =? TagCancel))) st (TargetRID opts).

Definition target_row (opts : ApplyOpts) : tagrow :=
  mk_tagrow (TagType opts) (SrcRID opts) (TargetRID opts) (nullableValue (Value opts)) (MTime opts).

Definition insert_target (t : tables) (tagid : Z) (opts : ApplyOpts) : tables :=
  set_tagxref t (<[(tagid, TargetRID opts) := target_row opts]> (tagxref t)).

(** The tables, and the caller's schedule as the call leaves it. *)
Definition ApplyTagWithTx (t : tables) (opts : ApplyOpts) : tresult state :=
  if bytes_eqb (TagName opts) [] then Panic "tag.ApplyTagWithTx: opts.TagName must not be empty"
  else if TargetRID opts <=? 0 then Panic "tag.ApplyTagWithTx: opts.TargetRID must be positive"
  else
    let? (tagid, t) := ensureTag t (TagName opts) in
    if (tagid =? BranchTagID) && bool_decide (Leaves opts = None) then
      Panic "tag.ApplyTagWithTx: a branch tag needs opts.Leaves"
    else if superseded t tagid (TargetRID opts) (MTime opts) then Ok (mk_state t (Leaves opts))
    else
      let reach := replacesPropagatingBranch t tagid opts in
      let t := insert_target t tagid opts in
      let? st :=
        match Leaves opts with
        | Some p => if tagid =? BranchTagID then schedule (mk_state t (Some p)) p (TargetRID opts)
                    else Ok (mk_state t (Some p))
        | None => Ok (mk_state t None)
        end in
      let? t := applyDateOverride (applyEventOverride (tbl st) opts) opts in
      propagateAfterInsert (mk_state t (sched st)) tagid opts reach.

(** In one transaction, which applies its own schedule when the caller has none. *)
Definition ApplyTag (t : tables) (opts : ApplyOpts) : tresult state :=
  if bytes_eqb (TagName opts) [] then Panic "tag.ApplyTag: opts.TagName must not be empty"
  else if TargetRID opts <=? 0 then Panic "tag.ApplyTag: opts.TargetRID must be positive"
  else
    match Leaves opts with
    | Some _ => ApplyTagWithTx t opts
    | None =>
        let? st := ApplyTagWithTx t (mk_ApplyOpts (TargetRID opts) (SrcRID opts) (TagName opts) (TagType opts)
                                       (Value opts) (MTime opts) (Some NewPending)) in
        match sched st with
        | Some p => let? t := wrap_err ErrLeaf (Apply p (tbl st)) in Ok (mk_state t None)
        | None => Ok st
        end
    end.

End Walk.

(** A heap that looks for a least element. *)
Fixpoint pop_least (h : list queueItem) : option (queueItem * list queueItem) :=
  match h with
  | [] => None
  | q :: h =>
      match pop_least h with
      | Some (q', h') => if qi_mtime q' <? qi_mtime q then Some (q', q :: h') else Some (q, h)
      | None => Some (q, h)
      end
  end.

Lemma pop_least_none h : pop_least h = None -> h = [].
Proof. destruct h as [|q h]; [done|]. simpl. destruct (pop_least h) as [[q' h']|]; [|done]. by destruct (_ <? _). Qed.

Lemma pop_least_some h q h' : pop_least h = Some (q, h') ->
  Permutation h (q :: h') /\ Forall (fun q' => qi_mtime q <= qi_mtime q') h'.
Proof.
  revert q h'. induction h as [|a h IH]; intros q h'; [done|]. simpl.
  destruct (pop_least h) as [[b k]|] eqn:E.
  - destruct (IH _ _ eq_refl) as [Hp Hf]. destruct (_ <? _) eqn:Hl; zbool; intros [= <- <-].
    + split; [by rewrite Hp, Permutation_swap|]. constructor; [lia|done].
    + split; [done|]. rewrite Hp. constructor; [lia|]. eapply Forall_impl; [done|]. simpl. lia.
  - apply pop_least_none in E as ->. intros [= <- <-]. split; [done|constructor].
Qed.

#[export] Program Instance list_heap : GoHeap := { heap_push q h := q :: h; heap_pop := pop_least }.
Next Obligation. done. Qed.
Next Obligation. done. Qed.
Next Obligation.
  intros h Hh. destruct (pop_least h) as [[q h']|] eqn:E; [|by apply pop_least_none in E].
  exists q, h'. split; [done|]. by apply pop_least_some.
Qed.
