(* ===== verification/TagWalk.v ===== *)
(** * The walk reaches exactly the region of its tag

    [reach t0 pr pid r]: a chain of primary links leads from [pid] to [r], each
    child of it one the query would act on in the tables [t0] the walk starts
    from.  The walk answers the tables in which each of those check-ins, and no
    other, has been given or has lost its row, in whatever order the queries and
    the heap answer. *)

From stdpp Require Import gmap.
From S2P Require Import Prelude GoStd GoMap Leaf Tag.

(** ** The schedule *)
Lemma add_checks p rid : checks (add p rid) = {[rid]} ∪ checks p.
Proof. unfold add. case_bool_decide; [|done]. apply leibniz_equiv. set_solver. Qed.

Lemma add_all_checks rids p : checks (fold_left add rids p) = list_to_set rids ∪ checks p.
Proof.
  revert p. induction rids as [|r rids IH]; intros p; cbn [fold_left list_to_set]; [apply leibniz_equiv; set_solver|].
  rewrite IH, add_checks. apply leibniz_equiv. set_solver.
Qed.

(** A positive parent of [rid]. *)
Definition parent_of (t : tables) (rid p : Z) : Prop := 0 < p /\ exists l, l ∈ plink t /\ lk_cid l = rid /\ lk_pid l = p.

Lemma elem_of_parentsOf t rid p : p ∈ parentsOf t rid <-> parent_of t rid p.
Proof.
  unfold parentsOf, parent_of. rewrite list_elem_of_In, filter_In, in_map_iff. setoid_rewrite filter_In.
  setoid_rewrite <- list_elem_of_In. setoid_rewrite Z.eqb_eq. setoid_rewrite Z.gtb_lt. naive_solver.
Qed.

Lemma Schedule_ok `{TableOrder} p t rid : 0 < rid ->
  yields (Schedule p t rid) (fun p' => direct p' ≡ₚ rid :: direct p /\
    forall x, x ∈ checks p' <-> x ∈ checks p \/ x = rid \/ parent_of t rid x).
Proof.
  intros Hr. unfold Schedule. rewrite (proj2 (Z.leb_gt _ _)) by lia. cbn [yields].
  assert (forall rids p, direct (fold_left add rids p) = direct p) as Hd.
  { intros rids. induction rids as [|r rids IH]; intros q; [done|]. cbn [fold_left]. rewrite IH. unfold add. by case_bool_decide. }
  split.
  - rewrite Hd. unfold add. case_bool_decide; cbn [direct]; apply Permutation_app_comm.
  - intros x. rewrite add_all_checks, elem_of_union, elem_of_list_to_set, table_order_perm, elem_of_parentsOf, add_checks.
    cbn [checks]. set_solver.
Qed.

Section Region.
Context `{TO : !TableOrder} `{GH : !GoHeap} (pr : propagation) (s0 : state) (pid : Z).
Abbreviation t0 := (tbl s0).

(** ** The region *)

(** The tag takes a child over: the child has no row of it, where the walk acts on
    such, or an inherited one that is older. *)
Definition takes_over (t : tables) (c : Z) : Prop :=
  match tagxref t !! (pr_tagid pr, c) with
  | Some r => tr_srcid r = 0 /\ tr_mtime r < pr_mtime pr
  | None => pr_tagType pr = TagPropagating \/ pr_reachAbsent pr = true
  end.

Lemma doit_takes_over t c : doit_column pr t c = true <-> takes_over t c.
Proof using.
  unfold doit_column, takes_over. destruct (tagxref t !! _) as [r|].
  - by rewrite andb_true_iff, Z.eqb_eq, Z.ltb_lt.
  - by rewrite orb_true_iff, Z.eqb_eq.
Qed.

Inductive reach : Z -> Prop :=
| reach_first l : l ∈ plink t0 -> lk_isprim l = true -> lk_pid l = pid ->
    takes_over t0 (lk_cid l) -> reach (lk_cid l)
| reach_next l : l ∈ plink t0 -> lk_isprim l = true -> reach (lk_pid l) ->
    takes_over t0 (lk_cid l) -> reach (lk_cid l).

(** ** The tables in which the check-ins of [D] have been acted on *)
Definition row_after (k : Z * Z) (D : gset Z) : option tagrow :=
  if bool_decide (k.1 = pr_tagid pr /\ k.2 ∈ D)
  then (if pr_tagType pr =? TagPropagating then Some (inherited_row pr) else None)
  else tagxref t0 !! k.

Definition walk_bgcolor : option bytes := if pr_tagType pr =? TagPropagating then Some (pr_value pr) else None.

Definition event_after (r : Z) (D : gset Z) : option event :=
  if bool_decide (pr_tagName pr = bs "bgcolor" /\ r ∈ D) then set_bgcolor walk_bgcolor <$> events t0 !! r
  else events t0 !! r.

(** What the branch rows of [D] have added to the schedule. *)
Definition sched_after (D : gset Z) (s : option Pending) : Prop :=
  match sched s0 with
  | None => s = None
  | Some p0 =>
      exists p, s = Some p /\
        if pr_tagid pr =? BranchTagID
        then (forall x, x ∈ checks p <-> x ∈ checks p0 \/ exists r, r ∈ D /\ (x = r \/ parent_of t0 r x))
             /\ (forall x, x ∈ direct p <-> x ∈ direct p0 \/ x ∈ D)
        else p = p0
  end.

Record after (D : gset Z) (s : state) : Prop := {
  after_tagxref k : tagxref (tbl s) !! k = row_after k D;
  after_events r : events (tbl s) !! r = event_after r D;
  after_plink : plink (tbl s) = plink t0;
  after_leaf : leaf (tbl s) = leaf t0;
  after_tag : tag (tbl s) = tag t0;
  after_main : main_branch (tbl s) = main_branch t0;
  after_sched : sched_after D (sched s);
}.

Lemma after_start : after ∅ s0.
Proof using.
  constructor; try done.
  - intros k. unfold row_after. rewrite bool_decide_eq_false_2; [done|set_solver].
  - intros r. unfold event_after. rewrite bool_decide_eq_false_2; [done|set_solver].
  - unfold sched_after. destruct (sched s0) as [p|]; [|done]. exists p. split; [done|].
    destruct (_ =? _); [|done]. split; intros x; set_solver.
Qed.

(** ** One child *)
Lemma apply_plink t c : plink (apply_tables pr t c) = plink t.
Proof using. unfold apply_tables. by repeat case_goal. Qed.

Lemma apply_tagxref D s c k : after D s -> tagxref (apply_tables pr (tbl s) c) !! k = row_after k ({[c]} ∪ D).
Proof using.
  intros Ha. pose proof (after_tagxref _ _ Ha k) as Hk. unfold row_after in *. destruct k as [ti r]. cbn [fst snd] in *.
  assert (tagxref (apply_tables pr (tbl s) c) =
    if pr_tagType pr =? TagPropagating then <[(pr_tagid pr, c) := inherited_row pr]> (tagxref (tbl s))
    else delete (pr_tagid pr, c) (tagxref (tbl s))) as ->.
  { unfold apply_tables. by repeat case_goal. }
  destruct (decide ((ti, r) = (pr_tagid pr, c))) as [[= -> ->]|Hne].
  - rewrite bool_decide_eq_true_2 by set_solver. destruct (_ =? _); by simplify_map_eq.
  - transitivity (tagxref (tbl s) !! (ti, r)); [destruct (_ =? _); by simplify_map_eq|]. rewrite Hk.
    rewrite (bool_decide_ext (ti = pr_tagid pr /\ r ∈ {[c]} ∪ D) (ti = pr_tagid pr /\ r ∈ D)); [done|].
    split; [|set_solver]. intros [-> [->%elem_of_singleton|Hr]%elem_of_union]; naive_solver.
Qed.

Lemma apply_events D s c r : after D s -> events (apply_tables pr (tbl s) c) !! r = event_after r ({[c]} ∪ D).
Proof using.
  intros Ha. pose proof (after_events _ _ Ha r) as Hr. unfold event_after in *.
  assert (events (apply_tables pr (tbl s) c) =
    if bytes_eqb (pr_tagName pr) (bs "bgcolor") then alter (set_bgcolor walk_bgcolor) c (events (tbl s)) else events (tbl s)) as ->.
  { unfold apply_tables, walk_bgcolor. by repeat case_goal. }
  destruct (bytes_eqb _ _) eqn:Hn.
  - apply bytes_eqb_eq in Hn. destruct (decide (r = c)) as [->|Hne].
    + rewrite lookup_alter, Hr, decide_True by done. rewrite (bool_decide_eq_true_2 (_ /\ c ∈ {[c]} ∪ D)) by set_solver.
      case_bool_decide; [|done]. rewrite <- option_fmap_compose. by apply option_fmap_ext.
    + rewrite lookup_alter_ne, Hr by done.
      rewrite (bool_decide_ext (pr_tagName pr = bs "bgcolor" /\ r ∈ {[c]} ∪ D) (pr_tagName pr = bs "bgcolor" /\ r ∈ D)); [done|set_solver].
  - apply bytes_eqb_neq in Hn. rewrite Hr, !bool_decide_eq_false_2 by tauto. done.
Qed.

(** The schedule panics on no child: links have positive children. *)
Hypothesis Hpos : pr_tagid pr = BranchTagID -> sched s0 <> None -> Forall (fun l => 0 < lk_cid l) (plink t0).

Lemma apply_ok D s c : (exists l, l ∈ plink t0 /\ lk_cid l = c) -> after D s -> yields (apply pr s c) (after ({[c]} ∪ D)).
Proof using Hpos.
  intros (l & Hl & Hc) Ha. unfold apply. set (t := apply_tables pr (tbl s) c).
  assert (forall q, sched_after ({[c]} ∪ D) q -> after ({[c]} ∪ D) (mk_state t q)) as Hafter.
  { intros q Hq. constructor; cbn [tbl sched]; [intros; by apply apply_tagxref|intros; by apply apply_events| | | | |done].
    1: unfold t; rewrite apply_plink; apply Ha.
    all: unfold t, apply_tables; repeat case_goal; cbn; apply Ha. }
  cbn [sched tbl]. pose proof (after_sched _ _ Ha) as Hs. unfold sched_after in *.
  destruct (sched s0) as [p0|] eqn:E0; [destruct Hs as (p & -> & Hp)|rewrite Hs; by apply Hafter].
  destruct (pr_tagid pr =? BranchTagID) eqn:Hb; [|apply Hafter; by exists p]. zbool.
  unfold schedule. cbn [tbl]. assert (0 < c) as Hcp.
  { specialize (Hpos Hb ltac:(congruence)). rewrite Forall_forall in Hpos. subst c. by apply Hpos. }
  apply yields_bind. pose proof (Schedule_ok p t c Hcp) as HS. destruct (Schedule p t c) as [p'| | |]; try done.
  cbn [wrap_err yields] in *. destruct HS as [Hd Hx], Hp as [Hpc Hpd]. apply Hafter. exists p'. split; [done|].
  assert (plink t = plink t0) as Hpl by (unfold t; rewrite apply_plink; apply Ha).
  unfold parent_of in *. rewrite Hpl in Hx. split; intros x.
  - rewrite Hx, Hpc. set_solver.
  - rewrite Hd, elem_of_cons, Hpd. set_solver.
Qed.

(** ** The query of a check-in's children *)
Hypothesis Hread : Forall (fun l => lk_mtime l <> None) (plink t0).

Lemma scan_children_ok t rows : (forall l, l ∈ rows -> l ∈ plink t0) ->
  yields (scan_children pr t rows) (fun cs =>
    map cid cs = map lk_cid rows /\ Forall (fun c => doit c = doit_column pr t (cid c)) cs).
Proof using Hread.
  induction rows as [|l rows IH]; intros Hin; [done|]. cbn [scan_children].
  pose proof (proj1 (Forall_forall _ _) Hread l (Hin l ltac:(by left))) as Hm.
  destruct (lk_mtime l) as [m|] eqn:Em; [|congruence].
  apply yields_bind. eapply yields_mono; [apply IH; intros; apply Hin; by right|].
  intros cs [Hc Hd]. cbn [yields map cid]. split; [by rewrite Hc|]. by constructor.
Qed.

Lemma children_ok D s rid : after D s -> yields (children pr (tbl s) rid) (fun cs =>
  length cs = length (primary_links t0 rid)
  /\ (forall c, c ∈ map cid cs <-> exists l, l ∈ plink t0 /\ lk_isprim l = true /\ lk_pid l = rid /\ lk_cid l = c)
  /\ Forall (fun c => doit c = doit_column pr (tbl s) (cid c)) cs).
Proof using Hread.
  intros Ha. unfold children.
  assert (forall l, l ∈ primary_links (tbl s) rid <-> l ∈ plink t0 /\ lk_isprim l = true /\ lk_pid l = rid) as Hpl.
  { intros l. unfold primary_links. rewrite (after_plink _ _ Ha), list_elem_of_In, filter_In, <- list_elem_of_In, andb_true_iff, Z.eqb_eq. tauto. }
  eapply yields_mono; [apply scan_children_ok; intros l; rewrite table_order_perm, Hpl; tauto|].
  intros cs [Hc Hd]. split; [|split; [|done]].
  - rewrite <- (length_map cid), Hc, length_map, table_order_perm. unfold primary_links. by rewrite (after_plink _ _ Ha).
  - intros c. rewrite Hc, list_elem_of_In, in_map_iff. setoid_rewrite <- list_elem_of_In.
    setoid_rewrite table_order_perm. setoid_rewrite Hpl. naive_solver.
Qed.

(** A child acted on before is not acted on again, unless the walk deletes rows
    that need not be there; one not acted on reads as it did at the start. *)
Lemma doit_after D s c : after D s -> (forall x, x ∈ D -> doit_column pr t0 x = true) ->
  (doit_column pr (tbl s) c = true -> doit_column pr t0 c = true)
  /\ (doit_column pr t0 c = true -> doit_column pr (tbl s) c = true \/ c ∈ D).
Proof using.
  clear Hpos Hread. intros Ha HD. destruct (decide (c ∈ D)) as [Hc|Hc]; [split; [intros _; by apply HD|by right]|].
  assert (doit_column pr (tbl s) c = doit_column pr t0 c) as ->; [|tauto].
  unfold doit_column. rewrite (after_tagxref _ _ Ha). unfold row_after. by rewrite bool_decide_eq_false_2 by set_solver.
Qed.

(** ** The loops *)
Lemma after_ext D D' s : after D s -> (forall x, x ∈ D <-> x ∈ D') -> after D' s.
Proof using. intros Ha Hx. by replace D' with D by (apply leibniz_equiv; exact Hx). Qed.

Lemma apply_children_ok cs : forall D pq s, after D s ->
  Forall (fun c => exists l, l ∈ plink t0 /\ lk_cid l = cid c) cs ->
  yields (apply_children pr cs pq s) (fun '(pq', s') =>
    let done := List.filter doit cs in
    after (list_to_set (map cid done) ∪ D) s'
    /\ pq' ≡ₚ map (fun c => mk_queueItem (cid c) (childMtime c)) done ++ pq).
Proof using Hpos.
  clear Hread. induction cs as [|c cs IH]; intros D pq s Ha Hin; cbn [apply_children List.filter].
  - cbn [yields map list_to_set app]. split; [|done]. apply (after_ext D); [done|set_solver].
  - inversion Hin as [|? ? Hc Hin']; subst. destruct (doit c) eqn:Ed; [|by apply IH].
    apply yields_bind. eapply yields_mono; [by apply (apply_ok D)|]. intros s1 Ha1.
    eapply yields_mono; [by apply (IH ({[cid c]} ∪ D))|]. intros [pq' s'] [Ha' Hp].
    cbn [map]. split.
    + eapply after_ext; [exact Ha'|]. intros x. cbn [list_to_set]. set_solver.
    + rewrite Hp, heap_push_perm. cbn [app]. by rewrite <- Permutation_middle.
Qed.

(** The primary links of the check-ins still to visit. *)
Definition unvisited (visited : gset Z) : list link :=
  List.filter (fun l => lk_isprim l && negb (bool_decide (lk_pid l ∈ visited))) (plink t0).

Lemma unvisited_visit visited rid : rid ∉ visited ->
  length (unvisited visited) = (length (primary_links t0 rid) + length (unvisited ({[rid]} ∪ visited)))%nat.
Proof using.
  clear Hpos Hread. intros Hr. unfold unvisited, primary_links. induction (plink t0) as [|l ls IH]; [done|]. cbn [List.filter].
  destruct (lk_isprim l); cbn [andb]; rewrite ?andb_false_r; [|done]. rewrite andb_true_r.
  destruct (Z.eqb_spec (lk_pid l) rid) as [->|Hne].
  - rewrite (bool_decide_eq_false_2 (rid ∈ visited)), (bool_decide_eq_true_2 (rid ∈ {[rid]} ∪ visited)) by set_solver.
    cbn [negb length]. lia.
  - rewrite (bool_decide_ext (lk_pid l ∈ {[rid]} ∪ visited) (lk_pid l ∈ visited)) by set_solver.
    destruct (negb _); cbn [length]; lia.
Qed.

Record walk_inv (D visited : gset Z) (pq : list queueItem) (s : state) : Prop := {
  inv_after : after D s;
  inv_reach x : x ∈ D -> reach x;
  inv_queue q : q ∈ pq -> qi_rid q = pid \/ qi_rid q ∈ D;
  inv_start : pid ∈ visited \/ exists q, q ∈ pq /\ qi_rid q = pid;
  inv_done x : x ∈ D -> x ∈ visited \/ exists q, q ∈ pq /\ qi_rid q = x;
  inv_closed l : l ∈ plink t0 -> lk_isprim l = true -> lk_pid l ∈ visited -> doit_column pr t0 (lk_cid l) = true -> lk_cid l ∈ D;
}.

Lemma inv_end D visited s : walk_inv D visited [] s -> forall x, x ∈ D <-> reach x.
Proof using.
  clear Hpos Hread. intros Hi x. split; [apply Hi|].
  assert (forall y, y = pid \/ y ∈ D -> y ∈ visited) as Hv.
  { intros y [->|Hy].
    - destruct (inv_start _ _ _ _ Hi) as [?|(q & Hq & _)]; [done|by apply elem_of_nil in Hq].
    - destruct (inv_done _ _ _ _ Hi y Hy) as [?|(q & Hq & _)]; [done|by apply elem_of_nil in Hq]. }
  induction 1 as [l Hl Hp Hpid Hd|l Hl Hp Hr IH Hd]; apply (inv_closed _ _ _ _ Hi); rewrite ?doit_takes_over; auto.
Qed.

Lemma reach_doit x : reach x -> doit_column pr t0 x = true.
Proof using. by destruct 1; apply doit_takes_over. Qed.

(** A check-in popped again. *)
Lemma inv_skip D visited item pq0 pq s : walk_inv D visited pq0 s -> pq0 ≡ₚ item :: pq -> qi_rid item ∈ visited ->
  walk_inv D visited pq s.
Proof using.
  clear Hpos Hread. intros Hi Hp Hv.
  assert (forall x, (exists q, q ∈ pq0 /\ qi_rid q = x) -> x ∈ visited \/ exists q, q ∈ pq /\ qi_rid q = x) as Hq.
  { intros x (q & Hq & <-). rewrite Hp in Hq. apply elem_of_cons in Hq as [->|Hq]; [by left|right; by exists q]. }
  split; try apply Hi.
  - intros q Hin. apply (inv_queue _ _ _ _ Hi). rewrite Hp. by right.
  - destruct (inv_start _ _ _ _ Hi) as [?|?]; [by left|by apply Hq].
  - intros x Hx. destruct (inv_done _ _ _ _ Hi x Hx) as [?|?]; [by left|by apply Hq].
Qed.

(** A check-in visited: its children are acted on and queued. *)
Lemma inv_step D visited item pq0 pq s cs pq' s' : walk_inv D visited pq0 s -> pq0 ≡ₚ item :: pq ->
  (forall c, c ∈ map cid cs <-> exists l, l ∈ plink t0 /\ lk_isprim l = true /\ lk_pid l = qi_rid item /\ lk_cid l = c) ->
  Forall (fun c => doit c = doit_column pr (tbl s) (cid c)) cs ->
  after (list_to_set (map cid (List.filter doit cs)) ∪ D) s' ->
  pq' ≡ₚ map (fun c => mk_queueItem (cid c) (childMtime c)) (List.filter doit cs) ++ pq ->
  walk_inv (list_to_set (map cid (List.filter doit cs)) ∪ D) ({[qi_rid item]} ∪ visited) pq' s'.
Proof using.
  clear Hpos Hread. intros Hi Hp Hcs Hd Ha Hp'.
  assert (forall x, x ∈ map cid (List.filter doit cs) <-> exists c, c ∈ cs /\ doit c = true /\ cid c = x) as Hdone.
  { intros x. rewrite list_elem_of_In, in_map_iff. setoid_rewrite filter_In. setoid_rewrite list_elem_of_In. naive_solver. }
  assert (forall q, q ∈ pq' <-> (exists c, c ∈ cs /\ doit c = true /\ q = mk_queueItem (cid c) (childMtime c)) \/ q ∈ pq) as Hq'.
  { intros q. rewrite Hp', elem_of_app, list_elem_of_In, in_map_iff. setoid_rewrite filter_In. setoid_rewrite list_elem_of_In. naive_solver. }
  assert (forall x, (exists q, q ∈ pq0 /\ qi_rid q = x) -> x ∈ {[qi_rid item]} ∪ visited \/ exists q, q ∈ pq' /\ qi_rid q = x) as Hq.
  { intros x (q & Hin & <-). rewrite Hp in Hin. apply elem_of_cons in Hin as [->|Hin]; [left; set_solver|right].
    exists q. split; [apply Hq'; by right|done]. }
  assert (qi_rid item = pid \/ qi_rid item ∈ D) as Hitem by (apply (inv_queue _ _ _ _ Hi); rewrite Hp; by left).
  assert (forall x, x ∈ D -> doit_column pr t0 x = true) as HD by (intros x Hx; by apply reach_doit, (inv_reach _ _ _ _ Hi)).
  rewrite Forall_forall in Hd. split; [done| | | | |].
  - intros x [Hx|Hx]%elem_of_union; [|by apply Hi]. apply elem_of_list_to_set, Hdone in Hx as (c & Hc & Hdo & <-).
    destruct (proj1 (Hcs (cid c))) as (l & Hl & Hlp & Hpid & Hlc).
    { rewrite list_elem_of_In. by apply in_map, list_elem_of_In. }
    destruct (doit_after D s (cid c) ltac:(apply Hi) HD) as [Hb _]. rewrite <- Hd, <- Hlc in Hb by done. specialize (Hb Hdo). apply doit_takes_over in Hb. rewrite <- Hlc.
    destruct Hitem as [He|He]; [apply reach_first|apply reach_next]; rewrite ?Hpid; try done. by apply (inv_reach _ _ _ _ Hi).
  - intros q [(c & Hc & Hdo & ->)|Hq0]%Hq'; cbn [qi_rid].
    + right. apply elem_of_union_l, elem_of_list_to_set, Hdone. by exists c.
    + destruct (inv_queue _ _ _ _ Hi q) as [?|?]; [rewrite Hp; by right|by left|right; set_solver].
  - destruct (inv_start _ _ _ _ Hi) as [?|?]; [left; set_solver|by apply Hq].
  - intros x [Hx|Hx]%elem_of_union.
    + apply elem_of_list_to_set, Hdone in Hx as (c & Hc & Hdo & <-). right. eexists. split; [apply Hq'; left; by exists c|done].
    + destruct (inv_done _ _ _ _ Hi x Hx) as [?|?]; [left; set_solver|by apply Hq].
  - intros l Hl Hlp [Hv%elem_of_singleton|Hv]%elem_of_union Hdo; [|apply elem_of_union_r; by apply (inv_closed _ _ _ _ Hi)].
    destruct (doit_after D s (lk_cid l) ltac:(apply Hi) HD) as [_ Hor].
    destruct (Hor Hdo) as [Hdo'|?]; [|by apply elem_of_union_r]. apply elem_of_union_l, elem_of_list_to_set, Hdone.
    assert (lk_cid l ∈ map cid cs) as Hin by (apply Hcs; by exists l).
    rewrite list_elem_of_In in Hin. apply in_map_iff in Hin as (c & Hc & Hin). exists c.
    apply list_elem_of_In in Hin. split; [done|]. split; [|done]. rewrite Hd by done. by rewrite Hc.
Qed.

Lemma walk_ok remaining : forall D visited pq s, walk_inv D visited pq s ->
  (length pq + length (unvisited visited) <= remaining)%nat ->
  yields (walk remaining pr pq visited s) (fun s' => exists D', after D' s' /\ forall x, x ∈ D' <-> reach x).
Proof using Hpos Hread.
  induction remaining as [|remaining IH]; intros D visited pq s Hi Hle.
  { destruct pq; [|cbn in Hle; lia]. cbn [walk]. rewrite heap_pop_nil. exists D. split; [apply Hi|by eapply inv_end]. }
  cbn [walk]. destruct pq as [|q0 pq0]; [rewrite heap_pop_nil; exists D; split; [apply Hi|by eapply inv_end]|].
  destruct (heap_pop_cons (q0 :: pq0) ltac:(done)) as (item & pq & -> & Hp & _).
  apply Permutation_length in Hp as Hlen. cbn [length] in Hlen, Hle. case_bool_decide as Hv.
  { apply (IH D); [by eapply inv_skip|lia]. }
  apply yields_bind. eapply yields_mono; [apply (children_ok D), Hi|]. intros cs (Hl & Hcs & Hd).
  apply yields_bind. eapply yields_mono; [apply (apply_children_ok cs D); [apply Hi|]|].
  { apply Forall_forall. intros c Hc. destruct (proj1 (Hcs (cid c))) as (l & ? & _ & _ & ?); [|by exists l].
    by apply list_elem_of_In, in_map, list_elem_of_In. }
  intros [pq' s'] [Ha Hp']. cbn zeta in *. eapply IH; [by eapply inv_step|].
  rewrite (Permutation_length Hp'), length_app, length_map. rewrite (unvisited_visit visited (qi_rid item)) in Hle by done.
  pose proof (filter_length_le doit cs). lia.
Qed.

Lemma propagate_ok : len (List.filter lk_isprim (plink t0)) < 1000000 ->
  yields (propagate pr s0 pid) (fun s' => exists D, after D s' /\ forall x, x ∈ D <-> reach x).
Proof using Hpos Hread.
  intros Hlen. unfold propagate. pose proof (heap_push_perm (mk_queueItem pid 0) []) as Hp.
  apply (walk_ok _ ∅).
  - split; [apply after_start|set_solver| |right|set_solver|set_solver].
    + intros q Hq. rewrite Hp in Hq. apply list_elem_of_singleton in Hq as ->. by left.
    + exists (mk_queueItem pid 0). split; [|done]. rewrite Hp. by left.
  - rewrite (Permutation_length Hp). cbn [length]. unfold maxIterations, unvisited, len in *.
    rewrite (List.filter_ext _ lk_isprim) by (intros l; rewrite bool_decide_eq_false_2 by set_solver; apply andb_true_r). lia.
Qed.
End Region.
