(* ===== verification/TagProps.v ===== *)
(** * A tag application leaves no finding for the leaf audit

    What one application writes ([written]): the branch rows of a set of
    check-ins, each scheduled with its parents, so that the recheck at the end of
    the transaction brings every verdict the writes could have changed in line. *)

From stdpp Require Import gmap.
From S2P Require Import Prelude GoStd GoMap Leaf Tag TagWalk.

(** ** The repositories the theorem is about *)
Record wf (t : tables) : Prop := {
  wf_tags n1 n2 k : tag t !! n1 = Some k -> tag t !! n2 = Some k -> n1 = n2;
  wf_cids : Forall (fun l => 0 < lk_cid l) (plink t);
  wf_times : Forall (fun l => lk_mtime l <> None) (plink t);
  wf_rows rid : is_Some (tagxref t !! (BranchTagID, rid)) -> 0 < rid;
}.

(** ** The new tag's id *)
Lemma next_tagid_fresh t n : tag t !! n <> Some (next_tagid t).
Proof.
  intros Hn. apply elem_of_map_to_list in Hn. assert (next_tagid t < next_tagid t); [|lia].
  apply next_id_fresh, list_elem_of_fmap. by exists (n, next_tagid t).
Qed.

(** [ensureTag] answers an id no other name has. *)
Lemma ensureTag_ok t name : (forall n1 n2 k, tag t !! n1 = Some k -> tag t !! n2 = Some k -> n1 = n2) -> name <> [] ->
  exists tagid x, ensureTag t name = Ok (tagid, set_tag t x)
    /\ x !! name = Some tagid /\ (forall n, x !! n = Some tagid -> n = name) /\ (forall n, n <> name -> x !! n = tag t !! n)
    /\ (forall n k, tag t !! n = Some k -> x !! n = Some k)
    /\ (forall n1 n2 k, x !! n1 = Some k -> x !! n2 = Some k -> n1 = n2).
Proof.
  intros Hinj Hne. unfold ensureTag. destruct name as [|b name]; [done|]. destruct (tag t !! (b :: name)) as [k|] eqn:Ek.
  - exists k, (tag t). split; [by destruct t|]. naive_solver.
  - exists (next_tagid t), (<[b :: name := next_tagid t]> (tag t)). split; [done|].
    assert (forall n, <[b :: name := next_tagid t]> (tag t) !! n = Some (next_tagid t) -> n = b :: name) as Hfresh.
    { intros n. destruct (decide (n = b :: name)) as [->|Hn]; [done|]. rewrite lookup_insert_ne by done. by intros ?%next_tagid_fresh. }
    split; [by rewrite lookup_insert_eq|]. split; [done|]. split; [intros n Hn; by rewrite lookup_insert_ne|].
    split; [intros n k Hn; rewrite lookup_insert_ne by congruence; done|].
    intros n1 n2 k H1 H2. destruct (decide (k = next_tagid t)) as [->|Hk]; [by rewrite (Hfresh n1), (Hfresh n2)|].
    assert (forall n, <[b :: name := next_tagid t]> (tag t) !! n = Some k -> tag t !! n = Some k) as Hold.
    { intros n. destruct (decide (n = b :: name)) as [->|Hn]; [rewrite lookup_insert_eq; congruence|by rewrite lookup_insert_ne]. }
    eapply Hinj; by apply Hold.
Qed.

(** ** What an application writes *)
Record written (t : tables) (W : gset Z) (st : state) : Prop := {
  wr_plink : plink (tbl st) = plink t;
  wr_leaf : leaf (tbl st) = leaf t;
  wr_main : main_branch (tbl st) = main_branch t;
  wr_tags n1 n2 k : tag (tbl st) !! n1 = Some k -> tag (tbl st) !! n2 = Some k -> n1 = n2;
  wr_rows rid : rid ∉ W -> tagxref (tbl st) !! (BranchTagID, rid) = tagxref t !! (BranchTagID, rid);
  wr_parent rid : has_parent_tag (tbl st) rid = has_parent_tag t rid;
  wr_known rid : rid ∈ W -> 0 < rid /\
    (is_Some (tagxref (tbl st) !! (BranchTagID, rid)) \/ exists l, l ∈ plink t /\ lk_cid l = rid);
  wr_sched : exists p, sched st = Some p /\
    forall x, x ∈ checks p <-> exists r, r ∈ W /\ (x = r \/ parent_of t r x);
  wr_direct p x : sched st = Some p -> x ∈ direct p <-> x ∈ W;
}.

Section Application.
Context `{TO : !TableOrder} `{GH : !GoHeap} (julianday : bytes -> option Z).
Abbreviation ApplyTagWithTx := (ApplyTagWithTx julianday).
Abbreviation ApplyTag := (ApplyTag julianday).

Lemma has_parent_tag_ext t t' rid : tag t' !! bs "parent" = tag t !! bs "parent" ->
  (forall k, tag t !! bs "parent" = Some k -> tagxref t' !! (k, rid) = tagxref t !! (k, rid)) ->
  has_parent_tag t' rid = has_parent_tag t rid.
Proof using. intros H1 H2. unfold has_parent_tag. rewrite H1. destruct (tag t !! bs "parent"); [|done]. by rewrite H2. Qed.

(** The overrides of the event row touch no other table. *)
Lemma overrides_ok t opts : 0 < TargetRID opts ->
  exists e, applyDateOverride julianday (applyEventOverride t opts) opts = Ok (set_events t e).
Proof using.
  intros Hr. unfold applyDateOverride, RefreshEventTime. rewrite (proj2 (Z.leb_gt _ _)) by lia.
  unfold applyEventOverride, update_event. destruct t, (eventTagColumns _), (bytes_eqb _ _); by eexists.
Qed.

Lemma superseded_none t tagid rid m : tagxref t !! (tagid, rid) = None -> superseded t tagid rid m = false.
Proof using. unfold superseded. by intros ->. Qed.

(** The walk an application starts, once its own row is written. *)
Definition walk_of (t : tables) (tagid : Z) (opts : ApplyOpts) : propagation :=
  let tagType := if TagType opts =? TagSingleton then TagCancel else TagType opts in
  mk_propagation tagid tagType (TargetRID opts) (MTime opts) (Value opts) (TagName opts)
    (replacesPropagatingBranch t tagid opts && (tagType =? TagCancel)).

Definition walk_start (t : tables) (x : gmap bytes Z) (tagid : Z) (opts : ApplyOpts) (e : gmap Z event) (p : Pending) : state :=
  mk_state (set_events (insert_target (set_tag t x) tagid opts) e) (Some p).

(** One application with a schedule of its own: a newer row is left alone, or
    the row is written, scheduled, and walked down. *)
Lemma apply_cases t opts : wf t -> TagName opts <> [] -> 0 < TargetRID opts -> Leaves opts = Some NewPending ->
  len (List.filter lk_isprim (plink t)) < 1000000 ->
  exists tagid x, x !! TagName opts = Some tagid /\ (forall n, x !! n = Some tagid -> n = TagName opts)
    /\ (forall n, n <> TagName opts -> x !! n = tag t !! n)
    /\ (forall n k, tag t !! n = Some k -> x !! n = Some k)
    /\ (forall n1 n2 k, x !! n1 = Some k -> x !! n2 = Some k -> n1 = n2)
    /\ if superseded t tagid (TargetRID opts) (MTime opts)
       then ApplyTagWithTx t opts = Ok (mk_state (set_tag t x) (Some NewPending))
       else exists e p1 st D, ApplyTagWithTx t opts = Ok st
         /\ (forall y, y ∈ checks p1 <-> tagid = BranchTagID /\ (y = TargetRID opts \/ parent_of t (TargetRID opts) y))
         /\ (forall y, y ∈ direct p1 <-> tagid = BranchTagID /\ y = TargetRID opts)
         /\ after (walk_of t tagid opts) (walk_start t x tagid opts e p1) D st
         /\ (forall y, y ∈ D <-> reach (walk_of t tagid opts) (walk_start t x tagid opts e p1) (TargetRID opts) y).
Proof using.
  intros Hwf Hname Hrid Hl Hlen. unfold Tag.ApplyTagWithTx.
  rewrite (proj2 (bytes_eqb_neq _ _)), (proj2 (Z.leb_gt _ _)), Hl by done.
  destruct (ensureTag_ok t (TagName opts) (wf_tags _ Hwf) Hname) as (tagid & x & -> & Hget & Hid & Hx & Hold & Hinj). cbn [obind].
  exists tagid, x. do 5 (split; [done|]). rewrite andb_false_r.
  change (superseded (set_tag t x) tagid) with (superseded t tagid). destruct (superseded _ _ _ _); [done|].
  set (t2 := insert_target (set_tag t x) tagid opts).
  assert (exists p1, match Some NewPending with
    | Some p => if tagid =? BranchTagID then schedule (mk_state t2 (Some p)) p (TargetRID opts) else Ok (mk_state t2 (Some p))
    | None => Ok (mk_state t2 None) end = Ok (mk_state t2 (Some p1)) /\
    (forall y, y ∈ checks p1 <-> tagid = BranchTagID /\ (y = TargetRID opts \/ parent_of t (TargetRID opts) y))
    /\ forall y, y ∈ direct p1 <-> tagid = BranchTagID /\ y = TargetRID opts) as (p1 & -> & Hc1 & Hd1).
  { destruct (Z.eqb_spec tagid BranchTagID) as [->|Hb].
    - pose proof (Schedule_ok NewPending t2 _ Hrid) as HS. unfold schedule. cbn [tbl].
      destruct (Schedule NewPending t2 (TargetRID opts)) as [p1| | |]; try done. cbn in HS. destruct HS as [Hd Hc].
      exists p1. split; [done|]. split; intros y; [rewrite Hc; cbn; set_solver|rewrite Hd, list_elem_of_singleton; naive_solver].
    - exists NewPending. split; [done|]. split; intros y; cbn; set_solver. }
  cbn [obind tbl sched]. destruct (overrides_ok t2 opts Hrid) as [e ->]. cbn [obind].
  pose proof (propagate_ok (walk_of t tagid opts) (walk_start t x tagid opts e p1) (TargetRID opts)
                ltac:(intros; apply Hwf) ltac:(apply Hwf) Hlen) as HP.
  apply yields_ok in HP as (st & Hst & D & Ha & HD). exists e, p1, st, D. done.
Qed.

Lemma apply_written t opts : wf t -> TagName opts <> [] -> TagName opts <> bs "parent" -> 0 < TargetRID opts ->
  Leaves opts = Some NewPending -> len (List.filter lk_isprim (plink t)) < 1000000 ->
  exists st W, ApplyTagWithTx t opts = Ok st /\ written t W st.
Proof using.
  intros Hwf Hname Hpar Hrid Hl Hlen.
  destruct (apply_cases t opts) as (tagid & x & _ & Hid & Hx & _ & Hinj & Hcase); [done..|].
  assert (forall k, tag t !! bs "parent" = Some k -> k <> tagid) as Hk.
  { intros k Hp ->. rewrite <- Hx in Hp by done. by apply Hid in Hp. }
  destruct (superseded _ _ _ _) eqn:Es.
  { exists (mk_state (set_tag t x) (Some NewPending)), ∅. split; [done|].
    split; try done.
    - intros rid. apply has_parent_tag_ext; [by apply Hx|done].
    - exists NewPending. split; [done|]. cbn. set_solver.
    - intros p y [= <-]. cbn. set_solver. }
  destruct Hcase as (e & p1 & st & D & Hst & Hc1 & Hd1 & Ha & HD).
  exists st, (if decide (tagid = BranchTagID) then {[TargetRID opts]} ∪ D else ∅). split; [done|].
  assert (forall r, r ∈ D -> exists l, l ∈ plink t /\ lk_cid l = r) as HDl.
  { intros r Hr. apply HD in Hr. destruct Hr as [l Hl' _ _ _|l Hl' _ _ _]; by exists l. }
  assert (forall k, k <> (tagid, TargetRID opts) -> (k.1 = tagid -> k.2 ∉ D) -> tagxref (tbl st) !! k = tagxref t !! k) as Hrow.
  { intros k Hne Hk2. rewrite (after_tagxref _ _ _ _ Ha). unfold row_after. rewrite bool_decide_eq_false_2 by (cbn; tauto).
    apply lookup_insert_ne. congruence. }
  pose proof (after_sched _ _ _ _ Ha) as Hs. unfold sched_after in Hs. cbn [sched walk_start pr_tagid walk_of] in Hs.
  destruct Hs as (p & Hp & Hps). constructor; try apply Ha; [rewrite (after_tag _ _ _ _ Ha); exact Hinj| | | | |].
  - intros rid Hin. apply Hrow; cbn [fst snd]; case_decide; set_solver.
  - intros rid. apply has_parent_tag_ext; [rewrite (after_tag _ _ _ _ Ha); by apply Hx|].
    intros k Hp'. apply Hk in Hp'. apply Hrow; cbn [fst snd]; congruence.
  - intros rid Hin. case_decide as Hb; [|set_solver]. destruct (decide (rid ∈ D)) as [HrD|HrD].
    + destruct (HDl _ HrD) as (l & Hl' & <-). split; [|right; by exists l].
      pose proof (wf_cids _ Hwf) as Hc. rewrite Forall_forall in Hc. by apply Hc.
    + assert (rid = TargetRID opts) as -> by set_solver. split; [done|left]. subst tagid.
      rewrite (after_tagxref _ _ _ _ Ha). unfold row_after. rewrite bool_decide_eq_false_2 by (cbn; tauto).
      cbn. rewrite lookup_insert_eq. by eexists.
  - exists p. split; [done|]. intros y. case_decide as Hb.
    + subst tagid. destruct Hps as [Hpc _]. rewrite Hpc, Hc1. change (parent_of (tbl (walk_start t x BranchTagID opts e p1))) with (parent_of t). set_solver.
    + rewrite (proj2 (Z.eqb_neq _ _) Hb) in Hps. subst p. rewrite Hc1. set_solver.
  - intros p' y Hp'. assert (p' = p) as -> by congruence. case_decide as Hb.
    + subst tagid. destruct Hps as [_ Hpd]. rewrite Hpd, Hd1. set_solver.
    + rewrite (proj2 (Z.eqb_neq _ _) Hb) in Hps. subst p. rewrite Hd1. set_solver.
Qed.

(** ** The recheck *)
Lemma filter_nil {A} (f : A -> bool) l : List.filter f l = [] <-> forall x, x ∈ l -> f x = false.
Proof using.
  induction l as [|a l IH]; cbn [List.filter]; [split; [intros _ x ?%elem_of_nil; done|done]|].
  destruct (f a) eqn:Ef; split.
  - done.
  - intros H. specialize (H a ltac:(by left)). congruence.
  - rewrite IH. intros H x [->|Hx]%elem_of_cons; [done|by apply H].
  - intros H. apply IH. intros x Hx. apply H. by right.
Qed.

Lemma undetached_nil rids det : undetached rids det = [] <-> forall x, x ∈ rids -> x ∈ det.
Proof using.
  unfold undetached. rewrite filter_nil. split; intros H x Hx; specialize (H x Hx).
  - apply negb_false_iff, bool_decide_eq_true in H. done.
  - apply negb_false_iff, bool_decide_eq_true. done.
Qed.

Definition clean (t : tables) (det : gset Z) : Prop := Audit t det = mk_Findings [] [] [].

Lemma clean_spec t det : clean t det <->
  (forall x, x ∈ leaf t -> is_stale t x = false)
  /\ (forall x, is_Some (tagxref t !! (BranchTagID, x)) -> is_missing t x = true -> x ∈ det)
  /\ (forall x, x ∈ leaf t -> is_stray t x = true -> x ∈ det).
Proof using.
  unfold clean, Audit. split.
  - intros H. injection H as H1 H2 H3. rewrite filter_nil in H1. rewrite undetached_nil in H2, H3. split; [|split].
    + intros x Hx. apply H1, elem_of_by_rid. done.
    + intros x Hx Hm. apply H2, list_elem_of_In, filter_In. split; [|done].
      apply list_elem_of_In, elem_of_by_rid, elem_of_list_to_set, elem_of_branch_rids. done.
    + intros x Hx Hm. apply H3, list_elem_of_In, filter_In. split; [|done]. by apply list_elem_of_In, elem_of_by_rid.
  - intros (H1 & H2 & H3). f_equal.
    + apply filter_nil. intros x Hx%elem_of_by_rid. by apply H1.
    + apply undetached_nil. intros x Hx%list_elem_of_In. apply filter_In in Hx as [Hx Hm].
      apply list_elem_of_In, elem_of_by_rid, elem_of_list_to_set, elem_of_branch_rids in Hx. by apply H2.
    + apply undetached_nil. intros x Hx%list_elem_of_In. apply filter_In in Hx as [Hx Hm].
      apply list_elem_of_In, elem_of_by_rid in Hx. by apply H3.
Qed.


(** Branch reads agree where the branch rows do. *)
Lemma branch_of_ext t t' rid : main_branch t' = main_branch t ->
  tagxref t' !! (BranchTagID, rid) = tagxref t !! (BranchTagID, rid) ->
  branch_of t' rid = branch_of t rid /\ fossil_branch_of t' rid = fossil_branch_of t rid.
Proof using. intros H1 H2. unfold branch_of, fossil_branch_of, mainBranch. by rewrite H1, H2. Qed.

Section Recheck.
Context (t : tables) (det : gset Z) (W : gset Z) (st : state) (L : gset Z) (p : Pending).
Hypothesis Hwf : wf t.
Hypothesis Hw : written t W st.
Hypothesis Hp : sched st = Some p.
Hypothesis HL : checked (tbl st) (fun x => x ∈ todo p (tbl st)) L.

Lemma todo_spec x : x ∈ todo p (tbl st) <-> x ∈ W \/ exists r, r ∈ W /\ parent_of t r x.
Proof using Hw Hp.
  clear HL Hwf. destruct (wr_sched _ _ _ Hw) as (p' & Hp' & Hc). assert (p' = p) as -> by congruence.
  rewrite elem_of_todo, Hc. setoid_rewrite (wr_direct _ _ _ Hw p); [|done].
  setoid_rewrite elem_of_parentsOf. unfold parent_of. rewrite (wr_plink _ _ _ Hw). naive_solver.
Qed.

(** A check-in not rechecked, and its children: as they were. *)
Lemma untouched x : x ∉ todo p (tbl st) ->
  tagxref (tbl st) !! (BranchTagID, x) = tagxref t !! (BranchTagID, x)
  /\ forall l, 0 < x -> l ∈ plink t -> lk_pid l = x ->
       sameBranch (tbl st) l = sameBranch t l /\ fossilSameBranch (tbl st) l = fossilSameBranch t l
       /\ written_after_link (tbl st) l = written_after_link t l.
Proof using Hw Hp.
  clear HL Hwf. rewrite todo_spec. intros Hx. assert (x ∉ W) as HxW by tauto. pose proof (wr_rows _ _ _ Hw x HxW) as Hrow. split; [done|].
  intros l Hpos Hl Hpid. assert (lk_cid l ∉ W) as HcW.
  { intros Hc. apply Hx. right. exists (lk_cid l). split; [done|]. split; [lia|]. by exists l. }
  pose proof (wr_rows _ _ _ Hw _ HcW) as Hrow'. subst x.
  destruct (branch_of_ext t (tbl st) _ (wr_main _ _ _ Hw) Hrow) as [H1 H2].
  destruct (branch_of_ext t (tbl st) _ (wr_main _ _ _ Hw) Hrow') as [H3 H4].
  unfold sameBranch, fossilSameBranch, written_after_link. rewrite H1, H2, H3, H4, Hrow', (wr_parent _ _ _ Hw). done.
Qed.

Lemma recheck_clean : set_Forall (fun x => 0 < x) (leaf t) -> clean t det -> clean (set_leaf (tbl st) L) det.
Proof using Hwf Hw Hp HL.
  intros Hlp. rewrite !clean_spec. intros (Hs & Hm & Hy).
  assert (forall l x, x ∈ todo p (tbl st) -> lk_pid l = x -> l ∈ plink t -> sameBranch (tbl st) l = true -> x ∉ L) as Hgone.
  { intros l x Hx Hpid Hl Hsame HxL. rewrite (checked_in _ _ _ _ HL Hx) in HxL. unfold is_leaf in HxL.
    apply negb_true_iff in HxL. rewrite child_with_false in HxL. rewrite (HxL l) in Hsame; [done|by rewrite (wr_plink _ _ _ Hw)|done]. }
  split; [|split]; cbn [leaf set_leaf tagxref].
  - intros x HxL. destruct (is_stale _ x) eqn:E; [|done]. exfalso. unfold is_stale in E. apply andb_true_iff in E as [E1 E2].
    rewrite child_with_true in E1, E2. cbn [plink set_leaf] in E1, E2. rewrite (wr_plink _ _ _ Hw) in E1, E2.
    destruct E1 as (l & Hl & Hpid & E1), E2 as (l' & Hl' & Hpid' & E2).
    change (sameBranch (tbl st) l && written_after_link (tbl st) l = true) in E1.
    change (fossilSameBranch (tbl st) l' && written_after_link (tbl st) l' = true) in E2.
    apply andb_true_iff in E1 as [E1 E1'], E2 as [E2 E2'].
    destruct (decide (x ∈ todo p (tbl st))) as [Hx|Hx]; [exact (Hgone l x Hx Hpid Hl E1 HxL)|].
    rewrite (checked_out _ _ _ _ HL Hx) in HxL. rewrite (wr_leaf _ _ _ Hw) in HxL. destruct (untouched x Hx) as [_ Hun].
    specialize (Hs x HxL). destruct (Hun l (Hlp x HxL) Hl Hpid) as (U1 & _ & U2), (Hun l' (Hlp x HxL) Hl' Hpid') as (_ & U3 & U4).
    rewrite U1 in E1. rewrite U2 in E1'. rewrite U3 in E2. rewrite U4 in E2'. revert Hs. unfold is_stale.
    rewrite (proj2 (child_with_true _ _ _)) by (exists l; rewrite E1, E1'; done).
    rewrite (proj2 (child_with_true _ _ _)) by (exists l'; rewrite E2, E2'; done). done.
  - intros x Hrow Hmiss. unfold is_missing in Hmiss. cbn [leaf set_leaf] in Hmiss. apply andb_true_iff in Hmiss as [Hnl Hnc].
    apply negb_true_iff, bool_decide_eq_false in Hnl. apply negb_true_iff in Hnc. rewrite child_with_false in Hnc.
    change (plink (set_leaf (tbl st) L)) with (plink (tbl st)) in Hnc. rewrite (wr_plink _ _ _ Hw) in Hnc.
    change (forall l, l ∈ plink t -> lk_pid l = x -> sameBranch (tbl st) l || fossilSameBranch (tbl st) l = false) in Hnc.
    destruct (decide (x ∈ todo p (tbl st))) as [Hx|Hx].
    { destruct Hnl. rewrite (checked_in _ _ _ _ HL Hx). unfold is_leaf. apply negb_true_iff, child_with_false. intros l Hl Hpid.
      rewrite (wr_plink _ _ _ Hw) in Hl. by destruct (orb_false_elim _ _ (Hnc l Hl Hpid)). }
    destruct (untouched x Hx) as [Hr Hun]. rewrite Hr in Hrow. apply Hm; [done|]. unfold is_missing. apply andb_true_iff. split.
    + apply negb_true_iff, bool_decide_eq_false. intros Hin. apply Hnl. by rewrite (checked_out _ _ _ _ HL Hx), (wr_leaf _ _ _ Hw).
    + apply negb_true_iff, child_with_false. intros l Hl Hpid.
      destruct (Hun l ltac:(by apply (wf_rows _ Hwf)) Hl Hpid) as (<- & <- & _). by apply Hnc.
  - intros x HxL Hst. unfold is_stray in Hst. cbn [tagxref plink set_leaf] in Hst. apply andb_true_iff in Hst as [Hnr Hnp].
    apply negb_true_iff, bool_decide_eq_false in Hnr. apply negb_true_iff in Hnp. rewrite (wr_plink _ _ _ Hw) in Hnp.
    assert (forall l, l ∈ plink t -> lk_pid l <> x /\ lk_cid l <> x) as Hno.
    { intros l Hl. apply not_true_iff_false in Hnp. rewrite existsb_elem in Hnp.
      split; intros He; apply Hnp; exists l; split; try done; rewrite (proj2 (Z.eqb_eq _ _) He); [done|apply orb_true_r]. }
    assert (x ∉ todo p (tbl st)) as Hx.
    { rewrite todo_spec. intros [HxW|(r & _ & _ & l & Hl & _ & Hpid)]; [|by destruct (Hno l Hl)].
      destruct (wr_known _ _ _ Hw x HxW) as [_ [?|(l & Hl & Hc)]]; [done|by destruct (Hno l Hl)]. }
    rewrite (checked_out _ _ _ _ HL Hx) in HxL. rewrite (wr_leaf _ _ _ Hw) in HxL. apply Hy; [done|].
    destruct (untouched x Hx) as [Hr _]. unfold is_stray. rewrite <- Hr.
    apply andb_true_iff. split; apply negb_true_iff; [by apply bool_decide_eq_false|done].
Qed.
End Recheck.

(** [ApplyTag] with no schedule given answers the rechecked tables. *)
Lemma ApplyTag_rechecked t opts : wf t -> TagName opts <> [] -> TagName opts <> bs "parent" -> 0 < TargetRID opts ->
  Leaves opts = None -> len (List.filter lk_isprim (plink t)) < 1000000 ->
  exists st W p L, ApplyTag t opts = Ok (mk_state (set_leaf (tbl st) L) None) /\ written t W st /\ sched st = Some p
    /\ checked (tbl st) (fun x => x ∈ todo p (tbl st)) L.
Proof using.
  intros Hwf Hname Hpar Hrid Hl Hlen. unfold Tag.ApplyTag.
  rewrite (proj2 (bytes_eqb_neq _ _)), (proj2 (Z.leb_gt _ _)), Hl by done. cbn zeta.
  match goal with |- context [Tag.ApplyTagWithTx _ _ ?o] => set (o1 := o) end.
  destruct (apply_written t o1) as (st & W & Hst & Hw); [done..|]. destruct (wr_sched _ _ _ Hw) as (p & Hp & Hc).
  destruct (Apply_ok p (tbl st)) as (L & HL & Hck).
  { intros x Hx. apply Hc in Hx as (r & Hr & [->|[Hpos _]]); [by apply (wr_known _ _ _ Hw)|done]. }
  exists st, W, p, L. rewrite Hst. cbn [obind]. rewrite Hp, HL. done.
Qed.

(** ** The invariant *)
Record repo_ok (det : gset Z) (t : tables) : Prop := {
  ok_wf : wf t;
  ok_size : len (List.filter lk_isprim (plink t)) < 1000000;
  ok_leaf : set_Forall (fun x => 0 < x) (leaf t);
  ok_clean : clean t det;
}.

(** What a caller may ask for in a transaction of its own, the tag [parent]
    apart: see [parent_tag_audit]. *)
Definition opts_ok (opts : ApplyOpts) : Prop :=
  TagName opts <> [] /\ TagName opts <> bs "parent" /\ 0 < TargetRID opts /\ Leaves opts = None.

Lemma ApplyTag_repo_ok det t opts : opts_ok opts -> repo_ok det t ->
  yields (ApplyTag t opts) (fun st => sched st = None /\ repo_ok det (tbl st)).
Proof using.
  intros (Hname & Hpar & Hrid & Hl) [Hwf Hsize Hlp Hclean].
  destruct (ApplyTag_rechecked t opts) as (st & W & p & L & -> & Hw & Hp & HL); [done..|]. cbn [yields]. split; [done|].
  pose proof (wr_plink _ _ _ Hw) as Hpl. constructor; cbn [tbl plink leaf set_leaf]; rewrite ?Hpl; [|done| |by eapply recheck_clean].
  - constructor; cbn [tag plink tagxref set_leaf]; rewrite ?Hpl; [apply Hw|apply Hwf|apply Hwf|].
    intros rid Hr. destruct (decide (rid ∈ W)) as [HrW|HrW]; [by apply (wr_known _ _ _ Hw)|].
    rewrite (wr_rows _ _ _ Hw) in Hr by done. by apply (wf_rows _ Hwf).
  - intros x Hx. destruct (decide (x ∈ todo p (tbl st))) as [Hin|Hin].
    + rewrite elem_of_todo in Hin. destruct Hin as [Hin|(r & _ & Hin)]; [|by eapply parentsOf_positive].
      destruct (wr_sched _ _ _ Hw) as (p' & Hp' & Hc). assert (p' = p) as -> by congruence.
      apply Hc in Hin as (r & Hr & [->|[Hpos _]]); [by apply (wr_known _ _ _ Hw)|done].
    + rewrite (checked_out _ _ _ _ HL Hin), (wr_leaf _ _ _ Hw) in Hx. by apply Hlp.
Qed.

(** Tags applied one after another, each in its own transaction. *)
Fixpoint ApplyTags (t : tables) (os : list ApplyOpts) : tresult tables :=
  match os with
  | [] => Ok t
  | o :: os => let? st := ApplyTag t o in ApplyTags (tbl st) os
  end.

End Application.

(** * What tagging a check-in does: the properties of the tag and leaf components *)

(** ** Propagation *)

(** C20: a propagation walk returns, and changes exactly the check-ins reachable
    from its target by primary links whose child the tag takes over (it holds no
    row, or an older inherited one): a propagating tag gives each its inherited
    row, a cancel removes the row; the bgcolor of their events follows; a branch
    tag adds each of them with its parents to the checks of the batch's schedule,
    and each of them to its direct rids; any other tag leaves the schedule alone,
    a walk without a schedule gets none, and nothing else changes. *)
Theorem propagate_exact `{TO : !TableOrder} `{GH : !GoHeap} (pr : propagation) (s : state) (pid : Z) :
  Forall (fun l => lk_mtime l <> None) (plink (tbl s)) -> Forall (fun l => 0 < lk_cid l) (plink (tbl s)) ->
  len (List.filter lk_isprim (plink (tbl s))) < 1000000 ->
  exists s', propagate pr s pid = Ok s'
    /\ (forall r, reach pr s pid r ->
          tagxref (tbl s') !! (pr_tagid pr, r) = (if pr_tagType pr =? TagPropagating then Some (inherited_row pr) else None)
          /\ events (tbl s') !! r = (if bytes_eqb (pr_tagName pr) (bs "bgcolor")
                                     then set_bgcolor (walk_bgcolor pr) <$> events (tbl s) !! r else events (tbl s) !! r))
    /\ (forall k r, ~ (k = pr_tagid pr /\ reach pr s pid r) -> tagxref (tbl s') !! (k, r) = tagxref (tbl s) !! (k, r))
    /\ (forall r, ~ reach pr s pid r -> events (tbl s') !! r = events (tbl s) !! r)
    /\ (plink (tbl s'), leaf (tbl s'), tag (tbl s'), main_branch (tbl s'))
       = (plink (tbl s), leaf (tbl s), tag (tbl s), main_branch (tbl s))
    /\ match sched s with
       | None => sched s' = None
       | Some p =>
           if pr_tagid pr =? BranchTagID then exists p', sched s' = Some p'
             /\ (forall x, x ∈ checks p' <-> x ∈ checks p \/ exists r, reach pr s pid r /\ (x = r \/ parent_of (tbl s) r x))
             /\ (forall x, x ∈ direct p' <-> x ∈ direct p \/ reach pr s pid x)
           else sched s' = Some p
       end.
Proof.
  intros Hread Hpos Hlen. pose proof (propagate_ok pr s pid ltac:(done) Hread Hlen) as HP.
  apply yields_ok in HP as (s' & Hs' & D & Ha & HD). exists s'. split; [done|]. repeat split.
  - rewrite (after_tagxref _ _ _ _ Ha). unfold row_after. rewrite bool_decide_eq_true_2; [done|]. cbn. by rewrite HD.
  - rewrite (after_events _ _ _ _ Ha). unfold event_after, bytes_eqb. case_bool_decide as Hb; case_bool_decide as Hn; try done.
    + tauto.
    + destruct Hb. by rewrite HD.
  - intros k r Hkr. rewrite (after_tagxref _ _ _ _ Ha). unfold row_after. rewrite bool_decide_eq_false_2; [done|]. cbn. by rewrite HD.
  - intros r Hr. rewrite (after_events _ _ _ _ Ha). unfold event_after. rewrite bool_decide_eq_false_2; [done|]. rewrite HD. tauto.
  - destruct Ha. by f_equal; [f_equal; [f_equal|]|].
  - pose proof (after_sched _ _ _ _ Ha) as Hs. unfold sched_after in Hs. destruct (sched s) as [p|]; [|done].
    destruct Hs as (p' & Hp' & Hs). destruct (_ =? _); [|congruence]. destruct Hs as [Hc Hd].
    exists p'. split; [done|]. split; intros x; [rewrite Hc; by setoid_rewrite HD|by rewrite Hd, HD].
Qed.

(** ** The leaf table *)


(** C21: the recheck of a batch that scheduled every tagged check-in into an empty
    leaf table writes the table the full rebuild computes, although the rebuild
    also considers every parent of an untagged check-in. *)
Theorem batch_is_rebuild (p : Pending) (t : tables) :
  leaf t = ∅ ->
  (forall x, x ∈ direct p <-> is_Some (tagxref t !! (BranchTagID, x))) ->
  (forall x, x ∈ direct p -> x ∈ checks p) ->
  (forall x, x ∈ checks p -> x ∈ candidates t /\ 0 < x) ->
  Apply p t = Ok (Rebuild t).
Proof.
  intros Hleaf Hdir Hsub Hcand. destruct (Apply_ok p t ltac:(intros x Hx; by apply Hcand)) as (L & -> & HL).
  f_equal. unfold Rebuild. f_equal. apply leibniz_equiv. intros x.
  change (x ∈ L <-> x ∈ leaf (Rebuild t)). rewrite elem_of_rebuild. destruct (decide (x ∈ todo p t)) as [Hx|Hx].
  { rewrite (checked_in _ _ _ _ HL Hx). enough (x ∈ candidates t) by tauto. apply elem_of_todo in Hx as [Hx|(r & _ & Hx)].
    - by apply Hcand.
    - apply elem_of_candidates. right. apply elem_of_parentsOf in Hx as (Hpos & l & Hl & _ & Hpid). split; [done|by exists l]. }
  rewrite (checked_out _ _ _ _ HL Hx), Hleaf. split; [set_solver|]. intros [Hc Hl]. exfalso.
  assert (x ∉ direct p) as Hd by (intros Hd; apply Hx, elem_of_todo; left; by apply Hsub).
  apply elem_of_candidates in Hc as [Hc|(Hpos & l & Hin & Hpid)]; [by apply Hd, Hdir|].
  assert (lk_cid l ∉ direct p) as Hdl.
  { intros Hdl. apply Hx, elem_of_todo. right. exists (lk_cid l). split; [done|]. apply elem_of_parentsOf. split; [done|by exists l]. }
  unfold is_leaf in Hl. apply negb_true_iff in Hl. rewrite child_with_false in Hl. specialize (Hl l Hin Hpid).
  assert (forall y, y ∉ direct p -> branch_of t y = mainBranch t) as Hmain.
  { intros y Hy. apply branch_of_untagged. rewrite Hdir in Hy. by apply eq_None_not_Some. }
  unfold sameBranch in Hl. rewrite !Hmain, bytes_eqb_refl in Hl by (rewrite ?Hpid; done). done.
Qed.

(** ** Which tag wins *)

(** The row a newer application replaces. *)
Definition newest (row : option tagrow) (o : ApplyOpts) : option tagrow :=
  match row with
  | Some r => if tr_mtime r >=? MTime o then row else Some (target_row o)
  | None => Some (target_row o)
  end.

Section Newest.
Context `{TO : !TableOrder} `{GH : !GoHeap} (julianday : bytes -> option Z).

Lemma ApplyTag_target det t o : repo_ok det t -> opts_ok o -> SrcRID o <> 0 ->
  exists st tagid, ApplyTag julianday t o = Ok st /\ tag (tbl st) !! TagName o = Some tagid
    /\ (forall n k, tag t !! n = Some k -> tag (tbl st) !! n = Some k)
    /\ tagxref (tbl st) !! (tagid, TargetRID o) = newest (tagxref t !! (tagid, TargetRID o)) o.
Proof using.
  intros Hok Ho Hsrc. destruct Ho as (Hname & Hpar & Hrid & Hl). destruct Hok as [Hwf Hlen _ _].
  destruct (ApplyTag_rechecked julianday t o) as (st' & W & p & L & Hst & _); [done..|].
  unfold ApplyTag in Hst |- *. rewrite (proj2 (bytes_eqb_neq _ _)), (proj2 (Z.leb_gt _ _)), Hl in Hst |- * by done. cbn zeta in *.
  set (o1 := mk_ApplyOpts (TargetRID o) (SrcRID o) (TagName o) (TagType o) (Value o) (MTime o) (Some NewPending)) in *.
  destruct (apply_cases julianday t o1) as (tagid & x & Hx & _ & _ & Hold & _ & Hcase); [done..|].
  exists (mk_state (set_leaf (tbl st') L) None), tagid. split; [done|]. cbn [tbl tag tagxref set_leaf].
  assert (forall st, ApplyTagWithTx julianday t o1 = Ok st -> tag (tbl st') = tag (tbl st) /\ tagxref (tbl st') = tagxref (tbl st)) as Hsame.
  { intros st Hst1. rewrite Hst1 in Hst. cbn [obind] in Hst. destruct (sched st) as [q|].
    - destruct (Apply q (tbl st)) as [u| | |] eqn:Hu; try done. cbn in Hst. injection Hst as ->.
      apply check_all_leaf in Hu as [L' Hu]. split; [exact (f_equal tag Hu)|exact (f_equal tagxref Hu)].
    - by injection Hst as ->. }
  assert (newest (tagxref t !! (tagid, TargetRID o)) o = if superseded t tagid (TargetRID o) (MTime o)
    then tagxref t !! (tagid, TargetRID o) else Some (target_row o)) as ->.
  { unfold newest, superseded. by destruct (tagxref t !! _) as [r|]. }
  change (TargetRID o1) with (TargetRID o) in *. change (MTime o1) with (MTime o) in *. change (TagName o1) with (TagName o) in *.
  destruct (superseded _ _ _ _).
  { destruct (Hsame _ Hcase) as [-> ->]. done. }
  destruct Hcase as (e & p1 & st & D & Hst1 & _ & _ & Ha & HD). destruct (Hsame _ Hst1) as [-> ->].
  rewrite (after_tag _ _ _ _ Ha). split; [done|]. split; [done|]. rewrite (after_tagxref _ _ _ _ Ha). unfold row_after.
  rewrite bool_decide_eq_false_2; [by apply lookup_insert_eq|]. cbn [fst snd]. rewrite HD. intros [_ Hr%reach_doit].
  unfold doit_column in Hr. cbn [pr_tagid walk_of walk_start tbl tagxref set_events insert_target set_tagxref] in Hr.
  rewrite lookup_insert_eq in Hr. cbn [tr_srcid target_row o1 SrcRID] in Hr. rewrite (proj2 (Z.eqb_neq _ _) Hsrc) in Hr. done.
Qed.

(** Of the tags of one name applied to one check-in, the newest wins, in
    whatever order they arrive: after any sequence of applications its row is the
    one with the greatest time, the first of them on a tie. *)
Theorem tag_newest_wins (det : gset Z) (n : bytes) (tagid r : Z) (os : list ApplyOpts) (t : tables) :
  repo_ok det t -> tag t !! n = Some tagid ->
  Forall (fun o => opts_ok o /\ SrcRID o <> 0 /\ TagName o = n /\ TargetRID o = r) os ->
  exists t', ApplyTags julianday t os = Ok t'
    /\ tagxref t' !! (tagid, r) = fold_left newest os (tagxref t !! (tagid, r)).
Proof using.
  intros Hok Htag Hos. revert t Hok Htag. induction os as [|o os IH]; intros t Hok Htag; [by exists t|].
  inversion Hos as [|? ? (Ho & Hsrc & Hn & Hr) Hos']; subst.
  destruct (ApplyTag_target det t o Hok Ho Hsrc) as (st & k & Hst & Hk & Hold & Hrow).
  assert (k = tagid) as -> by (apply Hold in Htag; congruence).
  pose proof (ApplyTag_repo_ok julianday det t o Ho Hok) as Hok'. rewrite Hst in Hok'. destruct Hok' as [_ Hok'].
  destruct (IH Hos' (tbl st) Hok' Hk) as (t' & Ht' & Hrow'). exists t'. cbn [ApplyTags fold_left]. rewrite Hst. cbn [obind].
  split; [done|]. by rewrite Hrow', Hrow.
Qed.
End Newest.

(** ** A repository of four check-ins *)
Definition demo_links : list link :=
  [mk_link 1 2 true (Some 20); mk_link 2 3 true (Some 30); mk_link 1 4 true (Some 40); mk_link 4 3 false (Some 30)].
Definition demo : tables :=
  mk_tables {[(BranchTagID, 1) := mk_tagrow 2 1 1 (Some (bs "trunk")) 10]} demo_links {[3]} {[bs "branch" := 8; bs "parent" := 9]}
    {[2 := mk_event None None None 20 None]} None.
Definition branch_at (rid time : Z) : ApplyOpts := mk_ApplyOpts rid rid (bs "branch") TagPropagating (bs "b1") time None.
Definition note_at (rid time : Z) (v : string) : ApplyOpts := mk_ApplyOpts rid rid (bs "note") TagPropagating (bs v) time None.

Lemma demo_ok : repo_ok ∅ demo.
Proof.
  constructor; [constructor|..].
  - intros n1 n2 k. unfold demo. cbn [tag]. rewrite !lookup_insert_Some, !lookup_singleton_Some. naive_solver.
  - repeat constructor.
  - repeat constructor; done.
  - intros rid. unfold demo. cbn [tagxref]. intros [r Hr]. apply lookup_singleton_Some in Hr as [[= <-] _]. done.
  - done.
  - intros x. unfold demo. cbn [leaf]. rewrite elem_of_singleton. lia.
  - vm_compute. reflexivity.
Qed.

Definition demo_walk : propagation := mk_propagation 20 TagPropagating 1 50 (bs "red") (bs "bgcolor") false.

Lemma propagate_exact_witness : exists s', propagate demo_walk (mk_state demo None) 1 = Ok s'
  /\ tagxref (tbl s') !! (20, 3) = Some (inherited_row demo_walk).
Proof.
  destruct (propagate_exact demo_walk (mk_state demo None) 1) as (s' & Hs' & Hr & _).
  - repeat constructor; done.
  - repeat constructor.
  - vm_compute. done.
  - exists s'. split; [exact Hs'|]. refine (proj1 (Hr 3 _)).
    refine (reach_next demo_walk (mk_state demo None) 1 (mk_link 2 3 true (Some 30)) _ eq_refl _ (or_introl eq_refl)); [by right; left|].
    refine (reach_first demo_walk (mk_state demo None) 1 (mk_link 1 2 true (Some 20)) _ eq_refl eq_refl (or_introl eq_refl)); by left.
Defined.


(** Check-in 2 inherits a [parent] tag of check-in 1, and both are leaves. *)
Definition reparented : tables :=
  mk_tables {[(BranchTagID, 1) := mk_tagrow 2 1 1 (Some (bs "trunk")) 10;
              (BranchTagID, 2) := mk_tagrow 2 0 1 (Some (bs "trunk")) 10; (9, 2) := mk_tagrow 2 0 1 None 10]}
    [mk_link 1 2 true (Some 20)] {[1; 2]} {[bs "branch" := 8; bs "parent" := 9]} ∅ None.
Definition parent_cancel : ApplyOpts := mk_ApplyOpts 1 1 (bs "parent") TagCancel [] 50 None.

Lemma reparented_ok : repo_ok ∅ reparented.
Proof.
  constructor; [constructor|..].
  - intros n1 n2 k. unfold reparented. cbn [tag]. rewrite !lookup_insert_Some, !lookup_singleton_Some. naive_solver.
  - repeat constructor.
  - repeat constructor; done.
  - intros rid. unfold reparented. cbn [tagxref]. intros [r Hr].
    rewrite !lookup_insert_Some, lookup_singleton_Some in Hr. naive_solver.
  - done.
  - intros x. unfold reparented. cbn [leaf]. set_solver.
  - vm_compute. reflexivity.
Qed.

(** A cancelled [parent] tag takes the row its children inherited away, and with
    it what kept the audit from calling their parent stale: no recheck follows,
    and the audit of a table it had nothing against finds one. *)
Theorem parent_tag_audit :
  repo_ok ∅ reparented
  /\ exists t', ApplyTags (fun _ => None) reparented [parent_cancel] = Ok t'
       /\ Audit t' ∅ = mk_Findings [1] [] [].
Proof. split; [exact reparented_ok|]. eexists. split; vm_compute; reflexivity. Qed.

Lemma batch_is_rebuild_witness : Apply (mk_Pending [1] {[1]} [1]) (set_leaf demo ∅) = Ok (Rebuild (set_leaf demo ∅)).
Proof.
  apply batch_is_rebuild.
  - reflexivity.
  - intros x. cbn [direct tagxref set_leaf demo]. rewrite list_elem_of_singleton. split.
    + intros ->. rewrite lookup_singleton_eq. by eexists.
    + intros [r Hr]. apply lookup_singleton_Some in Hr as [[= <-] _]. done.
  - intros x. cbn [direct checks]. set_solver.
  - intros x. cbn [checks]. rewrite elem_of_singleton. intros ->. split; [|lia]. apply elem_of_candidates. left. by eexists.
Defined.

Lemma tag_newest_wins_witness : exists t', ApplyTags (fun _ => None) demo [branch_at 1 50; branch_at 1 5] = Ok t'
  /\ tagxref t' !! (8, 1) = Some (target_row (branch_at 1 50)).
Proof.
  destruct (tag_newest_wins (fun _ => None) ∅ (bs "branch") 8 1 [branch_at 1 50; branch_at 1 5] demo) as (t' & H1 & H2).
  - exact demo_ok.
  - reflexivity.
  - repeat constructor; done.
  - exists t'. split; [exact H1|]. rewrite H2. reflexivity.
Defined.

(** The values the tag [note] has on a check-in after two applications. *)
Definition note_of (os : list ApplyOpts) (rid : Z) : option bytes :=
  match ApplyTags (fun _ => None) demo os with Ok t => tagxref t !! (10, rid) ≫= tr_value | _ => None end.

(** The tags of a check-in do depend on the order applications arrive in: an
    older tag of the child itself survives a newer propagating one of its parent
    when it arrives first, and is dropped when it arrives second. *)
Theorem tag_order_matters :
  note_of [note_at 2 5 "child"; note_at 1 10 "parent"] 2 = Some (bs "child")
  /\ note_of [note_at 1 10 "parent"; note_at 2 5 "child"] 2 = Some (bs "parent").
Proof. split; vm_compute; reflexivity. Qed.
