(* ===== verification/Store.v ===== *)
(** * The artifact store: src/internal/blob/blob.go, compress.go, inflater.go

    The rows of the blob, delta, phantom and unclustered tables and the package's
    operations on them.  A query answers from the tables; I/O errors are left
    out, and so is rcvid, which nothing here reads.  A failed call's partial
    writes are its transaction's to undo: the models answer the error alone.
    Fault injection (simio.Buggify) is off, as outside simulation. *)

From stdpp Require Import gmap.
From S2P Require Import Prelude GoMap GoStd GoText GoCrypto Hash Zlib XferCard Delta.

(** ** The tables *)
Record blobrow := mk_blobrow { br_uuid : bytes; br_size : option Z; br_content : option bytes }.

Record store := mk_store {
  blob : gmap Z blobrow; delta : gmap Z Z; phantom : gset Z; unclustered : gset Z; private : gset Z;
  config_policy : option bytes }.

Definition set_blob (s : store) (b : gmap Z blobrow) : store :=
  mk_store b (delta s) (phantom s) (unclustered s) (private s) (config_policy s).
Definition set_delta (s : store) (d : gmap Z Z) : store :=
  mk_store (blob s) d (phantom s) (unclustered s) (private s) (config_policy s).
Definition set_phantom (s : store) (p : gset Z) : store :=
  mk_store (blob s) (delta s) p (unclustered s) (private s) (config_policy s).
Definition set_unclustered (s : store) (u : gset Z) : store :=
  mk_store (blob s) (delta s) (phantom s) u (private s) (config_policy s).
Definition set_private (s : store) (p : gset Z) : store :=
  mk_store (blob s) (delta s) (phantom s) (unclustered s) p (config_policy s).
Definition set_policy (s : store) (c : option bytes) : store :=
  mk_store (blob s) (delta s) (phantom s) (unclustered s) (private s) c.

Inductive store_error :=
| ErrNoRow (rid : Z)
| ErrNullSize (rid : Z)
| ErrIsPhantom (rid : Z)
| ErrEmptyContent (rid : Z)
| ErrTooShort (n : Z)
| ErrZlibHeader
| ErrZlibData
| ErrRoundTrip (stored got : bytes)
| ErrConstraint (uuid : bytes)
| ErrPolicy (e : policy_error)
| ErrDelta (e : delta_error)
| ErrCycle (rid : Z)
| ErrChainDepth (rid : Z)
| HashMismatchError (rid : Z) (stored actual : bytes).
Abbreviation sresult := (outcome store_error).

(** ** Rows *)

(** The uuid index: UNIQUE, so at most one row. *)
Definition rid_of (s : store) (uuid : bytes) : option Z :=
  fst <$> head (List.filter (fun kr : Z * blobrow => bytes_eqb (br_uuid (snd kr)) uuid) (map_to_list (blob s))).

Definition Exists (s : store) (uuid : bytes) : sresult (option Z) :=
  if bytes_eqb uuid [] then Panic "blob.Exists: uuid must not be empty" else Ok (rid_of s uuid).

(** A row that cannot be read counts as a phantom. *)
Definition isPhantom (s : store) (rid : Z) : bool :=
  match blob s !! rid with
  | Some r => match br_size r with Some size => size =? -1 | None => true end
  | None => true
  end.

(** INTEGER PRIMARY KEY. *)
Definition next_rid (s : store) : Z := next_id (map fst (map_to_list (blob s))).

(** INSERT INTO blob, under the table's CHECK. *)
Definition insert_blob (s : store) (r : blobrow) : sresult (Z * store) :=
  if len (br_uuid r) <? 40 then Err (ErrConstraint (br_uuid r))
  else Ok (next_rid s, set_blob s (<[next_rid s := r]> (blob s))).

(** What [hash]'s queries see of the tables. *)
Definition hash_view (s : store) : Hash.repo := Hash.mk_repo (config_policy s) (map (fun kr => br_uuid (snd kr)) (map_to_list (blob s))).

Section Blob.
Context `{ZL : !Zlib} `{S3 : !Sha3}.

(** ** The stored form.  Content is never nil: callers' nil is the empty slice. *)
Definition Compress (data : bytes) : sresult bytes :=
  let result := blob_format data in
  if len result =? 0 then Panic "blob.Compress: postcondition violated: result is empty with no error" else Ok result.

Definition EncodeForStorage (data : bytes) (verbatim : option bytes) : sresult bytes :=
  match verbatim with
  | Some v => if len v =? 0 then Panic "blob.EncodeForStorage: verbatim must not be empty when non-nil" else Ok v
  | None => Compress data
  end.

(** Also [Inflater.decompress]: the reader it reuses shows in the wording of an
    error only. *)
Definition Decompress (data : bytes) : sresult bytes :=
  if len data <? 5 then Err (ErrTooShort (len data))
  else match zlib_read (drop 4 data) with
       | None => Err ErrZlibHeader
       | Some z => if z_clean z then Ok (z_out z) else Err ErrZlibData
       end.

Definition loadWith (s : store) (rid : Z) : sresult bytes :=
  if rid <=? 0 then Panic "blob.Load: rid must be > 0"
  else match blob s !! rid with
       | None => Err (ErrNoRow rid)
       | Some r =>
           match br_size r with
           | None => Err (ErrNullSize rid)
           | Some size =>
               if size =? -1 then Err (ErrIsPhantom rid)
               else match br_content r with
                    | None | Some [] => Err (ErrEmptyContent rid)
                    | Some content => Decompress content
                    end
           end
       end.

Definition Load (s : store) (rid : Z) : sresult bytes := loadWith s rid.

(** ** Storing *)
(** The rid of a name that has content. *)
Definition held (s : store) (rid : option Z) : option Z :=
  match rid with Some rid => if isPhantom s rid then None else Some rid | None => None end.

Definition existingName (s : store) (naming : Naming) (uuid content : bytes) : sresult (option (Z * bytes)) :=
  let? rid := Exists s uuid in
  match held s rid with
  | Some rid => Ok (Some (rid, uuid))
  | None =>
      if negb (ReuseLegacy naming) then Ok None
      else
        let? legacy := Alg_Hash (Other (New naming)) (Some content) in
        let? rid := Exists s legacy in
        Ok ((fun rid => (rid, legacy)) <$> held s rid)
  end.

Definition writeRow (s : store) (uuid : bytes) (size : Z) (compressed : bytes) : sresult (Z * store) :=
  if size <? 0 then Panic "blob.writeRow: size must not be negative"
  else if len compressed =? 0 then Panic "blob.writeRow: compressed must not be empty"
  else
    let? q := wrap_err ErrPolicy (PromoteFor (hash_view s) uuid) in
    let s := set_policy s (Hash.policy_row q) in
    let? rid := Exists s uuid in
    match rid with
    | Some rid =>
        let s := set_blob s (alter (fun r => mk_blobrow (br_uuid r) (Some size) (Some compressed)) rid (blob s)) in
        Ok (rid, set_phantom s (phantom s ∖ {[rid]}))
    | None => insert_blob s (mk_blobrow uuid (Some size) (Some compressed))
    end.

Definition mark_unclustered (s : store) (rid : Z) : store := set_unclustered s ({[rid]} ∪ unclustered s).

Definition writeVerified (s : store) (alg : Alg) (uuid content : bytes) : sresult (Z * store) :=
  let? compressed := Compress content in
  let? (rid, s) := writeRow s uuid (len content) compressed in
  let? readBack := Load s rid in
  let? got := Alg_Hash alg (Some readBack) in
  if negb (bytes_eqb got uuid) then Err (ErrRoundTrip uuid got)
  else Ok (rid, mark_unclustered s rid).

(** The deferred postcondition of the storing calls. *)
Definition positive_rid {A} (who : string) (rid : Z) (a : A) : sresult A := if rid <=? 0 then Panic who else Ok a.

Definition Store (s : store) (content : bytes) : sresult (Z * bytes * store) :=
  let? naming := wrap_err ErrPolicy (NamingFor (hash_view s)) in
  let? uuid := Alg_Hash (New naming) (Some content) in
  let? found := existingName s naming uuid content in
  match found with
  | Some (rid, name) => positive_rid "blob.Store: postcondition violated: rid <= 0 with no error" rid (rid, name, s)
  | None =>
      let? (rid, s) := writeVerified s (New naming) uuid content in
      positive_rid "blob.Store: postcondition violated: rid <= 0 with no error" rid (rid, uuid, s)
  end.

Inductive Outcome := Found | Inserted | FilledPhantom.

Definition StoreUnderPolicy (s : store) (content : bytes) : sresult (Z * bytes * Outcome * store) :=
  let? naming := wrap_err ErrPolicy (NamingFor (hash_view s)) in
  let? uuid := Alg_Hash (New naming) (Some content) in
  let? rid := Exists s uuid in
  let write outcome :=
    let? (rid, s) := writeVerified s (New naming) uuid content in Ok (rid, uuid, outcome, s) in
  match rid with
  | Some rid => if negb (isPhantom s rid) then Ok (rid, uuid, Found, s) else write FilledPhantom
  | None => write Inserted
  end.

(** ** Deltas *)
Context (growslice : Z -> Z -> Z).

Definition delta_Apply (source d : bytes) : sresult bytes :=
  let? o := wrap_err ErrDelta (Delta.Apply growslice (Some source) d) in Ok (b_data o).

Definition StoreDelta (s : store) (content : bytes) (srcRid : Z) : sresult (Z * bytes * store) :=
  if len content =? 0 then Panic "blob.StoreDelta: content length must be > 0"
  else if srcRid <=? 0 then Panic "blob.StoreDelta: srcRid must be > 0"
  else
    let? naming := wrap_err ErrPolicy (NamingFor (hash_view s)) in
    let? uuid := Alg_Hash (New naming) (Some content) in
    let? found := existingName s naming uuid content in
    match found with
    | Some (rid, name) => positive_rid "blob.StoreDelta: postcondition violated: rid <= 0 with no error" rid (rid, name, s)
    | None =>
        let? srcContent := Load s srcRid in
        let? deltaBytes := wrap_err ErrDelta (Create (Some srcContent) (Some content)) in
        let? compressed := Compress deltaBytes in
        let? (rid, s) := writeRow s uuid (len content) compressed in
        if bool_decide (is_Some (delta s !! rid)) then Err (ErrConstraint uuid)
        else
          let s := set_delta s (<[rid := srcRid]> (delta s)) in
          let? storedDelta := Load s rid in
          let? rebuilt := delta_Apply srcContent storedDelta in
          let? got := Alg_Hash (New naming) (Some rebuilt) in
          if negb (bytes_eqb got uuid) then Err (ErrRoundTrip uuid got)
          else positive_rid "blob.StoreDelta: postcondition violated: rid <= 0 with no error" rid (rid, uuid, mark_unclustered s rid)
    end.

Definition StoreDeltaRaw (s : store) (uuid deltaBytes : bytes) (srcRid : Z) (storedBlob : option bytes) : sresult (Z * store) :=
  if bytes_eqb uuid [] then Panic "blob.StoreDeltaRaw: uuid must not be empty"
  else if srcRid <=? 0 then Panic "blob.StoreDeltaRaw: srcRid must be > 0"
  else
    let? existing := Exists s uuid in
    let write :=
      let? targetSize := wrap_err ErrDelta (OutputSize deltaBytes) in
      let? compressed := EncodeForStorage deltaBytes storedBlob in
      let? (rid, s) := writeRow s uuid targetSize compressed in
      let s := set_delta s (<[rid := srcRid]> (delta s)) in
      positive_rid "blob.StoreDeltaRaw: postcondition violated: rid <= 0 with no error" rid (rid, mark_unclustered s rid) in
    match existing with
    | Some rid => if negb (isPhantom s rid)
                  then positive_rid "blob.StoreDeltaRaw: postcondition violated: rid <= 0 with no error" rid (rid, s)
                  else write
    | None => write
    end.

Definition StorePhantom (s : store) (uuid : bytes) : sresult (Z * store) :=
  if bytes_eqb uuid [] then Panic "blob.StorePhantom: uuid must not be empty"
  else
    let? existing := Exists s uuid in
    match existing with
    | Some rid => positive_rid "blob.StorePhantom: postcondition violated: rid <= 0 with no error" rid (rid, s)
    | None =>
        let? (rid, s) := insert_blob s (mk_blobrow uuid (Some (-1)) None) in
        if bool_decide (rid ∈ phantom s) then Err (ErrConstraint uuid)
        else positive_rid "blob.StorePhantom: postcondition violated: rid <= 0 with no error" rid
               (rid, set_phantom s ({[rid]} ∪ phantom s))
    end.

End Blob.
