(* ===== verification/Content.v ===== *)
(** * Expanding artifacts: src/internal/content/content.go, available.go,
    deltify.go, private.go

    The walk down a delta chain and its replay, the availability of an artifact,
    and the rewriting of a row as a delta and back.  The cache's callbacks and
    their state are [hooks]; a plain expansion has none. *)

From stdpp Require Import gmap.
From S2P Require Import Prelude GoMap GoStd GoCrypto Hash Zlib Delta Store.

Definition maxDeltaChainDepth : Z := 16384.

(** ** Computations over the cache's state *)
Definition stateful (C A : Type) : Type := C -> sresult A * C.
Definition pure {C A} (m : sresult A) : stateful C A := fun c => (m, c).
Definition bind {C A B} (m : stateful C A) (k : A -> stateful C B) : stateful C B :=
  fun c => match m c with
           | (Ok a, c) => k a c
           | (Err e, c) => (Err e, c)
           | (Panic msg, c) => (Panic msg, c)
           | (Diverge, c) => (Diverge, c)
           end.
Notation "'let!' x := m 'in' k" := (bind m (fun x => k))
  (at level 10, x pattern, m at level 100, k at level 200) : go_scope.

(** What a cache offers an expansion: content it holds, and a place for what is
    rebuilt. *)
Record hooks (C : Type) := mk_hooks { have : C -> Z -> option bytes * C; put : C -> Z -> bytes -> C }.
Arguments mk_hooks {C}. Arguments have {C}. Arguments put {C}.

Section Expansion.
Context `{ZL : !Zlib} `{S3 : !Sha3} (growslice : Z -> Z -> Z).

(** ** The name check *)
Definition bindToUUID (rid : Z) (uuid content : bytes) : sresult unit :=
  let? computed := (if len uuid =? 64 then SHA3 (Some content) else SHA1 (Some content)) in
  if negb (bytes_eqb computed uuid) then Err (HashMismatchError rid uuid computed) else Ok tt.

Definition bindToName (s : store) (rid : Z) (content : bytes) : sresult unit :=
  match blob s !! rid with
  | None => Err (ErrNoRow rid)
  | Some r => bindToUUID rid (br_uuid r) content
  end.

(** ** The walk *)
Section Hooked.
Context {C : Type} (hk : option (hooks C)).

Definition ask (current : Z) : stateful C (option bytes) :=
  fun c => match hk with
           | Some h => let '(cached, c) := have h c current in (Ok cached, c)
           | None => (Ok None, c)
           end.

Fixpoint chain_loop (fuel : nat) (s : store) (rid current : Z) (seen : gset Z) (chain : list Z)
    : stateful C (list Z * option bytes) :=
  match fuel with
  | O => pure Diverge
  | S fuel =>
      if bool_decide (current ∈ seen) then pure (Err (ErrCycle current))
      else
        let chain := chain ++ [current] in
        let! cached := ask current in
        match cached with
        | Some base => pure (Ok (rev chain, Some base))
        | None =>
            match delta s !! current with
            | None => pure (Ok (rev chain, None))
            | Some sourceID =>
                if len chain >=? maxDeltaChainDepth then pure (Err (ErrChainDepth rid))
                else chain_loop fuel s rid sourceID ({[current]} ∪ seen) chain
            end
        end
  end.

Definition walkDeltaChain (s : store) (rid : Z) : stateful C (list Z * option bytes) :=
  if rid <=? 0 then pure (Panic "content.walkDeltaChain: rid must be > 0")
  else
    let! (chain, base) := chain_loop (Z.to_nat maxDeltaChainDepth) s rid rid ∅ [] in
    if len chain =? 0 then pure (Panic "content.walkDeltaChain: postcondition violated: chain is empty with no error")
    else pure (Ok (chain, base)).

(** ** The replay *)

(** A node rebuilt on the way, handed over once its name has been checked. *)
Definition keep (s : store) (check : bool) (rid : Z) (content : bytes) : stateful C unit :=
  match hk with
  | None => pure (Ok tt)
  | Some h =>
      let! _ := pure (if check then bindToName s rid content else Ok tt) in
      fun c => (Ok tt, put h c rid content)
  end.

(** [scratch]: the slot the next link writes, then the one that holds the
    content; without a cache the two buffers take turns. *)
Fixpoint replay_chain (s : store) (check : bool) (chain : list Z) (content : bytes) (scratch : buffer * buffer)
    : stateful C bytes :=
  match chain with
  | [] => pure (Ok content)
  | rid :: chain =>
      let! deltaBytes := pure (Load s rid) in
      match hk with
      | Some _ =>
          let! content := pure (delta_Apply growslice content deltaBytes) in
          let! _ := keep s check rid content in
          replay_chain s check chain content scratch
      | None =>
          let '(slot, other) := scratch in
          let dst := mk_buffer (b_nil slot) [] (b_cap slot) in
          let! o := pure (wrap_err ErrDelta (ApplyInto growslice dst (Some content) deltaBytes)) in
          replay_chain s check chain (b_data o) (other, o)
      end
  end.

Definition finishExpansion (s : store) (rid : Z) (content : bytes) (verified check : bool) : sresult bytes :=
  if negb verified && check then let? _ := bindToName s rid content in Ok content else Ok content.

(** The content the replay starts from: what the walk stopped on, or the root's. *)
Definition chain_start (s : store) (check : bool) (root : Z) (base : option bytes) : stateful C bytes :=
  match base with
  | Some content => pure (Ok content)
  | None =>
      let! content := pure (Load s root) in
      let! _ := keep s check root content in
      pure (Ok content)
  end.

Definition expandChain (s : store) (rid : Z) (check : bool) : stateful C bytes :=
  let! (chain, base) := walkDeltaChain s rid in
  match chain with
  | [] => pure (Panic "content.expandChain: chain must end at rid")
  | root :: links =>
      if negb (List.last chain 0 =? rid) then pure (Panic "content.expandChain: chain must end at rid")
      else
        let! content := chain_start s check root base in
        let! content := replay_chain s check links content (nil_buffer, nil_buffer) in
        pure (finishExpansion s rid content (bool_decide (is_Some hk)) check)
  end.
End Hooked.

(** ** The calls *)
Definition plain {A} (m : stateful unit A) : sresult A := fst (m tt).

Definition Expand (s : store) (rid : Z) : sresult bytes :=
  if rid <=? 0 then Panic "content.Expand: rid must be > 0" else plain (expandChain None s rid true).

Definition ExpandUnchecked (s : store) (rid : Z) : sresult bytes :=
  if rid <=? 0 then Panic "content.ExpandUnchecked: rid must be > 0" else plain (expandChain None s rid false).

Definition Verify (s : store) (rid : Z) : sresult unit :=
  if rid <=? 0 then Panic "content.Verify: rid must be > 0" else let? _ := Expand s rid in Ok tt.

Definition IsPhantom (s : store) (rid : Z) : sresult bool :=
  if rid <=? 0 then Panic "content.IsPhantom: rid must be > 0" else Ok (bool_decide (rid ∈ phantom s)).

(** ** Availability *)

(** One step's query: the size and the delta row of a blob row. *)
Inductive step := NoRow | Phantom | FullText | DeltaOf (srcid : Z).

Definition step_of (s : store) (current : Z) : step :=
  match blob s !! current with
  | None => NoRow
  | Some r =>
      match br_size r with
      | None => Phantom
      | Some size =>
          if size <? 0 then Phantom
          else match delta s !! current with
               | None => FullText
               | Some srcid => if srcid =? 0 then FullText else DeltaOf srcid
               end
      end
  end.

Fixpoint available_loop (remaining : nat) (s : store) (current : Z) (seen : gset Z) : bool :=
  match remaining with
  | O => false
  | S remaining =>
      if bool_decide (current ∈ seen) then false
      else match step_of s current with
           | NoRow | Phantom => false
           | FullText => true
           | DeltaOf srcid => available_loop remaining s srcid ({[current]} ∪ seen)
           end
  end.

Definition checkAvailable (s : store) (rid : Z) : bool :=
  if rid <=? 0 then false else available_loop (Z.to_nat maxDeltaChainDepth) s rid ∅.

Definition IsAvailable (s : store) (rid : Z) : bool := checkAvailable s rid.

Definition CheckAvailableByUUID (s : store) (uuid : bytes) : sresult (option Z) :=
  if bytes_eqb uuid [] then Panic "content.CheckAvailableByUUID: uuid must not be empty"
  else Ok (match rid_of s uuid with Some rid => if checkAvailable s rid then Some rid else None | None => None end).

(** ** The availability memo *)
Record AvailabilityCache := mk_AvailabilityCache { avail : gmap Z bool; rids : gmap bytes Z }.
Definition NewAvailabilityCache : AvailabilityCache := mk_AvailabilityCache ∅ ∅.
Definition ForgetUnavailable (a : AvailabilityCache) : AvailabilityCache :=
  mk_AvailabilityCache (filter (fun kv : Z * bool => kv.2 = true) (avail a)) (rids a).

(** The verdict, and the nodes walked to it. *)
Fixpoint memo_loop (remaining : nat) (s : store) (a : AvailabilityCache) (current : Z) (seen : gset Z) (walked : list Z)
    : bool * list Z :=
  match remaining with
  | O => (false, walked)
  | S remaining =>
      match avail a !! current with
      | Some v => (v, walked)
      | None =>
          if bool_decide (current ∈ seen) then (false, walked)
          else
            let walked := walked ++ [current] in
            match step_of s current with
            | NoRow | Phantom => (false, walked)
            | FullText => (true, walked)
            | DeltaOf srcid => memo_loop remaining s a srcid ({[current]} ∪ seen) walked
            end
      end
  end.

Definition isAvailable (s : store) (a : AvailabilityCache) (rid : Z) : bool * AvailabilityCache :=
  if rid <=? 0 then (false, a)
  else match avail a !! rid with
       | Some v => (v, a)
       | None =>
           let '(result, walked) := memo_loop (Z.to_nat maxDeltaChainDepth) s a rid ∅ [] in
           (result, mk_AvailabilityCache (fold_left (fun m n => <[n := result]> m) walked (avail a)) (rids a))
       end.

Definition ridForUUID (s : store) (a : AvailabilityCache) (uuid : bytes) : option Z * AvailabilityCache :=
  match rids a !! uuid with
  | Some rid => (Some rid, a)
  | None =>
      match rid_of s uuid with
      | None => (None, a)
      | Some rid => (Some rid, mk_AvailabilityCache (avail a) (<[uuid := rid]> (rids a)))
      end
  end.

Definition ByUUID (s : store) (a : AvailabilityCache) (uuid : bytes) : sresult (option Z * AvailabilityCache) :=
  if bytes_eqb uuid [] then Panic "content.AvailabilityCache.ByUUID: uuid must not be empty"
  else
    let '(rid, a) := ridForUUID s a uuid in
    Ok (match rid with
        | None => (None, a)
        | Some rid => let '(v, a) := isAvailable s a rid in (if v then Some rid else None, a)
        end).

(** ** Private artifacts *)
Definition IsPrivate (s : store) (rid : Z) : sresult bool :=
  if rid <=? 0 then Panic "content.IsPrivate: rid must be positive" else Ok (bool_decide (rid ∈ private s)).
Definition MakePrivate (s : store) (rid : Z) : sresult store :=
  if rid <=? 0 then Panic "content.MakePrivate: rid must be positive" else Ok (set_private s ({[rid]} ∪ private s)).
Definition MakePublic (s : store) (rid : Z) : sresult store :=
  if rid <=? 0 then Panic "content.MakePublic: rid must be positive" else Ok (set_private s (private s ∖ {[rid]})).

(** ** Rewriting a row *)
Definition deltifyMinBytes : Z := 50.

(** [len(deltaBytes) >= len(data)*0.75], exact in a float64 at these lengths. *)
Definition not_worth (deltaLen dataLen : Z) : bool := 4 * deltaLen >=? 3 * dataLen.

Definition DeltaSource (s : store) (rid : Z) : Z := default 0 (delta s !! rid).

Definition Undelta (s : store) (rid : Z) : sresult store :=
  if rid <=? 0 then Panic "content.Undelta: rid must be > 0"
  else if DeltaSource s rid <=? 0 then Ok s
  else
    let? full := Expand s rid in
    let? compressed := Compress full in
    let s := set_blob s (alter (fun r => mk_blobrow (br_uuid r) (Some (len full)) (Some compressed)) rid (blob s)) in
    Ok (set_delta s (base.delete rid (delta s))).

(** [deltifyBreaksLoop]'s walk: whether [rid] is met above [cur]. *)
Fixpoint loop_walk (fuel : nat) (s : store) (rid srcRid cur steps : Z) (seen : gset Z) : sresult bool :=
  match fuel with
  | O => Diverge
  | S fuel =>
      if bool_decide (cur ∈ seen) then Err (ErrCycle cur)
      else if steps >? maxDeltaChainDepth then Err (ErrChainDepth srcRid)
      else
        let next := DeltaSource s cur in
        if next <=? 0 then Ok false
        else if next =? rid then Ok true
        else loop_walk fuel s rid srcRid next (steps + 1) ({[cur]} ∪ seen)
  end.

Definition deltifyBreaksLoop (s : store) (rid srcRid : Z) : sresult (bool * store) :=
  let? loops := loop_walk (Z.to_nat (maxDeltaChainDepth + 2)) s rid srcRid srcRid 0 ∅ in
  if loops then let? s := Undelta s srcRid in Ok (true, s) else Ok (false, s).

Definition deltifyWrite (s : store) (rid srcRid : Z) (deltaBytes : bytes) : sresult (Z * store) :=
  match blob s !! rid with
  | None => Err (ErrNoRow rid)
  | Some r =>
      let before := len (default [] (br_content r)) in
      let? compressed := Compress deltaBytes in
      let s := set_blob s (alter (fun r => mk_blobrow (br_uuid r) (br_size r) (Some compressed)) rid (blob s)) in
      let s := set_delta s (<[rid := srcRid]> (delta s)) in
      let? _ := Expand s rid in
      let saved := before - len compressed in
      Ok (if saved <? 0 then 0 else saved, s)
  end.

Definition Deltify (s : store) (rid srcRid : Z) : sresult (Z * store) :=
  if (rid <=? 0) || (srcRid <=? 0) || (rid =? srcRid) then Ok (0, s)
  else if DeltaSource s rid >? 0 then Ok (0, s)
  else
    let '(a1, memo) := isAvailable s NewAvailabilityCache rid in
    if negb a1 || negb (fst (isAvailable s memo srcRid)) then Ok (0, s)
    else
      let? data := Expand s rid in
      if len data <? deltifyMinBytes then Ok (0, s)
      else
        let? p1 := IsPrivate s srcRid in
        let? p2 := IsPrivate s rid in
        if p1 && negb p2 then Ok (0, s)
        else
          let? (loops, s) := deltifyBreaksLoop s rid srcRid in
          if (loops : bool) then Ok (0, s)
          else
            let? src := Expand s srcRid in
            if len src <? deltifyMinBytes then Ok (0, s)
            else
              match Create (Some src) (Some data) with
              | Err (ErrTooLarge _ _) => Ok (0, s)
              | created =>
                  let? deltaBytes := wrap_err ErrDelta created in
                  if not_worth (len deltaBytes) (len data) then Ok (0, s)
                  else deltifyWrite s rid srcRid deltaBytes
              end.

End Expansion.
