(* ===== verification/ContentSpec.v ===== *)
(** * What an artifact expands to, and that expansion finds it

    [expands s rid n b]: the chain of [n] rows that ends at [rid] is grounded in
    a full text and replays to [b].  The walk and the replay of [Content] are
    compared with it for any cache callbacks that keep an invariant ([hook_laws]);
    a plain expansion has none. *)

From stdpp Require Import gmap.
From S2P Require Import Prelude GoMap GoStd GoCrypto Hash Zlib Delta DeltaCorrect Store Content.

Section Spec.
Context `{ZL : !Zlib} `{S3 : !Sha3} (s : store).

Inductive expands : Z -> nat -> bytes -> Prop :=
| expands_root rid b : delta s !! rid = None -> Load s rid = Ok b -> expands rid 1 b
| expands_delta rid src n base d b : delta s !! rid = Some src -> expands src n base ->
    Load s rid = Ok d -> replay_delta base d = Ok b -> expands rid (S n) b.

(** The content hashes to the name of its row. *)
Definition bound (rid : Z) (b : bytes) : Prop := bindToName s rid b = Ok tt.

Lemma expands_det rid n b n' b' : expands rid n b -> expands rid n' b' -> n = n' /\ b = b'.
Proof using.
  intros H. revert n' b'. induction H as [rid b Hd Hl|rid src n base d b Hd _ IH Hl Ha]; intros n' b' H';
    inversion H' as [? ? Hd' Hl'|? ? m ? ? ? Hd' He' Hl' Ha']; subst; try congruence.
  - split; [done|]. congruence.
  - assert (src0 = src) as -> by congruence. destruct (IH _ _ He') as [-> ->]. split; [done|]. congruence.
Qed.

Lemma expands_pos rid n b : expands rid n b -> (0 < n)%nat.
Proof using. destruct 1; lia. Qed.

Lemma Load_pos rid b : Load s rid = Ok b -> 0 < rid.
Proof using. unfold Load, loadWith. destruct (rid <=? 0) eqn:E; [done|]. zbool. lia. Qed.

Lemma expands_rid rid n b : expands rid n b -> 0 < rid.
Proof using. destruct 1; by eapply Load_pos. Qed.

(** What the theorems ask of a store: sources are rows, and no slice is longer
    than a Go program can hold. *)
Record readable : Prop := {
  delta_pos rid src : delta s !! rid = Some src -> 0 < src;
  load_alloc rid b : Load s rid = Ok b -> alloc_ok b;
}.
Context (Hs : readable).

Lemma replay_delta_alloc base d b : alloc_ok d -> replay_delta base d = Ok b -> alloc_ok b.
Proof using.
  intros Hd Hr. unfold replay_delta in Hr. destruct (len d =? 0); [done|]. ok_inv. destruct a as [n r].
  apply replay_ok_len in Hk. apply parseTargetLen_ok in Hok as (Ht & _); [|by apply reader_ok_start].
  unfold alloc_ok. unfold maxDeltaTargetSize in *. lia.
Qed.

Lemma expands_alloc rid n b : expands rid n b -> alloc_ok b.
Proof using Hs.
  destruct 1 as [? ? _ Hl|? ? ? ? ? ? _ _ Hl Hr]; [by eapply load_alloc|].
  eapply replay_delta_alloc; [by eapply load_alloc|done].
Qed.

Lemma Load_returns rid : 0 < rid -> returns (Load s rid).
Proof using.
  intros Hr. unfold Load, loadWith, Decompress. rewrite (proj2 (Z.leb_gt _ _)) by lia. by repeat case_goal.
Qed.

Lemma bindToName_returns rid b : returns (bindToName s rid b).
Proof using.
  unfold bindToName, bindToUUID. destruct (blob s !! rid); [|done].
  apply returns_bind; [by destruct (_ =? 64)|]. intros. by destruct (negb _).
Qed.

(** The chain below a node. *)
Fixpoint linked (x : Z) (l : list Z) : Prop :=
  match l with
  | [] => True
  | y :: l => delta s !! y = Some x /\ linked y l
  end.

(** ** Runs over a cache's state *)
Section Runs.
Context {C : Type} (Inv : C -> Prop).

(** The call returns; whatever it answers, the invariant holds. *)
Definition runs {A} (m : stateful C A) (c : C) (Q : A -> C -> Prop) : Prop :=
  Inv (snd (m c)) /\ match fst (m c) with Ok a => Q a (snd (m c)) | Err _ => True | _ => False end.

Lemma runs_bind {A B} (m : stateful C A) (k : A -> stateful C B) c Q :
  runs m c (fun a c' => Inv c' -> runs (k a) c' Q) -> runs (bind m k) c Q.
Proof using. unfold runs, bind. destruct (m c) as [[a|e|msg|] c']; cbn; tauto. Qed.

Lemma runs_pure {A} (m : sresult A) c (Q : A -> C -> Prop) : Inv c -> returns m -> (forall a, m = Ok a -> Q a c) -> runs (pure m) c Q.
Proof using. intros Hc Hr HQ. split; [done|]. cbn. destruct m; try done. by apply HQ. Qed.

Lemma runs_mono {A} (m : stateful C A) c (P Q : A -> C -> Prop) : runs m c P -> (forall a c', P a c' -> Q a c') -> runs m c Q.
Proof using. intros [H1 H2] HPQ. split; [done|]. destruct (fst (m c)); auto. Qed.

(** What the callbacks keep: the cache holds expansions only, checked ones when
    it serves checked content. *)
Record hook_laws (h : hooks C) (check : bool) : Prop := {
  have_law c x : Inv c -> Inv (snd (have h c x)) /\
    forall d, fst (have h c x) = Some d -> exists n, expands x n d /\ (check = true -> bound x d);
  put_law c x n d : Inv c -> expands x n d -> (check = true -> bound x d) -> Inv (put h c x d);
}.
Context (hk : option (hooks C)) (check : bool).
Hypothesis Hhk : match hk with Some h => hook_laws h check | None => True end.

(** ** The walk *)
Definition walked (rid : Z) (chain : list Z) (base : option bytes) : Prop :=
  exists root links, chain = root :: links /\ linked root links /\ List.last chain 0 = rid
    /\ len chain <= maxDeltaChainDepth /\ (hk = None -> base = None)
    /\ match base with
       | Some b => exists n, expands root n b /\ (check = true -> bound root b)
       | None => delta s !! root = None
       end.

Lemma ask_runs c x : Inv c -> runs (ask hk x) c (fun r _ => (hk = None -> r = None)
  /\ forall d, r = Some d -> exists n, expands x n d /\ (check = true -> bound x d)).
Proof using Hhk.
  intros Hc. unfold runs, ask. destruct hk as [h|]; [|by split; [|split]].
  destruct (have_law h check Hhk c x Hc) as [H1 H2]. destruct (have h c x) as [r c']. cbn in *. by split.
Qed.

Lemma chain_loop_runs fuel rid : forall current seen chain c, Inv c ->
  Z.of_nat fuel + len chain = maxDeltaChainDepth -> (0 < fuel)%nat -> 0 < current ->
  linked current (rev chain) -> List.last (current :: rev chain) 0 = rid -> Forall (fun x => 0 < x) chain ->
  runs (chain_loop hk fuel s rid current seen chain) c (fun '(ch, base) _ => walked rid ch base /\ Forall (fun x => 0 < x) ch).
Proof using Hhk Hs.
  induction fuel as [|fuel IH]; intros current seen chain c Hc Hf Hf0 Hpos Hlk Hlast Hall; [lia|].
  cbn [chain_loop]. case_bool_decide; [by apply runs_pure|].
  apply runs_bind. eapply runs_mono; [by apply ask_runs|]. intros cached c' [Hplain Hcached] Hc'.
  assert (len (rev (chain ++ [current])) <= maxDeltaChainDepth) as Hlen.
  { unfold len in *. rewrite length_rev, length_app. cbn [length]. lia. }
  assert (rev (chain ++ [current]) = current :: rev chain) as Hrev by apply rev_unit.
  assert (Forall (fun x => 0 < x) (current :: rev chain)) as Hall' by (constructor; [done|by apply Forall_rev]).
  destruct cached as [b|].
  { apply runs_pure; [done|done|]. intros a [= <-]. rewrite Hrev. split; [|done].
    rewrite Hrev in Hlen. exists current, (rev chain). split_and!; try done; by apply Hcached. }
  destruct (delta s !! current) as [src|] eqn:Ed.
  - destruct (_ >=? _) eqn:Eg; [by apply runs_pure|]. rewrite Z.geb_leb in Eg. zbool. rewrite len_app, len_cons, len_nil in Eg.
    apply IH; [done|rewrite len_app, len_cons, len_nil; lia| |by eapply delta_pos| | |].
    + lia.
    + rewrite Hrev. split; [done|exact Hlk].
    + rewrite Hrev. exact Hlast.
    + apply Forall_app. split; [done|]. by constructor.
  - apply runs_pure; [done|done|]. intros a [= <-]. rewrite Hrev. split; [|done]. rewrite Hrev in Hlen. by exists current, (rev chain).
Qed.

(** ** The replay *)
Context (growslice : Z -> Z -> Z).
Hypothesis Hg : forall old need, need <= growslice old need.

Lemma delta_Apply_replay base d : alloc_ok base -> alloc_ok d ->
  delta_Apply growslice base d = wrap_err ErrDelta (replay_delta base d).
Proof using Hg.
  intros Hb Hd. rewrite <- (ApplyInto_is_replay growslice nil_buffer base d Hg nil_buffer_ok Hb Hd).
  unfold delta_Apply, Delta.Apply. by destruct (ApplyInto _ _ _ _).
Qed.

Lemma ApplyInto_replay dst base d : dst_ok dst -> alloc_ok base -> alloc_ok d ->
  returns (ApplyInto growslice dst (Some base) d)
  /\ forall o, ApplyInto growslice dst (Some base) d = Ok o ->
       replay_delta base d = Ok (b_data o) /\ dst_ok (mk_buffer (b_nil o) [] (b_cap o)).
Proof using Hg.
  intros Hdst Hb Hd. pose proof (replay_delta_returns base d Hb Hd) as Hr.
  rewrite <- (ApplyInto_is_replay growslice dst) in Hr by done. split; [by destruct (ApplyInto _ _ _ _)|].
  intros o Ho. rewrite <- (ApplyInto_is_replay growslice dst) by done. split; [by rewrite Ho|exact (ApplyInto_dst_ok growslice dst base d o Hg Hdst Hb Hd Ho)].
Qed.

Lemma keep_runs x n b c : Inv c -> expands x n b -> runs (keep hk s check x b) c (fun _ _ => hk <> None -> check = true -> bound x b).
Proof using Hhk.
  intros Hc He. unfold keep. destruct hk as [h|]; [|by apply runs_pure].
  apply runs_bind. destruct check eqn:Ec.
  - apply runs_pure; [done|apply bindToName_returns|]. intros [] Hb Hc'. split; [by eapply put_law|by cbn].
  - apply runs_pure; [done|done|]. intros [] _ Hc'. split; [by eapply put_law|by cbn].
Qed.

Lemma replay_runs links : forall root content n scratch c, Inv c -> expands root n content ->
  (hk <> None -> check = true -> bound root content) -> linked root links -> Forall (fun x => 0 < x) links ->
  dst_ok (mk_buffer (b_nil scratch.1) [] (b_cap scratch.1)) -> dst_ok (mk_buffer (b_nil scratch.2) [] (b_cap scratch.2)) ->
  runs (replay_chain growslice hk s check links content scratch) c
    (fun b _ => exists m, m = (n + length links)%nat /\ expands (List.last (root :: links) 0) m b
                 /\ (hk <> None -> check = true -> bound (List.last (root :: links) 0) b)).
Proof using Hhk Hs Hg.
  induction links as [|x links IH]; intros root content n scratch c Hc He Hb Hl Hpos Hd1 Hd2.
  { apply runs_pure; [done|done|]. intros a [= <-]. exists n. cbn [length]. split; [lia|done]. }
  destruct Hl as [Hsrc Hl]. cbn [length]. rewrite <- Nat.add_succ_comm. inversion Hpos as [|? ? Hx Hpos']; subst. cbn [replay_chain].
  change (List.last (root :: x :: links) 0) with (List.last (x :: links) 0).
  apply runs_bind, runs_pure; [done|by apply Load_returns|]. intros d Hload _.
  pose proof (load_alloc Hs _ _ Hload) as Had. pose proof (expands_alloc _ _ _ He) as Hac.
  assert (forall b, replay_delta content d = Ok b -> expands x (S n) b) as Hstep by (intros b Hr; by eapply expands_delta).
  pose proof keep_runs as Hkeep. destruct hk as [h|].
  - apply runs_bind, runs_pure; [done| |].
    { rewrite delta_Apply_replay by done. by apply returns_wrap_err, replay_delta_returns. }
    intros b Hr _. rewrite delta_Apply_replay in Hr by done.
    assert (replay_delta content d = Ok b) as Hr' by (by destruct (replay_delta content d); [injection Hr as ->|..]).
    apply runs_bind. eapply runs_mono; [eapply Hkeep; [done|by apply Hstep]|]. intros u c2 Hb2 Hc2.
    by eapply IH; [|apply Hstep|..].
  - destruct scratch as [slot other]. cbn [fst snd] in *.
    destruct (ApplyInto_replay _ content d Hd1 Hac Had) as [Hret Hok].
    apply runs_bind, runs_pure; [done|by apply returns_wrap_err|]. intros o Ho _.
    assert (ApplyInto growslice (mk_buffer (b_nil slot) [] (b_cap slot)) (Some content) d = Ok o) as Ho'.
    { revert Ho. destruct (ApplyInto growslice _ _ _); cbn; congruence. }
    destruct (Hok o Ho') as [Hr Hdst]. eapply IH; [done|by apply Hstep|done|done|done|exact Hd2|exact Hdst].
Qed.

(** ** The expansion *)
Definition started (root : Z) (b : bytes) (_ : C) : Prop :=
  exists n, expands root n b /\ (hk <> None -> check = true -> bound root b) /\ (hk = None -> n = 1%nat).

Lemma chain_start_runs root base c : Inv c -> 0 < root -> (hk = None -> base = None) ->
  match base with Some b => exists n, expands root n b /\ (check = true -> bound root b) | None => delta s !! root = None end ->
  runs (chain_start hk s check root base) c (started root).
Proof using Hhk Hs.
  intros Hc Hroot Hplain Hbase. unfold chain_start. destruct base as [b|].
  - apply runs_pure; [done|done|]. intros a [= <-]. destruct Hbase as (n & He & Hb). exists n.
    split_and!; [done|done|]. intros Hk. by apply Hplain in Hk.
  - apply runs_bind, runs_pure; [done|by apply Load_returns|]. intros b Hb _.
    assert (expands root 1 b) as He by by apply expands_root.
    apply runs_bind. eapply runs_mono; [by eapply keep_runs|]. intros u c2 Hbd Hc2.
    apply runs_pure; [done|done|]. intros a [= <-]. by exists 1%nat.
Qed.

Lemma expandChain_runs rid c : 0 < rid -> Inv c -> runs (expandChain growslice hk s rid check) c
  (fun b _ => exists n, expands rid n b /\ (check = true -> bound rid b)
    /\ (hk = None -> Z.of_nat n <= maxDeltaChainDepth)).
Proof using Hhk Hs Hg.
  intros Hrid Hc. unfold expandChain, walkDeltaChain. rewrite (proj2 (Z.leb_gt _ _)) by lia.
  apply runs_bind. apply runs_bind. eapply runs_mono; [apply chain_loop_runs; [done| |by apply Nat.ltb_lt|done|done|done|done]|].
  { rewrite Z2Nat.id, len_nil; [lia|done]. }
  intros [ch base] c1 [Hw Hpos] Hc1. destruct Hw as (root & links & -> & Hl & Hlast & Hlen & Hplain & Hbase).
  rewrite (proj2 (Z.eqb_neq (len (root :: links)) 0)) by (rewrite len_cons; pose proof (len_nonneg links); lia).
  apply runs_pure; [done|done|]. intros a [= <-] _. rewrite Hlast, Z.eqb_refl. cbn [negb].
  inversion Hpos as [|? ? Hroot Hlinks]; subst. apply runs_bind.
  eapply runs_mono; [by apply chain_start_runs|].
  intros b c2 (n & He & Hb & Hn) Hc2. apply runs_bind.
  eapply runs_mono; [by eapply replay_runs|]. intros b' c3 (m & Hm & He' & Hb') Hc3.
  assert (hk = None -> Z.of_nat m <= maxDeltaChainDepth) as Hmax.
  { intros Hk. specialize (Hn Hk). unfold len in Hlen. cbn [length] in Hlen. lia. }
  unfold finishExpansion. destruct check eqn:Ec; rewrite ?andb_false_r, ?andb_true_r.
  - case_bool_decide as Hk; cbn [negb].
    + apply runs_pure; [done|done|]. intros a [= <-]. exists m. split; [done|]. split; [|done]. intros _. apply Hb'; [|done].
      by intros ->; destruct Hk.
    + apply runs_pure; [done|by apply returns_bind; [apply bindToName_returns|]|]. intros a Ha.
      apply obind_ok in Ha as ([] & Hbd & [= <-]). by exists m.
  - apply runs_pure; [done|done|]. intros a [= <-]. by exists m.
Qed.

(** ** An artifact that expands is expanded *)
Definition oks {A} (m : stateful C A) (c : C) : Prop := exists a, fst (m c) = Ok a.

Lemma oks_bind {A B} (m : stateful C A) (k : A -> stateful C B) c Q : runs m c Q -> oks m c ->
  (forall a c', Inv c' -> Q a c' -> oks (k a) c') -> oks (bind m k) c.
Proof using.
  unfold runs, oks, bind. intros [Hi HQ] [a Ha] Hk. destruct (m c) as [r c']. cbn in *. subst r. by apply Hk.
Qed.

Lemma oks_pure {A} (m : sresult A) c : (exists a, m = Ok a) -> oks (pure m) c.
Proof using. done. Qed.

Lemma ask_oks c x : oks (ask hk x) c.
Proof using. clear Hhk. unfold oks, ask. destruct hk as [h|]; [destruct (have h c x)|]; by eexists. Qed.

Definition expandable (x : Z) : Prop := exists n b, expands x n b.

(** A node of a grounded chain is met once: the chain below is shorter. *)
Lemma chain_loop_oks fuel rid : forall current seen chain c n b, Inv c -> expands current n b ->
  (forall x, x ∈ seen -> exists m b', expands x m b' /\ (n < m)%nat) -> Forall expandable chain ->
  (n <= fuel)%nat -> Z.of_nat fuel + len chain = maxDeltaChainDepth ->
  oks (chain_loop hk fuel s rid current seen chain) c
  /\ runs (chain_loop hk fuel s rid current seen chain) c (fun '(ch, _) _ => Forall expandable ch).
Proof using Hhk.
  induction fuel as [|fuel IH]; intros current seen chain c n b Hc He Hseen Hall Hn Hf.
  { apply expands_pos in He. lia. }
  cbn [chain_loop]. rewrite bool_decide_eq_false_2.
  2:{ intros Hin. destruct (Hseen _ Hin) as (m & b' & He' & Hlt). destruct (expands_det _ _ _ _ _ He He') as [-> _]. lia. }
  assert (Forall expandable (chain ++ [current])) as Hall'.
  { apply Forall_app. split; [done|]. constructor; [by exists n, b|done]. }
  enough (forall cached c', Inv c' ->
    let m := match cached with
      | Some base => pure (Ok (rev (chain ++ [current]), Some base))
      | None => match delta s !! current with
          | None => pure (Ok (rev (chain ++ [current]), None))
          | Some sourceID => if len (chain ++ [current]) >=? maxDeltaChainDepth then pure (Err (ErrChainDepth rid))
              else chain_loop hk fuel s rid sourceID ({[current]} ∪ seen) (chain ++ [current]) end end in
    oks m c' /\ runs m c' (fun '(ch, _) _ => Forall expandable ch)) as Hk.
  { split; [eapply oks_bind; [by apply ask_runs|apply ask_oks|]|apply runs_bind; eapply runs_mono; [by apply ask_runs|]].
    - intros a c' Hc' _. by apply Hk.
    - intros a c' _ Hc'. by apply Hk. }
  intros cached c' Hc'. cbn zeta. destruct cached as [base|].
  { split; [apply oks_pure; by eexists|]. apply runs_pure; [done|done|]. intros a [= <-]. by apply Forall_rev. }
  destruct He as [? ? Hd Hl|? src m base d ? Hd He Hl Hr]; rewrite Hd.
  { split; [apply oks_pure; by eexists|]. apply runs_pure; [done|done|]. intros a [= <-]. by apply Forall_rev. }
  pose proof (expands_pos _ _ _ He). rewrite Z.geb_leb, (proj2 (Z.leb_gt _ _)) by (rewrite len_app, len_cons, len_nil; lia).
  eapply IH; [done|done| |done|lia|rewrite len_app, len_cons, len_nil; lia].
  intros x [->%elem_of_singleton|Hx]%elem_of_union.
  - exists (S m), b. split; [by eapply expands_delta|lia].
  - destruct (Hseen x Hx) as (k & b' & Hk & Hlt). exists k, b'. split; [done|lia].
Qed.

(** The names the expansion checks are right. *)
Hypothesis Hnames : hk <> None -> check = true -> forall x n b, expands x n b -> bound x b.

Lemma keep_oks x n b c : expands x n b -> oks (keep hk s check x b) c.
Proof using Hnames.
  clear Hhk. intros He. unfold keep, oks. destruct hk as [h|]; [|by eexists]. unfold bind, pure. destruct check.
  - rewrite (Hnames ltac:(done) eq_refl x n b He). by eexists.
  - by eexists.
Qed.

Lemma replay_oks links : forall root content n scratch c, Inv c -> expands root n content -> linked root links ->
  Forall expandable links ->
  dst_ok (mk_buffer (b_nil scratch.1) [] (b_cap scratch.1)) -> dst_ok (mk_buffer (b_nil scratch.2) [] (b_cap scratch.2)) ->
  oks (replay_chain growslice hk s check links content scratch) c.
Proof using Hhk Hs Hg Hnames.
  induction links as [|x links IH]; intros root content n scratch c Hc He Hl Hall Hd1 Hd2; [by eexists|].
  destruct Hl as [Hsrc Hl]. inversion Hall as [|? ? [m [b Hx]] Hall']; subst. cbn [replay_chain].
  assert (exists d, Load s x = Ok d /\ replay_delta content d = Ok b /\ expands x (S n) b) as (d & Hload & Hr & Hx').
  { destruct Hx as [|? src m base d b Hd Hsrc' Hload Hr]; [congruence|].
    assert (src = root) as -> by congruence. destruct (expands_det _ _ _ _ _ He Hsrc') as [<- <-].
    exists d. split; [done|]. split; [done|]. by eapply expands_delta. }
  pose proof (load_alloc Hs _ _ Hload) as Had. pose proof (expands_alloc _ _ _ He) as Hac.
  eapply (oks_bind _ _ _ (fun d' _ => d' = d)); [apply runs_pure; [done|by rewrite Hload|congruence]|apply oks_pure; by eexists|].
  intros ? c1 Hc1 ->. pose proof keep_oks as Hkeep. pose proof keep_runs as Hkr. destruct hk as [h|].
  - eapply (oks_bind _ _ _ (fun b' _ => b' = b)).
    + rewrite delta_Apply_replay, Hr by done. apply runs_pure; [done|done|]. by intros a [= <-].
    + rewrite delta_Apply_replay, Hr by done. apply oks_pure. by eexists.
    + intros ? c2 Hc2 ->. eapply oks_bind; [by eapply Hkr|by eapply Hkeep|]. intros u c3 Hc3 _. by eapply IH.
  - destruct scratch as [slot other]. cbn [fst snd] in *.
    destruct (ApplyInto_replay _ content d Hd1 Hac Had) as [Hret Hok].
    pose proof (ApplyInto_is_replay growslice _ content d Hg Hd1 Hac Had) as Hrep. rewrite Hr in Hrep.
    apply obind_ok in Hrep as (o & Ho & [= Hob]). rewrite Ho. cbn [wrap_err].
    destruct (Hok o Ho) as [_ Hdst].
    eapply (oks_bind _ _ _ (fun o' _ => o' = o)); [apply runs_pure; [done|done|]; by intros a [= <-]|apply oks_pure; by eexists|].
    intros ? c2 Hc2 ->. rewrite Hob. eapply IH; [done|exact Hx'|done|done|exact Hd2|exact Hdst].
Qed.

Lemma chain_start_oks root base c : Inv c -> 0 < root -> expandable root ->
  match base with Some b => True | None => delta s !! root = None end -> oks (chain_start hk s check root base) c.
Proof using Hhk Hs Hnames.
  intros Hc Hroot (n & b & He) Hbase. unfold chain_start. destruct base as [b'|]; [apply oks_pure; by eexists|].
  destruct He as [? ? _ Hl|]; [|congruence]. assert (expands rid 1 b) as He by by apply expands_root.
  eapply (oks_bind _ _ _ (fun a _ => a = b)); [apply runs_pure; [done|by rewrite Hl|congruence]|apply oks_pure; by eexists|].
  intros ? c1 Hc1 ->. eapply oks_bind; [by eapply keep_runs|by eapply keep_oks|]. intros u c2 Hc2 _. apply oks_pure. by eexists.
Qed.

Lemma expandChain_oks rid n b c : Inv c -> expands rid n b -> Z.of_nat n <= maxDeltaChainDepth ->
  (check = true -> bound rid b) -> oks (expandChain growslice hk s rid check) c.
Proof using Hhk Hs Hg Hnames.
  intros Hc He Hn Hb. pose proof (expands_rid _ _ _ He) as Hrid.
  unfold expandChain, walkDeltaChain. rewrite (proj2 (Z.leb_gt _ _)) by lia.
  destruct (chain_loop_oks (Z.to_nat maxDeltaChainDepth) rid rid ∅ [] c n b) as [Hwo Hwe];
    [done|done|set_solver|done|lia|rewrite Z2Nat.id, len_nil; [lia|done]|].
  assert (runs (chain_loop hk (Z.to_nat maxDeltaChainDepth) s rid rid ∅ []) c
    (fun '(ch, base) _ => (walked rid ch base /\ Forall (fun x => 0 < x) ch) /\ Forall expandable ch)) as Hw.
  { pose proof (chain_loop_runs (Z.to_nat maxDeltaChainDepth) rid rid ∅ [] c) as Hr.
    destruct Hwe as [Hi Hwe], Hr as [_ Hr]; [done|rewrite Z2Nat.id, len_nil; [lia|done]|by apply Nat.ltb_lt|done..|].
    split; [done|]. destruct (fst _) as [[ch base]| | |]; [by split|done..]. }
  eapply (oks_bind _ _ _ (fun '(ch, base) _ => (walked rid ch base /\ Forall (fun x => 0 < x) ch) /\ Forall expandable ch)).
  { apply runs_bind. eapply runs_mono; [exact Hw|]. intros [ch base] c1 [[Hwk Hpos] Hex] Hc1.
    pose proof Hwk as (root & links & -> & _). rewrite (proj2 (Z.eqb_neq (len (root :: links)) 0)) by (rewrite len_cons; pose proof (len_nonneg links); lia).
    apply runs_pure; [done|done|]. by intros a [= <-]. }
  { eapply oks_bind; [exact Hw|exact Hwo|]. intros [ch base] c1 Hc1 [[Hwk Hpos] Hex].
    pose proof Hwk as (root & links & -> & _). rewrite (proj2 (Z.eqb_neq (len (root :: links)) 0)) by (rewrite len_cons; pose proof (len_nonneg links); lia).
    apply oks_pure. by eexists. }
  intros [ch base] c1 Hc1 [[Hwk Hpos] Hex]. destruct Hwk as (root & links & -> & Hl & Hlast & Hlen & Hplain & Hbase).
  rewrite Hlast, Z.eqb_refl. cbn [negb]. inversion Hpos as [|? ? Hroot Hlinks]; subst. inversion Hex as [|? ? Hrx Hlx]; subst.
  eapply oks_bind; [by apply chain_start_runs|apply chain_start_oks; [done|done|done|by destruct base]|].
  intros b1 c2 Hc2 (n1 & He1 & Hb1 & _). eapply oks_bind; [by eapply replay_runs|by eapply replay_oks|].
  intros b2 c3 Hc3 (n2 & _ & He2 & Hb2). destruct (expands_det _ _ _ _ _ He He2) as [_ <-].
  unfold finishExpansion. apply oks_pure. destruct (negb _ && check) eqn:Ek; [|by eexists].
  apply andb_true_iff in Ek as [_ Ek]. rewrite (Hb Ek). by eexists.
Qed.
End Runs.
End Spec.
