(* ===== verification/Cache.v ===== *)
(** * The content cache: src/internal/content/cache.go, cache_sized.go

    An LRU of expanded content bounded in bytes and in entries, the callbacks it
    gives an expansion, and its two memos of derived values.  [items] is
    [c.order] from front to back; the map that indexes it is its lookup.  Entries
    are clipped, so the memory one holds is its length.  The mutex serialises the
    operations, which the model takes one at a time; an expansion takes it once
    per callback, and its callbacks thread the cache. *)

From stdpp Require Import gmap.
From S2P Require Import Prelude GoStd Delta DeltaCorrect GoCrypto Zlib Hash GoMap Store Content ContentSpec.

(** ** Recency lists *)
Section Recency.
Context {K V : Type} `{EqDecision K}.

(** [c.items[k]]. *)
Fixpoint find_entry (k : K) (l : list (K * V)) : option V :=
  match l with
  | [] => None
  | (k', v) :: l => if decide (k' = k) then Some v else find_entry k l
  end.

Definition remove_entry (k : K) (l : list (K * V)) : list (K * V) := List.filter (fun e => negb (bool_decide (fst e = k))) l.

(** [c.order.MoveToFront]. *)
Definition move_to_front (k : K) (l : list (K * V)) : list (K * V) :=
  match find_entry k l with Some v => (k, v) :: remove_entry k l | None => l end.

(** [c.order.Back] and [c.order.Remove] of it. *)
Definition oldest (l : list (K * V)) : option ((K * V) * list (K * V)) :=
  match rev l with [] => None | e :: l => Some (e, rev l) end.
End Recency.

(** ** The cache *)
Record Cache := mk_Cache {
  items : list (Z * bytes); curSize : Z; maxSize : Z; maxEntries : Z; hits : Z; misses : Z; unchecked : bool }.

Definition set_items (c : Cache) (l : list (Z * bytes)) (size : Z) : Cache :=
  mk_Cache l size (maxSize c) (maxEntries c) (hits c) (misses c) (unchecked c).

Definition maxCacheEntries : Z := 100000.

Definition NewCache (maxBytes : Z) : sresult Cache :=
  if maxBytes <=? 0 then Panic "content.NewCache: maxBytes must be > 0"
  else Ok (mk_Cache [] 0 maxBytes maxCacheEntries 0 0 false).

Definition NewUncheckedCache (maxBytes : Z) : sresult Cache :=
  let? c := NewCache maxBytes in
  Ok (mk_Cache (items c) (curSize c) (maxSize c) (maxEntries c) (hits c) (misses c) true).

Definition entrySize (data : bytes) : Z := len data.

Definition evictOldest (c : Cache) : Cache :=
  match oldest (items c) with
  | None => c
  | Some ((_, data), l) => set_items c l (curSize c - entrySize data)
  end.

(** The eviction loop drops an entry per turn, so the entries are fuel enough. *)
Fixpoint evict_loop (fuel : nat) (c : Cache) : Cache :=
  match fuel with
  | O => c
  | S fuel =>
      if ((curSize c >? maxSize c) || (len (items c) >? maxEntries c)) && (len (items c) >? 0)
      then evict_loop fuel (evictOldest c) else c
  end.

Definition storeOwned (c : Cache) (rid : Z) (data : bytes) : Cache :=
  match find_entry rid (items c) with
  | Some _ => set_items c (move_to_front rid (items c)) (curSize c)
  | None =>
      let c := set_items c ((rid, data) :: items c) (curSize c + entrySize data) in
      evict_loop (length (items c)) c
  end.

(** The [have] callback of [Cache.expand]. *)
Definition have_item (c : Cache) (id : Z) : option bytes * Cache :=
  match find_entry id (items c) with
  | None => (None, c)
  | Some data => (Some data, set_items c (move_to_front id (items c)) (curSize c))
  end.

Definition cache_hooks : hooks Cache := mk_hooks have_item storeOwned.

Definition count_hit (c : Cache) : Cache :=
  mk_Cache (items c) (curSize c) (maxSize c) (maxEntries c) (hits c + 1) (misses c) (unchecked c).
Definition count_miss (c : Cache) : Cache :=
  mk_Cache (items c) (curSize c) (maxSize c) (maxEntries c) (hits c) (misses c + 1) (unchecked c).

Section CacheExpansion.
Context `{ZL : !Zlib} `{S3 : !Sha3} (growslice : Z -> Z -> Z).

Definition expand (s : store) (rid : Z) (check : bool) : stateful Cache bytes :=
  fun c =>
    match find_entry rid (items c) with
    | Some data => (Ok data, count_hit (set_items c (move_to_front rid (items c)) (curSize c)))
    | None => expandChain growslice (Some cache_hooks) s rid check (count_miss c)
    end.

(** A nil cache passes through. *)
Definition Cache_Expand (s : store) (rid : Z) (c : option Cache) : sresult bytes * option Cache :=
  match c with
  | None => (Expand growslice s rid, None)
  | Some c =>
      if rid <=? 0 then (Panic "content.Cache.Expand: rid must be > 0", Some c)
      else if unchecked c then (Panic "content.Cache.Expand: an unchecked cache serves only ExpandUnchecked", Some c)
      else let '(r, c) := expand s rid true c in (r, Some c)
  end.

Definition Cache_ExpandUnchecked (s : store) (rid : Z) (c : Cache) : sresult bytes * Cache :=
  if negb (unchecked c) then (Panic "content.Cache.ExpandUnchecked: needs a cache from NewUncheckedCache", c)
  else if rid <=? 0 then (Panic "content.Cache.ExpandUnchecked: rid must be > 0", c)
  else expand s rid false c.
End CacheExpansion.

Definition Remember (c : Cache) (rid : Z) (data : bytes) : sresult Cache :=
  if rid <=? 0 then Panic "content.Cache.Remember: rid must be > 0"
  else match find_entry rid (items c) with
       | Some _ => Ok (set_items c (move_to_front rid (items c)) (curSize c))
       | None => Ok (if len data >? maxSize c then c else storeOwned c rid data)
       end.

Definition Holds (c : Cache) (rid : Z) : bool := bool_decide (is_Some (find_entry rid (items c))).

Definition Invalidate (c : Cache) (rid : Z) : Cache :=
  match find_entry rid (items c) with
  | Some data => set_items c (remove_entry rid (items c)) (curSize c - entrySize data)
  | None => c
  end.

Definition Clear (c : Cache) : Cache := set_items c [] 0.

(** ** The memos.  Invalidate and Clear drop both. *)
Section Memos.
Context {K V : Type} `{EqDecision K}.

Definition maxDerived : Z := 32.

(** [derivedOrder] with the values, oldest first. *)
Definition Derived (d : list (K * V)) (key : K) : option V := find_entry key d.

Definition SetDerived (d : list (K * V)) (key : K) (v : V) : list (K * V) :=
  match find_entry key d with
  | Some _ => map (fun e => if decide (fst e = key) then (key, v) else e) d
  | None => (if len d =? maxDerived then drop 1 d else d) ++ [(key, v)]
  end.

(** The sized memo: entries most recent first, with the bytes each is charged. *)
Record Sized := mk_Sized { sized : list (K * (V * Z)); sizedSize : Z }.

Definition sizedBudget (c : Cache) : Z := Z.quot (maxSize c) 4.

Definition DerivedSized (d : Sized) (key : K) : option V * Sized :=
  match find_entry key (sized d) with
  | None => (None, d)
  | Some (v, _) => (Some v, mk_Sized (move_to_front key (sized d)) (sizedSize d))
  end.

(** The loop of evictions; on an empty memo, which is within its bounds, it stops. *)
Fixpoint sized_evict (fuel : nat) (c : Cache) (d : Sized) : sresult Sized :=
  if (sizedSize d >? sizedBudget c) || (len (sized d) >? maxEntries c) then
    match fuel with
    | O => Diverge
    | S fuel =>
        match oldest (sized d) with
        | None => Panic "nil dereference"
        | Some ((_, (_, size)), l) => sized_evict fuel c (mk_Sized l (sizedSize d - size))
        end
    end
  else Ok d.

Definition SetDerivedSized (c : Cache) (d : Sized) (key : K) (v : V) (size : Z) : sresult Sized :=
  if size <? 0 then Panic "content.Cache.SetDerivedSized: size must be >= 0"
  else if size >? sizedBudget c then Ok d
  else
    let d := match find_entry key (sized d) with
             | Some (_, old) => mk_Sized ((key, (v, size)) :: remove_entry key (sized d)) (sizedSize d + size - old)
             | None => mk_Sized ((key, (v, size)) :: sized d) (sizedSize d + size)
             end in
    sized_evict (length (sized d)) c d.
End Memos.
Arguments Sized : clear implicits.

(** * The cache never changes what an expansion answers *)

(** ** Recency lists *)
Section Recency.
Context {K V : Type} `{EqDecision K}.

Lemma find_entry_in k v (l : list (K * V)) : find_entry k l = Some v -> (k, v) ∈ l.
Proof.
  induction l as [|[k' v'] l IH]; cbn [find_entry]; [done|]. case_decide as E; [subst; intros [= ->]; by left|].
  intros H. right. by apply IH.
Qed.

Lemma find_entry_none k (l : list (K * V)) : find_entry k l = None -> k ∉ l.*1.
Proof.
  induction l as [|[k' v'] l IH]; cbn [find_entry fmap list_fmap]; [intros _ Hin; by apply elem_of_nil in Hin|].
  case_decide as E; [done|]. intros H [Hin|Hin]%elem_of_cons; [by cbn in Hin|by apply IH].
Qed.

Lemma remove_entry_in k (l : list (K * V)) e : e ∈ remove_entry k l <-> e ∈ l /\ e.1 <> k.
Proof.
  unfold remove_entry. rewrite list_elem_of_In, filter_In, <- list_elem_of_In, negb_true_iff, bool_decide_eq_false. done.
Qed.

(** Removing a key of a list without repeated keys takes out its one entry. *)
Lemma remove_entry_perm k v (l : list (K * V)) : NoDup l.*1 -> find_entry k l = Some v -> l ≡ₚ (k, v) :: remove_entry k l.
Proof.
  induction l as [|[k' v'] l IH]; cbn [find_entry]; [done|]. intros Hnd Hf. apply NoDup_cons in Hnd as [Hn Hnd]. cbn in Hn.
  unfold remove_entry. cbn [List.filter fst]. case_decide as E.
  - subst k'. injection Hf as ->. rewrite bool_decide_eq_true_2 by done. cbn [negb]. constructor.
    assert (List.filter (fun e => negb (bool_decide (fst e = k))) l = l) as ->; [|done].
    assert (forall e, e ∈ l -> fst e <> k) as Hl by (intros e He Heq; apply Hn; rewrite <- Heq; by apply list_elem_of_fmap_2).
    clear -Hl. induction l as [|a l IH]; [done|]. cbn [List.filter]. rewrite bool_decide_eq_false_2 by (apply Hl; by left).
    cbn [negb]. f_equal. apply IH. intros e He. apply Hl. by right.
  - rewrite bool_decide_eq_false_2 by done. cbn [negb]. fold (remove_entry k l). rewrite Permutation_swap. constructor. by apply IH.
Qed.

Lemma move_to_front_perm k (l : list (K * V)) : NoDup l.*1 -> move_to_front k l ≡ₚ l.
Proof. intros Hnd. unfold move_to_front. destruct (find_entry k l) eqn:E; [by rewrite <- remove_entry_perm|done]. Qed.

Lemma oldest_perm (l : list (K * V)) e l' : oldest l = Some (e, l') -> l = l' ++ [e].
Proof.
  unfold oldest. destruct (rev l) as [|e0 r] eqn:E; [done|]. intros [= <- <-]. rewrite <- (rev_involutive l), E. done.
Qed.
End Recency.

(** ** The invariant *)
Definition bytes_held (l : list (Z * bytes)) : Z := foldr (fun e n => len e.2 + n) 0 l.

#[export] Instance bytes_held_perm : Proper ((≡ₚ) ==> (=)) bytes_held.
Proof. unfold bytes_held. intros l k H. induction H; cbn [foldr]; lia. Qed.

Lemma bytes_held_app l k : bytes_held (l ++ k) = bytes_held l + bytes_held k.
Proof. unfold bytes_held. induction l as [|e l IH]; cbn [foldr app]; lia. Qed.

Section Correct.
Context `{ZL : !Zlib} `{S3 : !Sha3} (growslice : Z -> Z -> Z) (s : store).

(** The entries are expansions, checked ones unless the cache is unchecked, each
    rid is held once, and the accounting is exact. *)
Record entries_ok (c : Cache) : Prop := {
  ok_nodup : NoDup (items c).*1;
  ok_size : curSize c = bytes_held (items c);
  ok_entries : Forall (fun e => exists n, expands s e.1 n e.2 /\ (unchecked c = false -> bound s e.1 e.2)) (items c);
  ok_max : 0 < maxSize c /\ 0 <= maxEntries c;
}.

Definition within (c : Cache) : Prop := curSize c <= maxSize c /\ len (items c) <= maxEntries c.

Definition cache_ok (c : Cache) : Prop := entries_ok c /\ within c.

Lemma entries_perm c l : entries_ok c -> l ≡ₚ items c -> entries_ok (set_items c l (curSize c)).
Proof using.
  intros [Hn Hs He Hm] Hp. split; cbn [items curSize set_items unchecked maxSize maxEntries]; [by rewrite Hp|by rewrite Hp| |done].
  by rewrite Hp.
Qed.

Lemma evict_entries c : entries_ok c -> entries_ok (evictOldest c).
Proof using.
  intros [Hn Hs He Hm]. unfold evictOldest. destruct (oldest (items c)) as [[[r d] l]|] eqn:Eo; [|done].
  apply oldest_perm in Eo. unfold entrySize. split; cbn [items curSize set_items unchecked maxSize maxEntries]; [| | |done].
  - rewrite Eo, fmap_app in Hn. by apply NoDup_app in Hn as (? & _).
  - rewrite Hs, Eo, bytes_held_app. change (bytes_held [(r, d)]) with (len d + 0). lia.
  - rewrite Eo in He. by apply Forall_app in He as [? _].
Qed.

Lemma evict_loop_ok fuel : forall c, entries_ok c -> (length (items c) <= fuel)%nat ->
  cache_ok (evict_loop fuel c) /\ unchecked (evict_loop fuel c) = unchecked c.
Proof using.
  assert (forall c, entries_ok c -> items c = [] -> within c) as Hempty.
  { intros c Hc Hi. pose proof (ok_max _ Hc). unfold within. rewrite (ok_size _ Hc), Hi. change (0 <= maxSize c /\ 0 <= maxEntries c). lia. }
  induction fuel as [|fuel IH]; intros c Hc Hl; cbn [evict_loop].
  { split; [|done]. split; [done|]. apply Hempty; [done|]. destruct (items c); [done|cbn in Hl; lia]. }
  destruct (((curSize c >? maxSize c) || (len (items c) >? maxEntries c)) && (len (items c) >? 0)) eqn:E.
  - assert (unchecked (evictOldest c) = unchecked c) as <-.
    { unfold evictOldest. by destruct (oldest _) as [[[? ?] ?]|]. }
    apply IH; [by apply evict_entries|]. unfold evictOldest. destruct (oldest (items c)) as [[[r d] l]|] eqn:Eo.
    + apply oldest_perm in Eo. cbn [items set_items]. rewrite Eo, length_app in Hl. cbn in Hl. lia.
    + apply andb_true_iff in E as [_ E]. unfold oldest in Eo. destruct (rev (items c)) eqn:Er; [|done].
      apply (f_equal length) in Er. rewrite length_rev in Er. rewrite Z.gtb_lt in E. unfold len in E. cbn in Er. lia.
  - split; [|done]. split; [done|]. apply andb_false_iff in E as [E|E].
    + apply orb_false_iff in E as [E1 E2]. rewrite Z.gtb_ltb in E1, E2. zbool. split; lia.
    + rewrite Z.gtb_ltb in E. zbool. apply Hempty; [done|]. apply len_zero. pose proof (len_nonneg (items c)). lia.
Qed.

Lemma storeOwned_ok c x n d : cache_ok c -> expands s x n d -> (unchecked c = false -> bound s x d) ->
  cache_ok (storeOwned c x d) /\ unchecked (storeOwned c x d) = unchecked c.
Proof using.
  intros [Hc Hw] He Hb. unfold storeOwned. destruct (find_entry x (items c)) eqn:Ef.
  - split; [|done]. pose proof (move_to_front_perm x _ (ok_nodup _ Hc)) as Hp. split; [by apply entries_perm|].
    destruct Hw as [? ?]. split; cbn [items curSize set_items maxSize maxEntries]; [done|]. unfold len in *. by rewrite Hp.
  - set (c1 := set_items c ((x, d) :: items c) (curSize c + entrySize d)). change (cache_ok (evict_loop (length (items c1)) c1) /\ unchecked (evict_loop (length (items c1)) c1) = unchecked c).
    assert (entries_ok c1) as Hc1.
    { apply find_entry_none in Ef. destruct Hc as [Hn Hs Hes Hm]. split; subst c1; cbn [items curSize set_items unchecked maxSize maxEntries].
      - by constructor.
      - change (bytes_held ((x, d) :: items c)) with (len d + bytes_held (items c)). rewrite Hs. unfold entrySize. lia.
      - constructor; [by exists n|done].
      - done. }
    destruct (evict_loop_ok (length (items c1)) c1 Hc1 ltac:(done)) as [H1 H2]. by split.
Qed.

Lemma have_item_ok c x : cache_ok c -> cache_ok (have_item c x).2 /\ unchecked (have_item c x).2 = unchecked c
  /\ forall d, (have_item c x).1 = Some d -> exists n, expands s x n d /\ (unchecked c = false -> bound s x d).
Proof using.
  intros [Hc Hw]. unfold have_item. destruct (find_entry x (items c)) as [d|] eqn:Ef; cbn [fst snd]; [|done].
  pose proof (move_to_front_perm x _ (ok_nodup _ Hc)) as Hp. split_and!.
  - split; [by apply entries_perm|]. destruct Hw as [? ?]. split; cbn [items curSize set_items maxSize maxEntries]; [done|].
    unfold len in *. by rewrite Hp.
  - done.
  - intros d' [= <-]. apply find_entry_in in Ef. pose proof (ok_entries _ Hc) as He. rewrite Forall_forall in He. by apply (He (x, d)).
Qed.

Lemma cache_hook_laws check : hook_laws s (fun c => cache_ok c /\ unchecked c = negb check) cache_hooks check.
Proof using.
  split.
  - intros c x [Hc Hu]. destruct (have_item_ok c x Hc) as (H1 & H2 & H3). split; [split; [exact H1|exact (eq_trans H2 Hu)]|].
    intros d Hd. destruct (H3 d Hd) as (n & He & Hb). exists n. split; [done|]. intros ->. by apply Hb.
  - intros c x n d [Hc Hu] He Hb. destruct (storeOwned_ok c x n d Hc He) as [H1 H2].
    { rewrite Hu. intros Hch. apply Hb. by destruct check. }
    split; [done|]. by rewrite <- Hu.
Qed.

Context (Hs : readable s) (Hg : forall old need, need <= growslice old need).

(** One expansion through the cache. *)
Lemma expand_runs rid check c : 0 < rid -> cache_ok c -> unchecked c = negb check ->
  runs (fun c => cache_ok c /\ unchecked c = negb check) (expand growslice s rid check) c
    (fun b _ => exists n, expands s rid n b /\ (check = true -> bound s rid b)).
Proof using Hs Hg.
  intros Hr Hc Hu. unfold runs, expand. destruct (find_entry rid (items c)) as [data|] eqn:Ef; cbn [fst snd].
  - pose proof (have_item_ok c rid Hc) as Hh. unfold have_item in Hh. rewrite Ef in Hh. cbn [fst snd] in Hh.
    destruct Hh as (H1 & H2 & H3). split; [split; [|by rewrite <- Hu]|].
    + destruct H1 as [[] ?]. by split; [split|].
    + destruct (H3 _ eq_refl) as (n & He & Hb). exists n. split; [done|]. intros ->. by apply Hb.
  - pose proof (expandChain_runs s Hs (fun c => cache_ok c /\ unchecked c = negb check) (Some cache_hooks) check
      (cache_hook_laws check) growslice Hg rid (count_miss c) Hr) as HR. unfold runs in HR.
    destruct HR as [HI HQ]; [split; [|done]; destruct Hc as [[] ?]; by split; [split|]|]. split; [done|].
    destruct (fst _); try done. destruct HQ as (n & ? & ? & _). by exists n.
Qed.

Lemma expand_oks rid n b check c : cache_ok c -> unchecked c = negb check ->
  (check = true -> forall x n b, expands s x n b -> bound s x b) ->
  expands s rid n b -> Z.of_nat n <= maxDeltaChainDepth -> oks (expand growslice s rid check) c.
Proof using Hs Hg.
  intros Hc Hu Hnames He Hn. unfold oks, expand. destruct (find_entry rid (items c)) as [data|]; [by eexists|].
  eapply (expandChain_oks s Hs (fun c => cache_ok c /\ unchecked c = negb check) (Some cache_hooks) check
      (cache_hook_laws check) growslice Hg); [|split; [|done]|done|done|].
  - intros _ Hch x m d Hx. by eapply Hnames.
  - destruct Hc as [[] ?]. by split; [split|].
  - intros Hch. by eapply Hnames.
Qed.

(** A plain expansion. *)
Lemma Expand_runs rid : 0 < rid -> returns (Expand growslice s rid) /\
  forall b, Expand growslice s rid = Ok b -> exists n, expands s rid n b /\ bound s rid b /\ Z.of_nat n <= maxDeltaChainDepth.
Proof using Hs Hg.
  intros Hr. unfold Expand, plain. rewrite (proj2 (Z.leb_gt _ _)) by lia.
  destruct (expandChain_runs s Hs (fun _ => True) None true I growslice Hg rid tt Hr I) as [_ H].
  destruct (fst _) as [b| | |]; try done. split; [done|]. intros ? [= <-]. destruct H as (n & He & Hb & Hn). exists n.
  split_and!; [done|by apply Hb|by apply Hn].
Qed.

(** Past the bound the walk refuses. *)
Lemma chain_loop_deep fuel rid : forall current seen chain n b, expands s current n b -> (fuel < n)%nat -> (0 < fuel)%nat ->
  (forall x, x ∈ seen -> exists m b', expands s x m b' /\ (n < m)%nat) -> Z.of_nat fuel + len chain = maxDeltaChainDepth ->
  fst (chain_loop (C:=unit) None fuel s rid current seen chain tt) = Err (ErrChainDepth rid).
Proof using.
  induction fuel as [|fuel IH]; intros current seen chain n b He Hn Hf Hseen Hl; [lia|].
  cbn [chain_loop]. rewrite bool_decide_eq_false_2.
  2:{ intros Hin. destruct (Hseen _ Hin) as (m & b' & He' & Hlt). destruct (expands_det _ _ _ _ _ _ He He') as [-> _]. lia. }
  unfold bind, ask. destruct He as [current b|current src n base d b Hd He Hload Hr]; [lia|]. rewrite Hd.
  rewrite Z.geb_leb, len_app, len_cons, len_nil. destruct (Z.leb_spec maxDeltaChainDepth (len chain + (1 + 0))); [done|].
  apply (IH src _ _ n base); [done|lia|lia| |rewrite len_app, len_cons, len_nil; lia].
  intros x [->%elem_of_singleton|Hx]%elem_of_union.
  - exists (S n), b. split; [by eapply expands_delta|lia].
  - destruct (Hseen x Hx) as (k & b' & Hk & Hlt). exists k, b'. split; [done|lia].
Qed.

Lemma Expand_deep rid n b : expands s rid n b -> maxDeltaChainDepth < Z.of_nat n ->
  Expand growslice s rid = Err (ErrChainDepth rid).
Proof using Hs Hg.
  intros He Hn. assert (0 <= maxDeltaChainDepth) by done. pose proof (expands_rid _ _ _ _ He). unfold Expand, plain, expandChain, walkDeltaChain.
  rewrite (proj2 (Z.leb_gt _ _)) by lia. unfold bind at 1 2.
  pose proof (chain_loop_deep (Z.to_nat maxDeltaChainDepth) rid rid ∅ [] n b He) as Hc.
  destruct (chain_loop (C:=unit) None (Z.to_nat maxDeltaChainDepth) s rid rid ∅ [] tt) as [r c]. cbn [fst] in Hc.
  rewrite Hc; [done|lia|by apply Nat.ltb_lt|set_solver|]. by rewrite Z2Nat.id, len_nil.
Qed.

Lemma Expand_ok rid n b : expands s rid n b -> Z.of_nat n <= maxDeltaChainDepth -> bound s rid b -> Expand growslice s rid = Ok b.
Proof using Hs Hg.
  intros He Hn Hb. pose proof (expands_rid _ _ _ _ He) as Hr.
  destruct (expandChain_oks s Hs (fun _ => True) None true I growslice Hg ltac:(done) rid n b tt I He Hn ltac:(done)) as [b' Hb'].
  assert (Expand growslice s rid = Ok b') as HE by (unfold Expand; by rewrite (proj2 (Z.leb_gt _ _)) by lia).
  destruct (Expand_runs rid Hr) as [_ H]. destruct (H _ HE) as (n' & He' & _). destruct (expands_det _ _ _ _ _ _ He He') as [_ ->]. done.
Qed.

(** What an artifact with its right name expands to: its content, unless its
    chain is too long. *)
Definition bounded_expansion (rid : Z) (n : nat) (b : bytes) : sresult bytes :=
  if Z.of_nat n <=? maxDeltaChainDepth then Ok b else Err (ErrChainDepth rid).

Lemma Expand_bounded rid n b : expands s rid n b -> bound s rid b -> Expand growslice s rid = bounded_expansion rid n b.
Proof using Hs Hg.
  intros He Hb. unfold bounded_expansion. destruct (Z.leb_spec (Z.of_nat n) maxDeltaChainDepth).
  - by eapply Expand_ok.
  - by eapply Expand_deep.
Qed.
End Correct.
