(* ===== verification/StoreCorrect.v ===== *)
(** * What the storing calls write

    [writes s rid uuid size c s']: the one row a storing call fills or adds, and
    that nothing readable before has changed. *)

From stdpp Require Import gmap.
From S2P Require Import Prelude GoMap GoStd GoText GoCrypto Hash Zlib XferCard Delta DeltaCorrect Store Content ContentSpec.

(** ** The invariant of the tables *)
Record wf_store (s : store) : Prop := {
  wf_uuid r1 r2 w1 w2 : blob s !! r1 = Some w1 -> blob s !! r2 = Some w2 -> br_uuid w1 = br_uuid w2 -> r1 = r2;
  wf_rid rid w : blob s !! rid = Some w -> 0 < rid /\ 40 <= len (br_uuid w);
  wf_delta rid src : delta s !! rid = Some src -> 0 < src /\ exists w, blob s !! rid = Some w /\ br_size w <> Some (-1);
  wf_phantom rid : rid ∈ phantom s <-> exists w, blob s !! rid = Some w /\ br_size w = Some (-1);
  wf_size rid w : blob s !! rid = Some w -> exists z, br_size w = Some z /\ -1 <= z;
}.

Lemma rid_of_some s uuid rid : rid_of s uuid = Some rid -> exists w, blob s !! rid = Some w /\ br_uuid w = uuid.
Proof.
  unfold rid_of. intros H. apply fmap_Some in H as ([r w] & Hh & ->). apply head_Some_elem_of in Hh.
  apply list_elem_of_In, filter_In in Hh as [Hin Hu]. apply list_elem_of_In, elem_of_map_to_list in Hin.
  apply bytes_eqb_eq in Hu. by exists w.
Qed.

Lemma rid_of_none s uuid rid w : rid_of s uuid = None -> blob s !! rid = Some w -> br_uuid w <> uuid.
Proof.
  unfold rid_of. intros H Hw Hu. apply fmap_None in H.
  assert ((rid, w) ∈ List.filter (fun kr : Z * blobrow => bytes_eqb (br_uuid (snd kr)) uuid) (map_to_list (blob s))) as Hin.
  { apply list_elem_of_In, filter_In. split; [by apply list_elem_of_In, elem_of_map_to_list|]. by apply bytes_eqb_eq. }
  destruct (List.filter _ _); [by apply elem_of_nil in Hin|done].
Qed.

Lemma rid_of_row s rid w : wf_store s -> blob s !! rid = Some w -> rid_of s (br_uuid w) = Some rid.
Proof.
  intros Hwf Hw. destruct (rid_of s (br_uuid w)) as [r|] eqn:E.
  - apply rid_of_some in E as (w' & Hw' & Hu). f_equal. by apply (wf_uuid s Hwf r rid w' w).
  - by apply (rid_of_none _ _ _ _ E) in Hw.
Qed.

Lemma next_rid_fresh s : blob s !! next_rid s = None.
Proof.
  destruct (blob s !! next_rid s) as [w|] eqn:E; [|done]. exfalso. assert (next_rid s < next_rid s); [|lia].
  unfold next_rid at 2. apply next_id_fresh. apply elem_of_map_to_list in E.
  apply list_elem_of_fmap. by exists (next_rid s, w).
Qed.

Lemma next_rid_pos s : 0 < next_rid s.
Proof. apply next_id_pos. Qed.

Section Stored.
Context `{ZL : !Zlib} `{S3 : !Sha3}.

(** ** The stored form *)
Lemma Compress_ok data : exists c, Compress data = Ok c /\ c <> [] /\ Decompress c = Ok data.
Proof using.
  exists (blob_format data). unfold Compress, Decompress, blob_format.
  pose proof (zlib_Write_read data) as Hz. assert (zlib_Write data <> []) as Hne by (intros E; by rewrite E in Hz).
  assert (len (be_bytes 4 (u32 (len data))) = 4) as H4 by apply len_be_bytes.
  assert (0 < len (zlib_Write data)) as Hl by (destruct (zlib_Write data); [done|]; rewrite len_cons; len_lia).
  rewrite len_app, H4. rewrite (proj2 (Z.eqb_neq _ _)), (proj2 (Z.ltb_ge _ _)) by lia. split; [done|]. split.
  - intros E. apply (f_equal len) in E. rewrite len_app, len_nil in E. lia.
  - replace 4%nat with (Z.to_nat (len (be_bytes 4 (u32 (len data))))) by by rewrite H4. by rewrite drop_len_app, Hz.
Qed.

Lemma Load_row s rid w c : blob s !! rid = Some w -> 0 < rid -> br_content w = Some c -> c <> [] ->
  Load s rid = match br_size w with None => Err (ErrNullSize rid)
               | Some size => if size =? -1 then Err (ErrIsPhantom rid) else Decompress c end.
Proof using.
  intros Hw Hr Hc Hne. unfold Load, loadWith. rewrite (proj2 (Z.leb_gt _ _)), Hw, Hc by lia. by destruct c.
Qed.

(** A row that loads is no phantom. *)
Lemma Load_not_phantom s rid b : Load s rid = Ok b ->
  exists w size, blob s !! rid = Some w /\ br_size w = Some size /\ size <> -1.
Proof using.
  unfold Load, loadWith. destruct (_ <=? _); [done|]. destruct (blob s !! rid) as [w|]; [|done].
  destruct (br_size w) as [size|] eqn:Es; [|done]. destruct (Z.eqb_spec size (-1)); [done|]. intros _. by exists w, size.
Qed.

Lemma Load_ext s s' rid : blob s' !! rid = blob s !! rid -> Load s' rid = Load s rid.
Proof using. intros H. unfold Load, loadWith. by rewrite H. Qed.

(** ** One row written *)
Record writes (s : store) (rid : Z) (w : blobrow) (s' : store) : Prop := {
  wrt_unread : forall b, Load s rid <> Ok b;
  wrt_row : blob s' !! rid = Some w;
  wrt_same x : x <> rid -> blob s' !! x = blob s !! x;
  wrt_rid : 0 < rid;
  wrt_fresh : delta s !! rid = None;
  wrt_delta x : x <> rid -> delta s' !! x = delta s !! x;
  wrt_uuid : forall w0, blob s !! rid = Some w0 -> br_uuid w0 = br_uuid w;
}.

(** What was readable still is, as it was. *)
Lemma writes_expands s rid w s' r n b : writes s rid w s' -> expands s r n b -> expands s' r n b.
Proof using.
  intros Hw. induction 1 as [r b Hd Hl|r src n base d b Hd He IH Hl Hr].
  - assert (r <> rid) as Hne by (intros ->; by apply (wrt_unread _ _ _ _ Hw) in Hl).
    apply expands_root; [by rewrite (wrt_delta _ _ _ _ Hw)|]. by rewrite (Load_ext s) by by apply Hw.
  - assert (r <> rid) as Hne by (intros ->; by apply (wrt_unread _ _ _ _ Hw) in Hl).
    eapply expands_delta; [by rewrite (wrt_delta _ _ _ _ Hw)|done| |done]. by rewrite (Load_ext s) by by apply Hw.
Qed.

Lemma held_none s rid b : wf_store s -> held s (Some rid) = None -> Load s rid <> Ok b.
Proof using.
  intros Hwf Hh Hl. apply Load_not_phantom in Hl as (w & size & Hw & Hs & Hne). unfold held, isPhantom in Hh.
  rewrite Hw, Hs, (proj2 (Z.eqb_neq _ _)) in Hh by done. done.
Qed.

Lemma writes_wf s rid w s' : wf_store s -> writes s rid w s' -> delta s' = delta s ->
  phantom s' = phantom s ∖ {[rid]} -> (exists z, br_size w = Some z /\ 0 <= z) -> 40 <= len (br_uuid w) ->
  (forall x v, blob s !! x = Some v -> br_uuid v = br_uuid w -> x = rid) -> wf_store s'.
Proof using.
  intros Hwf Hw Hd Hp (z & Hz & Hz0) Hu Huniq. assert (br_size w <> Some (-1)) as Hs' by (rewrite Hz; intros [=]; lia).
  assert (forall x v, blob s' !! x = Some v -> x = rid /\ v = w \/ x <> rid /\ blob s !! x = Some v) as Hrow.
  { intros x v Hv. destruct (decide (x = rid)) as [->|Hne].
    - left. split; [done|]. rewrite (wrt_row _ _ _ _ Hw) in Hv. congruence.
    - right. split; [done|]. by rewrite (wrt_same _ _ _ _ Hw) in Hv. }
  split.
  - intros r1 r2 w1 w2 [[-> ->]|[Hn1 H1]]%Hrow [[-> ->]|[Hn2 H2]]%Hrow He; [done| | |by eapply wf_uuid].
    + symmetry. by eapply Huniq.
    + by eapply Huniq.
  - intros x v [[-> ->]|[_ H]]%Hrow; [split; [by apply Hw|done]|by apply (wf_rid s Hwf) in H].
  - intros x src Hx. rewrite Hd in Hx. destruct (wf_delta s Hwf x src Hx) as (Hpos & v & Hv & Hsz). split; [done|].
    destruct (decide (x = rid)) as [->|Hne]; [exists w; split; [by apply Hw|done]|].
    exists v. split; [by rewrite (wrt_same _ _ _ _ Hw)|done].
  - intros x. rewrite Hp, elem_of_difference, elem_of_singleton, (wf_phantom s Hwf). destruct (decide (x = rid)) as [->|Hne].
    + split; [tauto|]. intros (v & Hv & Hsz). rewrite (wrt_row _ _ _ _ Hw) in Hv. congruence.
    + rewrite (wrt_same _ _ _ _ Hw) by done. tauto.
  - intros x v [[-> ->]|[_ H]]%Hrow; [exists z; split; [done|lia]|by eapply wf_size].
Qed.

Lemma writeRow_writes s uuid size c rid s' : wf_store s -> held s (rid_of s uuid) = None ->
  writeRow s uuid size c = Ok (rid, s') ->
  writes s rid (mk_blobrow uuid (Some size) (Some c)) s' /\ delta s' = delta s /\ unclustered s' = unclustered s
  /\ private s' = private s /\ wf_store s'
  /\ exists q, PromoteFor (hash_view s) uuid = Ok q /\ config_policy s' = policy_row q.
Proof using.
  intros Hwf Hheld H. unfold writeRow in H. destruct (size <? 0) eqn:Hsz; [done|]. zbool. case_hyp H; [done|].
  apply obind_ok in H as (q & Hq & H).
  assert (PromoteFor (hash_view s) uuid = Ok q) as Hq' by (by destruct (PromoteFor _ _); [injection Hq as ->|..]). unfold Exists in H. destruct (bytes_eqb uuid []) eqn:Eu; [done|]. cbn [obind] in H.
  change (rid_of (set_policy s (policy_row q)) uuid) with (rid_of s uuid) in H.
  destruct (rid_of s uuid) as [r|] eqn:Er.
  - injection H as <- <-. cbn [blob set_policy set_phantom set_blob delta phantom unclustered private].
    pose proof (rid_of_some _ _ _ Er) as (w & Hw & Hu).
    assert (delta s !! r = None) as Hd.
    { destruct (delta s !! r) as [src|] eqn:Ed; [|done]. apply (wf_delta s Hwf) in Ed as (_ & w' & Hw' & Hs').
      assert (w' = w) as -> by congruence. unfold held, isPhantom in Hheld. rewrite Hw in Hheld.
      destruct (br_size w) as [sz|] eqn:Es; [|by apply (wf_size s Hwf) in Hw as (? & ? & _); congruence]. destruct (Z.eqb_spec sz (-1)) as [->|]; done. }
    match goal with |- writes s r ?w1 ?s1 /\ _ => assert (writes s r w1 s1) as HW end.
    { split; try done; cbn [blob delta set_phantom set_blob set_policy].
      - intros b. by apply held_none.
      - by rewrite lookup_alter_eq, Hw, <- Hu.
      - intros x Hx. by apply lookup_alter_ne.
      - by apply (wf_rid s Hwf) in Hw as [? _].
      - intros w0 Hw0. cbn. congruence. }
    split_and!; try done; [|by exists q]. eapply writes_wf; [done|exact HW|done|done|by exists size| |].
    + cbn. rewrite <- Hu. by apply (wf_rid s Hwf) in Hw as [_ ?].
    + cbn. intros x v Hv Hvu. by apply (wf_uuid s Hwf x r v w); [..|congruence].
  - unfold insert_blob in H. cbn [br_uuid] in H. destruct (len uuid <? 40) eqn:El; [done|]. zbool. injection H as <- <-.
    change (next_rid (set_policy s (policy_row q))) with (next_rid s).
    cbn [blob set_policy set_blob delta phantom unclustered private]. pose proof (next_rid_fresh s) as Hf.
    match goal with |- writes s ?r ?w1 ?s1 /\ _ => assert (writes s r w1 s1) as HW end.
    { split; try done; cbn [blob delta set_phantom set_blob set_policy].
      - intros b Hb. apply Load_not_phantom in Hb as (w & sz & Hw & _). congruence.
      - by rewrite lookup_insert_eq.
      - intros x Hx. by apply lookup_insert_ne.
      - apply next_rid_pos.
      - destruct (delta s !! next_rid s) as [src|] eqn:Ed; [|done]. apply (wf_delta s Hwf) in Ed as (_ & w & Hw & _). congruence.
      - intros w0 Hw0. congruence. }
    split_and!; try done; [|by exists q]. eapply writes_wf; [done|exact HW|done| |by exists size|done|].
    + cbn. apply leibniz_equiv. intros x. rewrite elem_of_difference, elem_of_singleton. split; [|tauto].
      intros Hx. split; [done|]. intros ->. apply (wf_phantom s Hwf) in Hx as (w & Hw & _). congruence.
    + cbn. intros x v Hv Hvu. by apply (rid_of_none _ _ _ _ Er) in Hv.
Qed.

(** ** The naming of new artifacts does not change by naming one *)
Lemma Alg_Hash_ok {E} a content : exists h, @Alg_Hash S3 E a (Some content) = Ok h
  /\ len h = match a with AlgSHA3 => 64 | AlgSHA1 => 40 end.
Proof using.
  destruct a; unfold Alg_Hash, SHA1, SHA3; eexists; (split; [done|]).
  - by rewrite hex_encode_len, sha1_Sum_len.
  - by rewrite hex_encode_len, sha3_Sum256_len.
Qed.

Lemma Alg_Hash_err {E E'} a content h : @Alg_Hash S3 E a (Some content) = Ok h -> @Alg_Hash S3 E' a (Some content) = Ok h.
Proof using. destruct a; unfold Alg_Hash, SHA1, SHA3; by intros [= <-]. Qed.

Lemma view_uuids s p : existsb p (Hash.blob_uuids (hash_view s)) = true <-> exists r w, blob s !! r = Some w /\ p (br_uuid w) = true.
Proof using.
  unfold hash_view. cbn. rewrite existsb_exists. setoid_rewrite in_map_iff. setoid_rewrite <- list_elem_of_In. split.
  - intros (u & ([r w] & <- & Hin) & Hp). apply elem_of_map_to_list in Hin. by exists r, w.
  - intros (r & w & Hw & Hp). exists (br_uuid w). split; [|done]. exists (r, w). split; [done|]. by apply elem_of_map_to_list.
Qed.

(** The names after a write are those before and the written one. *)
Lemma writes_uuids s rid w s' p : writes s rid w s' ->
  existsb p (Hash.blob_uuids (hash_view s')) = existsb p (Hash.blob_uuids (hash_view s)) || p (br_uuid w).
Proof using.
  intros Hw. apply eq_true_iff_eq. rewrite orb_true_iff, !view_uuids. split.
  - intros (r & v & Hv & Hp). destruct (decide (r = rid)) as [->|Hne].
    + right. rewrite (wrt_row _ _ _ _ Hw) in Hv. congruence.
    + left. exists r, v. by rewrite (wrt_same _ _ _ _ Hw) in Hv.
  - intros [(r & v & Hv & Hp)|Hp]; [|exists rid, w; split; [by apply Hw|done]].
    destruct (decide (r = rid)) as [->|Hne].
    + exists rid, w. split; [by apply Hw|]. by rewrite <- (wrt_uuid _ _ _ _ Hw v Hv).
    + exists r, v. split; [by rewrite (wrt_same _ _ _ _ Hw)|done].
Qed.

(** [hash_view] once an artifact named under the policy has been stored. *)
Lemma naming_stable (q q' : Hash.repo) uuid naming : NamingFor q = Ok naming ->
  len uuid = match New naming with AlgSHA3 => 64 | AlgSHA1 => 40 end ->
  PromoteFor q uuid = Ok (Hash.mk_repo (Hash.policy_row q') (Hash.blob_uuids q)) ->
  hasSHA3Artifact q' = hasSHA3Artifact q || (len uuid >? sha1Len) ->
  hasSHA1Artifact q' = hasSHA1Artifact q || (len uuid =? sha1Len) ->
  NamingFor q' = Ok naming.
Proof using.
  intros HN Hlen HP H3 H1. unfold NamingFor in HN. destruct (policyFor q) as [[p f]|e| |] eqn:Ep; [|done..]. cbn [obind] in HN.
  injection HN as HN. pose proof (policyFor_range q p f Ep) as [Hrange Hf].
  assert (forall row, policy_row q = Some row -> policy_row q' = Some row -> policyFor q' = Ok (p, f)) as Hsame
    by (intros row Hrow Hrow'; unfold policyFor in *; by rewrite Hrow in Ep; rewrite Hrow').
  unfold NamingFor. unfold PromoteFor, effectivePolicy in HP. rewrite Ep in HP. cbn [obind] in HP.
  unfold HashPolicySHA3, HashPolicyAuto, HashPolicySHA3Only in *.
  destruct (New naming) eqn:En; rewrite Hlen in HP, H3, H1.
  - change (40 <=? sha1Len) with true in HP. cbn in HP, H3, H1. injection HP as HP. apply (f_equal policy_row) in HP; cbn [policy_row] in HP. rewrite orb_false_r in H3. rewrite orb_true_r in H1.
    assert (policyFor q' = Ok (p, f)) as ->.
    { destruct (policy_row q) as [row|] eqn:Erow; [apply (Hsame row); [done|by rewrite <- HP]|].
      unfold policyFor in *. rewrite <- HP, H3, H1. rewrite Erow in Ep. rewrite orb_false_r.
      destruct (hasSHA3Artifact q) eqn:E3; [by injection Ep as <- <-|].
      destruct (hasSHA1Artifact q); [done|]. cbn in Ep. injection Ep as <- <-. rewrite <- HN in En. done. }
    cbn [obind]. by rewrite H3, <- HN.
  - change (64 <=? sha1Len) with false in HP. change (64 >? sha1Len) with true in H3. rewrite orb_true_r in H3.
    change (64 =? sha1Len) with false in H1. rewrite orb_false_r in H1.
    destruct (Z.eqb_spec p 1) as [->|Hp1]; cbn [negb] in HP.
    + injection HP as HP. assert (policyFor q' = Ok (2, true)) as -> by (unfold policyFor; by rewrite <- HP).
      cbn [obind]. rewrite <- HN in En |- *. cbn [New] in En. by rewrite En.
    + injection HP as HP. apply (f_equal policy_row) in HP; cbn [policy_row] in HP. assert (policyFor q' = Ok (p, f)) as ->.
      { destruct (policy_row q) as [row|] eqn:Erow; [apply (Hsame row); [done|by rewrite <- HP]|].
        unfold policyFor in *. rewrite <- HP, H3. rewrite Erow in Ep. destruct (_ || _) in Ep; injection Ep as <- <-; done. }
      cbn [obind]. rewrite H3, <- HN. rewrite <- HN in En. cbn [New] in En.
      destruct (p >=? 2) eqn:E2; [done|]. cbn in En. by rewrite (proj2 (Z.eqb_neq _ _) Hp1).
Qed.

Lemma PromoteFor_ok q uuid p : policyFor q = Ok p -> exists row, PromoteFor q uuid = Ok (Hash.mk_repo row (Hash.blob_uuids q)).
Proof using.
  intros Hp. unfold PromoteFor, effectivePolicy. rewrite Hp. destruct p as [p f]. cbn [obind].
  destruct (_ <=? _); [exists (policy_row q); by destruct q|]. destruct (negb _); [exists (policy_row q); by destruct q|by eexists].
Qed.

Lemma writeRow_ok s uuid size c naming : NamingFor (hash_view s) = Ok naming -> 40 <= len uuid -> 0 <= size -> c <> [] ->
  exists rid s', writeRow s uuid size c = Ok (rid, s').
Proof using.
  intros HN Hu Hsz Hc. unfold NamingFor in HN. apply obind_ok in HN as (p & Hp & _).
  destruct (PromoteFor_ok (hash_view s) uuid p Hp) as [row Hrow]. unfold writeRow, Exists.
  rewrite (proj2 (Z.ltb_ge _ _)), Hrow by done.
  assert (bytes_eqb uuid [] = false) as -> by (apply bytes_eqb_neq; intros ->; by rewrite len_nil in Hu).
  rewrite (proj2 (Z.eqb_neq _ _)) by (destruct c; [done|rewrite len_cons; len_lia]). cbn [wrap_err obind].
  destruct (rid_of _ _); [by eexists _, _|]. unfold insert_blob. cbn [br_uuid].
  rewrite (proj2 (Z.ltb_ge _ _)) by done. by eexists _, _.
Qed.

(** A fresh artifact is written, reads back, and is named as it would be again. *)
Lemma writeVerified_ok s naming uuid content : wf_store s -> NamingFor (hash_view s) = Ok naming ->
  Alg_Hash (E:=store_error) (New naming) (Some content) = Ok uuid -> held s (rid_of s uuid) = None ->
  exists rid s' w, writeVerified s (New naming) uuid content = Ok (rid, s') /\ writes s rid w s' /\ br_uuid w = uuid
    /\ br_size w = Some (len content) /\ delta s' = delta s /\ wf_store s' /\ Load s' rid = Ok content
    /\ NamingFor (hash_view s') = Ok naming.
Proof using.
  intros Hwf HN Hh Hheld. destruct (Alg_Hash_ok (E:=store_error) (New naming) content) as (u & Hu & Hlen).
  assert (u = uuid) as -> by congruence. destruct (Compress_ok content) as (c & HC & Hcne & HD).
  pose proof (len_nonneg content) as Hl0. unfold writeVerified. rewrite HC. cbn [obind].
  destruct (writeRow_ok s uuid (len content) c naming) as (rid & s1 & HR); [done|destruct (New naming); lia|done|done|].
  rewrite HR. cbn [obind].
  destruct (writeRow_writes s uuid (len content) c rid s1) as (HW & Hd & _ & _ & Hwf1 & q & Hq & Hrow); [done|done|done|].
  assert (Load s1 rid = Ok content) as HL.
  { rewrite (Load_row s1 rid _ c (wrt_row _ _ _ _ HW) (wrt_rid _ _ _ _ HW) eq_refl Hcne). cbn [br_size].
    by rewrite (proj2 (Z.eqb_neq _ _)) by lia. }
  rewrite HL. cbn [obind]. rewrite Hh. cbn [obind]. rewrite bytes_eqb_refl. cbn [negb].
  exists rid, (mark_unclustered s1 rid), (mk_blobrow uuid (Some (len content)) (Some c)).
  assert (writes s rid (mk_blobrow uuid (Some (len content)) (Some c)) (mark_unclustered s1 rid)) as HW' by (by destruct HW).
  split_and!; try done; [by destruct Hwf1|].
  apply (naming_stable (hash_view s) _ uuid naming HN Hlen).
  - destruct (PromoteFor_ok (hash_view s) uuid) with (p := default (0, false) (match policyFor (hash_view s) with Ok p => Some p | _ => None end)) as [row Hr].
    { unfold NamingFor in HN. apply obind_ok in HN as (p & Hp & _). by rewrite Hp. }
    rewrite Hr in Hq. injection Hq as <-. rewrite Hr. cbn [policy_row] in Hrow. cbn [hash_view policy_row mark_unclustered set_unclustered config_policy]. by rewrite Hrow.
  - apply (writes_uuids _ _ _ _ (fun u => len u >? sha1Len) HW').
  - apply (writes_uuids _ _ _ _ (fun u => len u =? sha1Len) HW').
Qed.
End Stored.
