(* ===== verification/ContentCorrect.v ===== *)
(** * Rewriting a row changes how it is stored, not what it expands to *)

From stdpp Require Import gmap.
From S2P Require Import Prelude GoStd Delta DeltaCorrect GoText GoCrypto Zlib Hash XferCard GoMap Store Content ContentSpec Cache StoreCorrect.

Section Rewrite.
Context `{ZL : !Zlib} `{S3 : !Sha3}.

(** Only [rid]'s row and delta link differ, and its row keeps its name. *)
Record rewrites (s : store) (rid : Z) (s' : store) : Prop := {
  rw_blob x : x <> rid -> blob s' !! x = blob s !! x;
  rw_delta x : x <> rid -> delta s' !! x = delta s !! x;
  rw_uuid : br_uuid <$> blob s' !! rid = br_uuid <$> blob s !! rid;
}.

(** What the rows of an artifact's chain replay to, whatever their number:
    what [Expand] answers when the name is right and the chain within its bound
    ([Expand_bounded]). *)
Definition content_of (s : store) (rid : Z) (b : bytes) : Prop := exists n, expands s rid n b.

Definition same_contents (s s' : store) : Prop :=
  (forall r b, content_of s r b <-> content_of s' r b) /\ forall r, br_uuid <$> blob s' !! r = br_uuid <$> blob s !! r.

Lemma same_contents_refl s : same_contents s s.
Proof using. done. Qed.

Lemma same_contents_trans s1 s2 s3 : same_contents s1 s2 -> same_contents s2 s3 -> same_contents s1 s3.
Proof using.
  intros [H1 U1] [H2 U2]. split; [intros r b; by rewrite H1|intros r; by rewrite U2].
Qed.

Lemma rewrites_contents s rid s' b0 r b : (forall x, x <> rid -> blob s' !! x = blob s !! x) ->
  (forall x, x <> rid -> delta s' !! x = delta s !! x) -> content_of s rid b0 -> content_of s' rid b0 ->
  content_of s r b -> content_of s' r b.
Proof using.
  intros Hb Hd [n0 H0] H0' [n H]. induction H as [r b Hr Hl|r src n base d b Hr He IH Hl Ha].
  - destruct (decide (r = rid)) as [->|Hne].
    + destruct (expands_det _ _ _ _ _ _ H0 (expands_root s _ _ Hr Hl)) as [_ <-]. done.
    + exists 1%nat. apply expands_root; [by rewrite Hd|]. by rewrite (Load_ext s) by by apply Hb.
  - destruct (decide (r = rid)) as [->|Hne].
    + destruct (expands_det _ _ _ _ _ _ H0 (expands_delta s _ _ _ _ _ _ Hr He Hl Ha)) as [_ <-]. done.
    + destruct IH as [m Hm]. exists (S m). eapply expands_delta; [by rewrite Hd|done| |done].
      by rewrite (Load_ext s) by by apply Hb.
Qed.

(** A row rewritten with no longer a chain makes no chain longer. *)
Lemma rewrites_length s rid s' b0 n0 n1 r n b : rewrites s rid s' -> expands s rid n0 b0 -> expands s' rid n1 b0 ->
  (n1 <= n0)%nat -> expands s r n b -> exists m, expands s' r m b /\ (m <= n)%nat.
Proof using.
  intros [Hb Hd _] H0 H1 Hn H. induction H as [r b Hr Hl|r src n base d b Hr He IH Hl Ha].
  - destruct (decide (r = rid)) as [->|Hne].
    + destruct (expands_det _ _ _ _ _ _ H0 (expands_root s _ _ Hr Hl)) as [-> <-]. by exists n1.
    + exists 1%nat. split; [|done]. apply expands_root; [by rewrite Hd|]. by rewrite (Load_ext s) by by apply Hb.
  - destruct (decide (r = rid)) as [->|Hne].
    + destruct (expands_det _ _ _ _ _ _ H0 (expands_delta s _ _ _ _ _ _ Hr He Hl Ha)) as [-> <-]. by exists n1.
    + destruct IH as (m & Hm & Hle). exists (S m). split; [|lia].
      eapply expands_delta; [by rewrite Hd|done| |done]. by rewrite (Load_ext s) by by apply Hb.
Qed.

Lemma rewrites_readable s rid s' : readable s -> rewrites s rid s' -> (forall src, delta s' !! rid = Some src -> 0 < src) ->
  (forall b, Load s' rid = Ok b -> alloc_ok b) -> readable s'.
Proof using.
  intros Hs [Hb Hd _] Hsrc Hl. split.
  - intros x src Hx. destruct (decide (x = rid)) as [->|Hne]; [by apply Hsrc|]. rewrite Hd in Hx by done. by eapply delta_pos.
  - intros x b Hx. destruct (decide (x = rid)) as [->|Hne]; [by apply Hl|]. eapply (load_alloc s Hs x). rewrite <- Hx.
    symmetry. apply Load_ext. by apply Hb.
Qed.

(** A name binds the same content in rows of the same name. *)
Lemma same_bound s s' r b : br_uuid <$> blob s' !! r = br_uuid <$> blob s !! r -> bound s r b -> bound s' r b.
Proof using.
  intros H Hb. unfold bound, bindToName in *. destruct (blob s !! r) as [w|]; [|done].
  apply fmap_Some in H as (w' & -> & Hu). by rewrite <- Hu.
Qed.

(** The links above a row relinked to a chain of [k] rows. *)
Lemma relinked_length s s' rid k r n m b b' c : (forall x, x <> rid -> delta s' !! x = delta s !! x) ->
  delta s !! rid = None -> rtc (fun x y => delta s !! x = Some y) r rid ->
  expands s r n b -> expands s' rid (S k) c -> expands s' r m b' -> m = (n + k)%nat.
Proof using.
  intros Hd Hroot Hlink. revert n m b b'. induction Hlink as [rid|r x rid Hx _ IH]; intros n m b b' Hn Hk Hm.
  - destruct (expands_det _ _ _ _ _ _ Hk Hm) as [<- _]. destruct Hn; [lia|congruence].
  - assert (r <> rid) as Hne by congruence. assert (delta s' !! r = Some x) as Hx' by by rewrite Hd.
    destruct Hn as [|r src n base d b H1 H2]; [congruence|]. destruct Hm as [|r src' m base' d' b' H1' H2']; [congruence|].
    assert (src = x) as -> by congruence. assert (src' = x) as -> by congruence.
    rewrite (IH Hd Hroot n m base base' H2 Hk H2'). lia.
Qed.

Lemma rewrites_same s rid s' b0 : rewrites s rid s' -> content_of s rid b0 -> content_of s' rid b0 -> same_contents s s'.
Proof using.
  intros [Hb Hd Hu] H0 H0'. split.
  - intros r b. split; [by eapply rewrites_contents|]. eapply rewrites_contents; [| |done|done]; intros x Hx; symmetry; auto.
  - intros r. destruct (decide (r = rid)) as [->|Hne]; [done|]. by rewrite Hb.
Qed.

Lemma rewrites_wf s rid s' w w' : wf_store s -> rewrites s rid s' -> blob s !! rid = Some w -> blob s' !! rid = Some w' ->
  br_size w <> Some (-1) -> (exists z, br_size w' = Some z /\ 0 <= z) -> phantom s' = phantom s ->
  (forall src, delta s' !! rid = Some src -> 0 < src) -> wf_store s'.
Proof using.
  intros Hwf HR Hw Hw' Hs (z & Hz & Hz0) Hp Hd. assert (br_size w' <> Some (-1)) as Hs' by (rewrite Hz; intros [=]; lia).
  assert (br_uuid w' = br_uuid w) as Hu by (pose proof (rw_uuid _ _ _ HR) as H; rewrite Hw, Hw' in H; by injection H).
  assert (forall x v, blob s' !! x = Some v -> exists v0, blob s !! x = Some v0 /\ br_uuid v0 = br_uuid v
    /\ (br_size v = Some (-1) <-> br_size v0 = Some (-1)) /\ exists z, br_size v = Some z /\ -1 <= z) as Hback.
  { intros x v Hv. destruct (decide (x = rid)) as [->|Hne].
    - exists w. assert (v = w') as -> by congruence. split_and!; [done..|exists z; split; [done|lia]].
    - rewrite (rw_blob _ _ _ HR) in Hv by done. exists v. split_and!; try done. by eapply wf_size. }
  split.
  - intros r1 r2 w1 w2 (v1 & H1 & U1 & _)%Hback (v2 & H2 & U2 & _)%Hback He. apply (wf_uuid s Hwf r1 r2 v1 v2); congruence.
  - intros x v (v0 & Hv0 & <- & _)%Hback. by eapply wf_rid.
  - intros x src Hx. destruct (decide (x = rid)) as [->|Hne]; [split; [by apply Hd|by exists w']|].
    rewrite (rw_delta _ _ _ HR) in Hx by done. rewrite (rw_blob _ _ _ HR) by done. by apply wf_delta.
  - intros x. rewrite Hp, (wf_phantom s Hwf). destruct (decide (x = rid)) as [->|Hne].
    + split; intros (v & Hv & Hvs); exfalso; congruence.
    + by rewrite (rw_blob _ _ _ HR).
  - intros x v (v0 & _ & _ & _ & Hn)%Hback. done.
Qed.

(** Content compressed into a row loads. *)
Lemma rewritten_row (s' : store) rid w size c data : blob s' !! rid = Some (mk_blobrow (br_uuid w) (Some size) (Some c)) ->
  0 < rid -> c <> [] -> Decompress c = Ok data -> size <> -1 -> Load s' rid = Ok data.
Proof using.
  intros Hw Hr Hc HD Hs. rewrite (Load_row s' rid _ c Hw Hr eq_refl Hc). cbn [br_size].
  by rewrite (proj2 (Z.eqb_neq _ _)).
Qed.

Context (growslice : Z -> Z -> Z) (Hg : forall old need, need <= growslice old need).

Lemma Expand_content s rid b : readable s -> 0 < rid -> Expand growslice s rid = Ok b -> content_of s rid b.
Proof using Hg.
  intros Hs Hr HE. destruct (Expand_runs growslice s Hs Hg rid Hr) as [_ H]. destruct (H b HE) as (n & He & _). by exists n.
Qed.

Lemma DeltaSource_some s rid : readable s -> (DeltaSource s rid <=? 0) = false -> delta s !! rid = Some (DeltaSource s rid).
Proof using.
  intros Hs H. unfold DeltaSource in *. destruct (delta s !! rid) as [src|]; [done|]. done.
Qed.

(** Where no chain has grown, what expanded still does. *)
Lemma shorter_expands s s' : readable s -> readable s' ->
  (forall r, br_uuid <$> blob s' !! r = br_uuid <$> blob s !! r) ->
  (forall r n b, expands s r n b -> exists m, expands s' r m b /\ (m <= n)%nat) ->
  forall r b, Expand growslice s r = Ok b -> Expand growslice s' r = Ok b.
Proof using Hg.
  intros Hs Hs' Hu Hle r b HE. assert (0 < r) as Hr by (unfold Expand in HE; destruct (r <=? 0) eqn:E; [done|zbool; lia]).
  destruct (Expand_runs growslice s Hs Hg r Hr) as [_ H]. destruct (H b HE) as (n & He & Hb & Hn).
  destruct (Hle r n b He) as (m & Hm & Hmn). eapply Expand_ok; [done|done|exact Hm|lia|by apply (same_bound s)].
Qed.

(** ** Undelta *)
Lemma Undelta_ok s rid s' : readable s -> 0 < rid -> Undelta growslice s rid = Ok s' -> same_contents s s'
  /\ (wf_store s -> wf_store s') /\ readable s'
  /\ (forall r n b, expands s r n b -> exists m, expands s' r m b /\ (m <= n)%nat)
  /\ (forall x, x <> rid -> delta s' !! x = delta s !! x).
Proof using Hg.
  intros Hs Hr H. unfold Undelta in H. rewrite (proj2 (Z.leb_gt _ _)) in H by lia.
  destruct (DeltaSource s rid <=? 0) eqn:Ed.
  { injection H as <-. split; [apply same_contents_refl|]. split; [done|]. split; [done|]. split; [|done].
    intros r n b He. by exists n. }
  apply DeltaSource_some in Ed; [|done]. apply obind_ok in H as (full & HE & H). apply obind_ok in H as (c & HC & [= <-]).
  destruct (Compress_ok full) as (c' & HC' & Hc & HD). assert (c' = c) as -> by congruence.
  pose proof (Expand_content _ _ _ Hs Hr HE) as H0. pose proof (len_nonneg full).
  assert (exists w, blob s !! rid = Some w /\ br_size w <> Some (-1)) as (w & Hw & Hsz).
  { destruct H0 as [n He]. assert (exists d, Load s rid = Ok d) as [d Hd] by (destruct He; by eexists).
    apply Load_not_phantom in Hd as (w & sz & Hw & Hs' & Hne). exists w. split; [done|congruence]. }
  match goal with |- same_contents s ?x /\ _ => set (s' := x) end.
  assert (blob s' !! rid = Some (mk_blobrow (br_uuid w) (Some (len full)) (Some c))) as Hrow
    by (subst s'; cbn [blob set_delta set_blob]; by rewrite lookup_alter_eq, Hw).
  assert (rewrites s rid s') as HR.
  { subst s'. split; cbn [blob delta set_delta set_blob].
    - intros x Hx. by apply lookup_alter_ne.
    - intros x Hx. by apply lookup_delete_ne.
    - by rewrite lookup_alter_eq, Hw. }
  assert (Load s' rid = Ok full) as HLoad by (apply (rewritten_row s' rid w (len full) c full Hrow Hr Hc HD); lia).
  assert (delta s' !! rid = None) as Hnone by (subst s'; cbn [delta set_delta]; apply lookup_delete_eq).
  assert (expands s' rid 1 full) as H1 by by apply expands_root.
  split; [|split; [|split; [|split]]].
  - eapply rewrites_same; [done|done|]. by exists 1%nat.
  - intros Hwf. eapply (rewrites_wf s rid s' w); [done|done|done|exact Hrow|done| |done|].
    { exists (len full). split; [done|lia]. }
    intros src Hsrc. congruence.
  - apply (rewrites_readable s rid); [done|done|congruence|]. intros b Hb. assert (b = full) as -> by congruence.
    destruct H0 as [n He]. by eapply expands_alloc.
  - destruct H0 as [n0 H0]. intros r n b He. pose proof (expands_pos _ _ _ _ H0).
    eapply (rewrites_length s rid s' full n0 1); [done|done|done|lia|done].
  - apply HR.
Qed.

(** ** Deltify *)

(** A source above which [rid] was not met: its chain does not pass by [rid]. *)
Lemma loop_walk_chain fuel s s' rid srcRid : readable s -> (forall x, x <> rid -> blob s' !! x = blob s !! x) ->
  (forall x, x <> rid -> delta s' !! x = delta s !! x) ->
  forall cur steps seen n b, loop_walk fuel s rid srcRid cur steps seen = Ok false -> cur <> rid ->
  expands s cur n b -> expands s' cur n b.
Proof using.
  intros Hs Hb Hd. induction fuel as [|fuel IH]; intros cur steps seen n b H Hne He; [done|].
  cbn [loop_walk] in H. case_bool_decide; [done|]. destruct (steps >? maxDeltaChainDepth); [done|].
  destruct He as [cur b Hc Hl|cur src n base d b Hc He Hl Hr].
  - apply expands_root; [by rewrite Hd|]. by rewrite (Load_ext s) by by apply Hb.
  - pose proof (delta_pos s Hs _ _ Hc). assert (DeltaSource s cur = src) as Hds by (unfold DeltaSource; by rewrite Hc).
    rewrite Hds, (proj2 (Z.leb_gt src 0)) in H by lia.
    destruct (src =? rid) eqn:Hne'; [done|]. zbool.
    eapply expands_delta; [by rewrite Hd|by eapply IH| |done]. by rewrite (Load_ext s) by by apply Hb.
Qed.

Lemma loop_walk_returns fuel s rid srcRid : forall cur steps seen, Z.of_nat fuel + steps = maxDeltaChainDepth + 2 ->
  steps <= maxDeltaChainDepth + 1 -> returns (loop_walk fuel s rid srcRid cur steps seen).
Proof using.
  induction fuel as [|fuel IH]; intros cur steps seen Hf Hst; [lia|]. cbn [loop_walk]. case_bool_decide; [done|].
  destruct (steps >? maxDeltaChainDepth) eqn:E; [done|]. rewrite Z.gtb_ltb in E. zbool.
  destruct (_ <=? 0); [done|]. destruct (_ =? rid); [done|]. apply IH; lia.
Qed.

Lemma deltifyWrite_ok s rid srcRid deltaBytes data src n saved s' : readable s -> wf_store s -> 0 < rid -> 0 < srcRid ->
  content_of s rid data -> expands s srcRid n src ->
  (forall s', (forall x, x <> rid -> blob s' !! x = blob s !! x) -> (forall x, x <> rid -> delta s' !! x = delta s !! x) ->
     expands s' srcRid n src) ->
  replay_delta src deltaBytes = Ok data -> alloc_ok deltaBytes ->
  deltifyWrite growslice s rid srcRid deltaBytes = Ok (saved, s') -> same_contents s s' /\ wf_store s' /\ 0 <= saved
    /\ readable s' /\ (exists back, Expand growslice s' rid = Ok back)
    /\ (forall x, x <> rid -> delta s' !! x = delta s !! x).
Proof using.
  intros Hs Hwf Hr Hsr H0 Hsrc Hstay Hrep Hal H. unfold deltifyWrite in H. destruct (blob s !! rid) as [w|] eqn:Hw; [|done].
  apply obind_ok in H as (c & HC & H). destruct (Compress_ok deltaBytes) as (c' & HC' & Hc & HD). assert (c' = c) as -> by congruence.
  apply obind_ok in H as (back & Hback & [= <- <-]).
  assert (exists sz, br_size w = Some sz /\ sz <> -1) as (sz & Hsz & Hne).
  { destruct H0 as [m He]. assert (exists d, Load s rid = Ok d) as [d Hd] by (destruct He; by eexists).
    apply Load_not_phantom in Hd as (w' & sz & Hw' & Hs' & Hne). exists sz. split; [congruence|done]. }
  match goal with |- same_contents s ?x /\ _ => set (s' := x) end.
  assert (blob s' !! rid = Some (mk_blobrow (br_uuid w) (Some sz) (Some c))) as Hrow
    by (subst s'; cbn [blob set_delta set_blob]; by rewrite lookup_alter_eq, Hw, <- Hsz).
  assert (delta s' !! rid = Some srcRid) as Hlink by apply lookup_insert_eq.
  assert (rewrites s rid s') as HR.
  { subst s'. split; cbn [blob delta set_delta set_blob].
    - intros x Hx. by apply lookup_alter_ne.
    - intros x Hx. by apply lookup_insert_ne.
    - by rewrite lookup_alter_eq, Hw. }
  assert (Load s' rid = Ok deltaBytes) as HLoad by by apply (rewritten_row s' rid w sz c deltaBytes).
  split_and!; [| |destruct (_ <? 0) eqn:E; zbool; lia| |by exists back|apply HR].
  - eapply rewrites_same; [done|done|]. exists (S n). eapply expands_delta; [exact Hlink| | |exact Hrep].
    + apply Hstay; apply HR.
    + done.
  - eapply (rewrites_wf s rid s' w); [done|done|done|exact Hrow|congruence| |done|].
    { destruct (wf_size s Hwf rid w Hw) as (z & Hz & Hz0). assert (z = sz) as -> by congruence. exists sz. split; [done|lia]. }
     intros ? [= <-]%(eq_trans (eq_sym Hlink)). done.
  - apply (rewrites_readable s rid); [done|done|congruence|]. intros b Hb. by assert (b = deltaBytes) as -> by congruence.
Qed.

(** A row relinked to a source stays readable. *)
Lemma relinked_readable s rid srcRid c data w : readable s -> 0 < rid -> 0 < srcRid -> blob s !! rid = Some w ->
  c <> [] -> Decompress c = Ok data -> alloc_ok data ->
  readable (set_delta (set_blob s (alter (fun r => mk_blobrow (br_uuid r) (br_size r) (Some c)) rid (blob s))) (<[rid := srcRid]> (delta s))).
Proof using.
  intros Hs Hr Hsr Hw Hc HD Hal. split; cbn [delta set_delta].
  - intros x y Hxy. destruct (decide (x = rid)) as [->|Hne]; [rewrite lookup_insert_eq in Hxy; congruence|].
    rewrite lookup_insert_ne in Hxy by done. by eapply delta_pos.
  - intros x b Hx. destruct (decide (x = rid)) as [->|Hne].
    + pose proof Hx as (w' & sz & Hw' & Hsz & Hne')%Load_not_phantom. cbn [blob set_delta set_blob] in Hw'.
      rewrite lookup_alter_eq, Hw in Hw'. injection Hw' as <-. cbn [br_size] in Hsz.
      rewrite (rewritten_row _ rid w sz c data) in Hx; [congruence| |done..].
      cbn [blob set_delta set_blob]. by rewrite lookup_alter_eq, Hw, <- Hsz.
    + eapply (load_alloc s Hs x). rewrite <- Hx. symmetry. apply Load_ext. cbn [blob set_delta set_blob]. by apply lookup_alter_ne.
Qed.

(** What Deltify leaves. *)
Record deltified (s : store) (rid srcRid saved : Z) (s' : store) : Prop := {
  df_same : same_contents s s';
  df_wf : wf_store s';
  df_saved : 0 <= saved;
  df_readable : readable s';
  df_target b : Expand growslice s rid = Ok b -> Expand growslice s' rid = Ok b;
  df_links : delta s !! rid = None -> delta s' !! rid = Some srcRid -> forall x, x <> rid -> delta s' !! x = delta s !! x;
}.

Lemma deltified_refl s rid srcRid : readable s -> wf_store s -> deltified s rid srcRid 0 s.
Proof using. intros. by split; [apply same_contents_refl|..]. Qed.

(** Whatever the policy decides, no content changes. *)
Lemma Deltify_ok s rid srcRid : readable s -> wf_store s -> returns (Deltify growslice s rid srcRid) /\
  forall saved s', Deltify growslice s rid srcRid = Ok (saved, s') -> deltified s rid srcRid saved s'.
Proof using Hg.
  intros Hs Hwf. unfold Deltify.
  assert (forall saved s', @Ok store_error _ (0, s) = Ok (saved, s') -> deltified s rid srcRid saved s') as Hsame
    by (intros ? ? [= <- <-]; by apply deltified_refl).
  destruct ((rid <=? 0) || (srcRid <=? 0) || (rid =? srcRid)) eqn:E0; [done|]. zbool.
  destruct (DeltaSource s rid >? 0); [done|]. destruct (isAvailable s NewAvailabilityCache rid) as [a1 memo].
  destruct (_ || _); [done|]. destruct (Expand_runs growslice s Hs Hg rid ltac:(lia)) as [Hret Hdata].
  destruct (Expand growslice s rid) as [data| | |] eqn:HE; [|done..]. cbn [obind]. destruct (Hdata data eq_refl) as (nd & Hed & _). clear Hdata.
  destruct (len data <? deltifyMinBytes); [done|].
  unfold IsPrivate. rewrite !(proj2 (Z.leb_gt _ _)) by lia. cbn [obind]. destruct (_ && _); [done|].
  unfold deltifyBreaksLoop.
  pose proof (loop_walk_returns (Z.to_nat (maxDeltaChainDepth + 2)) s rid srcRid srcRid 0 ∅ ltac:(rewrite Z2Nat.id; unfold maxDeltaChainDepth; lia) ltac:(unfold maxDeltaChainDepth; lia)) as Hlr.
  destruct (loop_walk _ s rid srcRid srcRid 0 ∅) as [loops| | |] eqn:EL; [|done..]. cbn [obind]. destruct loops; cbn [obind].
  { destruct (Expand_runs growslice s Hs Hg srcRid ltac:(lia)) as [Hret' _].
    assert (returns (Undelta growslice s srcRid)) as HU.
    { unfold Undelta. rewrite (proj2 (Z.leb_gt _ _)) by lia. destruct (_ <=? 0); [done|]. apply returns_bind; [done|]. intros full _.
      destruct (Compress_ok full) as (c & -> & _). done. }
    destruct (Undelta growslice s srcRid) as [s1| | |] eqn:Eu; [|done..]. cbn [obind]. split; [done|]. intros ? ? [= <- <-].
    destruct (Undelta_ok s srcRid s1 Hs ltac:(lia) Eu) as (HU1 & HU2 & HU3 & HU4 & HU5).
    split; [done|by apply HU2|lia|done|apply (shorter_expands s); [done|done|apply HU1|done]|].
    intros Hn1 Hn2. rewrite HU5 in Hn2 by lia. congruence. }
  destruct (Expand_runs growslice s Hs Hg srcRid ltac:(lia)) as [Hret' Hsrc].
  destruct (Expand growslice s srcRid) as [src| | |] eqn:HEs; [|done..]. cbn [obind]. destruct (Hsrc src eq_refl) as (ns & Hes & _). clear Hsrc.
  destruct (len src <? deltifyMinBytes); [done|].
  pose proof (expands_alloc s Hs _ _ _ Hed) as Had. pose proof (expands_alloc s Hs _ _ _ Hes) as Has. unfold alloc_ok in Had, Has.
  destruct (decide (len src < 2 ^ 32 /\ len data < 2 ^ 32)) as [[Hls Hld]|Hbig].
  - destruct (Create_delta_file src data Hls Hld) as (cmds & -> & Hok & Hev). cbn [wrap_err obind].
    destruct (not_worth _ _); [done|].
    assert (replay_delta src (delta_file data cmds) = Ok data) as Hrep by (by apply replay_delta_file).
    assert (forall saved s', deltifyWrite growslice s rid srcRid (delta_file data cmds) = Ok (saved, s') ->
      deltified s rid srcRid saved s') as Hwrite.
    { intros saved s' HW. pose proof HW as HW'.
      apply (deltifyWrite_ok s rid srcRid _ data src ns) in HW as (W1 & W2 & W3 & W4 & (back & W5) & W6);
        [|done|done|lia|lia|by exists nd|done| |done|by eapply delta_file_len].
      2:{ intros s2 Hb2 Hd2. eapply loop_walk_chain; [done|done|done|exact EL|congruence|done]. }
      split; [done..| |done]. intros b [= <-]%(eq_trans (eq_sym HE)). rewrite W5. f_equal.
      apply Expand_content in W5 as [m Hm]; [|done|lia]. destruct (proj1 W1 rid back) as [_ W].
      destruct (W ltac:(by exists m)) as [m' Hm']. by destruct (expands_det _ _ _ _ _ _ Hed Hm') as [_ ->]. }
    split; [|exact Hwrite]. unfold deltifyWrite. destruct (blob s !! rid) as [w|] eqn:Hw; [|done].
    destruct (Compress_ok (delta_file data cmds)) as (c & HC & Hc & HD). rewrite HC. cbn [obind].
    apply returns_bind; [|done]. eapply (Expand_runs growslice); [|done|lia].
    eapply (relinked_readable s rid srcRid c); [done|lia|lia|exact Hw|done|exact HD|].
    by eapply delta_file_len.
  - unfold Create, checkSizes, maxDeltaTargetSize. pose proof (len_nonneg src). pose proof (len_nonneg data).
    rewrite !u64_small by lia. assert ((len src >=? 2 ^ 32) || (len data >=? 2 ^ 32) = true) as ->; [|done].
    apply orb_true_iff. rewrite !Z.geb_leb, !Z.leb_le. lia.
Qed.
End Rewrite.

(** * Availability: what the walk decides, and what its memo remembers

    [grounded s rid n]: the chain of [n] rows from [rid] ends in a full text.
    The walk of available.go finds exactly the chains of at most
    [maxDeltaChainDepth] rows; its memo agrees with it where no chain is longer. *)

Inductive grounded (s : store) : Z -> nat -> Prop :=
| grounded_text x : step_of s x = FullText -> grounded s x 1
| grounded_delta x src n : step_of s x = DeltaOf src -> grounded s src n -> grounded s x (S n).

(** Rows start at 1: a source is never the 0 that the walk takes for an end. *)
Definition sources_pos (s : store) : Prop := forall x src, delta s !! x = Some src -> 0 < src.

Section Avail.
Context (s : store).

Lemma grounded_det x n m : grounded s x n -> grounded s x m -> n = m.
Proof using.
  intros H. revert m. induction H as [x Hx|x src n Hx _ IH]; intros m Hm; inversion Hm as [? Hx'|? src' k Hx' Hk]; subst; try congruence.
  assert (src' = src) as -> by congruence. f_equal. by apply IH.
Qed.

Lemma available_loop_exact fuel : forall x seen, (forall y, y ∈ seen -> forall n m, grounded s y n -> grounded s x m -> (m < n)%nat) ->
  available_loop fuel s x seen = true <-> (exists n, (n <= fuel)%nat /\ grounded s x n) /\ x ∉ seen.
Proof using.
  induction fuel as [|fuel IH]; intros x seen Hseen; cbn [available_loop].
  { split; [done|]. intros [(n & Hn & Hg) _]. destruct Hg; lia. }
  case_bool_decide as Hin; [split; [done|tauto]|]. destruct (step_of s x) as [| | |src] eqn:Ex.
  1,2: split; [done|]; intros [(n & _ & Hg) _]; destruct Hg; congruence.
  - split; [|done]. intros _. split; [|done]. exists 1%nat. split; [lia|by constructor].
  - assert (forall m, grounded s src m -> grounded s x (S m)) as Hup by (intros m Hm; by eapply grounded_delta).
    rewrite IH.
    + split.
      * intros [(n & Hn & Hg) _]. split; [|done]. exists (S n). split; [lia|by apply Hup].
      * intros [(n & Hn & Hg) _]. inversion Hg as [? Hx|? src' k Hx Hk]; subst; [congruence|].
        assert (src' = src) as -> by congruence. split; [exists k; split; [lia|done]|].
        intros [Hs%elem_of_singleton|Hs]%elem_of_union.
        -- subst src. pose proof (grounded_det _ _ _ Hg Hk). lia.
        -- pose proof (Hseen src Hs k (S k) Hk (Hup k Hk)). lia.
    + intros y [Hy%elem_of_singleton|Hy]%elem_of_union n m Hn Hm.
      * subst y. pose proof (grounded_det _ _ _ Hn (Hup m Hm)). lia.
      * pose proof (Hseen y Hy n (S m) Hn (Hup m Hm)). lia.
Qed.

Lemma IsAvailable_grounded rid : IsAvailable s rid = true <-> 0 < rid /\ exists n, Z.of_nat n <= maxDeltaChainDepth /\ grounded s rid n.
Proof using.
  assert (0 <= maxDeltaChainDepth) by done. unfold IsAvailable, checkAvailable. destruct (rid <=? 0) eqn:E; zbool; [split; [done|lia]|].
  rewrite available_loop_exact by set_solver. split.
  - intros [(n & Hn & Hg) _]. split; [done|]. exists n. split; [lia|done].
  - intros (_ & n & Hn & Hg). split; [|set_solver]. exists n. split; [lia|done].
Qed.

(** What expands is available. *)
Lemma expands_grounded `{!Zlib} rid n b : sources_pos s -> expands s rid n b -> (forall x, match blob s !! x with
  | Some w => match br_size w with Some z => -1 <= z | None => True end | None => True end) -> grounded s rid n.
Proof using.
  intros Hpos He Hsz. assert (forall x b, Load s x = Ok b -> step_of s x = match delta s !! x with Some src => DeltaOf src | None => FullText end) as Hstep.
  { intros x d (w & z & Hw & Hz & Hne)%Load_not_phantom. unfold step_of. rewrite Hw, Hz. specialize (Hsz x). rewrite Hw, Hz in Hsz.
    rewrite (proj2 (Z.ltb_ge _ _)) by lia. destruct (delta s !! x) as [src|] eqn:Ed; [|done].
    rewrite (proj2 (Z.eqb_neq _ _)); [done|]. apply Hpos in Ed. lia. }
  induction He as [x b Hd Hl|x src n base d b Hd He IH Hl Hr].
  - constructor. rewrite (Hstep x b Hl), Hd. done.
  - eapply grounded_delta; [|exact IH]. rewrite (Hstep x d Hl), Hd. done.
Qed.

(** ** The memo *)

(** No chain is cut off by the bound. *)
Definition short : Prop := forall x n, grounded s x n -> Z.of_nat n <= maxDeltaChainDepth.

Definition memo_ok (a : AvailabilityCache) : Prop := forall x v, avail a !! x = Some v -> v = true <-> exists n, grounded s x n.

Context (a : AvailabilityCache) (Ha : memo_ok a).

(** The nodes walked share the verdict, unless the bound cut the walk; then the
    first of them is not grounded within it. *)
Lemma memo_loop_verdict fuel : forall x seen walked v walked', memo_loop fuel s a x seen walked = (v, walked') ->
  (forall y, y ∈ seen -> forall n m, grounded s y n -> grounded s x m -> (m < n)%nat) ->
  exists new, walked' = walked ++ new /\ (forall y, y ∈ new -> ((exists n, grounded s x n) <-> exists n, grounded s y n))
    /\ ((v = true <-> exists n, grounded s x n) \/ v = false /\ forall n, grounded s x n -> (fuel < n)%nat).
Proof using Ha.
  induction fuel as [|fuel IH]; intros x seen walked v walked' H Hseen; cbn [memo_loop] in H.
  { injection H as <- <-. exists []. rewrite app_nil_r. split_and!; [done|set_solver|]. right. split; [done|].
    intros n Hg. destruct Hg; lia. }
  destruct (avail a !! x) as [v0|] eqn:Ev.
  { injection H as <- <-. exists []. rewrite app_nil_r. split_and!; [done|set_solver|]. left. by apply Ha. }
  case_bool_decide as Hin.
  { injection H as <- <-. exists []. rewrite app_nil_r. split_and!; [done|set_solver|]. left. split; [done|].
    intros [n Hn]. pose proof (Hseen x Hin n n Hn Hn). lia. }
  destruct (step_of s x) as [| | |src] eqn:Ex.
  1,2: injection H as <- <-; exists [x]; (split_and!; [done|intros y Hy%list_elem_of_singleton; by subst|]);
       left; (split; [done|]); intros [n Hg]; destruct Hg; congruence.
  - injection H as <- <-. exists [x]. split_and!; [done|intros y Hy%list_elem_of_singleton; by subst|].
    left. split; [|done]. intros _. exists 1%nat. by constructor.
  - assert (forall m, grounded s src m -> grounded s x (S m)) as Hup by (intros m Hm; by eapply grounded_delta).
    assert (forall n, grounded s x n -> exists k, n = S k /\ grounded s src k) as Hdown.
    { intros n Hg. inversion Hg as [? Hx|? src' k Hx Hk]; subst; [congruence|]. exists k. split; [done|]. congruence. }
    apply IH in H as (new & -> & Hnew & Hv).
    + exists (x :: new). rewrite <- app_assoc. split; [done|].
      assert ((exists n, grounded s x n) <-> exists n, grounded s src n) as Heq.
      { split; [intros (n & (k & _ & Hk)%Hdown); by exists k|intros [n Hn]; exists (S n); by apply Hup]. }
      split.
      * intros y [->|Hy]%elem_of_cons; [done|]. rewrite Heq. by apply Hnew.
      * destruct Hv as [Hv|[Hv Hn]]; [left; by rewrite Heq|right; split; [done|]]. intros n (k & -> & Hk)%Hdown.
        specialize (Hn k Hk). lia.
    + intros y [Hy%elem_of_singleton|Hy]%elem_of_union n m Hn Hm.
      * subst y. pose proof (grounded_det _ _ _ Hn (Hup m Hm)). lia.
      * pose proof (Hseen y Hy n (S m) Hn (Hup m Hm)). lia.
Qed.

Lemma memo_fold (walked : list Z) v (m : gmap Z bool) x w : fold_left (fun m n => <[n := v]> m) walked m !! x = Some w ->
  (x ∈ walked /\ w = v) \/ m !! x = Some w.
Proof using.
  revert m. induction walked as [|y walked IH]; intros m H; cbn [fold_left] in H; [by right|].
  apply IH in H as [[Hx ->]|H]; [left; split; [by right|done]|]. destruct (decide (y = x)) as [->|Hne].
  - rewrite lookup_insert_eq in H. injection H as <-. left. split; [by left|done].
  - rewrite lookup_insert_ne in H by done. by right.
Qed.

Lemma isAvailable_memo rid : short -> (isAvailable s a rid).1 = IsAvailable s rid /\ memo_ok (isAvailable s a rid).2.
Proof using Ha.
  assert (0 <= maxDeltaChainDepth) by done. intros Hshort. assert (forall v, 0 < rid -> (v = true <-> exists n, grounded s rid n) -> v = IsAvailable s rid) as Hverdict.
  { intros v Hr Hv. apply eq_true_iff_eq. rewrite Hv, IsAvailable_grounded. split; [|naive_solver].
    intros [n Hn]. split; [done|]. exists n. split; [by eapply Hshort|done]. }
  unfold isAvailable. destruct (rid <=? 0) eqn:E; zbool.
  { split; [|exact Ha]. cbn. unfold IsAvailable, checkAvailable. by rewrite (proj2 (Z.leb_le _ _)) by lia. }
  destruct (avail a !! rid) as [v|] eqn:Ev; cbn [fst snd]; [split; [apply Hverdict; [lia|by apply Ha]|exact Ha]|].
  remember (Z.to_nat maxDeltaChainDepth) as fuel eqn:Hfuel.
  destruct (memo_loop fuel s a rid ∅ []) as [v walked] eqn:El.
  assert (forall y, y ∈ (∅ : gset Z) -> forall n m, grounded s y n -> grounded s rid m -> (m < n)%nat) as Hnone by (intros y []%not_elem_of_empty).
  destruct (memo_loop_verdict _ _ _ _ _ _ El Hnone) as (new & Hw & Hnew & Hv). cbn [app] in Hw. subst walked.
  assert (v = true <-> exists n, grounded s rid n) as Hvg.
  { destruct Hv as [Hv|[-> Hn]]; [done|]. split; [done|]. intros [n Hg]. pose proof (Hn n Hg). pose proof (Hshort rid n Hg). subst fuel. lia. }
  cbn [fst snd]. split; [by apply Hverdict; [lia|]|]. intros x w Hx. cbn [avail] in Hx.
  apply memo_fold in Hx as [[Hx ->]|Hx]; [|by apply Ha]. rewrite Hvg. by apply Hnew.
Qed.
End Avail.

Lemma memo_empty s : memo_ok s NewAvailabilityCache.
Proof. intros x v Hx. cbn in Hx. by rewrite lookup_empty in Hx. Qed.
