(* ===== verification/StoreSteps.v ===== *)
(** * The store as a transition system

    One step is a call that changes the tables and succeeds; a failed call's
    transaction is rolled back.  [grows] is what every step keeps: names, and
    what each artifact expands to. *)

From stdpp Require Import gmap relations.
From S2P Require Import Prelude GoMap GoStd GoText GoCrypto Hash Zlib XferCard Delta DeltaCorrect Store Content ContentSpec Cache StoreCorrect ContentCorrect.

Section Steps.
Context `{ZL : !Zlib} `{S3 : !Sha3} (growslice : Z -> Z -> Z) (Hg : forall old need, need <= growslice old need).

Record grows (s s' : store) : Prop := {
  grows_content r b : content_of s r b -> content_of s' r b;
  grows_name r w : blob s !! r = Some w -> exists w', blob s' !! r = Some w' /\ br_uuid w' = br_uuid w;
}.

#[export] Instance grows_preorder : PreOrder grows.
Proof using.
  split; [split; [done|eauto]|]. intros s1 s2 s3 [C1 N1] [C2 N2]. split; [auto|].
  intros r w (w' & Hw' & <-)%N1. by apply N2.
Qed.

Lemma same_contents_grows s s' : same_contents s s' -> grows s s'.
Proof using.
  intros [Hc Hn]. split; [intros r b; apply Hc|]. intros r w Hw. specialize (Hn r). rewrite Hw in Hn.
  apply fmap_Some in Hn as (w' & ? & ?). by exists w'.
Qed.

Lemma writes_grows s rid w s' : writes s rid w s' -> grows s s'.
Proof using.
  intros HW. split.
  - intros r b [n He]. exists n. by eapply writes_expands.
  - intros r v Hv. destruct (decide (r = rid)) as [->|Hne].
    + exists w. split; [by apply HW|]. symmetry. by apply (wrt_uuid _ _ _ _ HW).
    + exists v. by rewrite (wrt_same _ _ _ _ HW).
Qed.

Lemma same_tables_grows s s' : blob s' = blob s -> delta s' = delta s -> grows s s'.
Proof using.
  intros Hb Hd. split; [|intros r w Hw; exists w; by rewrite Hb].
  intros r b [n He]. exists n. induction He as [r b Hr Hl|r src n base d b Hr He IH Hl Ha].
  - apply expands_root; [by rewrite Hd|]. by rewrite (Load_ext s) by by rewrite Hb.
  - eapply expands_delta; [by rewrite Hd|done| |done]. by rewrite (Load_ext s) by by rewrite Hb.
Qed.

Lemma wf_tables s s' : blob s' = blob s -> delta s' = delta s -> phantom s' = phantom s -> wf_store s -> wf_store s'.
Proof using. intros Hb Hd Hp []. split; rewrite ?Hb, ?Hd, ?Hp; done. Qed.

(** A new link out of a row with content. *)
Lemma link_wf s rid src w : wf_store s -> blob s !! rid = Some w -> br_size w <> Some (-1) -> 0 < src ->
  wf_store (set_delta s (<[rid := src]> (delta s))).
Proof using.
  intros [Hu Hr Hd Hp Hz] Hw Hs Hpos. split; cbn [blob delta phantom set_delta]; [done|done| |done|done].
  intros x y Hx. destruct (decide (x = rid)) as [->|Hne].
  - rewrite lookup_insert_eq in Hx. injection Hx as <-. split; [done|by exists w].
  - rewrite lookup_insert_ne in Hx by done. by apply Hd.
Qed.

(** ** The calls *)
Definition keeps (s s' : store) : Prop := wf_store s' /\ grows s s'.

Lemma keeps_refl s : wf_store s -> keeps s s.
Proof using. by split. Qed.
Hint Resolve keeps_refl : core.

Lemma positive_rid_ok {A} who rid (a b : A) : positive_rid who rid a = Ok b -> b = a.
Proof using. unfold positive_rid. destruct (rid <=? 0); congruence. Qed.

Lemma writeVerified_keeps s alg uuid content rid s' : wf_store s -> held s (rid_of s uuid) = None ->
  writeVerified s alg uuid content = Ok (rid, s') -> keeps s s'.
Proof using.
  intros Hwf Hh H. unfold writeVerified in H. apply obind_ok in H as (c & _ & H). apply obind_ok in H as ([r s1] & HR & H).
  apply obind_ok in H as (b & _ & H). apply obind_ok in H as (g & _ & H). case_hyp H; [done|]. injection H as <- <-.
  destruct (writeRow_writes s uuid (len content) c r s1 Hwf Hh HR) as (HW & _ & _ & _ & Hwf' & _).
  split; [by apply (wf_tables s1)|]. etrans; [by eapply writes_grows|by apply same_tables_grows].
Qed.

Lemma Store_keeps s content rid name s' : wf_store s -> Store s content = Ok (rid, name, s') -> keeps s s'.
Proof using.
  intros Hwf H. unfold Store in H. apply obind_ok in H as (naming & _ & H). apply obind_ok in H as (uuid & _ & H).
  apply obind_ok in H as (found & Hf & H). destruct found as [[r u]|].
  - apply positive_rid_ok in H. injection H as -> -> ->. auto.
  - apply obind_ok in H as ([r s1] & HW & H). apply positive_rid_ok in H. injection H as -> -> ->.
    eapply writeVerified_keeps; [done| |exact HW]. unfold existingName in Hf. apply obind_ok in Hf as (e & He & Hf).
    unfold Exists in He. case_hyp He; [done|]. injection He as <-. by destruct (held s (rid_of s uuid)).
Qed.

Lemma StoreUnderPolicy_keeps s content rid name o s' : wf_store s -> StoreUnderPolicy s content = Ok (rid, name, o, s') -> keeps s s'.
Proof using.
  intros Hwf H. unfold StoreUnderPolicy in H. apply obind_ok in H as (naming & _ & H). apply obind_ok in H as (uuid & _ & H).
  apply obind_ok in H as (e & He & H). unfold Exists in He. case_hyp He; [done|]. injection He as <-.
  destruct (rid_of s uuid) as [r|] eqn:Er.
  - destruct (isPhantom s r) eqn:Ep; cbn [negb] in H; [|injection H as <- <- <- <-; auto].
    apply obind_ok in H as ([r' s1] & HW & H). injection H as <- <- <- <-.
    eapply writeVerified_keeps; [done| |exact HW]. rewrite Er. cbn [held]. by rewrite Ep.
  - apply obind_ok in H as ([r' s1] & HW & H). injection H as <- <- <- <-.
    eapply writeVerified_keeps; [done| |exact HW]. by rewrite Er.
Qed.

(** A row written, then linked to a source. *)
Lemma linked_keeps s uuid size c rid s1 srcRid : wf_store s -> held s (rid_of s uuid) = None -> 0 < srcRid ->
  writeRow s uuid size c = Ok (rid, s1) -> keeps s (mark_unclustered (set_delta s1 (<[rid := srcRid]> (delta s1))) rid).
Proof using.
  intros Hwf Hh Hsrc HR. assert (0 <= size) as Hsz by (unfold writeRow in HR; destruct (size <? 0) eqn:E; [done|zbool; lia]).
  destruct (writeRow_writes s uuid size c rid s1 Hwf Hh HR) as (HW & Hd & _ & _ & Hwf1 & _). split.
  - apply (wf_tables (set_delta s1 (<[rid := srcRid]> (delta s1)))); [done..|]. eapply link_wf; [done|by apply HW|cbn; intros [=]; lia|done].
  - etrans; [|by apply same_tables_grows]. apply (writes_grows s rid (mk_blobrow uuid (Some size) (Some c))).
    destruct HW. split; try done; cbn [blob delta set_delta]. intros x Hx. rewrite Hd. by apply lookup_insert_ne.
Qed.

Lemma StoreDelta_keeps s content srcRid rid name s' : wf_store s -> StoreDelta growslice s content srcRid = Ok (rid, name, s') -> keeps s s'.
Proof using.
  intros Hwf H. unfold StoreDelta in H. case_hyp H; [done|]. destruct (srcRid <=? 0) eqn:Es; [done|]. zbool.
  apply obind_ok in H as (naming & _ & H). apply obind_ok in H as (uuid & _ & H). apply obind_ok in H as (found & Hf & H).
  destruct found as [[r u]|]; [apply positive_rid_ok in H; injection H as -> -> ->; auto|].
  apply obind_ok in H as (src & _ & H). apply obind_ok in H as (d & _ & H). apply obind_ok in H as (c & _ & H).
  apply obind_ok in H as ([r s1] & HR & H). case_hyp H; [done|]. apply obind_ok in H as (sd & _ & H).
  apply obind_ok in H as (rb & _ & H). apply obind_ok in H as (g & _ & H). case_hyp H; [done|].
  apply positive_rid_ok in H. injection H as -> -> ->. eapply linked_keeps; [done| |lia|exact HR].
  unfold existingName in Hf. apply obind_ok in Hf as (e & He & Hf). unfold Exists in He. case_hyp He; [done|]. injection He as <-.
  by destruct (held s (rid_of s uuid)).
Qed.

Lemma StoreDeltaRaw_keeps s uuid d srcRid verbatim rid s' : wf_store s -> StoreDeltaRaw s uuid d srcRid verbatim = Ok (rid, s') -> keeps s s'.
Proof using.
  intros Hwf H. unfold StoreDeltaRaw in H. case_hyp H; [done|]. destruct (srcRid <=? 0) eqn:Es; [done|]. zbool.
  apply obind_ok in H as (e & He & H). unfold Exists in He. case_hyp He; [done|]. injection He as <-.
  assert (forall r s1 size c, writeRow s uuid size c = Ok (r, s1) -> held s (rid_of s uuid) = None ->
    keeps s (mark_unclustered (set_delta s1 (<[r := srcRid]> (delta s1))) r)) as Hlink.
  { intros r s1 size c HR Hh. eapply linked_keeps; [done|done|lia|exact HR]. }
  destruct (rid_of s uuid) as [r|] eqn:Er; [destruct (isPhantom s r) eqn:Ep; cbn [negb] in H|].
  - apply obind_ok in H as (z & _ & H). apply obind_ok in H as (c & _ & H). apply obind_ok in H as ([r' s1] & HR & H).
    apply positive_rid_ok in H. injection H as -> ->. eapply Hlink; [exact HR|]. cbn [held]. by rewrite Ep.
  - apply positive_rid_ok in H. injection H as -> ->. auto.
  - apply obind_ok in H as (z & _ & H). apply obind_ok in H as (c & _ & H). apply obind_ok in H as ([r' s1] & HR & H).
    apply positive_rid_ok in H. injection H as -> ->. by eapply Hlink.
Qed.

(** A phantom takes a fresh row, and makes no other. *)
Lemma StorePhantom_keeps s uuid rid s' : wf_store s -> StorePhantom s uuid = Ok (rid, s') -> keeps s s'.
Proof using.
  intros Hwf H. unfold StorePhantom in H. case_hyp H; [done|]. apply obind_ok in H as (e & He & H). unfold Exists in He.
  case_hyp He; [done|]. injection He as <-. destruct (rid_of s uuid) as [r|] eqn:Er.
  { apply positive_rid_ok in H. injection H as -> ->. auto. }
  unfold insert_blob in H. cbn [br_uuid] in H. destruct (len uuid <? 40) eqn:El; [done|]. zbool. cbn [obind] in H.
  case_hyp H; [done|]. apply positive_rid_ok in H. injection H as -> ->.
  pose proof (next_rid_fresh s) as Hf. pose proof (next_rid_pos s) as Hpos. remember (next_rid s) as r eqn:Hr.
  assert (delta s !! r = None) as Hd.
  { destruct (delta s !! r) as [src|] eqn:Ed; [|done]. apply (wf_delta s Hwf) in Ed as (_ & w & Hw & _). congruence. }
  match goal with |- keeps s ?x => set (s' := x) end.
  assert (writes s r (mk_blobrow uuid (Some (-1)) None) s') as HW.
  { subst s'. split; try done; cbn [blob delta set_phantom set_blob].
    - intros b (w & z & Hw & _)%Load_not_phantom. congruence.
    - by rewrite lookup_insert_eq.
    - intros x Hx. by apply lookup_insert_ne.
    - intros w0 Hw0. congruence. }
  split; [|by eapply writes_grows].
  assert (forall x v, blob s' !! x = Some v -> x = r /\ v = mk_blobrow uuid (Some (-1)) None \/ x <> r /\ blob s !! x = Some v) as Hrow.
  { intros x v Hv. destruct (decide (x = r)) as [->|Hne]; [left|right].
    - split; [done|]. rewrite (wrt_row _ _ _ _ HW) in Hv. congruence.
    - split; [done|]. by rewrite (wrt_same _ _ _ _ HW) in Hv. }
  split.
  - intros r1 r2 w1 w2 [[-> ->]|[Hn1 H1]]%Hrow [[-> ->]|[Hn2 H2]]%Hrow He; [done| | |by eapply wf_uuid]; cbn in He.
    + exfalso. by apply (rid_of_none _ _ _ _ Er) in H2.
    + exfalso. by apply (rid_of_none _ _ _ _ Er) in H1.
  - intros x v [[-> ->]|[_ H]]%Hrow; [by split|by eapply wf_rid].
  - intros x src Hx. destruct (wf_delta s Hwf x src Hx) as (Hp & v & Hv & Hsz). split; [done|].
    assert (x <> r) as Hne by congruence. exists v. by rewrite (wrt_same _ _ _ _ HW).
  - intros x. subst s'. cbn [phantom set_phantom set_blob]. rewrite elem_of_union, elem_of_singleton, (wf_phantom s Hwf).
    cbn [blob set_phantom set_blob]. destruct (decide (x = r)) as [->|Hne].
    + rewrite lookup_insert_eq. split; [|by left]. intros _. by exists (mk_blobrow uuid (Some (-1)) None).
    + rewrite lookup_insert_ne by done. split; [by intros [?|?]|by right].
  - intros x v [[-> ->]|[_ H]]%Hrow; [by exists (-1)|by eapply wf_size].
Qed.

(** ** The name lookup *)
Lemma existingName_ok s naming uuid content : uuid <> [] -> exists r, existingName s naming uuid content = Ok r.
Proof using.
  intros Hu. unfold existingName, Exists. rewrite (proj2 (bytes_eqb_neq _ _)) by done. cbn [obind].
  destruct (held s (rid_of s uuid)); [by eexists|]. destruct (negb _); [by eexists|].
  destruct (Alg_Hash_ok (E:=store_error) (Other (New naming)) content) as (h & -> & Hl). cbn [obind].
  rewrite (proj2 (bytes_eqb_neq _ _)) by (intros ->; rewrite len_nil in Hl; by destruct (Other _)). by eexists.
Qed.

Lemma existingName_pos s naming uuid content rid name : wf_store s ->
  existingName s naming uuid content = Ok (Some (rid, name)) -> 0 < rid.
Proof using.
  intros Hwf H. assert (forall u r, held s (rid_of s u) = Some r -> 0 < r) as Hpos.
  { intros u r Hh. destruct (rid_of s u) as [x|] eqn:Ex; [|done]. cbn [held] in Hh. destruct (isPhantom s x); [done|].
    injection Hh as ->. apply rid_of_some in Ex as (w & Hw & _). by eapply wf_rid. }
  unfold existingName in H. apply obind_ok in H as (e & He & H). unfold Exists in He. case_hyp He; [done|]. injection He as <-.
  destruct (held s (rid_of s uuid)) as [r|] eqn:Eh; [injection H as -> _; by eapply Hpos|]. case_hyp H; [done|].
  apply obind_ok in H as (l & _ & H). apply obind_ok in H as (e & He & H). unfold Exists in He. case_hyp He; [done|]. injection He as <-.
  destruct (held s (rid_of s l)) as [r|] eqn:El; [|done]. injection H as -> _. by eapply Hpos.
Qed.

(** Content named under either algorithm is bound to that name. *)
Lemma named_bound rid a uuid content : Alg_Hash (E:=store_error) a (Some content) = Ok uuid -> bindToUUID rid uuid content = Ok tt.
Proof using.
  intros H. destruct (Alg_Hash_ok (E:=store_error) a content) as (h & Hh & Hl). assert (h = uuid) as -> by congruence.
  unfold bindToUUID. rewrite Hl. destruct a; cbn [Z.eqb Pos.eqb]; unfold Alg_Hash in H; rewrite H; cbn [obind]; by rewrite bytes_eqb_refl.
Qed.

(** ** Steps *)
Inductive store_step (s : store) : store -> Prop :=
| step_Store content rid name s' : Store s content = Ok (rid, name, s') -> store_step s s'
| step_StoreUnderPolicy content rid name o s' : StoreUnderPolicy s content = Ok (rid, name, o, s') -> store_step s s'
| step_StoreDelta content srcRid rid name s' : StoreDelta growslice s content srcRid = Ok (rid, name, s') -> store_step s s'
| step_StoreDeltaRaw uuid d srcRid verbatim rid s' : StoreDeltaRaw s uuid d srcRid verbatim = Ok (rid, s') -> store_step s s'
| step_StorePhantom uuid rid s' : StorePhantom s uuid = Ok (rid, s') -> store_step s s'
| step_Deltify rid srcRid saved s' : readable s -> Deltify growslice s rid srcRid = Ok (saved, s') -> store_step s s'
| step_Undelta rid s' : readable s -> Undelta growslice s rid = Ok s' -> store_step s s'
| step_MakePrivate rid s' : MakePrivate s rid = Ok s' -> store_step s s'
| step_MakePublic rid s' : MakePublic s rid = Ok s' -> store_step s s'.

Lemma step_keeps s s' : wf_store s -> store_step s s' -> keeps s s'.
Proof using Hg.
  intros Hwf []; [by eapply Store_keeps|by eapply StoreUnderPolicy_keeps|by eapply StoreDelta_keeps
    |by eapply StoreDeltaRaw_keeps|by eapply StorePhantom_keeps| | | |].
  - destruct (Deltify_ok growslice Hg s rid srcRid) as [_ H1]; [done|done|].
    edestruct H1 as [? ? _ _ _ _]; [done|]. split; [done|by apply same_contents_grows].
  - assert (0 < rid) as Hr by (match goal with H : Undelta _ _ _ = _ |- _ => unfold Undelta in H; destruct (rid <=? 0) eqn:E; [done|zbool; lia] end).
    match goal with H : Undelta _ _ _ = _ |- _ => apply (Undelta_ok growslice Hg) in H as (? & ? & _); [|done..] end.
    split; [auto|by apply same_contents_grows].
  - unfold MakePrivate in *. case_match; simplify_eq. split; [by apply (wf_tables s)|by apply same_tables_grows].
  - unfold MakePublic in *. case_match; simplify_eq. split; [by apply (wf_tables s)|by apply same_tables_grows].
Qed.

Lemma steps_keep s s' : wf_store s -> rtc store_step s s' -> keeps s s'.
Proof using Hg.
  intros Hwf H. induction H as [s|s1 s2 s3 H12 _ IH]; [auto|].
  destruct (step_keeps s1 s2 Hwf H12) as [Hwf2 Hg12]. destruct (IH Hwf2) as [? ?]. split; [done|by etrans].
Qed.
End Steps.
