(* ===== verification/ContentProps.v ===== *)
(** * What the artifact store promises

    Properties of [Store], [Content] and [Cache], with their witnesses on a small
    repository built by the calls themselves. *)

From stdpp Require Import gmap relations.
From S2P Require Import Prelude GoMap GoStd GoText GoCrypto Hash Zlib XferCard Delta DeltaCorrect Store Content ContentSpec Cache StoreCorrect ContentCorrect StoreSteps.

(** ** A small repository *)
Definition empty_store : store := mk_store ∅ ∅ ∅ ∅ ∅ (Some (bs "0")).

Lemma empty_wf : wf_store empty_store.
Proof.
  assert (forall r (w : blobrow), (∅ : gmap Z blobrow) !! r = Some w -> False) as Hno by (intros r w; by rewrite lookup_empty).
  split; cbn [blob delta phantom empty_store].
  - intros r1 r2 w1 w2 []%Hno.
  - intros r w []%Hno.
  - intros r src H. by rewrite lookup_empty in H.
  - intros r. split; [by intros []%not_elem_of_empty|]. intros (w & []%Hno & _).
  - intros r w []%Hno.
Qed.

(** Rows whose content a kernel can evaluate. *)
Definition small_rows `{!Zlib} (s : store) : bool :=
  bool_decide (map_Forall (fun _ src => 0 < src) (delta s))
  && bool_decide (map_Forall (fun rid _ => (match Load s rid with Ok b => len b <? 2 ^ 48 | _ => true end) = true) (blob s)).

Lemma small_readable `{!Zlib} s : small_rows s = true -> readable s.
Proof.
  intros [H1%bool_decide_eq_true H2%bool_decide_eq_true]%andb_true_iff. split; [exact H1|].
  intros rid b Hb. destruct (Load_not_phantom s rid b Hb) as (w & _ & Hw & _). apply H2 in Hw. rewrite Hb in Hw. unfold alloc_ok. zbool. lia.
Qed.

(** ** The properties *)
Section Props.
Context `{ZL : !Zlib} `{S3 : !Sha3} (growslice : Z -> Z -> Z) (Hg : forall old need, need <= growslice old need).

(** C24: an expansion always returns, and what it returns is exactly what the
    chain of at most [maxDeltaChainDepth] rows from the artifact to a full text
    replays to, provided it hashes to the artifact's name. *)
Theorem expand_exact s rid : readable s -> 0 < rid -> returns (Expand growslice s rid)
  /\ forall b, Expand growslice s rid = Ok b <-> exists n, Z.of_nat n <= maxDeltaChainDepth /\ expands s rid n b /\ bound s rid b.
Proof using Hg.
  intros Hs Hr. destruct (Expand_runs growslice s Hs Hg rid Hr) as [H1 H2]. split; [done|]. intros b. split.
  - intros (n & ? & ? & ?)%H2. by exists n.
  - intros (n & ? & ? & ?). by eapply Expand_ok.
Qed.

(** C31: an expansion through a cache answers only what the chain expands to and
    what is bound to the name, keeps the cache's invariant (distinct entries, exact
    accounting within both limits, checked content only), and loses nothing: where
    every artifact has its right name, what a plain expansion answers it answers. *)
Theorem cache_transparent s c rid : readable s -> cache_ok s c -> unchecked c = false -> 0 < rid ->
  exists r c', Cache_Expand growslice s rid (Some c) = (r, Some c') /\ cache_ok s c' /\ unchecked c' = false /\ returns r
    /\ (forall b, r = Ok b -> content_of s rid b /\ bound s rid b)
    /\ ((forall x n b, expands s x n b -> bound s x b) -> forall b, Expand growslice s rid = Ok b -> r = Ok b).
Proof using Hg.
  intros Hs Hc Hu Hr. unfold Cache_Expand. rewrite (proj2 (Z.leb_gt _ _)), Hu by lia.
  destruct (expand_runs growslice s Hs Hg rid true c Hr Hc Hu) as [[Hi1 Hi2] HQ].
  pose proof (fun n b => expand_oks growslice s Hs Hg rid n b true c Hc Hu) as Hoks. unfold oks in Hoks.
  destruct (expand growslice s rid true c) as [r c']. cbn [fst snd] in *. exists r, c'. split_and!; try done.
  - by destruct r.
  - intros b ->. destruct HQ as (n & He & Hb). split; [by exists n|by apply Hb].
  - intros Hnames b HE. destruct (Expand_runs growslice s Hs Hg rid Hr) as [_ H]. destruct (H b HE) as (n & He & _ & Hn).
    destruct (Hoks n b (fun _ => Hnames) He Hn) as [b' ->]. destruct HQ as (n' & He' & _).
    by destruct (expands_det _ _ _ _ _ _ He He') as [_ ->].
Qed.




(** A cache filled before any sequence of storing and rewriting calls needs no
    invalidation: its entries are still expansions bound to their names. *)
Theorem cache_survives s s' c : wf_store s -> rtc (store_step growslice) s s' -> cache_ok s c -> cache_ok s' c.
Proof using Hg.
  intros Hwf H [[Hn Hz He Hm] Hw]. destruct (steps_keep growslice Hg s s' Hwf H) as [_ [HC HN]].
  split; [|done]. split; [done|done| |done]. eapply Forall_impl; [exact He|]. intros [x d] (n & Hx & Hb). cbn [fst snd] in *.
  destruct (HC x d) as [m Hm']; [by exists n|]. exists m. split; [done|]. intros Hu. specialize (Hb Hu).
  unfold bound, bindToName in *. destruct (blob s !! x) as [w|] eqn:Ex; [|done]. destruct (HN x w Ex) as (w' & -> & ->). done.
Qed.


(** Deltify verifies the row it rewrites and no other: an artifact whose chain
    ended in that row expands no more once the source's chain takes its own past
    the bound, although the comment calls the rewrite a change of storage only. *)
Theorem deltify_too_deep s rid srcRid saved s' r n b k src : readable s -> wf_store s ->
  Deltify growslice s rid srcRid = Ok (saved, s') -> delta s !! rid = None -> delta s' !! rid = Some srcRid ->
  rtc (fun x y => delta s !! x = Some y) r rid -> expands s r n b -> expands s' srcRid k src ->
  maxDeltaChainDepth < Z.of_nat (n + k) -> Expand growslice s' r = Err (ErrChainDepth r).
Proof using Hg.
  intros Hs Hwf HD H1 H2 Hpath Hn Hk Hdeep. destruct (Deltify_ok growslice Hg s rid srcRid Hs Hwf) as [_ H].
  destruct (H _ _ HD) as [Hsame _ _ Hs' _ Hl]. specialize (Hl H1 H2).
  destruct (proj1 (proj1 Hsame r b) ltac:(by exists n)) as [m Hm].
  assert (exists c, expands s' rid (S k) c) as [c Hc].
  { assert (exists m c, expands s' rid m c) as (m' & c & Hc).
    { clear -Hm Hpath Hl H1. revert m b Hm. induction Hpath as [x|x y z Hxy _ IH]; intros m b Hm; [by exists m, b|].
      assert (x <> z) as Hne by congruence. destruct Hm as [? ? Hd|x' src' m' base d b' Hd He]; rewrite Hl in Hd by done; [congruence|].
      assert (src' = y) as -> by congruence. by eapply IH. }
    destruct Hc as [? ? Hd|x src' m' base d c Hd He Hload Hr]; [congruence|]. assert (src' = srcRid) as -> by congruence.
    destruct (expands_det _ _ _ _ _ _ Hk He) as [-> _]. exists c. by eapply expands_delta. }
  rewrite (relinked_length s s' rid k r n m b b c) in Hm by done. by eapply Expand_deep.
Qed.

(** Under a recognized hash policy, storing content always succeeds; unless
    the content's name was already held, when nothing changes, the new artifact
    expands to the content and is bound to its name; and storing the content again
    answers the same artifact and changes nothing. *)
Theorem store_readback s content naming : wf_store s -> NamingFor (hash_view s) = Ok naming ->
  exists rid name s', Store s content = Ok (rid, name, s') /\ wf_store s' /\ grows s s'
    /\ Store s' content = Ok (rid, name, s')
    /\ (s' = s \/ content_of s' rid content /\ bound s' rid content
         /\ Alg_Hash (E:=store_error) (New naming) (Some content) = Ok name).
Proof using.
  intros Hwf HN. destruct (Alg_Hash_ok (E:=store_error) (New naming) content) as (uuid & Hu & Hlen).
  assert (bytes_eqb uuid [] = false) as Hne by (apply bytes_eqb_neq; intros ->; rewrite len_nil in Hlen; by destruct (New naming)).
  assert (forall s, NamingFor (hash_view s) = Ok naming -> Store s content = let? found := existingName s naming uuid content in
    match found with
    | Some (rid, name) => positive_rid "blob.Store: postcondition violated: rid <= 0 with no error" rid (rid, name, s)
    | None => let? (rid, s) := writeVerified s (New naming) uuid content in
              positive_rid "blob.Store: postcondition violated: rid <= 0 with no error" rid (rid, uuid, s)
    end) as Hst by (intros s0 HN0; unfold Store; rewrite HN0; cbn [wrap_err obind]; by rewrite Hu).
  assert (forall s rid, wf_store s -> held s (rid_of s uuid) = Some rid -> existingName s naming uuid content = Ok (Some (rid, uuid))) as Hheld
    by (intros s0 rid _ Hh; unfold existingName, Exists; rewrite Hne; cbn [obind]; by rewrite Hh).
  destruct (existingName_ok s naming uuid content) as [[[rid name]|] Ee]; [by intros ->| |].
  - exists rid, name, s. pose proof (existingName_pos s naming uuid content rid name Hwf Ee) as Hr. rewrite Hst, Ee by done. cbn [obind]. unfold positive_rid. rewrite (proj2 (Z.leb_gt _ _)) by lia.
    split_and!; [done|done|reflexivity|done|by left].
  - assert (held s (rid_of s uuid) = None) as Hh.
    { destruct (held s (rid_of s uuid)) as [r|] eqn:Eh; [|done]. by rewrite (Hheld s r Hwf Eh) in Ee. }
    destruct (writeVerified_ok s naming uuid content Hwf HN Hu Hh) as (rid & s' & w & HW & Hwr & Hwu & Hwz & Hd & Hwf' & HL & HN').
    pose proof (wrt_rid _ _ _ _ Hwr) as Hr. exists rid, uuid, s'. rewrite Hst, Ee by done. cbn [obind]. rewrite HW. cbn [obind].
    assert (positive_rid "blob.Store: postcondition violated: rid <= 0 with no error" rid (rid, uuid, s') = Ok (rid, uuid, s')) as Hp
      by (unfold positive_rid; by rewrite (proj2 (Z.leb_gt _ _)) by lia).
    rewrite Hp. split_and!; [done|done|by eapply writes_grows| |right].
    + rewrite Hst, (Hheld s' rid) by (try done; rewrite <- Hwu, (rid_of_row s' rid w) by (try done; apply Hwr); unfold held, isPhantom;
        rewrite (wrt_row _ _ _ _ Hwr), Hwz; pose proof (len_nonneg content); by rewrite (proj2 (Z.eqb_neq _ _)) by lia).
      done.
    + split_and!; [exists 1%nat; apply expands_root; [rewrite Hd; apply Hwr|done]| |done].
      unfold bound, bindToName. rewrite (wrt_row _ _ _ _ Hwr), Hwu. by apply named_bound with (New naming).
Qed.

(** C32: availability is groundedness within the bound: [IsAvailable] answers true
    exactly for chains of at most [maxDeltaChainDepth] present rows that end in a
    full text, so for everything that expands; and where no grounded chain is
    longer, the memo answers the same whatever was asked before. *)
Theorem available_exact s rid : readable s -> wf_store s ->
  (IsAvailable s rid = true <-> 0 < rid /\ exists n, Z.of_nat n <= maxDeltaChainDepth /\ grounded s rid n)
  /\ (forall b, Expand growslice s rid = Ok b -> IsAvailable s rid = true)
  /\ (short s -> forall a, memo_ok s a -> (isAvailable s a rid).1 = IsAvailable s rid /\ memo_ok s (isAvailable s a rid).2).
Proof using ZL Hg.
  intros Hs Hwf. split_and!; [apply IsAvailable_grounded| |intros Hshort a Ha; by apply isAvailable_memo].
  intros b HE. assert (0 < rid) as Hr by (unfold Expand in HE; destruct (rid <=? 0) eqn:E; [done|zbool; lia]).
  destruct (Expand_runs growslice s Hs Hg rid Hr) as [_ H]. destruct (H b HE) as (n & He & _ & Hn).
  apply IsAvailable_grounded. split; [done|]. exists n. split; [done|]. apply (expands_grounded s rid n b (delta_pos s Hs) He).
  intros x. destruct (blob s !! x) as [w|] eqn:Ew; [|done]. by destruct (wf_size s Hwf x w Ew) as (z & -> & ?).
Qed.
End Props.

(** ** A chain one row too long *)

(** Rows 1 to [n], each a delta of the one before, the first a full text. *)
Definition chain_row (rid : Z) : blobrow := mk_blobrow (be_bytes 40 rid) (Some 1) (Some [x00]).
Fixpoint chain_store (n : nat) : store :=
  match n with
  | O => empty_store
  | S k =>
      let rid := Z.of_nat n in
      let s := set_blob (chain_store k) (<[rid := chain_row rid]> (blob (chain_store k))) in
      if rid =? 1 then s else set_delta s (<[rid := rid - 1]> (delta s))
  end.

Lemma chain_lookup n x : 1 <= x <= Z.of_nat n -> blob (chain_store n) !! x = Some (chain_row x)
  /\ delta (chain_store n) !! x = if x =? 1 then None else Some (x - 1).
Proof.
  induction n as [|n IH]; intros Hx; [lia|]. cbn [chain_store]. destruct (decide (x = Z.of_nat (S n))) as [->|Hne].
  - destruct (Z.of_nat (S n) =? 1) eqn:E; zbool; cbn [blob delta set_delta set_blob]; rewrite !lookup_insert_eq; [|done].
    assert (n = O) as -> by lia. done.
  - destruct IH as [Hb Hd]; [lia|].
    destruct (Z.of_nat (S n) =? 1); cbn [blob delta set_delta set_blob]; by rewrite ?lookup_insert_ne.
Qed.

Lemma chain_step n x : 1 <= x <= Z.of_nat n -> step_of (chain_store n) x = if x =? 1 then FullText else DeltaOf (x - 1).
Proof.
  intros Hx. destruct (chain_lookup n x Hx) as [Hb Hd]. unfold step_of. rewrite Hb, Hd. cbn [br_size chain_row].
  change (1 <? 0) with false. destruct (x =? 1) eqn:E; [done|]. zbool. by rewrite (proj2 (Z.eqb_neq (x - 1) 0)) by lia.
Qed.

Lemma chain_grounded n x : 1 <= x <= Z.of_nat n -> grounded (chain_store n) x (Z.to_nat x).
Proof.
  intros Hx. assert (exists k, x = Z.of_nat (S k)) as [k ->] by (exists (Z.to_nat (x - 1)); lia). rewrite Nat2Z.id.
  induction k as [|k IH]; [apply grounded_text; by rewrite chain_step|].
  eapply grounded_delta; [|apply IH; lia]. rewrite chain_step, (proj2 (Z.eqb_neq _ _)) by lia. f_equal. lia.
Qed.

(** From an empty memo a walk the bound cuts calls every node it met unavailable. *)
Lemma chain_cut n fuel : forall x seen walked, Z.of_nat fuel < x <= Z.of_nat n -> (forall y, y ∈ seen -> x < y) ->
  exists new, memo_loop fuel (chain_store n) NewAvailabilityCache x seen walked = (false, new)
    /\ (forall y, y ∈ walked -> y ∈ new) /\ forall y, x - Z.of_nat fuel < y <= x -> y ∈ new.
Proof.
  induction fuel as [|fuel IH]; intros x seen walked Hx Hseen; [exists walked; split_and!; [done|done|lia]|].
  cbn [memo_loop]. cbn [avail NewAvailabilityCache]. rewrite lookup_empty. rewrite bool_decide_eq_false_2 by (intros ?%Hseen; lia).
  rewrite chain_step, (proj2 (Z.eqb_neq _ _)) by lia.
  destruct (IH (x - 1) ({[x]} ∪ seen) (walked ++ [x])) as (new & -> & Hw & Hn); [lia| |].
  { intros y [->%elem_of_singleton|Hy%Hseen]%elem_of_union; lia. }
  exists new. split_and!; [done|intros y Hy; apply Hw; apply elem_of_app; by left|]. intros y Hy.
  destruct (decide (y = x)) as [->|Hne]; [|apply Hn; lia]. apply Hw, elem_of_app. right. by apply list_elem_of_singleton.
Qed.

Lemma fold_told (walked : list Z) v (m : gmap Z bool) x : x ∈ walked -> fold_left (fun m n => <[n := v]> m) walked m !! x = Some v.
Proof.
  revert m. induction walked as [|y walked IH]; intros m Hx; [by apply not_elem_of_nil in Hx|]. cbn [fold_left].
  destruct (decide (x ∈ walked)) as [Hin|Hout]; [by apply IH|]. apply elem_of_cons in Hx as [->|]; [|done].
  clear IH. assert (forall (l : list Z) (m : gmap Z bool), y ∉ l -> fold_left (fun m n => <[n := v]> m) l m !! y = m !! y) as Hskip.
  { induction l as [|z l IHl]; intros m0 Hl; [done|]. cbn [fold_left]. apply not_elem_of_cons in Hl as [? ?].
    rewrite IHl by done. by apply lookup_insert_ne. }
  rewrite Hskip by done. apply lookup_insert_eq.
Qed.

(** The memo does not always agree: asked first of an artifact whose chain is
    one row too long, it remembers that verdict for the whole chain, so artifacts
    the bound does not concern, available when asked of directly or first, become
    unavailable until the memo is dropped. *)
Theorem memo_poisoned : exists s, let asked := (isAvailable s NewAvailabilityCache (maxDeltaChainDepth + 1)).2 in
  forall x, 1 < x <= maxDeltaChainDepth -> IsAvailable s x = true /\ (isAvailable s asked x).1 = false.
Proof.
  set (n := Z.to_nat (maxDeltaChainDepth + 1)). assert (Z.of_nat n = maxDeltaChainDepth + 1) as Hn by done.
  assert (0 < maxDeltaChainDepth) as Hm by done. generalize dependent n. intros n Hn. exists (chain_store n). cbv zeta. intros x Hx. split.
  - apply IsAvailable_grounded. split; [lia|]. exists (Z.to_nat x). split; [lia|]. apply chain_grounded. lia.
  - unfold isAvailable at 2. rewrite (proj2 (Z.leb_gt _ _)) by lia. cbn [avail NewAvailabilityCache]. rewrite lookup_empty.
    destruct (chain_cut n (Z.to_nat maxDeltaChainDepth) (maxDeltaChainDepth + 1) ∅ []) as (new & -> & _ & Hnew); [lia|intros y []%not_elem_of_empty|].
    unfold isAvailable. cbn [snd avail]. rewrite (proj2 (Z.leb_gt _ _)), fold_told by (try apply Hnew; lia). done.
Qed.

Section Demo.
(** A stand-in for SHA-3, which no demonstration below depends on. *)
Program Instance demo_Sha3 : Sha3 := {| sha3_Sum256 data := take 32 (data ++ repeat x00 32) |}.
Next Obligation. intros data. unfold len. rewrite length_take, length_app, repeat_length. lia. Qed.

Definition text_v1 : bytes := bs "the first version of a file, long enough to be worth a delta against its successor: alpha beta gamma delta".
Definition text_v2 : bytes := bs "the first version of a file, long enough to be worth a delta against its successor: alpha beta gamma delta, epsilon".

Definition run_store (s : store) (content : bytes) : store := match Store s content with Ok (_, _, s) => s | _ => s end.
Definition demo2 : store := run_store (run_store empty_store text_v1) text_v2.
Definition demo_grow (old need : Z) : Z := need.
Definition demo3 : store := match Deltify demo_grow demo2 1 2 with Ok (_, s) => s | _ => demo2 end.

Example demo_deltified : delta demo3 !! 1 = Some 2 /\ Expand demo_grow demo3 1 = Ok text_v1.
Proof. vm_compute. done. Qed.

Definition answered {E A} (r : outcome E A) : bool := match r with Ok _ => true | _ => false end.

Lemma run_store_step s content : answered (Store s content) = true -> store_step demo_grow s (run_store s content).
Proof. unfold run_store. destruct (Store s content) as [[[rid name] s']| | |] eqn:E; [|done..]. intros _. by eapply step_Store. Qed.

Lemma demo_grow_ok old need : need <= demo_grow old need.
Proof. done. Qed.

Lemma demo2_readable : readable demo2.
Proof. apply small_readable. vm_compute. reflexivity. Qed.

Lemma demo3_readable : readable demo3.
Proof. apply small_readable. vm_compute. reflexivity. Qed.

Lemma demo2_steps : rtc (store_step demo_grow) empty_store demo2.
Proof. unfold demo2. eapply rtc_l, rtc_once; apply run_store_step; vm_compute; reflexivity. Qed.

Lemma demo_steps : rtc (store_step demo_grow) demo2 demo3.
Proof.
  apply rtc_once. unfold demo3. assert (answered (Deltify demo_grow demo2 1 2) = true) as H by (vm_compute; reflexivity).
  destruct (Deltify demo_grow demo2 1 2) as [[saved s]| | |] eqn:E; [|done..]. eapply step_Deltify; [apply demo2_readable|exact E].
Qed.

Lemma demo2_wf : wf_store demo2.
Proof. exact (proj1 (steps_keep demo_grow demo_grow_ok _ _ empty_wf demo2_steps)). Qed.

Lemma demo3_wf : wf_store demo3.
Proof. exact (proj1 (steps_keep demo_grow demo_grow_ok _ _ demo2_wf demo_steps)). Qed.

Definition demo_cache : Cache := mk_Cache [] 0 4096 maxCacheEntries 0 0 false.

Lemma demo_cache_ok s : NewCache 4096 = Ok demo_cache /\ cache_ok s demo_cache.
Proof. split; [done|]. split; [split|split]; cbn; try done. constructor. Qed.

Lemma expand_exact_witness : returns (Expand demo_grow demo3 1)
  /\ forall b, Expand demo_grow demo3 1 = Ok b <-> exists n, Z.of_nat n <= maxDeltaChainDepth /\ expands demo3 1 n b /\ bound demo3 1 b.
Proof. exact (expand_exact demo_grow demo_grow_ok demo3 1 demo3_readable eq_refl). Defined.

Lemma cache_transparent_witness : exists r c', Cache_Expand demo_grow demo3 1 (Some demo_cache) = (r, Some c') /\ cache_ok demo3 c' /\ unchecked c' = false
  /\ returns r /\ (forall b, r = Ok b -> content_of demo3 1 b /\ bound demo3 1 b)
  /\ ((forall x n b, expands demo3 x n b -> bound demo3 x b) -> forall b, Expand demo_grow demo3 1 = Ok b -> r = Ok b).
Proof. exact (cache_transparent demo_grow demo_grow_ok demo3 demo_cache 1 demo3_readable (proj2 (demo_cache_ok _)) eq_refl eq_refl). Defined.


(** A cache warmed before the row was rewritten. *)
Definition warm_cache : Cache := default demo_cache (snd (Cache_Expand demo_grow demo2 1 (Some demo_cache))).

Lemma warm_cache_ok : map fst (items warm_cache) = [1] /\ cache_ok demo2 warm_cache.
Proof.
  split; [vm_compute; reflexivity|]. unfold warm_cache, Cache_Expand. change (1 <=? 0) with false. change (unchecked demo_cache) with false. cbv iota.
  destruct (expand_runs demo_grow demo2 demo2_readable demo_grow_ok 1 true demo_cache eq_refl (proj2 (demo_cache_ok _)) eq_refl) as [[H _] _].
  destruct (expand _ _ _ _ _). exact H.
Qed.

Lemma cache_survives_witness : cache_ok demo3 warm_cache.
Proof. exact (cache_survives demo_grow demo_grow_ok demo2 demo3 warm_cache demo2_wf demo_steps (proj2 warm_cache_ok)). Defined.


Lemma store_readback_witness : exists rid name s', Store demo3 (bs "a new artifact") = Ok (rid, name, s') /\ wf_store s' /\ grows demo3 s'
    /\ Store s' (bs "a new artifact") = Ok (rid, name, s')
    /\ (s' = demo3 \/ content_of s' rid (bs "a new artifact") /\ bound s' rid (bs "a new artifact")
         /\ Alg_Hash (E:=store_error) AlgSHA1 (Some (bs "a new artifact")) = Ok name).
Proof. refine (store_readback demo3 (bs "a new artifact") (mk_Naming AlgSHA1 true) demo3_wf _). vm_compute. reflexivity. Defined.

Lemma pair_short s : step_of s 1 = DeltaOf 2 -> step_of s 2 = FullText -> map_Forall (fun x _ => x = 1 \/ x = 2) (blob s) -> short s.
Proof.
  intros H1 H2 Hrows. assert (forall m, grounded s 2 m -> m = 1%nat) as Htwo by (intros m Hm; inversion Hm; congruence).
  intros x n Hn. assert (x = 1 \/ x = 2) as [->| ->].
  { assert (exists w, blob s !! x = Some w) as [w Hw].
    { destruct Hn as [x Hx|x src n Hx _]; unfold step_of in Hx; destruct (blob s !! x) as [w|]; [by exists w|done|by exists w|done]. }
    exact (Hrows x w Hw). }
  - inversion Hn as [|? ? m Hs Hm]; subst; [congruence|]. assert (src = 2) as -> by congruence. by rewrite (Htwo m Hm).
  - by rewrite (Htwo n Hn).
Qed.

Lemma demo3_short : short demo3.
Proof.
  apply pair_short; [vm_compute; reflexivity|vm_compute; reflexivity|].
  eapply bool_decide_eq_true_1. vm_compute. reflexivity.
Qed.

Lemma available_exact_witness :
  (IsAvailable demo3 1 = true <-> 0 < 1 /\ exists n, Z.of_nat n <= maxDeltaChainDepth /\ grounded demo3 1 n)
  /\ (forall b, Expand demo_grow demo3 1 = Ok b -> IsAvailable demo3 1 = true)
  /\ (isAvailable demo3 NewAvailabilityCache 1).1 = IsAvailable demo3 1 /\ memo_ok demo3 (isAvailable demo3 NewAvailabilityCache 1).2.
Proof.
  destruct (available_exact demo_grow demo_grow_ok demo3 1 demo3_readable demo3_wf) as (H1 & H2 & H3).
  exact (conj H1 (conj H2 (H3 demo3_short _ (memo_empty _)))).
Defined.
End Demo.
