(* ===== verification/Auth.v ===== *)
(** * Users, logins and capabilities: src/internal/auth, and the login of
    src/internal/sync (auth.go, and initAuth, handleLoginCard, handleLogin and
    canRead of handler.go)

    The user table is keyed by its UNIQUE login and the config table by its name;
    rows with a NULL login, which no query here finds, are left out, and so are the
    columns nothing reads (cookie, ipaddr, cexpire, mtime, photo).  Time is the
    nanosecond count of [Timestamp].  A constant-time comparison is equality. *)

From stdpp Require Import gmap.
From S2P Require Import Prelude GoStd GoText GoCrypto Escape Deck Pathname Timestamp Zlib Hash XferCard XferDecode XferMessage XferLine XferTotal XferRoundTrip XferMessageCorrect GoMap.

(** ** The tables *)
Record userrow := mk_userrow { ur_uid : Z; ur_pw : option bytes; ur_cap : option bytes; ur_info : option bytes }.
Record authdb := mk_authdb { users : gmap bytes userrow; au_config : gmap bytes bytes }.
Definition set_users (d : authdb) (u : gmap bytes userrow) : authdb := mk_authdb u (au_config d).
Definition set_au_config (d : authdb) (c : gmap bytes bytes) : authdb := mk_authdb (users d) c.

Record User := mk_User { UID : Z; Login : bytes; Cap : bytes; Info : bytes }.

Inductive auth_error :=
| ErrAuthFailed
| ErrUserExists (login : bytes)
| ErrUserNotFound (login : bytes)
| ErrNullCap (login : bytes).
Abbreviation aresult := (outcome auth_error).

(** ** Capabilities: auth.go *)
Definition HasCapability (caps : bytes) (required : byte) : bool := existsb (Byte.eqb required) caps.
Definition isAdmin (caps : bytes) : bool := HasCapability caps "s"%byte || HasCapability caps "a"%byte.
Definition CanPush (caps : bytes) : bool := HasCapability caps "i"%byte || isAdmin caps.
Definition CanPull (caps : bytes) : bool := HasCapability caps "o"%byte || isAdmin caps.
Definition CanClone (caps : bytes) : bool := HasCapability caps "g"%byte || isAdmin caps.
Definition CanPushUV (caps : bytes) : bool := HasCapability caps "y"%byte.
Definition CanSyncPrivate (caps : bytes) : bool := HasCapability caps "x"%byte.
Definition IsAdmin (caps : bytes) : bool := HasCapability caps "a"%byte || HasCapability caps "s"%byte.
Definition CanRead (caps : bytes) : bool := HasCapability caps "o"%byte || HasCapability caps "i"%byte || IsAdmin caps.

(** ** Invites: invite.go *)
Definition InviteExpiryKey (login : bytes) : aresult bytes :=
  if bytes_eqb login [] then Panic "auth.InviteExpiryKey: login must not be empty" else Ok (bs "invite-expire:" ++ login).

(** [expiry.UTC().Format(time.RFC3339)]. *)
Definition format_RFC3339 (t : time) : bytes := format_seconds t ++ bs "Z".

Definition SetInviteExpiry (d : authdb) (login : bytes) (expiry : time) : aresult authdb :=
  let? key := InviteExpiryKey login in Ok (set_au_config d (<[key := format_RFC3339 expiry]> (au_config d))).

(** [time.Parse(time.RFC3339, value)]: an hour may have one digit, and a
    fraction may follow the seconds; [Timestamp]'s digits and calendar. *)
Definition hour_digits (c : bytes) : option (Z * bytes) :=
  match ts_digits c 2 with Some r => Some r | None => ts_digits c 1 end.

Definition literal (b : byte) (c : bytes) : option bytes :=
  match c with x :: c => if Byte.eqb x b then Some c else None | [] => None end.

Definition rfc_fraction (c : bytes) : option (Z * bytes) :=
  match c with
  | p :: d :: _ => if (Byte.eqb p "."%byte || Byte.eqb p ","%byte) && is_digit d
                   then let '(frac, rest) := span_digits (drop 1 c) in Some (nanos 9 (take 9 frac) 0, rest)
                   else Some (0, c)
  | _ => Some (0, c)
  end.

Definition rfc_zone (c : bytes) : option (Z * bytes) :=
  match c with
  | x5a :: rest => Some (0, rest)
  | sign :: c =>
      match ts_digits c 2 with
      | Some (hh, c) =>
          match literal ":"%byte c with
          | Some c =>
              match ts_digits c 2 with
              | Some (mm, rest) =>
                  if (hh >? 24) || (mm >? 60) then None
                  else if Byte.eqb sign "+"%byte then Some ((hh * 60 + mm) * 60, rest)
                  else if Byte.eqb sign "-"%byte then Some (- ((hh * 60 + mm) * 60), rest) else None
              | None => None
              end
          | None => None
          end
      | None => None
      end
  | [] => None
  end.

Definition days_in (year month : Z) : Z :=
  days_before (month + 1) - days_before month + (if isLeap year && (month =? 2) then 1 else 0).

Notation "'let*' x := m 'in' k" := (match m with Some x => k | None => None end) (at level 10, x pattern, m at level 100, k at level 200) : go_scope.

Definition parse_RFC3339 (value : bytes) : option time :=
  let* (year, c) := ts_digits value 4 in
  let* c := literal "-"%byte c in
  let* (month, c) := ts_digits c 2 in
  if (month <? 1) || (month >? 12) then None else
  let* c := literal "-"%byte c in
  let* (day, c) := ts_digits c 2 in
  let* c := literal "T"%byte c in
  let* (hour, c) := hour_digits c in
  if hour >=? 24 then None else
  let* c := literal ":"%byte c in
  let* (min, c) := ts_digits c 2 in
  if min >=? 60 then None else
  let* c := literal ":"%byte c in
  let* (sec, c) := ts_digits c 2 in
  if sec >=? 60 then None else
  let* (nsec, c) := rfc_fraction c in
  let* (offset, c) := rfc_zone c in
  if negb (bytes_eqb c []) then None
  else if (day <? 1) || (day >? days_in year month) then None
  else Some (Date year month day hour min sec nsec offset).

Definition inviteExpired (d : authdb) (login : bytes) (now : time) : aresult bool :=
  let? key := InviteExpiryKey login in
  Ok (match au_config d !! key with
      | None => false
      | Some value => match parse_RFC3339 value with None => true | Some expiry => negb (now <? expiry) end
      end).

(** ** Users: user.go *)
Definition sha1hex (data : bytes) : bytes := hex_encode (sha1_Sum data).
Definition hashPassword (projectCode login password : bytes) : bytes :=
  sha1hex (projectCode ++ bs "/" ++ login ++ bs "/" ++ password).

Definition next_uid (d : authdb) : Z := next_id (map (fun kr => ur_uid (snd kr)) (map_to_list (users d))).

Definition CreateUser (d : authdb) (projectCode login password caps : bytes) : aresult authdb :=
  if bytes_eqb projectCode [] then Panic "auth.CreateUser: projectCode must not be empty"
  else if bytes_eqb login [] then Panic "auth.CreateUser: login must not be empty"
  else
    let pw := hashPassword projectCode login password in
    match users d !! login with
    | Some _ => Err (ErrUserExists login)
    | None =>
        let d := set_users d (<[login := mk_userrow (next_uid d) (Some pw) (Some caps) None]> (users d)) in
        let? key := InviteExpiryKey login in
        Ok (set_au_config d (base.delete key (au_config d)))
    end.

(** A row scanned into a User: a NULL capability string cannot be. *)
Definition scan_user (login : bytes) (r : userrow) : aresult User :=
  match ur_cap r with
  | None => Err (ErrNullCap login)
  | Some cap => Ok (mk_User (ur_uid r) login cap (default [] (ur_info r)))
  end.

Definition GetUser (d : authdb) (login : bytes) : aresult User :=
  match users d !! login with None => Err (ErrUserNotFound login) | Some r => scan_user login r end.

(** ORDER BY login, in SQLite's byte order. *)
Definition by_login (d : authdb) : list (bytes * userrow) :=
  insertion_sort (fun a b => blt (fst a) (fst b)) (map_to_list (users d)).

Fixpoint scan_users (rows : list (bytes * userrow)) : aresult (list User) :=
  match rows with
  | [] => Ok []
  | (login, r) :: rows => let? u := scan_user login r in let? us := scan_users rows in Ok (u :: us)
  end.

Definition ListUsers (d : authdb) : aresult (list User) := scan_users (by_login d).

Definition UpdateCaps (d : authdb) (login caps : bytes) : aresult authdb :=
  if bytes_eqb login [] then Panic "auth.UpdateCaps: login must not be empty"
  else match users d !! login with
       | None => Err (ErrUserNotFound login)
       | Some r => Ok (set_users d (<[login := mk_userrow (ur_uid r) (ur_pw r) (Some caps) (ur_info r)]> (users d)))
       end.

Definition SetPassword (d : authdb) (projectCode login password : bytes) : aresult authdb :=
  if bytes_eqb projectCode [] then Panic "auth.SetPassword: projectCode must not be empty"
  else
    let pw := hashPassword projectCode login password in
    match users d !! login with
    | None => Err (ErrUserNotFound login)
    | Some r => Ok (set_users d (<[login := mk_userrow (ur_uid r) (Some pw) (ur_cap r) (ur_info r)]> (users d)))
    end.

Definition DeleteUser (d : authdb) (login : bytes) : aresult authdb :=
  if bytes_eqb login [] then Panic "auth.DeleteUser: login must not be empty"
  else match users d !! login with
       | None => Err (ErrUserNotFound login)
       | Some _ =>
           let d := set_users d (base.delete login (users d)) in
           let? key := InviteExpiryKey login in
           Ok (set_au_config d (base.delete key (au_config d)))
       end.

(** ** Verification: verify.go *)
Definition reserved_logins : list bytes := [bs "anonymous"; bs "nobody"; bs "developer"; bs "reader"].

(** [length(pw)>0]: SQLite counts characters up to the first NUL. *)
Definition has_password (pw : option bytes) : bool :=
  match pw with Some (c :: _) => negb (Byte.eqb c x00) | _ => false end.

Definition signatureMatches (user nonce signature storedPW projectCode : bytes) : bool :=
  if bytes_eqb (sha1hex (nonce ++ storedPW)) signature then true
  else if len storedPW =? 40 then false
  else bytes_eqb (sha1hex (nonce ++ hashPassword projectCode user storedPW)) signature.

(** [card] is a login card by its fields. *)
Definition VerifyLogin (d : authdb) (projectCode : bytes) (user nonce signature tail : bytes) (now : time) : aresult User :=
  if bytes_eqb projectCode [] then Panic "auth.VerifyLogin: projectCode must not be empty"
  else if negb (NonceCoversTail nonce tail) then Err ErrAuthFailed
  else if bytes_eqb user (bs "nobody") || bytes_eqb user (bs "anonymous") then Ok (mk_User 0 user [] [])
  else match users d !! user with
       | None => Err ErrAuthFailed
       | Some r =>
           if bool_decide (user ∈ reserved_logins) || negb (has_password (ur_pw r)) then Err ErrAuthFailed
           else match scan_user user r with
                | Ok u =>
                    match inviteExpired d (Login u) now with
                    | Ok true => Err ErrAuthFailed
                    | Ok false => if signatureMatches user nonce signature (default [] (ur_pw r)) projectCode then Ok u else Err ErrAuthFailed
                    | Err _ => Err ErrAuthFailed
                    | Panic msg => Panic msg
                    | Diverge => Diverge
                    end
                | Err _ => Err ErrAuthFailed
                | Panic msg => Panic msg
                | Diverge => Diverge
                end
       end.

(** ** The server's side of a login: handler.go *)
Record session_auth := mk_session_auth {
  h_user : bytes; h_caps : bytes; h_authed : bool; h_cloneRead : bool; h_logins : Z; h_receipt : option (Z * bytes) }.

Definition initAuth (d : authdb) : session_auth :=
  let caps := match users d !! bs "nobody" with Some r => default [] (ur_cap r) | None => [] end in
  mk_session_auth (bs "nobody") caps false (CanClone caps) 0 None.

Definition canRead (h : session_auth) : bool := CanRead (h_caps h) || h_cloneRead h.

(** The refusal's text, [None] when the login is accepted. *)
Definition handleLoginCard (d : authdb) (projectCode : bytes) (h : session_auth) (user nonce signature tail : bytes) (now : time)
    : aresult (option string * session_auth) :=
  if bytes_eqb projectCode [] then Ok (Some "login failed", h)
  else match VerifyLogin d projectCode user nonce signature tail now with
       | Err _ => Ok (Some "login failed", h)
       | Panic msg => Panic msg
       | Diverge => Diverge
       | Ok u =>
           Ok (None, mk_session_auth (Login u) (h_caps h ++ Cap u) true (h_cloneRead h) (h_logins h)
                       (if UID u =? 0 then h_receipt h else Some (UID u, nonce)))
       end.

(** The message that breaks the card loop, if any. *)
Definition handleLogin (d : authdb) (projectCode : bytes) (h : session_auth) (user nonce signature tail : bytes) (now : time)
    : aresult (option string * session_auth) :=
  let h := mk_session_auth (h_user h) (h_caps h) (h_authed h) (h_cloneRead h) (h_logins h + 1) (h_receipt h) in
  if h_logins h >? 1 then Ok (Some "multiple login cards", h)
  else handleLoginCard d projectCode h user nonce signature tail now.

(** ** The client's side: sync/auth.go, buildLoginCard of client.go *)
Definition sharedSecret (password login projectCode : bytes) : aresult bytes :=
  if bytes_eqb projectCode [] then Panic "sync.sharedSecret: projectCode must not be empty"
  else Ok (sha1hex (projectCode ++ bs "/" ++ login ++ bs "/" ++ password)).

Definition computeLogin (user password projectCode payload : bytes) : aresult Card :=
  if bytes_eqb user [] then Panic "sync.computeLogin: user must not be empty"
  else
    let nonce := sha1hex payload in
    let? secret := sharedSecret password user projectCode in
    Ok (LoginCard user nonce (sha1hex (nonce ++ secret)) []).

(** Upper-case hex of the 20 bytes drawn. *)
Definition hex_upper (c : byte) : byte := if in_range 97 122 c then zb (bz c - 32) else c.
Definition randomComment (rb : bytes) : Card := CommentCard (map hex_upper (hex_encode rb)).

Inductive login_error := LoginEncode (e : xfer_error) | LoginNoProjectCode | LoginAuth (e : auth_error).

Section Client.
Context `{!Zlib}.

Fixpoint encodeCards (cards : list Card) : xresult bytes :=
  match cards with
  | [] => Ok []
  | c :: cards => let? b := EncodeCard c in let? rest := encodeCards cards in Ok (b ++ rest)
  end.

(** The login card and the cards it signs. *)
Definition buildLoginCard (user password projectCode : bytes) (rb : bytes) (cards : list Card)
    : outcome login_error (Card * list Card) :=
  let signed := cards ++ [randomComment rb] in
  let? payload := wrap_err LoginEncode (encodeCards signed) in
  if bytes_eqb projectCode [] then Err LoginNoProjectCode
  else let? login := wrap_err LoginAuth (computeLogin user password projectCode payload) in Ok (login, signed).
End Client.

(** * What a login proves and what it grants

    Logins from the client's password to the server's capabilities, over the
    messages of the sync codec. *)

(** ** Verification against a specification *)

(** The invite of [user], if there is one, has not expired at [now]. *)
Definition invited (d : authdb) (user : bytes) (now : time) : Prop :=
  forall value, au_config d !! (bs "invite-expire:" ++ user) = Some value ->
  exists expiry, parse_RFC3339 value = Some expiry /\ now < expiry.

(** [user] may log in as [u] with this signature of [nonce]. *)
Inductive may_login (d : authdb) (projectCode user nonce signature : bytes) (now : time) : User -> Prop :=
| may_nobody : user ∈ [bs "nobody"; bs "anonymous"] -> may_login d projectCode user nonce signature now (mk_User 0 user [] [])
| may_account r pw cap : user ∉ reserved_logins -> users d !! user = Some r -> ur_pw r = Some pw -> has_password (Some pw) = true ->
    ur_cap r = Some cap -> invited d user now ->
    signature = sha1hex (nonce ++ pw) \/ len pw <> 40 /\ signature = sha1hex (nonce ++ hashPassword projectCode user pw) ->
    may_login d projectCode user nonce signature now (mk_User (ur_uid r) user cap (default [] (ur_info r))).

Lemma inviteExpired_invited d user now : user <> [] ->
  exists e, inviteExpired d user now = Ok e /\ (e = false <-> invited d user now).
Proof.
  intros Hu. unfold inviteExpired, InviteExpiryKey, invited. rewrite (proj2 (bytes_eqb_neq _ _)) by done. cbn [obind].
  eexists. split; [reflexivity|]. destruct (au_config d !! _) as [value|]; [|split; [intros _ v [=]|done]].
  destruct (parse_RFC3339 value) as [e|] eqn:Ep.
  - split.
    + intros H v [= <-]. exists e. split; [done|]. apply negb_false_iff in H. zbool. lia.
    + intros H. destruct (H value eq_refl) as (e' & [= <-]%(eq_trans (eq_sym Ep)) & Hlt). apply negb_false_iff. by apply Z.ltb_lt.
  - split; [done|]. intros H. destruct (H value eq_refl) as (e' & He & _). congruence.
Qed.

Lemma signatureMatches_spec user nonce signature pw code : signatureMatches user nonce signature pw code = true
  <-> signature = sha1hex (nonce ++ pw) \/ len pw <> 40 /\ signature = sha1hex (nonce ++ hashPassword code user pw).
Proof.
  unfold signatureMatches. destruct (bytes_eqb (sha1hex (nonce ++ pw)) signature) eqn:E1.
  { apply bytes_eqb_eq in E1. split; [by left|done]. }
  apply bytes_eqb_neq in E1. destruct (len pw =? 40) eqn:E2; zbool.
  - split; [done|]. intros [->|[? _]]; [done|lia].
  - rewrite bytes_eqb_eq. split; [intros <-; by right|]. intros [->|[_ ->]]; done.
Qed.

Lemma VerifyLogin_spec d code user nonce signature tail now u : code <> [] -> user <> [] ->
  VerifyLogin d code user nonce signature tail now = Ok u
  <-> NonceCoversTail nonce tail = true /\ may_login d code user nonce signature now u.
Proof.
  intros Hcode Huser. unfold VerifyLogin. rewrite (proj2 (bytes_eqb_neq _ _)) by done.
  destruct (NonceCoversTail nonce tail) eqn:En; cbn [negb]; [|split; [done|by intros []]].
  destruct (bytes_eqb user (bs "nobody") || bytes_eqb user (bs "anonymous")) eqn:Enb.
  { assert (user ∈ [bs "nobody"; bs "anonymous"]) as Hin
      by (apply orb_true_iff in Enb as [->%bytes_eqb_eq | ->%bytes_eqb_eq]; [by left|by right; left]).
    split; [intros [= <-]; split; [done|by constructor]|]. intros [_ []]; [done|]. exfalso.
    apply H. unfold reserved_logins. apply elem_of_cons in Hin as [-> | ->%list_elem_of_singleton]; [right; by left|by left]. }
  apply orb_false_iff in Enb as [E1%bytes_eqb_neq E2%bytes_eqb_neq].
  assert (forall P : Prop, user ∈ [bs "nobody"; bs "anonymous"] -> P) as Hnot
    by (intros P [?|?%list_elem_of_singleton]%elem_of_cons; done).
  destruct (users d !! user) as [r|] eqn:Er; [|split; [done|intros [_ []]; [by apply Hnot|congruence]]].
  destruct (inviteExpired_invited d user now Huser) as (e & He & Hinv).
  split.
  - intros H. split; [done|]. destruct (bool_decide _) eqn:Eres; [done|]. apply bool_decide_eq_false in Eres. cbn [orb] in H.
    destruct (has_password (ur_pw r)) eqn:Ehp; [|done]. cbn [negb] in H. unfold scan_user in H.
    destruct (ur_cap r) as [cap|] eqn:Ec; [|done]. cbn [Login] in H. rewrite He in H. destruct e; [done|].
    destruct (ur_pw r) as [pw|] eqn:Epw; [|done]. cbn [default] in H.
    destruct (signatureMatches _ _ _ _ _) eqn:Es; [|done]. injection H as <-. apply signatureMatches_spec in Es.
    eapply may_account; [done|exact Er|exact Epw|done|done|by apply Hinv|done].
  - intros [_ []]; [by apply Hnot|]. assert (r0 = r) as -> by congruence. rewrite bool_decide_eq_false_2 by done. cbn [orb].
    match goal with H : ur_pw r = Some pw |- _ => rewrite H end.
    match goal with H : has_password _ = true |- _ => rewrite H end. cbn [negb]. unfold scan_user.
    match goal with H : ur_cap r = Some cap |- _ => rewrite H end. cbn [Login]. rewrite He.
    assert (e = false) as -> by by apply Hinv. cbn [default]. by rewrite (proj2 (signatureMatches_spec _ _ _ _ _)).
Qed.

(** ** Invite expiries *)
Definition month_day_ok (leap : bool) (yday : Z) : bool :=
  let '(m, d) := month_of leap yday in d <=? days_before (m + 1) - days_before m + (if leap && (m =? 2) then 1 else 0).

Lemma month_days_ok : all_from 365 0 (month_day_ok false) && all_from 366 0 (month_day_ok true) = true.
Proof. vm_compute. reflexivity. Qed.

Lemma date_of_days_in days y m d : date_of_days days = (y, m, d) -> d <= days_in y m.
Proof.
  unfold date_of_days. intros H.
  assert (Hr : 0 <= days mod 146097 < 146097) by (apply Z.mod_pos_bound; lia).
  destruct (year_of_cycle (days mod 146097)) as [yc yday] eqn:Hy.
  destruct (year_of_cycle_spec _ _ _ Hr Hy) as (Hyc & Hsum & Hyd). cbv zeta in H.
  rewrite <- Z.add_assoc, isLeap_cycle in H. destruct (month_of (isLeap (yc + 1)) yday) as [m' d'] eqn:Hm. injection H as <- <- <-.
  unfold days_in. rewrite isLeap_cycle. pose proof month_days_ok as [H0 H1]%andb_true_iff.
  assert (month_day_ok (isLeap (yc + 1)) yday = true) as Hok.
  { destruct (isLeap (yc + 1)); [eapply all_from_spec; [exact H1|lia]|eapply all_from_spec; [exact H0|lia]]. }
  unfold month_day_ok in Hok. rewrite Hm in Hok. by apply Z.leb_le in Hok.
Qed.

(** Years 0 to 9999, which four digits express. *)
Definition rfc_year (t : time) : bool :=
  let '(y, _, _) := date_of_days (t / ns_per_sec / secs_per_day) in (0 <=? y) && (y <=? 9999).

Lemma literal_cons b c : literal b (b :: c) = Some c.
Proof. unfold literal. by rewrite byte_eqb_refl. Qed.

Lemma hour_digits_pad n rest : 0 <= n < 100 -> hour_digits (low_digits 2 n ++ rest) = Some (n, rest).
Proof. intros. unfold hour_digits. by rewrite ts_digits_app. Qed.

(** What an expiry is written as reads back to the second. *)
Lemma parse_format_RFC3339 t : rfc_year t = true -> parse_RFC3339 (format_RFC3339 t) = Some (t - t mod ns_per_sec).
Proof.
  intros Hok. unfold format_RFC3339, format_seconds. cbv zeta. unfold rfc_year in Hok.
  destruct (date_of_days _) as [[y m] d] eqn:Hdate. zbool.
  destruct (date_of_days_spec _ _ _ _ Hdate) as (Hdays & Hm & Hd). pose proof (date_of_days_in _ _ _ _ Hdate) as Hdin.
  assert (Hs : 0 <= (t / ns_per_sec) mod secs_per_day < secs_per_day) by (by apply Z.mod_pos_bound).
  set (secs := (t / ns_per_sec) mod secs_per_day) in *. unfold secs_per_day in Hs.
  assert (0 <= secs / 3600 <= 23 /\ 0 <= secs mod 3600 / 60 <= 59 /\ 0 <= secs mod 60 <= 59
          /\ secs = (secs / 3600) * 3600 + (secs mod 3600 / 60) * 60 + secs mod 60) as (Hh & Hmi & Hse & Hsum).
  { clearbody secs. Z.to_euclidean_division_equations; lia. }
  unfold pad_signed. rewrite (proj2 (Z.ltb_ge y 0)) by lia. rewrite !pad_dec_small by (simpl; lia). rewrite <- !app_assoc.
  unfold parse_RFC3339. rewrite ts_digits_app by (simpl; lia).
  change (bs "-" ++ ?x) with ("-"%byte :: x). rewrite literal_cons, ts_digits_app by (simpl; lia).
  rewrite (proj2 (orb_false_iff _ _)) by lia. change (bs "-" ++ ?x) with ("-"%byte :: x). rewrite literal_cons, ts_digits_app by (simpl; lia).
  change (bs "T" ++ ?x) with ("T"%byte :: x). rewrite literal_cons, hour_digits_pad by lia.
  replace (secs / 3600 >=? 24) with false by lia. change (bs ":" ++ ?x) with (":"%byte :: x). rewrite literal_cons, ts_digits_app by (simpl; lia).
  replace (secs mod 3600 / 60 >=? 60) with false by lia. change (bs ":" ++ ?x) with (":"%byte :: x). rewrite literal_cons, ts_digits_app by (simpl; lia).
  replace (secs mod 60 >=? 60) with false by lia. change (rfc_fraction (bs "Z")) with (Some (0, bs "Z")). cbv iota.
  change (rfc_zone (bs "Z")) with (Some (0, @nil byte)). cbv iota. cbn [bytes_eqb negb].
  rewrite (proj2 (orb_false_iff _ _)) by lia. f_equal. unfold Date. rewrite Hdays.
  pose proof (Z.div_mod (t / ns_per_sec) secs_per_day ltac:(done)) as E1. fold secs in E1.
  pose proof (Z.div_mod t ns_per_sec ltac:(done)) as E2. unfold secs_per_day in *. lia.
Qed.

(** ** What the client builds *)
Lemma hex_card_token h : h <> [] -> Forall (fun c => is_hex_lower c = true) h -> card_token h = true.
Proof.
  intros Hne Hh. unfold card_token. rewrite (proj2 (bytes_eqb_neq _ _)) by done. apply forallb_forall. intros c Hc%list_elem_of_In.
  rewrite Forall_forall in Hh. specialize (Hh c Hc). revert Hh. by_bytes c.
Qed.

Lemma sha1hex_len data : len (sha1hex data) = 40.
Proof. unfold sha1hex. by rewrite hex_encode_len, sha1_Sum_len. Qed.

Lemma sha1hex_token data : card_token (sha1hex data) = true.
Proof. apply hex_card_token; [|apply hex_encode_lower]. intros E. pose proof (sha1hex_len data) as H. by rewrite E in H. Qed.

Lemma sha1hex_password data : has_password (Some (sha1hex data)) = true.
Proof.
  pose proof (hex_encode_lower (sha1_Sum data)) as H. pose proof (sha1hex_len data) as Hl. unfold sha1hex in *.
  destruct (hex_encode (sha1_Sum data)) as [|c l]; [done|]. inversion H as [|? ? Hc _]; subst. cbn [has_password]. revert Hc. by_bytes c.
Qed.

Lemma randomComment_wf `{!Zlib} rb : card_wf (randomComment rb) = true.
Proof.
  unfold randomComment. cbn [card_wf]. apply forallb_forall. intros c Hc. apply in_map_iff in Hc as (x & <- & Hx%list_elem_of_In).
  pose proof (hex_encode_lower rb) as Hlow. rewrite Forall_forall in Hlow. specialize (Hlow x Hx). revert Hlow. by_bytes x.
Qed.

Lemma encodeCards_wire `{!Zlib} cards : forallb card_wf cards = true -> encodeCards cards = Ok (wire cards).
Proof.
  induction cards as [|c cs IH]; [done|]. cbn [forallb encodeCards]. intros [Hc Hcs]%andb_true_iff.
  rewrite EncodeCard_wire_card by done. cbn [obind]. rewrite IH by done. done.
Qed.

(** ** The properties *)
Section Login.
Context `{HZ : !Zlib} `{HG : !GoGrow}.

(** C18: a login card of a decoded message authenticates exactly the accounts its
    signature allows: its nonce must be the hash of every byte of the body after
    its own line, and then nobody and anonymous enter without capabilities, and an
    account that is not a reserved template, has a password and a capability
    string, and has no expired invite enters as itself when the signature is the
    hash of that nonce and its secret (or the secret its clear password gives). *)
Theorem login_exact (data : bytes) (budget : Z) (m : Message) (user nonce sig hash : bytes) (d : authdb) (code : bytes) (now : time) (u : User)
    (Hb : 0 <= budget) (Hd : decodeMessage data budget = Ok m) (Hin : In (LoginCard user nonce sig hash) (m_Cards m))
    (Hcode : code <> []) (Huser : user <> []) :
  exists raw tail, login_line data raw tail user nonce sig
    /\ (VerifyLogin d code user nonce sig hash now = Ok u
        <-> nonce = sha1hex tail /\ may_login d code user nonce sig now u).
Proof using.
  destruct (login_tail data budget m user nonce sig hash Hb Hd Hin) as (raw & tail & Hl & Hn).
  exists raw, tail. split; [done|]. rewrite VerifyLogin_spec by done. unfold sha1hex. by rewrite Hn.
Qed.

(** C29: the client's login is the server's: an account just created, whose name is
    not a reserved template, is let in, as itself and with its capabilities, by
    the message its client builds with that password, whatever cards it signs and
    whatever came before in the repository. *)
Theorem login_accepted (d d' : authdb) (code user password caps rb : bytes) (cards : list Card) (now : time)
    (Hd : CreateUser d code user password caps = Ok d') (Hres : user ∉ reserved_logins)
    (Hwf : forallb card_wf cards = true) (Hrb : len rb = 20) (Hinfl : total_inflated (map received cards) <= MaxCFileInflateBytes) :
  exists login signed raw m nonce sig hash rest, buildLoginCard user password code rb cards = Ok (login, signed)
    /\ EncodeUncompressed (cards_message (login :: signed)) = Ok raw /\ DecodeUncompressed raw = Ok m
    /\ m_Cards m = LoginCard user nonce sig hash :: rest
    /\ VerifyLogin d' code user nonce sig hash now = Ok (mk_User (next_uid d) user caps []).
Proof using.
  unfold CreateUser in Hd. destruct (bytes_eqb code []) eqn:Ec; [done|]. destruct (bytes_eqb user []) eqn:Eu; [done|].
  destruct (users d !! user) eqn:Er; [done|]. unfold InviteExpiryKey in Hd. rewrite Eu in Hd. cbn [obind] in Hd. injection Hd as <-.
  set (signed := cards ++ [randomComment rb]). assert (forallb card_wf signed = true) as Hs.
  { unfold signed. rewrite forallb_app, Hwf. change (true && (card_wf (randomComment rb) && true) = true). by rewrite randomComment_wf. }
  set (nonce := sha1hex (wire signed)). set (sig := sha1hex (nonce ++ hashPassword code user password)).
  assert (buildLoginCard user password code rb cards = Ok (LoginCard user nonce sig [], signed)) as Hbuild.
  { unfold buildLoginCard. fold signed. rewrite encodeCards_wire by done. cbn [wrap_err obind]. rewrite Ec.
    unfold computeLogin, sharedSecret. rewrite Eu, Ec. done. }
  assert (forallb card_wf (LoginCard user nonce sig [] :: signed) = true) as Hall.
  { cbn [forallb card_wf]. unfold nonce, sig. rewrite !sha1hex_token, Hs. destruct user; [done|]. done. }
  assert (total_inflated (map received (LoginCard user nonce sig [] :: signed)) <= MaxCFileInflateBytes) as Hti.
  { cbn [map total_inflated fold_right received inflated_bytes]. unfold signed. rewrite map_app, fold_right_app. exact Hinfl. }
  exists (LoginCard user nonce sig []), signed, (wire (LoginCard user nonce sig [] :: signed)),
    (cards_message (received_cards (LoginCard user nonce sig [] :: signed))), nonce, sig, (sha1hex (wire signed)), (received_cards signed).
  split_and!; [done|by rewrite EncodeUncompressed_wire|by apply DecodeUncompressed_wire|done|].
  apply VerifyLogin_spec; [by apply bytes_eqb_neq|by apply bytes_eqb_neq|]. split.
  - unfold NonceCoversTail. rewrite bytes_eqb_refl, (proj2 (bytes_eqb_neq _ _)); [done|].
    intros E. pose proof (sha1hex_len (wire signed)) as Hl. by rewrite E in Hl.
  - match goal with |- may_login ?db _ _ _ _ _ _ => pose proof (may_account db code user nonce sig now
      (mk_userrow (next_uid d) (Some (hashPassword code user password)) (Some caps) None) (hashPassword code user password) caps) as H end.
    cbn [ur_uid ur_info default] in H. apply H; [done| |done|apply sha1hex_password|done| |by left].
    + cbn [users set_au_config set_users]. apply lookup_insert_eq.
    + intros v Hv. cbn [au_config set_au_config set_users] in Hv. by rewrite lookup_delete_eq in Hv.
Qed.
End Login.

(** ** What logins grant *)

(** The login cards of one request, in order, until one breaks the card loop. *)
Fixpoint handle_logins (d : authdb) (code : bytes) (h : session_auth) (cards : list (bytes * bytes * bytes * bytes)) (now : time)
    : aresult (option string * session_auth) :=
  match cards with
  | [] => Ok (None, h)
  | (user, nonce, sig, tail) :: cards =>
      let? (msg, h) := handleLogin d code h user nonce sig tail now in
      match msg with Some _ => Ok (msg, h) | None => handle_logins d code h cards now end
  end.

Lemma VerifyLogin_returns d code user nonce sig tail now : code <> [] -> user <> [] ->
  returns (VerifyLogin d code user nonce sig tail now).
Proof.
  intros Hc Hu. unfold VerifyLogin. rewrite (proj2 (bytes_eqb_neq _ _)) by done. destruct (negb _); [done|].
  destruct (_ || _); [done|]. destruct (users d !! user) as [r|]; [|done]. destruct (_ || _); [done|].
  unfold scan_user. destruct (ur_cap r); [|done]. cbn [Login].
  destruct (inviteExpired_invited d user now Hu) as (e & -> & _). destruct e; [done|]. by destruct (signatureMatches _ _ _ _ _).
Qed.

(** The session after the login of [u], with [logins] login cards seen. *)
Definition logged_in (d : authdb) (u : User) (nonce : bytes) (logins : Z) : session_auth :=
  mk_session_auth (Login u) (h_caps (initAuth d) ++ Cap u) true (CanClone (h_caps (initAuth d))) logins
    (if UID u =? 0 then None else Some (UID u, nonce)).

(** The session of a request whose login was refused: nobody's. *)
Definition refused_session (d : authdb) : session_auth :=
  mk_session_auth (bs "nobody") (h_caps (initAuth d)) false (CanClone (h_caps (initAuth d))) 1 None.

(** What the login cards of a request answer and leave. *)
Inductive granted (d : authdb) (code : bytes) (now : time) :
    list (bytes * bytes * bytes * bytes) -> option string -> session_auth -> Prop :=
| granted_none : granted d code now [] None (initAuth d)
| granted_refused user nonce sig tail cards :
    code = [] \/ (exists e, VerifyLogin d code user nonce sig tail now = Err e) ->
    granted d code now ((user, nonce, sig, tail) :: cards) (Some "login failed"%string) (refused_session d)
| granted_login user nonce sig tail u :
    code <> [] -> VerifyLogin d code user nonce sig tail now = Ok u ->
    granted d code now [(user, nonce, sig, tail)] None (logged_in d u nonce 1)
| granted_second user nonce sig tail u card cards :
    code <> [] -> VerifyLogin d code user nonce sig tail now = Ok u ->
    granted d code now ((user, nonce, sig, tail) :: card :: cards) (Some "multiple login cards"%string) (logged_in d u nonce 2).

Lemma handle_logins_first d code user nonce sig tail cards now :
  handle_logins d code (initAuth d) ((user, nonce, sig, tail) :: cards) now =
  if bytes_eqb code [] then Ok (Some "login failed"%string, refused_session d)
  else match VerifyLogin d code user nonce sig tail now with
       | Err _ => Ok (Some "login failed"%string, refused_session d)
       | Panic msg => Panic msg
       | Diverge => Diverge
       | Ok u => match cards with
                 | [] => Ok (None, logged_in d u nonce 1)
                 | _ => Ok (Some "multiple login cards"%string, logged_in d u nonce 2)
                 end
       end.
Proof.
  cbn [handle_logins]. unfold handleLogin. cbn [h_logins initAuth]. change (0 + 1 >? 1) with false. cbv iota. unfold handleLoginCard.
  destruct (bytes_eqb code []); [done|]. destruct (VerifyLogin d code user nonce sig tail now) as [u| | |]; [|done..].
  cbn [obind]. by destruct cards as [|[[[user2 nonce2] sig2] tail2] cards].
Qed.

(** C28: the login cards of a request answer exactly this: without one, the
    session has nobody's capabilities; a first card that is refused (no project
    code, or its verification fails) breaks the loop and leaves nobody's session;
    a first card that is verified gives the session the account's login, its
    capabilities after nobody's, and, for an account with a row, the account and
    the nonce as the receipt of what is stored; a second card breaks the loop and
    grants nothing.  Read by Clone stays what nobody's capabilities made it.
    Where every card names a login the request is answered. *)
Theorem login_grants (d : authdb) (code : bytes) (cards : list (bytes * bytes * bytes * bytes)) (now : time) :
  (forall msg h, handle_logins d code (initAuth d) cards now = Ok (msg, h) <-> granted d code now cards msg h)
  /\ (Forall (fun '(user, _, _, _) => user <> []) cards ->
       exists msg h, handle_logins d code (initAuth d) cards now = Ok (msg, h)).
Proof.
  destruct cards as [|[[[user nonce] sig] tail] cards].
  { split; [|by eexists _, _]. intros msg h. split; [intros [= <- <-]; constructor|by inversion 1]. }
  rewrite handle_logins_first. destruct (bytes_eqb code []) eqn:Ec.
  { apply bytes_eqb_eq in Ec. split; [|by eexists _, _]. intros msg h. split.
    - intros [= <- <-]. apply granted_refused. by left.
    - by inversion 1. }
  apply bytes_eqb_neq in Ec. split.
  - intros msg h. split.
    + destruct (VerifyLogin d code user nonce sig tail now) as [u|e| |] eqn:Ev; [|intros [= <- <-]; apply granted_refused; right; by eexists|done..].
      destruct cards; intros [= <- <-]; [by apply granted_login|by apply granted_second].
    + inversion 1; subst; try match goal with H : _ \/ _ |- _ => destruct H as [?|[e H]] end;
        try match goal with H : VerifyLogin _ _ _ _ _ _ _ = _ |- _ => rewrite H end; done.
  - intros [Hu _]%Forall_cons. pose proof (VerifyLogin_returns d code user nonce sig tail now Ec Hu).
    destruct (VerifyLogin _ _ _ _ _ _ _); [|by eexists _, _|done..]. destruct cards; by eexists _, _.
Qed.

(** An invite admits its login exactly until the second its expiry falls in,
    for expiries of the years 0 to 9999, and no other login's changes; creating
    an account, or deleting one, leaves no expiry of an earlier account of that
    login behind. *)
Theorem invite_expiry (d d' : authdb) (user : bytes) (expiry now : time)
    (Hset : SetInviteExpiry d user expiry = Ok d') (Hy : rfc_year expiry = true) :
  inviteExpired d' user now = Ok (expiry - expiry mod ns_per_sec <=? now)
  /\ (forall other, other <> user -> inviteExpired d' other now = inviteExpired d other now)
  /\ (forall code password caps d2, CreateUser d' code user password caps = Ok d2 -> inviteExpired d2 user now = Ok false)
  /\ (forall d2, DeleteUser d' user = Ok d2 -> inviteExpired d2 user now = Ok false /\ users d2 !! user = None).
Proof.
  unfold SetInviteExpiry, InviteExpiryKey in Hset. destruct (bytes_eqb user []) eqn:Eu; [done|]. cbn [obind] in Hset. injection Hset as <-.
  set (key := bs "invite-expire:" ++ user). assert (forall u, u <> user -> key <> bs "invite-expire:" ++ u) as Hkey
    by (intros u Hu E; apply Hu; symmetry; by eapply app_inv_head).
  assert (forall u c, inviteExpired (mk_authdb u (base.delete key c)) user now = Ok false) as Hcleared.
  { intros u c. unfold inviteExpired, InviteExpiryKey. rewrite Eu. cbn [obind au_config]. by rewrite lookup_delete_eq. }
  split_and!.
  - unfold inviteExpired, InviteExpiryKey. rewrite Eu. cbn [obind au_config set_au_config]. rewrite lookup_insert_eq.
    rewrite parse_format_RFC3339 by done. do 2 f_equal. rewrite Z.leb_antisym. done.
  - intros other Ho. unfold inviteExpired, InviteExpiryKey. destruct (bytes_eqb other []); [done|]. cbn [obind au_config set_au_config].
    by rewrite lookup_insert_ne by by apply Hkey.
  - intros code password caps d2 H. unfold CreateUser in H. destruct (bytes_eqb code []); [done|]. rewrite Eu in H.
    destruct (users _ !! user); [done|]. unfold InviteExpiryKey in H. rewrite Eu in H. cbn [obind] in H. injection H as <-. apply Hcleared.
  - intros d2 H. unfold DeleteUser in H. rewrite Eu in H. destruct (users _ !! user); [|done]. unfold InviteExpiryKey in H. rewrite Eu in H.
    cbn [obind] in H. injection H as <-. split; [apply Hcleared|]. cbn [users set_au_config set_users]. apply lookup_delete_eq.
Qed.

(** ** A login *)
Definition demo_code : bytes := bs "c0de".
Definition demo_db : authdb :=
  match CreateUser (mk_authdb ∅ ∅) demo_code (bs "alice") (bs "secret") (bs "oi") with Ok d => d | _ => mk_authdb ∅ ∅ end.
Definition demo_body : bytes := bs "pull 0123 4567" ++ NL.
Definition demo_nonce : bytes := sha1hex demo_body.
Definition demo_sig : bytes := sha1hex (demo_nonce ++ hashPassword demo_code (bs "alice") (bs "secret")).
Definition demo_request : bytes := bs "login alice " ++ demo_nonce ++ bs " " ++ demo_sig ++ NL ++ demo_body.
Definition demo_alice : User := mk_User 1 (bs "alice") (bs "oi") [].

Lemma login_exact_witness : exists m, decodeMessage demo_request 1000 = Ok m
  /\ VerifyLogin demo_db demo_code (bs "alice") demo_nonce demo_sig demo_nonce 0 = Ok demo_alice
  /\ exists raw tail, login_line demo_request raw tail (bs "alice") demo_nonce demo_sig
       /\ (VerifyLogin demo_db demo_code (bs "alice") demo_nonce demo_sig demo_nonce 0 = Ok demo_alice
           <-> demo_nonce = sha1hex tail /\ may_login demo_db demo_code (bs "alice") demo_nonce demo_sig 0 demo_alice).
Proof.
  exists (cards_message [LoginCard (bs "alice") demo_nonce demo_sig demo_nonce; PullCard (bs "0123") (bs "4567")]).
  assert (decodeMessage demo_request 1000 = Ok (cards_message [LoginCard (bs "alice") demo_nonce demo_sig demo_nonce; PullCard (bs "0123") (bs "4567")])) as Hd
    by (vm_compute; reflexivity).
  split; [exact Hd|]. split; [vm_compute; reflexivity|].
  apply (login_exact demo_request 1000 _ (bs "alice") demo_nonce demo_sig demo_nonce demo_db demo_code 0 demo_alice ltac:(lia) Hd (or_introl eq_refl)); done.
Defined.

Lemma login_accepted_witness :
  exists login signed raw m nonce sig hash rest, buildLoginCard (bs "alice") (bs "secret") demo_code (repeat x2a 20) [PullCard (bs "0123") (bs "4567")] = Ok (login, signed)
    /\ EncodeUncompressed (cards_message (login :: signed)) = Ok raw /\ DecodeUncompressed raw = Ok m
    /\ m_Cards m = LoginCard (bs "alice") nonce sig hash :: rest
    /\ VerifyLogin demo_db demo_code (bs "alice") nonce sig hash 0 = Ok (mk_User (next_uid (mk_authdb ∅ ∅)) (bs "alice") (bs "oi") []).
Proof.
  apply (login_accepted (mk_authdb ∅ ∅) demo_db demo_code (bs "alice") (bs "secret") (bs "oi") (repeat x2a 20) [PullCard (bs "0123") (bs "4567")] 0).
  - vm_compute. reflexivity.
  - eapply bool_decide_eq_true_1. vm_compute. reflexivity.
  - reflexivity.
  - reflexivity.
  - vm_compute. discriminate.
Defined.

Lemma login_grants_witness : exists msg h,
  handle_logins demo_db demo_code (initAuth demo_db) [(bs "alice", demo_nonce, demo_sig, demo_nonce); (bs "alice", demo_nonce, demo_sig, demo_nonce)] 0 = Ok (msg, h)
  /\ h_caps h = bs "oi" /\ h_receipt h = Some (1, demo_nonce) /\ msg = Some "multiple login cards"%string
  /\ granted demo_db demo_code 0 [(bs "alice", demo_nonce, demo_sig, demo_nonce); (bs "alice", demo_nonce, demo_sig, demo_nonce)] msg h.
Proof.
  exists (Some "multiple login cards"%string), (mk_session_auth (bs "alice") (bs "oi") true false 2 (Some (1, demo_nonce))).
  assert (handle_logins demo_db demo_code (initAuth demo_db) [(bs "alice", demo_nonce, demo_sig, demo_nonce); (bs "alice", demo_nonce, demo_sig, demo_nonce)] 0
    = Ok (Some "multiple login cards"%string, mk_session_auth (bs "alice") (bs "oi") true false 2 (Some (1, demo_nonce)))) as H by (vm_compute; reflexivity).
  split; [exact H|]. do 3 (split; [reflexivity|]). exact (proj1 (proj1 (login_grants _ _ _ _) _ _) H).
Defined.

Definition demo_expiry : time := Date 2030 6 30 12 0 0 500 0.
Definition demo_invited : authdb := match SetInviteExpiry demo_db (bs "alice") demo_expiry with Ok d => d | _ => demo_db end.

Lemma invite_expiry_witness : inviteExpired demo_invited (bs "alice") (demo_expiry - 500) = Ok (demo_expiry - demo_expiry mod ns_per_sec <=? demo_expiry - 500)
  /\ (forall other, other <> bs "alice" -> inviteExpired demo_invited other (demo_expiry - 500) = inviteExpired demo_db other (demo_expiry - 500))
  /\ (forall code password caps d2, CreateUser demo_invited code (bs "alice") password caps = Ok d2 -> inviteExpired d2 (bs "alice") (demo_expiry - 500) = Ok false)
  /\ (forall d2, DeleteUser demo_invited (bs "alice") = Ok d2 -> inviteExpired d2 (bs "alice") (demo_expiry - 500) = Ok false /\ users d2 !! bs "alice" = None).
Proof. apply (invite_expiry demo_db demo_invited (bs "alice") demo_expiry (demo_expiry - 500)); vm_compute; reflexivity. Defined.
