(* ===== verification/Tree.v ===== *)
(** * Check-in file sets: src/internal/manifest/tree.go, files.go,
    parsed_memo.go, and the manifest readers they call

    The walk of a tree manifest with its explicit stack, the lookup of one name,
    and the enumeration seam over flat, delta and tree manifests.  The cache is
    nil, as [ListFiles] and [LookupFile] pass it; the resolution of a
    sub-manifest is a parameter of the walk, and [loader_of] gives it from a
    store. *)

From stdpp Require Import gmap.
From S2P Require Import Prelude GoMap GoStd GoCrypto Hash Zlib Deck Legality Parse Store Content.

Inductive fault := FErrorf (format : string) (args : list fmt_arg) | FStore (e : store_error) | FDeck (e : deck_error).
Arguments FErrorf format%_string args.

(** [SubmanifestError] is its two forms, missing and at fault; the others are
    errors the readers add. *)
Inductive tree_error :=
| SubMissing (uuid : bytes)
| SubFault (uuid : bytes) (reason : fault)
| ErrRead (reason : fault)
| ErrWrap (format : string) (e : tree_error).
Arguments ErrWrap format%_string e.
Abbreviation tresult := (outcome tree_error).

Definition maxTreeDepth : Z := 16.
Definition maxTreeNodes : Z := Z.shiftl 1 20.

Fixpoint MissingSubmanifest (e : tree_error) : option bytes :=
  match e with
  | SubMissing uuid => Some uuid
  | ErrWrap _ e => MissingSubmanifest e
  | _ => None
  end.

Definition treeFault {A} (uuid : bytes) (format : string) (args : list fmt_arg) : tresult A :=
  Err (SubFault uuid (FErrorf format args)).

Definition isTree (d : Deck) : bool := bool_decide (d_Type d = Checkin) && (len (d_S d) >? 0).

(** [FileFilter]. *)
Record FileFilter := mk_FileFilter { ff_Covers : bytes -> bool; ff_MayCover : bytes -> bytes -> bool }.

(** A frame's S run from its cursor on: the cards before it are not read again. *)
Record treeFrame := mk_treeFrame { fr_rid : Z; fr_cards : list SubmanifestCard; fr_limit : bytes }.

(** The top of the stack comes first; no last name is [hasLast] unset. *)
Record treeWalk := mk_treeWalk {
  w_resolved : Z; w_stack : list treeFrame; w_last : option bytes; w_files : list FileCard }.

Section Walk.
Context (resolve : bytes -> tresult (Deck * Z)).

(** ** The loader: the count of resolutions, and the node. *)
Definition load (resolved : Z) (uuid : bytes) : Z * tresult (Deck * Z) :=
  if bytes_eqb uuid [] then (resolved, Panic "manifest.subtreeLoader.load: uuid must not be empty")
  else if resolved >=? maxTreeNodes
  then (resolved, treeFault uuid "the tree resolves more than %d sub-manifests" [AInt maxTreeNodes])
  else (resolved + 1, resolve uuid).

(** ** The walk *)
Section Filtered.
Context (filter : option FileFilter) (skipMissing : option (bytes -> bool)).

(** [name] is not after the last name emitted. *)
Definition behind (name : bytes) (last : option bytes) : option bytes :=
  match last with
  | Some l => if Compare name l <=? 0 then Some l else None
  | None => None
  end.

Definition covered (name : bytes) : bool := match filter with None => true | Some f => ff_Covers f name end.
Definition may_cover (first limit : bytes) : bool := match filter with None => true | Some f => ff_MayCover f first limit end.

Fixpoint emit_files (card : SubmanifestCard) (fs : list FileCard) (last : option bytes) (files : list FileCard)
    : tresult (option bytes * list FileCard) :=
  match fs with
  | [] => Ok (last, files)
  | f :: fs =>
      match behind (f_Name f) last with
      | Some l => treeFault (s_UUID card) "file %q does not follow %q" [AStr (f_Name f); AStr l]
      | None => emit_files card fs (Some (f_Name f)) (if covered (f_Name f) then files ++ [f] else files)
      end
  end.

Definition emitLeaf (w : treeWalk) (card : SubmanifestCard) (leaf : Deck) : tresult treeWalk :=
  match d_F leaf with
  | [] => Panic "index out of range"
  | f :: _ =>
      if negb (bytes_eqb (f_Name f) (s_Name card))
      then treeFault (s_UUID card) "S-card %q names a leaf starting at %q" [AStr (s_Name card); AStr (f_Name f)]
      else
        let? (last, files) := emit_files card (d_F leaf) (w_last w) (w_files w) in
        Ok (mk_treeWalk (w_resolved w) (w_stack w) last files)
  end.

(** What a resolved sub-manifest does to the walk: its files, or a frame. *)
Definition enter (w : treeWalk) (card : SubmanifestCard) (limit : bytes) (sub : Deck) (rid : Z) : tresult treeWalk :=
  if existsb (fun frame => fr_rid frame =? rid) (w_stack w)
  then treeFault (s_UUID card) "the reference closes a cycle" []
  else if len (d_F sub) >? 0 then emitLeaf w card sub
  else match d_S sub with
       | [] => Panic "index out of range"
       | first :: _ =>
           if negb (bytes_eqb (s_Name first) (s_Name card))
           then treeFault (s_UUID card) "S-card %q names a subtree starting at %q" [AStr (s_Name card); AStr (s_Name first)]
           else Ok (mk_treeWalk (w_resolved w) (mk_treeFrame rid (d_S sub) limit :: w_stack w) (w_last w) (w_files w))
       end.

Definition skips (e : tree_error) : bool :=
  match MissingSubmanifest e, skipMissing with Some uuid, Some skip => skip uuid | _, _ => false end.

Definition step (w : treeWalk) : tresult treeWalk :=
  match w_stack w with
  | [] => Panic "index out of range"
  | mk_treeFrame _ [] _ :: below => Ok (mk_treeWalk (w_resolved w) below (w_last w) (w_files w))
  | mk_treeFrame rid (card :: rest) bound :: below =>
      let stack := mk_treeFrame rid rest bound :: below in
      match behind (s_Name card) (w_last w) with
      | Some l => treeFault (s_UUID card) "S-card %q does not follow %q" [AStr (s_Name card); AStr l]
      | None =>
          let limit := match rest with next :: _ => s_Name next | [] => bound end in
          if negb (may_cover (s_Name card) limit) then Ok (mk_treeWalk (w_resolved w) stack (w_last w) (w_files w))
          else if len stack >? maxTreeDepth
          then treeFault (s_UUID card) "deeper than %d sub-manifests" [AInt maxTreeDepth]
          else
            let '(n, r) := load (w_resolved w) (s_UUID card) in
            let w := mk_treeWalk n stack (w_last w) (w_files w) in
            match r with
            | Ok (sub, rid) => enter w card limit sub rid
            | Err e => if skips e then Ok w else Err e
            | Panic msg => Panic msg
            | Diverge => Diverge
            end
      end
  end.

(** The loop's measure: the resolutions left, then the cards and frames left. *)
Definition work (w : treeWalk) : nat := sum_list (map (fun fr => S (length (fr_cards fr))) (w_stack w)).

Fixpoint walk_loop (budget : nat) : nat -> treeWalk -> tresult treeWalk :=
  fix steps (todo : nat) (w : treeWalk) : tresult treeWalk :=
    match w_stack w with
    | [] => Ok w
    | _ =>
        match todo with
        | O => Diverge
        | S todo =>
            let? w' := step w in
            if w_resolved w' =? w_resolved w then steps todo w'
            else match budget with
                 | O => Diverge
                 | S budget => walk_loop budget (work w') w'
                 end
        end
    end.

Definition start (cards : list SubmanifestCard) : treeWalk := mk_treeWalk 0 [mk_treeFrame 0 cards []] None [].

Definition run_walk (cards : list SubmanifestCard) : tresult treeWalk :=
  walk_loop (Z.to_nat maxTreeNodes) (work (start cards)) (start cards).
End Filtered.

Definition walkTreeFiltered (d : Deck) (filter : option FileFilter) : tresult (list FileCard) :=
  if negb (isTree d) then Panic "manifest.walkTree: d must be a tree manifest"
  else
    let? w := run_walk filter None (d_S d) in
    match w_files w, filter with
    | [], None => Panic "manifest.walkTree: a tree enumerated no files"
    | files, _ => Ok files
    end.

Definition walkTree (d : Deck) : tresult (list FileCard) := walkTreeFiltered d None.

(** ** Looking one name up *)
Fixpoint scard_search (fuel : nat) (cards : list SubmanifestCard) (name : bytes) (lo hi : Z) : tresult Z :=
  if lo <? hi then
    match fuel with
    | O => Diverge
    | S fuel =>
        let mid := lo + Z.quot (hi - lo) 2 in
        let? c := elem_at cards mid in
        if Compare (s_Name c) name <=? 0 then scard_search fuel cards name (mid + 1) hi
        else scard_search fuel cards name lo mid
    end
  else Ok lo.

Definition lastSCardAtOrBefore (cards : list SubmanifestCard) (name : bytes) : tresult (option SubmanifestCard) :=
  let? lo := scard_search (length cards) cards name 0 (len cards) in
  if lo =? 0 then Ok None else let? c := elem_at cards (lo - 1) in Ok (Some c).

(** [sort.Search]: the least index at which [f] holds, for a monotone [f]. *)
Fixpoint search (fuel : nat) (f : Z -> tresult bool) (i j : Z) : tresult Z :=
  if i <? j then
    match fuel with
    | O => Diverge
    | S fuel =>
        let h := Z.shiftr (i + j) 1 in
        let? b := f h in
        if negb b then search fuel f (h + 1) j else search fuel f i h
    end
  else Ok i.
Definition sort_Search (n : Z) (f : Z -> tresult bool) : tresult Z := search (Z.to_nat n) f 0 n.

Definition findFileCard (cards : list FileCard) (name : bytes) : tresult (option FileCard) :=
  let? i := sort_Search (len cards) (fun i => let? c := elem_at cards i in Ok (Compare (f_Name c) name >=? 0)) in
  if i <? len cards then
    let? c := elem_at cards i in Ok (if bytes_eqb (f_Name c) name then Some c else None)
  else Ok None.

Fixpoint lookup_loop (levels : nat) (resolved : Z) (cards : list SubmanifestCard) (name : bytes) : tresult (option FileCard) :=
  match levels with
  | O =>
      let? c := elem_at cards 0 in
      treeFault (s_UUID c) "lookup of %q descends deeper than %d" [AStr name; AInt maxTreeDepth]
  | S levels =>
      let? card := lastSCardAtOrBefore cards name in
      match card with
      | None => Ok None
      | Some card =>
          let '(resolved, r) := load resolved (s_UUID card) in
          let? (sub, _) := r in
          if len (d_F sub) >? 0 then findFileCard (d_F sub) name
          else lookup_loop levels resolved (d_S sub) name
      end
  end.

Definition lookupTree (d : Deck) (name : bytes) : tresult (option FileCard) :=
  if negb (isTree d) then Panic "manifest.lookupTree: d must be a tree manifest"
  else lookup_loop (Z.to_nat maxTreeDepth) 0 (d_S d) name.
End Walk.

(** ** Reading manifests from a store *)
Record FileEntry := mk_FileEntry { fe_Name : bytes; fe_UUID : bytes; fe_Perm : bytes }.

(** One of a delta's own cards in [mergeDeltaCards]'s map. *)
Definition overlay (byName : gmap bytes FileCard) (f : FileCard) : gmap bytes FileCard :=
  if empty (f_UUID f) then base.delete (f_Name f) byName else <[f_Name f := f]> byName.

Section Files.
Context `{ZL : !Zlib} `{S3 : !Sha3} `{GS : !GoSort} (growslice : Z -> Z -> Z).

Definition mergeDeltaCards (baseCards own : list FileCard) : list FileCard :=
  let byName := fold_left (fun m f => if empty (f_UUID f) then m else <[f_Name f := f]> m) baseCards (∅ : gmap bytes FileCard) in
  let byName := fold_left overlay own byName in
  sort_slice file_less (map snd (map_to_list byName)).

Definition fCardsToEntries (fCards : list FileCard) : list FileEntry :=
  sort_slice (fun x y => Compare (fe_Name x) (fe_Name y) <? 0)
    (map (fun f => mk_FileEntry (f_Name f) (f_UUID f) (f_Perm f)) fCards).

Definition fileCardEntry (card : FileCard) : option FileEntry :=
  if empty (f_UUID card) then None else Some (mk_FileEntry (f_Name card) (f_UUID card) (f_Perm card)).

Section Store.
Context (s : store).

Definition from_store {A} (m : sresult A) : tresult A := wrap_err (fun e => ErrRead (FStore e)) m.
Definition from_deck {A} (m : result A) : tresult A := wrap_err (fun e => ErrRead (FDeck e)) m.
Definition failed {A} (format : string) (args : list fmt_arg) : tresult A := Err (ErrRead (FErrorf format args)).

(** [subtreeLoader.load] past its count. *)
Definition loader_of (uuid : bytes) : tresult (Deck * Z) :=
  let? rid := from_store (CheckAvailableByUUID s uuid) in
  match rid with
  | None => Err (SubMissing uuid)
  | Some rid =>
      let? data := wrap_err (fun e => SubFault uuid (FStore e)) (Expand growslice s rid) in
      let? d := wrap_err (fun e => SubFault uuid (FDeck e)) (Parse (Some data)) in
      if negb (bool_decide (d_Type d = Submanifest)) then treeFault uuid "not a sub-manifest" []
      else Ok (d, rid)
  end.

Definition GetManifest (rid : Z) : tresult Deck :=
  if rid <=? 0 then Panic "manifest.GetManifest: rid must be positive"
  else
    let? data := wrap_err (fun e => ErrWrap "manifest.GetManifest: %w" (ErrRead (FStore e))) (Expand growslice s rid) in
    from_deck (Parse (Some data)).

Definition parseManifestAt (rid : Z) : tresult Deck :=
  let? data := wrap_err (fun e => ErrWrap "expand manifest rid=%d: %w" (ErrRead (FStore e))) (Expand growslice s rid) in
  if len data =? 0 then failed "manifest rid=%d is empty" [AInt rid]
  else wrap_err (fun e => ErrWrap "parse manifest rid=%d: %w" (ErrRead (FDeck e))) (Parse (Some data)).

Definition loadBaseline (d : Deck) : tresult Deck :=
  if empty (d_B d) then Panic "manifest.loadBaseline: d has no B card"
  else
    let? rid := from_store (CheckAvailableByUUID s (d_B d)) in
    match rid with
    | None => failed "baseline %s not found" [AStr (d_B d)]
    | Some rid =>
        let? b := wrap_err (ErrWrap "load baseline: %w") (parseManifestAt rid) in
        if negb (bool_decide (d_Type b = Checkin)) then failed "baseline %s is not a check-in manifest" [AStr (d_B d)]
        else Ok b
    end.

Definition slice_error : string := "a sub-manifest is a slice of a check-in, not a check-in".

Definition baselineFileCardsFiltered (d : Deck) (filter : option FileFilter) : tresult (list FileCard) :=
  if isTree d then walkTreeFiltered loader_of d filter else Ok (d_F d).

Definition checkinFileCardsFiltered (d : Deck) (filter : option FileFilter) : tresult (list FileCard) :=
  if bool_decide (d_Type d = Submanifest) then failed slice_error []
  else if empty (d_B d) then baselineFileCardsFiltered d filter
  else
    let? b := loadBaseline d in
    let? cards := baselineFileCardsFiltered b filter in
    Ok (mergeDeltaCards cards (d_F d)).

Definition checkinFileCards (d : Deck) : tresult (list FileCard) := checkinFileCardsFiltered d None.

Definition ownFileCards (d : Deck) : tresult (list FileCard) :=
  if bool_decide (d_Type d = Submanifest) then failed slice_error []
  else baselineFileCardsFiltered d None.

Definition ListFiles (rid : Z) : tresult (list FileEntry) :=
  let? d := wrap_err (ErrWrap "manifest.ListFiles: %w") (GetManifest rid) in
  let? cards := wrap_err (ErrWrap "manifest.ListFiles: %w") (checkinFileCards d) in
  Ok (fCardsToEntries cards).

Definition ListFilesFiltered (rid : Z) (filter : option FileFilter) : tresult (list FileEntry) :=
  match filter with
  | None => ListFiles rid
  | Some f =>
      let? d := wrap_err (ErrWrap "manifest.ListFilesFiltered: %w") (GetManifest rid) in
      if bool_decide (d_Type d = Submanifest)
      then Err (ErrWrap "manifest.ListFilesFiltered: %w" (ErrRead (FErrorf slice_error [])))
      else
        let? cards := wrap_err (ErrWrap "manifest.ListFilesFiltered: %w") (checkinFileCardsFiltered d filter) in
        Ok (fCardsToEntries (List.filter (fun c => ff_Covers f (f_Name c)) cards))
  end.

Definition lookupFileCard (d : Deck) (name : bytes) : tresult (option FileCard) :=
  if bool_decide (d_Type d = Submanifest) then failed slice_error []
  else if isTree d then lookupTree loader_of d name
  else
    let? own := findFileCard (d_F d) name in
    match own with
    | Some card => Ok (Some card)
    | None =>
        if empty (d_B d) then Ok None
        else
          let? b := loadBaseline d in
          if isTree b then lookupTree loader_of b name else findFileCard (d_F b) name
    end.

Definition LookupFile (rid : Z) (name : bytes) : tresult (option FileEntry) :=
  if bytes_eqb name [] then Panic "manifest.LookupFile: name must not be empty"
  else
    let? d := wrap_err (ErrWrap "manifest.LookupFile: %w") (GetManifest rid) in
    let? card := wrap_err (ErrWrap "manifest.LookupFile: %w") (lookupFileCard d name) in
    Ok (card ≫= fileCardEntry).
End Store.
End Files.
