(* ===== verification/TreeWalk.v ===== *)
(** * What a tree manifest denotes, and that the walk enumerates it

    [denotes uuid t]: the references from [uuid] spell out the finite tree [t],
    each card named as the first file below it.  The walk with its explicit
    stack answers exactly the files of the tree the manifest denotes, when the
    tree keeps the limits and its files ascend. *)

From Stdlib Require Import Sorted.
From stdpp Require Import base list relations.
From S2P Require Import Prelude GoStd Deck Legality Parse DeckWf Tree.

(** ** What the walk expects of the resolution of sub-manifests *)
Class Subtrees (resolve : bytes -> tresult (Deck * Z)) : Prop := {
  resolve_nonempty u d r : resolve u = Ok (d, r) -> u <> [];
  resolve_returns u : u <> [] -> returns (resolve u);
  resolve_pos u d r : resolve u = Ok (d, r) -> 0 < r;
  resolve_rid u v d d' r : resolve u = Ok (d, r) -> resolve v = Ok (d', r) -> d = d';
  resolve_shape u d r : resolve u = Ok (d, r) -> d_F d <> [] \/ d_S d <> [];
  resolve_files u d r : resolve u = Ok (d, r) -> forallb (file_wf false) (d_F d) = true;
  resolve_cards u d r : resolve u = Ok (d, r) -> forallb submanifest_wf (d_S d) = true;
}.

Lemma card_uuid c : submanifest_wf c = true -> s_UUID c <> [].
Proof. unfold submanifest_wf. intros [_ H%validArtifactHash_nonempty]%andb_true_iff. by intros E; rewrite E in H. Qed.

(** ** Trees *)
#[warnings="-register-all"] Inductive tree := Leaf (fs : list FileCard) | Node (ts : list tree).

Fixpoint flat (t : tree) : list FileCard :=
  match t with Leaf fs => fs | Node ts => concat (map flat ts) end.
Fixpoint size (t : tree) : nat :=
  match t with Leaf _ => 1 | Node ts => S (sum_list (map size ts)) end.
Fixpoint height (t : tree) : nat :=
  match t with Leaf _ => 1 | Node ts => S (max_list (map height ts)) end.

Definition files_of (ts : list tree) : list FileCard := concat (map flat ts).
Definition nodes_of (ts : list tree) : nat := sum_list (map size ts).
Definition depth_of (ts : list tree) : nat := max_list (map height ts).

Lemma files_of_cons t ts : files_of (t :: ts) = flat t ++ files_of ts.
Proof. reflexivity. Qed.
Lemma nodes_of_cons t ts : nodes_of (t :: ts) = (size t + nodes_of ts)%nat.
Proof. reflexivity. Qed.
Lemma depth_of_cons t ts : depth_of (t :: ts) = (height t `max` depth_of ts)%nat.
Proof. reflexivity. Qed.

Lemma size_pos t : (0 < size t)%nat.
Proof. destruct t; cbn; lia. Qed.

(** ** Names in order *)
Definition after (last : option bytes) (fs : list FileCard) : Prop :=
  ascending file_less fs /\ forall l, last = Some l -> Forall (fun f => blt l (f_Name f) = true) fs.

Lemma behind_none name last : behind name last = None <-> forall l, last = Some l -> blt l name = true.
Proof.
  unfold behind. destruct last as [l|]; [|naive_solver].
  assert ((Compare name l <=? 0) = negb (blt l name)) as ->.
  { unfold Compare, blt, strings_Compare. rewrite (cmp_bytes_antisym l name). by destruct (cmp_bytes l name). }
  destruct (blt l name) eqn:E; cbn [negb]; split; try done.
  - by intros _ ? [= <-].
  - intros H. by rewrite (H l) in E.
Qed.

Lemma strongly_cons {A} (R : A -> A -> Prop) x l : StronglySorted R (x :: l) <-> StronglySorted R l /\ Forall (R x) l.
Proof. split; [by inversion 1|intros []; by constructor]. Qed.

Lemma ascending_app {A} (less : A -> A -> bool) l k : ascending less (l ++ k) <->
  ascending less l /\ ascending less k /\ forall x y, x ∈ l -> y ∈ k -> less x y = true.
Proof.
  unfold ascending. induction l as [|a l IH]; cbn [app].
  - split; [intros H; split_and!; [constructor|done|by intros ? ? ?%elem_of_nil]|tauto].
  - rewrite !strongly_cons, IH, Forall_app, !Forall_forall. set_solver.
Qed.

Lemma after_app last l k : after last (l ++ k) <->
  after last l /\ ascending file_less k /\ (forall x y, x ∈ l -> y ∈ k -> file_less x y = true)
  /\ (forall m, last = Some m -> Forall (fun f => blt m (f_Name f) = true) k).
Proof.
  unfold after. rewrite ascending_app. split.
  - intros [(H1 & H2 & H3) H4]. split_and!; try done; intros m Hm; by destruct (proj1 (Forall_app _ l k) (H4 m Hm)).
  - intros ([H1 H4] & H2 & H3 & H5). split; [done|]. intros m Hm. apply Forall_app. auto.
Qed.

(** Past a nonempty prefix only the last of it matters. *)
Lemma after_prefix last l f k : after last (l ++ [f]) -> after (Some (f_Name f)) k -> after last (l ++ f :: k).
Proof.
  intros H [Hk Hf]. specialize (Hf _ eq_refl). replace (l ++ f :: k) with ((l ++ [f]) ++ k) by by rewrite <- app_assoc.
  assert (forall y, y ∈ k -> file_less f y = true) as Hlast by by apply Forall_forall.
  rewrite after_app. split_and!; [done|done| |].
  - intros x y Hx Hy. apply elem_of_app in Hx as [Hx| ->%list_elem_of_singleton]; [|auto].
    destruct H as [(_ & _ & H)%ascending_app _]. eapply (blt_trans _ (f_Name f)); [apply (H x f); [done|by left]|by apply Hlast].
  - intros m Hm. destruct H as [_ H]. specialize (H m Hm). apply Forall_app in H as [_ H]. inversion H; subst.
    apply Forall_forall. intros y Hy. eapply blt_trans; [done|by apply Hlast].
Qed.

(** ** Denotation *)
Section Denotes.
Context (resolve : bytes -> tresult (Deck * Z)).

Inductive denotes : bytes -> tree -> Prop :=
| denotes_leaf u sub rid : resolve u = Ok (sub, rid) -> d_F sub <> [] -> denotes u (Leaf (d_F sub))
| denotes_node u sub rid ts : resolve u = Ok (sub, rid) -> d_F sub = [] -> d_S sub <> [] ->
    denote_all (d_S sub) ts -> denotes u (Node ts)
with denote_all : list SubmanifestCard -> list tree -> Prop :=
| denote_nil : denote_all [] []
| denote_cons c cs t ts : denotes (s_UUID c) t -> f_Name <$> head (flat t) = Some (s_Name c) ->
    denote_all cs ts -> denote_all (c :: cs) (t :: ts).

Scheme denotes_mut := Minimality for denotes Sort Prop
with denote_all_mut := Minimality for denote_all Sort Prop.
Combined Scheme denotes_ind2 from denotes_mut, denote_all_mut.

Context `{SU : !Subtrees resolve}.

(** An artifact denotes one tree. *)
Lemma denotes_det :
  (forall u t, denotes u t -> forall v t' d r, denotes v t' -> resolve u = Ok (d, r) -> resolve v = Ok (d, r) -> t = t')
  /\ (forall cs ts, denote_all cs ts -> forall ts', denote_all cs ts' -> ts = ts').
Proof using.
  apply denotes_ind2.
  - intros u sub rid Hu HF v t' d r Hv Hu' Hv'. assert (d = sub) as -> by congruence.
    inversion Hv; subst; congruence.
  - intros u sub rid ts Hu HF HS _ IH v t' d r Hv Hu' Hv'. assert (d = sub) as -> by congruence.
    inversion Hv; subst; [congruence|]. f_equal. apply IH. congruence.
  - intros ts' H. by inversion H.
  - intros c cs t ts Hd IHt _ _ IHts ts' H. inversion H; subst. f_equal; [|by apply IHts].
    assert (exists d r, resolve (s_UUID c) = Ok (d, r)) as (d & r & Hr) by (inversion Hd; eauto). by eapply IHt.
Qed.

(** The first file of a nonempty run is named as its first card. *)
Lemma denote_all_first c cs ts : denote_all (c :: cs) ts -> f_Name <$> head (files_of ts) = Some (s_Name c).
Proof using.
  intros H. inversion H as [|? ? t ts' Hd Hf _]; subst. unfold files_of. cbn [map concat].
  by destruct (flat t) as [|f fs]; [|exact Hf].
Qed.
End Denotes.

(** ** The loop *)
Section Loop.
Context (resolve : bytes -> tresult (Deck * Z)) (filter : option FileFilter) (skipMissing : option (bytes -> bool)).

Definition goes (w w' : treeWalk) : Prop := step resolve filter skipMissing w = Ok w'.
Abbreviation loop := (walk_loop resolve filter skipMissing).

Lemma enter_resolved w card limit sub rid w' : enter filter w card limit sub rid = Ok w' -> w_resolved w' = w_resolved w.
Proof using.
  unfold enter. destruct (existsb _ _); [done|]. destruct (len (d_F sub) >? 0).
  - unfold emitLeaf. destruct (d_F sub) as [|f fs]; [done|]. destruct (negb _); [done|].
    intros ([l k] & _ & H)%obind_ok. by injection H as <-.
  - destruct (d_S sub); [done|]. destruct (negb _); [done|]. by intros [= <-].
Qed.

(** A step spends a card or a frame, or one of the resolutions. *)
Lemma step_spends w w' : goes w w' ->
  w_resolved w' = w_resolved w /\ (work w' < work w)%nat \/ w_resolved w' = w_resolved w + 1 /\ w_resolved w < maxTreeNodes.
Proof using.
  unfold goes, step. destruct (w_stack w) as [|[rid [|card rest] bound] below] eqn:Es; [done| |].
  - intros [= <-]. left. split; [done|]. unfold work. rewrite Es. cbn. lia.
  - destruct (behind _ _); [done|]. destruct (negb _).
    { intros [= <-]. left. split; [done|]. unfold work. rewrite Es. cbn. lia. }
    destruct (_ >? _); [done|]. unfold load. destruct (bytes_eqb _ _); [done|]. destruct (_ >=? _) eqn:El; [by cbn|]. zbool.
    destruct (resolve (s_UUID card)) as [[sub r]|e| |]; [|destruct (skips _ _)|..]; intros H; try done; right.
    + apply enter_resolved in H. cbn in H. split; [done|lia].
    + injection H as <-. cbn. split; [done|lia].
Qed.

Lemma goes_resolved w w' : rtc goes w w' -> w_resolved w <= w_resolved w'.
Proof using. induction 1 as [|w1 w2 w3 H _ IH]; [lia|]. apply step_spends in H. lia. Qed.

(** The loop ends: at the empty stack, or where a step fails. *)
Lemma loop_ends budget : forall todo w, (work w <= todo)%nat -> maxTreeNodes - w_resolved w <= Z.of_nat budget ->
  exists w1, rtc goes w w1 /\ (w_stack w1 = [] /\ loop budget todo w = Ok w1
    \/ w_stack w1 <> [] /\ (forall w2, ~ goes w1 w2) /\ loop budget todo w = let? _ := step resolve filter skipMissing w1 in Diverge).
Proof using.
  induction budget as [|budget IHb]; intros todo; induction todo as [|todo IHt]; intros w Hw Hb.
  1,3: exists w; split; [done|]; left; destruct (w_stack w) as [|fr st] eqn:Es; [|unfold work in Hw; rewrite Es in Hw; cbn in Hw; lia];
    split; [done|]; cbn; by rewrite Es.
  all: destruct (w_stack w) as [|fr st] eqn:Es; [exists w; split; [done|]; left; split; [done|]; cbn; by rewrite Es|].
  all: destruct (step resolve filter skipMissing w) as [w'|e|m|] eqn:Est;
    [|exists w; split; [done|]; right; rewrite Es; split_and!; [done|intros w2 H; unfold goes in H; congruence|cbn; by rewrite Es, Est]..].
  all: destruct (step_spends w w' Est) as [[Hr Hlt]|[Hr Hlt]].
  all: try (destruct (IHt w') as (w1 & Hreach & Hres); [lia|lia|]; exists w1; split; [by eapply rtc_l|];
    cbn [walk_loop] in *; rewrite Es, Est; cbn [obind]; by rewrite Hr, Z.eqb_refl).
  - lia.
  - destruct (IHb (work w') w') as (w1 & Hreach & Hres); [lia|lia|]. exists w1. split; [by eapply rtc_l|].
    cbn [walk_loop]. rewrite Es, Est. cbn [obind]. by rewrite (proj2 (Z.eqb_neq _ _)) by lia.
Qed.

(** A run is determined by where it starts. *)
Lemma goes_end w w1 w2 : rtc goes w w1 -> rtc goes w w2 -> (forall v, ~ goes w1 v) -> (forall v, ~ goes w2 v) -> w1 = w2.
Proof using.
  intros H1. revert w2. induction H1 as [w|w x w1 Hx _ IH]; intros w2 H2 N1 N2.
  - inversion H2 as [|? y]; subst; [done|]. by exfalso; eapply N1.
  - inversion H2 as [|? y ? Hy H2']; subst; [by exfalso; eapply N2|]. unfold goes in *. assert (x = y) as -> by congruence. by apply IH.
Qed.

Lemma stuck_end w : w_stack w = [] -> forall v, ~ goes w v.
Proof using. unfold goes, step. by intros ->. Qed.

Lemma run_ok cards w : run_walk resolve filter skipMissing cards = Ok w <-> rtc goes (start cards) w /\ w_stack w = [].
Proof using.
  unfold run_walk. assert (0 <= maxTreeNodes) as Hm by done.
  destruct (loop_ends (Z.to_nat maxTreeNodes) (work (start cards)) (start cards)) as (w1 & Hr & Hres);
    [done|cbn [w_resolved start]; lia|]. destruct Hres as [[Hs ->]|(Hs & Hn & ->)]; split.
  - by intros [= <-].
  - intros [Hr' Hs']. f_equal. eapply goes_end; eauto using stuck_end.
  - destruct (step resolve filter skipMissing w1) eqn:E; [by apply Hn in E|done..].
  - intros [Hr' Hs']. exfalso. assert (w = w1) as -> by (eapply goes_end; eauto using stuck_end). done.
Qed.

(** ** No step panics *)
Definition frames_ok (w : treeWalk) : Prop := Forall (fun fr => forallb submanifest_wf (fr_cards fr) = true) (w_stack w).

Context `{SU : !Subtrees resolve}.

Lemma emit_files_returns card fs last files : returns (emit_files filter card fs last files).
Proof using. revert last files. induction fs as [|f fs IH]; intros; cbn; [done|]. by destruct (behind _ _); [|apply IH]. Qed.

Lemma step_returns w : w_stack w <> [] -> frames_ok w ->
  returns (step resolve filter skipMissing w) /\ forall w', goes w w' -> frames_ok w'.
Proof using SU.
  unfold frames_ok, goes, step. destruct (w_stack w) as [|[rid [|card rest] bound] below] eqn:Es; [done| |]; intros _ Hok;
    apply Forall_cons in Hok as [Hc Hb]; cbn [fr_cards forallb] in Hc.
  { split; [done|]. by intros w' [= <-]. }
  apply andb_true_iff in Hc as [Hcard Hrest]. destruct (behind _ _); [by split|]. destruct (negb _).
  { split; [done|]. intros w' [= <-]. by constructor. }
  destruct (_ >? _); [by split|]. unfold load. pose proof (card_uuid _ Hcard) as Hu. rewrite (proj2 (bytes_eqb_neq _ _) Hu).
  destruct (_ >=? _); [by split|]. pose proof (resolve_returns _ Hu) as Hr.
  destruct (resolve (s_UUID card)) as [[sub r]|e| |] eqn:Er; [|destruct (skips _ _); split; try done|done..].
  2: { intros w' [= <-]. by constructor. }
  pose proof (resolve_shape _ _ _ Er) as Hsh. unfold enter. destruct (existsb _ _); [by split|].
  destruct (d_F sub) as [|f fs] eqn:EF.
  - change (len [] >? 0) with false. cbv iota. destruct (d_S sub) as [|c cs] eqn:ES; [by destruct Hsh|].
    destruct (negb _); [by split|]. split; [done|]. intros w' [= <-]. cbn [w_stack fr_cards]. constructor; [|by constructor].
    cbn [fr_cards]. rewrite <- ES. by eapply resolve_cards.
  - replace (len (f :: fs) >? 0) with true by (rewrite len_cons; pose proof (len_nonneg fs); lia).
    unfold emitLeaf. rewrite EF. destruct (negb _); [by split|]. split.
    + apply returns_bind; [apply emit_files_returns|]. by intros [l k] _.
    + intros w' ([l k] & _ & H)%obind_ok. injection H as <-. by constructor.
Qed.

Lemma run_returns cards : forallb submanifest_wf cards = true -> returns (run_walk resolve filter skipMissing cards).
Proof using SU.
  intros Hc. unfold run_walk. assert (0 <= maxTreeNodes) as Hm by done.
  destruct (loop_ends (Z.to_nat maxTreeNodes) (work (start cards)) (start cards)) as (w1 & Hr & Hres);
    [done|cbn [w_resolved start]; lia|]. destruct Hres as [[Hs ->]|(Hs & Hn & ->)]; [done|].
  assert (frames_ok (start cards)) as H0 by (constructor; [done|constructor]).
  assert (frames_ok w1) as H1.
  { clear Hs Hn. induction Hr as [|w x w2 Hx _ IH]; [done|]. apply IH. destruct (w_stack w) eqn:E; [by apply stuck_end in Hx|].
    destruct (step_returns w) as [_ H]; [by rewrite E|done|by apply H]. }
  destruct (step_returns w1 Hs H1) as [H _]. destruct (step resolve filter skipMissing w1) eqn:E; [by apply Hn in E|done..].
Qed.
End Loop.

(** * The walk enumerates the tree, whole or narrowed by a filter *)

(** A filter that prunes soundly: a range with a covered name may be covered. *)
Definition sound_filter (filter : option FileFilter) : Prop :=
  match filter with
  | None => True
  | Some f => forall name first limit, ff_Covers f name = true -> blt name first = false ->
      limit = [] \/ blt name limit = true -> ff_MayCover f first limit = true
  end.

Definition narrowed (filter : option FileFilter) (fs : list FileCard) : list FileCard :=
  List.filter (fun f => covered filter (f_Name f)) fs.

Lemma narrowed_app filter l k : narrowed filter (l ++ k) = narrowed filter l ++ narrowed filter k.
Proof. apply List.filter_app. Qed.

Lemma narrowed_none fs : narrowed None fs = fs.
Proof. unfold narrowed. induction fs as [|f fs IH]; [done|]. cbn in *. by rewrite IH. Qed.

Lemma narrowed_nil filter fs : (forall f, f ∈ fs -> covered filter (f_Name f) = false) -> narrowed filter fs = [].
Proof.
  unfold narrowed. induction fs as [|f fs IH]; [done|]. intros H. cbn. rewrite (H f) by left. apply IH.
  intros g Hg. apply H. by right.
Qed.

Lemma after_head last f fs : after last (f :: fs) -> (forall l, last = Some l -> blt l (f_Name f) = true)
  /\ after (Some (f_Name f)) fs.
Proof.
  intros [Ha Hl]. apply strongly_cons in Ha as [Ha Hf]. split; [|split; [done|]].
  - intros l Hla. specialize (Hl l Hla). by apply Forall_cons in Hl as [? _].
  - intros l [= <-]. exact Hf.
Qed.

Lemma head_least f fs g : ascending file_less (f :: fs) -> g ∈ f :: fs -> blt (f_Name g) (f_Name f) = false.
Proof.
  intros [_ Hf]%strongly_cons Hg. apply elem_of_cons in Hg as [->|Hg]; [apply blt_irrefl|].
  rewrite Forall_forall in Hf. specialize (Hf g Hg). destruct (blt (f_Name g) (f_Name f)) eqn:E; [|done].
  pose proof (blt_trans _ _ _ E Hf) as H. by rewrite blt_irrefl in H.
Qed.

(** The last name after some files: the one before, or one of theirs. *)
Definition last_in (last : option bytes) (fs : list FileCard) (last' : option bytes) : Prop :=
  forall l, last' = Some l -> last = Some l \/ exists f, f ∈ fs /\ f_Name f = l.

Lemma last_in_after last fs last' gs : last_in last fs last' -> after last (fs ++ gs) -> after last' gs.
Proof.
  intros Hl (_ & Hg & Hfg & Hlast)%after_app. split; [done|]. intros l [H|(f & Hf & <-)]%Hl; [by apply Hlast|].
  apply Forall_forall. intros g. by apply Hfg.
Qed.

Lemma last_in_app last fs last1 gs last2 : last_in last fs last1 -> last_in last1 gs last2 -> last_in last (fs ++ gs) last2.
Proof. unfold last_in. intros H1 H2 l [[?|(f & ? & ?)]%H1|(g & ? & ?)]%H2; [by left|right..]; set_solver. Qed.

Section Exact.
Context (resolve : bytes -> tresult (Deck * Z)) `{SU : !Subtrees resolve}.
Context (filter : option FileFilter) (skipMissing : option (bytes -> bool)).
Abbreviation goes := (goes resolve filter skipMissing).

Lemma emit_after card fs : forall last files, after last fs ->
  exists last', emit_files filter card fs last files = Ok (last', files ++ narrowed filter fs) /\ last_in last fs last'.
Proof using.
  induction fs as [|f fs IH]; intros last files Ha; cbn [emit_files].
  { exists last. split; [by rewrite app_nil_r|]. intros l Hl. by left. }
  destruct (after_head _ _ _ Ha) as [Hl Hfs]. rewrite (proj2 (behind_none _ _) Hl).
  destruct (IH (Some (f_Name f)) (if covered filter (f_Name f) then files ++ [f] else files) Hfs) as (last' & -> & Hin).
  exists last'. split.
  - do 2 f_equal. unfold narrowed. cbn. destruct (covered _ _); [by rewrite <- app_assoc|done].
  - intros l [[= <-]|(g & Hg & <-)]%Hin; right; [exists f; split; [by left|done]|exists g; split; [by right|done]].
Qed.

(** ** No frame of a finite tree closes a cycle *)
Definition above (n : nat) (rid : Z) : Prop :=
  rid = 0 \/ exists u sub t, resolve u = Ok (sub, rid) /\ denotes resolve u t /\ (n < size t)%nat.

Lemma above_mono n m rid : (m <= n)%nat -> above n rid -> above m rid.
Proof using. intros Hm [->|(u & sub & t & ? & ? & ?)]; [by left|]. right. exists u, sub, t. split_and!; [done|done|lia]. Qed.

Lemma no_cycle u t sub rid stack : denotes resolve u t -> resolve u = Ok (sub, rid) ->
  Forall (above (size t)) (map fr_rid stack) -> existsb (fun frame => fr_rid frame =? rid) stack = false.
Proof using SU.
  intros Hd Hr Hall. destruct (existsb _ _) eqn:E; [|done]. exfalso. apply existsb_exists in E as (fr & Hin & He). zbool.
  rewrite Forall_forall in Hall. destruct (Hall (fr_rid fr)) as [H0|(v & sub' & t' & Hv & Hd' & Hlt)].
  - apply list_elem_of_fmap. exists fr. split; [done|by apply list_elem_of_In].
  - pose proof (resolve_pos _ _ _ Hr). lia.
  - rewrite He in Hv. assert (sub = sub') as <- by (by eapply resolve_rid).
    assert (t = t') as <- by (by eapply (proj1 (denotes_det resolve))). lia.
Qed.

(** ** A subtree walked, and a run of cards walked *)
Definition room (below : list treeFrame) (levels : nat) : Prop := len below + Z.of_nat levels <= maxTreeDepth.

Definition walked (t : tree) (card : SubmanifestCard) : Prop :=
  forall n rid rest bound below last files, let limit := match rest with next :: _ => s_Name next | [] => bound end in
  after last (flat t) -> (forall f, f ∈ flat t -> limit = [] \/ blt (f_Name f) limit = true) ->
  room below (height t) -> n + Z.of_nat (size t) <= maxTreeNodes ->
  Forall (above (size t)) (rid :: map fr_rid below) ->
  exists n' last', rtc goes (mk_treeWalk n (mk_treeFrame rid (card :: rest) bound :: below) last files)
                            (mk_treeWalk n' (mk_treeFrame rid rest bound :: below) last' (files ++ narrowed filter (flat t)))
    /\ n <= n' <= n + Z.of_nat (size t) /\ last_in last (flat t) last'.

Definition walked_all (cs : list SubmanifestCard) (ts : list tree) : Prop :=
  forall n rid bound below last files,
  after last (files_of ts) -> (forall f, f ∈ files_of ts -> bound = [] \/ blt (f_Name f) bound = true) ->
  room below (depth_of ts) -> n + Z.of_nat (nodes_of ts) <= maxTreeNodes ->
  Forall (above (nodes_of ts)) (rid :: map fr_rid below) ->
  exists n' last', rtc goes (mk_treeWalk n (mk_treeFrame rid cs bound :: below) last files)
                            (mk_treeWalk n' (mk_treeFrame rid [] bound :: below) last' (files ++ narrowed filter (files_of ts)))
    /\ n <= n' <= n + Z.of_nat (nodes_of ts) /\ last_in last (files_of ts) last'.

(** A step on a card whose subtree [t] is next: skipped whole, or entered. *)
Lemma card_step t card n rid rest bound below last files : sound_filter filter ->
  let limit := match rest with next :: _ => s_Name next | [] => bound end in
  let stack := mk_treeFrame rid rest bound :: below in
  denotes resolve (s_UUID card) t -> f_Name <$> head (flat t) = Some (s_Name card) ->
  after last (flat t) -> (forall f, f ∈ flat t -> limit = [] \/ blt (f_Name f) limit = true) ->
  room below (height t) -> n + Z.of_nat (size t) <= maxTreeNodes ->
  goes (mk_treeWalk n (mk_treeFrame rid (card :: rest) bound :: below) last files) (mk_treeWalk n stack last files)
    /\ narrowed filter (flat t) = []
  \/ exists sub r, resolve (s_UUID card) = Ok (sub, r)
    /\ step resolve filter skipMissing (mk_treeWalk n (mk_treeFrame rid (card :: rest) bound :: below) last files)
       = enter filter (mk_treeWalk (n + 1) stack last files) card limit sub r.
Proof using SU.
  intros Hsound limit stack Hd Hfirst Ha Hlim Hroom Hn. subst limit stack. cbv zeta.
  destruct (flat t) as [|f0 fs] eqn:Ef; [done|]. injection Hfirst as Hf0.
  assert (behind (s_Name card) last = None) as Hb by (apply behind_none; rewrite <- Hf0; apply (after_head _ _ _ Ha)).
  unfold goes, TreeWalk.goes, step. cbn [w_stack w_last w_resolved w_files]. rewrite Hb.
  destruct (may_cover filter _ _) eqn:Em; cbn [negb].
  - right. assert (exists d r, resolve (s_UUID card) = Ok (d, r)) as (sub & r & Hr) by (inversion Hd; eauto).
    exists sub, r. split; [done|]. pose proof (size_pos t). assert (1 <= height t)%nat by (destruct t; cbn; lia).
    replace (_ >? maxTreeDepth) with false by (rewrite len_cons; unfold room in Hroom; lia).
    unfold load. rewrite (proj2 (bytes_eqb_neq _ _)) by (by eapply resolve_nonempty).
    replace (n >=? maxTreeNodes) with false by lia. by rewrite Hr.
  - left. split; [done|]. apply narrowed_nil. intros f Hf. destruct (covered filter (f_Name f)) eqn:Ec; [|done]. exfalso.
    unfold may_cover in Em. destruct filter as [ff|]; [|done]. cbn in Ec, Hsound. rewrite <- Hf0 in Em.
    rewrite (Hsound _ _ _ Ec (head_least f0 fs f (proj1 Ha) Hf) (Hlim f Hf)) in Em. done.
Qed.

Lemma walk_complete : sound_filter filter ->
  (forall u t, denotes resolve u t -> forall card, s_UUID card = u -> f_Name <$> head (flat t) = Some (s_Name card) -> walked t card)
  /\ (forall cs ts, denote_all resolve cs ts -> walked_all cs ts).
Proof using SU.
  intros Hsound. apply (denotes_ind2 resolve).
  - intros u sub rid Hu HF card <- Hfirst n r0 rest bound below last files limit Ha Hlim Hroom Hn Habove.
    assert (denotes resolve (s_UUID card) (Leaf (d_F sub))) as Hd by by econstructor.
    destruct (card_step (Leaf (d_F sub)) card n r0 rest bound below last files Hsound Hd Hfirst Ha Hlim Hroom Hn)
      as [[Hs Hnil]|(sub' & r & Hr & Hs)].
    { exists n, last. cbn [flat] in *. rewrite Hnil, app_nil_r. split_and!; [by apply rtc_once|lia|lia|]. intros l Hl. by left. }
    assert (sub' = sub /\ r = rid) as [-> ->] by (split; congruence).
    destruct (emit_after card (d_F sub) last files Ha) as (last' & He & Hin).
    exists (n + 1), last'. split_and!; [|lia|cbn; lia|done]. apply rtc_once. unfold goes, TreeWalk.goes. rewrite Hs. unfold enter.
    cbn [w_stack w_resolved w_last w_files]. rewrite (no_cycle _ _ _ _ (mk_treeFrame r0 rest bound :: below) Hd Hu Habove).
    destruct (d_F sub) as [|f fs] eqn:EF; [done|]. injection Hfirst as Hf.
    replace (len (f :: fs) >? 0) with true by (rewrite len_cons; pose proof (len_nonneg fs); lia).
    unfold emitLeaf. rewrite EF, Hf, bytes_eqb_refl. cbn [negb w_last w_files]. by rewrite He.
  - intros u sub rid ts Hu HF HS Hall IH card <- Hfirst n r0 rest bound below last files limit Ha Hlim Hroom Hn Habove.
    assert (denotes resolve (s_UUID card) (Node ts)) as Hd by by econstructor.
    destruct (card_step (Node ts) card n r0 rest bound below last files Hsound Hd Hfirst Ha Hlim Hroom Hn)
      as [[Hs Hnil]|(sub' & r & Hr & Hs)].
    { exists n, last. rewrite Hnil, app_nil_r. split_and!; [by apply rtc_once|lia|lia|]. intros l Hl. by left. }
    assert (sub' = sub /\ r = rid) as [-> ->] by (split; congruence).
    change (flat (Node ts)) with (files_of ts) in *. change (size (Node ts)) with (S (nodes_of ts)) in *.
    change (height (Node ts)) with (S (depth_of ts)) in *.
    destruct (IH (n + 1) rid limit (mk_treeFrame r0 rest bound :: below) last files) as (n' & last' & Hrun & Hn' & Hin).
    { done. } { done. } { unfold room in *. rewrite len_cons. lia. } { lia. }
    { constructor; [right; exists (s_UUID card), sub, (Node ts); split_and!; [done|done|cbn; unfold nodes_of; lia]|].
      eapply Forall_impl; [exact Habove|]. intros x. apply above_mono. lia. }
    exists n', last'. split_and!; [|lia|lia|done]. eapply rtc_l; [|eapply rtc_r; [exact Hrun|done]].
    unfold goes, TreeWalk.goes. rewrite Hs. unfold enter. cbn [w_stack w_resolved w_last w_files].
    rewrite (no_cycle _ _ _ _ (mk_treeFrame r0 rest bound :: below) Hd Hu Habove), HF. change (len [] >? 0) with false. cbv iota.
    destruct (d_S sub) as [|c cs] eqn:ES; [done|].
    assert (s_Name c = s_Name card) as -> by (pose proof (denote_all_first resolve _ _ _ Hall) as Hc; congruence).
    by rewrite bytes_eqb_refl.
  - intros n rid bound below last files _ _ _ _ _. exists n, last. unfold files_of. cbn. rewrite app_nil_r.
    split_and!; [done|lia|lia|]. intros l Hl. by left.
  - intros c cs t ts Hd IHt Hfirst Hall IHts n rid bound below last files Ha Hlim Hroom Hn Habove.
    rewrite ?files_of_cons, ?nodes_of_cons, ?depth_of_cons in *. pose proof Ha as (Ha1 & Ha2 & Hcross & Hlast)%after_app.
    destruct (IHt c eq_refl Hfirst n rid cs bound below last files) as (n1 & last1 & Hrun1 & Hn1 & Hin1).
    { done. }
    { intros f Hf. destruct cs as [|c' cs']; [apply Hlim, elem_of_app; by left|]. right.
      pose proof (denote_all_first resolve _ _ _ Hall) as Hc. destruct (files_of ts) as [|g gs]; [done|].
      injection Hc as <-. apply Hcross; [done|by left]. }
    { unfold room in *. lia. } { lia. } { eapply Forall_impl; [exact Habove|]. intros x. apply above_mono. lia. }
    destruct (IHts n1 rid bound below last1 (files ++ narrowed filter (flat t))) as (n2 & last2 & Hrun2 & Hn2 & Hin2).
    { by eapply last_in_after. } { intros f Hf. apply Hlim, elem_of_app. by right. } { unfold room in *. lia. } { lia. }
    { eapply Forall_impl; [exact Habove|]. intros x. apply above_mono. lia. }
    exists n2, last2. rewrite narrowed_app, app_assoc. split_and!; [by etrans|lia|lia|by eapply last_in_app].
Qed.

(** A run of cards that denotes trees within the limits is walked to its end. *)
Lemma run_complete cards ts : sound_filter filter -> denote_all resolve cards ts -> ascending file_less (files_of ts) ->
  Z.of_nat (depth_of ts) <= maxTreeDepth -> Z.of_nat (nodes_of ts) <= maxTreeNodes ->
  exists w, run_walk resolve filter skipMissing cards = Ok w /\ w_files w = narrowed filter (files_of ts).
Proof using SU.
  intros Hsound Hall Ha Hd Hn. destruct (walk_complete Hsound) as [_ Hwalk].
  destruct (Hwalk cards ts Hall 0 0 [] [] None []) as (n & last & Hrun & _ & _).
  - by split.
  - by left.
  - unfold room. rewrite len_nil. lia.
  - lia.
  - repeat constructor.
  - exists (mk_treeWalk n [] last (narrowed filter (files_of ts))). split; [|done]. apply run_ok. split; [|done].
    eapply rtc_r; [exact Hrun|]. done.
Qed.
End Exact.

(** ** What a successful walk has seen *)
Section Sound.
Context (resolve : bytes -> tresult (Deck * Z)) `{SU : !Subtrees resolve}.
Abbreviation goes := (goes resolve None None).

(** The trees still to come, per frame from the top; a frame below [k] others
    stands at depth [k]. *)
Fixpoint deep (stack : list treeFrame) (tss : list (list tree)) : Prop :=
  match stack, tss with
  | fr :: below, ts :: tss => denote_all resolve (fr_cards fr) ts /\ room below (depth_of ts) /\ deep below tss
  | [], [] => True
  | _, _ => False
  end.

Definition coming (tss : list (list tree)) : list FileCard := concat (map files_of tss).
Definition pending (tss : list (list tree)) : nat := sum_list (map nodes_of tss).

Lemma pending_cons ts tss : pending (ts :: tss) = (nodes_of ts + pending tss)%nat.
Proof using. reflexivity. Qed.

Lemma emit_inv card fs : forall last files last' files', emit_files None card fs last files = Ok (last', files') ->
  files' = files ++ fs /\ forall gs, after last' gs -> after last (fs ++ gs).
Proof using.
  induction fs as [|f fs IH]; intros last files last' files'; cbn [emit_files].
  { intros [= <- <-]. split; [by rewrite app_nil_r|done]. }
  destruct (behind (f_Name f) last) eqn:E; [done|]. cbn [covered]. intros [-> H]%IH. split; [by rewrite <- app_assoc|].
  intros gs Hg. apply (after_prefix last [] f (fs ++ gs)); [|by apply H]. split; [repeat constructor|].
  intros l Hl. constructor; [|constructor]. by apply (proj1 (behind_none _ _) E).
Qed.

Lemma room_le below n m : (n <= m)%nat -> room below m -> room below n.
Proof using. unfold room. lia. Qed.

Lemma walk_sound w w' : rtc goes w w' -> w_stack w' = [] -> len (w_stack w) <= maxTreeDepth + 1 ->
  exists tss, deep (w_stack w) tss /\ w_files w' = w_files w ++ coming tss /\ after (w_last w) (coming tss)
    /\ w_resolved w' = w_resolved w + Z.of_nat (pending tss).
Proof using.
  intros Hrun Hend. induction Hrun as [w|w w1 w2 Hs Hrun IH].
  { exists []. rewrite Hend. cbn. rewrite app_nil_r. split_and!; [done|done|split; [constructor|by constructor]|lia]. }
  unfold goes, TreeWalk.goes, step in Hs. destruct (w_stack w) as [|[rid [|card rest] bound] below] eqn:Es; [done| |]; rewrite len_cons; intros Hlen.
  { injection Hs as <-. destruct (IH Hend) as (tss & Hdeep & Hf & Ha & Hn); cbn [w_stack w_files w_last w_resolved] in *; [lia|].
    exists ([] :: tss). split_and!; [cbn [deep fr_cards]|done|done|done]. split_and!; [constructor|unfold room; cbn; lia|done]. }
  destruct (behind _ _) eqn:Eb; [done|]. change (negb (may_cover None _ _)) with false in Hs. cbv iota in Hs.
  destruct (_ >? _) eqn:Ed; [done|]. zbool. rewrite len_cons in Ed. unfold load in Hs. destruct (bytes_eqb _ _); [done|].
  destruct (w_resolved w >=? maxTreeNodes); [done|]. destruct (resolve (s_UUID card)) as [[sub r]|e| |] eqn:Er; [|unfold skips in Hs; destruct (MissingSubmanifest e); done|done..].
  unfold enter in Hs. cbn [w_stack w_files w_last w_resolved] in Hs. destruct (existsb _ _); [done|].
  destruct (len (d_F sub) >? 0) eqn:EF.
  - unfold emitLeaf in Hs. destruct (d_F sub) as [|f fs] eqn:EFs; [done|]. destruct (bytes_eqb _ _) eqn:Ename; [|done]. apply bytes_eqb_eq in Ename.
    cbn [negb w_last w_files w_resolved w_stack] in Hs. apply obind_ok in Hs as ([last files] & He & Hs). injection Hs as <-.
    apply emit_inv in He as [-> Hafter]. destruct (IH Hend) as (tss & Hdeep & Hf & Ha & Hn); cbn [w_stack w_files w_last w_resolved] in *; [rewrite len_cons; lia|].
    destruct tss as [|ts tss]; [done|]. destruct Hdeep as (Hall & Hroom & Hdeep). exists ((Leaf (f :: fs) :: ts) :: tss).
    unfold coming in *. cbn [map concat] in *. rewrite files_of_cons, <- !app_assoc in *.
    split_and!; [|done|by apply Hafter|].
    + cbn [deep fr_cards]. split_and!; [|rewrite depth_of_cons; unfold room in *; cbn [height]; lia|done].
      constructor; [|by rewrite <- Ename|done]. rewrite <- EFs. eapply denotes_leaf; [exact Er|by rewrite EFs].
    + rewrite Hn, !pending_cons, nodes_of_cons. cbn [size]. lia.
  - assert (d_F sub = []) as EFs by (destruct (d_F sub); [done|]; rewrite len_cons in EF; pose proof (len_nonneg l); lia).
    destruct (d_S sub) as [|c cs] eqn:ES; [done|]. destruct (bytes_eqb _ _) eqn:Ename; [|done]. apply bytes_eqb_eq in Ename.
    cbn [negb] in Hs. injection Hs as <-. destruct (IH Hend) as (tss & Hdeep & Hf & Ha & Hn); cbn [w_stack w_files w_last w_resolved] in *; [rewrite !len_cons; lia|].
    destruct tss as [|us [|ts tss]]; [done|by destruct Hdeep as (_ & _ & [])|]. destruct Hdeep as (Hall1 & Hroom1 & Hall & Hroom & Hdeep). cbn [fr_cards] in *.
    exists ((Node us :: ts) :: tss). unfold coming in *. cbn [map concat] in *. rewrite files_of_cons, <- !app_assoc in *.
    split_and!; [|done|done|].
    + cbn [deep fr_cards]. split_and!; [|rewrite depth_of_cons; unfold room in *; rewrite len_cons in Hroom1; cbn [height]; fold (depth_of us); lia|done].
      constructor; [|rewrite <- Ename; change (flat (Node us)) with (files_of us); by eapply denote_all_first|done].
      eapply denotes_node; [exact Er|done|by rewrite ES|by rewrite ES].
    + rewrite Hn, !pending_cons, nodes_of_cons. cbn [size]. fold (nodes_of us). lia.
Qed.
End Sound.

(** ** The enumeration *)
Section Enumeration.
Context (resolve : bytes -> tresult (Deck * Z)) `{SU : !Subtrees resolve}.

(** The trees under a run of cards, within the limits and in name order. *)
Record grove (cards : list SubmanifestCard) (ts : list tree) : Prop := {
  grove_denotes : denote_all resolve cards ts;
  grove_order : ascending file_less (files_of ts);
  grove_depth : Z.of_nat (depth_of ts) <= maxTreeDepth;
  grove_nodes : Z.of_nat (nodes_of ts) <= maxTreeNodes;
}.

Lemma goes_bound filter skip w w' : rtc (goes resolve filter skip) w w' -> w_resolved w <= maxTreeNodes -> w_resolved w' <= maxTreeNodes.
Proof using. induction 1 as [|w w1 w2 H _ IH]; [done|]. intros Hw. apply IH. apply step_spends in H. lia. Qed.

Lemma isTree_cards d : isTree d = true -> exists c cs, d_S d = c :: cs.
Proof using. unfold isTree. intros [_ H]%andb_true_iff. destruct (d_S d) as [|c cs]; [done|]. by exists c, cs. Qed.

Lemma walk_grove d filter : isTree d = true -> sound_filter filter -> forall ts, grove (d_S d) ts ->
  walkTreeFiltered resolve d filter = Ok (narrowed filter (files_of ts)).
Proof using SU.
  intros Ht Hsound ts [Hall Ha Hd Hn]. unfold walkTreeFiltered. rewrite Ht. cbn [negb].
  destruct (run_complete resolve filter None _ _ Hsound Hall Ha Hd Hn) as (w & -> & Hw). cbn [obind]. rewrite Hw.
  destruct filter as [f|]; [by destruct (narrowed _ _)|]. rewrite narrowed_none.
  destruct (isTree_cards d Ht) as (c & cs & HS). rewrite HS in Hall. apply denote_all_first in Hall.
  by destruct (files_of ts).
Qed.

Lemma walkTree_grove d files : isTree d = true ->
  walkTree resolve d = Ok files <-> exists ts, grove (d_S d) ts /\ files = files_of ts.
Proof using SU.
  intros Ht. split.
  - unfold walkTree, walkTreeFiltered. rewrite Ht. cbn [negb]. intros (w & Hw & H)%obind_ok. apply run_ok in Hw as [Hrun Hend].
    assert (files = w_files w) as -> by (destruct (w_files w); congruence).
    destruct (walk_sound resolve _ _ Hrun Hend) as (tss & Hdeep & Hf & Ha & Hn); [done|].
    apply goes_bound in Hrun; [|done]. cbn [start w_stack w_files w_last w_resolved] in *.
    destruct tss as [|ts [|]]; [done| |by destruct Hdeep as (_ & _ & [])]. destruct Hdeep as (Hall & Hroom & _). cbn [fr_cards] in Hall.
    unfold coming in *. cbn [map concat] in *. rewrite app_nil_r in *. exists ts. split; [|done].
    split; [done|apply Ha|unfold room in Hroom; rewrite len_nil in Hroom; lia|].
    unfold pending in Hn. cbn in Hn. lia.
  - intros (ts & Hg & ->). unfold walkTree. rewrite (walk_grove d None Ht I ts Hg). by rewrite narrowed_none.
Qed.

Lemma walkTree_returns d filter : isTree d = true -> forallb submanifest_wf (d_S d) = true -> returns (walkTreeFiltered resolve d filter).
Proof using SU.
  intros Ht Hc. unfold walkTreeFiltered. rewrite Ht. cbn [negb]. pose proof (run_returns resolve filter None _ Hc) as Hr.
  destruct (run_walk resolve filter None (d_S d)) as [w|e| |] eqn:Ew; try done. cbn [obind]. destruct filter as [f|]; [by destruct (w_files w)|].
  apply run_ok in Ew as [Hrun Hend]. destruct (walk_sound resolve _ _ Hrun Hend) as (tss & Hdeep & Hf & _ & _); [done|].
  cbn [start w_stack w_files] in *. destruct tss as [|ts [|]]; [done| |by destruct Hdeep as (_ & _ & [])].
  destruct Hdeep as (Hall & _). cbn [fr_cards] in Hall. destruct (isTree_cards d Ht) as (c & cs & HS). rewrite HS in Hall.
  apply denote_all_first in Hall. unfold coming in Hf. cbn [map concat] in Hf. rewrite app_nil_r in Hf. rewrite Hf.
  by destruct (files_of ts).
Qed.
End Enumeration.
