(* ===== verification/TreeLookup.v ===== *)
(** * Looking one name up in a tree finds what the enumeration holds *)

From Stdlib Require Import Sorted.
From stdpp Require Import base list.
From S2P Require Import Prelude GoStd Deck Legality Parse DeckWf Tree TreeWalk.

(** ** Binary search *)
Lemma strongly_lookup {A} (R : A -> A -> Prop) l i j x y : StronglySorted R l ->
  l !! i = Some x -> l !! j = Some y -> (i < j)%nat -> R x y.
Proof.
  intros Hs. revert i j. induction Hs as [|a l _ IH Ha]; intros i j Hi Hj Hlt; [done|].
  destruct j as [|j]; [lia|]. cbn in Hj. destruct i as [|i]; cbn in Hi; [|apply (IH i j); [done|done|lia]].
  injection Hi as ->. rewrite Forall_forall in Ha. apply Ha. by apply list_elem_of_lookup_2 in Hj.
Qed.

Lemma search_spec (f : Z -> tresult bool) (p : Z -> bool) fuel : forall i j, 0 <= i <= j -> j - i <= Z.of_nat fuel ->
  (forall h, i <= h < j -> f h = Ok (p h)) -> (forall h k, i <= h -> h <= k < j -> p h = true -> p k = true) ->
  exists k, search fuel f i j = Ok k /\ i <= k <= j
    /\ (forall h, i <= h < k -> p h = false) /\ (forall h, k <= h < j -> p h = true).
Proof.
  induction fuel as [|fuel IH]; intros i j Hij Hfuel Hf Hmono; cbn [search].
  { replace (i <? j) with false by lia. exists i. split_and!; [done|lia|lia|lia|lia]. }
  destruct (i <? j) eqn:E; [|exists i; zbool; split_and!; [done|lia|lia|lia|lia]]. zbool.
  rewrite Z.shiftr_div_pow2 by lia. change (2 ^ 1) with 2. set (h := (i + j) / 2).
  assert (i <= h < j) as Hh by (subst h; split; [apply Z.div_le_lower_bound|apply Z.div_lt_upper_bound]; lia).
  rewrite (Hf h Hh). cbn [obind]. destruct (p h) eqn:Ep; cbn [negb].
  - destruct (IH i h) as (k & -> & Hk & Hlo & Hhi); [lia|lia| | |].
    + intros x Hx. apply Hf. lia.
    + intros x y Hx Hy. apply Hmono; lia.
    + exists k. split_and!; [done|lia|lia|done|]. intros x Hx. destruct (Z.lt_ge_cases x h); [apply Hhi; lia|].
      apply (Hmono h); [lia|lia|done].
  - destruct (IH (h + 1) j) as (k & -> & Hk & Hlo & Hhi); [lia|lia| | |].
    + intros x Hx. apply Hf. lia.
    + intros x y Hx Hy. apply Hmono; lia.
    + exists k. split_and!; [done|lia|lia| |done]. intros x Hx. destruct (Z.lt_ge_cases h x); [apply Hlo; lia|].
      destruct (p x) eqn:Epx; [|done]. rewrite (Hmono x h) in Ep by (try done; lia). done.
Qed.

(** The search over a list whose elements the predicate splits. *)
Lemma search_list {A} (l : list A) (q : A -> bool) (f : Z -> tresult bool) :
  (forall i, f i = let? c := elem_at l i in Ok (q c)) -> StronglySorted (fun x y => q x = true -> q y = true) l ->
  exists k, sort_Search (len l) f = Ok k /\ 0 <= k <= len l
    /\ Forall (fun x => q x = false) (take (Z.to_nat k) l) /\ Forall (fun x => q x = true) (drop (Z.to_nat k) l).
Proof.
  intros Hf Hs. unfold sort_Search.
  assert (forall i x, 0 <= i -> l !! Z.to_nat i = Some x -> f i = Ok (q x)) as Hq
    by (intros i x Hi Hx; rewrite Hf, (elem_at_ok l i x) by done; done).
  destruct (search_spec f (fun i => match l !! Z.to_nat i with Some x => q x | None => true end) (Z.to_nat (len l)) 0 (len l))
    as (k & Hk & Hrange & Hlo & Hhi).
  - pose proof (len_nonneg l). lia.
  - pose proof (len_nonneg l). lia.
  - intros h Hh. destruct (l !! Z.to_nat h) as [x|] eqn:E; [apply Hq; [lia|done]|]. apply lookup_ge_None in E. unfold len in Hh. lia.
  - intros h i Hh Hi. destruct (l !! Z.to_nat i) as [y|] eqn:Ey; [|done].
    destruct (l !! Z.to_nat h) as [x|] eqn:Ex; [|apply lookup_ge_None in Ex; unfold len in Hi; lia].
    destruct (decide (h = i)) as [->|Hne]; [congruence|].
    eapply (strongly_lookup _ _ _ _ _ _ Hs Ex Ey). lia.
  - exists k. split_and!; [done|lia|lia| |]; apply Forall_lookup; intros i x Hx.
    + apply lookup_take_Some in Hx as [Hx Hi]. specialize (Hlo (Z.of_nat i)). rewrite Nat2Z.id, Hx in Hlo. apply Hlo. lia.
    + rewrite lookup_drop in Hx. pose proof (lookup_lt_Some _ _ _ Hx). specialize (Hhi (Z.of_nat (Z.to_nat k + i))).
      rewrite Nat2Z.id, Hx in Hhi. apply Hhi. unfold len in *. lia.
Qed.

(** ** Names compared *)
Lemma Compare_ge a b : (Compare a b >=? 0) = negb (blt a b).
Proof. unfold Compare, blt. by rewrite Z.geb_leb, Z.leb_antisym. Qed.

Lemma Compare_le a b : (Compare a b <=? 0) = negb (blt b a).
Proof.
  unfold Compare, blt, strings_Compare. rewrite (cmp_bytes_antisym b a). by destruct (cmp_bytes b a).
Qed.

Lemma blt_mono_r n a b : blt a b = true -> blt n a = true -> blt n b = true.
Proof. intros Hab Hna. by eapply blt_trans. Qed.

Lemma blt_not_eq a b : blt a b = true -> bytes_eqb a b = false /\ bytes_eqb b a = false.
Proof. intros H. split; apply bytes_eqb_neq; intros ->; by rewrite blt_irrefl in H. Qed.

(** ** The F cards of a run *)
Definition named (name : bytes) (f : FileCard) : bool := bytes_eqb (f_Name f) name.

Lemma find_app_l {A} (p : A -> bool) l k : Forall (fun x => p x = false) l -> List.find p (l ++ k) = List.find p k.
Proof. induction 1 as [|x l Hx _ IH]; [done|]. cbn. by rewrite Hx. Qed.

Lemma find_app_r {A} (p : A -> bool) l k : Forall (fun x => p x = false) k -> List.find p (l ++ k) = List.find p l.
Proof.
  intros Hk. induction l as [|x l IH]; cbn; [|by destruct (p x)]. induction Hk as [|y k Hy _ IHk]; [done|]. cbn. by rewrite Hy.
Qed.

Lemma find_none {A} (p : A -> bool) l : Forall (fun x => p x = false) l -> List.find p l = None.
Proof. intros H. rewrite <- (app_nil_r l). by rewrite find_app_l. Qed.

Lemma findFileCard_spec cards name : ascending file_less cards -> findFileCard cards name = Ok (List.find (named name) cards).
Proof.
  intros Ha. unfold findFileCard.
  destruct (search_list cards (fun c => negb (blt (f_Name c) name))
    (fun i => let? c := elem_at cards i in Ok (Compare (f_Name c) name >=? 0))) as (k & -> & Hk & Hlo & Hhi).
  { intros i. destruct (elem_at cards i) as [c| | |]; cbn; [|done..]. by rewrite Compare_ge. }
  { unfold ascending in Ha. induction Ha as [|c cs _ IH Hc]; constructor; [done|]. eapply Forall_impl; [exact Hc|].
    intros d Hcd Hn. destruct (blt (f_Name d) name) eqn:E; [|done]. by rewrite (blt_trans _ _ _ Hcd E) in Hn. }
  cbn [obind]. rewrite <- (take_drop (Z.to_nat k) cards) at 3.
  assert (Forall (fun c => named name c = false) (take (Z.to_nat k) cards)) as Hbefore.
  { eapply Forall_impl; [exact Hlo|]. intros c Hc. cbn in Hc. apply negb_false_iff in Hc. apply (proj1 (blt_not_eq _ _ Hc)). }
  rewrite find_app_l by done. destruct (drop (Z.to_nat k) cards) as [|c cs] eqn:Ed.
  { apply (f_equal length) in Ed. rewrite length_drop in Ed. cbn in Ed. replace (k <? len cards) with false by (unfold len in *; lia). done. }
  assert (cards !! Z.to_nat k = Some c) as Hc by (by rewrite <- (Nat.add_0_r (Z.to_nat k)), <- lookup_drop, Ed).
  replace (k <? len cards) with true by (apply lookup_lt_Some in Hc; unfold len; lia).
  rewrite (elem_at_ok cards k c) by (lia || done). cbn [obind List.find]. unfold named at 1. destruct (bytes_eqb (f_Name c) name) eqn:En; [done|].
  symmetry. f_equal. apply find_none. rewrite <- (take_drop (Z.to_nat k) cards), Ed in Ha.
  apply ascending_app in Ha as (_ & [_ Hcs]%strongly_cons & _). apply Forall_cons in Hhi as [Hcn _]. apply negb_true_iff in Hcn.
  eapply Forall_impl; [exact Hcs|]. intros d Hcd. cbn in Hcd. apply bytes_eqb_neq in En.
  destruct (blt_total (f_Name c) name) as [H|[H|H]]; [congruence|done|].
  apply (proj2 (blt_not_eq _ _ (blt_trans _ _ _ H Hcd))).
Qed.

(** ** The S card at or before a name *)
Lemma scard_search_eq cards name fuel : forall lo hi, 0 <= lo <= hi ->
  scard_search fuel cards name lo hi
  = search fuel (fun i => let? c := elem_at cards i in Ok (blt name (s_Name c))) lo hi.
Proof.
  induction fuel as [|fuel IH]; intros lo hi Hlh; cbn [scard_search search]; destruct (lo <? hi) eqn:E; try done. zbool.
  rewrite Z.shiftr_div_pow2 by lia. change (2 ^ 1) with 2.
  assert (lo + Z.quot (hi - lo) 2 = (lo + hi) / 2) as ->
    by (rewrite Z.quot_div_nonneg by lia; replace (lo + hi) with (hi - lo + lo * 2) by lia; rewrite Z.div_add by lia; lia).
  assert (lo <= (lo + hi) / 2 < hi) by (split; [apply Z.div_le_lower_bound|apply Z.div_lt_upper_bound]; lia).
  destruct (elem_at cards ((lo + hi) / 2)) as [c| | |]; cbn [obind]; try done.
  rewrite Compare_le. destruct (blt name (s_Name c)); cbn [negb]; apply IH; lia.
Qed.

Definition card_less (c d : SubmanifestCard) : bool := blt (s_Name c) (s_Name d).

Lemma lastSCard_spec cards name : ascending card_less cards ->
  lastSCardAtOrBefore cards name = Ok None /\ Forall (fun c => blt name (s_Name c) = true) cards
  \/ exists pre c post, cards = pre ++ c :: post /\ lastSCardAtOrBefore cards name = Ok (Some c)
     /\ blt name (s_Name c) = false /\ Forall (fun c => blt name (s_Name c) = true) post.
Proof.
  intros Ha. unfold lastSCardAtOrBefore. rewrite scard_search_eq by (pose proof (len_nonneg cards); lia).
  destruct (search_list cards (fun c => blt name (s_Name c))
    (fun i => let? c := elem_at cards i in Ok (blt name (s_Name c)))) as (k & Hs & Hk & Hlo & Hhi).
  { done. }
  { unfold ascending in Ha. induction Ha as [|c cs _ IH Hc]; constructor; [done|]. eapply Forall_impl; [exact Hc|].
    intros d Hcd. by apply blt_mono_r. }
  unfold sort_Search in Hs. replace (Z.to_nat (len cards)) with (length cards) in Hs by (unfold len; lia). rewrite Hs. cbn [obind]. destruct (Z.eqb_spec k 0) as [->|Hne].
  - left. split; [done|]. exact Hhi.
  - right. destruct (cards !! Z.to_nat (k - 1)) as [c|] eqn:Ec; [|apply lookup_ge_None in Ec; unfold len in *; lia].
    rewrite (elem_at_ok cards (k - 1) c) by (lia || done). exists (take (Z.to_nat (k - 1)) cards), c, (drop (Z.to_nat k) cards).
    split_and!; [|done| |done].
    + replace (Z.to_nat k) with (S (Z.to_nat (k - 1))) by lia. by rewrite take_drop_middle.
    + rewrite Forall_lookup in Hlo. apply (Hlo (Z.to_nat (k - 1))). rewrite lookup_take_lt by lia. done.
Qed.

(** ** One name in a grove *)
Section Lookup.
Context (resolve : bytes -> tresult (Deck * Z)) `{SU : !Subtrees resolve}.

Lemma first_named cs ts c : denote_all resolve cs ts -> c ∈ cs -> exists f, f ∈ files_of ts /\ f_Name f = s_Name c.
Proof using.
  induction 1 as [|c' cs t ts Hd Hf Hall IH]; [by intros ?%elem_of_nil|]. intros [->|Hc]%elem_of_cons.
  - destruct (flat t) as [|f fs] eqn:E; [done|]. injection Hf as Hf. exists f. split; [|done].
    rewrite files_of_cons, E. by left.
  - destruct (IH Hc) as (f & ? & ?). exists f. split; [|done]. rewrite files_of_cons. apply elem_of_app. by right.
Qed.

Lemma cards_ascending cs ts : denote_all resolve cs ts -> ascending file_less (files_of ts) -> ascending card_less cs.
Proof using.
  induction 1 as [|c cs t ts Hd Hf Hall IH]; [constructor|]. rewrite files_of_cons.
  intros (_ & Hts & Hcross)%ascending_app. constructor; [by apply IH|]. apply Forall_forall. intros c' Hc'.
  destruct (first_named _ _ _ Hall Hc') as (g & Hg & Hgn). destruct (flat t) as [|f fs]; [done|]. injection Hf as Hf.
  unfold card_less. rewrite <- Hf, <- Hgn. apply (Hcross f g); [by left|done].
Qed.

Lemma denote_all_app pre c post ts : denote_all resolve (pre ++ c :: post) ts -> exists tpre t tpost,
  ts = tpre ++ t :: tpost /\ denote_all resolve pre tpre /\ denotes resolve (s_UUID c) t
  /\ f_Name <$> head (flat t) = Some (s_Name c) /\ denote_all resolve post tpost.
Proof using.
  revert ts. induction pre as [|p pre IH]; cbn [app]; intros ts H; inversion H; subst.
  - exists [], t, ts0. split_and!; [done|constructor|done..].
  - destruct (IH ts0) as (tpre & t0 & tpost & -> & ? & ? & ? & ?); [done|]. exists (t :: tpre), t0, tpost.
    split_and!; [done|by constructor|done..].
Qed.

Lemma files_of_app ts us : files_of (ts ++ us) = files_of ts ++ files_of us.
Proof using. unfold files_of. by rewrite map_app, concat_app. Qed.

(** Every file of a run stands at or after its first card. *)
Lemma files_from_first c cs ts f : denote_all resolve (c :: cs) ts -> ascending file_less (files_of ts) ->
  f ∈ files_of ts -> blt (f_Name f) (s_Name c) = false.
Proof using.
  intros Hall Ha Hf. apply denote_all_first in Hall. destruct (files_of ts) as [|g gs]; [done|].
  injection Hall as <-. by eapply head_least.
Qed.

Lemma run_after name post tpost : denote_all resolve post tpost -> ascending file_less (files_of tpost) ->
  Forall (fun c => blt name (s_Name c) = true) post -> Forall (fun f => named name f = false) (files_of tpost).
Proof using.
  intros Hall Ha Hpost. destruct post as [|c post]; [by inversion Hall; constructor|]. apply Forall_cons in Hpost as [Hc _].
  apply Forall_forall. intros f Hf. pose proof (files_from_first _ _ _ _ Hall Ha Hf) as Hge. apply bytes_eqb_neq. intros He.
  by rewrite He, Hc in Hge.
Qed.

(** Only the subtree at the last card not after the name can hold it. *)
Lemma find_in_subtree name pre c post ts : denote_all resolve (pre ++ c :: post) ts -> ascending file_less (files_of ts) ->
  blt name (s_Name c) = false -> Forall (fun d => blt name (s_Name d) = true) post ->
  exists t, denotes resolve (s_UUID c) t /\ ascending file_less (flat t) /\ t ∈ ts
    /\ List.find (named name) (files_of ts) = List.find (named name) (flat t).
Proof using.
  intros (tpre & t & tpost & -> & Hpre & Ht & Hfirst & Hpost)%denote_all_app.
  rewrite files_of_app, files_of_cons. intros (_ & (Hat & Hapost & _)%ascending_app & Hcross)%ascending_app Hc Hafter.
  exists t. split_and!; [done|done|apply elem_of_app; right; by left|]. rewrite find_app_l, find_app_r; [done|by eapply run_after|].
  apply Forall_forall. intros f Hf. destruct (flat t) as [|g gs]; [done|]. injection Hfirst as Hg.
  assert (blt (f_Name f) (s_Name c) = true) as Hlt by (rewrite <- Hg; apply (Hcross f g); [done|by left]).
  apply bytes_eqb_neq. intros He. by rewrite He, Hc in Hlt.
Qed.

Lemma height_le t ts : t ∈ ts -> (height t <= depth_of ts)%nat.
Proof using.
  induction ts as [|u ts IH]; [by intros ?%elem_of_nil|]. rewrite depth_of_cons.
  intros [->|H%IH]%elem_of_cons; lia.
Qed.

Lemma lookup_spec name levels : forall cards ts resolved, cards <> [] -> denote_all resolve cards ts ->
  ascending file_less (files_of ts) -> (depth_of ts <= levels)%nat -> resolved + Z.of_nat levels <= maxTreeNodes ->
  lookup_loop resolve levels resolved cards name = Ok (List.find (named name) (files_of ts)).
Proof using SU.
  induction levels as [|levels IH]; intros cards ts resolved Hne Hall Ha Hd Hn.
  { destruct cards as [|c cards]; [done|]. inversion Hall as [|? ? t]; subst. exfalso. rewrite depth_of_cons in Hd. destruct t; cbn in Hd; lia. }
  cbn [lookup_loop]. destruct (lastSCard_spec cards name) as [[-> Hbefore]|(pre & c & post & -> & -> & Hc & Hpost)]; [by eapply cards_ascending| |].
  { cbn [obind]. f_equal. symmetry. by eapply find_none, run_after. }
  cbn [obind]. destruct (find_in_subtree name pre c post ts) as (t & Ht & Hat & Hin & ->); [done..|].
  pose proof (height_le _ _ Hin) as Hh. unfold load. inversion Ht as [u sub rid Hr HF|u sub rid us Hr HF HS Hus]; subst.
  all: rewrite (proj2 (bytes_eqb_neq _ _)) by (by eapply resolve_nonempty).
  all: replace (resolved >=? maxTreeNodes) with false by lia; rewrite Hr; cbn [obind].
  - destruct (d_F sub) as [|f fs] eqn:EF; [done|].
    replace (len (f :: fs) >? 0) with true by (rewrite len_cons; pose proof (len_nonneg fs); lia). by apply findFileCard_spec.
  - rewrite HF. change (len [] >? 0) with false. cbv iota. apply IH; [done|done|done| |lia].
    cbn [height] in Hh. fold (depth_of us) in Hh. lia.
Qed.

Lemma lookupTree_grove d ts name : isTree d = true -> grove resolve (d_S d) ts ->
  lookupTree resolve d name = Ok (List.find (named name) (files_of ts)).
Proof using SU.
  intros Ht [Hall Ha Hd Hn]. unfold lookupTree. rewrite Ht. cbn [negb]. apply lookup_spec; [|done|done|unfold maxTreeDepth in *; lia|done].
  by destruct (isTree_cards d Ht) as (c & cs & ->).
Qed.
End Lookup.
