(* ===== verification/FilesProps.v ===== *)
(** * The file set of a check-in: the listing and the lookup agree

    The store resolves sub-manifests as [Subtrees] asks; a delta's merge, a flat
    manifest and a tree all list ascending names, and looking a name up answers
    what the listing holds. *)

From Stdlib Require Import Sorted.
From stdpp Require Import base list gmap.
From S2P Require Import Cone ConeCorrect ConeSpec Prelude GoMap GoStd GoCrypto Hash Zlib Delta Deck Legality Parse ParseCorrect DeckWf Canonical CodecParsed Submanifest Store Content ContentSpec Cache Tree TreeWalk TreeLookup.

(** ** Cards found by name *)
Lemma file_less_sw : strict_weak file_less.
Proof. exact (strict_weak_key f_Name). Qed.

Lemma named_eq name f : named name f = true <-> f_Name f = name.
Proof. apply bytes_eqb_eq. Qed.

Lemma find_ascending l f : ascending file_less l -> f ∈ l -> List.find (named (f_Name f)) l = Some f.
Proof.
  intros Ha Hf. apply list_elem_of_split in Hf as (pre & post & ->). apply ascending_app in Ha as (_ & _ & Hx).
  rewrite find_app_l.
  - cbn. unfold named. by rewrite bytes_eqb_refl.
  - apply Forall_forall. intros g Hg. apply (proj1 (blt_not_eq _ _ (Hx g f Hg ltac:(by left)))).
Qed.

Lemma find_elem l name f : List.find (named name) l = Some f -> f ∈ l /\ f_Name f = name.
Proof. intros H. apply find_some in H as [H1%list_elem_of_In H2%named_eq]. done. Qed.

Lemma ascending_names l : ascending file_less l -> NoDup (map f_Name l).
Proof.
  unfold ascending. induction 1 as [|x l _ IH Hx]; cbn; constructor; [|done]. intros (y & He & Hy)%list_elem_of_fmap.
  rewrite Forall_forall in Hx. specialize (Hx y Hy). unfold file_less in Hx. rewrite He in Hx.
  pose proof (blt_irrefl (f_Name y)) as Hirr. unfold blt in Hirr. unfold Compare in Hx. congruence.
Qed.

(** An ascending list is determined by what looking names up in it finds. *)
Lemma ascending_find_eq l k : ascending file_less l -> ascending file_less k ->
  (forall name, List.find (named name) l = List.find (named name) k) -> l = k.
Proof.
  intros Hl Hk H. assert (forall l, ascending file_less l -> NoDup l) as Hnd by (intros m Hm; by eapply NoDup_fmap_1, ascending_names).
  apply (ascending_unique file_less).
  - exact file_less_sw.
  - exact Hk.
  - clear H. unfold ascending in Hl. induction Hl as [|x m _ IH Hx]; constructor; [done|].
    eapply Forall_impl; [exact Hx|]. intros y Hxy.
    destruct (file_less y x) eqn:E; [|done]. pose proof (sw_trans _ file_less_sw _ _ _ Hxy E) as Hc.
    by rewrite (sw_irrefl _ file_less_sw x) in Hc.
  - symmetry. apply NoDup_Permutation; [auto..|]. intros f. split; intros Hf.
    + apply (find_elem l (f_Name f)). rewrite H. by apply find_ascending.
    + apply (find_elem k (f_Name f)). rewrite <- H. by apply find_ascending.
Qed.

(** ** The merge of a delta *)
Definition live (f : FileCard) : option FileCard := if empty (f_UUID f) then None else Some f.

Section Merge.
Context `{GS : !GoSort}.

Definition keyed (m : gmap bytes FileCard) : Prop := forall k f, m !! k = Some f -> f_Name f = k /\ empty (f_UUID f) = false.

(** A fold that acts on the key of each card reads back the card of a name. *)
Lemma fold_lookup (act : gmap bytes FileCard -> FileCard -> gmap bytes FileCard) (read : FileCard -> option FileCard -> option FileCard) l :
  (forall m f, act m f !! f_Name f = read f (m !! f_Name f)) -> (forall m f k, k <> f_Name f -> act m f !! k = m !! k) ->
  NoDup (map f_Name l) -> forall m k, fold_left act l m !! k = match List.find (named k) l with Some f => read f (m !! k) | None => m !! k end.
Proof using.
  intros Hact Hother. induction l as [|f l IH]; intros Hnd m k; [done|]. cbn in Hnd. apply NoDup_cons in Hnd as [Hni Hnd].
  cbn [fold_left List.find]. rewrite (IH Hnd). unfold named at 2. destruct (bytes_eqb (f_Name f) k) eqn:E.
  - apply bytes_eqb_eq in E as <-. rewrite TreeLookup.find_none; [apply Hact|]. apply Forall_forall. intros g Hg. apply bytes_eqb_neq.
    intros He. apply Hni. rewrite <- He. by apply list_elem_of_fmap_2.
  - apply bytes_eqb_neq in E. by rewrite Hother by done.
Qed.

Lemma fold_keyed (act : gmap bytes FileCard -> FileCard -> gmap bytes FileCard) l m :
  (forall m f, keyed m -> keyed (act m f)) -> keyed m -> keyed (fold_left act l m).
Proof using. intros Hact. revert m. induction l as [|f l IH]; intros m Hm; [done|]. apply IH. by apply Hact. Qed.

Lemma keyed_insert m f : empty (f_UUID f) = false -> keyed m -> keyed (<[f_Name f := f]> m).
Proof using.
  intros He Hm k g. destruct (decide (f_Name f = k)) as [<-|Hne]; [rewrite lookup_insert_eq; by intros [= <-]|].
  rewrite lookup_insert_ne by done. apply Hm.
Qed.

(** The values of a map keyed by their names, sorted. *)
Lemma sorted_values m : keyed m -> ascending file_less (sort_slice file_less (map snd (map_to_list m)))
  /\ forall name, List.find (named name) (sort_slice file_less (map snd (map_to_list m))) = m !! name.
Proof using.
  intros Hm. set (l := sort_slice _ _). assert (Permutation l (map snd (map_to_list m))) as Hp by apply sort_slice_perm.
  assert (NoDup (map f_Name (map snd (map_to_list m)))) as Hnd.
  { rewrite map_map. rewrite (map_ext_in _ fst); [apply NoDup_fst_map_to_list|]. intros [k f] Hin. cbn.
    by apply list_elem_of_In, elem_of_map_to_list, Hm in Hin as [? _]. }
  assert (ascending file_less l) as Ha.
  { apply sortedb_ascending; [exact file_less_sw|]. by apply (sort_slice_nodup f_Name). }
  split; [done|]. intros name. assert (forall f, f ∈ l <-> m !! f_Name f = Some f) as Hin.
  { intros f. rewrite Hp. split.
    - intros ([k g] & -> & Hk)%list_elem_of_fmap. apply elem_of_map_to_list in Hk as Hk'. cbn. by destruct (Hm _ _ Hk') as [-> _].
    - intros Hf. apply list_elem_of_fmap. exists (f_Name f, f). split; [done|]. by apply elem_of_map_to_list. }
  destruct (m !! name) as [f|] eqn:E.
  - pose proof (proj1 (Hm _ _ E)) as <-. apply find_ascending; [done|]. by apply Hin.
  - destruct (List.find _ l) as [f|] eqn:Ef; [|done]. apply find_elem in Ef as [Hf <-]. apply Hin in Hf. congruence.
Qed.

Lemma mergeDeltaCards_spec base own : ascending file_less base -> ascending file_less own ->
  ascending file_less (mergeDeltaCards base own)
  /\ forall name, List.find (named name) (mergeDeltaCards base own)
     = match List.find (named name) own with Some f => live f | None => List.find (named name) base ≫= live end.
Proof using.
  intros Hb Ho. unfold mergeDeltaCards. set (m1 := fold_left _ base _). set (m2 := fold_left overlay own m1).
  assert (keyed m2) as Hk2.
  { apply fold_keyed; [|apply fold_keyed; [|intros k f; by rewrite lookup_empty]].
    - intros m f Hm. unfold overlay. destruct (empty (f_UUID f)) eqn:E; [|by apply keyed_insert].
      intros k g Hg. apply lookup_delete_Some in Hg as [_ Hg]. by apply Hm.
    - intros m f Hm. destruct (empty (f_UUID f)) eqn:E; [done|by apply keyed_insert]. }
  destruct (sorted_values m2 Hk2) as [Ha Hf]. split; [done|]. intros name. rewrite Hf. subst m2.
  rewrite (fold_lookup overlay (fun f _ => live f)) by (try apply ascending_names; try done; unfold overlay, live;
    intros m f; destruct (empty (f_UUID f)); intros; by rewrite ?lookup_delete_eq, ?lookup_insert_eq, ?lookup_delete_ne, ?lookup_insert_ne).
  destruct (List.find (named name) own); [done|]. subst m1.
  rewrite (fold_lookup _ (fun f o => if empty (f_UUID f) then o else Some f)) by (try apply ascending_names; try done;
    intros m f; destruct (empty (f_UUID f)); intros; by rewrite ?lookup_insert_eq, ?lookup_insert_ne).
  rewrite lookup_empty. unfold live. by destruct (List.find (named name) base).
Qed.
End Merge.

(** ** The store as a source of sub-manifests *)
Section Source.
Context `{ZL : !Zlib} `{S3 : !Sha3} `{GS : !GoSort} (growslice : Z -> Z -> Z) (Hg : forall old need, need <= growslice old need).
Context (s : store) (Hs : readable s).
Abbreviation resolve := (loader_of growslice s).

Lemma wrap_ok {E F A} (f : E -> F) (m : outcome E A) a : wrap_err f m = Ok a <-> m = Ok a.
Proof using. destruct m; cbn; naive_solver. Qed.

Lemma available_rid uuid rid : CheckAvailableByUUID s uuid = Ok (Some rid) -> uuid <> [] /\ 0 < rid.
Proof using.
  unfold CheckAvailableByUUID. destruct (bytes_eqb uuid []) eqn:E; [done|]. apply bytes_eqb_neq in E.
  destruct (rid_of s uuid) as [r|]; [|done]. unfold checkAvailable. destruct (r <=? 0) eqn:Er; [done|]. zbool.
  destruct (available_loop _ _ _ _); [|done]. intros [= <-]. split; [done|lia].
Qed.

(** What a resolved sub-manifest is: the parse of what its row expands to. *)
Lemma loader_inv uuid d rid : resolve uuid = Ok (d, rid) -> uuid <> [] /\ 0 < rid /\ d_Type d = Submanifest
  /\ exists data, Expand growslice s rid = Ok data /\ Parse (Some data) = Ok d.
Proof using.
  unfold loader_of. intros (r & Hr%wrap_ok & H)%obind_ok. destruct r as [r|]; [|done].
  apply obind_ok in H as (data & He%wrap_ok & H). apply obind_ok in H as (sub & Hp%wrap_ok & H).
  destruct (bool_decide (d_Type sub = Submanifest)) eqn:Et; [|done]. cbn [negb] in H. injection H as -> ->.
  apply bool_decide_eq_true in Et. destruct (available_rid _ _ Hr). split_and!; [done|done|done|]. by exists data.
Qed.

Lemma submanifest_shape data d : Parse (Some data) = Ok d -> d_Type d = Submanifest ->
  (d_F d <> [] \/ d_S d <> []) /\ empty (d_B d) = true.
Proof using.
  intros (_ & Hsem & Hcards & _)%Parse_legal Ht. unfold checkSemantics, checkSubmanifest in Hsem. rewrite Ht in *. split.
  - destruct (d_F d); [|by left]. destruct (d_S d); [done|by right].
  - destruct (empty (d_B d)) eqn:E; [done|]. exfalso.
    assert (bool_decide (x42 ∈ fst (card_rows Submanifest)) = true) as Hin; [|by vm_compute in Hin].
    apply bool_decide_eq_true, Hcards; [by apply (bool_decide_eq_true_1 (x42 ∈ card_letters))|cbn; by rewrite E].
Qed.

#[export] Instance loader_Subtrees : Subtrees resolve.
Proof using Hs Hg.
  split.
  - intros u d r H. apply (loader_inv _ _ _ H).
  - intros u Hu. unfold loader_of, CheckAvailableByUUID. rewrite (proj2 (bytes_eqb_neq _ _)) by done. cbn [wrap_err from_store obind].
    destruct (rid_of s u) as [r|]; [|done]. unfold checkAvailable. destruct (r <=? 0) eqn:E; [done|]. zbool.
    destruct (available_loop _ _ _ _); [|done]. destruct (Expand_runs growslice s Hs Hg r) as [H _]; [lia|].
    destruct (Expand growslice s r) as [data| | |]; try done. cbn [wrap_err obind]. pose proof (Parse_returns data) as Hp.
    destruct (Parse (Some data)) as [d| | |]; try done. cbn [wrap_err obind]. by destruct (negb _).
  - intros u d r H. by apply loader_inv in H as (_ & ? & _).
  - intros u v d d' r H1 H2. apply loader_inv in H1 as (_ & _ & _ & b & He & Hp). apply loader_inv in H2 as (_ & _ & _ & b' & He' & Hp').
    assert (b = b') as -> by congruence. congruence.
  - intros u d r H. apply loader_inv in H as (_ & _ & Ht & b & _ & Hp). apply (submanifest_shape b d Hp Ht).
  - intros u d r H. apply loader_inv in H as (_ & _ & Ht & b & _ & Hp). destruct (submanifest_shape b d Hp Ht) as [_ HB].
    apply Parse_legal in Hp as (Hwf & _). unfold wf_fields, lists_wf in Hwf. rewrite !andb_true_iff in Hwf. rewrite HB in Hwf. tauto.
  - intros u d r H. apply loader_inv in H as (_ & _ & _ & b & _ & Hp). apply Parse_legal in Hp as (Hwf & _).
    unfold wf_fields, lists_wf in Hwf. rewrite !andb_true_iff in Hwf. tauto.
Qed.

(** ** A parsed check-in *)
Record parsed (d : Deck) : Prop := {
  parsed_files : forallb (file_wf (negb (empty (d_B d)))) (d_F d) = true;
  parsed_order : ascending file_less (d_F d);
  parsed_cards : forallb submanifest_wf (d_S d) = true;
  parsed_tree : isTree d = true -> empty (d_B d) = true /\ d_F d = [];
}.

Lemma Parse_parsed data d : Parse (Some data) = Ok d -> parsed d.
Proof using.
  intros (Hwf & Hsem & _)%Parse_legal. unfold wf_fields, lists_wf in Hwf. rewrite !andb_true_iff in Hwf.
  split; [tauto|apply sortedb_ascending; [exact file_less_sw|tauto]|tauto|].
  unfold isTree. intros [Ht Hl]%andb_true_iff. apply bool_decide_eq_true in Ht. unfold checkSemantics, checkTreeManifest in Hsem.
  rewrite Ht in Hsem. destruct (len (d_S d) =? 0) eqn:E; zbool; [lia|]. destruct (empty (d_B d)); [|done]. split; [done|].
  cbn [negb] in Hsem. destruct (d_F d) as [|f fs]; [done|]. rewrite len_cons in Hsem. pose proof (len_nonneg fs).
  replace (1 + len fs >? 0) with true in Hsem by lia. done.
Qed.

Lemma file_hash f : file_wf false f = true -> empty (f_UUID f) = false.
Proof using. unfold file_wf. rewrite !andb_true_iff. destruct (empty (f_UUID f)); naive_solver. Qed.

Lemma denotes_files :
  (forall u t, denotes resolve u t -> forallb (file_wf false) (flat t) = true)
  /\ (forall cs ts, denote_all resolve cs ts -> forallb (file_wf false) (files_of ts) = true).
Proof using Hs Hg.
  apply (denotes_ind2 resolve).
  - intros u sub rid Hu _. by eapply resolve_files.
  - done.
  - done.
  - intros c cs t ts _ IHt _ _ IHts. rewrite files_of_cons, forallb_app. by rewrite IHt, IHts.
Qed.
(** ** The cards a manifest's baseline lists *)
Definition hashed (cards : list FileCard) : Prop := Forall (fun f => empty (f_UUID f) = false) cards.

Lemma file_wf_hashed fs : forallb (file_wf false) fs = true -> hashed fs.
Proof using. rewrite forallb_forall. intros H. apply Forall_forall. intros f Hf. by apply file_hash, H, list_elem_of_In. Qed.

Definition own_lookup (b : Deck) (name : bytes) : tresult (option FileCard) :=
  if isTree b then lookupTree resolve b name else findFileCard (d_F b) name.

Lemma baseline_cards b cards : parsed b -> baselineFileCardsFiltered growslice s b None = Ok cards ->
  ascending file_less cards /\ (empty (d_B b) = true -> hashed cards)
  /\ (forall name, own_lookup b name = Ok (List.find (named name) cards))
  /\ forall filter, sound_filter filter -> exists narrow, baselineFileCardsFiltered growslice s b filter = Ok narrow
       /\ (narrow = cards \/ narrow = narrowed filter cards).
Proof using Hs Hg.
  intros [Hf Ho _ _] H. unfold baselineFileCardsFiltered, own_lookup in *. destruct (isTree b) eqn:Et.
  - fold (walkTree resolve b) in H. apply (proj1 (walkTree_grove resolve b cards Et)) in H as (ts & Hgr & ->). split_and!.
    + apply Hgr.
    + intros _. apply file_wf_hashed. by eapply (proj2 denotes_files), Hgr.
    + intros name. apply (lookupTree_grove resolve b ts name Et Hgr).
    + intros filter Hsound. exists (narrowed filter (files_of ts)). split; [apply (walk_grove resolve b filter Et Hsound ts Hgr)|by right].
  - injection H as <-. split_and!; [done| | |].
    + intros HB. rewrite HB in Hf. by apply file_wf_hashed.
    + intros name. by apply findFileCard_spec.
    + intros filter _. exists (d_F b). split; [done|by left].
Qed.

Lemma loadBaseline_inv d b : loadBaseline growslice s d = Ok b -> d_Type b = Checkin /\ parsed b.
Proof using.
  unfold loadBaseline. destruct (empty (d_B d)); [done|]. intros (r & _ & H)%obind_ok. destruct r as [r|]; [|done].
  apply obind_ok in H as (b' & Hb%wrap_ok & H). destruct (bool_decide (d_Type b' = Checkin)) eqn:Et; [|done].
  apply bool_decide_eq_true in Et. injection H as <-. split; [done|]. unfold parseManifestAt in Hb.
  apply obind_ok in Hb as (data & _ & Hb). destruct (len data =? 0); [done|]. apply wrap_ok in Hb. by eapply Parse_parsed.
Qed.

(** ** The cards of a check-in *)
Lemma live_hashed cards name : hashed cards -> List.find (named name) cards ≫= live = List.find (named name) cards.
Proof using.
  intros Hh. destruct (List.find (named name) cards) as [f|] eqn:E; [|done]. apply find_elem in E as [Hf _].
  unfold hashed in Hh. rewrite Forall_forall in Hh. cbn. unfold live. by rewrite (Hh f Hf).
Qed.

Lemma checkin_cards d cards : parsed d -> checkinFileCards growslice s d = Ok cards ->
  ascending file_less cards /\ hashed cards
  /\ forall name, exists c, lookupFileCard growslice s d name = Ok c /\ c ≫= live = List.find (named name) cards.
Proof using Hs Hg.
  intros Hd. unfold checkinFileCards, checkinFileCardsFiltered, lookupFileCard.
  destruct (bool_decide (d_Type d = Submanifest)); [done|]. destruct (empty (d_B d)) eqn:HB.
  - intros H. destruct (baseline_cards d cards Hd H) as (Ha & Hh & Hl & _). specialize (Hh HB). split_and!; [done|done|].
    intros name. specialize (Hl name). unfold own_lookup in Hl. exists (List.find (named name) cards). split; [|by apply live_hashed].
    destruct (isTree d); [done|]. rewrite Hl. cbn [obind]. by destruct (List.find (named name) cards).
  - intros (b & Hb & H)%obind_ok. apply obind_ok in H as (base & Hbase & H). injection H as <-.
    destruct (loadBaseline_inv d b Hb) as [_ Hpb]. destruct (baseline_cards b base Hpb Hbase) as (Ha & _ & Hl & _).
    destruct (mergeDeltaCards_spec base (d_F d) Ha (parsed_order d Hd)) as [Hma Hm].
    assert (isTree d = false) as -> by (destruct (isTree d) eqn:Et; [|done]; apply (parsed_tree d Hd) in Et as [? _]; congruence).
    assert (forall name, (match List.find (named name) (d_F d) with Some f => live f | None => List.find (named name) base ≫= live end)
      = List.find (named name) (mergeDeltaCards base (d_F d))) as Hm' by (intros name; by rewrite Hm).
    split_and!; [done| |].
    + apply Forall_forall. intros f Hf. pose proof (find_ascending _ f Hma Hf) as He. rewrite <- Hm' in He.
      assert (forall g, live g = Some f -> empty (f_UUID f) = false) as Hlive
        by (intros g; unfold live; destruct (empty (f_UUID g)) eqn:E; [done|by intros [= <-]]).
      destruct (List.find _ (d_F d)); [by eapply Hlive|]. destruct (List.find _ base); [by eapply Hlive|done].
    + intros name. rewrite <- Hm'. rewrite (findFileCard_spec _ name (parsed_order d Hd)). cbn [obind].
      destruct (List.find (named name) (d_F d)) as [f|]; [by exists (Some f)|]. rewrite Hb. cbn [obind].
      specialize (Hl name). unfold own_lookup in Hl. exists (List.find (named name) base). by destruct (isTree b).
Qed.

(** ** Entries *)
Definition entry_of (f : FileCard) : FileEntry := mk_FileEntry (f_Name f) (f_UUID f) (f_Perm f).

Lemma fCardsToEntries_spec cards : ascending file_less cards -> fCardsToEntries cards = map entry_of cards.
Proof using.
  intros Ha. unfold fCardsToEntries. apply sort_slice_ascending; [exact (strict_weak_key fe_Name)|].
  unfold ascending in *. induction Ha as [|f fs _ IH Hf]; cbn; constructor; [done|].
  apply Forall_map. exact Hf.
Qed.

Lemma find_entry cards name : List.find (fun e => bytes_eqb (fe_Name e) name) (map entry_of cards)
  = entry_of <$> List.find (named name) cards.
Proof using. induction cards as [|f fs IH]; [done|]. cbn. unfold named at 1. by destruct (bytes_eqb (f_Name f) name). Qed.

Lemma GetManifest_inv rid d : GetManifest growslice s rid = Ok d -> 0 < rid /\ parsed d.
Proof using.
  unfold GetManifest. destruct (rid <=? 0) eqn:E; [done|]. zbool. intros (data & _ & H%wrap_ok)%obind_ok.
  split; [lia|by eapply Parse_parsed].
Qed.

Lemma ListFiles_inv rid entries : ListFiles growslice s rid = Ok entries -> exists d cards,
  GetManifest growslice s rid = Ok d /\ parsed d /\ checkinFileCards growslice s d = Ok cards /\ entries = map entry_of cards.
Proof using Hs Hg.
  unfold ListFiles. intros (d & Hd%wrap_ok & H)%obind_ok. apply obind_ok in H as (cards & Hc%wrap_ok & H). injection H as <-.
  destruct (GetManifest_inv rid d Hd) as [_ Hp]. exists d, cards. split_and!; [done..|].
  apply fCardsToEntries_spec. by apply (checkin_cards d).
Qed.
End Source.

(** * What reading a check-in's file set promises

    Properties of [Tree], with their witnesses on a repository that holds a flat
    check-in, a tree check-in and a delta over it. *)

(** ** Nothing panics or runs on *)
Lemma search_returns (f : Z -> tresult bool) fuel : forall i j, 0 <= i <= j -> j - i <= Z.of_nat fuel ->
  (forall h, i <= h < j -> exists b, f h = Ok b) -> exists k, search fuel f i j = Ok k /\ i <= k <= j.
Proof.
  induction fuel as [|fuel IH]; intros i j Hij Hfuel Hf; cbn [search].
  { replace (i <? j) with false by lia. exists i. split; [done|lia]. }
  destruct (i <? j) eqn:E; [|exists i; zbool; split; [done|lia]]. zbool.
  rewrite Z.shiftr_div_pow2 by lia. change (2 ^ 1) with 2.
  assert (i <= (i + j) / 2 < j) as Hh by (split; [apply Z.div_le_lower_bound|apply Z.div_lt_upper_bound]; lia).
  destruct (Hf _ Hh) as [b ->]. cbn [obind]. destruct (negb b).
  - destruct (IH ((i + j) / 2 + 1) j) as (k & -> & ?); [lia|lia|intros h ?; apply Hf; lia|]. exists k. split; [done|lia].
  - destruct (IH i ((i + j) / 2)) as (k & -> & ?); [lia|lia|intros h ?; apply Hf; lia|]. exists k. split; [done|lia].
Qed.

Lemma elem_at_in {E A} (l : list A) i : 0 <= i < len l -> exists x, x ∈ l /\ @elem_at E A l i = Ok x.
Proof.
  intros Hi. destruct (@elem_at_some E A l i Hi) as (x & Hx & He). exists x. split; [by apply list_elem_of_lookup_2 in Hx|done].
Qed.

Lemma findFileCard_returns cards name : returns (findFileCard cards name).
Proof.
  unfold findFileCard, sort_Search. pose proof (len_nonneg cards) as Hl.
  edestruct (search_returns (fun i => let? c := elem_at cards i in Ok (Compare (f_Name c) name >=? 0)) (Z.to_nat (len cards)) 0 (len cards))
    as (k & -> & Hk); [lia|lia| |].
  { intros h Hh. destruct (elem_at_in (E:=tree_error) cards h Hh) as (x & _ & ->). by eexists. }
  cbn [obind]. destruct (k <? len cards) eqn:E; [|done]. zbool.
  destruct (elem_at_in (E:=tree_error) cards k) as (x & _ & ->); [lia|done].
Qed.

Lemma lastSCard_returns cards name : exists r, lastSCardAtOrBefore cards name = Ok r /\ forall c, r = Some c -> c ∈ cards.
Proof.
  unfold lastSCardAtOrBefore. pose proof (len_nonneg cards) as Hl. rewrite scard_search_eq by lia.
  edestruct (search_returns (fun i => let? c := elem_at cards i in Ok (blt name (s_Name c))) (length cards) 0 (len cards))
    as (k & -> & Hk); [lia|unfold len; lia| |].
  { intros h Hh. destruct (elem_at_in (E:=tree_error) cards h Hh) as (x & _ & ->). by eexists. }
  cbn [obind]. destruct (Z.eqb_spec k 0); [by exists None|].
  destruct (elem_at_in (E:=tree_error) cards (k - 1)) as (x & Hx & ->); [lia|]. exists (Some x). split; [done|by intros ? [= <-]].
Qed.

Section Returns.
Context (resolve : bytes -> tresult (Deck * Z)) `{SU : !Subtrees resolve}.

Lemma lookup_loop_returns name levels : forall resolved cards, cards <> [] -> forallb submanifest_wf cards = true ->
  returns (lookup_loop resolve levels resolved cards name).
Proof using SU.
  induction levels as [|levels IH]; intros resolved cards Hne Hc; cbn [lookup_loop].
  { by destruct cards as [|c cards]. }
  destruct (lastSCard_returns cards name) as (r & -> & Hr). cbn [obind]. destruct r as [card|]; [|done].
  assert (submanifest_wf card = true) as Hcard by (rewrite forallb_forall in Hc; by apply Hc, list_elem_of_In, Hr).
  apply card_uuid in Hcard as Hu. unfold load. rewrite (proj2 (bytes_eqb_neq _ _) Hu). destruct (_ >=? _); [done|].
  pose proof (resolve_returns _ Hu) as Hret. destruct (resolve (s_UUID card)) as [[sub rid]|e| |] eqn:Er; try done. cbn [obind].
  destruct (d_F sub) as [|f fs] eqn:EF.
  - change (len [] >? 0) with false. cbv iota. apply IH; [|by eapply resolve_cards].
    by destruct (resolve_shape _ _ _ Er).
  - destruct (len (f :: fs) >? 0) eqn:E; [apply findFileCard_returns|]. rewrite len_cons in E. pose proof (len_nonneg fs). lia.
Qed.

Lemma lookupTree_returns d name : isTree d = true -> forallb submanifest_wf (d_S d) = true -> returns (lookupTree resolve d name).
Proof using SU.
  intros Ht Hc. unfold lookupTree. rewrite Ht. cbn [negb]. apply lookup_loop_returns; [|done].
  by destruct (isTree_cards d Ht) as (c & cs & ->).
Qed.
End Returns.

(** ** Each reader returns *)
Section Total.
Context `{ZL : !Zlib} `{S3 : !Sha3} `{GS : !GoSort} (growslice : Z -> Z -> Z) (Hg : forall old need, need <= growslice old need).
Context (s : store) (Hs : readable s).

Lemma Expand_returns rid : 0 < rid -> returns (Expand growslice s rid).
Proof using Hs Hg. intros Hpos. by destruct (Expand_runs growslice s Hs Hg rid Hpos). Qed.

Lemma baseline_returns d filter : parsed d -> returns (baselineFileCardsFiltered growslice s d filter).
Proof using Hs Hg.
  intros [_ _ Hc _]. unfold baselineFileCardsFiltered. destruct (isTree d) eqn:E; [|done].
  by apply (walkTree_returns _ (SU := loader_Subtrees growslice Hg s Hs)).
Qed.

Lemma loadBaseline_returns d : empty (d_B d) = false -> returns (loadBaseline growslice s d).
Proof using Hs Hg.
  intros HB. unfold loadBaseline. rewrite HB. destruct (CheckAvailableByUUID s (d_B d)) as [r|e| |] eqn:Ea; [|done| |].
  2,3: unfold CheckAvailableByUUID in Ea; by destruct (d_B d). cbn [wrap_err from_store obind]. destruct r as [r|]; [|done].
  destruct (available_rid _ _ _ Ea) as [_ Hpos]. apply returns_bind; [apply returns_wrap_err|by intros b _; destruct (negb _)].
  unfold parseManifestAt. apply returns_bind; [by apply returns_wrap_err, Expand_returns|]. intros data _.
  destruct (len data =? 0); [done|]. apply returns_wrap_err, Parse_returns.
Qed.

Lemma cards_return d filter : parsed d -> returns (checkinFileCardsFiltered growslice s d filter).
Proof using Hs Hg.
  intros Hp. unfold checkinFileCardsFiltered. destruct (bool_decide _); [done|].
  destruct (empty (d_B d)) eqn:HB; [by apply baseline_returns|].
  apply returns_bind; [by apply loadBaseline_returns|]. intros b Hb. destruct (loadBaseline_inv growslice s d b Hb) as [_ Hpb].
  apply returns_bind; [by apply baseline_returns|done].
Qed.

Lemma lookupFileCard_returns d name : parsed d -> returns (lookupFileCard growslice s d name).
Proof using Hs Hg.
  intros Hp. unfold lookupFileCard.
  assert (forall b, parsed b -> isTree b = true -> returns (lookupTree (loader_of growslice s) b name)) as Htree
    by (intros b [_ _ Hc _] Ht; by apply (lookupTree_returns _ (SU := loader_Subtrees growslice Hg s Hs))).
  destruct (bool_decide _); [done|]. destruct (isTree d) eqn:E; [by apply Htree|].
  apply returns_bind; [apply findFileCard_returns|]. intros own _. destruct own; [done|]. destruct (empty (d_B d)) eqn:HB; [done|].
  apply returns_bind; [by apply loadBaseline_returns|]. intros b Hb. destruct (loadBaseline_inv growslice s d b Hb) as [_ Hpb].
  destruct (isTree b) eqn:Eb; [by apply Htree|apply findFileCard_returns].
Qed.

(** A reader that reads the manifest first. *)
Lemma after_manifest {A} fmt rid (k : Deck -> tresult A) : 0 < rid -> (forall d, parsed d -> returns (k d)) ->
  returns (obind (wrap_err (ErrWrap fmt) (GetManifest growslice s rid)) k).
Proof using Hs Hg.
  intros Hr Hk. apply returns_bind; [|by intros d (_ & Hp)%wrap_ok%GetManifest_inv; apply Hk].
  apply returns_wrap_err. unfold GetManifest. rewrite (proj2 (Z.leb_gt _ _)) by lia.
  apply returns_bind; [by apply returns_wrap_err, Expand_returns|]. intros data _. apply returns_wrap_err, Parse_returns.
Qed.
End Total.

(** ** A narrowed list of cards *)
Lemma find_filter (p : bytes -> bool) l name : List.find (named name) (List.filter (fun f => p (f_Name f)) l)
  = if p name then List.find (named name) l else None.
Proof.
  induction l as [|f l IH]; cbn; [by destruct (p name)|]. destruct (p (f_Name f)) eqn:E; cbn; rewrite ?IH.
  - unfold named at 1 3. destruct (bytes_eqb (f_Name f) name) eqn:En; [|done]. apply bytes_eqb_eq in En as <-. by rewrite E.
  - destruct (p name) eqn:Ep; [|done]. destruct (named name f) eqn:En; [|done]. apply named_eq in En as <-. congruence.
Qed.

Lemma ascending_filter {A} (less : A -> A -> bool) (p : A -> bool) l : ascending less l -> ascending less (List.filter p l).
Proof.
  unfold ascending. induction 1 as [|x l _ IH Hx]; cbn; [constructor|]. destruct (p x); [|done]. constructor; [done|].
  apply Forall_forall. intros y Hy%list_elem_of_In. apply filter_In in Hy as [Hy%list_elem_of_In _]. rewrite Forall_forall in Hx. auto.
Qed.

(** What a cone offers the enumeration. *)
Definition cone_filter (c : Cone) : FileFilter :=
  mk_FileFilter (fun name => match Cone.Covers c name with Ok b => b | _ => false end) (MayCover c).

Section Props.
Context `{ZL : !Zlib} `{S3 : !Sha3} `{GS : !GoSort} (growslice : Z -> Z -> Z) (Hg : forall old need, need <= growslice old need).
Abbreviation resolve s := (loader_of growslice s).

(** C4: the walk of a tree manifest refines the tree it denotes: it answers some
    files exactly when the references spell out finite trees at most 16
    sub-manifests deep, of at most 2^20 sub-manifests, each card named as the
    first file below it, all files in strict name order; and the files are all of
    theirs, in that order.  In every other case it answers an error. *)
Theorem tree_walk_exact s d : readable s -> isTree d = true ->
  (forall files, walkTree (resolve s) d = Ok files <-> exists ts, grove (resolve s) (d_S d) ts /\ files = files_of ts)
  /\ (forallb submanifest_wf (d_S d) = true -> returns (walkTree (resolve s) d)).
Proof using Hg.
  intros Hs Ht. pose proof (loader_Subtrees growslice Hg s Hs) as SU. split.
  - intros files. by apply (walkTree_grove (resolve s)).
  - by apply (walkTree_returns (resolve s)).
Qed.

(** C17: whatever the form of the check-in (flat, a delta, a tree, a delta over a
    tree or over a delta), where its files can be listed they are listed in strict
    name order, each with a hash, and looking any name up answers the entry of that
    name in the listing, or that there is none. *)
Theorem lookup_agrees s rid entries : readable s -> ListFiles growslice s rid = Ok entries ->
  ascending (fun x y => blt (fe_Name x) (fe_Name y)) entries /\ Forall (fun e => fe_UUID e <> []) entries
  /\ forall name, name <> [] -> LookupFile growslice s rid name = Ok (List.find (fun e => bytes_eqb (fe_Name e) name) entries).
Proof using Hg.
  intros Hs (d & cards & Hd & Hp & Hc & ->)%(ListFiles_inv growslice Hg s Hs).
  destruct (checkin_cards growslice Hg s Hs d cards Hp Hc) as (Ha & Hh & Hl). split_and!.
  - unfold ascending in *. clear - Ha. induction Ha as [|f fs _ IH Hf]; cbn; constructor; [done|]. apply Forall_map. exact Hf.
  - apply Forall_map. eapply Forall_impl; [exact Hh|]. intros f Hf He. cbn in *. by rewrite He in Hf.
  - intros name Hn. unfold LookupFile. rewrite (proj2 (bytes_eqb_neq _ _)) by done. rewrite Hd. cbn [wrap_err obind].
    destruct (Hl name) as (c & -> & Hlive). cbn [wrap_err obind]. rewrite find_entry, <- Hlive.
    destruct c as [f|]; [|done]. cbn. unfold fileCardEntry, live. by destruct (empty (f_UUID f)).
Qed.

(** C38: listing through a filter that prunes soundly, as every cone does, answers
    exactly the covered entries of the whole listing. *)
Theorem sparse_listing s rid entries : readable s -> ListFiles growslice s rid = Ok entries ->
  (forall f, sound_filter (Some f) ->
     ListFilesFiltered growslice s rid (Some f) = Ok (List.filter (fun e => ff_Covers f (fe_Name e)) entries))
  /\ (forall c, sound_filter (Some (cone_filter c))).
Proof using Hg.
  intros Hs (d & cards & Hd & Hp & Hc & ->)%(ListFiles_inv growslice Hg s Hs). split.
  2: { intros c name first limit Hcov. apply MayCover_sound. cbn in Hcov. destruct (Cone.Covers c name) as [b| | |]; congruence. }
  intros f Hf. unfold ListFilesFiltered. rewrite Hd. cbn [wrap_err obind].
  assert (exists narrow, checkinFileCardsFiltered growslice s d (Some f) = Ok narrow
    /\ List.filter (fun c => ff_Covers f (f_Name c)) narrow = List.filter (fun c => ff_Covers f (f_Name c)) cards) as (narrow & Hnarrow & Heq).
  { unfold checkinFileCards, checkinFileCardsFiltered in *. destruct (bool_decide (d_Type d = Submanifest)); [done|].
    assert (forall cards, List.filter (fun c => ff_Covers f (f_Name c)) (narrowed (Some f) cards) = List.filter (fun c => ff_Covers f (f_Name c)) cards) as Hidem.
    { intros l. unfold narrowed. cbn [covered]. induction l as [|x l IH]; [done|]. cbn. destruct (ff_Covers f (f_Name x)) eqn:E; [cbn; by rewrite E, IH|done]. }
    destruct (empty (d_B d)).
    - destruct (baseline_cards growslice Hg s Hs d cards Hp Hc) as (_ & _ & _ & Hn). destruct (Hn (Some f) Hf) as (narrow & -> & [->| ->]).
      + by exists cards.
      + exists (narrowed (Some f) cards). by split.
    - apply obind_ok in Hc as (b & Hb & Hc). apply obind_ok in Hc as (base & Hbase & Hc). injection Hc as <-.
      destruct (loadBaseline_inv growslice s d b Hb) as [_ Hpb].
      destruct (baseline_cards growslice Hg s Hs b base Hpb Hbase) as (Ha & _ & _ & Hn). destruct (Hn (Some f) Hf) as (narrow & Hnb & Hor).
      rewrite Hb. cbn [obind]. rewrite Hnb. cbn [obind]. exists (mergeDeltaCards narrow (d_F d)). split; [done|].
      assert (ascending file_less narrow) as Hna by (destruct Hor as [->| ->]; [done|by apply ascending_filter]).
      destruct (mergeDeltaCards_spec narrow (d_F d) Hna (parsed_order d Hp)) as [Hm1 Hf1].
      destruct (mergeDeltaCards_spec base (d_F d) Ha (parsed_order d Hp)) as [Hm2 Hf2].
      apply ascending_find_eq; [by apply ascending_filter..|]. intros name.
      rewrite (find_filter (ff_Covers f)), (find_filter (ff_Covers f)), Hf1, Hf2. destruct (ff_Covers f name) eqn:Ecov; [|done].
      destruct (List.find (named name) (d_F d)); [done|]. destruct Hor as [->| ->]; [done|].
      unfold narrowed. rewrite (find_filter (covered (Some f))). cbn [covered]. by rewrite Ecov. }
  assert (bool_decide (d_Type d = Submanifest) = false) as ->.
  { unfold checkinFileCards, checkinFileCardsFiltered in Hc. by destruct (bool_decide (d_Type d = Submanifest)). }
  rewrite Hnarrow. cbn [wrap_err obind]. rewrite Heq. f_equal.
  rewrite fCardsToEntries_spec; [|apply ascending_filter; by apply (checkin_cards growslice Hg s Hs d)].
  clear. induction cards as [|x l IH]; [done|]. cbn. destruct (ff_Covers f (f_Name x)); cbn; by rewrite IH.
Qed.

(** Reading a file set always returns: on any store whose rows can be read, the
    listings of every artifact, whole or narrowed, and the lookup of every name
    answer or report an error; the walk neither panics nor runs on, whatever the
    sub-manifests refer to. *)
Theorem files_total s rid filter name : readable s -> 0 < rid -> name <> [] ->
  returns (ListFiles growslice s rid) /\ returns (ListFilesFiltered growslice s rid filter) /\ returns (LookupFile growslice s rid name).
Proof using Hg.
  intros Hs Hr Hn. assert (returns (ListFiles growslice s rid)) as Hlist.
  { apply after_manifest; [done..|]. intros d Hp. apply returns_bind; [|done]. by apply returns_wrap_err, cards_return. }
  split_and!; [done| |].
  - destruct filter as [f|]; [|done]. apply after_manifest; [done..|]. intros d Hp. destruct (bool_decide _); [done|].
    apply returns_bind; [|done]. by apply returns_wrap_err, cards_return.
  - unfold LookupFile. rewrite (proj2 (bytes_eqb_neq _ _)) by done. apply after_manifest; [done..|]. intros d Hp.
    apply returns_bind; [|done]. by apply returns_wrap_err, lookupFileCard_returns.
Qed.
End Props.
