(* ===== verification/TreeBuild.v ===== *)
(** * Writing trees: src/internal/manifest/treebuild.go, submanifest_write.go

    The partition of the sorted files by the zero bits of their names' hashes,
    the construction of the leaves and interior levels, and the storing of a
    check-in's tree.  The costs that select and re-tune the parameter are
    floating point and not modelled; a check-in's settings are read elsewhere. *)

From stdpp Require Import gmap.
From stdpp Require Import base list.
From S2P Require Import Prelude GoStd Delta GoText GoCrypto Deck Marshal Zlib Hash GoMap Store Content Tree.

Definition MinPartitionK : Z := 1.
Definition MaxPartitionK : Z := 12.
Definition maxConstructHeight : Z := maxTreeDepth.

(** [bits.LeadingZeros8]. *)
Definition LeadingZeros8 (b : byte) : Z := if bz b =? 0 then 8 else 7 - Z.log2 (bz b).

Fixpoint zero_loop (sum : bytes) (n : Z) : Z :=
  match sum with
  | [] => n
  | b :: sum => if negb (bz b =? 0) then n + LeadingZeros8 b else zero_loop sum (n + 8)
  end.
Definition zeroBits `{!Sha3} (name : bytes) : Z := zero_loop (sha3_Sum256 name) 0.

Definition partitionLimits (k : Z) : tresult (Z * Z) :=
  if (k <? MinPartitionK) || (k >? MaxPartitionK) then Panic "manifest.partitionLimits: k outside 1..12"
  else let span := Z.shiftl 1 k in Ok (Z.quot span 4, 4 * span).

(** The keys from [i] on, the bounds of the groups opened so far. *)
Fixpoint group_scan (zbits : list Z) (i threshold lo hi : Z) (bounds : list Z) : list Z :=
  match zbits with
  | [] => bounds
  | z :: zbits =>
      let open := i - List.last bounds 0 in
      group_scan zbits (i + 1) threshold lo hi
        (if (open =? hi) || ((z >=? threshold) && (open >=? lo)) then bounds ++ [i] else bounds)
  end.

(** A final group too short joins the one before, when the two fit. *)
Definition merge_last (bounds : list Z) (n lo hi : Z) : list Z :=
  match rev bounds with
  | last :: prev :: _ => if (n - last <? lo) && (n - prev <=? hi) then List.removelast bounds else bounds
  | _ => bounds
  end.

Definition partitionGroups (zbits : list Z) (threshold lo hi : Z) : list Z :=
  match zbits with
  | [] => []
  | _ :: rest => merge_last (group_scan rest 1 threshold lo hi [0]) (len zbits) lo hi ++ [len zbits]
  end.

Fixpoint first_keys (zbits : list Z) (bounds : list Z) : tresult (list Z) :=
  match bounds with
  | b :: (_ :: _) as rest => let? z := elem_at zbits b in let? zs := first_keys zbits rest in Ok (z :: zs)
  | _ => Ok []
  end.
Definition firstKeys (zbits bounds : list Z) : tresult (list Z) :=
  match bounds with [] => Panic "makeslice: len out of range" | _ => first_keys zbits bounds end.

(** The interior heights from [h] on. *)
Fixpoint plan_levels (fuel : nat) (h k lo hi : Z) (keys : list Z) (levels : list (list Z)) : tresult (list (list Z)) :=
  match fuel with
  | O => Ok levels
  | S fuel =>
      let bounds := partitionGroups keys ((h + 1) * k) lo hi in
      let groups := len bounds - 1 in
      if (groups =? 1) || (groups =? len keys) then Ok levels
      else let? keys := firstKeys keys bounds in plan_levels fuel (h + 1) k lo hi keys (levels ++ [bounds])
  end.

Definition treePlan (zbits : list Z) (k maxLevels : Z) : tresult (list (list Z)) :=
  let? (lo, hi) := partitionLimits k in
  let leaves := partitionGroups zbits k lo hi in
  if len leaves <? 3 then Ok []
  else
    let? keys := firstKeys zbits leaves in
    plan_levels (Z.to_nat (maxLevels - 1)) 1 k lo hi keys [leaves].

Record Tree := mk_Tree { t_Subs : list bytes; t_S : list SubmanifestCard }.

Section Build.
Context `{GS : !GoSort} {St : Type} (name : bytes -> St -> tresult (bytes * St)).

(** One level: each group written, named and appended to the artifacts. *)
Fixpoint build_level {A} (marshal : list A -> result bytes) (key : A -> bytes) (members : list A) (bounds : list Z)
    (subs : list bytes) (nodes : list SubmanifestCard) (st : St) : tresult (list bytes * list SubmanifestCard * St) :=
  match bounds with
  | lo :: (hi :: _) as rest =>
      let? group := slice_of members lo hi in
      let? data := from_deck (marshal group) in
      let? first := elem_at group 0 in
      let? (uuid, st) := name data st in
      build_level marshal key members rest (subs ++ [data]) (nodes ++ [mk_SubmanifestCard (key first) uuid]) st
  | _ => Ok (subs, nodes, st)
  end.

Fixpoint build_interior (plan : list (list Z)) (subs : list bytes) (nodes : list SubmanifestCard) (st : St)
    : tresult (list bytes * list SubmanifestCard * St) :=
  match plan with
  | [] => Ok (subs, nodes, st)
  | bounds :: plan =>
      let? (subs, nodes, st) := build_level MarshalInterior s_Name nodes bounds subs [] st in
      build_interior plan subs nodes st
  end.

Fixpoint check_files (prev : option bytes) (files : list FileCard) : tresult () :=
  match files with
  | [] => Ok ()
  | f :: files =>
      if empty (f_UUID f) then Panic "manifest.BuildTree: every file must carry a hash"
      else if match prev with Some p => Compare p (f_Name f) >=? 0 | None => false end
      then Panic "manifest.BuildTree: files must ascend strictly by name"
      else check_files (Some (f_Name f)) files
  end.

Definition BuildTree `{S3 : !Sha3} (files : list FileCard) (k : Z) (st : St) : tresult (Tree * St) :=
  let? _ := check_files None files in
  let? plan := treePlan (map (fun f => zeroBits (f_Name f)) files) k maxConstructHeight in
  match plan with
  | [] => Ok (mk_Tree [] [], st)
  | leaves :: interior =>
      let? (subs, nodes, st) := build_level MarshalLeaf f_Name files leaves [] [] st in
      let? (subs, nodes, st) := build_interior interior subs nodes st in
      Ok (mk_Tree subs nodes, st)
  end.
End Build.

(** ** Storing a check-in's tree *)

(** The store, the unsent table, the seen-submanifest setting, and the phantoms
    the call filled. *)
Record commit := mk_commit { cm_store : store; cm_unsent : gset Z; cm_seen : bool; cm_filled : list Z }.

Section Commit.
Context `{ZL : !Zlib} `{S3 : !Sha3} `{GS : !GoSort}.

Definition MarkSeenSubmanifest (c : commit) : commit := mk_commit (cm_store c) (cm_unsent c) true (cm_filled c).

Definition storeSubmanifest (data : bytes) (c : commit) : tresult (bytes * commit) :=
  let? (rid, uuid, outcome, s) := wrap_err (fun e => ErrWrap "store sub-manifest: %w" (ErrRead (FStore e))) (StoreUnderPolicy (cm_store c) data) in
  let filled := match outcome with FilledPhantom => cm_filled c ++ [rid] | _ => cm_filled c end in
  let? wasPrivate := from_store (IsPrivate s rid) in
  let? s := wrap_err (fun e => ErrWrap "publish sub-manifest: %w" (ErrRead (FStore e))) (MakePublic s rid) in
  let unsent := match outcome, wasPrivate with Found, false => cm_unsent c | _, _ => {[rid]} ∪ cm_unsent c end in
  Ok (uuid, mk_commit s unsent (cm_seen c) filled).

(** The S run and the commit; a flat construction stores nothing. *)
Definition storeCheckinTree (files : list FileCard) (k : Z) (c : commit) : tresult (list SubmanifestCard * commit) :=
  let? (tree, c') := BuildTree storeSubmanifest files k (mk_commit (cm_store c) (cm_unsent c) (cm_seen c) []) in
  if len (t_S tree) =? 0 then Ok ([], mk_commit (cm_store c') (cm_unsent c') (cm_seen c') [])
  else Ok (t_S tree, MarkSeenSubmanifest c').

Fixpoint first_twice (files : list FileCard) : option bytes :=
  match files with
  | f :: (g :: _) as rest => if bytes_eqb (f_Name f) (f_Name g) then Some (f_Name g) else first_twice rest
  | _ => None
  end.

(** [storeTreeFor] at the [k] its settings give: the files in canonical order and
    their tree. *)
Definition storeTreeFor (k : Z) (fCards : list FileCard) (c : commit) : tresult (list FileCard * list SubmanifestCard * commit) :=
  if k =? 0 then Ok ([], [], c)
  else
    let files := sort_slice file_less fCards in
    match first_twice files with
    | Some n => failed "file %q is listed twice" [AStr n]
    | None => let? (s, c) := storeCheckinTree files k c in Ok (files, s, c)
    end.
End Commit.

(** * The partition of a check-in's keys into groups *)

(** The sizes of the groups some bounds delimit. *)
Fixpoint sizes (bounds : list Z) : list Z :=
  match bounds with
  | b :: (c :: _) as rest => (c - b) :: sizes rest
  | _ => []
  end.

Lemma sizes_snoc bounds x : bounds <> [] -> sizes (bounds ++ [x]) = sizes bounds ++ [x - List.last bounds 0].
Proof.
  induction bounds as [|b bounds IH]; [done|]. intros _. destruct bounds as [|c bounds]; [done|].
  specialize (IH ltac:(done)). cbn [app] in *. cbn [sizes] in *. rewrite IH. done.
Qed.

Lemma last_snoc_Z (l : list Z) x d : List.last (l ++ [x]) d = x.
Proof. apply last_last. Qed.

Lemma rev_cons_snoc {A} (l : list A) : l <> [] -> exists k y, l = k ++ [y] /\ rev l = y :: rev k /\ forall d, List.last l d = y.
Proof.
  intros Hl. destruct (exists_last Hl) as (k & y & ->). exists k, y. split_and!; [done|by rewrite rev_app_distr|intros d; apply last_last].
Qed.

(** Bounds that cut [n] keys into groups of at least one and at most [hi] keys,
    each of at least [lo] but for the last, which may fall short only where the
    two last would not fit together. *)
Record partition (lo hi n : Z) (bounds : list Z) : Prop := {
  part_bounds : exists inner, bounds = 0 :: inner ++ [n];
  part_sizes : Forall (fun d => 1 <= d <= hi) (sizes bounds);
  part_least : exists ds d, sizes bounds = ds ++ [d] /\ Forall (fun x => lo <= x) ds
    /\ (lo <= d \/ ds = [] \/ hi < List.last ds 0 + d);
}.

Lemma group_scan_spec lo hi zbits : forall i threshold bounds, 0 <= lo <= hi -> 1 <= hi ->
  (exists inner, bounds = 0 :: inner) -> Forall (fun d => 1 <= d <= hi /\ lo <= d) (sizes bounds) ->
  1 <= i - List.last bounds 0 <= hi ->
  let b := group_scan zbits i threshold lo hi bounds in
  (exists inner, b = 0 :: inner) /\ Forall (fun d => 1 <= d <= hi /\ lo <= d) (sizes b)
  /\ 1 <= i + len zbits - List.last b 0 <= hi.
Proof.
  induction zbits as [|z zbits IH]; intros i threshold bounds Hlh Hhi Hb Hs Hi; cbn [group_scan].
  { cbv zeta. replace (i + len (@nil Z)) with i by (rewrite len_nil; lia). done. }
  cbv zeta. rewrite len_cons. replace (i + (1 + len zbits)) with (i + 1 + len zbits) by lia.
  destruct ((i - List.last bounds 0 =? hi) || ((z >=? threshold) && (i - List.last bounds 0 >=? lo))) eqn:E.
  - assert (lo <= i - List.last bounds 0) as Hlo by (rewrite orb_true_iff, andb_true_iff in E; zbool; lia).
    destruct Hb as [inner ->]. apply IH; [done|done|exists (inner ++ [i]); done| |].
    + rewrite sizes_snoc by done. apply Forall_app. split; [done|]. constructor; [lia|constructor].
    + rewrite last_snoc_Z. lia.
  - apply IH; [done|done|done|done|]. apply orb_false_iff in E as [E _]. zbool. lia.
Qed.

(** A partition of nonempty keys is one. *)
Lemma partitionGroups_spec zbits threshold lo hi : 0 <= lo <= hi -> 1 <= hi -> zbits <> [] ->
  partition lo hi (len zbits) (partitionGroups zbits threshold lo hi).
Proof.
  intros Hlh Hhi Hne. destruct zbits as [|z rest]; [done|]. unfold partitionGroups. set (n := len (z :: rest)).
  destruct (group_scan_spec lo hi rest 1 threshold [0]) as ((inner & Hb) & Hs & Hl); [done|done|by exists []|constructor|cbn; lia|].
  replace (1 + len rest) with n in Hl by (subst n; by rewrite len_cons). set (b := group_scan rest 1 threshold lo hi [0]) in *.
  assert (Forall (fun d => 1 <= d <= hi) (sizes b) /\ Forall (fun d => lo <= d) (sizes b)) as [Hs1 Hs2]
    by (split; (eapply Forall_impl; [exact Hs|]); cbn; lia).
  unfold merge_last. destruct (rev_cons_snoc b) as (k & last & Hk & -> & Hlast); [by rewrite Hb|]. rewrite Hlast in Hl.
  destruct k as [|k0 k'] eqn:Ek.
  { cbn in Hk |- *. rewrite Hk in Hb |- *. injection Hb as -> _. split; [by exists []|cbn; constructor; [lia|constructor]|].
    exists [], (n - 0). split_and!; [done|constructor|right; by left]. }
  destruct (rev_cons_snoc k) as (k2 & prev & Hk2 & Hrev & _); [by rewrite Ek|].
  rewrite <- Ek in *. rewrite Hrev. assert (sizes b = sizes k ++ [last - prev]) as Hsz
    by (rewrite Hk, sizes_snoc by (by rewrite Ek); by rewrite Hk2, last_snoc_Z).
  rewrite Hsz in Hs1, Hs2. apply Forall_app in Hs1 as [Hk1 Hd1], Hs2 as [Hk3 Hd2]. apply Forall_cons in Hd1 as [Hd1 _], Hd2 as [Hd2 _].
  destruct ((n - last <? lo) && (n - prev <=? hi)) eqn:E.
  - apply andb_true_iff in E as [E1 E2]. zbool. rewrite Hk, removelast_last.
    assert (exists inner, k = 0 :: inner) as [ki Hki] by (exists k'; rewrite Hk, Ek in Hb; cbn in Hb; congruence).
    assert (sizes (k ++ [n]) = sizes k ++ [n - prev]) as Hszk by (rewrite sizes_snoc by (by rewrite Ek); by rewrite Hk2, last_snoc_Z).
    split; [exists ki; by rewrite Hki| |].
    + rewrite Hszk. apply Forall_app. split; [done|]. constructor; [lia|constructor].
    + exists (sizes k), (n - prev). split_and!; [done|done|left; lia].
  - assert (sizes (b ++ [n]) = sizes b ++ [n - last]) as Hszb by (rewrite sizes_snoc by (by rewrite Hb); by rewrite Hlast).
    split; [exists inner; by rewrite Hb| |]; rewrite Hszb, Hsz.
    + apply Forall_app. split; [apply Forall_app; split; [done|by apply Forall_singleton]|by apply Forall_singleton].
    + exists (sizes k ++ [last - prev]), (n - last). split_and!; [done|apply Forall_app; split; [done|by apply Forall_singleton]|].
      rewrite last_snoc_Z. apply andb_false_iff in E as [E|E]; zbool; [left; lia|right; right; lia].
Qed.

(** ** Bounds as cuts *)
Fixpoint cuts (a : Z) (rest : list Z) (n : Z) : Prop :=
  match rest with [] => a = n | b :: rest => a < b /\ cuts b rest n end.

Lemma cuts_le a rest n : cuts a rest n -> a <= n.
Proof. revert a. induction rest as [|b rest IH]; cbn; [lia|]. intros a [? H%IH]. lia. Qed.

Lemma cuts_count a rest n : cuts a rest n -> len rest <= n - a.
Proof. revert a. induction rest as [|b rest IH]; cbn; intros a; [rewrite len_nil; lia|]. intros [? H%IH]. rewrite len_cons. lia. Qed.

Lemma sizes_cuts rest : forall a n, Forall (fun d => 1 <= d) (sizes (a :: rest)) -> List.last (a :: rest) 0 = n -> cuts a rest n.
Proof.
  induction rest as [|b rest IH]; intros a n Hs Hl; [done|]. cbn [sizes] in Hs. apply Forall_cons in Hs as [Hab Hs].
  split; [lia|]. by apply IH.
Qed.

Lemma partition_cuts lo hi n bounds : partition lo hi n bounds -> exists rest, bounds = 0 :: rest /\ rest <> [] /\ cuts 0 rest n.
Proof.
  intros [[inner ->] Hs _]. exists (inner ++ [n]). split_and!; [done|by destruct inner|]. apply sizes_cuts.
  - eapply Forall_impl; [exact Hs|]. cbn. lia.
  - change (0 :: inner ++ [n]) with ((0 :: inner) ++ [n]). by rewrite last_last.
Qed.

Lemma first_keys_cuts zbits rest : forall a, 0 <= a -> cuts a rest (len zbits) ->
  exists ks, first_keys zbits (a :: rest) = Ok ks /\ length ks = length rest.
Proof.
  induction rest as [|b rest IH]; intros a Ha Hc; [by exists []|]. destruct Hc as [Hab Hc].
  change (first_keys zbits (a :: b :: rest)) with (let? z := elem_at zbits a in let? zs := first_keys zbits (b :: rest) in Ok (z :: zs) : tresult _).
  pose proof (cuts_le _ _ _ Hc). destruct (@elem_at_some tree_error Z zbits a) as (z & _ & ->); [lia|]. cbn [obind].
  destruct (IH b) as (ks & -> & Hk); [lia|done|]. exists (z :: ks). split; [done|]. cbn. by rewrite Hk.
Qed.

Lemma firstKeys_ok lo hi zbits bounds : partition lo hi (len zbits) bounds ->
  exists ks, firstKeys zbits bounds = Ok ks /\ len ks = len bounds - 1 /\ ks <> [].
Proof.
  intros (rest & -> & Hne & Hc)%partition_cuts. destruct (first_keys_cuts zbits rest 0) as (ks & Hk & Hl); [done|done|].
  exists ks. unfold firstKeys. rewrite Hk. split_and!; [done|rewrite len_cons; unfold len; lia|]. intros ->. by destruct rest.
Qed.

(** ** Plans *)

(** Each level partitions the nodes of the level below into at least two groups,
    and each interior level has fewer nodes than the one below. *)
Inductive plan_ok (lo hi : Z) : Z -> list (list Z) -> Prop :=
| plan_end n : plan_ok lo hi n []
| plan_level n bounds plan : partition lo hi n bounds -> 3 <= len bounds -> len bounds - 1 <= n ->
    plan_ok lo hi (len bounds - 1) plan -> plan_ok lo hi n (bounds :: plan).

Lemma plan_levels_spec k lo hi fuel : forall h keys levels, 0 <= lo <= hi -> 1 <= hi -> keys <> [] ->
  exists more, plan_levels fuel h k lo hi keys levels = Ok (levels ++ more) /\ plan_ok lo hi (len keys) more
    /\ (length more <= fuel)%nat.
Proof.
  induction fuel as [|fuel IH]; intros h keys levels Hlh Hhi Hne; cbn [plan_levels].
  { exists []. rewrite app_nil_r. split_and!; [done|constructor|done]. }
  pose proof (partitionGroups_spec keys ((h + 1) * k) lo hi Hlh Hhi Hne) as Hp. set (b := partitionGroups _ _ _ _) in *.
  destruct ((len b - 1 =? 1) || (len b - 1 =? len keys)) eqn:E.
  { exists []. rewrite app_nil_r. split_and!; [done|constructor|cbn; lia]. }
  destruct (firstKeys_ok lo hi keys b Hp) as (ks & -> & Hlen & Hks). cbn [obind].
  destruct (IH (h + 1) ks (levels ++ [b]) Hlh Hhi Hks) as (more & -> & Hm & Hf). exists (b :: more).
  rewrite <- app_assoc. split_and!; [done| |cbn; lia]. apply orb_false_iff in E as [E1 E2]. zbool.
  destruct (partition_cuts _ _ _ _ Hp) as (rest & Hb & Hr & Hc).
  apply cuts_count in Hc. rewrite Hb, len_cons in *.
  assert (1 <= len rest) by (destruct rest; [done|rewrite len_cons; len_lia]).
  constructor; rewrite ?len_cons; [exact Hp|lia|lia|]. rewrite Hlen in Hm. exact Hm.
Qed.

Lemma partitionLimits_ok k : 1 <= k <= 12 -> partitionLimits k = Ok (2 ^ k / 4, 4 * 2 ^ k) /\ 0 <= 2 ^ k / 4 <= 4 * 2 ^ k /\ 8 <= 4 * 2 ^ k.
Proof.
  intros Hk. unfold partitionLimits, MinPartitionK, MaxPartitionK. replace ((k <? 1) || (k >? 12)) with false by lia.
  rewrite Z.shiftl_mul_pow2, Z.mul_1_l by lia. assert (2 ^ 1 <= 2 ^ k) by (apply Z.pow_le_mono_r; lia). change (2 ^ 1) with 2 in *.
  split; [by rewrite Z.quot_div_nonneg by lia|]. split; [|lia]. split; [apply Z.div_pos; lia|]. apply Z.div_le_upper_bound; lia.
Qed.

Lemma treePlan_spec zbits k maxLevels : 1 <= k <= 12 -> 1 <= maxLevels ->
  exists plan, treePlan zbits k maxLevels = Ok plan /\ len plan <= maxLevels /\ plan_ok (2 ^ k / 4) (4 * 2 ^ k) (len zbits) plan
    /\ (plan = [] <-> len (partitionGroups zbits k (2 ^ k / 4) (4 * 2 ^ k)) < 3).
Proof.
  intros Hk Hm. unfold treePlan. destruct (partitionLimits_ok k Hk) as (-> & Hlh & Hhi). cbn [obind].
  set (b := partitionGroups _ _ _ _). destruct (len b <? 3) eqn:E; zbool.
  { exists []. split_and!; [done|rewrite len_nil; lia|constructor|done]. }
  assert (zbits <> []) as Hne by (intros ->; cbn in E; rewrite len_nil in E; lia).
  pose proof (partitionGroups_spec zbits k _ _ Hlh ltac:(lia) Hne) as Hp. fold b in Hp.
  destruct (firstKeys_ok _ _ _ _ Hp) as (ks & -> & Hlen & Hks). cbn [obind].
  destruct (plan_levels_spec k _ _ (Z.to_nat (maxLevels - 1)) 1 ks [b] Hlh ltac:(lia) Hks) as (more & -> & Hmore & Hf).
  exists ([b] ++ more). split_and!; [done|unfold len; cbn; lia| |].
  - constructor; [done|lia| |by rewrite <- Hlen]. destruct (partition_cuts _ _ _ _ Hp) as (rest & -> & _ & Hc).
    apply cuts_count in Hc. rewrite len_cons. lia.
  - split; [done|lia].
Qed.
