(* ===== verification/TreeStored.v ===== *)
(** * A tree built and stored denotes the files it was built from

    What [BuildTree] writes, for any way of naming that keeps what it names: the
    groups of a level as one list, the trees its nodes denote, and the whole
    construction. *)

From Stdlib Require Import Sorted.
From stdpp Require Import base list.
From stdpp Require Import base list gmap.
From S2P Require Import Prelude GoStd Delta GoText GoCrypto Deck Pathname Marshal Legality Parse ParseCorrect DeckWf Canonical Codec Submanifest Zlib Hash GoMap Store Content ContentSpec Cache StoreCorrect ContentCorrect StoreSteps Tree TreeWalk TreeLookup FilesProps TreeBuild.

Section Build.
Context `{GS : !GoSort} `{GU : !GoUnicode} {St : Type} (name : bytes -> St -> tresult (bytes * St)).

(** ** The groups of a level *)

(** A group written: its members, its artifact and the artifact's name. *)
Record written (A : Type) := mk_written { wr_group : list A; wr_data : bytes; wr_uuid : bytes }.
Arguments mk_written {A}. Arguments wr_group {A}. Arguments wr_data {A}. Arguments wr_uuid {A}.

(** How naming behaves: [Named st d u] says that [u] resolves to [d] from [st] on. *)
Context (D : bytes -> Prop) (Inv : St -> Prop) (Named : St -> bytes -> bytes -> Prop).
Definition named_le (st st' : St) : Prop := forall d u, Named st d u -> Named st' d u.
Context (Hname : forall d st u st', Inv st -> D d -> name d st = Ok (u, st') ->
  Inv st' /\ Named st' d u /\ validArtifactHash u = true /\ named_le st st').

Definition wrote {A} (marshal : list A -> result bytes) (st : St) (w : written A) : Prop :=
  wr_group w <> [] /\ marshal (wr_group w) = Ok (wr_data w) /\ Named st (wr_data w) (wr_uuid w)
  /\ validArtifactHash (wr_uuid w) = true.

Definition node_of {A} (key : A -> bytes) (w : written A) : SubmanifestCard :=
  mk_SubmanifestCard (default [] (key <$> head (wr_group w))) (wr_uuid w).

Lemma wrote_le {A} (marshal : list A -> result bytes) st st' w : named_le st st' -> wrote marshal st w -> wrote marshal st' w.
Proof using. intros Hle (? & ? & ? & ?). split_and!; auto. Qed.

Lemma build_level_cons {A} (marshal : list A -> result bytes) key members a b rest subs nodes st :
  build_level name marshal key members (a :: b :: rest) subs nodes st =
    let? group := slice_of members a b in let? data := from_deck (marshal group) in let? first := elem_at group 0 in
    let? (uuid, st) := name data st in
    build_level name marshal key members (b :: rest) (subs ++ [data]) (nodes ++ [mk_SubmanifestCard (key first) uuid]) st.
Proof using. reflexivity. Qed.

(** What a level has written stays written. *)
Lemma build_level_keeps {A} (marshal : list A -> result bytes) key members rest : forall a subs nodes st subs' nodes' st',
  build_level name marshal key members (a :: rest) subs nodes st = Ok (subs', nodes', st') -> forall d, d ∈ subs -> d ∈ subs'.
Proof using.
  induction rest as [|b rest IH]; intros a subs nodes st subs' nodes' st' H d Hin; [by injection H as <- _ _|].
  rewrite build_level_cons in H. apply obind_ok in H as (g & _ & H). apply obind_ok in H as (data & _ & H).
  apply obind_ok in H as (f & _ & H). apply obind_ok in H as ([u st1] & _ & H). eapply IH; [exact H|]. apply elem_of_app. by left.
Qed.

Lemma level_run {A} (marshal : list A -> result bytes) key members rest : forall a subs nodes st subs' nodes' st',
  build_level name marshal key members (a :: rest) subs nodes st = Ok (subs', nodes', st') ->
  0 <= a -> cuts a rest (len members) -> Inv st -> (forall d, d ∈ subs' -> D d) ->
  exists ws, concat (map wr_group ws) = drop (Z.to_nat a) members /\ Forall (wrote marshal st') ws
    /\ subs' = subs ++ map wr_data ws /\ nodes' = nodes ++ map (node_of key) ws /\ length ws = length rest
    /\ Inv st' /\ named_le st st'.
Proof using Hname.
  induction rest as [|b rest IH]; intros a subs nodes st subs' nodes' st' H Ha Hc Hi HD.
  { injection H as <- <- <-. exists []. cbn in Hc. cbn [map concat]. rewrite !app_nil_r. split_and!; [|constructor|done|done|done|done|by intros d u].
    subst a. unfold len. rewrite Nat2Z.id. by rewrite drop_all. }
  destruct Hc as [Hab Hc]. pose proof (cuts_le _ _ _ Hc) as Hb.
  rewrite build_level_cons in H.
  rewrite slice_of_ok in H by lia. cbn [obind] in H. apply obind_ok in H as (data & Hd%wrap_ok & H).
  apply obind_ok in H as (first & Hf & H). apply obind_ok in H as ([u st1] & Hu & H).
  assert (D data) as HDd by (apply HD; eapply build_level_keeps; [exact H|apply elem_of_app; right; by left]).
  destruct (Hname _ _ _ _ Hi HDd Hu) as (Hi1 & Hn1 & Hv & Hle1).
  destruct (IH b _ _ _ _ _ _ H ltac:(lia) Hc Hi1 HD) as (ws & Hcat & Hws & -> & -> & Hlen & Hi' & Hle').
  set (g := sub a b members) in *. assert (len g = b - a) as Hg by (subst g; apply len_sub; lia).
  destruct g as [|x g'] eqn:Eg; [rewrite len_nil in Hg; lia|]. cbn in Hf. injection Hf as <-.
  exists (mk_written (x :: g') data u :: ws). split_and!.
  - cbn [map concat wr_group]. rewrite Hcat, <- Eg. subst g. unfold sub. replace (Z.to_nat b) with (Z.to_nat a + Z.to_nat (b - a))%nat by lia.
    rewrite <- drop_drop. apply take_drop.
  - constructor; [|done]. split_and!; [done|done|by apply Hle'|done].
  - by rewrite <- app_assoc.
  - by rewrite <- app_assoc.
  - cbn. by rewrite Hlen.
  - done.
  - intros d v Hdv. auto.
Qed.

(** ** The trees of a level *)
Definition resolves (resolve : bytes -> tresult (Deck * Z)) (st : St) : Prop := forall d u deck,
  Named st d u -> Parse (Some d) = Ok deck -> d_Type deck = Submanifest -> exists rid, resolve u = Ok (deck, rid).

Lemma f_Name_norm f : f_Name (norm_file f) = f_Name f.
Proof using. unfold norm_file. by destruct (empty (f_UUID f)). Qed.

Lemma ascending_norm files : ascending file_less files -> ascending file_less (map norm_file files).
Proof using.
  unfold ascending. induction 1 as [|f fs _ IH Hf]; cbn; constructor; [done|]. apply Forall_map.
  eapply Forall_impl; [exact Hf|]. intros g Hg. cbn. unfold file_less. by rewrite !f_Name_norm.
Qed.

Lemma leaf_trees resolve st ws : resolves resolve st -> Forall (wrote MarshalLeaf st) ws ->
  forallb leaf_file (concat (map wr_group ws)) = true -> ascending file_less (concat (map wr_group ws)) ->
  exists ts, denote_all resolve (map (node_of f_Name) ws) ts /\ files_of ts = map norm_file (concat (map wr_group ws))
    /\ nodes_of ts = length ws /\ (depth_of ts <= 1)%nat.
Proof using GU.
  intros Hres Hws. induction Hws as [|w ws (Hne & Hm & Hn & Hv) _ IH]; cbn [map concat]; [exists []; split_and!; [constructor|done|done|cbn; lia]|].
  rewrite forallb_app, andb_true_iff. intros [Hf Hfs] (Ha & Has & _)%ascending_app.
  destruct (IH Hfs Has) as (ts & Hd & Hfiles & Hnodes & Hdepth).
  destruct (leaf_roundtrip (wr_group w) Hne Hf (ascending_names _ Ha)) as (m & Hm' & Hp). assert (m = wr_data w) as -> by congruence.
  rewrite (sort_slice_ascending file_less (wr_group w) file_less_sw Ha) in Hp. destruct (Hres _ _ _ Hn Hp eq_refl) as [rid Hr].
  destruct (wr_group w) as [|f fs] eqn:Eg; [done|]. exists (Leaf (map norm_file (f :: fs)) :: ts). split_and!.
  - constructor; [|cbn; by rewrite f_Name_norm, Eg|done]. cbn [node_of s_UUID]. by apply (denotes_leaf resolve _ _ _ Hr).
  - by rewrite files_of_cons, Hfiles, map_app.
  - rewrite nodes_of_cons, Hnodes. done.
  - rewrite depth_of_cons. cbn [height]. lia.
Qed.

Lemma denote_all_split resolve cs ds ts : denote_all resolve (cs ++ ds) ts ->
  exists us vs, ts = us ++ vs /\ denote_all resolve cs us /\ denote_all resolve ds vs.
Proof using.
  revert ts. induction cs as [|c cs IH]; cbn [app]; intros ts H; [exists [], ts; split_and!; [done|constructor|done]|].
  inversion H as [|? ? t ts' Hd Hf Hall]; subst. destruct (IH ts' Hall) as (us & vs & -> & ? & ?).
  exists (t :: us), vs. split_and!; [done|by constructor|done].
Qed.

Lemma nodes_of_app ts us : nodes_of (ts ++ us) = (nodes_of ts + nodes_of us)%nat.
Proof using. induction ts as [|t ts IH]; [done|]. cbn [app]. rewrite !nodes_of_cons, IH. lia. Qed.

Lemma depth_of_app ts us : depth_of (ts ++ us) = (depth_of ts `max` depth_of us)%nat.
Proof using. induction ts as [|t ts IH]; [done|]. cbn [app]. rewrite !depth_of_cons, IH. lia. Qed.

Lemma interior_trees resolve st ws : forall us, resolves resolve st -> Forall (wrote MarshalInterior st) ws ->
  forallb submanifest_wf (concat (map wr_group ws)) = true -> denote_all resolve (concat (map wr_group ws)) us ->
  ascending file_less (files_of us) ->
  exists ts, denote_all resolve (map (node_of s_Name) ws) ts /\ files_of ts = files_of us
    /\ nodes_of ts = (length ws + nodes_of us)%nat /\ (depth_of ts <= S (depth_of us))%nat.
Proof using GU.
  intros us Hres Hws. revert us. induction Hws as [|w ws (Hne & Hm & Hn & Hv) _ IH]; cbn [map concat]; intros us.
  { intros _ Hd _. inversion Hd. exists []. split_and!; [constructor|done|done|cbn; lia]. }
  rewrite forallb_app, andb_true_iff. intros [Hf Hfs] (us1 & us2 & -> & Hd1 & Hd2)%denote_all_split.
  rewrite files_of_app. intros (Ha & Has & _)%ascending_app.
  destruct (IH us2 Hfs Hd2 Has) as (ts & Hd & Hfiles & Hnodes & Hdepth).
  pose proof (cards_ascending resolve _ _ Hd1 Ha) as Hcards.
  assert (NoDup (map s_Name (wr_group w))) as Hnd.
  { clear - Hcards. unfold ascending in Hcards. induction Hcards as [|c cs _ IH Hc]; cbn; constructor; [|done].
    intros (y & He & Hy)%list_elem_of_fmap. rewrite Forall_forall in Hc. specialize (Hc y Hy). unfold card_less in Hc.
    by rewrite He, blt_irrefl in Hc. }
  destruct (interior_roundtrip (wr_group w) Hne Hf Hnd) as (m & Hm' & Hp). assert (m = wr_data w) as -> by congruence.
  rewrite (sort_slice_ascending submanifest_less (wr_group w) (strict_weak_key s_Name) Hcards) in Hp.
  destruct (Hres _ _ _ Hn Hp eq_refl) as [rid Hr]. destruct (wr_group w) as [|c cs] eqn:Eg; [done|].
  exists (Node us1 :: ts). split_and!.
  - constructor; [|cbn; rewrite Eg; by apply (denote_all_first resolve _ _ _ Hd1)|done]. cbn [node_of s_UUID].
    by apply (denotes_node resolve _ _ _ _ Hr).
  - by rewrite files_of_cons, Hfiles.
  - rewrite nodes_of_cons, Hnodes, nodes_of_app. cbn [size length]. fold (nodes_of us1). lia.
  - rewrite depth_of_cons. cbn [height]. fold (depth_of us1).
    rewrite depth_of_app. lia.
Qed.
(** ** The whole construction *)
Lemma resolves_le resolve st st' : named_le st st' -> resolves resolve st' -> resolves resolve st.
Proof using. intros Hle Hr d u deck Hn. by apply Hr, Hle. Qed.

Lemma nodes_wf {A} (marshal : list A -> result bytes) (key : A -> bytes) st ws : Forall (wrote marshal st) ws ->
  (forall x, x ∈ concat (map wr_group ws) -> simplePathname (key x) = true) -> forallb submanifest_wf (map (node_of key) ws) = true.
Proof using.
  induction 1 as [|w ws (Hne & _ & _ & Hv) _ IH]; [done|]. cbn [map concat forallb]. intros Hk. apply andb_true_iff. split.
  - unfold submanifest_wf, node_of. cbn [s_Name s_UUID]. rewrite Hv, andb_true_r. destruct (wr_group w) as [|x g]; [done|].
    apply Hk. by left.
  - apply IH. intros x Hx. apply Hk, elem_of_app. by right.
Qed.

Lemma leaf_names files f : forallb leaf_file files = true -> f ∈ files -> simplePathname (f_Name f) = true.
Proof using. rewrite forallb_forall. intros H Hf%list_elem_of_In%H. unfold leaf_file in Hf. rewrite !andb_true_iff in Hf. tauto. Qed.

Lemma card_names cs c : forallb submanifest_wf cs = true -> c ∈ cs -> simplePathname (s_Name c) = true.
Proof using. rewrite forallb_forall. intros H Hc%list_elem_of_In%H. unfold submanifest_wf in Hc. rewrite !andb_true_iff in Hc. tauto. Qed.

Lemma build_interior_keeps plan : forall subs nodes st subs' nodes' st',
  build_interior name plan subs nodes st = Ok (subs', nodes', st') -> forall d, d ∈ subs -> d ∈ subs'.
Proof using.
  induction plan as [|bounds plan IH]; intros subs nodes st subs' nodes' st' H d Hd; [by injection H as <- _ _|].
  cbn [build_interior] in H. apply obind_ok in H as ([[subs1 nodes1] st1] & H1 & H). eapply IH; [exact H|].
  destruct bounds as [|a rest]; [by injection H1 as <- _ _|]. by eapply build_level_keeps.
Qed.

Lemma len_map_ws {A B} (f : written A -> B) ws (rest : list Z) : length ws = length rest -> len (map f ws) = len rest.
Proof using. intros H. unfold len. by rewrite length_map, H. Qed.

Lemma interior_run lo hi plan : forall subs nodes st subs' nodes' st',
  build_interior name plan subs nodes st = Ok (subs', nodes', st') -> plan_ok lo hi (len nodes) plan -> Inv st ->
  (forall d, d ∈ subs' -> D d) -> forallb submanifest_wf nodes = true -> nodes <> [] ->
  Inv st' /\ named_le st st' /\ nodes' <> []
  /\ forall resolve, resolves resolve st' -> forall us, denote_all resolve nodes us -> ascending file_less (files_of us) ->
     exists ts, denote_all resolve nodes' ts /\ files_of ts = files_of us
       /\ (nodes_of ts + length subs = nodes_of us + length subs')%nat /\ (depth_of ts <= depth_of us + length plan)%nat.
Proof using Hname GU.
  induction plan as [|bounds plan IH]; intros subs nodes st subs' nodes' st' H Hp Hi HD Hwf Hne.
  { injection H as <- <- <-. split_and!; [done|by intros d u|done|]. intros resolve _ us Hd _. exists us. split_and!; [done|done|lia|lia]. }
  cbn [build_interior] in H. apply obind_ok in H as ([[subs1 nodes1] st1] & H1 & H). inversion Hp as [|? ? ? Hpart Hlen _ Hp']; subst.
  destruct (partition_cuts _ _ _ _ Hpart) as (rest & -> & Hr & Hc). rewrite len_cons in *. replace (1 + len rest - 1) with (len rest) in Hp' by lia.
  destruct (level_run _ _ _ _ _ _ _ _ _ _ _ H1 ltac:(lia) Hc Hi) as (ws & Hcat & Hws & -> & -> & Hlen' & Hi1 & Hle1).
  { intros d Hd. apply HD. by eapply build_interior_keeps. }
  cbn [app Z.to_nat drop] in *. assert (forallb submanifest_wf (map (node_of s_Name) ws) = true) as Hwf1.
  { eapply nodes_wf; [exact Hws|]. rewrite Hcat. intros c. by apply card_names. }
  assert (map (node_of s_Name) ws <> []) as Hne1 by (destruct ws; [destruct rest; [done|by cbn in Hlen']|done]).
  destruct (IH _ _ _ _ _ _ H) as (Hi' & Hle' & Hne' & Hden); [by rewrite (len_map_ws _ _ _ Hlen')|done|done|done|done|].
  split_and!; [done|intros d u ?; by apply Hle', Hle1|done|]. intros resolve Hres us Hd Ha.
  destruct (interior_trees resolve st1 ws us) as (ts1 & Hd1 & Hf1 & Hn1 & Hdep1);
    [by eapply resolves_le|done|by rewrite Hcat|by rewrite Hcat|done|].
  destruct (Hden resolve Hres ts1 Hd1) as (ts & Hd2 & Hf2 & Hn2 & Hdep2); [by rewrite Hf1|]. exists ts.
  split_and!; [done|congruence| |cbn; lia]. rewrite length_app, length_map in Hn2. lia.
Qed.

Lemma BuildTree_run `{S3 : !Sha3} files k st T st' : BuildTree name files k st = Ok (T, st') -> 1 <= k <= 12 ->
  forallb leaf_file files = true -> ascending file_less files -> Inv st -> (forall d, d ∈ t_Subs T -> D d) ->
  Inv st' /\ named_le st st' /\ (t_S T = [] /\ st' = st /\ t_Subs T = [] \/ t_S T <> []
    /\ forall resolve, resolves resolve st' -> exists ts, denote_all resolve (t_S T) ts /\ files_of ts = map norm_file files
         /\ nodes_of ts = length (t_Subs T) /\ Z.of_nat (depth_of ts) <= maxTreeDepth).
Proof using Hname GU.
  intros H Hk Hf Ha Hi HD. unfold BuildTree in H. apply obind_ok in H as (_ & _ & H).
  destruct (treePlan_spec (map (fun f => zeroBits (f_Name f)) files) k maxConstructHeight Hk ltac:(done)) as (plan & Hplan & Hlen & Hok & _).
  rewrite Hplan in H. cbn [obind] in H. destruct plan as [|leaves interior].
  { injection H as <- <-. split_and!; [done|by intros d u|by left]. }
  apply obind_ok in H as ([[subs1 nodes1] st1] & H1 & H). apply obind_ok in H as ([[subs2 nodes2] st2] & H2 & H). injection H as <- <-.
  cbn [t_Subs t_S] in *. inversion Hok as [|? ? ? Hpart Hlen2 _ Hok']; subst. replace (len (map _ files)) with (len files) in * by (unfold len; by rewrite length_map).
  destruct (partition_cuts _ _ _ _ Hpart) as (rest & -> & Hr & Hc). rewrite !len_cons in *. replace (1 + len rest - 1) with (len rest) in Hok' by lia.
  destruct (level_run _ _ _ _ _ _ _ _ _ _ _ H1 ltac:(lia) Hc Hi) as (ws & Hcat & Hws & -> & -> & Hlen' & Hi1 & Hle1).
  { intros d Hd. apply HD. by eapply build_interior_keeps. }
  cbn [app Z.to_nat drop] in *. assert (map (node_of f_Name) ws <> []) as Hne1 by (destruct ws; [destruct rest; [done|by cbn in Hlen']|done]).
  assert (forallb submanifest_wf (map (node_of f_Name) ws) = true) as Hwf1.
  { eapply nodes_wf; [exact Hws|]. rewrite Hcat. intros f. by apply leaf_names. }
  destruct (interior_run (2 ^ k / 4) (4 * 2 ^ k) _ _ _ _ _ _ _ H2) as (Hi' & Hle' & Hne' & Hden); [rewrite (len_map_ws _ _ _ Hlen'); exact Hok'|done|done|done|done|].
  split_and!; [done|intros d u ?; by apply Hle', Hle1|right]. split; [done|]. intros resolve Hres.
  destruct (leaf_trees resolve st1 ws) as (ts1 & Hd1 & Hf1 & Hn1 & Hdep1); [by eapply resolves_le|done|by rewrite Hcat|by rewrite Hcat|].
  rewrite Hcat in Hf1. change (drop (Z.to_nat 0) files) with files in Hf1. destruct (Hden resolve Hres ts1 Hd1) as (ts & Hd2 & Hf2 & Hn2 & Hdep2).
  { rewrite Hf1. by apply ascending_norm. }
  exists ts. rewrite length_map in Hn2. split_and!; [done|congruence|lia|]. unfold maxConstructHeight, maxTreeDepth, len in *. lia.
Qed.
End Build.

(** ** The construction does not fail where naming does not *)
Section Total.
Context `{GS : !GoSort} {St : Type} (name : bytes -> St -> tresult (bytes * St)) (Inv : St -> Prop).
Context (Hname : forall d st, Inv st -> exists u st', name d st = Ok (u, st') /\ Inv st').

Lemma level_total {A} (marshal : list A -> result bytes) key members rest : forall a subs nodes st, 0 <= a -> cuts a rest (len members) ->
  (forall g, g <> [] -> (forall x, x ∈ g -> x ∈ members) -> exists m, marshal g = Ok m) -> Inv st ->
  exists subs' nodes' st', build_level name marshal key members (a :: rest) subs nodes st = Ok (subs', nodes', st')
    /\ length nodes' = (length nodes + length rest)%nat /\ Inv st'.
Proof using Hname.
  induction rest as [|b rest IH]; intros a subs nodes st Ha Hc Hm Hi; [exists subs, nodes, st; split_and!; [done|cbn; lia|done]|].
  destruct Hc as [Hab Hc]. pose proof (cuts_le _ _ _ Hc). rewrite build_level_cons, slice_of_ok by lia. cbn [obind].
  assert (len (sub a b members) = b - a) as Hg by (apply len_sub; lia).
  destruct (Hm (sub a b members)) as (m & ->).
  { intros E. rewrite E, len_nil in Hg. lia. }
  { intros x Hx. unfold sub in Hx. apply elem_of_take in Hx as (i & Hx & _). rewrite lookup_drop in Hx. by apply list_elem_of_lookup_2 in Hx. }
  cbn [from_deck wrap_err obind]. destruct (sub a b members) as [|x g]; [rewrite len_nil in Hg; lia|]. cbn [elem_at obind].
  change (@elem_at tree_error A (x :: g) 0) with (@Ok tree_error A x). cbn [obind].
  destruct (Hname m st Hi) as (u & st1 & -> & Hi1). cbn [obind].
  destruct (IH b (subs ++ [m]) (nodes ++ [mk_SubmanifestCard (key x) u]) st1) as (subs' & nodes' & st' & -> & Hl & Hi'); [lia|done|done|done|].
  exists subs', nodes', st'. split_and!; [done| |done]. rewrite Hl, length_app. cbn. lia.
Qed.

Lemma MarshalInterior_ok g : g <> [] -> exists m, MarshalInterior g = Ok m.
Proof using.
  intros Hg. unfold MarshalInterior. destruct g as [|c g]; [done|].
  replace (len (c :: g) =? 0) with false by (rewrite len_cons; pose proof (len_nonneg g); lia). by eexists.
Qed.

Lemma interior_total lo hi plan : forall subs nodes st, plan_ok lo hi (len nodes) plan -> Inv st ->
  exists subs' nodes' st', build_interior name plan subs nodes st = Ok (subs', nodes', st') /\ Inv st' /\ (nodes <> [] -> nodes' <> []).
Proof using Hname.
  induction plan as [|bounds plan IH]; intros subs nodes st Hp Hi; [by exists subs, nodes, st|].
  inversion Hp as [|? ? ? Hpart _ _ Hp']; subst. destruct (partition_cuts _ _ _ _ Hpart) as (rest & -> & Hr & Hc). cbn [build_interior].
  destruct (level_total MarshalInterior s_Name nodes rest 0 subs [] st) as (s1 & n1 & st1 & -> & Hl & Hi1);
    [lia|done|intros g Hg _; by apply MarshalInterior_ok|done|].
  cbn [obind]. assert (n1 <> []) as Hn1 by (intros ->; destruct rest; [done|by cbn in Hl]).
  destruct (IH s1 n1 st1) as (s2 & n2 & st2 & -> & Hi2 & Hn2); [|done|exists s2, n2, st2; split_and!; [done|done|by intros _; apply Hn2]].
  rewrite len_cons in Hp'. unfold len in *. by replace (Z.of_nat (length n1)) with (1 + Z.of_nat (length rest) - 1) by (cbn in Hl; lia).
Qed.

Lemma check_files_ok files : ascending file_less files -> forallb leaf_file files = true -> check_files None files = Ok ().
Proof using.
  assert (forall prev, (forall p f, prev = Some p -> f ∈ files -> blt p (f_Name f) = true) -> ascending file_less files ->
    forallb leaf_file files = true -> check_files prev files = Ok ()) as Hgen; [|by intros; apply Hgen].
  intros prev Hprev Ha. revert prev Hprev. unfold ascending in Ha. induction Ha as [|f fs _ IH Hf]; intros prev Hprev; [done|].
  cbn [forallb check_files]. intros [Hl Hls]%andb_true_iff. unfold leaf_file in Hl. rewrite !andb_true_iff in Hl.
  destruct Hl as [[[_ Hu] _] _]. apply validArtifactHash_nonempty in Hu as ->.
  replace (match prev with Some p => Compare p (f_Name f) >=? 0 | None => false end) with false.
  { apply IH; [|done]. intros p g [= <-] Hg. rewrite Forall_forall in Hf. by apply Hf. }
  destruct prev as [p|]; [|done]. rewrite Compare_ge. rewrite (Hprev p f eq_refl ltac:(by left)). done.
Qed.

Lemma BuildTree_total `{S3 : !Sha3} files k st : 1 <= k <= 12 -> forallb leaf_file files = true -> ascending file_less files -> Inv st ->
  exists T st', BuildTree name files k st = Ok (T, st') /\ Inv st' /\ (t_S T = [] -> st' = st).
Proof using Hname.
  intros Hk Hf Ha Hi. unfold BuildTree. rewrite check_files_ok by done. cbn [obind].
  destruct (treePlan_spec (map (fun f => zeroBits (f_Name f)) files) k maxConstructHeight Hk ltac:(done)) as (plan & -> & _ & Hok & _).
  cbn [obind]. destruct plan as [|leaves interior]; [by eexists _, _|]. inversion Hok as [|? ? ? Hpart _ _ Hok']; subst.
  replace (len (map _ files)) with (len files) in Hpart by (unfold len; by rewrite length_map).
  destruct (partition_cuts _ _ _ _ Hpart) as (rest & -> & Hr & Hc).
  destruct (level_total MarshalLeaf f_Name files rest 0 [] [] st) as (s1 & n1 & st1 & -> & Hl & Hi1); [lia|done| |done|].
  { intros g Hg Hin. unfold MarshalLeaf. destruct g as [|f g]; [done|].
    replace (len (f :: g) =? 0) with false by (rewrite len_cons; pose proof (len_nonneg g); lia).
    destruct (existsb _ _) eqn:E; [|by eexists]. exfalso. apply existsb_exists in E as (x & Hx & He). apply list_elem_of_In, Hin in Hx.
    rewrite forallb_forall in Hf. apply list_elem_of_In, Hf in Hx. unfold leaf_file in Hx. rewrite !andb_true_iff in Hx.
    destruct Hx as [[[_ Hu] _] _]. apply validArtifactHash_nonempty in Hu. congruence. }
  cbn [obind]. assert (n1 <> []) as Hn1 by (intros ->; destruct rest; [done|by cbn in Hl]).
  destruct (interior_total (2 ^ k / 4) (4 * 2 ^ k) interior s1 n1 st1) as (s2 & n2 & st2 & -> & Hi2 & Hn2);
    [|done|eexists _, _; split_and!; [done|done|by intros E%Hn2]].
  rewrite len_cons in Hok'. unfold len in *. by replace (Z.of_nat (length n1)) with (1 + Z.of_nat (length rest) - 1) by (cbn in Hl; lia).
Qed.
End Total.

(** * The tree of a check-in, stored and walked again *)

Section Stored.
Context `{ZL : !Zlib} `{S3 : !Sha3} `{GS : !GoSort} `{GU : !GoUnicode}.

(** ** Naming an artifact under the policy *)
Lemma Alg_Hash_valid {E} a content h : @Alg_Hash S3 E a (Some content) = Ok h -> validArtifactHash h = true.
Proof using.
  intros H. destruct (@Alg_Hash_ok S3 E a content) as (h' & Hh & Hl). assert (h' = h) as -> by congruence.
  unfold validArtifactHash. apply andb_true_iff. split; [destruct a; lia|].
  assert (Forall (fun c => is_hex_lower c = true) h) as Hhex by (destruct a; unfold Alg_Hash, SHA1, SHA3 in H; injection H as <-; apply hex_encode_lower).
  unfold isHexAnyCase. rewrite forallb_forall. intros c Hc%list_elem_of_In. rewrite Forall_forall in Hhex. specialize (Hhex c Hc).
  clear -Hhex. revert Hhex. by_bytes c.
Qed.

Lemma expands_tables s s' r n b : blob s' = blob s -> delta s' = delta s -> expands s r n b -> expands s' r n b.
Proof using.
  intros Hb Hd He. induction He as [r b Hr Hl|r src n base d b Hr He IH Hl Ha].
  - apply expands_root; [by rewrite Hd|]. by rewrite (Load_ext s) by by rewrite Hb.
  - eapply expands_delta; [by rewrite Hd|done| |done]. by rewrite (Load_ext s) by by rewrite Hb.
Qed.

(** Storing under the policy finds the name held, or writes one row. *)
Lemma StoreUnderPolicy_cases s naming d : wf_store s -> NamingFor (hash_view s) = Ok naming ->
  exists rid uuid o s', StoreUnderPolicy s d = Ok (rid, uuid, o, s') /\ Alg_Hash (E:=store_error) (New naming) (Some d) = Ok uuid
    /\ 0 < rid /\ wf_store s' /\ NamingFor (hash_view s') = Ok naming
    /\ (s' = s /\ (exists w, blob s !! rid = Some w /\ br_uuid w = uuid) /\ isPhantom s rid = false
        \/ exists w, writes s rid w s' /\ br_uuid w = uuid /\ Load s' rid = Ok d /\ delta s' = delta s).
Proof using.
  intros Hwf HN. destruct (Alg_Hash_ok (E:=store_error) (New naming) d) as (uuid & Hu & Hl).
  assert (bytes_eqb uuid [] = false) as Hne by (apply bytes_eqb_neq; intros ->; rewrite len_nil in Hl; by destruct (New naming)).
  unfold StoreUnderPolicy, Exists. rewrite HN. cbn [wrap_err obind]. rewrite Hu. cbn [obind]. rewrite Hne. cbn [obind].
  assert (held s (rid_of s uuid) = None -> exists rid s', writeVerified s (New naming) uuid d = Ok (rid, s') /\ 0 < rid /\ wf_store s'
    /\ NamingFor (hash_view s') = Ok naming /\ exists w, writes s rid w s' /\ br_uuid w = uuid /\ Load s' rid = Ok d /\ delta s' = delta s) as Hwrite.
  { intros Hh. destruct (writeVerified_ok s naming uuid d Hwf HN Hu Hh) as (rid & s' & w & HW & Hwr & Hwu & _ & Hd & Hwf' & HL & HN').
    exists rid, s'. split_and!; [done|apply Hwr|done|done|by exists w]. }
  destruct (rid_of s uuid) as [r|] eqn:Er; [destruct (isPhantom s r) eqn:Ep; cbn [negb]|].
  - destruct Hwrite as (rid & s' & -> & ? & ? & ? & ?); [cbn; by rewrite Ep|]. exists rid, uuid, FilledPhantom, s'.
    cbn [obind]. split_and!; [done..|by right].
  - apply rid_of_some in Er as (w & Hw & Hwu). exists r, uuid, Found, s. split_and!; try done; [by apply (wf_rid s Hwf) in Hw as [? _]|].
    left. split_and!; [done|by exists w|done].
  - destruct Hwrite as (rid & s' & -> & ? & ? & ? & ?); [done|]. exists rid, uuid, Inserted, s'. cbn [obind]. split_and!; [done..|by right].
Qed.

Lemma storeSubmanifest_cases c naming d : wf_store (cm_store c) -> NamingFor (hash_view (cm_store c)) = Ok naming ->
  exists rid uuid o s c', StoreUnderPolicy (cm_store c) d = Ok (rid, uuid, o, s) /\ storeSubmanifest d c = Ok (uuid, c')
    /\ blob (cm_store c') = blob s /\ delta (cm_store c') = delta s /\ wf_store (cm_store c') /\ NamingFor (hash_view (cm_store c')) = Ok naming.
Proof using.
  intros Hwf HN. destruct (StoreUnderPolicy_cases _ _ d Hwf HN) as (rid & uuid & o & s & Hst & _ & Hr & Hwf' & HN' & _).
  exists rid, uuid, o, s. unfold storeSubmanifest. rewrite Hst. cbn [wrap_err obind]. unfold IsPrivate, MakePublic.
  rewrite (proj2 (Z.leb_gt _ _)) by lia. cbn [from_store wrap_err obind]. eexists. split_and!; try done. cbn [cm_store].
  by apply (wf_tables s).
Qed.
(** ** What the store holds of the sub-manifests [D] *)
Section Holding.
Context (naming : Naming) (D : list bytes).

(** Row [r] expands to [d] within the reader's bound. *)
Definition holds (s : store) (r : Z) (d : bytes) : Prop := exists n, Z.of_nat n <= maxDeltaChainDepth /\ expands s r n d.

(** No two of the artifacts share a name, and a row named as one of them holds it. *)
Definition apart : Prop := forall d e, d ∈ D -> e ∈ D ->
  Alg_Hash (E:=store_error) (New naming) (Some d) = Alg_Hash (New naming) (Some e) -> d = e.
Definition honest (s : store) : Prop := forall r w d, blob s !! r = Some w -> isPhantom s r = false -> d ∈ D ->
  Alg_Hash (E:=store_error) (New naming) (Some d) = Ok (br_uuid w) -> holds s r d.

Definition commit_ok (c : commit) : Prop := wf_store (cm_store c) /\ NamingFor (hash_view (cm_store c)) = Ok naming.

Definition named_as (c : commit) (d u : bytes) : Prop := exists r w, blob (cm_store c) !! r = Some w /\ br_uuid w = u
  /\ holds (cm_store c) r d /\ Alg_Hash (E:=store_error) (New naming) (Some d) = Ok u.

Lemma holds_le s s' r d : (forall n b, expands s r n b -> expands s' r n b) -> holds s r d -> holds s' r d.
Proof using. intros He (n & Hn & H). exists n. split; [done|by apply He]. Qed.

Lemma honest_writes s rid w s' d uuid : honest s -> apart -> d ∈ D -> Alg_Hash (E:=store_error) (New naming) (Some d) = Ok uuid ->
  writes s rid w s' -> br_uuid w = uuid -> Load s' rid = Ok d -> delta s' = delta s -> honest s'.
Proof using.
  intros Hh Hap Hd Hu HW Hwu HL Hdel r v e Hv Hp He Hev. destruct (decide (r = rid)) as [->|Hne].
  - rewrite (wrt_row _ _ _ _ HW) in Hv. injection Hv as <-. assert (e = d) as -> by (apply Hap; [done|done|congruence]).
    exists 1%nat. split; [done|]. apply expands_root; [rewrite Hdel; apply HW|done].
  - rewrite (wrt_same _ _ _ _ HW r Hne) in Hv. apply (holds_le s); [intros n b; by eapply writes_expands|].
    eapply Hh; [exact Hv| |done|done]. unfold isPhantom in *. by rewrite (wrt_same _ _ _ _ HW r Hne) in Hp.
Qed.

Lemma named_grows c c' : (forall r n b, expands (cm_store c) r n b -> expands (cm_store c') r n b) ->
  (forall r w, blob (cm_store c) !! r = Some w -> exists w', blob (cm_store c') !! r = Some w' /\ br_uuid w' = br_uuid w) ->
  named_le named_as c c'.
Proof using.
  intros He Hb d u (r & w & Hw & Hwu & Hh & Hu). destruct (Hb r w Hw) as (w' & Hw' & Hu'). exists r, w'.
  split_and!; [done|congruence|apply (holds_le (cm_store c)); [apply He|exact Hh]|done].
Qed.

Lemma storeSubmanifest_named d c u c' : apart -> commit_ok c /\ honest (cm_store c) -> d ∈ D -> storeSubmanifest d c = Ok (u, c') ->
  (commit_ok c' /\ honest (cm_store c')) /\ named_as c' d u /\ validArtifactHash u = true /\ named_le named_as c c'.
Proof using.
  intros Hap [[Hwf HN] Hh] Hd H. destruct (storeSubmanifest_cases c naming d Hwf HN) as (rid & uuid & o & s & c1 & Hst & Hsub & Hb & Hdel & Hwf1 & HN1).
  rewrite H in Hsub. injection Hsub as <- <-. destruct (StoreUnderPolicy_cases _ _ d Hwf HN) as (rid' & uuid' & o' & s' & Hst' & Hu & Hr & _ & _ & Hcase).
  rewrite Hst in Hst'. injection Hst' as <- <- <- <-.
  assert (forall r, isPhantom (cm_store c') r = isPhantom s r) as Hph by (intros r; unfold isPhantom; by rewrite Hb).
  assert (honest s -> honest (cm_store c')) as Hhon.
  { intros Hs r w e Hw Hp He Heu. rewrite Hb in Hw. rewrite Hph in Hp. apply (holds_le s); [intros n b; by apply expands_tables|]. by eapply Hs. }
  assert (forall r w, blob s !! r = Some w -> br_uuid w = u -> holds s r d -> named_as c' d u) as Hnamed.
  { intros r w Hw Hwu Hho. exists r, w. rewrite Hb. split_and!; [done|done| |done]. apply (holds_le s); [intros n b; by apply expands_tables|done]. }
  destruct Hcase as [(-> & (w & Hw & Hwu) & Hp)|(w & HW & Hwu & HL & Hdl)].
  - split_and!; [by split|by auto| |by eapply Alg_Hash_valid|].
    + eapply Hnamed; [exact Hw|done|]. eapply Hh; [exact Hw|done|done|by rewrite Hwu].
    + apply named_grows; [intros r n b; by apply expands_tables|]. intros r v Hv. exists v. by rewrite Hb.
  - assert (holds s rid d) as Hho by (exists 1%nat; split; [done|]; apply expands_root; [rewrite Hdl; apply HW|done]).
    split_and!; [by split|apply Hhon; by eapply honest_writes| |by eapply Alg_Hash_valid|].
    + eapply Hnamed; [apply HW|done|done].
    + apply named_grows.
      * intros r n b He. apply (expands_tables s); [done|done|]. by eapply writes_expands.
      * intros r v Hv. rewrite Hb. destruct (decide (r = rid)) as [->|Hne]; [exists w; split; [apply HW|]; symmetry; by apply (wrt_uuid _ _ _ _ HW)|].
        exists v. by rewrite (wrt_same _ _ _ _ HW).
Qed.

(** A named artifact is what its name resolves to. *)
Lemma named_resolves growslice c : (forall old need, need <= growslice old need) -> commit_ok c -> readable (cm_store c) ->
  resolves named_as (loader_of growslice (cm_store c)) c.
Proof using ZL.
  intros Hg [Hwf HN] Hs d u deck (r & w & Hw & Hwu & (n & Hn & He) & Hu) Hp Ht. pose proof (wf_rid _ Hwf r w Hw) as [Hr _].
  exists r. assert (rid_of (cm_store c) u = Some r) as Hrid by (rewrite <- Hwu; by apply rid_of_row).
  assert (IsAvailable (cm_store c) r = true) as Hav.
  { apply IsAvailable_grounded. split; [done|]. exists n. split; [done|]. apply (expands_grounded _ _ _ d (delta_pos _ Hs) He).
    intros x. destruct (blob (cm_store c) !! x) as [v|] eqn:Ev; [|done]. by destruct (wf_size _ Hwf x v Ev) as (z & -> & ?). }
  assert (Expand growslice (cm_store c) r = Ok d) as HE.
  { eapply (Expand_ok growslice _ Hs Hg); [exact He|done|]. unfold bound, bindToName. rewrite Hw, Hwu. by apply named_bound with (New naming). }
  unfold loader_of, CheckAvailableByUUID. rewrite (proj2 (bytes_eqb_neq u [])), Hrid.
  - unfold IsAvailable in Hav. rewrite Hav. cbn [from_store wrap_err obind]. rewrite HE. cbn [wrap_err obind]. rewrite Hp. cbn [wrap_err obind].
    by rewrite bool_decide_eq_true_2 by done.
  - intros ->. apply Alg_Hash_valid in Hu. done.
Qed.
End Holding.
End Stored.
