(* ===== verification/TreeProps.v ===== *)
(** * What writing a tree promises, and the file sets of a small repository

    Properties of [TreeBuild], and the witnesses for them and for [FilesProps]
    on a repository that holds a tree check-in and a delta over it. *)

From Stdlib Require Import Sorted.
From stdpp Require Import base list gmap.
From S2P Require Import Prelude GoMap GoStd GoText GoCrypto Hash Zlib Cone ConeCorrect ConeSpec.
From S2P Require Import Delta Deck Pathname Legality Marshal Parse ParseCorrect DeckWf Canonical Codec CodecParsed Submanifest Store Content ContentSpec Cache StoreCorrect ContentCorrect StoreSteps ContentProps Tree TreeWalk TreeLookup FilesProps TreeBuild TreeStored.

Section Props.
Context `{ZL : !Zlib} `{S3 : !Sha3} `{GS : !GoSort} `{GU : !GoUnicode}.

(** C30: the partition at every k from 1 to 12 is within its bounds: at most 16
    levels; each level cuts the nodes of the one below, none left out, into at
    least two and no more groups than nodes, of at most 4*2^k members and at least
    a quarter of 2^k, but for a last group too large to join the one before.  The
    construction is flat exactly where the leaf scan yields fewer than two groups. *)
Theorem partition_bounds (zbits : list Z) k : 1 <= k <= 12 ->
  exists plan, treePlan zbits k maxConstructHeight = Ok plan /\ len plan <= maxTreeDepth
    /\ plan_ok (2 ^ k / 4) (4 * 2 ^ k) (len zbits) plan
    /\ (plan = [] <-> len (partitionGroups zbits k (2 ^ k / 4) (4 * 2 ^ k)) < 3).
Proof using. intros Hk. by apply treePlan_spec. Qed.

(** C27: a check-in's tree, stored and read back, is its file set: storing the
    canonical tree of a check-in's files never fails under a recognized policy and
    keeps what the store held; and a manifest with the S run it answers enumerates
    exactly the files stored, and finds each of them by name, so long as the names
    of its sub-manifests collide neither with each other nor with what the store
    held. *)
Theorem tree_roundtrip growslice c naming files k : (forall old need, need <= growslice old need) ->
  wf_store (cm_store c) -> NamingFor (hash_view (cm_store c)) = Ok naming -> 1 <= k <= 12 ->
  forallb leaf_file files = true -> ascending file_less files ->
  exists run c', storeCheckinTree files k c = Ok (run, c') /\ wf_store (cm_store c') /\ (run = [] -> cm_store c' = cm_store c)
    /\ forall T c1, BuildTree storeSubmanifest files k (mk_commit (cm_store c) (cm_unsent c) (cm_seen c) []) = Ok (T, c1) ->
       apart naming (t_Subs T) -> honest naming (t_Subs T) (cm_store c) -> len (t_Subs T) <= maxTreeNodes -> readable (cm_store c') ->
       forall d, isTree d = true -> d_S d = run -> walkTree (loader_of growslice (cm_store c')) d = Ok (map norm_file files)
         /\ forall name, lookupTree (loader_of growslice (cm_store c')) d name = Ok (List.find (named name) (map norm_file files)).
Proof using GU.
  intros Hg Hwf HN Hk Hf Ha. set (c0 := mk_commit (cm_store c) (cm_unsent c) (cm_seen c) []).
  assert (forall d st, commit_ok naming st -> exists u st', storeSubmanifest d st = Ok (u, st') /\ commit_ok naming st') as Hname.
  { intros d st [Hw Hn]. destruct (storeSubmanifest_cases st naming d Hw Hn) as (rid & u & o & s & st' & _ & Hst & _ & _ & Hw' & Hn').
    by exists u, st'. }
  destruct (BuildTree_total storeSubmanifest (commit_ok naming) Hname files k c0 Hk Hf Ha) as (T & c1 & HT & [Hwf1 HN1] & Hflat); [done|].
  unfold storeCheckinTree. fold c0. rewrite HT. cbn [obind].
  assert (forall D, (forall d, d ∈ t_Subs T -> d ∈ D) -> apart naming D -> honest naming D (cm_store c) ->
    t_S T = [] /\ c1 = c0 \/ t_S T <> [] /\ forall resolve, resolves (named_as naming) resolve c1 -> exists ts, denote_all resolve (t_S T) ts
      /\ files_of ts = map norm_file files /\ nodes_of ts = length (t_Subs T) /\ Z.of_nat (depth_of ts) <= maxTreeDepth) as Hrun.
  { intros D HD Hap Hho. destruct (BuildTree_run storeSubmanifest (fun d => d ∈ D) (fun c => commit_ok naming c /\ honest naming D (cm_store c))
      (named_as naming) (fun d st u st' Hi Hd Hst => storeSubmanifest_named naming D d st u st' Hap Hi Hd Hst) files k c0 T c1 HT Hk Hf Ha)
      as (_ & _ & [(HS & Hc & _)|[HS Hden]]); [by split|done|by left|by right]. }
  destruct (Z.eqb_spec (len (t_S T)) 0) as [Hz|Hz].
  - eexists [], _. split_and!; [done|done| |].
    + intros _. cbn [cm_store]. by rewrite (Hflat (len_zero _ Hz)).
    + intros T' c1' HT' _ _ _ _ d Ht HS. apply isTree_cards in Ht as (x & xs & Hx). congruence.
  - eexists _, _. split_and!; [done|done|intros E; rewrite E, len_nil in Hz; lia|].
    intros T' c1' HT' Hap Hho Hn Hs d Ht HS. injection HT' as <- <-.
    destruct (Hrun (t_Subs T) (fun d Hd => Hd) Hap Hho) as [[E _]|[_ Hden]]; [by rewrite E, len_nil in Hz|].
    cbn [MarkSeenSubmanifest cm_store] in *.
    destruct (Hden _ (named_resolves naming growslice c1 Hg (conj Hwf1 HN1) Hs)) as (ts & Hd & Hfiles & Hnodes & Hdepth).
    assert (grove (loader_of growslice (cm_store c1)) (d_S d) ts) as Hgrove.
    { split; [by rewrite HS|rewrite Hfiles|done|rewrite Hnodes; unfold len in Hn; lia].
      by apply ascending_norm. }
    pose proof (loader_Subtrees growslice Hg (cm_store c1) Hs) as SU. rewrite <- Hfiles. split.
    + apply (walkTree_grove _ _ _ Ht). by exists ts.
    + intros name. by apply (lookupTree_grove _ d ts name Ht).
Qed.
End Props.

(** ** A small repository *)
#[local] Existing Instance demo_Sha3.

Definition demo_files : list FileCard :=
  [mk_FileCard (bs "1 readme") example_hash [] []; mk_FileCard (bs "2") example_hash (bs "x") [];
   mk_FileCard (bs "a/b") example_hash [] (bs "a/old"); mk_FileCard (bs "a/c") example_hash [] []].
Definition demo_commit : commit := mk_commit empty_store ∅ false [].
Definition demo_stored : list SubmanifestCard * commit :=
  match storeCheckinTree demo_files 1 demo_commit with Ok r => r | _ => ([], demo_commit) end.
Definition demo_tree : Deck := set_S demo_stored.1 (set_D 63849223567123456000 zero_Deck).

(** The tree check-in, and a delta over it that drops one file, changes one and
    adds one. *)
Definition put (d : Deck) (s : store) : bytes * store :=
  match Marshal d with Ok m => match Store s m with Ok (_, name, s) => (name, s) | _ => ([], s) end | _ => ([], s) end.
Definition demo_put1 : bytes * store := put demo_tree (cm_store demo_stored.2).
Definition demo_delta : Deck := set_B demo_put1.1 (set_D 63849223567123456000 (set_F
  [mk_FileCard (bs "2") [] [] []; mk_FileCard (bs "a/b") example_hash (bs "x") []; mk_FileCard (bs "z") example_hash [] []] zero_Deck)).
Definition demo_put2 : bytes * store := put demo_delta demo_put1.2.
Definition demo_store : store := demo_put2.2.
Definition demo_rid : Z := default 0 (rid_of demo_store demo_put2.1).
Definition listed {A} (r : tresult (list A)) : list A := match r with Ok l => l | _ => [] end.
Definition demo_list : list FileEntry := listed (ListFiles demo_grow demo_store demo_rid).

Lemma demo_readable : readable demo_store /\ readable (cm_store demo_stored.2).
Proof. split; apply small_readable; vm_compute; reflexivity. Qed.

Lemma demo_list_ok : ListFiles demo_grow demo_store demo_rid = Ok demo_list.
Proof. vm_compute. reflexivity. Qed.

Lemma tree_walk_exact_witness : exists ts, grove (loader_of demo_grow demo_store) (d_S demo_tree) ts /\ map norm_file demo_files = files_of ts.
Proof.
  apply (proj1 (tree_walk_exact demo_grow demo_grow_ok demo_store demo_tree (proj1 demo_readable) eq_refl)).
  vm_compute. reflexivity.
Defined.

Lemma lookup_agrees_witness :
  LookupFile demo_grow demo_store demo_rid (bs "a/b") = Ok (Some (mk_FileEntry (bs "a/b") example_hash (bs "x")))
  /\ LookupFile demo_grow demo_store demo_rid (bs "2") = Ok None.
Proof.
  destruct (lookup_agrees demo_grow demo_grow_ok demo_store demo_rid demo_list (proj1 demo_readable) demo_list_ok) as (_ & _ & H).
  split; (rewrite H; [vm_compute; reflexivity|done]).
Defined.

Definition demo_cone : Cone := mk_Cone [bs "a"] [bs "a/c"] None.

Lemma sparse_listing_witness : ListFilesFiltered demo_grow demo_store demo_rid (Some (cone_filter demo_cone))
  = Ok [mk_FileEntry (bs "a/b") example_hash (bs "x")].
Proof.
  destruct (sparse_listing demo_grow demo_grow_ok demo_store demo_rid demo_list (proj1 demo_readable) demo_list_ok) as [H1 H2].
  rewrite (H1 _ (H2 demo_cone)). vm_compute. reflexivity.
Defined.

Lemma files_total_witness : returns (ListFiles demo_grow demo_store 1)
  /\ returns (ListFilesFiltered demo_grow demo_store 1 (Some (cone_filter demo_cone))) /\ returns (LookupFile demo_grow demo_store 1 (bs "a")).
Proof. apply (files_total demo_grow demo_grow_ok demo_store 1 (Some (cone_filter demo_cone)) (bs "a") (proj1 demo_readable)); done. Defined.

Lemma partition_bounds_witness : exists plan, treePlan [2; 2; 1; 1] 1 maxConstructHeight = Ok plan /\ len plan <= maxTreeDepth
  /\ plan_ok (2 ^ 1 / 4) (4 * 2 ^ 1) (len [2; 2; 1; 1]) plan
  /\ (plan = [] <-> len (partitionGroups [2; 2; 1; 1] 1 (2 ^ 1 / 4) (4 * 2 ^ 1)) < 3).
Proof. apply partition_bounds. lia. Defined.

(** ** The tree built of the demonstration's files *)
Definition demo_naming : Naming := match NamingFor (hash_view empty_store) with Ok n => n | _ => mk_Naming AlgSHA1 false end.
Definition demo_built : Tree * commit :=
  match BuildTree storeSubmanifest demo_files 1 demo_commit with Ok r => r | _ => (mk_Tree [] [], demo_commit) end.

Definition name_of (naming : Naming) (d : bytes) : option bytes :=
  match Alg_Hash (E:=store_error) (Hash.New naming) (Some d) with Ok n => Some n | _ => None end.

Lemma apart_nodup naming D : NoDup (map (name_of naming) D) -> apart naming D.
Proof.
  intros Hnd d e Hd He Heq. apply list_elem_of_lookup in Hd as [i Hi], He as [j Hj].
  assert (i = j) as ->; [|congruence]. eapply (NoDup_lookup _ i j _ Hnd); rewrite list_lookup_fmap; [by rewrite Hi|rewrite Hj; cbn; unfold name_of; by rewrite Heq].
Qed.

Lemma empty_honest naming D : honest naming D empty_store.
Proof. intros r w d Hr. cbn [blob empty_store] in Hr. by rewrite lookup_empty in Hr. Qed.

Lemma demo_built_ok : BuildTree storeSubmanifest demo_files 1 (mk_commit (cm_store demo_commit) (cm_unsent demo_commit) (cm_seen demo_commit) [])
  = Ok (demo_built.1, demo_built.2).
Proof. vm_compute. reflexivity. Qed.

Lemma demo_apart : apart demo_naming (t_Subs demo_built.1).
Proof. apply apart_nodup. apply (bool_decide_eq_true_1 _). vm_compute. reflexivity. Qed.

Lemma demo_small : len (t_Subs demo_built.1) <= maxTreeNodes.
Proof. vm_compute. discriminate. Qed.

Lemma demo_stored_ok : storeCheckinTree demo_files 1 demo_commit = Ok demo_stored.
Proof. vm_compute. reflexivity. Qed.

Lemma demo_naming_ok : NamingFor (hash_view (cm_store demo_commit)) = Ok demo_naming.
Proof. vm_compute. reflexivity. Qed.

Lemma demo_leaf_files : forallb leaf_file demo_files = true.
Proof. vm_compute. reflexivity. Qed.

Lemma demo_ascending : ascending file_less demo_files.
Proof. apply sortedb_ascending; [exact file_less_sw|vm_compute; reflexivity]. Qed.

Lemma demo_isTree : isTree (set_S demo_stored.1 zero_Deck) = true.
Proof. vm_compute. reflexivity. Qed.

Lemma same_answer {A} (r : tresult A) (a b : A) : r = Ok a -> r = Ok b -> a = b.
Proof. intros -> E. by injection E. Qed.

Lemma set_S_read (l : list SubmanifestCard) : d_S (set_S l zero_Deck) = l.
Proof. reflexivity. Qed.

Lemma tree_roundtrip_witness : exists run c', storeCheckinTree demo_files 1 demo_commit = Ok (run, c') /\ 0 < len run
  /\ walkTree (loader_of demo_grow (cm_store c')) (set_S run zero_Deck) = Ok (map norm_file demo_files).
Proof.
  destruct (tree_roundtrip demo_grow demo_commit demo_naming demo_files 1 demo_grow_ok empty_wf demo_naming_ok
    ltac:(lia) demo_leaf_files demo_ascending) as (run & c' & Hst & _ & _ & H).
  pose proof (same_answer _ _ _ Hst demo_stored_ok) as E.
  assert (run = demo_stored.1) as -> by exact (f_equal fst E).
  assert (c' = demo_stored.2) as -> by exact (f_equal snd E).
  exists demo_stored.1, demo_stored.2. split; [exact Hst|split; [vm_compute; reflexivity|]].
  exact (proj1 (H _ _ demo_built_ok demo_apart (empty_honest _ _) demo_small (proj2 demo_readable) _ demo_isTree (set_S_read _))).
Defined.
