(* ===== verification/Uv.v ===== *)
(** * Unversioned files: src/internal/uv/status.go, uv.go

    The unversioned table keyed by its UNIQUE name, and the uv-hash row of the
    config table that caches the catalog's hash.  The receipt a row names and the
    row's uvid are left out; nothing here reads them.  A nil slice is [None].
    SQLite's [datetime(mtime,'unixepoch')], which is NULL outside its range, is a
    parameter. *)

From stdpp Require Import gmap.
From S2P Require Import Prelude GoMap GoStd GoText GoCrypto Escape Zlib Hash.

(** ** Status *)
Definition cmpStr (a b : bytes) : Z := if blt a b then -1 else if blt b a then 1 else 0.

Definition Status (localMtime : Z) (localHash : bytes) (remoteMtime : Z) (remoteHash : bytes) : Z :=
  if localMtime =? 0 then 0
  else
    let mtimeCmp := if localMtime <? remoteMtime then -1 else if localMtime >? remoteMtime then 1 else 0 in
    let hashCmp := cmpStr localHash remoteHash in
    if hashCmp =? 0 then 3 + mtimeCmp
    else if (mtimeCmp =? 0) && bytes_eqb localHash (bs "-") then 5
    else if (mtimeCmp =? 0) && bytes_eqb remoteHash (bs "-") then 1
    else if (mtimeCmp <? 0) || ((mtimeCmp =? 0) && (hashCmp <? 0)) then 1
    else 5.

(** ** The tables *)
Record uvrow := mk_uvrow { uv_mtime : Z; uv_hash : option bytes; uv_sz : Z; uv_encoding : Z; uv_content : option bytes }.
Record uvdb := mk_uvdb { unversioned : gmap bytes uvrow; uv_cache : option bytes }.
Record Entry := mk_Entry { e_Name : bytes; e_MTime : Z; e_Hash : bytes; e_Size : Z }.

Inductive uv_error := ErrNaming (e : policy_error) | ErrZlibOpen | ErrZlibRead | ErrNullDate (name : bytes).
Abbreviation uresult := (outcome uv_error).

Definition set_rows (d : uvdb) (m : gmap bytes uvrow) : uvdb := mk_uvdb m (uv_cache d).
Definition InvalidateHash (d : uvdb) : uvdb := mk_uvdb (unversioned d) None.

(** The UPDATE of one row's mtime. *)
Definition update_mtime (name : bytes) (mtime : Z) (d : uvdb) : uvdb :=
  set_rows d (alter (fun r => mk_uvrow mtime (uv_hash r) (uv_sz r) (uv_encoding r) (uv_content r)) name (unversioned d)).

(** The UPDATE that makes a held row a tombstone. *)
Definition update_deleted (name : bytes) (mtime : Z) (d : uvdb) : uvdb :=
  set_rows d (alter (fun _ => mk_uvrow mtime None 0 0 None) name (unversioned d)).

Section Uv.
Context `{ZL : !Zlib} `{S3 : !Sha3} `{GS : !GoSort} `{TO : !TableOrder} (datetime : Z -> option bytes).

Definition storeRow (name : bytes) (mtime : Z) (fileHash : bytes) (content : option bytes) (d : uvdb) : uresult uvdb :=
  if bytes_eqb name [] || bytes_eqb fileHash [] || bytes_eqb fileHash (bs "-")
  then Panic "uv.storeRow: a row needs a name and a content hash"
  else
    let sz := len (default [] content) in
    let '(encoding, stored) :=
      if sz >? 0 then
        let compressed := zlib_Write (default [] content) in
        if len compressed <=? Z.quot (sz * 4) 5 then (1, Some compressed) else (0, content)
      else (0, content) in
    Ok (set_rows d (<[name := mk_uvrow mtime (Some fileHash) sz encoding stored]> (unversioned d))).

(** [q] is what the hash policy reads of the repository. *)
Definition Write (q : repo) (name : bytes) (content : option bytes) (mtime : Z) (d : uvdb) : uresult uvdb :=
  if bytes_eqb name [] then Panic "uv.Write: name must not be empty"
  else match content with
       | None => Panic "uv.Write: content must not be nil"
       | Some _ =>
           let? naming := wrap_err ErrNaming (NamingFor q) in
           let? contentHash := Alg_Hash (Hash.New naming) content in
           let? d := storeRow name mtime contentHash content d in
           Ok (InvalidateHash d)
       end.

(** What [Read] makes of a row: the content, the mtime and the hash, empty for a
    tombstone. *)
Definition read_row (r : uvrow) : uresult (option bytes * Z * bytes) :=
  match uv_hash r with
  | None => Ok (None, uv_mtime r, [])
  | Some h =>
      match uv_content r with
      | Some stored =>
          if uv_encoding r =? 1 then
            match zlib_read stored with
            | None => Err ErrZlibOpen
            | Some z => if z_clean z then Ok (Some (z_out z), uv_mtime r, h) else Err ErrZlibRead
            end
          else Ok (Some stored, uv_mtime r, h)
      | None => Ok (None, uv_mtime r, h)
      end
  end.

(** An absent name is nil, 0 and the empty hash. *)
Definition Read (d : uvdb) (name : bytes) : uresult (option bytes * Z * bytes) :=
  match unversioned d !! name with None => Ok (None, 0, []) | Some r => read_row r end.

Definition Receive (name : bytes) (mtime : Z) (fileHash : bytes) (content : option bytes) (d : uvdb) : uresult uvdb :=
  if bytes_eqb name [] || bytes_eqb fileHash [] then Panic "uv.Receive: name and hash must not be empty"
  else
    let? (_, localMtime, localHash) := Read d name in
    let status := Status localMtime localHash mtime fileHash in
    if status >=? 3 then Ok d
    else if bytes_eqb fileHash (bs "-") then Ok (InvalidateHash (update_deleted name mtime d))
    else if status =? 2 then Ok (InvalidateHash (update_mtime name mtime d))
    else
      let content := if len (default [] content) =? 0 then None else content in
      let? d := storeRow name mtime fileHash content d in
      Ok (InvalidateHash d).

Definition Delete (name : bytes) (mtime : Z) (d : uvdb) : uresult uvdb :=
  if bytes_eqb name [] then Panic "uv.Delete: name must not be empty"
  else
    Ok (InvalidateHash
          match unversioned d !! name with
          | None => set_rows d (<[name := mk_uvrow mtime None 0 0 None]> (unversioned d))
          | Some _ => update_deleted name mtime d
          end).

(** ORDER BY name. *)
Definition by_name : list (bytes * uvrow) -> list (bytes * uvrow) := insertion_sort (fun x y => blt (fst x) (fst y)).

Definition List (d : uvdb) : list Entry :=
  map (fun '(name, r) => mk_Entry name (uv_mtime r) (default [] (uv_hash r)) (uv_sz r)) (by_name (map_to_list (unversioned d))).

(** A line of the catalog: its encoded name, and the rest. *)
Fixpoint catalog_lines (rows : list (bytes * uvrow)) : uresult (list (bytes * bytes)) :=
  match rows with
  | [] => Ok []
  | (name, r) :: rows =>
      match uv_hash r with
      | None => catalog_lines rows
      | Some h =>
          match datetime (uv_mtime r) with
          | None => Err (ErrNullDate name)
          | Some dt =>
              let? lines := catalog_lines rows in
              Ok ((FossilEncode name, bs " " ++ dt ++ bs " " ++ h ++ [x0a]) :: lines)
          end
      end
  end.

Definition compute_hash (m : gmap bytes uvrow) : uresult bytes :=
  let? lines := catalog_lines (table_order (map_to_list m)) in
  let lines := sort_slice (fun x y => blt (fst x) (fst y)) lines in
  Ok (hex_encode (sha1_Sum (mjoin (map (fun l => fst l ++ snd l) lines)))).

Definition ContentHash (d : uvdb) : uresult (bytes * uvdb) :=
  match uv_cache d with
  | Some ((_ :: _) as cached) => Ok (cached, d)
  | _ => let? result := compute_hash (unversioned d) in Ok (result, mk_uvdb (unversioned d) (Some result))
  end.
End Uv.
