(* ===== verification/UvCorrect.v ===== *)
(** * What a row of the unversioned table says, and what receiving a card does

    [newer l r]: the row [l] is to replace [r]; the status of a file against a
    card says which of two rows is newer, and receiving the card of a newer row
    leaves that row.  The catalog's hash is a function of the live names, times
    and hashes. *)

From Stdlib Require Import Sorted.
From stdpp Require Import base list sorting gmap.
From S2P Require Import Prelude GoMap GoStd GoText GoCrypto Escape Zlib Hash Uv.

Definition key (r : uvrow) : Z * option bytes := (uv_mtime r, uv_hash r).
Definition live (r : uvrow) : bool := bool_decide (is_Some (uv_hash r)).
(** The HASH of the row's uvigot and uvfile cards. *)
Definition card_hash (r : uvrow) : bytes := default (bs "-") (uv_hash r).

(** The later row, and of two contents of one second the greater hash. *)
Definition newer (l r : uvrow) : bool :=
  (uv_mtime r <? uv_mtime l)
  || ((uv_mtime r =? uv_mtime l) && match uv_hash l, uv_hash r with Some a, Some b => blt b a | _, _ => false end).

Lemma cmpStr_refl a : cmpStr a a = 0.
Proof. unfold cmpStr. by rewrite blt_irrefl. Qed.

Lemma cmpStr_ne a b : a <> b -> cmpStr a b = if blt b a then 1 else -1.
Proof.
  intros Hne. unfold cmpStr. destruct (blt_total a b) as [H|[H|H]]; [|done|].
  - rewrite H. destruct (blt b a) eqn:E; [|done]. pose proof (blt_trans _ _ _ H E) as H'. by rewrite blt_irrefl in H'.
  - rewrite H. destruct (blt a b) eqn:E; [|done]. pose proof (blt_trans _ _ _ H E) as H'. by rewrite blt_irrefl in H'.
Qed.

Section Rows.
Context `{ZL : !Zlib} `{S3 : !Sha3}.

(** A row an exchange can rely on: it has a time, and a live one has readable
    content that its hash names. *)
Definition sound_row (r : uvrow) : Prop :=
  uv_mtime r <> 0 /\ match uv_hash r with
                     | None => True
                     | Some h => exists oc, read_row r = Ok (oc, uv_mtime r, h) /\ Hash.ContentHash (E:=uv_error) (Some (default [] oc)) h = Ok h
                     end.

Lemma named_hash data h : Hash.ContentHash (E:=uv_error) (Some data) h = Ok h -> h <> [] /\ h <> bs "-".
Proof.
  unfold Hash.ContentHash. destruct h as [|c h]; [done|]. intros H. split; [done|]. intros E.
  assert (len (c :: h) = 1) as Hl by (by rewrite E).
  destruct (len (c :: h) >? 40); cbn [SHA3 SHA1] in H; injection H as H;
    rewrite <- H, hex_encode_len, ?sha3_Sum256_len, ?sha1_Sum_len in Hl; lia.
Qed.

Lemma sound_hash r h : sound_row r -> uv_hash r = Some h -> h <> [] /\ h <> bs "-".
Proof. intros [_ H] E. rewrite E in H. destruct H as (oc & _ & H). by apply named_hash in H. Qed.

(** [Status] of a row against another row's card. *)
Definition status (l r : uvrow) : Z := Status (uv_mtime l) (default [] (uv_hash l)) (uv_mtime r) (card_hash r).

Lemma Status_same lm rm h : lm <> 0 -> Status lm h rm h = 3 + (if lm <? rm then -1 else if lm >? rm then 1 else 0).
Proof. intros Hl. unfold Status. rewrite (proj2 (Z.eqb_neq _ _)) by done. by rewrite cmpStr_refl. Qed.

Lemma Status_other lm lh rm rh : lm <> 0 -> lh <> rh -> lh <> bs "-" ->
  Status lm lh rm rh = if (rm <? lm) || ((rm =? lm) && negb (bytes_eqb rh (bs "-")) && blt rh lh) then 5 else 1.
Proof.
  intros Hl Hne Hd. unfold Status. rewrite (proj2 (Z.eqb_neq _ _)), cmpStr_ne by done.
  rewrite (proj2 (bytes_eqb_neq lh _)), andb_false_r by done.
  destruct (Z.ltb_spec lm rm), (Z.gtb_spec lm rm), (Z.ltb_spec rm lm), (Z.eqb_spec rm lm), (bytes_eqb rh (bs "-")), (blt rh lh); done || lia.
Qed.

Lemma status_newer l r : sound_row l -> sound_row r -> newer l r = true ->
  status l r = 5 \/ status l r = 4 /\ live l = true /\ uv_hash l = uv_hash r.
Proof.
  intros Hl Hr Hn. unfold status, newer, card_hash, live in *. pose proof (sound_hash l) as Sl. pose proof (sound_hash r) as Sr.
  destruct (uv_hash l) as [a|], (uv_hash r) as [b|]; cbn [default from_option id] in *.
  - destruct (Sl _ Hl eq_refl) as [_ Ha], (Sr _ Hr eq_refl) as [_ Hb]. destruct (decide (a = b)) as [->|Hab].
    + right. rewrite Status_same by apply Hl. rewrite blt_irrefl, andb_false_r, orb_false_r in Hn. apply Z.ltb_lt in Hn.
      rewrite (proj2 (Z.ltb_ge _ _)), (proj2 (Z.gtb_lt _ _)) by lia. done.
    + left. rewrite Status_other; [|by apply Hl|done..]. rewrite (proj2 (bytes_eqb_neq b _)) by done. cbn [negb]. by rewrite andb_true_r, Hn.
  - destruct (Sl _ Hl eq_refl) as [_ Ha]. left. rewrite Status_other; [|by apply Hl|done..].
    rewrite andb_false_r, orb_false_r in Hn. by rewrite Hn.
  - destruct (Sr _ Hr eq_refl) as [Hb _]. left. rewrite Status_other; [|by apply Hl|done..].
    rewrite andb_false_r, orb_false_r in Hn. by rewrite Hn.
  - left. rewrite Status_other; [|by apply Hl|done..]. rewrite andb_false_r, orb_false_r in Hn. by rewrite Hn.
Qed.

Lemma status_not_newer l r : sound_row l -> sound_row r -> newer l r = false ->
  status l r = 1 \/ live l = true /\ uv_hash l = uv_hash r /\ (status l r = 2 /\ uv_mtime l < uv_mtime r \/ status l r = 3 /\ uv_mtime l = uv_mtime r).
Proof.
  intros Hl Hr Hn. unfold status, newer, card_hash, live in *. pose proof (sound_hash l) as Sl. pose proof (sound_hash r) as Sr.
  apply orb_false_iff in Hn as [Hm Hn]. destruct (uv_hash l) as [a|], (uv_hash r) as [b|]; cbn [default from_option id] in *.
  - destruct (Sl _ Hl eq_refl) as [_ Ha], (Sr _ Hr eq_refl) as [_ Hb]. destruct (decide (a = b)) as [->|Hab].
    + right. rewrite Status_same by apply Hl. apply Z.ltb_ge in Hm. do 2 (split; [done|]).
      destruct (Z.ltb_spec (uv_mtime l) (uv_mtime r)); [by left|]. right. rewrite (Z.gtb_ltb (uv_mtime l)), (proj2 (Z.ltb_ge _ _)) by lia. lia.
    + left. rewrite Status_other; [|by apply Hl|done..]. rewrite (proj2 (bytes_eqb_neq b _)) by done. cbn [negb].
      by rewrite andb_true_r, Hm, Hn.
  - destruct (Sl _ Hl eq_refl) as [_ Ha]. left. rewrite Status_other; [|by apply Hl|done..]. by rewrite Hm, bytes_eqb_refl, andb_false_r.
  - destruct (Sr _ Hr eq_refl) as [Hb _]. left. rewrite Status_other; [|by apply Hl|done..]. rewrite Hm.
    cbn [orb]. destruct b as [|c b]; [done|]. assert (blt (c :: b) [] = false) as -> by done. by rewrite andb_false_r.
  - left. rewrite Status_other; [|by apply Hl|done..]. rewrite Hm, bytes_eqb_refl. by rewrite andb_false_r.
Qed.

(** The other side sees it the other way round. *)
Lemma status_mirror l r : sound_row l -> sound_row r -> newer l r = true ->
  status r l = 1 \/ status r l = 2 /\ live l = true /\ uv_hash l = uv_hash r.
Proof.
  intros Hl Hr Hn. assert (newer r l = false) as Hn'.
  { unfold newer in *. apply orb_false_iff. apply orb_true_iff in Hn as [Hn|Hn].
    - apply Z.ltb_lt in Hn. split; [lia|]. by rewrite (proj2 (Z.eqb_neq _ _)) by lia.
    - apply andb_true_iff in Hn as [Hm Hn]. split; [lia|]. destruct (uv_hash l) as [a|], (uv_hash r) as [b|]; try done.
      destruct (blt a b) eqn:E; [|by rewrite andb_false_r]. pose proof (blt_trans _ _ _ Hn E) as H'. by rewrite blt_irrefl in H'. }
  destruct (status_not_newer r l Hr Hl Hn') as [H|(Hlive & Hh & [[H _]|[H Heq]])]; [by left|right; unfold live in *; rewrite <- Hh in *; done|].
  exfalso. unfold newer in Hn. rewrite Hh in Hn. apply orb_true_iff in Hn as [Hn|Hn]; [lia|]. apply andb_true_iff in Hn as [_ Hn].
  destruct (uv_hash l); [|done]. by rewrite blt_irrefl in Hn.
Qed.

(** ** What is stored reads back *)
Definition content_of (r : uvrow) : bytes := match read_row r with Ok (oc, _, _) => default [] oc | _ => [] end.

Lemma read_sound r : sound_row r -> exists oc, read_row r = Ok (oc, uv_mtime r, default [] (uv_hash r)) /\ content_of r = default [] oc.
Proof.
  intros [_ H]. unfold content_of. destruct (uv_hash r) as [h|] eqn:E.
  - destruct H as (oc & -> & _). by exists oc.
  - exists None. unfold read_row. by rewrite E.
Qed.

Lemma sound_named r h : sound_row r -> uv_hash r = Some h -> Hash.ContentHash (E:=uv_error) (Some (content_of r)) h = Ok h.
Proof. intros [_ H] E. unfold content_of. rewrite E in H. by destruct H as (oc & -> & H). Qed.

Lemma storeRow_ok name mtime h content d : name <> [] -> h <> [] -> h <> bs "-" ->
  exists r, storeRow name mtime h content d = Ok (set_rows d (<[name := r]> (unversioned d))) /\ key r = (mtime, Some h)
    /\ exists oc, read_row r = Ok (oc, mtime, h) /\ default [] oc = default [] content.
Proof.
  intros Hn Hh Hd. unfold storeRow. rewrite !(proj2 (bytes_eqb_neq _ _)) by done. cbn [orb].
  destruct (Z.gtb_spec (len (default [] content)) 0) as [Hz|Hz]; [destruct (_ <=? _)|].
  - eexists. split; [done|]. split; [done|]. exists (Some (default [] content)). unfold read_row. cbn. by rewrite zlib_Write_read.
  - eexists. split; [done|]. split; [done|]. exists content. by destruct content.
  - eexists. split; [done|]. split; [done|]. exists content. by destruct content.
Qed.

Lemma stored_sound r mtime h oc data : key r = (mtime, Some h) -> mtime <> 0 -> read_row r = Ok (oc, mtime, h) -> default [] oc = data ->
  Hash.ContentHash (E:=uv_error) (Some data) h = Ok h -> sound_row r.
Proof.
  intros Hk Hm Hr Hc Hh. injection Hk as Hk1 Hk2. split; [congruence|]. rewrite Hk2. exists oc. by rewrite Hr, Hk1, Hc.
Qed.

(** ** Receiving a card *)
Lemma alter_row f name d l : unversioned d !! name = Some l -> alter f name (unversioned d) = <[name := f l]> (unversioned d).
Proof.
  intros H. apply map_eq. intros i. destruct (decide (i = name)) as [->|Hne].
  - by rewrite lookup_alter_eq, lookup_insert_eq, H.
  - by rewrite lookup_alter_ne, lookup_insert_ne.
Qed.

Lemma Receive_new name r d : name <> [] -> sound_row r -> live r = true -> unversioned d !! name = None ->
  exists r', Receive name (uv_mtime r) (card_hash r) (Some (content_of r)) d = Ok (InvalidateHash (set_rows d (<[name := r']> (unversioned d))))
    /\ key r' = key r /\ sound_row r'.
Proof.
  intros Hname Hr Hlive Hno. unfold live in Hlive. destruct (uv_hash r) as [h|] eqn:E; [|done].
  destruct (sound_hash r h Hr E) as [Hh Hd]. pose proof (sound_named r h Hr E) as Hnamed.
  unfold Receive, card_hash, Read. rewrite E, Hno. cbn [default from_option id obind].
  rewrite !(proj2 (bytes_eqb_neq _ _)) by done. cbn [orb]. change (Status 0 [] (uv_mtime r) h) with 0. cbn [Z.geb Z.compare Z.eqb].
  set (content := if _ =? 0 then None else _).
  assert (default [] content = content_of r) as Hc.
  { unfold content. destruct (Z.eqb_spec (len (content_of r)) 0) as [Hz|]; [|done]. by rewrite (len_zero _ Hz). }
  destruct (storeRow_ok name (uv_mtime r) h content d Hname Hh Hd) as (r' & -> & Hk & oc & Hread & Hoc).
  exists r'. split; [done|]. split; [unfold key in *; by rewrite Hk, E|].
  apply (stored_sound r' (uv_mtime r) h oc (content_of r)); [done|by apply Hr|done|by rewrite Hoc|done].
Qed.

Lemma status_same_hash l r : sound_row l -> live r = true -> uv_hash l = uv_hash r -> newer r l = true -> status l r = 2.
Proof.
  intros Hl Hlive Hh Hn. unfold status, newer, live, card_hash in *. rewrite Hh in *. destruct (uv_hash r) as [h|]; [|done].
  rewrite blt_irrefl, andb_false_r, orb_false_r in Hn. cbn [default from_option id]. rewrite Status_same by apply Hl. by rewrite Hn.
Qed.

Lemma retimed_sound l r : sound_row l -> sound_row r -> uv_hash l = uv_hash r ->
  sound_row (mk_uvrow (uv_mtime r) (uv_hash l) (uv_sz l) (uv_encoding l) (uv_content l)).
Proof.
  intros [_ Hl] [Hr _] Hh. split; [done|]. cbn [uv_hash uv_mtime]. destruct (uv_hash l) as [h|] eqn:E; [|done].
  destruct Hl as (oc & Hread & Hnamed). exists oc. split; [|done]. revert Hread. unfold read_row. rewrite E. cbn.
  destruct (uv_content l); [|by intros [= <-]]. destruct (_ =? 1); [|by intros [= <-]].
  destruct (zlib_read _) as [z|]; [|done]. destruct (z_clean z); [|done]. by intros [= <-].
Qed.

Lemma Receive_newer name l r content d : name <> [] -> unversioned d !! name = Some l -> sound_row l -> sound_row r -> newer r l = true ->
  content = content_of r \/ live r = true /\ uv_hash l = uv_hash r ->
  exists r', Receive name (uv_mtime r) (card_hash r) (Some content) d = Ok (InvalidateHash (set_rows d (<[name := r']> (unversioned d))))
    /\ key r' = key r /\ sound_row r'.
Proof.
  intros Hname Hrow Hl Hr Hn Hc. destruct (read_sound l Hl) as (oc & Hread & _). unfold Receive, Read. rewrite Hrow, Hread. cbn [obind].
  assert (bytes_eqb (card_hash r) [] = false) as E0.
  { apply bytes_eqb_neq. unfold card_hash. destruct (uv_hash r) as [h|] eqn:E; [by apply (sound_hash r)|done]. }
  rewrite (proj2 (bytes_eqb_neq name _)), E0 by done. cbn [orb]. fold (status l r).
  destruct (decide (live r = true /\ uv_hash l = uv_hash r)) as [[Hlive Hh]|Hother].
  - rewrite (status_same_hash l r Hl Hlive Hh Hn). cbn [Z.geb Z.compare Pos.compare Pos.compare_cont Z.eqb Pos.eqb].
    assert (bytes_eqb (card_hash r) (bs "-") = false) as ->.
    { apply bytes_eqb_neq. unfold card_hash, live in *. destruct (uv_hash r) as [h|] eqn:E; [|done]. by apply (sound_hash r). }
    eexists. split; [unfold update_mtime; by rewrite (alter_row _ _ _ _ Hrow)|]. split; [unfold key; cbn; by rewrite Hh|].
    by apply retimed_sound.
  - destruct Hc as [->|Hc]; [|done].
    destruct (status_mirror r l Hr Hl Hn) as [->|(_ & Hlive & Hh)]; [|by destruct Hother]. cbn [Z.geb Z.compare Pos.compare Pos.compare_cont Z.eqb Pos.eqb].
    unfold card_hash in *. destruct (uv_hash r) as [h|] eqn:E; cbn [default from_option id] in *.
    + destruct (sound_hash r h Hr E) as [Hh Hd]. rewrite (proj2 (bytes_eqb_neq h _)) by done.
      set (content := if _ =? 0 then None else _).
      assert (default [] content = content_of r) as Hc.
      { unfold content. destruct (Z.eqb_spec (len (content_of r)) 0) as [Hz|]; [|done]. by rewrite (len_zero _ Hz). }
      destruct (storeRow_ok name (uv_mtime r) h content d Hname Hh Hd) as (r' & -> & Hk & oc' & Hread' & Hoc).
      exists r'. split; [done|]. split; [unfold key in *; by rewrite Hk, E|].
      apply (stored_sound r' (uv_mtime r) h oc' (content_of r)); [done|by apply Hr|done|by rewrite Hoc|by apply sound_named].
    + rewrite bytes_eqb_refl. eexists. split; [unfold update_deleted; by rewrite (alter_row _ _ _ _ Hrow)|].
      split; [unfold key; by rewrite E|]. split; [apply Hr|done].
Qed.

(** The card of a row already held changes nothing. *)
Lemma Receive_same name l r content d : name <> [] -> unversioned d !! name = Some l -> sound_row l -> live r = true -> key l = key r ->
  Receive name (uv_mtime r) (card_hash r) (Some content) d = Ok d.
Proof.
  intros Hname Hrow Hl Hlive Hk. injection Hk as Hm Hh. destruct (read_sound l Hl) as (oc & Hread & _). unfold Receive, Read.
  rewrite Hrow, Hread. cbn [obind]. unfold live, card_hash in *. destruct (uv_hash r) as [h|] eqn:E; [|done]. rewrite Hh.
  cbn [default from_option id]. destruct (sound_hash l h Hl Hh) as [Hh0 _].
  rewrite !(proj2 (bytes_eqb_neq _ _)) by done. cbn [orb]. rewrite <- Hm, Status_same by apply Hl.
  rewrite (proj2 (Z.ltb_ge _ _)), Z.gtb_ltb, (proj2 (Z.ltb_ge _ _)) by lia. done.
Qed.
End Rows.

(** ** The catalog's hash *)
Section Catalog.
Context `{GS : !GoSort} `{TO : !TableOrder} (datetime : Z -> option bytes).

Definition dated (m : gmap bytes uvrow) : Prop :=
  forall name r, m !! name = Some r -> live r = true -> is_Some (datetime (uv_mtime r)).

(** The live rows agree in time and hash. *)
Definition same_live (m m' : gmap bytes uvrow) : Prop :=
  forall name k, (exists r, m !! name = Some r /\ live r = true /\ key r = k) <-> (exists r, m' !! name = Some r /\ live r = true /\ key r = k).

Definition line (x : bytes * uvrow) : option (bytes * bytes) :=
  h ← uv_hash (snd x); dt ← datetime (uv_mtime (snd x));
  Some (FossilEncode (fst x), bs " " ++ dt ++ bs " " ++ h ++ [x0a]).

Lemma catalog_lines_ok rows : (forall x, x ∈ rows -> live (snd x) = true -> is_Some (datetime (uv_mtime (snd x)))) ->
  catalog_lines datetime rows = Ok (omap line rows).
Proof using.
  induction rows as [|[name r] rows IH]; intros Hd; [done|]. cbn [catalog_lines omap list_omap].
  assert (catalog_lines datetime rows = Ok (omap line rows)) as IH' by (apply IH; intros x Hx; apply Hd; by right).
  unfold line at 1. cbn [fst snd]. destruct (uv_hash r) as [h|] eqn:E; [|done]. cbn [mbind option_bind].
  destruct (Hd (name, r)) as [dt Hdt]; [by left|unfold live; cbn; by rewrite E|]. cbn [snd] in Hdt. rewrite Hdt. cbn. rewrite IH'. done.
Qed.

Lemma encode_inj a b : FossilEncode a = FossilEncode b -> a = b.
Proof using. intros H. by rewrite <- (FossilDecode_Encode a), <- (FossilDecode_Encode b), H. Qed.

Lemma line_name x l : line x = Some l -> fst l = FossilEncode (fst x).
Proof using. unfold line. destruct (uv_hash _); [|done]. cbn. destruct (datetime _); [|done]. cbn. by intros [= <-]. Qed.

Lemma lines_nodup rows : NoDup (map fst rows) -> NoDup (map fst (omap line rows)).
Proof using.
  induction rows as [|x rows IH]; cbn [map omap list_omap]; [intros; constructor|]. intros [Hx Hnd]%NoDup_cons.
  destruct (line x) as [l|] eqn:E; [|by apply IH]. cbn [map]. constructor; [|by apply IH].
  rewrite (line_name x l E). intros (l' & Hl' & (y & Hy & Hly)%list_elem_of_omap)%list_elem_of_fmap.
  apply Hx, list_elem_of_fmap. exists y. split; [|done]. apply encode_inj. by rewrite Hl', (line_name y l' Hly).
Qed.

Lemma sort_same (l k : list (bytes * bytes)) : Permutation l k -> NoDup (map fst l) ->
  sort_slice (fun x y => blt (fst x) (fst y)) l = sort_slice (fun x y => blt (fst x) (fst y)) k.
Proof using.
  intros Hp Hnd. set (less := fun x y => _).
  pose proof (sort_slice_ordered less l (strict_weak_key fst)) as Hl. pose proof (sort_slice_ordered less k (strict_weak_key fst)) as Hk.
  eapply StronglySorted_unique_strong; [|exact Hl|exact Hk|by rewrite !sort_slice_perm].
  intros x y Hx Hy Hxy Hyx. rewrite sort_slice_perm in Hx. rewrite sort_slice_perm, <- Hp in Hy.
  assert (fst x = fst y) as Heq.
  { destruct (blt_total (fst x) (fst y)) as [H|[H|H]]; [|done|]; unfold less in Hxy, Hyx; congruence. }
  apply list_elem_of_lookup in Hx as [i Hi], Hy as [j Hj].
  assert (i = j) as ->; [|congruence].
  apply (NoDup_lookup _ i j (fst x) Hnd); rewrite list_lookup_fmap; [by rewrite Hi|by rewrite Hj, Heq].
Qed.

Lemma compute_hash_ok m : dated m -> exists lines, compute_hash datetime m = Ok (hex_encode (sha1_Sum (mjoin (map (fun l => fst l ++ snd l)
    (sort_slice (fun x y => blt (fst x) (fst y)) lines))))) /\ NoDup (map fst lines)
  /\ forall l, l ∈ lines <-> exists name r, m !! name = Some r /\ line (name, r) = Some l.
Proof using.
  intros Hd. exists (omap line (table_order (map_to_list m))). split; [|split].
  - unfold compute_hash. rewrite catalog_lines_ok; [done|]. intros [name r] Hx. rewrite table_order_perm in Hx.
    apply elem_of_map_to_list in Hx. by apply (Hd name).
  - apply lines_nodup. rewrite (Permutation_map fst (table_order_perm _)). apply NoDup_fst_map_to_list.
  - intros l. rewrite list_elem_of_omap. split.
    + intros ([name r] & Hx & Hl). rewrite table_order_perm, elem_of_map_to_list in Hx. by exists name, r.
    + intros (name & r & Hx & Hl). exists (name, r). split; [|done]. by rewrite table_order_perm, elem_of_map_to_list.
Qed.

Lemma line_key name r l : line (name, r) = Some l -> live r = true /\ forall r', key r' = key r -> line (name, r') = Some l.
Proof using.
  unfold line, live. cbn [fst snd]. intros H. destruct (uv_hash r) as [h|] eqn:E; [|done]. split; [done|].
  intros r' [= Hm Hh]. by rewrite Hm, Hh, E.
Qed.

Lemma compute_hash_same m m' : dated m -> dated m' -> same_live m m' -> compute_hash datetime m = compute_hash datetime m'.
Proof using.
  intros Hd Hd' Hs. destruct (compute_hash_ok m Hd) as (l & -> & Hnd & Hl), (compute_hash_ok m' Hd') as (l' & -> & Hnd' & Hl').
  do 5 f_equal. apply sort_same; [|done]. apply NoDup_Permutation; [by apply (NoDup_fmap_1 fst)|by apply (NoDup_fmap_1 fst)|].
  intros x. rewrite Hl, Hl'. split; intros (name & r & Hr & Hx); destruct (line_key name r x Hx) as [Hlive Hk];
    [destruct (proj1 (Hs name (key r))) as (r' & Hr' & _ & Hkey)|destruct (proj2 (Hs name (key r))) as (r' & Hr' & _ & Hkey)];
    try (by exists r); exists name, r'; (split; [done|by apply Hk]).
Qed.
End Catalog.

(** ** The table and its cached hash *)
Section Tables.
Context `{ZL : !Zlib} `{S3 : !Sha3} `{GS : !GoSort} `{TO : !TableOrder} (datetime : Z -> option bytes).

(** The cached hash is that of the rows. *)
Definition fresh (d : uvdb) : Prop :=
  match uv_cache d with Some ((_ :: _) as h) => compute_hash datetime (unversioned d) = Ok h | _ => True end.

Record sound_db (d : uvdb) : Prop := {
  so_rows name r : unversioned d !! name = Some r -> name <> [] /\ sound_row r;
  so_fresh : fresh d }.

Lemma sound_insert d name r : sound_db d -> name <> [] -> sound_row r ->
  sound_db (InvalidateHash (set_rows d (<[name := r]> (unversioned d)))).
Proof using.
  intros [Hrows _] Hn Hr. split; [|done]. intros n x. cbn [InvalidateHash set_rows unversioned].
  intros [[<- <-]|[_ H]]%lookup_insert_Some; [done|by apply (Hrows n)].
Qed.

Lemma sound_delete d name : sound_db d -> sound_db (InvalidateHash (set_rows d (base.delete name (unversioned d)))).
Proof using. intros [Hrows _]. split; [|done]. intros n x. cbn. intros [_ H]%lookup_delete_Some. by apply (Hrows n). Qed.

Lemma ContentHash_fresh d : fresh d -> forall h d', ContentHash datetime d = Ok (h, d') ->
  compute_hash datetime (unversioned d) = Ok h /\ unversioned d' = unversioned d /\ fresh d'.
Proof using.
  unfold fresh, ContentHash. intros Hf h d'. destruct (uv_cache d) as [[|c l]|] eqn:E.
  1,3: destruct (compute_hash _ _) as [h0| | |] eqn:Eh; cbn [obind]; try done; intros [= <- <-]; split_and!; try done; cbn; by destruct h0.
  intros [= <- <-]. split_and!; try done. by rewrite E.
Qed.

Lemma ContentHash_ok d : sound_db d -> dated datetime (unversioned d) -> exists h d', ContentHash datetime d = Ok (h, d')
  /\ compute_hash datetime (unversioned d) = Ok h /\ unversioned d' = unversioned d /\ sound_db d'.
Proof using.
  intros [Hrows Hf] Hd. assert (exists h d', ContentHash datetime d = Ok (h, d')) as (h & d' & H).
  { unfold ContentHash. destruct (compute_hash_ok datetime _ Hd) as (l & -> & _). destruct (uv_cache d) as [[|c l']|]; cbn [obind]; by do 2 eexists. }
  exists h, d'. destruct (ContentHash_fresh d Hf h d' H) as (Hc & Hr & Hf'). split_and!; try done.
  split; [|done]. intros n r. rewrite Hr. apply Hrows.
Qed.
End Tables.
