(* ===== verification/UvSync.v ===== *)
(** * The synchronisation of unversioned files: src/internal/sync, the uv cards

    What one session does with the uv cards: the client's requests and its
    handling of a reply (client.go), the server's handling of a request
    (handler_uv.go, and the arms of handler.go that reach it), and the round
    loop (session.go).  The cards of the other parts of a session neither read
    nor write what is here.  No fault injection is set.  A uvfile card of a
    decoded message has a payload of its size, so an absent one is the empty
    list.  Ranging over a map goes in the order [table_order] gives. *)

From stdpp Require Import gmap.
From S2P Require Import Prelude GoMap GoStd GoText GoCrypto Escape Zlib Hash XferCard Store Auth Uv.

Definition DefaultMaxSend : Z := 250000.
Definition MaxRounds : Z := 100.
Definition releaseVersion : Z := 22800.
Definition sha3Version : Z := 20000.
Definition sha1NameLen : Z := 40.
Definition UVFlagNoPayload : Z := Z.lor UVFlagDeletion UVFlagContentOmitted.

Definition sha3Barred (name : bytes) (version : Z) : bool := (len name >? sha1NameLen) && (version <? sha3Version).
Definition sha3Refusal : Card := ErrorCard (bs "Fossil version 2.0 or later required.") [].

Section UvSync.
Context `{ZL : !Zlib} `{S3 : !Sha3} `{GS : !GoSort} `{TO : !TableOrder} (datetime : Z -> option bytes).

(** ** Cards both sides write and check *)

(** The content of a card that carries one is not its hash. *)
Definition mismatched (Size Flags : Z) (Content fileHash : bytes) : uresult bool :=
  if (Size >? 0) && (Z.land Flags UVFlagNoPayload =? 0) then
    match Content with
    | [] => Panic "flags indicate payload but Content is nil"
    | _ => let? h := Hash.ContentHash (Some Content) fileHash in Ok (negb (bytes_eqb h fileHash))
    end
  else Ok false.

Definition deletion_card (name : bytes) (mtime : Z) : Card := UVFileCard name mtime (bs "-") 0 UVFlagDeletion [].
Definition content_card (name : bytes) (mtime : Z) (fileHash content : bytes) : Card :=
  UVFileCard name mtime fileHash (len content) 0 content.
Definition omitted_card (name : bytes) (mtime : Z) (fileHash content : bytes) : Card :=
  UVFileCard name mtime fileHash (len content) UVFlagContentOmitted [].

(** ** The server *)
Record handler := mk_handler {
  h_db : uvdb; h_auth : session_auth; uvCatalogSent : bool; h_peerVersion : Z; resp : list Card; broke : bool }.

Definition respond (cards : list Card) (h : handler) : handler :=
  mk_handler (h_db h) (h_auth h) (uvCatalogSent h) (h_peerVersion h) (resp h ++ cards) (broke h).
Definition set_h_db (d : uvdb) (h : handler) : handler :=
  mk_handler d (h_auth h) (uvCatalogSent h) (h_peerVersion h) (resp h) (broke h).
Definition catalog_sent (h : handler) : handler :=
  mk_handler (h_db h) (h_auth h) true (h_peerVersion h) (resp h) (broke h).
Definition breakLoop (msg : bytes) (h : handler) : handler :=
  mk_handler (h_db h) (h_auth h) (uvCatalogSent h) (h_peerVersion h) [ErrorCard msg []] true.
Definition badCommand (line : bytes) (h : handler) : handler :=
  mk_handler (h_db h) (h_auth h) (uvCatalogSent h) (h_peerVersion h) [ErrorCard (bs "bad command: " ++ line) []] (broke h).

Definition replyOnlyLine (c : Card) : uresult bytes :=
  match EncodeCard c with Ok line => Ok line | _ => Panic "handler.replyOnlyLine" end.
Definition receivedLine (c : Card) : uresult bytes :=
  match c with
  | CloneSeqNoCard _ ((_ :: _) as raw) | ErrorCard _ ((_ :: _) as raw) | MessageCard _ ((_ :: _) as raw)
  | UnknownCard _ _ ((_ :: _) as raw) => Ok raw
  | _ => replyOnlyLine c
  end.

(** The catalog: a tombstone's hash is "-". *)
Definition uvigot (e : Entry) : Card :=
  UVIGotCard (e_Name e) (e_MTime e) (if bytes_eqb (e_Hash e) [] then bs "-" else e_Hash e) (e_Size e).
Definition appendUVCatalog (h : handler) : handler := respond (map uvigot (Uv.List (h_db h))) h.

Definition handlePragmaUVHash (clientHash : bytes) (h : handler) : uresult handler :=
  if uvCatalogSent h then Ok h
  else if negb (canRead (h_auth h)) then Ok (catalog_sent h)
  else
    let? (localHash, d) := ContentHash datetime (h_db h) in
    let h := set_h_db d h in
    if bytes_eqb localHash clientHash then Ok h
    else
      let h := catalog_sent h in
      let h := respond [PragmaCard (if CanPushUV (h_caps (h_auth h)) then bs "uv-push-ok" else bs "uv-pull-only") []] h in
      Ok (appendUVCatalog h).

(** [handlePragma]'s arm: an error answers the pragma, it does not end the
    request.  The text after the card's prefix is not modelled. *)
Definition handlePragma_uv (values : list bytes) (h : handler) : uresult handler :=
  match values with
  | [] => Ok h
  | clientHash :: _ =>
      match handlePragmaUVHash clientHash h with
      | Err _ => Ok (respond [ErrorCard (bs "uv-hash: ") []] h)
      | r => r
      end
  end.

Definition sendUVFile (name : bytes) (h : handler) : uresult handler :=
  if bytes_eqb name [] then Panic "handler.sendUVFile: name must not be empty"
  else match unversioned (h_db h) !! name with
       | None => Ok h
       | Some _ =>
           let? (content, mtime, fileHash) := Read (h_db h) name in
           if sha3Barred fileHash (h_peerVersion h) then Ok (respond [sha3Refusal] h)
           else if bytes_eqb fileHash [] then Ok (respond [deletion_card name mtime] h)
           else Ok (respond [content_card name mtime fileHash (default [] content)] h)
       end.

Definition handleUVIGot (name : bytes) (mtime : Z) (hash : bytes) (h : handler) : uresult handler :=
  if negb (canRead (h_auth h)) then Ok h
  else
    let? (_, localMtime, localHash) := Read (h_db h) name in
    let status := Status localMtime localHash mtime hash in
    if (status =? 0) || (status =? 1) then Ok (respond [UVGimmeCard name] h)
    else if status =? 2 then
      if negb (CanPushUV (h_caps (h_auth h))) then Ok h
      else Ok (set_h_db (InvalidateHash (update_mtime name mtime (h_db h))) h)
    else if (status =? 4) || (status =? 5) then sendUVFile name h
    else Ok h.

Definition handleUVGimme (name : bytes) (h : handler) : uresult handler :=
  if negb (canRead (h_auth h)) then Ok h else sendUVFile name h.

Definition handleUVFile (name : bytes) (mtime : Z) (hash : bytes) (Size Flags : Z) (Content : bytes) (h : handler) : uresult handler :=
  let? bad := mismatched Size Flags Content hash in
  if bad then Ok (breakLoop (bs "uvfile " ++ name ++ bs ": hash mismatch") h)
  else if negb (CanPushUV (h_caps (h_auth h)))
  then Ok (breakLoop (bs "uvfile " ++ name ++ bs " denied: insufficient capabilities") h)
  else let? d := Receive name mtime hash (Some Content) (h_db h) in Ok (set_h_db d h).

(** [processCard] on the cards of this component and those no rule accepts. *)
Definition processCard (c : Card) (h : handler) : uresult handler :=
  match c with
  | PragmaCard name values => if bytes_eqb name (bs "uv-hash") then handlePragma_uv values h else Ok h
  | UVIGotCard name mtime hash _ => handleUVIGot name mtime hash h
  | UVGimmeCard name => handleUVGimme name h
  | UVFileCard name mtime hash size flags content => handleUVFile name mtime hash size flags content h
  | BadFileCard msg => Ok (breakLoop msg h)
  | BadCommandCard line => Ok (badCommand line h)
  | ErrorCard _ _ | MessageCard _ _ | CloneSeqNoCard _ _ => let? line := receivedLine c in Ok (badCommand line h)
  | UnknownCard command _ _ =>
      if bytes_eqb command (bs "clone_seqno") then let? line := receivedLine c in Ok (badCommand line h) else Ok h
  | _ => Ok h
  end.

Fixpoint processCards (cards : list Card) (h : handler) : uresult handler :=
  match cards with
  | [] => Ok h
  | c :: cards =>
      let? h := processCard c h in
      if broke h then Ok h else processCards cards h
  end.

(** One request: the reply and the table after it. *)
Definition serve (auth : session_auth) (peerVersion : Z) (d : uvdb) (cards : list Card) : uresult (list Card * uvdb) :=
  let? h := processCards cards (mk_handler d auth false peerVersion [] false) in
  Ok (resp h, h_db h).

(** ** The client *)

(** [uvToSend] is [None] where the map is nil. *)
Record session := mk_session {
  s_db : uvdb; uvHashSent : bool; uvPushOK : bool; uvPullOnly : bool;
  uvToSend : option (gmap bytes bool); uvGimmes : gset bytes;
  nUvGimmeSent : Z; nUvFileRcvd : Z; Rounds : Z; maxSend : Z; peerVersion : Z; Errors : list bytes }.

Definition set_s_db (d : uvdb) (s : session) : session :=
  mk_session d (uvHashSent s) (uvPushOK s) (uvPullOnly s) (uvToSend s) (uvGimmes s) (nUvGimmeSent s) (nUvFileRcvd s)
    (Rounds s) (maxSend s) (peerVersion s) (Errors s).
Definition set_send (m : option (gmap bytes bool)) (s : session) : session :=
  mk_session (s_db s) (uvHashSent s) (uvPushOK s) (uvPullOnly s) m (uvGimmes s) (nUvGimmeSent s) (nUvFileRcvd s)
    (Rounds s) (maxSend s) (peerVersion s) (Errors s).
Definition set_gimmes (g : gset bytes) (s : session) : session :=
  mk_session (s_db s) (uvHashSent s) (uvPushOK s) (uvPullOnly s) (uvToSend s) g (nUvGimmeSent s) (nUvFileRcvd s)
    (Rounds s) (maxSend s) (peerVersion s) (Errors s).
Definition set_counts (sent rcvd : Z) (s : session) : session :=
  mk_session (s_db s) (uvHashSent s) (uvPushOK s) (uvPullOnly s) (uvToSend s) (uvGimmes s) sent rcvd
    (Rounds s) (maxSend s) (peerVersion s) (Errors s).
Definition set_Rounds (n : Z) (s : session) : session :=
  mk_session (s_db s) (uvHashSent s) (uvPushOK s) (uvPullOnly s) (uvToSend s) (uvGimmes s) (nUvGimmeSent s) (nUvFileRcvd s)
    n (maxSend s) (peerVersion s) (Errors s).
Definition set_hashSent (s : session) : session :=
  mk_session (s_db s) true (uvPushOK s) (uvPullOnly s) (uvToSend s) (uvGimmes s) (nUvGimmeSent s) (nUvFileRcvd s)
    (Rounds s) (maxSend s) (peerVersion s) (Errors s).
Definition set_pushOK (s : session) : session :=
  mk_session (s_db s) (uvHashSent s) true (uvPullOnly s) (uvToSend s) (uvGimmes s) (nUvGimmeSent s) (nUvFileRcvd s)
    (Rounds s) (maxSend s) (peerVersion s) (Errors s).
Definition set_pullOnly (s : session) : session :=
  mk_session (s_db s) (uvHashSent s) (uvPushOK s) true (uvToSend s) (uvGimmes s) (nUvGimmeSent s) (nUvFileRcvd s)
    (Rounds s) (maxSend s) (peerVersion s) (Errors s).
Definition add_error (msg : bytes) (s : session) : session :=
  mk_session (s_db s) (uvHashSent s) (uvPushOK s) (uvPullOnly s) (uvToSend s) (uvGimmes s) (nUvGimmeSent s) (nUvFileRcvd s)
    (Rounds s) (maxSend s) (peerVersion s) (Errors s ++ [msg]).

(** [delete(s.uvToSend, name)], which a nil map allows. *)
Definition drop_send (name : bytes) (s : session) : session := set_send (base.delete name <$> uvToSend s) s.
(** [s.uvToSend[name] = full], which it does not. *)
Definition queue_send (name : bytes) (full : bool) (s : session) : uresult session :=
  match uvToSend s with
  | None => Panic "assignment to entry in nil map"
  | Some m => Ok (set_send (Some (<[name := full]> m)) s)
  end.

(** [newSession], with UV set and no send budget or peer release given. *)
Definition newSession (d : uvdb) (MaxSend : Z) : session :=
  let maxSend := if MaxSend <=? 0 then DefaultMaxSend else MaxSend in
  let live := List.filter (fun e => negb (bytes_eqb (e_Hash e) [])) (Uv.List d) in
  mk_session d false false false (Some (list_to_map (map (fun e => (e_Name e, true)) live))) ∅ 0 0 0 maxSend releaseVersion [].

(** The card of one file to send, and what it takes from the budget. *)
Definition send_card (s : session) (name : bytes) (full : bool) : uresult (Card * Z) :=
  let? (content, mtime, fileHash) := Read (s_db s) name in
  if bytes_eqb fileHash [] then Ok (deletion_card name mtime, 0)
  else if sha3Barred fileHash (peerVersion s) then Ok (sha3Refusal, 0)
  else match full, content with
       | true, Some c => Ok (content_card name mtime fileHash c, len c)
       | _, _ => Ok (omitted_card name mtime fileHash (default [] content), 0)
       end.

Fixpoint send_loop (files : list (bytes * bool)) (budget : Z) (s : session) (cards : list Card) : uresult (list Card * session) :=
  match files with
  | [] => Ok (cards, s)
  | (name, full) :: files =>
      if budget <=? 0 then Ok (cards, s)
      else
        let? (c, cost) := send_card s name full in
        send_loop files (budget - cost) (drop_send name s) (cards ++ [c])
  end.

Definition buildUVFileCards (s : session) : uresult (list Card * session) :=
  send_loop (table_order (map_to_list (default ∅ (uvToSend s)))) (maxSend s) s [].

Definition uvRequestCards (s : session) : uresult (list Card * session) :=
  let? (pragma, s) :=
    if uvHashSent s then Ok ([], s)
    else
      let? (uvHash, d) := ContentHash datetime (s_db s) in
      Ok ([PragmaCard (bs "uv-hash") [uvHash]], set_hashSent (set_s_db d s)) in
  let names := table_order (elements (uvGimmes s)) in
  let s := set_counts (nUvGimmeSent s + len names) (nUvFileRcvd s) (set_gimmes ∅ s) in
  let? (files, s) := if uvPushOK s then buildUVFileCards s else Ok ([], s) in
  Ok (pragma ++ map UVGimmeCard names ++ files, s).

Definition handleUVIGotCard (name : bytes) (mtime : Z) (hash : bytes) (s : session) : uresult session :=
  let? (_, localMtime, localHash) := Read (s_db s) name in
  let status := Status localMtime localHash mtime hash in
  if (status =? 0) || (status =? 1) then
    let s := drop_send name s in
    if negb (bytes_eqb hash (bs "-")) then
      let s := set_gimmes ({[name]} ∪ uvGimmes s) s in
      Ok (set_s_db (InvalidateHash (set_rows (s_db s) (base.delete name (unversioned (s_db s))))) s)
    else if status =? 1 then let? d := Delete name mtime (s_db s) in Ok (set_s_db d s)
    else Ok s
  else if status =? 2 then Ok (set_s_db (InvalidateHash (update_mtime name mtime (s_db s))) s)
  else if status =? 3 then Ok (drop_send name s)
  else if uvPullOnly s then Ok (drop_send name s)
  else queue_send name (negb (status =? 4)) s.

(** The state, and what is recorded of the content error that ends the card
    loop, if any. *)
Definition handleUVFileCard (name : bytes) (mtime : Z) (hash : bytes) (Size Flags : Z) (Content : bytes) (s : session)
    : uresult (session * option bytes) :=
  let? bad := mismatched Size Flags Content hash in
  if bad then Ok (s, Some (bs "error: uvfile " ++ name ++ bs ": hash mismatch"))
  else let? d := Receive name mtime hash (Some Content) (s_db s) in Ok (set_s_db d s, None).

(** [strings.TrimRight(line, "\n")]. *)
Fixpoint trim_newlines (line : bytes) : bytes :=
  match line with
  | [] => []
  | c :: line => match trim_newlines line with [] => if Byte.eqb c x0a then [] else [c] | l => c :: l end
  end.

(** [handleReplyPragma] on the two pragmas of this component. *)
Definition handleReplyPragma_uv (name : bytes) (s : session) : session :=
  if bytes_eqb name (bs "uv-push-ok") then set_pushOK s
  else if bytes_eqb name (bs "uv-pull-only") then set_pullOnly s else s.

Definition handleReplyUVCard (c : Card) (s : session) : uresult (session * option bytes) :=
  match c with
  | UVIGotCard name mtime hash _ => let? s := handleUVIGotCard name mtime hash s in Ok (s, None)
  | UVFileCard name mtime hash size flags content =>
      let? (s, e) := handleUVFileCard name mtime hash size flags content s in
      Ok (match e with None => set_counts (nUvGimmeSent s) (nUvFileRcvd s + 1) s | Some _ => s end, e)
  | UVGimmeCard name => Ok (set_send (Some (<[name := true]> (default ∅ (uvToSend s)))) s, None)
  | _ => Ok (s, None)
  end.

(** [handleReplyCard] on the cards of this component and those that end the
    loop, with the error recorded. *)
Definition handleReplyCard (c : Card) (s : session) : uresult (session * option bytes) :=
  match c with
  | BadCommandCard line => Ok (s, Some (bs "unknown command: [" ++ trim_newlines line ++ bs "]"))
  | BadFileCard msg => Ok (s, Some (bs "error: " ++ msg))
  | ErrorCard msg _ => Ok (s, Some (bs "error: " ++ msg))
  | PragmaCard name _ => Ok (handleReplyPragma_uv name s, None)
  | UVIGotCard _ _ _ _ | UVFileCard _ _ _ _ _ _ | UVGimmeCard _ => handleReplyUVCard c s
  | _ => Ok (s, None)
  end.

Fixpoint processReply (cards : list Card) (s : session) : uresult session :=
  match cards with
  | [] => Ok s
  | c :: cards =>
      let? (s, e) := handleReplyCard c s in
      match e with
      | Some msg => Ok (add_error msg s)
      | None => processReply cards s
      end
  end.

Definition uvPending (s : session) : bool * session :=
  if (nUvGimmeSent s >? 0) && ((nUvFileRcvd s >? 0) || (Rounds s <? 2)) then (true, set_counts 0 0 s)
  else
    let nonempty := negb (bool_decide (default ∅ (uvToSend s) = ∅)) in
    if nonempty && uvPushOK s then (true, s)
    else
      let s := if nonempty then set_send None s else s in
      if negb (bool_decide (uvGimmes s = ∅)) then (true, s) else (false, set_counts 0 0 s).

(** ** A session against a server, whose table it changes: [Sync]'s loop with
    nothing but unversioned files to exchange.  [None] is the round limit. *)
Definition exchange (auth : session_auth) (version : Z) (s : session) (d : uvdb) : uresult (bool * session * uvdb) :=
  let? (request, s) := uvRequestCards s in
  let? (reply, d) := serve auth version d request in
  let? s := processReply reply s in
  let '(pending, s) := uvPending s in
  Ok (pending, s, d).

Fixpoint sync_loop (rounds : nat) (auth : session_auth) (version : Z) (s : session) (d : uvdb) : uresult (option (session * uvdb)) :=
  match rounds with
  | O => Ok None
  | S rounds =>
      let? (pending, s, d) := exchange auth version s d in
      let s := set_Rounds (Rounds s + 1) s in
      if pending then sync_loop rounds auth version s d else Ok (Some (s, d))
  end.

Definition Sync (auth : session_auth) (version : Z) (c d : uvdb) (MaxSend : Z) : uresult (option (session * uvdb)) :=
  sync_loop (Z.to_nat MaxRounds) auth version (newSession c MaxSend) d.
End UvSync.
