(* ===== verification/UvExchange.v ===== *)
(** * One round of an unversioned sync, name by name

    [goal c s] is where the rows [c] of the client and [s] of the server under
    one name end; [phase] is how far a name has come: settled, asked for by the
    client, or queued to be sent.  Every card moves its own name along and leaves
    the others alone. *)

From stdpp Require Import base list gmap.
From S2P Require Import Prelude GoMap GoStd GoText GoCrypto Escape Zlib Hash XferCard Store Auth Uv UvCorrect UvSync.

Abbreviation uvkey := (Z * option bytes)%type.

(** The client's end and the server's. *)
Definition goal (c s : option uvrow) : option uvkey * option uvkey :=
  match c, s with
  | Some c, Some s => let w := if newer c s then key c else key s in (Some w, Some w)
  | Some c, None => (Some (key c), if live c then Some (key c) else None)
  | None, Some s => (if live s then Some (key s) else None, Some (key s))
  | None, None => (None, None)
  end.

(** The client's row, its entry to send, whether it asks, and the server's row. *)
Inductive phase (g : option uvkey * option uvkey) : option uvrow -> option bool -> bool -> option uvrow -> Prop :=
| ph_done c s : key <$> c = fst g -> key <$> s = snd g -> phase g c None false s
| ph_asked r : live r = true -> g = (Some (key r), Some (key r)) -> phase g None None true (Some r)
| ph_new c : live c = true -> g = (Some (key c), Some (key c)) -> phase g (Some c) (Some true) false None
| ph_newer c s full : newer c s = true -> full = true \/ live c = true /\ uv_hash s = uv_hash c ->
    g = (Some (key c), Some (key c)) -> phase g (Some c) (Some full) false (Some s)
| ph_echo c s : key s = key c -> live c = true -> g = (Some (key c), Some (key c)) -> phase g (Some c) (Some true) false (Some s).

(** Every name's phase, [o] giving the rows it started from. *)
Definition phases (o : bytes -> option uvkey * option uvkey) (C : gmap bytes uvrow) (T : gmap bytes bool) (G : gset bytes) (D : gmap bytes uvrow) : Prop :=
  forall n, phase (o n) (C !! n) (T !! n) (bool_decide (n ∈ G)) (D !! n).

Lemma phases_at o C T G D C' T' G' D' n : phases o C T G D ->
  (forall n', n' <> n -> C' !! n' = C !! n' /\ T' !! n' = T !! n' /\ (n' ∈ G' <-> n' ∈ G) /\ D' !! n' = D !! n') ->
  phase (o n) (C' !! n) (T' !! n) (bool_decide (n ∈ G')) (D' !! n) -> phases o C' T' G' D'.
Proof.
  intros H Hne Hn n'. destruct (decide (n' = n)) as [->|Hd]; [done|]. destruct (Hne n' Hd) as (-> & -> & Hg & ->).
  rewrite (bool_decide_ext _ _ Hg). apply H.
Qed.

Lemma phase_queued g c full asked s : phase g (Some c) (Some full) asked s ->
  asked = false /\ g = (Some (key c), Some (key c))
  /\ (s = None /\ live c = true /\ full = true
      \/ exists x, s = Some x /\ (newer c x = true /\ (full = true \/ live c = true /\ uv_hash x = uv_hash c)
                              \/ key x = key c /\ live c = true /\ full = true)).
Proof. intros H. inversion H; subst; (split; [done|split; [done|]]); [by left|right; eexists; split; [done|]; by left|right; eexists; split; [done|]; by right]. Qed.

Lemma phase_asks g c t s : phase g c t true s -> c = None /\ t = None /\ exists r, s = Some r /\ live r = true /\ g = (Some (key r), Some (key r)).
Proof. intros H. inversion H; subst. split_and!; try done. by eexists. Qed.

Lemma phase_settled g c s : phase g c None false s -> key <$> c = fst g /\ key <$> s = snd g.
Proof. intros H. by inversion H; subst. Qed.

Section Cards.
Context `{ZL : !Zlib} `{S3 : !Sha3}.

(** A uvfile card that carries a row, its content left out only where it may be. *)
Definition carries (name : bytes) (r : uvrow) (full : bool) (c : Card) : Prop :=
  exists size flags content, c = UVFileCard name (uv_mtime r) (card_hash r) size flags content
    /\ mismatched size flags content (card_hash r) = Ok false /\ (content = content_of r \/ full = false).

Lemma content_card_carries name r full : sound_row r -> live r = true ->
  carries name r full (content_card name (uv_mtime r) (default [] (uv_hash r)) (content_of r)).
Proof.
  intros Hr Hl. unfold live in Hl. destruct (uv_hash r) as [h|] eqn:E; [|done]. exists (len (content_of r)), 0, (content_of r).
  unfold content_card, card_hash. rewrite E. cbn [default from_option id]. split; [done|]. split; [|by left].
  unfold mismatched. rewrite Z.land_0_l, Z.eqb_refl, andb_true_r. pose proof (sound_named r h Hr E) as Hn.
  destruct (Z.gtb_spec (len (content_of r)) 0) as [Hz|Hz]; [|done].
  destruct (content_of r) as [|b l] eqn:Ec; [by cbn in Hz|]. rewrite Hn. cbn [obind]. by rewrite bytes_eqb_refl.
Qed.

Lemma deletion_card_carries name r full : sound_row r -> live r = false -> carries name r full (deletion_card name (uv_mtime r)).
Proof.
  intros Hr Hl. unfold live in Hl. destruct (uv_hash r) as [h|] eqn:E; [done|]. exists 0, UVFlagDeletion, [].
  unfold deletion_card, card_hash. rewrite E. split; [done|]. split; [done|]. left. unfold content_of, read_row. by rewrite E.
Qed.

Lemma omitted_card_carries name r full : live r = true -> full = false \/ content_of r = [] ->
  carries name r full (omitted_card name (uv_mtime r) (default [] (uv_hash r)) (content_of r)).
Proof.
  intros Hl Hc. unfold live in Hl. destruct (uv_hash r) as [h|] eqn:E; [|done]. exists (len (content_of r)), UVFlagContentOmitted, [].
  unfold omitted_card, card_hash. rewrite E. split; [done|]. split; [unfold mismatched; by rewrite andb_false_r|].
  destruct Hc as [->|Hc]; [by right|left; done].
Qed.
End Cards.

(** ** The server's steps *)
Section Server.
Context `{ZL : !Zlib} `{S3 : !Sha3} `{GS : !GoSort} `{TO : !TableOrder} (datetime : Z -> option bytes).
Context (o : bytes -> option uvkey * option uvkey).

Lemma set_h_db_id h : set_h_db (h_db h) h = h.
Proof using. by destruct h. Qed.

Lemma phases_sent C T G D D' n full r : phases o C T G D -> C !! n = Some r -> T !! n = Some full ->
  (forall n', n' <> n -> D' !! n' = D !! n') -> (exists s, D' !! n = Some s /\ key s = key r) ->
  phases o C (base.delete n T) G D'.
Proof using.
  intros Hp HC HT Hne (s & Hs & Hk). apply (phases_at o C T G D) with (n := n); [done| |].
  - intros n' Hd. rewrite lookup_delete_ne by done. by rewrite Hne.
  - specialize (Hp n). rewrite lookup_delete_eq, Hs. rewrite HC, HT in *. apply phase_queued in Hp as (-> & -> & _).
    constructor; cbn; by rewrite ?Hk.
Qed.

Lemma server_file C T G h n r full c : sound_db datetime (h_db h) -> CanPushUV (h_caps (h_auth h)) = true ->
  phases o C T G (unversioned (h_db h)) -> C !! n = Some r -> n <> [] -> sound_row r -> T !! n = Some full -> carries n r full c ->
  exists d', processCard datetime c h = Ok (set_h_db d' h) /\ sound_db datetime d'
    /\ phases o C (base.delete n T) G (unversioned d') /\ forall n', n' <> n -> unversioned d' !! n' = unversioned (h_db h) !! n'.
Proof using.
  intros Hd Hpush Hp HC Hname Hr HT (size & flags & content & -> & Hm & Hc). cbn [processCard]. unfold handleUVFile.
  rewrite Hm, Hpush. cbn [obind negb].
  assert (exists r', Receive n (uv_mtime r) (card_hash r) (Some content) (h_db h)
      = Ok (InvalidateHash (set_rows (h_db h) (<[n := r']> (unversioned (h_db h))))) /\ key r' = key r /\ sound_row r'
    \/ Receive n (uv_mtime r) (card_hash r) (Some content) (h_db h) = Ok (h_db h) /\ exists s, unversioned (h_db h) !! n = Some s /\ key s = key r)
    as (r' & [(-> & Hk & Hr')|(-> & Hs)]).
  { pose proof (Hp n) as Hn. rewrite HC, HT in Hn. apply phase_queued in Hn as (_ & _ & [(Hno & Hl & ->)|(s & Hs & [[Hnew Hf]|(Hk & Hl & ->)])]).
    - destruct Hc as [->|]; [|done]. destruct (Receive_new n r (h_db h) Hname Hr Hl Hno) as (r' & H). by exists r'; left.
    - destruct (Receive_newer n s r content (h_db h) Hname Hs) as (r' & H); [by apply (so_rows datetime _ Hd n)|done|done| |by exists r'; left].
      destruct Hf as [->|Hf]; [destruct Hc; [by left|done]|by right].
    - exists r; right. split; [|by exists s]. apply (Receive_same n s); [done|done|by apply (so_rows datetime _ Hd n)|done|done]. }
  - eexists. split; [done|]. split; [by apply sound_insert|]. cbn [InvalidateHash set_rows unversioned]. split.
    + apply (phases_sent C T G (unversioned (h_db h)) _ n full r Hp HC HT); [intros; by rewrite lookup_insert_ne|].
      exists r'. by rewrite lookup_insert_eq.
    + intros n' Hne. by rewrite lookup_insert_ne.
  - exists (h_db h). split; [done|]. split; [done|]. split; [|done]. by apply (phases_sent C T G (unversioned (h_db h)) _ n full r).
Qed.

Definition removed (T : gmap bytes bool) (files : list (bytes * bool)) : gmap bytes bool := foldl (fun m x => base.delete (fst x) m) T files.

(** What a list of cards to send is to its names. *)
Definition file_card (C : gmap bytes uvrow) (x : bytes * bool) (c : Card) : Prop :=
  exists r, C !! fst x = Some r /\ fst x <> [] /\ sound_row r /\ carries (fst x) r (snd x) c.

Lemma server_files C G cards files T h : sound_db datetime (h_db h) -> CanPushUV (h_caps (h_auth h)) = true -> broke h = false ->
  phases o C T G (unversioned (h_db h)) -> Forall2 (file_card C) files cards ->
  NoDup (map fst files) -> (forall x, x ∈ files -> T !! fst x = Some (snd x)) ->
  exists d', processCards datetime cards h = Ok (set_h_db d' h) /\ sound_db datetime d'
    /\ phases o C (removed T files) G (unversioned d')
    /\ forall n, n ∉ map fst files -> unversioned d' !! n = unversioned (h_db h) !! n.
Proof using.
  intros Hd Hpush Hb Hp Hall. revert T h Hd Hpush Hb Hp. induction Hall as [|[n full] c files cards (r & HC & Hname & Hr & Hcard) Hall IH]; intros T h Hd Hpush Hb Hp Hnd HT.
  { exists (h_db h). by rewrite set_h_db_id. }
  apply NoDup_cons in Hnd as [Hn Hnd]. cbn [fst snd] in *.
  destruct (server_file C T G h n r full c Hd Hpush Hp HC Hname Hr (HT (n, full) ltac:(by left)) Hcard) as (d1 & Hc & Hd1 & Hp1 & Hsame1).
  destruct (IH (base.delete n T) (set_h_db d1 h)) as (d2 & Hcs & Hd2 & Hp2 & Hsame2); [done..| |].
  { intros [n' full'] Hx. cbn [fst snd]. rewrite lookup_delete_ne; [by apply (HT (n', full')); right|].
    intros ->. apply Hn, list_elem_of_fmap. by exists (n', full'). }
  exists d2. cbn [processCards]. rewrite Hc. cbn [obind]. change (broke (set_h_db d1 h)) with (broke h). rewrite Hb, Hcs.
  split; [done|]. split; [done|]. split; [done|]. intros n' Hn'. cbn [map] in Hn'. apply not_elem_of_cons in Hn' as [Hne Hn'].
  rewrite Hsame2 by done. by apply Hsame1.
Qed.

Lemma respond_nil h : respond [] h = h.
Proof using. destruct h. unfold respond. cbn. by rewrite app_nil_r. Qed.

Lemma respond_app l k h : respond k (respond l h) = respond (l ++ k) h.
Proof using. unfold respond. cbn. by rewrite app_assoc. Qed.

(** What the server answers to those asked for. *)
Definition answer_card (D : gmap bytes uvrow) (n : bytes) (c : Card) : Prop :=
  exists r, D !! n = Some r /\ n <> [] /\ live r = true /\ sound_row r /\ carries n r true c.

Lemma server_gimmes names h : sound_db datetime (h_db h) -> canRead (h_auth h) = true -> broke h = false -> sha3Version <= h_peerVersion h ->
  (forall n, n ∈ names -> exists r, unversioned (h_db h) !! n = Some r /\ live r = true) ->
  exists cards, processCards datetime (map UVGimmeCard names) h = Ok (respond cards h) /\ Forall2 (answer_card (unversioned (h_db h))) names cards.
Proof using.
  intros Hd Hread Hb Hv. revert h Hd Hread Hb Hv. induction names as [|n names IH]; intros h Hd Hread Hb Hv Hall.
  { exists []. by rewrite respond_nil. }
  destruct (Hall n) as (r & Hn & Hl); [by left|]. destruct (so_rows datetime _ Hd n r Hn) as [Hname Hr].
  destruct (read_sound r Hr) as (oc & Hrd & Hoc).
  set (c := content_card n (uv_mtime r) (default [] (uv_hash r)) (content_of r)).
  assert (processCard datetime (UVGimmeCard n) h = Ok (respond [c] h)) as Hc.
  { cbn [processCard]. unfold handleUVGimme, sendUVFile. rewrite Hread. cbn [negb]. rewrite (proj2 (bytes_eqb_neq n [])) by done.
    unfold Read. rewrite Hn, Hrd. cbn [obind]. assert (sha3Barred (default [] (uv_hash r)) (h_peerVersion h) = false) as ->.
    { unfold sha3Barred. by rewrite (proj2 (Z.ltb_ge (h_peerVersion h) _)), andb_false_r by done. }
    assert (bytes_eqb (default [] (uv_hash r)) [] = false) as ->.
    { apply bytes_eqb_neq. unfold live in Hl. destruct (uv_hash r) as [hh|] eqn:E; [by apply (sound_hash r)|done]. }
    unfold c. by rewrite Hoc. }
  destruct (IH (respond [c] h)) as (cards & Hcs & Hf); [done..|by intros n' Hn'; apply Hall; right|].
  exists (c :: cards). cbn [map processCards]. rewrite Hc. cbn [obind]. change (broke (respond [c] h)) with (broke h). rewrite Hb, Hcs, respond_app.
  split; [done|]. constructor; [|done]. exists r. split_and!; try done. by apply content_card_carries.
Qed.

Lemma processCards_app l k h h1 : processCards datetime l h = Ok h1 -> broke h1 = false -> processCards datetime (l ++ k) h = processCards datetime k h1.
Proof using.
  revert h. induction l as [|c l IH]; intros h; [by intros [= ->]|]. cbn [processCards app].
  destruct (processCard datetime c h) as [h'| | |]; cbn [obind]; try done. destruct (broke h') eqn:E; [intros [= ->]; congruence|]. apply IH.
Qed.
End Server.

(** ** The client's steps *)
Section Client.
Context `{ZL : !Zlib} `{S3 : !Sha3} `{GS : !GoSort} `{TO : !TableOrder} (datetime : Z -> option bytes).

Definition client_state (d : uvdb) (T : gmap bytes bool) (G : gset bytes) (s : session) : session :=
  set_s_db d (set_send (Some T) (set_gimmes G s)).

Lemma client_state_id s T : uvToSend s = Some T -> client_state (s_db s) T (uvGimmes s) s = s.
Proof using. intros H. destruct s. cbn in *. by subst. Qed.

Lemma card_hash_live r : sound_row r -> bytes_eqb (card_hash r) (bs "-") = negb (live r).
Proof using.
  intros Hr. unfold card_hash, live. destruct (uv_hash r) as [h|] eqn:E; [|done]. apply bytes_eqb_neq. by apply (sound_hash r).
Qed.

Lemma retimed_content l m : content_of (mk_uvrow m (uv_hash l) (uv_sz l) (uv_encoding l) (uv_content l)) = content_of l.
Proof using.
  unfold content_of, read_row. cbn. destruct (uv_hash l); [|done]. destruct (uv_content l); [|done]. destruct (_ =? 1); [|done].
  destruct (zlib_read _) as [z|]; [|done]. by destruct (z_clean z).
Qed.

(** A uvigot card moves its name from where it starts to its phase. *)
Lemma client_igot s T n r : uvToSend s = Some T -> uvPullOnly s = false -> sound_db datetime (s_db s) -> n <> [] -> sound_row r ->
  T !! n = (c ← unversioned (s_db s) !! n; if live c then Some true else None) -> n ∉ uvGimmes s ->
  exists d' T' G', handleUVIGotCard n (uv_mtime r) (card_hash r) s = Ok (client_state d' T' G' s) /\ sound_db datetime d'
    /\ (forall n', n' <> n -> unversioned d' !! n' = unversioned (s_db s) !! n' /\ T' !! n' = T !! n' /\ (n' ∈ G' <-> n' ∈ uvGimmes s))
    /\ phase (goal (unversioned (s_db s) !! n) (Some r)) (unversioned d' !! n) (T' !! n) (bool_decide (n ∈ G')) (Some r)
    /\ (forall b c, T' !! n = Some b -> unversioned d' !! n = Some c -> exists c0, unversioned (s_db s) !! n = Some c0 /\ content_of c = content_of c0).
Proof using.
  intros HT Hpull Hd Hname Hr HTn HG. unfold handleUVIGotCard, Read.
  destruct (unversioned (s_db s) !! n) as [l|] eqn:El; cbn [mbind option_bind] in HTn.
  2:{ cbn [obind]. change (Status 0 [] (uv_mtime r) (card_hash r)) with 0. cbn [Z.eqb orb]. rewrite card_hash_live by done.
      unfold drop_send. rewrite HT. destruct (live r) eqn:Hl; cbn [negb fmap option_fmap option_map].
      - exists (InvalidateHash (set_rows (s_db s) (base.delete n (unversioned (s_db s))))), (base.delete n T), ({[n]} ∪ uvGimmes s).
        split; [done|]. split; [by apply sound_delete|]. split; [|split].
        + intros n' Hne. cbn. rewrite !lookup_delete_ne by done. split_and!; [done|done|set_solver].
        + cbn. rewrite !lookup_delete_eq, bool_decide_eq_true_2 by set_solver. apply ph_asked; [done|]. by rewrite Hl.
        + intros b c. by rewrite lookup_delete_eq.
      - exists (s_db s), (base.delete n T), (uvGimmes s). split; [by destruct s|]. split; [done|]. split; [|split].
        + intros n' Hne. by rewrite !lookup_delete_ne by done.
        + rewrite El, lookup_delete_eq, bool_decide_eq_false_2 by done. apply ph_done; cbn; by rewrite ?Hl.
        + intros b c. by rewrite lookup_delete_eq. }
  pose proof (so_rows datetime _ Hd n l El) as [_ Hl]. destruct (read_sound l Hl) as (oc & -> & _). cbn [obind]. fold (status l r).
  destruct (newer l r) eqn:Hnew.
  - exists (s_db s), (<[n := negb (status l r =? 4)]> T), (uvGimmes s). split; [|split; [done|split; [|split]]].
    + unfold queue_send. rewrite HT, Hpull. destruct (status_newer l r Hl Hr Hnew) as [->|[-> _]]; cbn; by destruct s.
    + intros n' Hne. by rewrite lookup_insert_ne.
    + rewrite El, lookup_insert_eq, bool_decide_eq_false_2 by done. apply ph_newer; [done| |cbn; by rewrite Hnew].
      destruct (status_newer l r Hl Hr Hnew) as [->|(-> & Hlive & Hh)]; [by left|by right].
    + intros b c _ Hc. exists l. split; [done|]. congruence.
  - destruct (status_not_newer l r Hl Hr Hnew) as [-> |(Hlive & Hh & [[-> Hm]|[-> Hm]])]; cbn [Z.eqb Pos.eqb orb].
    + unfold drop_send. rewrite HT, card_hash_live by done. cbn [fmap option_fmap option_map]. destruct (live r) eqn:Hlr; cbn [negb].
      * exists (InvalidateHash (set_rows (s_db s) (base.delete n (unversioned (s_db s))))), (base.delete n T), ({[n]} ∪ uvGimmes s).
        split; [done|]. split; [by apply sound_delete|]. split; [|split].
        -- intros n' Hne. cbn. rewrite !lookup_delete_ne by done. split_and!; [done|done|set_solver].
        -- cbn [InvalidateHash set_rows unversioned]. rewrite !lookup_delete_eq, bool_decide_eq_true_2 by set_solver.
           apply ph_asked; [done|]. cbn. by rewrite Hnew.
        -- intros b c. by rewrite lookup_delete_eq.
      * set (r' := mk_uvrow (uv_mtime r) None 0 0 None). unfold Delete. rewrite (proj2 (bytes_eqb_neq n [])) by done. cbn [s_db set_send].
        exists (InvalidateHash (set_rows (s_db s) (<[n := r']> (unversioned (s_db s))))), (base.delete n T), (uvGimmes s).
        split; [unfold update_deleted; rewrite El, (alter_row _ _ _ _ El); by destruct s|].
        split; [apply sound_insert; [done..|split; [apply Hr|done]]|]. split; [|split].
        -- intros n' Hne. cbn. by rewrite lookup_delete_ne, lookup_insert_ne.
        -- cbn [InvalidateHash set_rows unversioned]. rewrite lookup_delete_eq, lookup_insert_eq, bool_decide_eq_false_2 by done.
           assert (key r' = key r) as Hk by (unfold live in Hlr; unfold r', key; cbn; by destruct (uv_hash r)).
           apply ph_done; cbn; by rewrite Hnew, ?Hk.
        -- intros b c. by rewrite lookup_delete_eq.
    + set (r' := mk_uvrow (uv_mtime r) (uv_hash l) (uv_sz l) (uv_encoding l) (uv_content l)).
      exists (InvalidateHash (set_rows (s_db s) (<[n := r']> (unversioned (s_db s))))), T, (uvGimmes s).
      split; [unfold update_mtime; rewrite (alter_row _ _ _ _ El); destruct s; cbn in *; by subst|].
      split; [apply sound_insert; [done..|by apply retimed_sound]|]. split; [|split].
      * intros n' Hne. cbn. by rewrite lookup_insert_ne.
      * cbn [InvalidateHash set_rows unversioned]. rewrite lookup_insert_eq, HTn, Hlive, bool_decide_eq_false_2 by done.
        assert (key r = key r') as Hk by (unfold r', key; cbn; by rewrite Hh).
        apply ph_echo; [done|done|]. cbn. by rewrite Hnew, Hk.
      * cbn. intros b c _. rewrite lookup_insert_eq. intros [= <-]. exists l. split; [done|]. apply retimed_content.
    + exists (s_db s), (base.delete n T), (uvGimmes s). unfold drop_send. rewrite HT. split; [by destruct s|]. split; [done|]. split; [|split].
      * intros n' Hne. by rewrite lookup_delete_ne.
      * rewrite El, lookup_delete_eq, bool_decide_eq_false_2 by done. assert (key l = key r) as Hk by (unfold key; by rewrite Hm, Hh).
        apply ph_done; cbn; by rewrite Hnew, ?Hk.
      * intros b c. by rewrite lookup_delete_eq.
Qed.

Lemma client_state_state d T G d' T' G' s : client_state d' T' G' (client_state d T G s) = client_state d' T' G' s.
Proof using. done. Qed.

Definition igot (x : bytes * uvrow) : Card := UVIGotCard (fst x) (uv_mtime (snd x)) (card_hash (snd x)) (uv_sz (snd x)).

Lemma client_catalog rows s T : uvToSend s = Some T -> uvPullOnly s = false -> sound_db datetime (s_db s) -> NoDup (map fst rows) ->
  (forall n r, (n, r) ∈ rows -> n <> [] /\ sound_row r /\ (n ∉ uvGimmes s)
     /\ T !! n = (c ← unversioned (s_db s) !! n; if live c then Some true else None)) ->
  exists d' T' G', processReply (map igot rows) s = Ok (client_state d' T' G' s) /\ sound_db datetime d'
    /\ (forall n, n ∉ map fst rows -> unversioned d' !! n = unversioned (s_db s) !! n /\ T' !! n = T !! n /\ (n ∈ G' <-> n ∈ uvGimmes s))
    /\ forall n r, (n, r) ∈ rows -> phase (goal (unversioned (s_db s) !! n) (Some r)) (unversioned d' !! n) (T' !! n) (bool_decide (n ∈ G')) (Some r)
         /\ forall b c, T' !! n = Some b -> unversioned d' !! n = Some c -> exists c0, unversioned (s_db s) !! n = Some c0 /\ content_of c = content_of c0.
Proof using.
  revert s T. induction rows as [|[n r] rows IH]; intros s T HT Hpull Hd Hnd Hrows.
  { exists (s_db s), T, (uvGimmes s). rewrite client_state_id by done. split; [done|]. split; [done|]. split; [done|]. by intros n r ?%elem_of_nil. }
  cbn [map] in Hnd. apply NoDup_cons in Hnd as [Hn Hnd]. destruct (Hrows n r) as (Hname & Hr & HG & HTn); [by left|].
  destruct (client_igot s T n r HT Hpull Hd Hname Hr HTn HG) as (d1 & T1 & G1 & Hc & Hd1 & Hsame & Hph & Hcont).
  assert (forall n', n' ∈ map fst rows -> n' <> n) as Hne by (intros n' H ->; done).
  destruct (IH (client_state d1 T1 G1 s) T1) as (d2 & T2 & G2 & Hcs & Hd2 & Hout & Hin); [done..| |].
  { intros n' r' Hx. destruct (Hrows n' r') as (? & ? & HG' & HT'); [by right|].
    destruct (Hsame n') as (H1 & H2 & H3); [apply Hne, list_elem_of_fmap; by exists (n', r')|]. cbn [s_db client_state set_s_db set_send set_gimmes uvGimmes].
    split_and!; [done|done|by rewrite H3|by rewrite H1, H2]. }
  exists d2, T2, G2. split; [|split; [done|split]].
  - cbn [map processReply]. unfold igot at 1. cbn [fst snd handleReplyCard handleReplyUVCard]. rewrite Hc. cbn [obind]. by rewrite Hcs.
  - intros n' Hn'. cbn [map] in Hn'. apply not_elem_of_cons in Hn' as [Hne' Hn']. destruct (Hout n' Hn') as (H1 & H2 & H3), (Hsame n' Hne') as (H4 & H5 & H6).
    cbn in H1, H2, H3. split_and!; [by rewrite H1|by rewrite H2|by rewrite H3].
  - intros n' r' [Heq|Hx]%elem_of_cons.
    + injection Heq as -> ->. destruct (Hout n Hn) as (-> & -> & H3). rewrite (bool_decide_ext _ _ H3). done.
    + destruct (Hsame n') as (H1 & H2 & H3); [apply Hne, list_elem_of_fmap; by exists (n', r')|].
      destruct (Hin n' r' Hx) as [Hp Hc']. cbn [s_db client_state set_s_db] in Hp, Hc'. rewrite H1 in Hp, Hc'. done.
Qed.

(** A file asked for arrives. *)
Lemma client_file o s T G D n c : uvToSend s = Some T -> sound_db datetime (s_db s) -> phases o (unversioned (s_db s)) T G D -> n ∈ G -> answer_card D n c ->
  exists d', handleReplyCard c s = Ok (set_counts (nUvGimmeSent s) (nUvFileRcvd s + 1) (set_s_db d' s), None) /\ sound_db datetime d'
    /\ phases o (unversioned d') T (G ∖ {[n]}) D /\ forall n', n' <> n -> unversioned d' !! n' = unversioned (s_db s) !! n'.
Proof using.
  intros HT Hd Hp HG (r & HD & Hname & Hl & Hr & (size & flags & content & -> & Hm & [-> |]) ); [|done].
  pose proof (Hp n) as Hn. rewrite bool_decide_eq_true_2 in Hn by done. apply phase_asks in Hn as (Hno & HTn & r0 & HD0 & _ & Hg).
  assert (r0 = r) as -> by congruence.
  destruct (Receive_new n r (s_db s) Hname Hr Hl Hno) as (r' & Hrec & Hk & Hr').
  exists (InvalidateHash (set_rows (s_db s) (<[n := r']> (unversioned (s_db s))))). split; [|split; [by apply sound_insert|split]].
  - cbn [handleReplyCard handleReplyUVCard]. unfold handleUVFileCard. rewrite Hm. cbn [obind]. by rewrite Hrec.
  - apply (phases_at o (unversioned (s_db s)) T G D) with (n := n); [done| |].
    + intros n' Hne. cbn. rewrite lookup_insert_ne by done. split_and!; [done|done|set_solver|done].
    + cbn [InvalidateHash set_rows unversioned]. rewrite lookup_insert_eq, HTn, HD, bool_decide_eq_false_2 by set_solver.
      apply ph_done; rewrite Hg; cbn; by rewrite ?Hk.
  - intros n' Hne. cbn. by rewrite lookup_insert_ne.
Qed.

Lemma client_files o T D names cards s G : uvToSend s = Some T -> sound_db datetime (s_db s) -> phases o (unversioned (s_db s)) T G D ->
  NoDup names -> (forall n, n ∈ names -> n ∈ G) -> Forall2 (answer_card D) names cards ->
  exists d', processReply cards s = Ok (set_counts (nUvGimmeSent s) (nUvFileRcvd s + len names) (set_s_db d' s)) /\ sound_db datetime d'
    /\ phases o (unversioned d') T (G ∖ list_to_set names) D /\ forall n, n ∉ names -> unversioned d' !! n = unversioned (s_db s) !! n.
Proof using.
  intros HT Hd Hp Hnd HG Hall. revert s G HT Hd Hp Hnd HG. induction Hall as [|n c names cards Hcard Hall IH]; intros s G HT Hd Hp Hnd HG.
  { exists (s_db s). split; [rewrite len_nil, Z.add_0_r; by destruct s|]. split; [done|]. split; [|done]. by replace (G ∖ list_to_set []) with G by set_solver. }
  apply NoDup_cons in Hnd as [Hn Hnd]. destruct (client_file o s T G D n c HT Hd Hp (HG n ltac:(by left)) Hcard) as (d1 & Hc & Hd1 & Hp1 & Hs1).
  destruct (IH (set_counts (nUvGimmeSent s) (nUvFileRcvd s + 1) (set_s_db d1 s)) (G ∖ {[n]})) as (d2 & Hcs & Hd2 & Hp2 & Hs2); [done..| |].
  { intros n' Hn'. assert (n' <> n) by (intros ->; done). apply elem_of_difference. split; [apply HG; by right|set_solver]. }
  exists d2. split; [|split; [done|split]].
  - cbn [processReply]. rewrite Hc. cbn [obind]. rewrite Hcs. cbn [nUvGimmeSent nUvFileRcvd set_counts set_s_db].
    by replace (nUvFileRcvd s + len (n :: names)) with (nUvFileRcvd s + 1 + len names) by (rewrite len_cons; lia).
  - cbn [list_to_set]. replace (G ∖ ({[n]} ∪ list_to_set names)) with (G ∖ {[n]} ∖ list_to_set names); [done|]. set_solver.
  - intros n' [Hne Hn']%not_elem_of_cons. rewrite Hs2 by done. by apply Hs1.
Qed.
End Client.

(** ** The client's request *)
Definition total (l : list Z) : Z := foldr Z.add 0 l.

Lemma total_app l k : total (l ++ k) = total l + total k.
Proof. unfold total. induction l as [|x l IH]; cbn [app foldr]; lia. Qed.

Lemma total_perm l k : Permutation l k -> total l = total k.
Proof. unfold total. induction 1; cbn [foldr]; lia. Qed.

(** What sending a name takes from the budget. *)
Definition cost `{ZL : !Zlib} (C : gmap bytes uvrow) (x : bytes * bool) : Z :=
  match C !! fst x with Some r => if snd x then len (content_of r) else 0 | None => 0 end.
Definition volume `{ZL : !Zlib} (C : gmap bytes uvrow) (l : list (bytes * bool)) : Z := total (map (cost C) l).

Lemma removed_perm T sent rest : Permutation (map_to_list T) (sent ++ rest) -> Permutation (map_to_list (removed T sent)) rest.
Proof.
  revert T. induction sent as [|[n b] sent IH]; intros T Hp; [done|]. cbn [removed foldl fst]. apply IH.
  assert (T !! n = Some b) as HT by (apply elem_of_map_to_list; rewrite Hp; by left).
  apply (Permutation_cons_inv (a := (n, b))). by rewrite (map_to_list_delete T n b HT).
Qed.

Section Request.
Context `{ZL : !Zlib} `{S3 : !Sha3} `{GS : !GoSort} `{TO : !TableOrder} (datetime : Z -> option bytes).

Lemma send_card_ok s n full r : sha3Version <= peerVersion s -> unversioned (s_db s) !! n = Some r -> sound_row r ->
  exists c, send_card s n full = Ok (c, cost (unversioned (s_db s)) (n, full)) /\ carries n r full c.
Proof using.
  intros Hv Hn Hr. unfold send_card, Read, cost. cbn [fst snd]. rewrite Hn. destruct (read_sound r Hr) as (oc & -> & Hoc). cbn [obind].
  destruct (live r) eqn:Hl.
  - assert (bytes_eqb (default [] (uv_hash r)) [] = false) as ->.
    { apply bytes_eqb_neq. unfold live in Hl. destruct (uv_hash r) as [h|] eqn:E; [by apply (sound_hash r)|done]. }
    assert (sha3Barred (default [] (uv_hash r)) (peerVersion s) = false) as ->.
    { unfold sha3Barred. by rewrite (proj2 (Z.ltb_ge (peerVersion s) _)), andb_false_r by done. }
    destruct full; [destruct oc as [c|]|].
    + assert (c = content_of r) as -> by exact (eq_sym Hoc). eexists. split; [done|]. by apply content_card_carries.
    + assert (content_of r = []) as E by exact Hoc. eexists. split; [by rewrite E|]. pose proof (omitted_card_carries n r true Hl (or_intror E)) as Hcar.
      by rewrite E in Hcar.
    + eexists. split; [done|]. rewrite <- Hoc. apply omitted_card_carries; [done|]. by left.
  - exists (deletion_card n (uv_mtime r)). assert (uv_hash r = None) as E by (unfold live in Hl; by destruct (uv_hash r)).
    split; [|by apply deletion_card_carries]. rewrite E. cbn. unfold content_of, read_row. rewrite E. by destruct full.
Qed.

Lemma send_loop_ok files budget s cards T : uvToSend s = Some T -> sha3Version <= peerVersion s ->
  (forall x, x ∈ files -> exists r, unversioned (s_db s) !! fst x = Some r /\ fst x <> [] /\ sound_row r) ->
  exists sent rest cs, files = sent ++ rest /\ send_loop files budget s cards = Ok (cards ++ cs, set_send (Some (removed T sent)) s)
    /\ Forall2 (file_card (unversioned (s_db s))) sent cs /\ (rest = [] \/ budget <= volume (unversioned (s_db s)) sent).
Proof using.
  revert budget s cards T. induction files as [|[n full] files IH]; intros budget s cards T HT Hv Hrows.
  { exists [], [], []. rewrite (app_nil_r cards). split_and!; [done| |done|by left]. cbn. rewrite <- HT. by destruct s. }
  cbn [send_loop]. destruct (Z.leb_spec budget 0) as [Hb|Hb].
  { exists [], ((n, full) :: files), []. rewrite (app_nil_r cards). split_and!; [done| |done|by right]. cbn. rewrite <- HT. by destruct s. }
  destruct (Hrows (n, full)) as (r & Hn & Hname & Hr); [by left|]. destruct (send_card_ok s n full r Hv Hn Hr) as (c & -> & Hc). cbn [obind].
  destruct (IH (budget - cost (unversioned (s_db s)) (n, full)) (drop_send n s) (cards ++ [c]) (base.delete n T)) as (sent & rest & cs & -> & Hs & Hf & Hrest).
  { unfold drop_send. by rewrite HT. }
  { done. }
  { intros x Hx. apply Hrows. by right. }
  exists ((n, full) :: sent), rest, (c :: cs). split; [done|]. rewrite Hs, <- app_assoc. split; [done|]. split.
  - constructor; [by exists r|done].
  - destruct Hrest as [->|Hrest]; [by left|right]. unfold volume in *. cbn [map total foldr] in *. unfold total in *. cbn [s_db drop_send set_send] in Hrest. lia.
Qed.
End Request.
