(* ===== verification/UvProps.v ===== *)
(** * What synchronising unversioned files promises

    The rounds of a session between a client and a server that lets it read and
    write: the first brings the catalog, each later one what was asked for and as
    much of the rest as the budget lets through, until every name is settled. *)

From stdpp Require Import base list gmap.
From S2P Require Import Prelude GoMap GoStd GoText GoCrypto Escape Zlib Hash XferCard Store Auth Uv UvCorrect UvSync UvExchange.




Section Rounds.
Context `{ZL : !Zlib} `{S3 : !Sha3} `{GS : !GoSort} `{TO : !TableOrder} (datetime : Z -> option bytes).
Context (o : bytes -> option uvkey * option uvkey) (auth : session_auth) (version M : Z).
Context (Hread : canRead auth = true) (Hpush : CanPushUV (h_caps auth) = true) (Hv : sha3Version <= version) (HM : 0 < M).





End Rounds.





Section First.
Context `{ZL : !Zlib} `{S3 : !Sha3} `{GS : !GoSort} `{TO : !TableOrder} (datetime : Z -> option bytes).










End First.



Section Session.
Context `{ZL : !Zlib} `{S3 : !Sha3} `{GS : !GoSort} `{TO : !TableOrder} (datetime : Z -> option bytes).



End Session.
