(* ===== verification/UvEdges.v ===== *)
(** * The cached catalog hash, and the corners of an unversioned sync

    Every operation on the table, a session's included, leaves the cached hash
    absent or that of the rows.  The lemmas after it show inputs the session
    handles badly; the demonstrations run a session between two small tables. *)

From stdpp Require Import base list relations gmap.
From S2P Require Import Prelude GoMap GoStd GoText GoCrypto Escape Zlib Hash XferCard Store Auth Uv UvCorrect UvSync UvExchange UvProps ContentProps.

Section Cache.
Context `{ZL : !Zlib} `{S3 : !Sha3} `{GS : !GoSort} `{TO : !TableOrder} (datetime : Z -> option bytes).

(** What can happen to a repository's table: a command on it, a card of a
    request it serves, the making of a request, a card of a reply. *)
Inductive uv_step : uvdb -> uvdb -> Prop :=
| step_Write q name content mtime d d' : Write q name content mtime d = Ok d' -> uv_step d d'
| step_Receive name mtime hash content d d' : Receive name mtime hash content d = Ok d' -> uv_step d d'
| step_Delete name mtime d d' : Delete name mtime d = Ok d' -> uv_step d d'
| step_ContentHash d h d' : ContentHash datetime d = Ok (h, d') -> uv_step d d'
| step_served c h h' : processCard datetime c h = Ok h' -> uv_step (h_db h) (h_db h')
| step_request s cards s' : uvRequestCards datetime s = Ok (cards, s') -> uv_step (s_db s) (s_db s')
| step_reply c s s' e : handleReplyCard c s = Ok (s', e) -> uv_step (s_db s) (s_db s').

Lemma fresh_invalid d : fresh datetime (InvalidateHash d).
Proof using. done. Qed.

Lemma Write_fresh q name content mtime d d' : Write q name content mtime d = Ok d' -> fresh datetime d'.
Proof using.
  unfold Write. destruct (bytes_eqb _ _); [done|]. destruct content; [|done]. destruct (wrap_err _ _); try done. cbn [obind].
  destruct (Alg_Hash _ _); try done. cbn [obind]. destruct (storeRow _ _ _ _ _); try done. cbn [obind]. by intros [= <-].
Qed.

Lemma Receive_fresh name mtime hash content d d' : fresh datetime d -> Receive name mtime hash content d = Ok d' -> fresh datetime d'.
Proof using.
  intros Hd. unfold Receive. destruct (_ || _); [done|]. destruct (Read d name) as [[[? ?] ?]| | |]; try done. cbn [obind].
  repeat case_match; try (by intros [= <-]); destruct (storeRow _ _ _ _ _); try done; cbn [obind]; by intros [= <-].
Qed.

Lemma Delete_fresh name mtime d d' : Delete name mtime d = Ok d' -> fresh datetime d'.
Proof using. unfold Delete. destruct (bytes_eqb _ _); [done|]. by intros [= <-]. Qed.

Lemma sendUVFile_db name h h' : sendUVFile name h = Ok h' -> h_db h' = h_db h.
Proof using.
  unfold sendUVFile. destruct (bytes_eqb _ _); [done|]. destruct (_ !! _); [|by intros [= <-]].
  destruct (Read _ _) as [[[? ?] ?]| | |]; try done. cbn [obind]. repeat case_match; by intros [= <-].
Qed.

Lemma handlePragma_fresh values h h' : fresh datetime (h_db h) -> handlePragma_uv datetime values h = Ok h' -> fresh datetime (h_db h').
Proof using.
  intros Hd. unfold handlePragma_uv, handlePragmaUVHash. destruct values as [|v ?]; [by intros [= <-]|].
  destruct (uvCatalogSent h); [by intros [= <-]|]. destruct (canRead _); cbn [negb]; [|by intros [= <-]].
  destruct (ContentHash datetime (h_db h)) as [[lh d]| | |] eqn:E; try done; cbn [obind]; [|by intros [= <-]].
  apply (ContentHash_fresh datetime _ Hd) in E as (_ & _ & Hf). destruct (bytes_eqb _ _); by intros [= <-].
Qed.

Lemma processCard_fresh c h h' : fresh datetime (h_db h) -> processCard datetime c h = Ok h' -> fresh datetime (h_db h').
Proof using.
  intros Hd. assert (Ok (E:=uv_error) h = Ok h' -> fresh datetime (h_db h')) as Hsame by by intros [= <-].
  assert (forall line : uresult bytes, (let? line := line in Ok (badCommand line h)) = Ok h' -> fresh datetime (h_db h')) as Hbad.
  { intros []; try done. by intros [= <-]. }
  destruct c; cbn [processCard]; try exact Hsame; try apply Hbad; try (by intros [= <-]).
  - unfold handleUVFile. destruct (mismatched _ _ _ _) as [[]| | |]; try done; cbn [obind]; [by intros [= <-]|].
    destruct (CanPushUV _); [|by intros [= <-]]. cbn [negb]. destruct (Receive _ _ _ _ _) as [d'| | |] eqn:E; try done. intros [= <-].
    by apply Receive_fresh in E.
  - unfold handleUVGimme. destruct (canRead _); [|by intros [= <-]]. cbn [negb]. by intros ->%sendUVFile_db.
  - unfold handleUVIGot. destruct (canRead _); [|by intros [= <-]]. cbn [negb]. destruct (Read _ _) as [[[? ?] ?]| | |]; try done. cbn [obind].
    repeat case_match; try (by intros [= <-]). by intros ->%sendUVFile_db.
  - destruct (bytes_eqb _ _); [|exact Hsame]. by apply handlePragma_fresh.
  - destruct (bytes_eqb _ _); [apply Hbad|exact Hsame].
Qed.

Lemma send_loop_db files budget s cards cards' s' : send_loop files budget s cards = Ok (cards', s') -> s_db s' = s_db s.
Proof using.
  revert budget s cards. induction files as [|[n full] files IH]; intros budget s cards; cbn [send_loop]; [by intros [= _ <-]|].
  destruct (_ <=? _); [by intros [= _ <-]|]. destruct (send_card s n full) as [[c cost]| | |]; try done. cbn [obind]. by intros ->%IH.
Qed.

Lemma request_fresh s cards s' : fresh datetime (s_db s) -> uvRequestCards datetime s = Ok (cards, s') -> fresh datetime (s_db s').
Proof using.
  intros Hd. unfold uvRequestCards.
  assert (forall (pragma : list Card) s1, fresh datetime (s_db s1) -> (let names := table_order (elements (uvGimmes s1)) in
    let s := set_counts (nUvGimmeSent s1 + len names) (nUvFileRcvd s1) (set_gimmes ∅ s1) in
    let? (files, s) := if uvPushOK s then buildUVFileCards s else Ok ([], s) in Ok (pragma ++ map UVGimmeCard names ++ files, s)) = Ok (cards, s') ->
    fresh datetime (s_db s')) as Hrest.
  { intros pragma s1 Hf. cbv zeta. destruct (uvPushOK _); [|by intros [= _ <-]]. unfold buildUVFileCards.
    destruct (send_loop _ _ _ _) as [[files s2]| | |] eqn:E; try done. cbn [obind]. intros [= _ <-]. by rewrite (send_loop_db _ _ _ _ _ _ E). }
  destruct (uvHashSent s); [by apply Hrest|]. destruct (ContentHash datetime (s_db s)) as [[h d]| | |] eqn:E; try done. cbn [obind].
  apply Hrest. by apply (ContentHash_fresh datetime _ Hd) in E as (_ & _ & Hf).
Qed.

Lemma handleUVIGotCard_fresh name mtime hash s s' : fresh datetime (s_db s) -> handleUVIGotCard name mtime hash s = Ok s' -> fresh datetime (s_db s').
Proof using.
  intros Hd. unfold handleUVIGotCard. destruct (Read _ _) as [[[? ?] ?]| | |]; try done. cbn [obind]. unfold queue_send.
  repeat case_match; try (by intros [= <-]); try done.
  destruct (Delete name mtime _) as [d'| | |] eqn:E; try done. cbn [obind]. intros [= <-]. by apply Delete_fresh in E.
Qed.

Lemma handleReplyCard_fresh c s s' e : fresh datetime (s_db s) -> handleReplyCard c s = Ok (s', e) -> fresh datetime (s_db s').
Proof using.
  intros Hd. destruct c; cbn [handleReplyCard handleReplyUVCard]; try (by intros [= <- _]).
  - unfold handleUVFileCard. destruct (mismatched _ _ _ _) as [[]| | |]; try done; cbn [obind]; [by intros [= <- _]|].
    destruct (Receive _ _ _ _ _) as [d'| | |] eqn:E; try done. intros [= <- _]. by apply Receive_fresh in E.
  - destruct (handleUVIGotCard _ _ _ _) as [s1| | |] eqn:E; try done. intros [= <- _]. by apply handleUVIGotCard_fresh in E.
  - intros [= <- _]. unfold handleReplyPragma_uv. by repeat case_match.
Qed.

Lemma uv_step_fresh d d' : uv_step d d' -> fresh datetime d -> fresh datetime d'.
Proof using.
  intros [?????? H|?????? H|???? H|??? H|??? H|??? H|???? H] Hd.
  - by apply Write_fresh in H.
  - by apply Receive_fresh in H.
  - by apply Delete_fresh in H.
  - by apply (ContentHash_fresh datetime _ Hd) in H as (_ & _ & Hf).
  - by apply processCard_fresh in H.
  - by apply request_fresh in H.
  - by apply handleReplyCard_fresh in H.
Qed.

Lemma uv_steps_fresh d d' : rtc uv_step d d' -> fresh datetime d -> fresh datetime d'.
Proof using. induction 1 as [|a b c Hab _ IH]; [done|]. intros Ha. by eapply IH, uv_step_fresh. Qed.

(** C23: Whatever commands, served cards, requests and reply cards a table has
    gone through since it held nothing cached, the hash [ContentHash] answers is
    that of the rows it then has, which it leaves as they are: no operation
    leaves a hash cached that a change to the rows has outdated. *)
Theorem uv_hash_fresh m d : rtc uv_step (mk_uvdb m None) d ->
  forall h d', ContentHash datetime d = Ok (h, d') -> compute_hash datetime (unversioned d) = Ok h /\ unversioned d' = unversioned d.
Proof using.
  intros Hsteps h d' H. assert (fresh datetime d) as Hf.
  { by apply (uv_steps_fresh _ _ Hsteps). }
  by destruct (ContentHash_fresh datetime d Hf h d' H) as (? & ? & _).
Qed.
End Cache.

(** ** Corners *)
Section Corners.
Context `{ZL : !Zlib} `{S3 : !Sha3} `{GS : !GoSort} `{TO : !TableOrder} (datetime : Z -> option bytes).

(** A server that never says uv-push-ok or uv-pull-only: the round after a
    catalog naming one unknown file has lost the map of files to send, and a
    card older than a row then writes to it. *)
Lemma nil_map_write s T (other name : bytes) r old hash hash' sz : uvToSend s = Some T -> T !! name = Some true -> other <> name ->
  uvPushOK s = false -> uvPullOnly s = false -> nUvGimmeSent s = 0 -> uvHashSent s = true ->
  unversioned (s_db s) !! other = None -> hash <> bs "-" -> unversioned (s_db s) !! name = Some r -> sound_row r ->
  old < uv_mtime r -> default [] (uv_hash r) <> hash' -> default [] (uv_hash r) <> bs "-" ->
  exists s1 s2 cards s3, processReply [UVIGotCard other 1 hash sz] s = Ok s1 /\ uvPending s1 = (true, s2)
    /\ uvRequestCards datetime s2 = Ok (cards, s3)
    /\ processReply [UVIGotCard name old hash' sz] s3 = Panic "assignment to entry in nil map".
Proof using.
  intros HT HTn Hne Hpok Hpull Hn Hsent Hother Hh Hrow Hr Hold Hhash Hdash.
  set (s1 := set_s_db (InvalidateHash (set_rows (s_db s) (base.delete other (unversioned (s_db s)))))
               (set_gimmes ({[other]} ∪ uvGimmes s) (drop_send other s))).
  set (s2 := set_send None s1). set (names := table_order (elements (uvGimmes s2))).
  set (s3 := set_counts (nUvGimmeSent s2 + len names) (nUvFileRcvd s2) (set_gimmes ∅ s2)).
  exists s1, s2, (map UVGimmeCard names ++ []), s3. split_and!.
  - cbn [processReply handleReplyCard handleReplyUVCard]. unfold handleUVIGotCard, Read. rewrite Hother. cbn [obind].
    change (Status 0 [] 1 hash) with 0. cbn [Z.eqb orb]. by rewrite (proj2 (bytes_eqb_neq _ _) Hh).
  - unfold uvPending. change (nUvGimmeSent s1) with (nUvGimmeSent s). rewrite Hn. cbn [Z.gtb Z.compare andb].
    change (uvPushOK s1) with (uvPushOK s). rewrite Hpok, andb_false_r.
    assert (uvToSend s1 = Some (base.delete other T)) as -> by (unfold s1, drop_send; cbn; by rewrite HT).
    cbn [default from_option id]. rewrite (bool_decide_eq_false_2 (base.delete other T = ∅)).
    2:{ intros E. assert (base.delete other T !! name = Some true) as H by by rewrite lookup_delete_ne. by rewrite E in H. }
    cbn [negb]. fold s2. change (uvGimmes s2) with ({[other]} ∪ uvGimmes s). by rewrite bool_decide_eq_false_2 by set_solver.
  - unfold uvRequestCards. change (uvHashSent s2) with (uvHashSent s). rewrite Hsent. cbn [obind]. fold names s3.
    change (uvPushOK s3) with (uvPushOK s). by rewrite Hpok.
  - cbn [processReply handleReplyCard handleReplyUVCard]. unfold handleUVIGotCard, Read.
    change (unversioned (s_db s3)) with (base.delete other (unversioned (s_db s))). rewrite lookup_delete_ne, Hrow by done.
    destruct (read_sound r Hr) as (oc & -> & _). cbn [obind].
    rewrite Status_other; [|by apply Hr|done|done]. rewrite (proj2 (Z.ltb_lt _ _)) by done. cbn [orb Z.eqb Pos.eqb].
    change (uvPullOnly s3) with (uvPullOnly s). by rewrite Hpull.
Qed.

(** A file the server holds with the same content and a later time stays queued,
    so its content is sent although the server will ignore it. *)
Lemma retimed_still_queued s name r mtime : unversioned (s_db s) !! name = Some r -> sound_row r -> live r = true -> uv_mtime r < mtime ->
  exists s', handleUVIGotCard name mtime (card_hash r) s = Ok s' /\ uvToSend s' = uvToSend s
    /\ key <$> unversioned (s_db s') !! name = Some (mtime, uv_hash r).
Proof using.
  intros Hrow Hr Hl Hm. destruct (read_sound r Hr) as (oc & Hread & _). unfold handleUVIGotCard, Read. rewrite Hrow, Hread. cbn [obind].
  assert (card_hash r = default [] (uv_hash r)) as -> by (unfold card_hash, live in *; by destruct (uv_hash r)).
  rewrite Status_same by apply Hr. rewrite (proj2 (Z.ltb_lt _ _)) by done. cbn.
  eexists. split; [done|]. split; [done|]. cbn. by rewrite (alter_row _ _ _ _ Hrow), lookup_insert_eq.
Qed.

(** At one time a deletion card beats a content, and a content card beats a
    stored deletion, so neither of the two always wins. *)
Lemma deletion_tie mtime h : mtime <> 0 -> h <> [] -> h <> bs "-" -> Status mtime h mtime (bs "-") = 1 /\ Status mtime [] mtime h = 1.
Proof using.
  intros Hm Hh Hd. rewrite !Status_other by done. rewrite Z.ltb_irrefl, Z.eqb_refl, bytes_eqb_refl. cbn [negb andb orb]. split; [done|].
  rewrite (proj2 (bytes_eqb_neq _ _)) by done. by destruct h.
Qed.

(** One live row whose time SQLite has no date for, and there is no hash: no
    session gets past its first request. *)
Lemma undated_no_request s name r : uv_cache (s_db s) = None -> uvHashSent s = false ->
  unversioned (s_db s) !! name = Some r -> live r = true -> datetime (uv_mtime r) = None -> exists e, uvRequestCards datetime s = Err e.
Proof using.
  intros Hcache Hsent Hrow Hl Hdt.
  assert (forall rows, (name, r) ∈ rows -> exists e, catalog_lines datetime rows = Err e) as Hlines.
  { induction rows as [|[n x] rows IH]; [by intros ?%elem_of_nil|]. cbn [catalog_lines]. intros [[= <- <-]|Hx]%elem_of_cons.
    - unfold live in Hl. destruct (uv_hash r); [|done]. rewrite Hdt. by eexists.
    - destruct (IH Hx) as [e He]. destruct (uv_hash x); [|by exists e]. destruct (datetime (uv_mtime x)); [|by eexists]. rewrite He. by eexists. }
  unfold uvRequestCards, ContentHash, compute_hash. rewrite Hsent, Hcache.
  destruct (Hlines (table_order (map_to_list (unversioned (s_db s))))) as [e ->]; [by rewrite table_order_perm, elem_of_map_to_list|]. by exists e.
Qed.
End Corners.

(** ** Demonstrations *)
Lemma Write_sound `{ZL : !Zlib} `{S3 : !Sha3} `{GS : !GoSort} `{TO : !TableOrder} datetime q name content mtime d d' : mtime <> 0 -> sound_db datetime d ->
  Write q name content mtime d = Ok d' -> sound_db datetime d'.
Proof.
  intros Hm Hd. unfold Write. destruct (bytes_eqb name []) eqn:Hname; [done|]. apply bytes_eqb_neq in Hname. destruct content as [content|]; [|done].
  destruct (wrap_err _ _) as [n| | |]; try done. cbn [obind]. destruct (Alg_Hash _ _) as [h| | |] eqn:Eh; try done. cbn [obind].
  assert (Hash.ContentHash (E:=uv_error) (Some content) h = Ok h) as Hh.
  { unfold Alg_Hash in Eh. assert (len h = 40 \/ len h = 64) as Hlen.
    { destruct (New n); injection Eh as <-; rewrite hex_encode_len, ?sha1_Sum_len, ?sha3_Sum256_len; [by left|by right]. }
    unfold Hash.ContentHash. destruct h as [|c h]; [rewrite len_nil in Hlen; lia|].
    destruct (New n); injection Eh as Eh; rewrite <- Eh, hex_encode_len, ?sha1_Sum_len, ?sha3_Sum256_len; cbn; by rewrite Eh. }
  destruct (named_hash _ _ Hh) as [Hne Hd'].
  destruct (storeRow_ok name mtime h (Some content) d Hname Hne Hd') as (r & -> & Hk & oc & Hread & Hoc). cbn [obind]. intros [= <-].
  apply sound_insert; [done..|]. by apply (stored_sound r mtime h oc content).
Qed.

Section Demo.
#[local] Existing Instance demo_Sha3.

Definition demo_date (mtime : Z) : option bytes := Some (dec mtime).
Definition demo_uv (files : list (bytes * bytes * Z)) : uvdb :=
  foldr (fun '(name, content, mtime) d => match Write (mk_repo (Some (bs "0")) []) name (Some content) mtime d with Ok d => d | _ => d end)
    (mk_uvdb ∅ None) files.
Definition demo_client : uvdb := demo_uv [(bs "notes", bs "kept here, changed last", 200); (bs "new.txt", bs "only here", 50)].

Lemma demo_sound files : Forall (fun x => snd x <> 0) files -> sound_db demo_date (demo_uv files).
Proof.
  induction 1 as [|[[name content] mtime] files Hm _ IH]; [by split|]. cbn [demo_uv foldr]. fold (demo_uv files).
  destruct (Write _ name (Some content) mtime (demo_uv files)) as [d| | |] eqn:E; [|done..]. by apply (Write_sound demo_date) in E.
Qed.

Lemma demo_dated m : dated demo_date m.
Proof. intros name r _ _. by eexists. Qed.


Lemma uv_hash_fresh_witness : exists h d', ContentHash demo_date demo_client = Ok (h, d')
  /\ compute_hash demo_date (unversioned demo_client) = Ok h /\ unversioned d' = unversioned demo_client.
Proof.
  destruct (ContentHash_ok demo_date demo_client) as (h & d' & H & _); [apply demo_sound; by repeat constructor|apply demo_dated|].
  exists h, d'. split; [exact H|]. apply (uv_hash_fresh demo_date ∅); [|exact H].
  eapply rtc_l; [apply (step_Write demo_date (mk_repo (Some (bs "0")) []) (bs "new.txt") (Some (bs "only here")) 50); vm_compute; reflexivity|].
  eapply rtc_l; [apply (step_Write demo_date (mk_repo (Some (bs "0")) []) (bs "notes") (Some (bs "kept here, changed last")) 200); vm_compute; reflexivity|].
  apply rtc_refl.
Defined.
End Demo.
