(* ===== verification/Pivot.v ===== *)
(** * Merge bases: src/internal/merge/ancestor.go

    The search of a check-in graph for a pivot, with its queue of (check-in,
    side) rows.  The repository is its plink rows, its events and the sizes of its
    blobs; the time of an event is a number of which only the order matters (0 for
    NULL).  [Less] orders any two different items, so what [heap.Pop] takes out
    does not depend on how the heap is laid out: the heap is a list here.  The
    context is never cancelled. *)

From stdpp Require Import base list gmap.
From S2P Require Import Prelude GoMap GoStd Path.

Record event_row := mk_event { ev_type : bytes; ev_mtime : option Z }.
Record graph := mk_graph { plinks : list plink; events : gmap Z event_row; blob_size : gmap Z Z }.

Inductive pivot_error := ErrNoCommonAncestor (unheld : bool) | ErrBound (limit : Z).
Abbreviation vresult := (outcome pivot_error).

Record PivotQuery := mk_PivotQuery { Primary : Z; Secondaries : list Z; IgnoreMerges : bool; Limit : Z }.
Record Pivot := mk_Pivot { p_RID : Z; Unheld : bool }.

(** [math.MaxInt]. *)
Definition MaxInt : Z := 9223372036854775807.

(** ** The queue: a row is a check-in and whether the primary reached it *)
Abbreviation pivotKey := (Z * bool)%type.
Record pivotEntry := mk_pivotEntry { pe_mtime : Z; pe_pending : bool }.
Record pivotItem := mk_pivotItem { it_key : pivotKey; it_mtime : Z }.
Record pivotQueue := mk_pivotQueue { entries : gmap pivotKey pivotEntry; pending : list pivotItem }.

Definition has (q : pivotQueue) (rid : Z) (primary : bool) : bool := bool_decide (is_Some (entries q !! (rid, primary))).

Definition put (k : pivotKey) (mtime : Z) (q : pivotQueue) : pivotQueue :=
  let queued := mk_pivotQueue (<[k := mk_pivotEntry mtime true]> (entries q)) (mk_pivotItem k mtime :: pending q) in
  match entries q !! k with
  | Some e => if pe_pending e && (pe_mtime e =? mtime) then q else queued
  | None => queued
  end.

Definition Less (a b : pivotItem) : bool :=
  if negb (it_mtime a =? it_mtime b) then it_mtime a >? it_mtime b
  else if negb (fst (it_key a) =? fst (it_key b)) then fst (it_key a) >? fst (it_key b)
  else snd (it_key a) && negb (snd (it_key b)).

(** [heap.Pop]: the first of the items, and the others. *)
Fixpoint pop_first (h : list pivotItem) : option (pivotItem * list pivotItem) :=
  match h with
  | [] => None
  | it :: h =>
      match pop_first h with
      | Some (it', h') => if Less it' it then Some (it', it :: h') else Some (it, h)
      | None => Some (it, h)
      end
  end.

(** [next], [n] being the items there are. *)
Fixpoint next_loop (n : nat) (q : pivotQueue) : option Z * pivotQueue :=
  match n with
  | O => (None, q)
  | S n =>
      match pop_first (pending q) with
      | None => (None, q)
      | Some (it, h) =>
          let q := mk_pivotQueue (entries q) h in
          match entries q !! it_key it with
          | Some e => if pe_pending e && (pe_mtime e =? it_mtime it) then (Some (fst (it_key it)), q) else next_loop n q
          | None => next_loop n q
          end
      end
  end.
Definition next (q : pivotQueue) : option Z * pivotQueue := next_loop (length (pending q)) q.

Definition clear (k : pivotKey) (m : gmap pivotKey pivotEntry) : gmap pivotKey pivotEntry :=
  alter (fun e => mk_pivotEntry (pe_mtime e) false) k m.
Definition examined (rid : Z) (q : pivotQueue) : pivotQueue :=
  mk_pivotQueue (clear (rid, true) (clear (rid, false) (entries q))) (pending q).

(** ** The walk *)
Record pivotWalk := mk_pivotWalk { w_queue : pivotQueue; unheld : bool }.

Section Walk.
Context `{TO : !TableOrder} (g : graph).

Definition ci (rid : Z) : option event_row :=
  match events g !! rid with Some e => if bytes_eqb (ev_type e) (bs "ci") then Some e else None | None => None end.
(** The coalesced mtime of an event, which may be missing. *)
Definition mtime_of (rid : Z) : Z := match events g !! rid with Some e => default 0 (ev_mtime e) | None => 0 end.
(** The [held] column. *)
Definition held (pid : Z) : bool :=
  bool_decide (is_Some (ci pid)) && match blob_size g !! pid with Some size => size >=? 0 | None => false end.

Fixpoint seed_loop (first : bool) (rids : list Z) (w : pivotWalk) : vresult pivotWalk :=
  match rids with
  | [] => Ok w
  | rid :: rids =>
      if rid <=? 0 then Panic "merge.FindPivot: rids must be positive"
      else match ci rid with
           | None => seed_loop false rids (mk_pivotWalk (w_queue w) true)
           | Some e =>
               if negb first && has (w_queue w) rid false then seed_loop false rids w
               else seed_loop false rids (mk_pivotWalk (put (rid, first) (default 0 (ev_mtime e)) (w_queue w)) (unheld w))
           end
  end.
Definition seed (q : PivotQuery) (w : pivotWalk) : vresult pivotWalk := seed_loop true (Primary q :: Secondaries q) w.

Definition children (prim : bool) (rid : Z) : list Z :=
  table_order (map pl_cid (List.filter (fun r => (pl_pid r =? rid) && (negb prim || pl_isprim r)) (plinks g))).
Definition parents (prim : bool) (rid : Z) : list Z :=
  table_order (map pl_pid (List.filter (fun r => (pl_cid r =? rid) && (negb prim || pl_isprim r)) (plinks g))).

Definition isPivot (prim : bool) (w : pivotWalk) (rid : Z) : bool :=
  existsb (fun cid => existsb (fun side => has (w_queue w) rid side && has (w_queue w) cid (negb side)) [false; true]) (children prim rid).

(** The queueing of one parent, by the sides the child was reached from. *)
Definition put_side (rid pid : Z) (side : bool) (q : pivotQueue) : pivotQueue :=
  if has q rid side then put (pid, side) (mtime_of pid) q else q.
Definition put_parent (rid : Z) (w : pivotWalk) (pid : Z) : pivotWalk :=
  mk_pivotWalk (put_side rid pid true (put_side rid pid false (w_queue w))) (unheld w || negb (held pid)).

Definition expand (prim : bool) (rid : Z) (w : pivotWalk) : pivotWalk :=
  let w := foldl (put_parent rid) w (parents prim rid) in
  mk_pivotWalk (examined rid (w_queue w)) (unheld w).

(** The loop of [FindPivot]; [fuel] stands for what the bound allows. *)
Fixpoint pivot_loop (fuel : nat) (prim : bool) (count limit : Z) (w : pivotWalk) : vresult Pivot :=
  match fuel with
  | O => Diverge
  | S fuel =>
      if negb (count <? limit) then Err (ErrBound limit)
      else match next (w_queue w) with
           | (None, q) => Err (ErrNoCommonAncestor (unheld w))
           | (Some rid, q) =>
               let w := mk_pivotWalk q (unheld w) in
               if isPivot prim w rid then Ok (mk_Pivot rid (unheld w))
               else pivot_loop fuel prim (count + 1) limit (expand prim rid w)
           end
  end.

Definition FindPivot (fuel : nat) (q : PivotQuery) : vresult Pivot :=
  if (Primary q <=? 0) || (len (Secondaries q) =? 0) || (Limit q <? 0)
  then Panic "merge.FindPivot: needs a primary, a secondary and a non-negative limit"
  else
    let limit := if Limit q =? 0 then MaxInt else Limit q in
    let? w := seed q (mk_pivotWalk (mk_pivotQueue ∅ []) false) in
    if negb (has (w_queue w) (Primary q) true) || (Z.of_nat (size (entries (w_queue w))) <? 2)
    then Err (ErrNoCommonAncestor true)
    else pivot_loop fuel (IgnoreMerges q) 0 limit w.

Definition findCommonAncestor (fuel : nat) (ridA ridB limit : Z) : vresult Z :=
  if (ridA <=? 0) || (ridB <=? 0) then Panic "merge.FindCommonAncestor: rids must be positive"
  else if ridA =? ridB then Ok ridA
  else let? p := FindPivot fuel (mk_PivotQuery ridA [ridB] false limit) in Ok (p_RID p).

Definition FindCommonAncestor (fuel : nat) (ridA ridB : Z) : vresult Z := findCommonAncestor fuel ridA ridB 0.
Definition FindCommonAncestorWithin (fuel : nat) (ridA ridB limit : Z) : vresult Z :=
  if limit <=? 0 then Panic "merge.FindCommonAncestorWithin: limit must be positive" else findCommonAncestor fuel ridA ridB limit.
End Walk.
