(* ===== verification/PivotProps.v ===== *)
(** * A pivot is the newest common ancestor

    What one examination does to the queue, and the invariant the search keeps:
    what is queued descends from its side's check-ins, and nothing examined has
    been left with a parent unqueued or a meeting of the two sides unseen.  On any
    graph a pivot is a common ancestor, and no answer means there is none; where
    parents are older than their children the search ends, and the pivot is the
    newest common ancestor. *)

From stdpp Require Import base relations list gmap.
From S2P Require Import Prelude GoMap GoStd Path Pivot.

(** ** The queue *)
Definition queued (q : pivotQueue) (rid : Z) (side : bool) : Prop := is_Some (entries q !! (rid, side)).
Definition pend (q : pivotQueue) (rid : Z) (side : bool) : Prop := exists e, entries q !! (rid, side) = Some e /\ pe_pending e = true.

Lemma pend_queued q rid side : pend q rid side -> queued q rid side.
Proof. intros (e & H & _). by exists e. Qed.

Lemma has_queued q rid side : has q rid side = true <-> queued q rid side.
Proof. unfold has. by rewrite bool_decide_eq_true. Qed.

Lemma pop_first_nil h : pop_first h = None -> h = [].
Proof. destruct h as [|it h]; [done|]. cbn [pop_first]. destruct (pop_first h) as [[it' h']|]; [|done]. by destruct (Less _ _). Qed.

Lemma Less_time a b : Less a b = true -> it_mtime b <= it_mtime a.
Proof. unfold Less. destruct (Z.eqb_spec (it_mtime a) (it_mtime b)); cbn [negb]; [lia|]. rewrite Z.gtb_lt. lia. Qed.

Lemma not_Less_time a b : Less a b = false -> it_mtime a <= it_mtime b.
Proof. unfold Less. destruct (Z.eqb_spec (it_mtime a) (it_mtime b)); cbn [negb]; [lia|]. rewrite Z.gtb_ltb, Z.ltb_ge. lia. Qed.

Lemma pop_first_some h it h' : pop_first h = Some (it, h') -> Permutation h (it :: h') /\ Forall (fun it' => it_mtime it' <= it_mtime it) h'.
Proof.
  revert it h'. induction h as [|a h IH]; intros it h'; [done|]. cbn [pop_first]. destruct (pop_first h) as [[b k]|] eqn:E.
  - destruct (IH _ _ eq_refl) as [Hp Hf]. destruct (Less b a) eqn:Hl; intros [= <- <-].
    + split; [by rewrite Hp, Permutation_swap|]. constructor; [by apply Less_time|done].
    + apply not_Less_time in Hl. split; [done|]. rewrite Hp. constructor; [done|]. eapply Forall_impl; [done|]. cbn. lia.
  - apply pop_first_nil in E as ->. intros [= <- <-]. split; [done|constructor].
Qed.

Section Queue.
Context (g : graph).

(** Every row and item has its check-in's time, and the pending rows of the
    check-ins [P] are in the heap. *)
Record heaped (P : Z -> Prop) (q : pivotQueue) : Prop := {
  h_rows rid side e : entries q !! (rid, side) = Some e -> pe_mtime e = mtime_of g rid;
  h_items it : it ∈ pending q -> it_mtime it = mtime_of g (fst (it_key it));
  h_heap rid side : P rid -> pend q rid side -> mk_pivotItem (rid, side) (mtime_of g rid) ∈ pending q }.

Lemma put_spec P rid side q : heaped P q -> let q' := put (rid, side) (mtime_of g rid) q in
  heaped P q' /\ (forall r s, queued q' r s <-> (r, s) = (rid, side) \/ queued q r s)
  /\ (forall r s, pend q' r s <-> (r, s) = (rid, side) \/ pend q r s).
Proof using.
  intros Hq. unfold put. set (q' := mk_pivotQueue _ _).
  assert (heaped P q' /\ (forall r s, queued q' r s <-> (r, s) = (rid, side) \/ queued q r s)
    /\ (forall r s, pend q' r s <-> (r, s) = (rid, side) \/ pend q r s)) as Hnew.
  { assert (forall r s, pend q' r s <-> (r, s) = (rid, side) \/ pend q r s) as Hp.
    { intros r s. unfold pend, q'. cbn [entries]. destruct (decide ((r, s) = (rid, side))) as [->|Hne].
      - rewrite lookup_insert_eq. split; [by left|]. intros _. by eexists.
      - rewrite lookup_insert_ne by done. split; [by right|by intros [?|?]]. }
    split; [|split; [|exact Hp]].
    - split.
      + intros r s e. unfold q'. cbn [entries]. intros [[[= <- <-] <-]|[_ H]]%lookup_insert_Some; [done|]. by eapply h_rows in H.
      + intros it [->|Hit]%elem_of_cons; [done|]. by apply (h_items P q).
      + intros r s HP [[= -> ->]|H]%Hp; [by left|]. right. by apply (h_heap P q).
    - intros r s. unfold queued, q'. cbn [entries]. destruct (decide ((r, s) = (rid, side))) as [->|Hne].
      + rewrite lookup_insert_eq. split; [by left|by eexists].
      + rewrite lookup_insert_ne by done. split; [by right|by intros [?|?]]. }
  destruct (entries q !! (rid, side)) as [e|] eqn:E; [|exact Hnew]. destruct (pe_pending e && _) eqn:Ep; [|exact Hnew].
  apply andb_true_iff in Ep as [Ep _]. split; [done|]. split; intros r s; (split; [by right|intros [[= -> ->]|H]; [|done]]); exists e; done.
Qed.

Lemma next_loop_spec n q : heaped (fun _ => True) q -> (length (pending q) <= n)%nat ->
  match next_loop n q with
  | (None, q') => forall r s, ~ pend q r s
  | (Some rid, q') => entries q' = entries q /\ heaped (fun r => r <> rid) q' /\ (exists side, pend q rid side)
                      /\ forall r s, pend q r s -> mtime_of g r <= mtime_of g rid
  end.
Proof using.
  revert q. induction n as [|n IH]; intros q Hq Hn; cbn [next_loop].
  { destruct (pending q) as [|it h] eqn:E; [|cbn in Hn; lia]. intros r s Hp. apply (h_heap _ q Hq) in Hp; [|done]. rewrite E in Hp. by apply elem_of_nil in Hp. }
  destruct (pop_first (pending q)) as [[it h]|] eqn:E.
  2:{ apply pop_first_nil in E. intros r s Hp. apply (h_heap _ q Hq) in Hp; [|done]. rewrite E in Hp. by apply elem_of_nil in Hp. }
  apply pop_first_some in E as [Hperm Hle]. set (q' := mk_pivotQueue (entries q) h).
  assert (it_mtime it = mtime_of g (fst (it_key it))) as Hit by (apply (h_items _ q Hq); rewrite Hperm; by left).
  assert (forall it', it' ∈ h -> it_mtime it' = mtime_of g (fst (it_key it'))) as Hitems by (intros it' H; apply (h_items _ q Hq); rewrite Hperm; by right).
  assert (forall r s, pend q r s -> (r, s) = it_key it \/ mk_pivotItem (r, s) (mtime_of g r) ∈ h) as Hin.
  { intros r s Hp. apply (h_heap _ q Hq) in Hp; [|done]. rewrite Hperm in Hp. apply elem_of_cons in Hp as [<-|Hp]; [by left|by right]. }
  assert (match entries q' !! it_key it with Some e => if pe_pending e && (pe_mtime e =? it_mtime it) then pend q (fst (it_key it)) (snd (it_key it)) else
      ~ pend q (fst (it_key it)) (snd (it_key it)) | None => ~ pend q (fst (it_key it)) (snd (it_key it)) end) as Hvalid.
  { unfold pend. change (entries q') with (entries q). destruct (it_key it) as [rid side] eqn:Ek. cbn [fst snd] in *.
    destruct (entries q !! (rid, side)) as [e|] eqn:Ee; [|by intros (? & [=] & _)]. rewrite (h_rows _ q Hq rid side e Ee), Hit, Z.eqb_refl, andb_true_r.
    destruct (pe_pending e) eqn:Ep; [by exists e|]. intros (e' & [= <-] & H). by rewrite Ep in H. }
  assert (~ pend q (fst (it_key it)) (snd (it_key it)) -> match next_loop n q' with
    | (None, q'') => forall r s, ~ pend q r s
    | (Some rid, q'') => entries q'' = entries q /\ heaped (fun r => r <> rid) q'' /\ (exists side, pend q rid side)
                      /\ forall r s, pend q r s -> mtime_of g r <= mtime_of g rid end) as Hskip.
  { intros Hno. refine (IH q' _ _); [|cbn [pending q']; rewrite Hperm in Hn; cbn in Hn; lia]. split; [by apply (h_rows _ q Hq)|by apply Hitems|].
    intros r s _ Hp. destruct (Hin r s Hp) as [Heq|]; [|done]. by rewrite <- Heq in Hno. }
  destruct (entries q' !! it_key it) as [e|]; [|by apply Hskip]. destruct (_ && _); [|by apply Hskip].
  split; [done|]. split; [|split; [by exists (snd (it_key it))|]].
  - split; [by apply (h_rows _ q Hq)|by apply Hitems|]. intros r s Hr Hp. destruct (Hin r s Hp) as [Heq|]; [|done]. by rewrite <- Heq in Hr.
  - intros r s Hp. destruct (Hin r s Hp) as [Heq|Hh]; [by rewrite <- Heq|]. rewrite Forall_forall in Hle. specialize (Hle _ Hh). cbn in Hle. lia.
Qed.
End Queue.

(** ** One examination *)
Section Examination.
Context `{TO : !TableOrder} (g : graph) (prim : bool).

(** A link to a parent that the search follows. *)
Definition edge (c p : Z) : Prop := exists r, r ∈ plinks g /\ pl_cid r = c /\ pl_pid r = p /\ (prim = true -> pl_isprim r = true).

Lemma links_spec (f h : plink -> Z) x y : x ∈ table_order (map f (List.filter (fun r => (h r =? y) && (negb prim || pl_isprim r)) (plinks g))) <->
  exists r, r ∈ plinks g /\ h r = y /\ f r = x /\ (prim = true -> pl_isprim r = true).
Proof using.
  rewrite table_order_perm, list_elem_of_fmap. split.
  - intros (r & -> & Hr%list_elem_of_In%filter_In). destruct Hr as [Hr%list_elem_of_In [Hy Hp]%andb_true_iff]. exists r.
    split_and!; [done|lia|done|]. intros ->. done.
  - intros (r & Hr & <- & <- & Hp). exists r. split; [done|]. apply list_elem_of_In, filter_In. split; [by apply list_elem_of_In|].
    rewrite Z.eqb_refl. destruct prim; [by rewrite Hp|done].
Qed.

Lemma elem_of_parents c p : p ∈ parents g prim c <-> edge c p.
Proof using. unfold parents. by rewrite links_spec. Qed.

Lemma elem_of_children c p : c ∈ children g prim p <-> edge c p.
Proof using. unfold children. rewrite links_spec. unfold edge. split; intros (r & ? & ? & ? & ?); by exists r. Qed.

Lemma put_side_spec P rid pid side q : heaped g P q -> let q' := put_side g rid pid side q in
  heaped g P q' /\ (forall r s, queued q' r s <-> queued q r s \/ (r, s) = (pid, side) /\ queued q rid side)
  /\ (forall r s, pend q' r s <-> pend q r s \/ (r, s) = (pid, side) /\ queued q rid side).
Proof using.
  intros Hq. unfold put_side. pose proof (has_queued q rid side) as Hh. destruct (has q rid side).
  - destruct (put_spec g P pid side q Hq) as (Hq' & Hqu & Hpe). cbv zeta. split; [done|].
    split; intros r s; rewrite ?Hqu, ?Hpe; naive_solver.
  - split; [done|]. split; intros r s; naive_solver.
Qed.

Lemma put_parent_spec P rid pid w : heaped g P (w_queue w) -> let w' := put_parent g rid w pid in
  heaped g P (w_queue w') /\ (forall r s, queued (w_queue w') r s <-> queued (w_queue w) r s \/ r = pid /\ queued (w_queue w) rid s)
  /\ (forall r s, pend (w_queue w') r s <-> pend (w_queue w) r s \/ r = pid /\ queued (w_queue w) rid s).
Proof using.
  intros Hq. unfold put_parent. cbn [w_queue]. destruct (put_side_spec P rid pid false (w_queue w) Hq) as (Hq1 & Hqu1 & Hpe1).
  destruct (put_side_spec P rid pid true _ Hq1) as (Hq2 & Hqu2 & Hpe2). cbv zeta. split; [done|].
  assert (queued (put_side g rid pid false (w_queue w)) rid true <-> queued (w_queue w) rid true) as Hother by (rewrite Hqu1; naive_solver).
  split; intros r s; rewrite ?Hqu2, ?Hpe2, Hother, ?Hqu1, ?Hpe1; destruct s; naive_solver.
Qed.

Lemma put_parents_spec P rid pids w : heaped g P (w_queue w) -> let w' := foldl (put_parent g rid) w pids in
  heaped g P (w_queue w') /\ (forall r s, queued (w_queue w') r s <-> queued (w_queue w) r s \/ r ∈ pids /\ queued (w_queue w) rid s)
  /\ (forall r s, pend (w_queue w') r s <-> pend (w_queue w) r s \/ r ∈ pids /\ queued (w_queue w) rid s).
Proof using.
  revert w. induction pids as [|pid pids IH]; intros w Hq; cbn [foldl].
  { split; [done|]. split; intros r s; rewrite elem_of_nil; naive_solver. }
  destruct (put_parent_spec P rid pid w Hq) as (Hq1 & Hqu1 & Hpe1). destruct (IH _ Hq1) as (Hq2 & Hqu2 & Hpe2). cbv zeta. split; [done|].
  assert (forall s, queued (w_queue (put_parent g rid w pid)) rid s <-> queued (w_queue w) rid s) as Hrid by (intros s; rewrite Hqu1; naive_solver).
  split; intros r s; rewrite ?Hqu2, ?Hpe2, Hrid, ?Hqu1, ?Hpe1, elem_of_cons; naive_solver.
Qed.

Lemma clear_spec k m k' : clear k m !! k' = if decide (k' = k) then (fun e => mk_pivotEntry (pe_mtime e) false) <$> m !! k' else m !! k'.
Proof using. unfold clear. destruct (decide (k' = k)) as [->|Hne]; [by rewrite lookup_alter_eq|by rewrite lookup_alter_ne]. Qed.

Lemma examined_spec rid q : heaped g (fun r => r <> rid) q ->
  heaped g (fun _ => True) (examined rid q) /\ (forall r s, queued (examined rid q) r s <-> queued q r s)
  /\ (forall r s, pend (examined rid q) r s <-> r <> rid /\ pend q r s).
Proof using.
  intros Hq.
  assert (forall r s, entries (examined rid q) !! (r, s) = if decide (r = rid) then (fun e => mk_pivotEntry (pe_mtime e) false) <$> entries q !! (r, s) else entries q !! (r, s)) as He.
  { intros r s. unfold examined. cbn [entries]. rewrite !clear_spec. repeat case_decide; simplify_eq; try done; destruct s; try done. }
  assert (forall r s, pend (examined rid q) r s <-> r <> rid /\ pend q r s) as Hp.
  { intros r s. unfold pend. rewrite He. destruct (decide (r = rid)) as [->|Hne].
    - split; [|by intros [? _]]. intros (e & (e' & _ & ->)%fmap_Some & He'). done.
    - split; [by intros H|by intros [_ H]]. }
  split; [|split; [|exact Hp]].
  - split.
    + intros r s e. rewrite He. destruct (decide (r = rid)) as [->|]; [|by apply (h_rows _ _ q Hq)].
      intros (e' & H & ->)%fmap_Some. cbn. by apply (h_rows _ _ q Hq) in H.
    + by apply (h_items _ _ q Hq).
    + intros r s _ [Hne H]%Hp. by apply (h_heap _ _ q Hq).
  - intros r s. unfold queued. rewrite He. destruct (decide _); [|done]. by rewrite fmap_is_Some.
Qed.

Lemma expand_queue rid w : heaped g (fun r => r <> rid) (w_queue w) -> let w' := expand g prim rid w in
  heaped g (fun _ => True) (w_queue w')
  /\ (forall r s, queued (w_queue w') r s <-> queued (w_queue w) r s \/ edge rid r /\ queued (w_queue w) rid s)
  /\ (forall r s, pend (w_queue w') r s <-> r <> rid /\ (pend (w_queue w) r s \/ edge rid r /\ queued (w_queue w) rid s)).
Proof using.
  intros Hq. unfold expand. destruct (put_parents_spec _ rid (parents g prim rid) w Hq) as (Hq1 & Hqu1 & Hpe1).
  destruct (examined_spec rid _ Hq1) as (Hq2 & Hqu2 & Hpe2). cbv zeta. cbn [w_queue]. split; [done|].
  split; intros r s; rewrite ?Hqu2, ?Hpe2, ?Hqu1, ?Hpe1, elem_of_parents; done.
Qed.

Lemma isPivot_spec w rid : isPivot g prim w rid = true <-> exists c side, edge c rid /\ queued (w_queue w) rid side /\ queued (w_queue w) c (negb side).
Proof using.
  unfold isPivot. rewrite existsb_exists. split.
  - intros (c & Hc%list_elem_of_In%elem_of_children & (side & _ & [H1 H2]%andb_true_iff)%existsb_exists). exists c, side. by rewrite <- !has_queued.
  - intros (c & side & Hc & H1 & H2). exists c. split; [by apply list_elem_of_In, elem_of_children|]. apply existsb_exists. exists side.
    split; [destruct side; [right; by left|by left]|]. by rewrite (proj2 (has_queued _ _ _) H1), (proj2 (has_queued _ _ _) H2).
Qed.

(** ** The search, from the check-ins [starts] on each side *)
Context (starts : bool -> Z -> Prop).

Definition reached (side : bool) (x : Z) : Prop := exists s, starts side s /\ rtc edge s x.

(** An ancestor of both sides, and of one of them through a child. *)
Definition met (x : Z) : Prop := exists side c, reached side x /\ reached (negb side) c /\ edge c x.

Record inv (q : pivotQueue) : Prop := {
  i_sound r s : queued q r s -> reached s r;
  i_start s r : starts s r -> queued q r s;
  i_closed c p s : queued q c s -> edge c p -> pend q c s \/ queued q p s;
  i_met x c s : edge c x -> queued q x s -> queued q c (negb s) -> pend q c (negb s) \/ exists s', pend q x s' }.

Lemma expand_inv rid w : heaped g (fun r => r <> rid) (w_queue w) -> inv (w_queue w) -> isPivot g prim w rid = false ->
  inv (w_queue (expand g prim rid w)).
Proof using.
  intros Hh [Hs Hst Hcl Hm] Hno. destruct (expand_queue rid w Hh) as (_ & Hqu & Hpe). set (q := w_queue w) in *. set (q' := w_queue (expand _ _ _ _)) in *.
  assert (forall c s, edge c rid -> queued q rid s -> queued q c (negb s) -> False) as Hnot.
  { intros c s H1 H2 H3. enough (isPivot g prim w rid = true) by congruence. apply isPivot_spec. by exists c, s. }
  assert (forall s, queued q' rid s -> queued q rid s) as Hrid by (intros s; rewrite Hqu; naive_solver).
  split.
  - intros r s [H|[He H]]%Hqu; [by apply Hs|]. apply Hs in H as (x & Hx & Hp). exists x. split; [done|]. by eapply rtc_r.
  - intros s r H. apply Hqu. left. by apply Hst.
  - intros c p s Hc He. destruct (decide (c = rid)) as [->|Hne].
    + right. apply Hqu. right. split; [done|]. by apply Hrid.
    + apply Hqu in Hc as [Hc|Hc]; [|left; apply Hpe; by eauto]. destruct (Hcl c p s Hc He) as [H|H]; [left; apply Hpe; by eauto|right; apply Hqu; by left].
  - intros x c s He Hx Hc. destruct (decide (c = rid)) as [->|Hcr].
    + destruct (decide (x = rid)) as [->|Hxr]; [by destruct (Hnot rid s He (Hrid _ Hx) (Hrid _ Hc))|].
      right. exists (negb s). apply Hpe. split; [done|]. right. split; [done|by apply Hrid].
    + apply Hqu in Hc as [Hc|Hc]; [|left; apply Hpe; by eauto]. destruct (decide (x = rid)) as [->|Hxr]; [by destruct (Hnot c s He (Hrid _ Hx) Hc)|].
      apply Hqu in Hx as [Hx|Hx]; [|right; exists s; apply Hpe; by eauto].
      destruct (Hm x c s He Hx Hc) as [H|[s' H]]; [left; apply Hpe; by eauto|right; exists s'; apply Hpe; by eauto].
Qed.

(** Nothing pending: everything has been seen, and no meeting. *)
Lemma exhausted q : inv q -> (forall r s, ~ pend q r s) -> forall x, ~ met x.
Proof using.
  intros [_ Hst Hcl Hm] Hno x (s & c & (a & Ha & Hax) & (b & Hb & Hbc) & He).
  assert (forall s y z, rtc edge y z -> queued q y s -> queued q z s) as Hclosed.
  { intros s' y z Hp. induction Hp as [|y y' z Hyy _ IH]; [done|]. intros Hy. apply IH. by destruct (Hcl y y' s' Hy Hyy) as [?%Hno|]. }
  destruct (Hm x c s He) as [?%Hno|[s' ?%Hno]]; [..|done|done]; [by apply (Hclosed s a), Hst|by apply (Hclosed (negb s) b), Hst].
Qed.

Lemma pivot_met q w rid : inv q -> w_queue w = q -> isPivot g prim w rid = true -> met rid.
Proof using.
  intros [Hs _ _ _] Hw (c & s & He & H1 & H2)%isPivot_spec. rewrite Hw in *. exists s, c. split_and!; [by apply Hs|by apply Hs|done].
Qed.

(** ** Parents older than their children: the newest pending check-in has no
    unseen descendant *)
Context (Holder : forall c p, edge c p -> mtime_of g p < mtime_of g c).

Lemma newer_seen q t : inv q -> (forall r s, pend q r s -> mtime_of g r <= t) ->
  forall s y, reached s y -> t < mtime_of g y -> queued q y s /\ ~ pend q y s.
Proof using Holder.
  intros [_ Hst Hcl _] Hmax s y (a & Ha & Hp) Hy. assert (forall z, t < mtime_of g z -> ~ pend q z s) as Hnp by (intros z Hz Hq%Hmax; lia).
  split; [|by apply Hnp]. revert y Hp Hy. apply (rtc_ind_r (fun y => t < mtime_of g y -> queued q y s)); [intros _; by apply Hst|].
  intros c y Hac Hcy IH Hy. pose proof (Holder _ _ Hcy). assert (t < mtime_of g c) as Hc by lia. destruct (Hcl c y s (IH Hc) Hcy) as [?%Hnp|]; done.
Qed.

Lemma pivot_newest_of q rid : inv q -> (forall r s, pend q r s -> mtime_of g r <= mtime_of g rid) ->
  forall x, met x -> mtime_of g x <= mtime_of g rid.
Proof using Holder.
  intros Hi Hmax x (s & c & Hx & Hc & He). destruct (Z.le_gt_cases (mtime_of g x) (mtime_of g rid)) as [|Hgt]; [done|exfalso].
  pose proof (Holder _ _ He). destruct (newer_seen q _ Hi Hmax s x Hx Hgt) as [Hqx _], (newer_seen q _ Hi Hmax (negb s) c Hc) as [Hqc Hpc]; [lia|].
  destruct (i_met q Hi x c s He Hqx Hqc) as [|[s' Hp]]; [done|]. apply Hmax in Hp. lia.
Qed.
End Examination.

(** ** Seeding *)
Section Search.
Context `{TO : !TableOrder} (g : graph).

(** The check-ins a query starts from, by side. *)
Definition starts (q : PivotQuery) (side : bool) (s : Z) : Prop :=
  is_Some (ci g s) /\ if side then s = Primary q else s ∈ Secondaries q.

Lemma ci_mtime rid e : ci g rid = Some e -> default 0 (ev_mtime e) = mtime_of g rid.
Proof using. unfold ci, mtime_of. destruct (events g !! rid) as [e'|]; [|done]. destruct (bytes_eqb _ _); [|done]. by intros [= ->]. Qed.

(** Rows queued and not examined. *)
Definition fresh_rows (w : pivotWalk) (P : Z -> bool -> Prop) : Prop :=
  heaped g (fun _ => True) (w_queue w) /\ (forall r s, queued (w_queue w) r s <-> P r s) /\ (forall r s, queued (w_queue w) r s -> pend (w_queue w) r s).

Lemma seed_secondaries rids w P : Forall (fun r => 0 < r) rids -> fresh_rows w P ->
  exists w', seed_loop g false rids w = Ok w' /\ fresh_rows w' (fun r s => P r s \/ s = false /\ r ∈ rids /\ is_Some (ci g r)).
Proof using.
  revert w P. induction rids as [|rid rids IH]; intros w P Hpos Hw.
  { exists w. split; [done|]. destruct Hw as (? & Hq & ?). split_and!; [done| |done]. intros r s. rewrite Hq, elem_of_nil. naive_solver. }
  apply Forall_cons in Hpos as [Hr Hpos]. cbn [seed_loop]. rewrite (proj2 (Z.leb_gt _ _)) by done.
  assert (forall w' P', fresh_rows w' P' -> (forall r s, P' r s \/ s = false /\ r ∈ rids /\ is_Some (ci g r) <-> P r s \/ s = false /\ r ∈ rid :: rids /\ is_Some (ci g r)) ->
    exists w'', seed_loop g false rids w' = Ok w'' /\ fresh_rows w'' (fun r s => P r s \/ s = false /\ r ∈ rid :: rids /\ is_Some (ci g r))) as Hgo.
  { intros w' P' Hw' HP. destruct (IH w' P' Hpos Hw') as (w'' & Hs & H1 & H2 & H3). exists w''. split; [done|]. split_and!; [done| |done].
    intros r s. by rewrite H2, HP. }
  destruct (ci g rid) as [e|] eqn:E.
  2:{ apply (Hgo _ P); [exact Hw|]. intros r s. rewrite elem_of_cons. split; [naive_solver|]. intros [?|(? & [->|?] & Hci)]; [naive_solver| |naive_solver].
      rewrite E in Hci. by destruct Hci. }
  cbn [negb andb]. pose proof (has_queued (w_queue w) rid false) as Hh. destruct Hw as (H1 & H2 & H3).
  destruct (has (w_queue w) rid false).
  - apply (Hgo _ P); [by split_and!|]. intros r s. rewrite elem_of_cons. split; [naive_solver|]. intros [?|(-> & [->|?] & Hci)]; [naive_solver| |naive_solver].
    left. by apply H2, Hh.
  - rewrite (ci_mtime rid e E). destruct (put_spec g _ rid false (w_queue w) H1) as (Hh' & Hqu & Hpe).
    apply (Hgo _ (fun r s => (r, s) = (rid, false) \/ P r s)).
    + split_and!; [done|intros r s; cbn [w_queue]; by rewrite Hqu, H2|intros r s; cbn [w_queue]; rewrite Hqu, Hpe; naive_solver].
    + intros r s. rewrite elem_of_cons. assert (is_Some (ci g rid)) by (rewrite E; by eexists). naive_solver.
Qed.

Lemma fresh_rows_ext w P Q : fresh_rows w P -> (forall r s, P r s <-> Q r s) -> fresh_rows w Q.
Proof using. intros (? & H & ?) HP. split_and!; [done| |done]. intros r s. by rewrite H. Qed.

Lemma seed_spec q : 0 < Primary q -> Forall (fun r => 0 < r) (Secondaries q) ->
  exists w, seed g q (mk_pivotWalk (mk_pivotQueue ∅ []) false) = Ok w /\ fresh_rows w (fun r s => starts q s r).
Proof using.
  intros Hp Hs. unfold seed. cbn [seed_loop]. rewrite (proj2 (Z.leb_gt _ _)) by done. set (q0 := mk_pivotQueue ∅ []).
  assert (forall k, entries q0 !! k = None) as Hnone by (intros k; apply lookup_empty).
  assert (forall r s, ~ queued q0 r s) as Hno by (intros r s [e H]; by rewrite Hnone in H).
  assert (heaped g (fun _ => True) q0) as H0.
  { split; [intros r s e; by rewrite Hnone|by intros ? ?%elem_of_nil|]. by intros r s _ ?%pend_queued%Hno. }
  destruct (ci g (Primary q)) as [e|] eqn:E; cbn [negb andb].
  - rewrite (ci_mtime _ e E). destruct (put_spec g _ (Primary q) true q0 H0) as (H1 & Hqu & Hpe).
    destruct (seed_secondaries (Secondaries q) (mk_pivotWalk (put (Primary q, true) (mtime_of g (Primary q)) q0) false) (fun r s => (r, s) = (Primary q, true))) as (w & Hw & Hf); [done| |].
    { split_and!; [done|intros r s; cbn [w_queue]; rewrite Hqu; naive_solver|intros r s; cbn [w_queue]; rewrite Hqu, Hpe; naive_solver]. }
    exists w. split; [done|]. eapply fresh_rows_ext; [exact Hf|]. intros r s. unfold starts.
    assert (is_Some (ci g (Primary q))) by (rewrite E; by eexists). destruct s; naive_solver.
  - destruct (seed_secondaries (Secondaries q) (mk_pivotWalk q0 true) (fun _ _ => False)) as (w & Hw & Hf); [done| |].
    { split_and!; [done|intros r s; split; [by intros ?%Hno|done]|intros r s H; by destruct (Hno r s)]. }
    exists w. split; [done|]. eapply fresh_rows_ext; [exact Hf|]. intros r s. unfold starts. destruct s; [|naive_solver].
    split; [naive_solver|]. intros [H ->]. rewrite E in H. by destruct H.
Qed.

Lemma fresh_inv prim q w : fresh_rows w (fun r s => starts q s r) -> inv g prim (starts q) (w_queue w).
Proof using.
  intros (_ & Hq & Hp). split.
  - intros r s H%Hq. exists r. by split.
  - intros s r H. by apply Hq.
  - intros c p s H _. left. by apply Hp.
  - intros x c s _ _ H. left. by apply Hp.
Qed.

(** Two rows at least, or one side has none. *)
Lemma two_rows q w r : fresh_rows w (fun r s => starts q s r) -> starts q true (Primary q) -> starts q false r -> 2 <= Z.of_nat (size (entries (w_queue w))).
Proof using.
  intros (_ & Hq & _) [e1 H1]%Hq [e2 H2]%Hq. assert (is_Some (entries (w_queue w) !! (Primary q, true))) as Hk by by eexists.
  assert (size (base.delete (Primary q, true) (entries (w_queue w))) = pred (size (entries (w_queue w)))) as Hs by by apply map_size_delete_Some.
  assert (size (base.delete (Primary q, true) (entries (w_queue w))) <> 0)%nat; [|lia].
  intros H0. apply map_size_empty_iff in H0. assert (base.delete (Primary q, true) (entries (w_queue w)) !! (r, false) = Some e2) as H.
  { by rewrite lookup_delete_ne. }
  by rewrite H0 in H.
Qed.

(** ** The loop *)
Lemma loop_sound prim q limit fuel count w : heaped g (fun _ => True) (w_queue w) -> inv g prim (starts q) (w_queue w) -> count <= limit ->
  match pivot_loop g fuel prim count limit w with
  | Ok p => met g prim (starts q) (p_RID p)
  | Err (ErrNoCommonAncestor _) => forall x, ~ met g prim (starts q) x
  | Err (ErrBound l) => l = limit
  | Panic _ => False
  | Diverge => Z.of_nat fuel <= limit - count
  end.
Proof using.
  revert count w. induction fuel as [|fuel IH]; intros count w Hh Hi Hc; cbn [pivot_loop]; [lia|].
  destruct (Z.ltb_spec count limit) as [Hlt|]; [|done]. cbn [negb].
  pose proof (next_loop_spec g _ (w_queue w) Hh (le_n _)) as Hn. fold (next (w_queue w)) in Hn. destruct (next (w_queue w)) as [[rid|] q'].
  2:{ by eapply exhausted. }
  destruct Hn as (He & Hh' & _ & _). set (w' := mk_pivotWalk q' (unheld w)).
  assert (inv g prim (starts q) (w_queue w')) as Hi'.
  { destruct Hi as [H1 H2 H3 H4]. unfold w'. split; unfold queued, pend; cbn [w_queue]; rewrite He; done. }
  destruct (isPivot g prim w' rid) eqn:Ep.
  - by apply (pivot_met g prim (starts q) _ w' rid Hi' eq_refl).
  - specialize (IH (count + 1) (expand g prim rid w')). destruct (expand_queue g prim rid w' Hh') as (Hh'' & _).
    pose proof (expand_inv g prim (starts q) rid w' Hh' Hi' Ep) as Hi''. specialize (IH Hh'' Hi'' ltac:(lia)).
    destruct (pivot_loop _ _ _ _ _ _) as [|[]| |]; try done. lia.
Qed.

(** With parents older than their children no check-in is examined twice. *)
Lemma loop_newest prim q limit (U : gset Z) fuel w (D : gset Z) : (forall c p, edge g prim c p -> mtime_of g p < mtime_of g c) ->
  (forall s x, reached g prim (starts q) s x -> x ∈ U) -> Z.of_nat (size U) < limit ->
  heaped g (fun _ => True) (w_queue w) -> inv g prim (starts q) (w_queue w) ->
  D ⊆ U -> (forall d r s, d ∈ D -> pend (w_queue w) r s -> mtime_of g r <= mtime_of g d /\ r <> d) -> (size U - size D < fuel)%nat ->
  match pivot_loop g fuel prim (Z.of_nat (size D)) limit w with
  | Ok p => met g prim (starts q) (p_RID p) /\ forall x, met g prim (starts q) x -> mtime_of g x <= mtime_of g (p_RID p)
  | Err (ErrNoCommonAncestor _) => forall x, ~ met g prim (starts q) x
  | _ => False
  end.
Proof using.
  intros Holder HU Hlim. revert w D. induction fuel as [|fuel IH]; intros w D Hh Hi HD Hold Hf; [lia|]. cbn [pivot_loop].
  pose proof (subseteq_size D U HD). rewrite (proj2 (Z.ltb_lt (Z.of_nat (size D)) limit)) by lia. cbn [negb].
  pose proof (next_loop_spec g _ (w_queue w) Hh (le_n _)) as Hn. fold (next (w_queue w)) in Hn. destruct (next (w_queue w)) as [[rid|] q'].
  2:{ by eapply exhausted. }
  destruct Hn as (He & Hh' & [side Hrid] & Hmax). set (w' := mk_pivotWalk q' (unheld w)).
  assert (forall r s, pend (w_queue w') r s <-> pend (w_queue w) r s) as Hpend by (intros r s; unfold pend, w'; cbn [w_queue]; by rewrite He).
  assert (inv g prim (starts q) (w_queue w')) as Hi'.
  { destruct Hi as [H1 H2 H3 H4]. unfold w'. split; unfold queued, pend; cbn [w_queue]; rewrite He; done. }
  destruct (isPivot g prim w' rid) eqn:Ep.
  - split; [by apply (pivot_met g prim (starts q) _ w' rid Hi' eq_refl)|]. apply (pivot_newest_of g prim (starts q) Holder (w_queue w')); [done|].
    intros r s Hp%Hpend. by eapply Hmax.
  - destruct (expand_queue g prim rid w' Hh') as (Hh'' & _ & Hpe). pose proof (expand_inv g prim (starts q) rid w' Hh' Hi' Ep) as Hi''.
    assert (rid ∉ D) as Hnew by (intros Hin; by destruct (Hold rid rid side Hin Hrid)).
    assert (rid ∈ U) as HridU by (eapply HU, (i_sound _ _ _ _ Hi), pend_queued, Hrid).
    assert (size ({[rid]} ∪ D) = S (size D)) as Hsize by (rewrite size_union, size_singleton by set_solver; done).
    assert ({[rid]} ∪ D ⊆ U) as HD' by set_solver. pose proof (subseteq_size _ U HD').
    replace (Z.of_nat (size D) + 1) with (Z.of_nat (size ({[rid]} ∪ D))) by lia. apply IH; [done|done|done| |lia].
    intros d r s Hd [Hne [Hp|[Hedge _]]]%Hpe.
    + apply Hpend in Hp. apply elem_of_union in Hd as [->%elem_of_singleton|Hd]; [split; [by eapply Hmax|done]|by eapply Hold].
    + pose proof (Holder _ _ Hedge) as Hlt. assert (mtime_of g rid <= mtime_of g d) as Hle.
      { apply elem_of_union in Hd as [->%elem_of_singleton|Hd]; [done|by eapply Hold]. }
      split; [lia|]. intros ->. lia.
Qed.

(** ** Common ancestors *)
Definition common (q : PivotQuery) (x : Z) : Prop :=
  reached g (IgnoreMerges q) (starts q) true x /\ reached g (IgnoreMerges q) (starts q) false x.

Lemma met_common q x : (Primary q ∉ Secondaries q) -> met g (IgnoreMerges q) (starts q) x <-> common q x.
Proof using.
  intros Hnot. assert (forall s c y, reached g (IgnoreMerges q) (starts q) s c -> edge g (IgnoreMerges q) c y -> reached g (IgnoreMerges q) (starts q) s y) as Hr.
  { intros s c y (a & Ha & Hp) He. exists a. split; [done|]. by eapply rtc_r. }
  split.
  - intros ([] & c & H1 & H2 & He); split; try done; by eapply Hr.
  - intros [(a & Ha & Hax) (b & Hb & Hbx)]. destruct (rtc_inv_r _ _ Hax) as [->|(c & Hc & He)].
    + destruct (rtc_inv_r _ _ Hbx) as [->|(c & Hc & He)].
      * exfalso. destruct Ha as [_ Ha], Hb as [_ Hb]. cbn in *. by subst.
      * exists true, c. split; [by exists x|]. split; [by exists b|done].
    + exists false, c. split; [by exists b|]. split; [by exists a|done].
Qed.

Definition limit_of (q : PivotQuery) : Z := if Limit q =? 0 then MaxInt else Limit q.

(** A query [FindPivot] takes. *)
Definition proper (q : PivotQuery) : Prop :=
  0 < Primary q /\ Forall (fun r => 0 < r) (Secondaries q) /\ Secondaries q <> [] /\ 0 <= Limit q /\ Primary q ∉ Secondaries q.

Lemma FindPivot_loop fuel q : proper q -> exists w, fresh_rows w (fun r s => starts q s r)
  /\ (FindPivot g fuel q = pivot_loop g fuel (IgnoreMerges q) 0 (limit_of q) w
      \/ FindPivot g fuel q = Err (ErrNoCommonAncestor true) /\ forall x, ~ common q x).
Proof using.
  intros (Hp & Hs & Hne & Hl & _). destruct (seed_spec q Hp Hs) as (w & Hw & Hf). exists w. split; [done|]. unfold FindPivot.
  rewrite (proj2 (Z.leb_gt _ _)), (proj2 (Z.eqb_neq (len (Secondaries q)) 0)), (proj2 (Z.ltb_ge _ _)) by (done || (intros ?%len_zero; done)). cbn [orb]. rewrite Hw. cbn [obind].
  fold (limit_of q). destruct (negb _ || _) eqn:E; [right|by left]. split; [done|]. intros x [(a & Ha & _) (b & Hb & _)].
  assert (a = Primary q) as -> by apply Ha. pose proof (two_rows q w b Hf Ha Hb) as H2.
  destruct Hf as (_ & Hq & _). rewrite (proj2 (has_queued (w_queue w) (Primary q) true) (proj2 (Hq _ _) Ha)) in E. cbn [negb orb] in E. lia.
Qed.
End Search.

Section Theorems.
Context `{TO : !TableOrder}.

(** On any graph, cycles and clock skew included, a pivot is a common ancestor
    of the primary and a secondary, and the answer that there is none is right:
    nothing the two sides share has been missed, whatever order the rows are
    read in.  A bounded search always answers within its bound. *)
Theorem pivot_common g fuel q : proper q ->
  match FindPivot g fuel q with
  | Ok p => common g q (p_RID p)
  | Err (ErrNoCommonAncestor _) => forall x, ~ common g q x
  | Err (ErrBound l) => l = limit_of q
  | Panic _ => False
  | Diverge => Z.of_nat fuel <= limit_of q
  end.
Proof using.
  intros Hq. destruct (FindPivot_loop g fuel q Hq) as (w & Hf & [->|[-> H]]); [|exact H].
  assert (0 <= limit_of q) as Hlim by (unfold limit_of, MaxInt; destruct Hq as (_ & _ & _ & ? & _); destruct (Limit q =? 0); lia).
  pose proof (loop_sound g (IgnoreMerges q) q (limit_of q) fuel 0 w (proj1 Hf) (fresh_inv g _ q w Hf) Hlim) as H.
  destruct Hq as (_ & _ & _ & _ & Hnot). destruct (pivot_loop _ _ _ _ _ _) as [p|[]| |]; [by apply met_common| |done|done|lia].
  intros x Hx. by apply (H x), met_common.
Qed.

(** C16: Where every parent is older than its child, the search ends, examining no
    check-in twice, and answers the newest common ancestor of the primary and
    the secondaries when there is one. *)
Theorem pivot_newest g fuel q : proper q -> (forall c p, edge g (IgnoreMerges q) c p -> mtime_of g p < mtime_of g c) ->
  let n := 1 + len (Secondaries q) + len (plinks g) in n < limit_of q -> n < Z.of_nat fuel ->
  match FindPivot g fuel q with
  | Ok p => common g q (p_RID p) /\ forall x, common g q x -> mtime_of g x <= mtime_of g (p_RID p)
  | Err (ErrNoCommonAncestor _) => forall x, ~ common g q x
  | _ => False
  end.
Proof using.
  intros Hq Holder n Hlim Hfuel. destruct (FindPivot_loop g fuel q Hq) as (w & Hf & [->|[-> H]]); [|exact H].
  set (U := list_to_set (Primary q :: Secondaries q ++ map pl_pid (plinks g)) : gset Z).
  assert (Z.of_nat (size U) <= n) as HU.
  { unfold U, n, len. pose proof (size_list_to_set_le (Primary q :: Secondaries q ++ map pl_pid (plinks g))) as Hs.
    cbn [length] in Hs. rewrite length_app, length_map in Hs. lia. }
  assert (forall s x, reached g (IgnoreMerges q) (starts g q) s x -> x ∈ U) as Hin.
  { intros s x (a & [_ Ha] & Hp). unfold U. rewrite elem_of_list_to_set, elem_of_cons, elem_of_app, list_elem_of_fmap.
    destruct (rtc_inv_r _ _ Hp) as [->|(c & _ & (r & Hr & _ & <- & _))]; [destruct s; [by left|by right; left]|]. right; right. by exists r. }
  destruct Hf as (Hh & Hqu & Hpe) eqn:Ef. clear Ef.
  pose proof (loop_newest g (IgnoreMerges q) q (limit_of q) U fuel w ∅ Holder Hin ltac:(lia) Hh (fresh_inv g _ q w ltac:(by split_and!)) ltac:(set_solver) ltac:(set_solver)) as H.
  rewrite size_empty in H. specialize (H ltac:(lia)). destruct Hq as (_ & _ & _ & _ & Hnot).
  change (Z.of_nat 0) with 0 in H. destruct (pivot_loop _ _ _ _ _ _) as [p|[]| |]; try done.
  - destruct H as [H1 H2]. split; [by apply met_common|]. intros x Hx. by apply H2, met_common.
  - intros x Hx. by apply (H x), met_common.
Qed.

(** A merge base of two check-ins, itself included. *)
Lemma merge_base g fuel a b : 0 < a -> 0 < b -> (forall c p, edge g false c p -> mtime_of g p < mtime_of g c) ->
  2 + len (plinks g) < MaxInt -> 2 + len (plinks g) < Z.of_nat fuel ->
  match FindCommonAncestor g fuel a b with
  | Ok r => a = b /\ r = a \/ common g (mk_PivotQuery a [b] false 0) r
            /\ forall x, common g (mk_PivotQuery a [b] false 0) x -> mtime_of g x <= mtime_of g r
  | Err (ErrNoCommonAncestor _) => forall x, ~ common g (mk_PivotQuery a [b] false 0) x
  | _ => False
  end.
Proof using.
  intros Ha Hb Holder Hlim Hfuel. unfold FindCommonAncestor, findCommonAncestor. rewrite !(proj2 (Z.leb_gt _ _)) by done. cbn [orb].
  destruct (Z.eqb_spec a b) as [->|Hne]; [by left|]. set (q := mk_PivotQuery a [b] false 0).
  assert (proper q) as Hq.
  { unfold proper, q. cbn. split_and!; try done; try lia; [by constructor|]. by rewrite list_elem_of_singleton. }
  pose proof (pivot_newest g fuel q Hq Holder) as H. cbn zeta in H. change (len (Secondaries q)) with 1 in H. change (limit_of q) with MaxInt in H.
  specialize (H ltac:(lia) ltac:(lia)). destruct (FindPivot g fuel q) as [p|[]| |]; cbn [obind]; try done. by right.
Qed.
End Theorems.

(** ** Demonstrations *)
Section Demo.
(** 1 - 2 - 3 - 5 and 2 - 4 - 6, with 3 merged into 6. *)
Definition demo_event (t : Z) : event_row := mk_event (bs "ci") (Some t).
Definition demo_graph : graph :=
  mk_graph [mk_plink 1 2 true; mk_plink 2 3 true; mk_plink 2 4 true; mk_plink 3 5 true; mk_plink 4 6 true; mk_plink 3 6 false]
    (list_to_map (map (fun r => (r, demo_event (10 * r))) [1; 2; 3; 4; 5; 6]))
    (list_to_map (map (fun r => (r, 100)) [1; 2; 3; 4; 5; 6])).
Definition demo_query : PivotQuery := mk_PivotQuery 5 [6] false 0.

Lemma demo_older prim c p : edge demo_graph prim c p -> mtime_of demo_graph p < mtime_of demo_graph c.
Proof. intros (r & Hr & <- & <- & _). cbn [plinks demo_graph] in Hr. repeat (apply elem_of_cons in Hr as [->|Hr]; [vm_compute; reflexivity|]). by apply elem_of_nil in Hr. Qed.

Lemma demo_proper : proper demo_query.
Proof. unfold proper. cbn. split_and!; try done. - by constructor. - by rewrite list_elem_of_singleton. Qed.

Lemma pivot_newest_witness : exists u, FindPivot demo_graph 20 demo_query = Ok (mk_Pivot 3 u)
  /\ common demo_graph demo_query 3 /\ forall x, common demo_graph demo_query x -> mtime_of demo_graph x <= 30.
Proof.
  pose proof (pivot_newest demo_graph 20 demo_query demo_proper (demo_older false) eq_refl eq_refl) as H.
  assert (exists u, FindPivot demo_graph 20 demo_query = Ok (mk_Pivot 3 u)) as [u E] by (eexists; vm_compute; reflexivity).
  rewrite E in H. exists u. split; [exact E|]. exact H.
Defined.

Lemma pivot_common_witness : exists u, FindPivot demo_graph 20 (mk_PivotQuery 5 [6] true 0) = Ok (mk_Pivot 2 u)
  /\ common demo_graph (mk_PivotQuery 5 [6] true 0) 2.
Proof.
  assert (proper (mk_PivotQuery 5 [6] true 0)) as Hq by (unfold proper; cbn; split_and!; try done; [by constructor|by rewrite list_elem_of_singleton]).
  pose proof (pivot_common demo_graph 20 (mk_PivotQuery 5 [6] true 0) Hq) as H.
  assert (exists u, FindPivot demo_graph 20 (mk_PivotQuery 5 [6] true 0) = Ok (mk_Pivot 2 u)) as [u E] by (eexists; vm_compute; reflexivity).
  rewrite E in H. exists u. split; [exact E|]. exact H.
Defined.

(** With a clock that went back, an older common ancestor can hide a newer one:
    5's way to 4 leads through check-ins dated before it. *)
Definition skewed_graph : graph :=
  mk_graph [mk_plink 1 5 true; mk_plink 1 6 true; mk_plink 3 5 false; mk_plink 2 3 true; mk_plink 4 2 true; mk_plink 4 6 false]
    (list_to_map (map (fun '(r, t) => (r, demo_event t)) [(1, 10); (2, 1); (3, 1); (4, 50); (5, 100); (6, 99)]))
    (list_to_map (map (fun r => (r, 100)) [1; 2; 3; 4; 5; 6])).

Lemma skewed_pivot : exists u, FindPivot skewed_graph 20 demo_query = Ok (mk_Pivot 1 u)
  /\ common skewed_graph demo_query 4 /\ mtime_of skewed_graph 1 < mtime_of skewed_graph 4.
Proof.
  eexists. split; [vm_compute; reflexivity|]. split; [|vm_compute; reflexivity].
  assert (forall c p prim, mk_plink p c prim ∈ plinks skewed_graph -> edge skewed_graph false c p) as Hedge by (intros c p prim H; by exists (mk_plink p c prim)).
  assert (forall r, r ∈ [5; 6] -> is_Some (ci skewed_graph r)) as Hci.
  { intros r Hr. repeat (apply elem_of_cons in Hr as [->|Hr]; [by eexists|]). by apply elem_of_nil in Hr. }
  split.
  - exists 5. split; [by split; [apply Hci; set_solver|]|]. eapply rtc_l; [apply (Hedge 5 3 false); cbn; set_solver|].
    eapply rtc_l; [apply (Hedge 3 2 true); cbn; set_solver|]. eapply rtc_once, (Hedge 2 4 true). cbn; set_solver.
  - exists 6. split; [split; [apply Hci; set_solver|by apply list_elem_of_singleton]|]. eapply rtc_once, (Hedge 6 4 false). cbn; set_solver.
Qed.
End Demo.
