(* ===== verification/HeldSet.v ===== *)
(** * Held sets: src/internal/horizon/heldset.go

    The check-ins whose content a horizon clone keeps.  The store is what the
    queries read: the events by rid with their types, the phantoms, the pairs of
    plink, and the rids of artifact names.  Rows without ORDER BY, and the keys of
    a map, come in the order [table_order] gives; the context is never cancelled.
    A slice shared between two graphs is copied before it grows, so graphs are
    values. *)

From stdpp Require Import base list gmap.
From S2P Require Import Prelude GoMap GoStd Cone.

Definition heldSetNodes : Z := 1048576.

Inductive horizon_error := ErrNotHeld (rid : Z) | ErrWalkBound (limit : Z).
Abbreviation hresult := (outcome horizon_error).

Record hstore := mk_hstore { event_type : gmap Z bytes; phantoms : gset Z; plink_rows : list (Z * Z); rid_of : gmap bytes Z }.

(** [heldCheckinSQL]. *)
Definition heldCheckin (s : hstore) (rid : Z) : bool :=
  match event_type s !! rid with Some t => bytes_eqb t (bs "ci") | None => false end && negb (bool_decide (rid ∈ phantoms s)).

(** ** Graph *)
Record Graph := mk_Graph { children : gmap Z (list Z); parents : gmap Z (list Z); checkins : list Z; held : gset Z; edges : Z }.

Definition sorted_rids (l : list Z) : list Z := insertion_sort Z.ltb l.

Definition adjacent (m : gmap Z (list Z)) (rid : Z) : list Z := default [] (m !! rid).

(** [heldCheckins]: the rows of a query that is limited to one row past the
    bound. *)
Fixpoint scan_checkins (limit : Z) (rows checkins : list Z) : hresult (list Z) :=
  match rows with
  | [] => Ok checkins
  | rid :: rows => if len checkins =? limit then Err (ErrWalkBound heldSetNodes) else scan_checkins limit rows (checkins ++ [rid])
  end.
Definition heldCheckins (rows : list Z) (limit : Z) : hresult (list Z) :=
  scan_checkins limit (take (Z.to_nat (limit + 1)) (sorted_rids rows)) [].

(** The loop of [addCheckins], with the fresh ones so far. *)
Definition add_checkin (acc : gset Z * list Z) (rid : Z) : gset Z * list Z :=
  if bool_decide (rid ∈ fst acc) then acc else ({[rid]} ∪ fst acc, snd acc ++ [rid]).
Definition addCheckins (rids : list Z) (g : Graph) : Graph :=
  let '(h, fresh) := foldl add_checkin (held g, []) rids in
  mk_Graph (children g) (parents g) (if 0 <? len fresh then sorted_rids (checkins g ++ fresh) else checkins g) h (edges g).

Definition add_edge (e : Z * Z) (g : Graph) : Graph :=
  mk_Graph (<[fst e := adjacent (children g) (fst e) ++ [snd e]]> (children g)) (<[snd e := adjacent (parents g) (snd e) ++ [fst e]]> (parents g))
    (checkins g) (held g) (edges g + 1).

(** [seen] is [None] where the map is nil. *)
Fixpoint edge_loop (limit read : Z) (rows : list (Z * Z)) (seen : option (gset (Z * Z))) (g : Graph) : hresult Graph :=
  match rows with
  | [] => Ok g
  | e :: rows =>
      if read + 1 >? limit then Err (ErrWalkBound heldSetNodes)
      else match seen with
           | Some s => if bool_decide (e ∈ s) then edge_loop limit (read + 1) rows seen g
                       else edge_loop limit (read + 1) rows (Some ({[e]} ∪ s)) (add_edge e g)
           | None => edge_loop limit (read + 1) rows None (add_edge e g)
           end
  end.

Section HeldSet.
Context `{TO : !TableOrder}.

Definition addEdges (rows : list (Z * Z)) (limit : Z) (seen : option (gset (Z * Z))) (g : Graph) : hresult Graph :=
  edge_loop limit 0 (take (Z.to_nat (limit + 1)) (table_order rows)) seen g.

(** The held check-ins, and the plink rows between two of them. *)
Definition held_events (s : hstore) : list Z := List.filter (heldCheckin s) (map fst (map_to_list (event_type s))).
Definition held_rows (s : hstore) : list (Z * Z) := List.filter (fun e => heldCheckin s (fst e) && heldCheckin s (snd e)) (plink_rows s).

Definition loadGraph (s : hstore) (limit : Z) : hresult Graph :=
  let? found := heldCheckins (held_events s) limit in
  addEdges (held_rows s) limit None (addCheckins found (mk_Graph ∅ ∅ [] ∅ 0)).
Definition LoadGraph (s : hstore) : hresult Graph := loadGraph s heldSetNodes.

Definition among (rids : list Z) (rid : Z) : bool := bool_decide (rid ∈ rids).
Definition Extend (s : hstore) (rids : list Z) (g : Graph) : hresult Graph :=
  match rids with
  | [] => Ok g
  | _ =>
      let? added := heldCheckins (List.filter (among rids) (held_events s)) (heldSetNodes - len (checkins g)) in
      addEdges (List.filter (fun e => among rids (snd e) || among rids (fst e)) (held_rows s)) (heldSetNodes - edges g) (Some ∅) (addCheckins added g)
  end.

(** ** Walks: the visits made, under the walk's bounds *)
Definition beyond (through rid : Z) : bool := (through >? 0) && (rid >? through).

Definition visit (limit : Z) (rid : Z) (w : Z * gset Z) : hresult (Z * gset Z) :=
  if fst w >=? limit then Err (ErrWalkBound limit) else Ok (fst w + 1, {[rid]} ∪ snd w).

Fixpoint visit_next (limit through : Z) (ns : list Z) (w : Z * gset Z) (queue : list Z) : hresult (Z * gset Z * list Z) :=
  match ns with
  | [] => Ok (w, queue)
  | n :: ns =>
      if bool_decide (n ∈ snd w) || beyond through n then visit_next limit through ns w queue
      else let? w := visit limit n w in visit_next limit through ns w (queue ++ [n])
  end.

Fixpoint run_loop (fuel : nat) (limit through : Z) (next : gmap Z (list Z)) (stop : gset Z) (queue : list Z) (w : Z * gset Z) : hresult (Z * gset Z) :=
  match queue with
  | [] => Ok w
  | cur :: queue =>
      match fuel with
      | O => Diverge
      | S fuel =>
          if bool_decide (cur ∈ stop) then run_loop fuel limit through next stop queue w
          else let? (w, queue) := visit_next limit through (adjacent next cur) w queue in run_loop fuel limit through next stop queue w
      end
  end.

(** [run]: every turn of its loop takes out a check-in a visit has put in. *)
Definition run (limit through start : Z) (next : gmap Z (list Z)) (stop : gset Z) (visits : Z) (out : gset Z) : hresult (Z * gset Z) :=
  if bool_decide (start ∈ out) then Ok (visits, out)
  else let? w := visit limit start (visits, out) in run_loop (Z.to_nat (limit - visits)) limit through next stop [start] w.

Definition hasChild (through : Z) (g : Graph) (rid : Z) : bool := existsb (fun child => negb (beyond through child)) (adjacent (children g) rid).

Fixpoint leaf_meetings (limit through : Z) (g : Graph) (descendants ancestors : gset Z) (leaves : list Z) (visits : Z) (meetings : list Z) : hresult (Z * list Z) :=
  match leaves with
  | [] => Ok (visits, meetings)
  | leaf :: leaves =>
      if beyond through leaf then Ok (visits, meetings)
      else if hasChild through g leaf || bool_decide (leaf ∈ descendants) || bool_decide (leaf ∈ ancestors)
      then leaf_meetings limit through g descendants ancestors leaves visits meetings
      else
        let? (visits, seen) := run limit through leaf (parents g) ancestors visits ∅ in
        leaf_meetings limit through g descendants ancestors leaves visits
          (meetings ++ List.filter (fun rid => bool_decide (rid ∈ ancestors)) (table_order (elements seen)))
  end.

Fixpoint run_all (limit through : Z) (next : gmap Z (list Z)) (starts : list Z) (w : Z * gset Z) : hresult (Z * gset Z) :=
  match starts with
  | [] => Ok w
  | m :: starts => let? w := run limit through m next ∅ (fst w) (snd w) in run_all limit through next starts w
  end.

Definition addLeafMeetings (limit through : Z) (g : Graph) (c : Z) (w : Z * gset Z) : hresult (Z * gset Z) :=
  let '(visits, k) := w in
  let? (visits, ancestors) := run limit through c (parents g) ∅ visits ∅ in
  let? (visits, meetings) := leaf_meetings limit through g k ancestors (checkins g) visits [] in
  run_all limit through (children g) (sorted_rids meetings) (visits, k).

(** [C] and its descendants, and by the leaves rule those of the meetings. *)
Definition hold (limit through : Z) (g : Graph) (c : Z) (rule : byte) : hresult (gset Z) :=
  let? w := run limit through c (children g) ∅ 0 ∅ in
  let? w := if Byte.eqb rule RuleLeaves then addLeafMeetings limit through g c w else Ok w in
  Ok (snd w).

Definition graph_heldSet (g : Graph) (c : Z) (rule : byte) (limit : Z) : hresult (list Z) :=
  if negb (Byte.eqb rule RuleDescendants) && negb (Byte.eqb rule RuleLeaves) then Panic "horizon.HeldSet: unknown rule"
  else let? k := hold limit 0 g c rule in Ok (sorted_rids (table_order (elements k))).

Definition Graph_HeldSet (g : Graph) (c : Z) (rule : byte) : hresult (list Z) :=
  if negb (bool_decide (c ∈ held g)) then Err (ErrNotHeld c) else graph_heldSet g c rule heldSetNodes.

Definition heldSet (s : hstore) (c : Z) (rule : byte) (limit : Z) : hresult (list Z) :=
  if c <=? 0 then Panic "horizon.HeldSet: c must be positive"
  else if limit <=? 0 then Panic "horizon.HeldSet: limit must be positive"
  else if negb (heldCheckin s c) then Err (ErrNotHeld c)
  else let? g := loadGraph s limit in graph_heldSet g c rule limit.
Definition HeldSet (s : hstore) (c : Z) (rule : byte) : hresult (list Z) := heldSet s c rule heldSetNodes.

(** The held set, [None] where the horizon is not placed. *)
Definition Place (s : hstore) (h : Horizon) : hresult (option (list Z)) :=
  match rid_of s !! h_hash h with
  | None => Ok None
  | Some c =>
      match HeldSet s c (h_rule h) with
      | Err (ErrNotHeld _) => Ok None
      | r => let? k := r in Ok (Some k)
      end
  end.

(** The loop over [k], ascending. *)
Fixpoint some_joined (k : list Z) (cursor : Z) (past : gset Z) : bool :=
  match k with
  | [] => false
  | rid :: k => if rid >? cursor then false else if negb (bool_decide (rid ∈ past)) then true else some_joined k cursor past
  end.

Definition JoinedAfter (g : Graph) (c : Z) (rule : byte) (k : list Z) (cursor : Z) : hresult bool :=
  if cursor <? 0 then Panic "horizon.Graph.JoinedAfter: negative cursor"
  else match k with
       | [] => Ok false
       | first :: _ =>
           if first >? cursor then Ok false
           else
             let? past := if c <=? cursor then hold heldSetNodes cursor g c rule else Ok ∅ in
             Ok (some_joined k cursor past)
       end.
End HeldSet.
