(* ===== verification/HeldProps.v ===== *)
(** * The held set is what the horizon draft says it is

    A walk adds exactly what is reachable past the stops, within a budget that
    every visit spends once; the held set is the descendants of C and, by the
    leaves rule, of the meetings, whether the graph was read at once or extended. *)

From Stdlib Require Import Sorted.
From stdpp Require Import base relations list gmap.
From S2P Require Import Prelude GoMap GoStd Cone HeldSet.

Lemma zltb_weak : strict_weak Z.ltb.
Proof. split; [intros x; lia|intros x y z; lia|intros x y z; lia]. Qed.

Lemma elem_of_sorted l x : x ∈ sorted_rids l <-> x ∈ l.
Proof. unfold sorted_rids. by rewrite insertion_sort_perm. Qed.

(** Sorting rids that occur once. *)
Lemma sorted_ascending l : NoDup l -> ascending Z.ltb (sorted_rids l).
Proof.
  intros Hnd. unfold sorted_rids. assert (NoDup (insertion_sort Z.ltb l)) as Hn by by rewrite insertion_sort_perm.
  pose proof (insertion_sort_sorted Z.ltb l zltb_weak) as Hs. induction Hs as [|x k Hk IH Hf]; [constructor|].
  apply NoDup_cons in Hn as [Hx Hn]. constructor; [by apply IH|]. rewrite Forall_forall in *. intros y Hy. specialize (Hf y Hy).
  assert (x <> y) by (intros ->; done). lia.
Qed.

Lemma sorted_same l k : NoDup l -> Permutation l k -> sorted_rids l = sorted_rids k.
Proof.
  intros Hnd Hp. apply (ascending_unique Z.ltb); [apply zltb_weak|apply sorted_ascending; by rewrite <- Hp|by apply insertion_sort_sorted, zltb_weak|].
  unfold sorted_rids. by rewrite !insertion_sort_perm.
Qed.

(** ** Walks *)
Section Walk.
Context (limit through : Z) (next : gmap Z (list Z)) (stop : gset Z).

(** One step of a walk: not past a stop, not beyond the bound. *)
Definition hop (a b : Z) : Prop := b ∈ adjacent next a /\ beyond through b = false /\ a ∉ stop.

(** Where a walk that began with [visits] and [out] stands. *)
Record walking (visits : Z) (out : gset Z) (start : Z) (queue : list Z) (w : Z * gset Z) : Prop := {
  wk_out : out ⊆ snd w;
  wk_start : start ∈ snd w;
  wk_from x : x ∈ snd w -> x ∈ out \/ rtc hop start x;
  wk_queue x : x ∈ queue -> rtc hop start x;
  wk_visits : fst w = visits + Z.of_nat (size (snd w)) - Z.of_nat (size out);
  wk_limit : fst w <= limit }.

Lemma visit_spec n w (U : gset Z) v0 : n ∉ snd w -> {[n]} ∪ snd w ⊆ U -> fst w = v0 + Z.of_nat (size (snd w)) -> fst w <= limit ->
  match visit limit n w with
  | Ok w' => w' = (fst w + 1, {[n]} ∪ snd w) /\ fst w' = v0 + Z.of_nat (size (snd w')) /\ fst w' <= limit
  | Err (ErrWalkBound l) => l = limit /\ limit < v0 + Z.of_nat (size U)
  | _ => False
  end.
Proof using.
  intros Hn HU Hv Hl. assert (size ({[n]} ∪ snd w) = S (size (snd w))) as Hs by (rewrite size_union, size_singleton by set_solver; done).
  unfold visit. destruct (Z.geb_spec (fst w) limit) as [Hg|Hg].
  - split; [done|]. pose proof (subseteq_size _ U HU). lia.
  - cbn [fst snd]. split; [done|]. rewrite Hs. lia.
Qed.

(** The answer of a walk whose visits stay in [U]. *)
Definition bounded {A} (r : hresult A) (need : Z) (Q : A -> Prop) : Prop :=
  match r with Ok a => Q a | Err (ErrWalkBound l) => l = limit /\ limit < need | _ => False end.

Lemma visit_next_spec visits out start cur (U : gset Z) ns queue w : walking visits out start queue w -> rtc hop start cur -> cur ∉ stop ->
  (forall n, n ∈ ns -> n ∈ adjacent next cur) -> (forall x, x ∈ out \/ rtc hop start x -> x ∈ U) ->
  bounded (visit_next limit through ns w queue) (visits + Z.of_nat (size U) - Z.of_nat (size out)) (fun r =>
    walking visits out start (snd r) (fst r) /\ snd w ⊆ snd (fst r) /\ (forall n, n ∈ ns -> beyond through n = false -> n ∈ snd (fst r))
    /\ (forall x, x ∈ queue -> x ∈ snd r) /\ (forall x, x ∈ snd (fst r) -> x ∈ snd w \/ x ∈ snd r)
    /\ Z.of_nat (length (snd r)) - fst (fst r) = Z.of_nat (length queue) - fst w).
Proof using.
  intros Hw Hcur Hstop Hns HU. revert queue w Hw. induction ns as [|n ns IH]; intros queue w Hw; cbn [visit_next].
  { split; [done|]. split; [done|]. split; [by intros n ?%elem_of_nil|]. split; [done|]. split; [by left|done]. }
  assert (forall n', n' ∈ ns -> n' ∈ adjacent next cur) as Hns' by (intros n' H; apply Hns; by right). specialize (IH Hns').
  destruct (bool_decide (n ∈ snd w) || beyond through n) eqn:E.
  - specialize (IH queue w Hw). unfold bounded in *. destruct (visit_next _ _ _ _ _) as [r|[]| |]; try done.
    destruct IH as (H1 & H2 & H3 & H4 & H5 & H6). split_and!; try done. intros n' [->|Hn']%elem_of_cons Hb; [|by apply H3].
    rewrite Hb, orb_false_r in E. apply bool_decide_eq_true in E. by apply H2.
  - apply orb_false_iff in E as [En Eb]. apply bool_decide_eq_false in En.
    assert (rtc hop start n) as Hn by (eapply rtc_r; [exact Hcur|]; split_and!; [apply Hns; by left|done|done]).
    assert ({[n]} ∪ snd w ⊆ U) as HU'.
    { intros x [->%elem_of_singleton|Hx]%elem_of_union; apply HU; [by right|by apply (wk_from _ _ _ _ _ Hw)]. }
    pose proof (visit_spec n w U (visits - Z.of_nat (size out)) En HU' ltac:(rewrite (wk_visits _ _ _ _ _ Hw); lia) (wk_limit _ _ _ _ _ Hw)) as Hv.
    unfold bounded in *. destruct (visit limit n w) as [w'|[]| |]; try done; cbn [obind].
    2:{ destruct Hv. split; [done|lia]. }
    destruct Hv as (Hw' & Hv & Hl). assert (walking visits out start (queue ++ [n]) w') as Hwk.
    { destruct Hw as [H1 H2 H3 H4 H5 H6]. rewrite Hw' in *. cbn [fst snd] in *. split; cbn [fst snd]; [set_solver|set_solver| | |lia|lia].
      - intros x [->%elem_of_singleton|Hx]%elem_of_union; [by right|by apply H3].
      - intros x [Hx| ->%list_elem_of_singleton]%elem_of_app; [by apply H4|done]. }
    specialize (IH (queue ++ [n]) w' Hwk). destruct (visit_next _ _ _ _ _) as [r|[]| |]; try done.
    destruct IH as (H1 & H2 & H3 & H4 & H5 & H6). assert (snd w' = {[n]} ∪ snd w) as Ew by by rewrite Hw'.
    split_and!; try done.
    + rewrite Ew in H2. set_solver.
    + intros n' [->|Hn']%elem_of_cons Hb; [|by apply H3]. apply H2. rewrite Ew. set_solver.
    + intros x Hx. apply H4, elem_of_app. by left.
    + intros x Hx. destruct (H5 x Hx) as [Hx'|]; [|by right]. rewrite Ew in Hx'. apply elem_of_union in Hx' as [->%elem_of_singleton|]; [|by left].
      right. apply H4, elem_of_app. right. by left.
    + rewrite length_app in H6. cbn [length] in H6. rewrite Hw' in H6. cbn [fst] in H6. lia.
Qed.

Lemma run_loop_spec fuel visits out start (U : gset Z) queue w : walking visits out start queue w ->
  (forall x, x ∈ out \/ rtc hop start x -> x ∈ U) -> (forall a b, a ∈ snd w -> a ∉ queue -> hop a b -> b ∈ snd w) ->
  Z.of_nat (length queue) + limit - fst w <= Z.of_nat fuel ->
  bounded (run_loop fuel limit through next stop queue w) (visits + Z.of_nat (size U) - Z.of_nat (size out)) (fun w' =>
    walking visits out start [] w' /\ forall a b, a ∈ snd w' -> hop a b -> b ∈ snd w').
Proof using.
  intros Hw HU. revert queue w Hw. induction fuel as [|fuel IH]; intros queue w Hw Hdone Hf.
  { destruct queue as [|cur queue]; cbn [run_loop]; [split; [done|]; intros a b Ha; apply Hdone; [done|by intros ?%elem_of_nil]|].
    pose proof (wk_limit _ _ _ _ _ Hw). cbn [length] in Hf. lia. }
  destruct queue as [|cur queue]; cbn [run_loop].
  { split; [done|]. intros a b Ha. apply Hdone; [done|by intros ?%elem_of_nil]. }
  assert (rtc hop start cur) as Hcur by (apply (wk_queue _ _ _ _ _ Hw); by left).
  assert (walking visits out start queue w) as Hw'.
  { destruct Hw as [H1 H2 H3 H4 H5 H6]. split; try done. intros x Hx. apply H4. by right. }
  cbn [length] in Hf. destruct (bool_decide (cur ∈ stop)) eqn:Es.
  - apply bool_decide_eq_true in Es. apply IH; [done| |lia]. intros a b Ha Hq Hab. destruct (decide (a = cur)) as [->|Hne]; [by destruct Hab as (_ & _ & ?)|].
    apply (Hdone a b Ha); [|done]. intros [->|]%elem_of_cons; done.
  - apply bool_decide_eq_false in Es. pose proof (visit_next_spec visits out start cur U (adjacent next cur) queue w Hw' Hcur Es (fun n H => H) HU) as Hn.
    destruct (visit_next _ _ _ _ _) as [[w1 queue1]|[]| |]; try done. cbn [obind fst snd bounded] in *.
    destruct Hn as (H1 & H2 & H3 & H4 & H5 & H6). apply IH; [done| |lia]. intros a b Ha Hq Hab.
    destruct (H5 a Ha) as [Ha'|]; [|done]. destruct (decide (a = cur)) as [->|Hne].
    + destruct Hab as (Hb & Hbe & _). by apply H3.
    + apply H2. apply (Hdone a b Ha'); [|done]. intros [->|Hin]%elem_of_cons; [done|]. by apply Hq, H4.
Qed.

Lemma run_spec start visits out (U : gset Z) : (forall a b, a ∈ out -> hop a b -> b ∈ out) -> (forall x, x ∈ out \/ rtc hop start x -> x ∈ U) -> visits <= limit ->
  bounded (run limit through start next stop visits out) (visits + Z.of_nat (size U) - Z.of_nat (size out)) (fun w =>
    (forall x, x ∈ snd w <-> x ∈ out \/ rtc hop start x) /\ fst w = visits + Z.of_nat (size (snd w)) - Z.of_nat (size out) /\ fst w <= limit).
Proof using.
  intros Hout HU Hl. unfold run. assert (forall o : gset Z, (forall a b, a ∈ o -> hop a b -> b ∈ o) -> forall x y, rtc hop x y -> x ∈ o -> y ∈ o) as Hcl.
  { intros o Ho x y Hxy. induction Hxy as [|x y z Hxy _ IH]; [done|]. intros Hx. apply IH. by apply (Ho x). }
  destruct (bool_decide (start ∈ out)) eqn:Es.
  { apply bool_decide_eq_true in Es. cbn [bounded fst snd]. split; [|lia]. intros x. split; [by left|]. intros [|Hx]; [done|]. by apply (Hcl out Hout start x). }
  apply bool_decide_eq_false in Es. assert ({[start]} ∪ out ⊆ U) as HU'.
  { intros x [->%elem_of_singleton|Hx]%elem_of_union; apply HU; [by right|by left]. }
  assert (fst (visits, out) = visits - Z.of_nat (size out) + Z.of_nat (size (snd (visits, out)))) as Hv0 by (cbn [fst snd]; lia).
  pose proof (visit_spec start (visits, out) U _ Es HU' Hv0 Hl) as Hv.
  destruct (visit limit start (visits, out)) as [w|[]| |]; try done; cbn [obind bounded].
  2:{ destruct Hv. split; [done|lia]. }
  destruct Hv as (-> & Hv & Hl'). cbn [fst snd] in *.
  pose proof (run_loop_spec (Z.to_nat (limit - visits)) visits out start U [start] (visits + 1, {[start]} ∪ out)) as Hr.
  assert (walking visits out start [start] (visits + 1, {[start]} ∪ out)) as Hw.
  { split; cbn [fst snd]; [set_solver|set_solver| | |lia|lia].
    - intros x [->%elem_of_singleton|Hx]%elem_of_union; [by right|by left].
    - intros x ->%list_elem_of_singleton. done. }
  specialize (Hr Hw HU). assert (forall a b, a ∈ {[start]} ∪ out -> a ∉ [start] -> hop a b -> b ∈ {[start]} ∪ out) as Hdone.
  { intros a b [->%elem_of_singleton|Ha]%elem_of_union Hq Hab; [destruct Hq; by left|]. apply elem_of_union; right; by apply (Hout a b). }
  specialize (Hr Hdone ltac:(cbn [length fst]; lia)). unfold bounded in *. destruct (run_loop _ _ _ _ _ _ _) as [w|[]| |]; try done.
  destruct Hr as [[H1 H2 H3 H4 H5 H6] Hclosed]. split; [|lia]. intros x. split; [by apply H3|]. intros [Hx|Hx]; [by apply H1|]. by apply (Hcl _ Hclosed start x).
Qed.
End Walk.

(** ** The draft's rules, over the links [L] between the check-ins [V] *)
Definition meets (L : Z -> Z -> Prop) (c leaf m : Z) : Prop := rtc (fun a b => L b a /\ ~ rtc L a c) leaf m /\ rtc L m c.

(** A childless check-in that neither descends from [c] nor is an ancestor. *)
Definition stray (L : Z -> Z -> Prop) (V : Z -> Prop) (c leaf : Z) : Prop :=
  V leaf /\ (forall y, ~ L leaf y) /\ ~ rtc L c leaf /\ ~ rtc L leaf c.

Definition keeps (L : Z -> Z -> Prop) (V : Z -> Prop) (c : Z) (rule : byte) (x : Z) : Prop :=
  rtc L c x \/ rule = RuleLeaves /\ exists leaf m, stray L V c leaf /\ meets L c leaf m /\ rtc L m x.

Lemma rtc_flip {A} (R : A -> A -> Prop) x y : rtc (fun a b => R b a) x y <-> rtc R y x.
Proof.
  split; induction 1 as [|a b z Hab _ IH]; try done; by eapply rtc_r.
Qed.

Lemma rtc_under {A} (P : A -> Prop) (R Q : A -> A -> Prop) x y : (forall a b, P a -> R a b -> Q a b /\ P b) -> P x -> rtc R x y -> rtc Q x y.
Proof. intros H Hx Hp. induction Hp as [|a b z Hab _ IH]; [done|]. destruct (H a b Hx Hab) as [HQ Hb]. eapply rtc_l; [exact HQ|by apply IH]. Qed.

Lemma keeps_ext L L' V V' c rule x : (forall a b, L a b <-> L' a b) -> (forall a, V a <-> V' a) -> keeps L V c rule x -> keeps L' V' c rule x.
Proof.
  intros HL HV. assert (forall a b, rtc L a b <-> rtc L' a b) as Hr by (intros a b; split; apply (rtc_under (fun _ => True)); naive_solver).
  assert (forall leaf m, rtc (fun a b => L b a /\ ~ rtc L a c) leaf m -> rtc (fun a b => L' b a /\ ~ rtc L' a c) leaf m) as Hm.
  { intros leaf m. apply (rtc_under (fun _ => True)); [|done]. intros a b _ [H1 H2]. split; [|done]. by rewrite <- HL, <- Hr. }
  intros [H|(-> & leaf & m & (H1 & H2 & H3 & H4) & [H5 H6] & H7)]; [left; by apply Hr|right]. split; [done|]. exists leaf, m. unfold stray, meets.
  rewrite <- !Hr, <- HV. split_and!; try done; [|by apply Hm]. intros y Hy. by apply (H2 y), HL.
Qed.

Section Hold.
Context `{TO : !TableOrder} (limit t : Z) (g : Graph).

Definition walk_link (p c : Z) : Prop := c ∈ adjacent (children g) p /\ beyond t p = false /\ beyond t c = false.
Definition listed (x : Z) : Prop := x ∈ checkins g /\ beyond t x = false.

(** The links both ways, between check-ins listed in order. *)
Record graph_ok : Prop := {
  go_parents p c : c ∈ adjacent (children g) p <-> p ∈ adjacent (parents g) c;
  go_ends p c : c ∈ adjacent (children g) p -> p ∈ checkins g /\ c ∈ checkins g;
  go_order : ascending Z.ltb (checkins g) }.
Context (Hg : graph_ok).

Let U : gset Z := list_to_set (checkins g).

Lemma hop_down s x : beyond t s = false -> rtc (hop t (children g) ∅) s x <-> rtc walk_link s x.
Proof using.
  intros Hs. split; apply (rtc_under (fun a => beyond t a = false)); try done; unfold hop, walk_link; clear Hg; [naive_solver|set_solver].
Qed.

Lemma hop_up stop s x : beyond t s = false -> rtc (hop t (parents g) stop) s x <-> rtc (fun a b => walk_link b a /\ a ∉ stop) s x.
Proof using Hg.
  intros Hs. split; apply (rtc_under (fun a => beyond t a = false)); try done; unfold hop, walk_link; intros a b Ha; rewrite (go_parents Hg); naive_solver.
Qed.

Lemma hop_up_all s x : beyond t s = false -> rtc (hop t (parents g) ∅) s x <-> rtc walk_link x s.
Proof using Hg.
  intros Hs. rewrite hop_up, <- (rtc_flip walk_link) by done. split; apply (rtc_under (fun _ => True)); try done; intros a b _; clear; set_solver.
Qed.

Lemma in_U p c : c ∈ adjacent (children g) p -> p ∈ U /\ c ∈ U.
Proof using Hg. unfold U. rewrite !elem_of_list_to_set. apply (go_ends Hg). Qed.

Lemma down_U s x : s ∈ U -> rtc (hop t (children g) ∅) s x -> x ∈ U.
Proof using Hg. intros Hs Hp. induction Hp as [|a b z (Hab & _) _ IH]; [done|]. by apply IH, (in_U a b). Qed.

Lemma up_U stop s x : s ∈ U -> rtc (hop t (parents g) stop) s x -> x ∈ U.
Proof using Hg. intros Hs Hp. induction Hp as [|a b z (Hab & _) _ IH]; [done|]. apply IH. apply (go_parents Hg) in Hab. by apply (in_U b a). Qed.

Lemma hasChild_spec leaf : beyond t leaf = false -> hasChild t g leaf = true <-> exists y, walk_link leaf y.
Proof using.
  intros Hl. unfold hasChild. rewrite existsb_exists. split.
  - intros (y & Hy%list_elem_of_In & Hb%negb_true_iff). by exists y.
  - intros (y & Hy & _ & Hb). exists y. split; [by apply list_elem_of_In|by apply negb_true_iff].
Qed.

(** The meetings the leaves add. *)
Lemma leaf_meetings_spec c (descendants ancestors : gset Z) leaves visits meetings : beyond t c = false ->
  (forall x, x ∈ descendants <-> rtc walk_link c x) -> (forall x, x ∈ ancestors <-> rtc walk_link x c) ->
  ascending Z.ltb leaves -> (forall x, x ∈ leaves -> x ∈ checkins g) -> visits <= limit ->
  bounded limit (leaf_meetings limit t g descendants ancestors leaves visits meetings) (visits + len leaves * Z.of_nat (size U)) (fun r =>
    fst r <= limit /\ fst r <= visits + len leaves * Z.of_nat (size U)
    /\ forall m, m ∈ snd r <-> m ∈ meetings \/ exists leaf, leaf ∈ leaves /\ stray walk_link listed c leaf /\ meets walk_link c leaf m).
Proof using Hg.
  intros Hc Hdesc Hanc. revert visits meetings. induction leaves as [|leaf leaves IH]; intros visits meetings Hord Hin Hl; cbn [leaf_meetings].
  { split; [done|]. split; [cbn [fst]; change (len (@nil Z)) with 0; lia|]. intros m. cbn [snd]. split; [by left|]. by intros [?|(? & ?%elem_of_nil & _)]. }
  rewrite len_cons. assert (0 <= len leaves) by (unfold len; lia). inversion Hord as [|? ? Hord' Hlt]; subst.
  destruct (beyond t leaf) eqn:Eb.
  { split; [done|]. split; [cbn [fst]; nia|]. intros m. cbn [snd]. split; [by left|]. intros [?|(leaf' & Hleaf' & ((_ & Hb) & _) & _)]; [done|exfalso].
    assert (leaf <= leaf') as Hle. { apply elem_of_cons in Hleaf' as [->|Hleaf']; [done|]. rewrite Forall_forall in Hlt. specialize (Hlt _ Hleaf'). lia. }
    unfold beyond in *. lia. }
  assert (forall x, x ∈ leaves -> x ∈ checkins g) as Hin' by (intros x Hx; apply Hin; by right).
  assert (hasChild t g leaf || bool_decide (leaf ∈ descendants) || bool_decide (leaf ∈ ancestors) = false <-> stray walk_link listed c leaf) as Hstray.
  { unfold stray, listed. rewrite !orb_false_iff, !bool_decide_eq_false, Hdesc, Hanc. split.
    - intros [[Hch Hd] Ha]. split_and!; [apply Hin; by left|done| |done|done]. intros y Hy.
      rewrite (proj2 (hasChild_spec leaf Eb) ltac:(by exists y)) in Hch. done.
    - intros (_ & Hch & Hd & Ha). split_and!; [|done|done]. destruct (hasChild t g leaf) eqn:E; [|done]. apply hasChild_spec in E as [y Hy]; [|done]. by destruct (Hch y). }
  destruct (_ || _) eqn:E.
  - specialize (IH visits meetings Hord' Hin' Hl). unfold bounded in *. destruct (leaf_meetings _ _ _ _ _ _ _ _) as [r|[]| |]; try done; [|destruct IH; split; [done|nia]].
    destruct IH as (H1 & H2 & H3). split_and!; [done|nia|]. intros m. rewrite H3. split; [intros [?|(leaf' & ? & ?)]; [by left|right; exists leaf'; split; [by right|done]]|].
    intros [?|(leaf' & [->|Hl']%elem_of_cons & Hs & ?)]; [by left| |right; by exists leaf']. apply Hstray in Hs. congruence.
  - assert (stray walk_link listed c leaf) as Hs by by apply Hstray.
    assert (leaf ∈ U) as HleafU by (unfold U; apply elem_of_list_to_set, Hin; by left).
    pose proof (run_spec limit t (parents g) ancestors leaf visits ∅ U ltac:(set_solver) ltac:(intros x [?|Hx]; [set_solver|by eapply up_U]) Hl) as Hrun.
    unfold bounded in *. rewrite size_empty in Hrun. destruct (run _ _ _ _ _ _ _) as [[v seen]|[]| |]; try done; cbn [obind]; [|destruct Hrun; split; [done|nia]].
    cbn [fst snd] in Hrun. destruct Hrun as (Hseen & Hv & Hvl). set (ms := List.filter _ _).
    assert (forall m, m ∈ ms <-> meets walk_link c leaf m) as Hms.
    { intros m. unfold ms, meets. rewrite list_elem_of_In, filter_In, <- list_elem_of_In, table_order_perm, elem_of_elements, bool_decide_eq_true, Hseen, Hanc, hop_up by done.
      assert (rtc (fun a b => walk_link b a /\ (a ∉ ancestors)) leaf m <-> rtc (fun a b => walk_link b a /\ ~ rtc walk_link a c) leaf m) as ->; [|set_solver].
      split; apply (rtc_under (fun _ => True)); try done; intros a b _; rewrite Hanc; naive_solver. }
    assert (v <= visits + Z.of_nat (size U)) as Hv'.
    { assert (seen ⊆ U) as Hsub%subseteq_size; [|lia]. intros x [?|Hx]%Hseen; [set_solver|by eapply up_U]. }
    specialize (IH v (meetings ++ ms) Hord' Hin' Hvl). destruct (leaf_meetings _ _ _ _ _ _ _ _) as [r|[]| |]; try done; [|destruct IH; split; [done|nia]].
    destruct IH as (H1 & H2 & H3). split_and!; [done|nia|]. intros m. rewrite H3, elem_of_app, Hms. split.
    + intros [[?|?]|(leaf' & ? & ?)]; [by left|right; exists leaf; split; [by left|done]|right; exists leaf'; split; [by right|done]].
    + intros [?|(leaf' & [->|?]%elem_of_cons & ? & ?)]; [by left; left|by left; right|right; by exists leaf'].
Qed.

Lemma run_all_spec starts visits (k : gset Z) : k ⊆ U -> (forall a b, a ∈ k -> walk_link a b -> b ∈ k) -> (forall a, a ∈ k -> beyond t a = false) ->
  (forall m, m ∈ starts -> m ∈ U /\ beyond t m = false) -> visits <= limit ->
  bounded limit (run_all limit t (children g) starts (visits, k)) (visits + Z.of_nat (size U) - Z.of_nat (size k)) (fun w =>
    forall x, x ∈ snd w <-> x ∈ k \/ exists m, m ∈ starts /\ rtc walk_link m x).
Proof using Hg.
  revert visits k. induction starts as [|m starts IH]; intros visits k HkU Hk Hkb Hst Hl; cbn [run_all].
  { intros x. split; [by left|]. by intros [?|(? & ?%elem_of_nil & _)]. }
  destruct (Hst m ltac:(by left)) as [HmU Hm].
  pose proof (run_spec limit t (children g) ∅ m visits k U) as Hrun. cbn [fst snd].
  specialize (Hrun ltac:(intros a b Ha (H1 & H2 & _); apply (Hk a b Ha); split_and!; [done|by apply Hkb|done])).
  specialize (Hrun ltac:(intros x [Hx|Hx]; [by apply HkU|by eapply down_U]) Hl). unfold bounded in *.
  destruct (run _ _ _ _ _ _ _) as [[v k']|[]| |]; try done; cbn [obind]. cbn [fst snd] in *. destruct Hrun as (Hk' & Hv & Hvl).
  assert (forall x, x ∈ k' <-> x ∈ k \/ rtc walk_link m x) as Hk1 by (intros x; by rewrite Hk', hop_down).
  specialize (IH v k'). assert (k' ⊆ U) as Hk'U by (intros x [?|Hx]%Hk'; [by apply HkU|by eapply down_U]).
  assert (forall a b, a ∈ k' -> walk_link a b -> b ∈ k') as Hk'cl.
  { intros a b [Ha|Ha]%Hk1 Hab; apply Hk1; [left; by apply (Hk a b)|right]. by eapply rtc_r. }
  assert (forall a, a ∈ k' -> beyond t a = false) as Hk'b.
  { intros a [Ha|Ha]%Hk1; [by apply Hkb|]. destruct (rtc_inv_r _ _ Ha) as [<-|(b & _ & _ & _ & Hb)]; done. }
  specialize (IH Hk'U Hk'cl Hk'b ltac:(intros x Hx; apply Hst; by right) Hvl).
  pose proof (subseteq_size _ _ HkU). destruct (run_all _ _ _ _ _) as [w|[]| |]; try done; [|destruct IH; split; [done|lia]].
  intros x. rewrite IH, Hk1. split.
  - intros [[?|?]|(m' & ? & ?)]; [by left|right; exists m; split; [by left|done]|right; exists m'; split; [by right|done]].
  - intros [?|(m' & [->|?]%elem_of_cons & ?)]; [by left; left|by left; right|right; by exists m'].
Qed.

Lemma hold_spec c rule : c ∈ checkins g -> beyond t c = false -> 0 <= limit ->
  bounded limit (hold limit t g c rule) (len (checkins g) * (len (checkins g) + 2)) (fun k =>
    forall x, x ∈ k <-> keeps walk_link listed c rule x).
Proof using Hg.
  intros HcV Hc Hl. set (N := len (checkins g)). assert (Z.of_nat (size U) <= N) as HUN.
  { unfold N, U, len. clear. induction (checkins g) as [|x l IH]; cbn [list_to_set length]; [by rewrite size_empty|].
    rewrite size_union_alt, size_singleton. pose proof (subseteq_size (list_to_set l ∖ {[x]} : gset Z) (list_to_set l) ltac:(set_solver)). unfold list_to_set in *. lia. }
  assert (c ∈ U) as HcU by (unfold U; by apply elem_of_list_to_set). assert (0 <= N) by (unfold N, len; lia).
  unfold hold. pose proof (run_spec limit t (children g) ∅ c 0 ∅ U ltac:(set_solver) ltac:(intros x [?|Hx]; [set_solver|by eapply down_U]) Hl) as Hrun.
  unfold bounded in *. rewrite size_empty in Hrun. destruct (run _ _ _ _ _ _ _) as [[v k]|[]| |]; try done; cbn [obind]; [|destruct Hrun; split; [done|nia]].
  cbn [fst snd] in Hrun. destruct Hrun as (Hk & Hv & Hvl).
  assert (forall x, x ∈ k <-> rtc walk_link c x) as Hk1 by (intros x; rewrite Hk, hop_down by done; set_solver).
  assert (k ⊆ U) as HkU by (intros x [?|Hx]%Hk; [set_solver|by eapply down_U]). pose proof (subseteq_size _ _ HkU).
  destruct (Byte.eqb rule RuleLeaves) eqn:Er.
  2:{ intros x. cbn [snd]. rewrite Hk1. unfold keeps. split; [by left|]. intros [?|(-> & _)]; done. }
  apply byte_eqb_eq in Er as ->. unfold addLeafMeetings.
  pose proof (run_spec limit t (parents g) ∅ c v ∅ U ltac:(set_solver) ltac:(intros x [?|Hx]; [set_solver|by eapply up_U]) Hvl) as Hrun.
  unfold bounded in *. rewrite size_empty in Hrun. destruct (run _ _ _ _ _ _ _) as [[v1 anc]|[]| |]; try done; cbn [obind]; [|destruct Hrun; split; [done|nia]].
  cbn [fst snd] in Hrun. destruct Hrun as (Ha & Hv1 & Hvl1).
  assert (forall x, x ∈ anc <-> rtc walk_link x c) as Ha1 by (intros x; rewrite Ha, hop_up_all by done; set_solver).
  assert (anc ⊆ U) as HaU%subseteq_size by (intros x [?|Hx]%Ha; [set_solver|by eapply up_U]).
  pose proof (leaf_meetings_spec c k anc (checkins g) v1 [] Hc Hk1 Ha1 (go_order Hg) (fun x Hx => Hx) Hvl1) as Hm. fold N in Hm. unfold bounded in Hm.
  destruct (leaf_meetings _ _ _ _ _ _ _ _) as [[v2 ms]|[]| |]; try done; cbn [obind fst snd] in *; [|destruct Hm; split; [done|nia]].
  destruct Hm as (Hvl2 & Hv2 & Hms). pose proof (run_all_spec (sorted_rids ms) v2 k HkU) as Hall.
  specialize (Hall ltac:(intros a b Hab Hl'; apply Hk1; eapply rtc_r; [by apply Hk1|done])).
  specialize (Hall ltac:(intros a Hka%Hk1; destruct (rtc_inv_r _ _ Hka) as [<-|(b & _ & _ & _ & Hb)]; done)).
  assert (forall m, m ∈ sorted_rids ms -> m ∈ U /\ beyond t m = false) as Hst.
  { intros m Hm. apply elem_of_sorted, Hms in Hm as [?%elem_of_nil|(leaf & _ & _ & _ & Hmc)]; [done|].
    inversion Hmc as [|a b z Hab _]; subst; [done|]. split; [by apply (in_U m b), Hab|apply Hab]. }
  specialize (Hall Hst Hvl2). unfold bounded in Hall. destruct (run_all _ _ _ _ _) as [w|[]| |]; try done; [|destruct Hall; split; [done|nia]].
  cbn [obind]. intros x. rewrite Hall, Hk1. unfold keeps. split.
  - intros [?|(m & Hm & Hx)]; [by left|right]. split; [done|]. apply elem_of_sorted, Hms in Hm as [?%elem_of_nil|(leaf & _ & Hs & Hm)]; [done|]. by exists leaf, m.
  - intros [?|(_ & leaf & m & Hs & Hm & Hx)]; [by left|right]. exists m. split; [|done]. apply elem_of_sorted, Hms. right. exists leaf. split; [apply Hs|done].
Qed.
End Hold.

(** ** Reading the graph *)
Lemma scan_checkins_spec limit rows acc : len acc <= limit ->
  scan_checkins limit rows acc = if len acc + len rows <=? limit then Ok (acc ++ rows) else Err (ErrWalkBound heldSetNodes).
Proof.
  revert acc. induction rows as [|rid rows IH]; intros acc Ha; cbn [scan_checkins].
  { rewrite (app_nil_r acc). change (len (@nil Z)) with 0. rewrite (proj2 (Z.leb_le _ _)) by lia. done. }
  rewrite len_cons. assert (0 <= len rows) by (unfold len; lia). destruct (Z.eqb_spec (len acc) limit) as [He|He].
  - rewrite (proj2 (Z.leb_gt _ _)) by lia. done.
  - rewrite IH by (rewrite len_app, len_cons; change (len (@nil Z)) with 0; lia). rewrite len_app, len_cons, <- app_assoc. change (len (@nil Z)) with 0.
    by replace (len acc + (1 + 0) + len rows) with (len acc + (1 + len rows)) by lia.
Qed.

(** A query limited to one row past the bound. *)
Lemma take_bound {A} limit (l : list A) : 0 <= limit -> if len l <=? limit then take (Z.to_nat (limit + 1)) l = l else len (take (Z.to_nat (limit + 1)) l) = limit + 1.
Proof.
  intros Hl. unfold len. destruct (Z.leb_spec (Z.of_nat (length l)) limit) as [H|H]; [apply take_ge; lia|]. rewrite length_take. lia.
Qed.

Lemma sorted_len l : len (sorted_rids l) = len l.
Proof. unfold len, sorted_rids. by rewrite insertion_sort_perm. Qed.

Lemma heldCheckins_spec rows limit : 0 <= limit ->
  heldCheckins rows limit = if len rows <=? limit then Ok (sorted_rids rows) else Err (ErrWalkBound heldSetNodes).
Proof.
  intros Hl. unfold heldCheckins. rewrite scan_checkins_spec by (change (len (@nil Z)) with 0; lia). change (len (@nil Z)) with 0.
  pose proof (take_bound limit (sorted_rids rows) Hl) as H. rewrite sorted_len in H. destruct (len rows <=? limit) eqn:E.
  - rewrite H, sorted_len. by rewrite Z.add_0_l, E.
  - rewrite H. by rewrite (proj2 (Z.leb_gt _ _)) by lia.
Qed.

Lemma add_checkin_fold rids h fresh : NoDup rids -> foldl add_checkin (h, fresh) rids =
  (list_to_set rids ∪ h, fresh ++ List.filter (fun r => negb (bool_decide (r ∈ h))) rids).
Proof.
  revert h fresh. induction rids as [|r rids IH]; intros h fresh Hnd; cbn [foldl List.filter list_to_set].
  { rewrite (app_nil_r fresh). f_equal. set_solver. }
  apply NoDup_cons in Hnd as [Hr Hnd]. unfold add_checkin at 2. cbn [fst snd]. case_bool_decide as Hh; cbn [negb]; rewrite IH by done.
  - f_equal. set_solver.
  - f_equal; [set_solver|]. rewrite <- app_assoc. cbn [app]. do 2 f_equal. apply List.filter_ext_in. intros x Hx%list_elem_of_In. f_equal.
    apply bool_decide_ext. rewrite elem_of_union, elem_of_singleton. split; [intros [->|]; done|by right].
Qed.

Lemma addCheckins_spec rids g : NoDup rids -> ascending Z.ltb (checkins g) -> (forall x, x ∈ held g <-> x ∈ checkins g) -> let g' := addCheckins rids g in
  ascending Z.ltb (checkins g') /\ (forall x, x ∈ checkins g' <-> x ∈ checkins g \/ x ∈ rids) /\ (forall x, x ∈ held g' <-> x ∈ checkins g')
  /\ children g' = children g /\ parents g' = parents g /\ edges g' = edges g.
Proof.
  intros Hnd Hord Hheld. unfold addCheckins. rewrite add_checkin_fold by done. cbn [app]. set (fresh := List.filter _ rids). cbv zeta. cbn [checkins held children parents edges].
  assert (forall x, x ∈ fresh <-> x ∈ rids /\ x ∉ held g) as Hfresh.
  { intros x. unfold fresh. rewrite !list_elem_of_In, filter_In, negb_true_iff, bool_decide_eq_false. done. }
  assert (NoDup (checkins g)) as Hc.
  { clear -Hord. induction Hord as [|x l Hl IH Hf]; [constructor|]. constructor; [|done]. intros Hx. rewrite Forall_forall in Hf. specialize (Hf x Hx). lia. }
  set (c := if 0 <? len fresh then _ else _). assert (ascending Z.ltb c /\ forall x, x ∈ c <-> x ∈ checkins g \/ x ∈ fresh) as [Hasc Hin].
  { unfold c. destruct (Z.ltb_spec 0 (len fresh)) as [Hf|Hf].
    - split; [|intros x; by rewrite elem_of_sorted, elem_of_app]. apply sorted_ascending, NoDup_app. split; [done|]. split.
      + intros x Hx [_ H]%Hfresh. by apply H, Hheld.
      + by apply NoDup_ListNoDup, List.NoDup_filter, NoDup_ListNoDup.
    - assert (fresh = []) as -> by (apply len_zero; unfold len in *; lia). split; [done|]. intros x. rewrite elem_of_nil. naive_solver. }
  split; [done|]. assert (forall x, x ∈ c <-> x ∈ checkins g \/ x ∈ rids) as Hin'.
  { intros x. rewrite Hin, Hfresh, Hheld. destruct (decide (x ∈ checkins g)); naive_solver. }
  split; [done|]. split; [|done]. intros x. rewrite Hin', elem_of_union, elem_of_list_to_set, Hheld. naive_solver.
Qed.

Lemma adjacent_insert (m : gmap Z (list Z)) a b x y : x ∈ adjacent (<[a := adjacent m a ++ [b]]> m) y <-> x ∈ adjacent m y \/ y = a /\ x = b.
Proof.
  unfold adjacent at 1. destruct (decide (y = a)) as [->|Hne].
  - rewrite lookup_insert_eq. cbn [default from_option id]. rewrite elem_of_app, list_elem_of_singleton. naive_solver.
  - rewrite lookup_insert_ne by done. naive_solver.
Qed.

(** The edges a graph gains. *)
Definition gains (rows : list (Z * Z)) (g g' : Graph) : Prop :=
  (forall p c, c ∈ adjacent (children g') p <-> c ∈ adjacent (children g) p \/ (p, c) ∈ rows)
  /\ (forall p c, p ∈ adjacent (parents g') c <-> p ∈ adjacent (parents g) c \/ (p, c) ∈ rows)
  /\ checkins g' = checkins g /\ held g' = held g /\ edges g' = edges g + len rows.

Lemma edge_loop_spec limit read rows seen g : NoDup rows -> (forall s e, seen = Some s -> e ∈ rows -> e ∉ s) -> read <= limit ->
  if read + len rows <=? limit then exists g', edge_loop limit read rows seen g = Ok g' /\ gains rows g g' else edge_loop limit read rows seen g = Err (ErrWalkBound heldSetNodes).
Proof.
  revert read seen g. induction rows as [|[p c] rows IH]; intros read seen g Hnd Hseen Hr; cbn [edge_loop].
  { change (len (@nil (Z * Z))) with 0. rewrite (proj2 (Z.leb_le _ _)) by lia. exists g. split; [done|]. split_and!; try done; [| |change (len (@nil (Z * Z))) with 0; lia]; intros a b; rewrite elem_of_nil; naive_solver. }
  rewrite len_cons. assert (0 <= len rows) by (unfold len; lia). apply NoDup_cons in Hnd as [Hx Hnd]. rewrite Z.gtb_ltb. destruct (Z.ltb_spec limit (read + 1)) as [Hl|Hl].
  { rewrite (proj2 (Z.leb_gt _ _)) by lia. done. }
  assert (forall seen', (forall s e, seen' = Some s -> e ∈ rows -> e ∉ s) ->
    if read + (1 + len rows) <=? limit then exists g', edge_loop limit (read + 1) rows seen' (add_edge (p, c) g) = Ok g' /\ gains ((p, c) :: rows) g g'
    else edge_loop limit (read + 1) rows seen' (add_edge (p, c) g) = Err (ErrWalkBound heldSetNodes)) as Hgo.
  { intros seen' Hs. specialize (IH (read + 1) seen' (add_edge (p, c) g) Hnd Hs Hl). replace (read + (1 + len rows)) with (read + 1 + len rows) by lia.
    destruct (_ <=? _); [|done]. destruct IH as (g' & He & Hch & Hpa & Hck & Hhe & Hed). exists g'. split; [done|].
    unfold add_edge in *. cbn [children parents checkins held edges fst snd] in *. split_and!; try done; [| |rewrite len_cons; lia];
      intros a b; rewrite ?Hch, ?Hpa, adjacent_insert, elem_of_cons; naive_solver. }
  destruct seen as [s|].
  - rewrite bool_decide_eq_false_2 by (apply (Hseen s); [done|by left]). apply Hgo. intros s' e [= <-] He. rewrite elem_of_union, elem_of_singleton.
    intros [->|Hs]; [done|]. by apply (Hseen s e) in Hs; [|done|right].
  - by apply Hgo.
Qed.

Lemma filter_NoDup {A} (f : A -> bool) l : NoDup l -> NoDup (List.filter f l).
Proof. intros H. by apply NoDup_ListNoDup, List.NoDup_filter, NoDup_ListNoDup. Qed.

Lemma elem_of_filter_list {A} (f : A -> bool) l x : x ∈ List.filter f l <-> x ∈ l /\ f x = true.
Proof. by rewrite !list_elem_of_In, filter_In. Qed.

(** ** The graph of a store *)
Section Stored.
Context `{TO : !TableOrder}.

(** plink's rows are unique. *)
Definition rows_unique (s : hstore) : Prop := NoDup (plink_rows s).

(** A graph read at the store [s]. *)
Record reads (s : hstore) (g : Graph) : Prop := {
  rd_checkins x : x ∈ checkins g <-> heldCheckin s x = true;
  rd_held x : x ∈ held g <-> x ∈ checkins g;
  rd_order : ascending Z.ltb (checkins g);
  rd_children p c : c ∈ adjacent (children g) p <-> (p, c) ∈ held_rows s;
  rd_parents p c : p ∈ adjacent (parents g) c <-> (p, c) ∈ held_rows s;
  rd_edges : edges g = len (held_rows s) }.

Lemma elem_of_held_events s x : x ∈ held_events s <-> heldCheckin s x = true.
Proof using.
  unfold held_events. rewrite elem_of_filter_list, list_elem_of_fmap. split; [by intros [_ H]|]. intros H. split; [|done].
  unfold heldCheckin in H. destruct (event_type s !! x) as [ty|] eqn:E; [|done]. exists (x, ty). by rewrite elem_of_map_to_list.
Qed.

Lemma held_events_NoDup s : NoDup (held_events s).
Proof using. apply filter_NoDup, NoDup_fst_map_to_list. Qed.

Lemma elem_of_held_rows s p c : (p, c) ∈ held_rows s <-> (p, c) ∈ plink_rows s /\ heldCheckin s p = true /\ heldCheckin s c = true.
Proof using. unfold held_rows. by rewrite elem_of_filter_list, andb_true_iff. Qed.

Lemma reads_ok s g : reads s g -> graph_ok g.
Proof using.
  intros Hr. split; [|intros p c H|apply (rd_order s g Hr)].
  - intros p c. by rewrite (rd_children s g Hr), (rd_parents s g Hr).
  - apply (rd_children s g Hr), elem_of_held_rows in H as (_ & H1 & H2). by rewrite !(rd_checkins s g Hr).
Qed.

Lemma ascending_NoDup l : ascending Z.ltb l -> NoDup l.
Proof using. induction 1 as [|x l Hl IH Hf]; [constructor|]. constructor; [|done]. intros Hx. rewrite Forall_forall in Hf. specialize (Hf x Hx). lia. Qed.

Lemma rids_ext l k : ascending Z.ltb l -> ascending Z.ltb k -> (forall x, x ∈ l <-> x ∈ k) -> l = k.
Proof using.
  intros Hl Hk H. apply (ascending_unique Z.ltb); [apply zltb_weak|done| |apply NoDup_Permutation; [by apply ascending_NoDup..|done]].
  clear H. induction Hl as [|x l Hl IH Hf]; [constructor|]. constructor; [apply IH|]. eapply Forall_impl; [exact Hf|]. cbn. lia.
Qed.

Lemma reads_checkins s g : reads s g -> checkins g = sorted_rids (held_events s).
Proof using.
  intros Hr. apply rids_ext; [apply (rd_order s g Hr)|apply sorted_ascending, held_events_NoDup|].
  intros x. by rewrite (rd_checkins s g Hr), elem_of_sorted, elem_of_held_events.
Qed.

Lemma addEdges_spec rows limit seen g : NoDup rows -> (forall s e, seen = Some s -> e ∉ s) -> 0 <= limit ->
  if len rows <=? limit then exists g', addEdges rows limit seen g = Ok g' /\ gains rows g g' else addEdges rows limit seen g = Err (ErrWalkBound heldSetNodes).
Proof using.
  intros Hnd Hseen Hl. unfold addEdges. assert (Permutation (table_order rows) rows) as Hp by apply table_order_perm.
  assert (len (table_order rows) = len rows) as Hlen by (unfold len; by rewrite Hp).
  set (k := take _ _). assert (NoDup k) as Hk.
  { pose proof Hnd as Hn. rewrite <- Hp, <- (take_drop (Z.to_nat (limit + 1)) (table_order rows)) in Hn. by apply NoDup_app in Hn as [Hn _]. }
  pose proof (edge_loop_spec limit 0 k seen g Hk (fun s e Hs _ => Hseen s e Hs) Hl) as He. rewrite Z.add_0_l in He.
  pose proof (take_bound limit (table_order rows) Hl) as Ht. fold k in Ht. rewrite Hlen in Ht. destruct (len rows <=? limit) eqn:E.
  - rewrite Ht, Hlen, E in He. destruct He as (g' & Hg & H1 & H2 & H3 & H4 & H5). exists g'. rewrite Ht. split; [done|].
    split_and!; try done; [intros p c; by rewrite H1, Hp|intros p c; by rewrite H2, Hp|by rewrite H5, Hlen].
  - rewrite Ht in He. by rewrite (proj2 (Z.leb_gt _ _)) in He by lia.
Qed.

Lemma held_rows_NoDup s : rows_unique s -> NoDup (held_rows s).
Proof using. apply filter_NoDup. Qed.

Lemma loadGraph_spec s limit : rows_unique s -> 0 <= limit ->
  if (len (held_events s) <=? limit) && (len (held_rows s) <=? limit) then exists g, loadGraph s limit = Ok g /\ reads s g
  else loadGraph s limit = Err (ErrWalkBound heldSetNodes).
Proof using.
  intros Hu Hl. unfold loadGraph. rewrite heldCheckins_spec by done. destruct (len (held_events s) <=? limit); cbn [obind andb]; [|done].
  set (g0 := addCheckins _ _). assert (NoDup (sorted_rids (held_events s))) as Hnd by (unfold sorted_rids; rewrite insertion_sort_perm; apply held_events_NoDup).
  destruct (addCheckins_spec (sorted_rids (held_events s)) (mk_Graph ∅ ∅ [] ∅ 0) Hnd) as (H1 & H2 & H3 & H4 & H5 & H6); [constructor|intros x; cbn; set_solver|].
  fold g0 in H1, H2, H3, H4, H5, H6. pose proof (addEdges_spec (held_rows s) limit None g0 (held_rows_NoDup s Hu) ltac:(done) Hl) as He.
  destruct (len (held_rows s) <=? limit); [|done]. destruct He as (g & Hg & Hc & Hp & Hch & Hhe & Hed). exists g. split; [done|].
  assert (forall (x y : Z), x ∉ adjacent ∅ y) as Hno by (intros x y; unfold adjacent; rewrite lookup_empty; apply not_elem_of_nil).
  split.
  - intros x. rewrite Hch, H2, elem_of_sorted, elem_of_held_events. cbn [checkins]. split; [intros [?%elem_of_nil|]; done|by right].
  - intros x. by rewrite Hhe, Hch, H3.
  - by rewrite Hch.
  - intros p c. rewrite Hc, H4. cbn [children]. split; [intros [?%Hno|]; done|by right].
  - intros p c. rewrite Hp, H5. cbn [parents]. split; [intros [?%Hno|]; done|by right].
  - rewrite Hed, H6. cbn [edges]. lia.
Qed.

(** ** The held set of a store *)
Definition linked (s : hstore) (p c : Z) : Prop := (p, c) ∈ plink_rows s /\ heldCheckin s p = true /\ heldCheckin s c = true.
Definition holds (s : hstore) (x : Z) : Prop := heldCheckin s x = true.

(** What of them lies at or below a rid. *)
Definition linked_upto (s : hstore) (t p c : Z) : Prop := linked s p c /\ p <= t /\ c <= t.
Definition holds_upto (s : hstore) (t x : Z) : Prop := holds s x /\ x <= t.

Lemma beyond_0 x : beyond 0 x = false.
Proof using. done. Qed.

Lemma beyond_le t x : 0 < t -> beyond t x = false <-> x <= t.
Proof using. intros Ht. unfold beyond. rewrite (proj2 (Z.gtb_lt t 0)) by done. cbn [andb]. rewrite Z.gtb_ltb, Z.ltb_ge. done. Qed.

Lemma graph_heldSet_spec s g c rule limit : reads s g -> holds s c -> 0 <= limit -> rule = RuleDescendants \/ rule = RuleLeaves ->
  bounded limit (graph_heldSet g c rule limit) (len (held_events s) * (len (held_events s) + 2)) (fun k =>
    ascending Z.ltb k /\ forall x, x ∈ k <-> keeps (linked s) (holds s) c rule x).
Proof using.
  intros Hr Hc Hl Hrule. unfold graph_heldSet. assert (negb (Byte.eqb rule RuleDescendants) && negb (Byte.eqb rule RuleLeaves) = false) as ->.
  { destruct Hrule as [->| ->]; done. }
  pose proof (hold_spec limit 0 g (reads_ok s g Hr) c rule) as Hh. rewrite (reads_checkins s g Hr), sorted_len in Hh.
  specialize (Hh ltac:(rewrite elem_of_sorted, elem_of_held_events; done) (beyond_0 c) Hl). unfold bounded in *.
  destruct (hold limit 0 g c rule) as [k|[]| |]; try done. cbn [obind]. split.
  - apply sorted_ascending. rewrite table_order_perm. apply NoDup_elements.
  - intros x. rewrite elem_of_sorted, table_order_perm, elem_of_elements, Hh.
    assert (forall a b, walk_link 0 g a b <-> linked s a b) as HL.
    { intros a b. unfold walk_link, linked. rewrite (rd_children s g Hr), elem_of_held_rows, !beyond_0. naive_solver. }
    assert (forall a, listed 0 g a <-> holds s a) as HV by (intros a; unfold listed, holds; rewrite (rd_checkins s g Hr), beyond_0; naive_solver).
    split; apply keeps_ext; try done; naive_solver.
Qed.
End Stored.

Section Theorems.
Context `{TO : !TableOrder}.

(** C9: The held set of a check-in the store holds is, ascending and each once,
    what the horizon draft's rules keep: its descendants and, by the leaves rule,
    those of every check-in where the ancestry of a childless check-in outside its
    line first meets its own.  The walks always end, and they give up only on a
    graph with more rows than the bound, or whose check-ins [n] make n (n + 2)
    exceed it. *)
Theorem held_exact s c rule limit : rows_unique s -> 0 < c -> 0 < limit -> rule = RuleDescendants \/ rule = RuleLeaves -> heldCheckin s c = true ->
  match heldSet s c rule limit with
  | Ok k => ascending Z.ltb k /\ forall x, x ∈ k <-> keeps (linked s) (holds s) c rule x
  | Err (ErrWalkBound _) => limit < len (held_rows s) \/ limit < len (held_events s) * (len (held_events s) + 2)
  | _ => False
  end.
Proof using.
  intros Hu Hc Hl Hrule Hheld. unfold heldSet. rewrite !(proj2 (Z.leb_gt _ _)), Hheld by done. cbn [negb].
  pose proof (loadGraph_spec s limit Hu ltac:(lia)) as Hload. assert (0 <= len (held_events s)) by (unfold len; lia).
  destruct (Z.leb_spec (len (held_events s)) limit), (Z.leb_spec (len (held_rows s)) limit); cbn [andb] in Hload;
    [|rewrite Hload; cbn [obind]; first [by left|right; nia]..].
  destruct Hload as (g & -> & Hr). cbn [obind]. pose proof (graph_heldSet_spec s g c rule limit Hr Hheld ltac:(lia) Hrule) as Hh. unfold bounded in Hh.
  destruct (graph_heldSet g c rule limit) as [k|[]| |]; try done. right. by destruct Hh.
Qed.

(** ** Extending a graph *)

(** The store has grown from [s] by the artifacts [rids]: check-ins held stay
    held, those now held besides are among the artifacts, and no link between two
    check-ins held before has come or gone. *)
Record grew (s s' : hstore) (rids : list Z) : Prop := {
  gr_kept x : holds s x -> holds s' x /\ x ∉ rids;
  gr_new x : holds s' x -> holds s x \/ x ∈ rids;
  gr_rows p c : holds s p -> holds s c -> (p, c) ∈ plink_rows s <-> (p, c) ∈ plink_rows s' }.

(** The same graph, but for the order of a check-in's links. *)
Definition same_graph (g g' : Graph) : Prop :=
  checkins g = checkins g' /\ held g = held g' /\ edges g = edges g'
  /\ (forall p c, c ∈ adjacent (children g) p <-> c ∈ adjacent (children g') p)
  /\ (forall p c, p ∈ adjacent (parents g) c <-> p ∈ adjacent (parents g') c).

Lemma reads_same s g g' : reads s g -> reads s g' -> same_graph g g'.
Proof using.
  intros Hg Hg'. assert (checkins g = checkins g') as Hc by by rewrite (reads_checkins s g Hg), (reads_checkins s g' Hg').
  split_and!; [done| |by rewrite (rd_edges s g Hg), (rd_edges s g' Hg')|intros p c; by rewrite (rd_children s g Hg), (rd_children s g' Hg')
    |intros p c; by rewrite (rd_parents s g Hg), (rd_parents s g' Hg')].
  apply leibniz_equiv. intros x. by rewrite (rd_held s g Hg), (rd_held s g' Hg'), Hc.
Qed.

Lemma split_len {A} (f : A -> bool) l k : NoDup l -> NoDup k -> (forall x, x ∈ k <-> x ∈ l /\ f x = false) -> len l = len k + len (List.filter f l).
Proof using.
  intros Hl Hk H. assert (Permutation l (k ++ List.filter f l)) as Hp; [|unfold len; rewrite Hp at 1; rewrite length_app; lia].
  apply NoDup_Permutation; [done| |].
  - apply NoDup_app. split; [done|]. split; [|by apply filter_NoDup]. intros x [_ Hx]%H [_ Hf]%elem_of_filter_list. congruence.
  - intros x. rewrite elem_of_app, H, elem_of_filter_list. destruct (f x); naive_solver.
Qed.

Lemma among_spec rids x : among rids x = true <-> x ∈ rids.
Proof using. unfold among. by rewrite bool_decide_eq_true. Qed.

Lemma grew_events s s' rids : grew s s' rids -> len (held_events s') = len (held_events s) + len (List.filter (among rids) (held_events s')).
Proof using.
  intros Hg. apply split_len; [apply held_events_NoDup..|]. intros x. rewrite !elem_of_held_events. split.
  - intros [H1 H2]%(gr_kept _ _ _ Hg). split; [done|]. destruct (among rids x) eqn:E; [|done]. by apply among_spec in E.
  - intros [[H|H]%(gr_new _ _ _ Hg) Hf]; [done|]. apply among_spec in H. congruence.
Qed.

Lemma grew_rows s s' rids : rows_unique s -> rows_unique s' -> grew s s' rids ->
  let new := fun e => among rids (snd e) || among rids (fst e) in
  (forall p c, (p, c) ∈ held_rows s' <-> (p, c) ∈ held_rows s \/ (p, c) ∈ List.filter new (held_rows s'))
  /\ len (held_rows s') = len (held_rows s) + len (List.filter new (held_rows s')).
Proof using.
  intros Hu Hu' Hg new. assert (forall p c, (p, c) ∈ held_rows s <-> (p, c) ∈ held_rows s' /\ new (p, c) = false) as Hold.
  { intros p c. rewrite !elem_of_held_rows. unfold new. cbn [fst snd]. rewrite orb_false_iff. split.
    - intros (H & Hp & Hc). destruct (gr_kept _ _ _ Hg p Hp) as [Hp' Hpn], (gr_kept _ _ _ Hg c Hc) as [Hc' Hcn].
      split; [split_and!; [by apply (gr_rows _ _ _ Hg)|done|done]|].
      split; [destruct (among rids c) eqn:E|destruct (among rids p) eqn:E]; try done; by apply among_spec in E.
    - intros ((H & Hp & Hc) & Hcn & Hpn). destruct (gr_new _ _ _ Hg p Hp) as [Hp'|Hp']; [|apply among_spec in Hp'; congruence].
      destruct (gr_new _ _ _ Hg c Hc) as [Hc'|Hc']; [|apply among_spec in Hc'; congruence]. split_and!; [by apply (gr_rows _ _ _ Hg)|done|done]. }
  split.
  - intros p c. rewrite elem_of_filter_list, Hold. destruct (new (p, c)); naive_solver.
  - apply split_len; [by apply held_rows_NoDup..|]. intros [p c]. apply Hold.
Qed.

Lemma Extend_spec s s' rids g : rows_unique s -> rows_unique s' -> grew s s' rids -> reads s g ->
  len (held_events s) <= heldSetNodes -> len (held_rows s) <= heldSetNodes ->
  if (len (held_events s') <=? heldSetNodes) && (len (held_rows s') <=? heldSetNodes) then exists g', Extend s' rids g = Ok g' /\ reads s' g'
  else Extend s' rids g = Err (ErrWalkBound heldSetNodes).
Proof using.
  intros Hu Hu' Hg Hr Hne Hnr. pose proof (grew_events s s' rids Hg) as He. destruct (grew_rows s s' rids Hu Hu' Hg) as [Hrows Hlen].
  assert (forall x, heldCheckin s' x = true <-> heldCheckin s x = true \/ x ∈ List.filter (among rids) (held_events s')) as Hheld.
  { intros x. rewrite elem_of_filter_list, elem_of_held_events, among_spec. split; [intros H; destruct (gr_new _ _ _ Hg x H); naive_solver|].
    intros [H|[H _]]; [by apply (gr_kept _ _ _ Hg)|done]. }
  destruct rids as [|rid rids].
  { assert (List.filter (among []) (held_events s') = []) as E1 by (apply List.filter_false || (induction (held_events s') as [|x l IH]; [done|]; by cbn)).
    assert (forall l : list (Z * Z), List.filter (fun e => among [] (snd e) || among [] (fst e)) l = []) as E2 by (induction l as [|x l IH]; [done|]; by cbn).
    rewrite E1 in He, Hheld. rewrite E2 in Hlen, Hrows. change (len (@nil Z)) with 0 in He. change (len (@nil (Z * Z))) with 0 in Hlen.
    rewrite !(proj2 (Z.leb_le _ _)) by lia. cbn [andb Extend]. exists g. split; [done|]. destruct Hr as [H1 H2 H3 H4 H5 H6].
    split; [intros x; rewrite H1, Hheld|done|done|intros p c; rewrite H4, Hrows|intros p c; rewrite H5, Hrows|lia]; rewrite elem_of_nil; naive_solver. }
  unfold Extend. set (l := rid :: rids) in *. rewrite (reads_checkins s g Hr), sorted_len, heldCheckins_spec by lia.
  set (added := List.filter (among l) (held_events s')) in *. destruct (Z.leb_spec (len added) (heldSetNodes - len (held_events s))) as [Ha|Ha]; cbn [obind].
  2:{ rewrite (proj2 (Z.leb_gt _ _)) by lia. done. }
  rewrite (proj2 (Z.leb_le (len (held_events s')) _)) by lia. cbn [andb].
  assert (NoDup (sorted_rids added)) as Hnd by (unfold sorted_rids; rewrite insertion_sort_perm; apply filter_NoDup, held_events_NoDup).
  destruct (addCheckins_spec (sorted_rids added) g Hnd (rd_order s g Hr) (rd_held s g Hr)) as (H1 & H2 & H3 & H4 & H5 & H6).
  set (g0 := addCheckins _ g) in *. set (rows := List.filter _ (held_rows s')) in *. rewrite (rd_edges s g Hr).
  pose proof (addEdges_spec rows (heldSetNodes - len (held_rows s)) (Some ∅) g0 (filter_NoDup _ _ (held_rows_NoDup s' Hu')) ltac:(intros ? ? [= <-]; apply not_elem_of_empty) ltac:(lia)) as Hx.
  destruct (Z.leb_spec (len rows) (heldSetNodes - len (held_rows s))) as [Hb|Hb].
  2:{ rewrite (proj2 (Z.leb_gt _ _)) by lia. done. }
  rewrite (proj2 (Z.leb_le (len (held_rows s')) _)) by lia. destruct Hx as (g' & Hg' & Hc & Hp & Hch & Hhe & Hed). exists g'. split; [done|]. split.
  - intros x. by rewrite Hch, H2, elem_of_sorted, (rd_checkins s g Hr), Hheld.
  - intros x. by rewrite Hhe, Hch, H3.
  - by rewrite Hch.
  - intros p c. by rewrite Hc, H4, (rd_children s g Hr), Hrows.
  - intros p c. by rewrite Hp, H5, (rd_parents s g Hr), Hrows.
  - rewrite Hed, H6, (rd_edges s g Hr). lia.
Qed.

(** C22: A graph read before the store grew, extended by the artifacts that have
    come since, is the graph a fresh reading gives, down to the count of its
    links; and extending gives up exactly where reading afresh does. *)
Theorem extend_is_reload s s' rids g : rows_unique s -> rows_unique s' -> grew s s' rids -> LoadGraph s = Ok g ->
  match LoadGraph s' with
  | Ok g1 => exists g2, Extend s' rids g = Ok g2 /\ same_graph g1 g2
  | r => Extend s' rids g = Err (ErrWalkBound heldSetNodes) /\ r = Err (ErrWalkBound heldSetNodes)
  end.
Proof using.
  intros Hu Hu' Hg Hload. unfold LoadGraph in *. pose proof (loadGraph_spec s heldSetNodes Hu ltac:(done)) as H. pose proof (loadGraph_spec s' heldSetNodes Hu' ltac:(done)) as H'.
  destruct (Z.leb_spec (len (held_events s)) heldSetNodes) as [Hne|], (Z.leb_spec (len (held_rows s)) heldSetNodes) as [Hnr|]; cbn [andb] in H; [|congruence..].
  destruct H as (g0 & Hg0 & Hr). assert (g0 = g) as -> by congruence. pose proof (Extend_spec s s' rids g Hu Hu' Hg Hr Hne Hnr) as He.
  destruct (_ && _); [|by rewrite H']. destruct H' as (g1 & -> & Hr1), He as (g2 & He & Hr2). exists g2. split; [done|]. by apply (reads_same s').
Qed.

(** ** Cursors *)
Lemma some_joined_spec k cursor (past : gset Z) : ascending Z.ltb k -> some_joined k cursor past = true <-> exists x, x ∈ k /\ x <= cursor /\ x ∉ past.
Proof using.
  induction 1 as [|rid k Hk IH Hf]; cbn [some_joined]; [split; [done|by intros (? & ?%elem_of_nil & _)]|].
  rewrite Z.gtb_ltb. destruct (Z.ltb_spec cursor rid) as [Hb|Hb].
  - split; [done|]. intros (x & [->|Hx]%elem_of_cons & Hle & _); [lia|]. rewrite Forall_forall in Hf. specialize (Hf x Hx). lia.
  - case_bool_decide as Hin; cbn [negb].
    + rewrite IH. split; intros (x & Hx & H); exists x; (split; [|done]); [by right|]. apply elem_of_cons in Hx as [->|]; [by destruct H|done].
    + split; [|done]. intros _. exists rid. split; [by left|]. by split.
Qed.

(** C33: [JoinedAfter] answers, of a graph read from the store, whether some
    check-in at or below the cursor is held now although the check-ins at or
    below the cursor alone would not have held it. *)
Theorem joined_after_exact s g c rule k cursor : rows_unique s -> LoadGraph s = Ok g -> (forall x, holds s x -> 0 < x) ->
  rule = RuleDescendants \/ rule = RuleLeaves -> Graph_HeldSet g c rule = Ok k -> 0 <= cursor ->
  match JoinedAfter g c rule k cursor with
  | Ok b => b = true <-> exists x, x <= cursor /\ keeps (linked s) (holds s) c rule x
                         /\ ~ (c <= cursor /\ keeps (linked_upto s cursor) (holds_upto s cursor) c rule x)
  | Err (ErrWalkBound _) => heldSetNodes < len (held_events s) * (len (held_events s) + 2)
  | _ => False
  end.
Proof using.
  intros Hu Hload Hpos Hrule Hk Hcur. unfold LoadGraph in Hload. pose proof (loadGraph_spec s heldSetNodes Hu ltac:(done)) as H. rewrite Hload in H.
  destruct (_ && _) in H; [|done]. destruct H as (g0 & [= <-] & Hr). unfold Graph_HeldSet in Hk. case_bool_decide as Hc; cbn [negb] in Hk; [|done].
  assert (holds s c) as Hcs by by apply (rd_checkins s g Hr), (rd_held s g Hr).
  pose proof (graph_heldSet_spec s g c rule heldSetNodes Hr Hcs ltac:(done) Hrule) as Hset. rewrite Hk in Hset. destruct Hset as [Hasc Hin].
  assert (forall x, x ∈ k -> 0 < x) as Hkpos.
  { intros x [Hx|(_ & leaf & m & _ & [_ Hm] & Hx)]%Hin; apply Hpos.
    - destruct (rtc_inv_r _ _ Hx) as [<-|(y & _ & _ & _ & H)]; done.
    - destruct (rtc_inv_r _ _ Hx) as [<-|(y & _ & _ & _ & H)]; [|done]. inversion Hm as [|a b z Hab _]; subst; [done|apply Hab]. }
  unfold JoinedAfter. rewrite (proj2 (Z.ltb_ge _ _)) by done. destruct k as [|first k'] eqn:Ek.
  { split; [done|]. intros (x & _ & ?%Hin%elem_of_nil & _). done. }
  rewrite <- Ek in *. rewrite Z.gtb_ltb. destruct (Z.ltb_spec cursor first) as [Hf|Hf].
  { split; [done|]. intros (x & Hx & Hkx%Hin & _). exfalso. rewrite Ek in Hasc, Hkx. apply elem_of_cons in Hkx as [->|Hkx]; [lia|].
    inversion Hasc as [|? ? _ Hall]; subst. rewrite Forall_forall in Hall. specialize (Hall x Hkx). lia. }
  assert (0 < first) as Hfpos by (apply Hkpos; rewrite Ek; by left). assert (0 < cursor) as Ht by lia.
  destruct (Z.leb_spec c cursor) as [Hcc|Hcc]; cbn [obind].
  2:{ rewrite some_joined_spec by done. split; intros (x & H1 & H2); exists x; [|by split_and!; [apply Hin, H2|done|apply not_elem_of_empty]].
      split; [apply H2|]. split; [by apply Hin|]. intros [? _]. lia. }
  pose proof (hold_spec heldSetNodes cursor g (reads_ok s g Hr) c rule) as Hh. rewrite (reads_checkins s g Hr), sorted_len in Hh.
  specialize (Hh ltac:(rewrite elem_of_sorted, elem_of_held_events; done) ltac:(by apply beyond_le) ltac:(done)). unfold bounded in Hh.
  destruct (hold heldSetNodes cursor g c rule) as [past|[]| |]; try done; cbn [obind]; [|by destruct Hh].
  assert (forall x, x ∈ past <-> keeps (linked_upto s cursor) (holds_upto s cursor) c rule x) as Hpast.
  { intros x. rewrite Hh.
    assert (forall a b, walk_link cursor g a b <-> linked_upto s cursor a b) as HL.
    { intros a b. unfold walk_link, linked_upto, linked. rewrite (rd_children s g Hr), elem_of_held_rows, !beyond_le by done. naive_solver. }
    assert (forall a, listed cursor g a <-> holds_upto s cursor a) as HV by (intros a; unfold listed, holds_upto, holds; rewrite (rd_checkins s g Hr), beyond_le by done; naive_solver).
    split; apply keeps_ext; try done; naive_solver. }
  rewrite some_joined_spec by done. split; intros (x & H1 & H2 & H3); exists x.
  - split; [done|]. split; [by apply Hin|]. intros [_ H]. by apply H3, Hpast.
  - split; [by apply Hin|]. split; [done|]. intros H. apply H3. split; [done|by apply Hpast].
Qed.
End Theorems.

(** Both rules keep whatever descends from what they keep. *)
Lemma keeps_closed L V c rule x y : keeps L V c rule x -> L x y -> keeps L V c rule y.
Proof.
  intros [H|(-> & leaf & m & Hs & Hm & H)] Hxy; [left; by eapply rtc_r|right]. split; [done|]. exists leaf, m. split; [done|]. split; [done|]. by eapply rtc_r.
Qed.

(** ** Demonstrations: 1 - 2 - 3, and 4 on a branch from 2 *)
Section Demo.
Definition demo_store (rids : list Z) (rows : list (Z * Z)) : hstore :=
  mk_hstore (list_to_map (map (fun r => (r, bs "ci")) rids)) ∅ rows ∅.
Definition before : hstore := demo_store [1; 2; 3] [(1, 2); (2, 3)].
Definition after : hstore := demo_store [1; 2; 3; 4] [(1, 2); (2, 3); (2, 4)].
Definition graph_of (s : hstore) : Graph := match LoadGraph s with Ok g => g | _ => mk_Graph ∅ ∅ [] ∅ 0 end.

Lemma held_by_demo (f : Z -> bool) s : forallb f (held_events s) = true -> forall x, holds s x -> f x = true.
Proof. intros H x Hx. rewrite forallb_forall in H. by apply H, list_elem_of_In, elem_of_held_events. Qed.

Lemma demo_unique s : bool_decide (NoDup (plink_rows s)) = true -> rows_unique s.
Proof. by intros H%bool_decide_eq_true. Qed.

Lemma demo_grew : grew before after [4].
Proof.
  split.
  - intros x Hx. assert (heldCheckin after x && negb (x =? 4) = true) as [H1 H2]%andb_true_iff.
    { apply (held_by_demo (fun x => heldCheckin after x && negb (x =? 4)) before); [vm_compute; reflexivity|exact Hx]. }
    split; [exact H1|]. intros ->%list_elem_of_singleton. done.
  - intros x Hx. assert (heldCheckin before x || (x =? 4) = true) as [H|H]%orb_true_iff; [|by left|right; apply list_elem_of_singleton; lia].
    apply (held_by_demo (fun x => heldCheckin before x || (x =? 4)) after); [vm_compute; reflexivity|exact Hx].
  - intros p c _ Hc. cbn. rewrite !elem_of_cons, !elem_of_nil. split; [naive_solver|]. intros [|[|[[= -> ->]|]]]; [naive_solver..| |done].
    by vm_compute in Hc.
Qed.

Lemma held_exact_witness : heldSet after 3 RuleLeaves 100 = Ok [2; 3; 4] /\ forall x, x ∈ [2; 3; 4] <-> keeps (linked after) (holds after) 3 RuleLeaves x.
Proof.
  pose proof (held_exact after 3 RuleLeaves 100 (demo_unique after eq_refl) eq_refl eq_refl (or_intror eq_refl) eq_refl) as H.
  assert (heldSet after 3 RuleLeaves 100 = Ok [2; 3; 4]) as E by (vm_compute; reflexivity). rewrite E in H. split; [exact E|apply H].
Defined.

Lemma extend_is_reload_witness : exists g2, Extend after [4] (graph_of before) = Ok g2 /\ same_graph (graph_of after) g2.
Proof.
  assert (LoadGraph before = Ok (graph_of before)) as E by (vm_compute; reflexivity).
  pose proof (extend_is_reload before after [4] (graph_of before) (demo_unique before eq_refl) (demo_unique after eq_refl) demo_grew E) as H.
  assert (LoadGraph after = Ok (graph_of after)) as E' by (vm_compute; reflexivity). rewrite E' in H. exact H.
Defined.

(** 2 joined when 4 was appended. *)
Lemma joined_after_exact_witness : JoinedAfter (graph_of after) 3 RuleLeaves [2; 3; 4] 3 = Ok true
  /\ exists x, x <= 3 /\ keeps (linked after) (holds after) 3 RuleLeaves x /\ ~ (3 <= 3 /\ keeps (linked_upto after 3) (holds_upto after 3) 3 RuleLeaves x).
Proof.
  assert (LoadGraph after = Ok (graph_of after)) as E by (vm_compute; reflexivity).
  assert (Graph_HeldSet (graph_of after) 3 RuleLeaves = Ok [2; 3; 4]) as Ek by (vm_compute; reflexivity).
  assert (forall x, holds after x -> 0 < x) as Hpos by (intros x Hx; apply Z.ltb_lt; exact (held_by_demo (fun x => 0 <? x) after eq_refl x Hx)).
  pose proof (joined_after_exact after (graph_of after) 3 RuleLeaves [2; 3; 4] 3 (demo_unique after eq_refl) E Hpos (or_intror eq_refl) Ek ltac:(lia)) as H.
  assert (JoinedAfter (graph_of after) 3 RuleLeaves [2; 3; 4] 3 = Ok true) as Ej by (vm_compute; reflexivity).
  rewrite Ej in H. split; [exact Ej|]. apply H. reflexivity.
Defined.
End Demo.
